(* ===== verification/_CoqProject ===== *)
-Q . S2P
Prelude.v
Sdk.v
MapOrder.v
Epochs.v
Runtime.v
KeyedAccount.v
Message.v
InvokeContext.v
InvokeProofs.v
InvokeSample.v
InvokeLedger.v
Codec.v
SystemProgram.v
SystemTheorems.v
ConfigProgram.v
VoteState.v
VoteProofs.v
VoteAuthority.v
VoteInstruction.v
VoteTheorems.v
StakeState.v
StakeProofs.v
StakeInstruction.v
StakeTheorems.v
StakeSample.v
BankRewards.v
StakesCache.v
StakesProofs.v
StakesTheorems.v
TokenState.v
TokenInstruction.v
TokenProcessor.v
TokenStore.v
TokenAuthority.v
TokenSpec.v
TokenEffects.v
TokenLedger.v
TokenTheorems.v
TokenGuard.v
ProgramAddress.v
TokenClient.v
TokenCalls.v
SwapMath.v
SwapCurve.v
SwapCurveProofs.v
SwapRange.v
SwapSqrt.v
SwapSingleProofs.v
SwapState.v
SwapProcessor.v
SwapPool.v
SwapSpec.v
SwapTheorems.v
SwapSample.v
LendingMath.v
LendingState.v
LendingPack.v
LendingInstructions.v
LendingOracle.v
LendingProcessor.v
LendingReserve.v
LendingTheorems.v
ForkChoice.v
ForkChoiceTree.v
ForkChoiceAggregate.v
ForkChoiceProofs.v
ForkChoiceLeaf.v
ForkChoiceRoot.v
ForkChoiceMarks.v
ForkChoiceCount.v
ForkChoiceEvents.v
ForkChoiceTheorems.v
SlotHistory.v
LatestVotes.v
Consensus.v
ConsensusProofs.v
ConsensusSwitch.v
ConsensusStakes.v
ConsensusRestart.v
ConsensusTheorems.v
