(* ===== verification/Prelude.v ===== *)
(** * Verification of the Analog ledger programs (root file and prelude)

    The repository holds a fork of the Solana validator ([src/testnet], in
    which lamports are called [tock]) and the Solana program library
    ([src/solana-program-library]).  This development models the code that
    decides who owns what on that ledger: the programs that keep account
    state, the runtime that executes and checks them, the payment of inflation
    rewards; and the code that decides which ledger it is: the stakes the bank
    derives from the accounts, and the choice between forks they weigh.

    ** The parts and how they interact

    A ledger is a finite map from addresses to accounts ([Sdk.store]); an
    account has lamports, an owner (the program that controls it), data, and
    two flags.  A transaction carries a message, a table of addresses with
    instructions that refer to it by position.  The message processor runs the
    instructions in turn: it calls the program an instruction names, which may
    invoke other programs, and after each call compares every account with the
    snapshot taken before it.  The programs only compute on the data of their
    own accounts; that nobody else changes these is the runtime's promise.
    [InvokeContext] executes messages, [Runtime.verify_instruction] is the
    promise, [InvokeLedger] proves the one from the other, and the token ledger
    ([TokenLedger.ledger_step]) relies on it.  The token-swap and
    the token-lending programs act on tokens through invocations of the token
    program, here [TokenProcessor] itself.

    The bank caches the delegations in stake accounts and the stake of every
    vote account ([StakesCache]); at an epoch boundary it takes a snapshot.
    Fork choice ([ForkChoice]) weighs the latest votes of the validators by
    the snapshot of the epoch of the slot voted for, and tells the block to
    build on; the votes reach it through the latest votes of every validator
    ([LatestVotes]).  A validator decides on its own votes with its tower
    ([Consensus]), which is the vote state of the vote program kept locally.

    ** Files and sources

    - [Prelude] (this file): the result monad with Rust's [Ok], [Err] and
      panics, machine integers, little-endian bytes, sums over finite maps,
      the tactics [inv_ok], [to_prop], [case_if], [inv_checked].
    - [MapOrder]: Rust's [Ord] as a class with its laws, the order in which a
      [BTreeMap] is visited, weighted sums over maps and lists.
    - [Sdk]: [sdk/program/src] [account_info.rs], [program_error.rs],
      [program_pack.rs] (the class [Pack] and its laws [PackOk]), [rent.rs]
      with IEEE doubles.
    - [Epochs]: [sdk/program/src/epoch_schedule.rs].
    - [Runtime]: [program-runtime/src/instruction_processor.rs], the rules of
      [PreAccount::verify] and the check of an instruction.
    - [KeyedAccount]: [sdk/src/keyed_account.rs], [account_utils.rs]; how
      native programs reach their accounts.
    - [Message]: [sdk/program/src/message], the compilation of instructions
      ([get_keys], [Message::new]), privileges by position, sanitization and
      the instructions sysvar.
    - [InvokeContext]: [program-runtime/src/invoke_context.rs],
      [instruction_processor.rs] and [runtime/src/message_processor.rs]: the
      stack of invocations over shared account cells, [push], [verify],
      [verify_and_update], [create_message], [native_invoke] and
      [process_message].  [InvokeProofs], [InvokeSample] and [InvokeLedger]
      prove what it guarantees of arbitrary programs.
    - [SystemProgram], [SystemTheorems]:
      [runtime/src/system_instruction_processor.rs] and
      [nonce_keyed_account.rs].
    - [ConfigProgram]: [programs/config/src/config_processor.rs].
    - [VoteState], [VoteInstruction]: [programs/vote/src]; the tower of
      lockouts, credits, the calendar of voters ([VoteState]) and the
      instructions on accounts ([VoteInstruction]).  [VoteProofs],
      [VoteAuthority] and [VoteTheorems] hold their theorems.
    - [StakeState], [StakeInstruction]: [sdk/program/src/stake],
      [stake_history.rs] and [programs/stake/src]; delegations, warm-up and
      cool-down, rewards, and the instructions on accounts.  [StakeProofs],
      [StakeTheorems] and [StakeSample] hold their theorems.
    - [BankRewards]: [pay_validator_rewards_with_thread_pool] of
      [runtime/src/bank.rs].
    - [StakesCache]: [runtime/src] [vote_account.rs], [stakes.rs] and
      [epoch_stakes.rs].  [StakesProofs] and [StakesTheorems] hold the theorems.
    - [TokenState], [TokenInstruction], [TokenProcessor]:
      [token/program/src] [state.rs], [instruction.rs], [error.rs] and
      [processor.rs].  [TokenStore] is the store of typed token accounts,
      [TokenAuthority] what counts as a signature, and [TokenSpec] the
      specification: for each instruction its guards, signatures and effect.
      [TokenEffects] draws from it what the invariants need; [TokenLedger] and
      [TokenTheorems] hold the theorems; [TokenGuard] is what a program can rely on of the token accounts and
      mints under an address that only it signs for.
    - [ProgramAddress]: [sdk/program/src/pubkey.rs], addresses derived for
      programs.
    - [TokenClient]: the instructions of [token/program/src/instruction.rs] that
      other programs make, and their invocation; [TokenCalls] is what such an
      invocation does.
    - [SwapMath], [SwapCurve], [SwapState], [SwapProcessor]:
      [libraries/math/src] and [token-swap/program/src]; fixed-point numbers and
      the curves, the state and instructions of a pool, the handlers.
      [SwapCurveProofs], [SwapRange], [SwapSqrt], [SwapSingleProofs],
      [SwapPool], [SwapTheorems] and [SwapSample] hold their theorems;
      [SwapSpec] is the specification, the plan of token instructions of each
      instruction of the program.
    - [LendingMath], [LendingState], [LendingPack], [LendingInstructions],
      [LendingOracle], [LendingProcessor]: [token-lending/program/src];
      decimals and rates, reserves and obligations, their stored formats, the
      instructions, the price oracle's accounts, the handlers.
      [LendingReserve] and [LendingTheorems] hold their theorems.
    - [ForkChoice]: [core/src] [heaviest_subtree_fork_choice.rs] and
      [tree_diff.rs].  [ForkChoiceTree] (paths and the traversal),
      [ForkChoiceAggregate] (batches of updates), [ForkChoiceProofs] (the
      invariant and votes), [ForkChoiceLeaf], [ForkChoiceRoot] and
      [ForkChoiceMarks] (the other operations), [ForkChoiceCount] (the
      reference), [ForkChoiceEvents] and [ForkChoiceTheorems].
    - [SlotHistory]: [sdk/program/src/slot_history.rs].
    - [LatestVotes]: [core/src/latest_validator_votes_for_frozen_banks.rs] and
      the update of fork choice with its votes.
    - [Consensus]: [core/src/consensus.rs], the tower of a validator, with what
      it reads of [progress_map.rs].  [ConsensusProofs] (lockouts),
      [ConsensusSwitch] (the switch between forks), [ConsensusStakes] (the
      stakes counted for a bank), [ConsensusRestart] and [ConsensusTheorems]
      hold the theorems.
    - [Codec]: concrete encoders for the states the programs serialize, used
      where a theorem is applied to sample data.

    Each file names the functions it models where they are not evident from
    the name, which is kept from the source where possible.  A definition for
    a part of a function (a loop, the arm of a match) stands next to it.

    ** What the theorems show

    - Token program: every accepted instruction meets the specification of the
      instruction that was sent, with all its guards and signatures; from there
      supply bounds, conservation, authorization of spending, frozen accounts,
      fixed supplies and the backing of wrapped lamports, on every ledger that
      is reachable while the rent asks for a positive balance from a mint; when
      exactly a transfer is accepted; the binary formats round-trip.
    - Runtime: a message conserves lamports and keeps its read-only accounts
      whatever the programs do to the accounts of their instructions,
      invocation adds no privileges, depth is bounded, and execution refines
      the account rules.  The theorems are about the table of the accounts of
      the message, which is what is stored afterwards; the programs and loaders
      loaded behind it are arbitrary.  The compilation of messages is exact
      unless an address is promoted to writable; a theorem shows what
      privileges are exchanged then.
    - Vote program: towers stay well formed, locked votes stay, the votes
      accepted are those the slot hashes support, authority and calendar.
    - Stake program: stake follows its history within bounds and in finitely
      many turns, outflow and authorities are guarded, delegations stay backed
      (with two exceptions: a rescinded deactivation, which a theorem shows to
      ignore the balance, and a split into an account of more bytes than its
      source), credits are paid once; a round of rewards mints no more than its
      pool, and does not fail while its numbers fit.
    - Token swap: an accepted instruction carries out its plan of token
      instructions and nothing else, swaps honour the limits of the user, move
      the amounts of the curve and never lower the value of the reserves, deposits and withdrawals do not dilute the other
      shares, a pool stays open; a run shows where the stable curve pays for
      nothing.
    - Token lending: deposits do not dilute the shares of a reserve, interest
      follows the configured curve, loans stay within what the collateral allows
      and liquidations within the close factor and the bonus; the stored
      formats and the instructions round-trip.  A theorem shows that a new debt
      is charged the interest of the past.
    - Stakes: the cached stakes are those computed from the delegations, after
      any sequence of stores and epoch boundaries; the parallel computation at
      an epoch boundary equals the former sequential one; epochs partition the
      slots.
    - Fork choice: after any sequence of operations the stored weights equal a
      recount of the latest votes and the stored best blocks equal a walk to
      the heaviest candidate child; no operation panics; invalid blocks leave
      the choice and confirmed ones return.
    - Tower: a validator never leaves a fork while its vote is locked out; the
      decision on a switch is given case by case, and another fork needs the
      proof that enough stake is locked out elsewhere, of validators counted
      once; the stakes counted for a bank are those of the
      standing votes; after a restart just the votes that were not replayed
      stay.  Slot history and latest votes keep exactly what was added, but for
      a second version of a slot that fork choice does not see, shown by a run.
    - System and config programs: changes need signatures, accounts are
      created exactly as asked, a nonce advances once.

    ** Conventions, bounds and fuel

    Integers are [Z]; checked, saturating and unchecked operations are
    distinguished and carry their width, the unchecked ones wrap as in a
    release build.  Bytes are integers in [list Z].  Code from crates outside
    the repository is a parameter: [bincode] (an encoder and a decoder, with
    the law that decoding reads back what was encoded and ignores what
    follows), SHA-256, and the entry points of programs.  Feature gates are
    arguments.

    Recursions that are not structural take fuel.  The search of the stake
    history and the loops over it take the length of the history plus one:
    each turn narrows the search or moves to a later entry
    ([StakeProofs.epoch_loops_terminate]).  Invocations take
    [max_invoke_depth + 1]: [push] refuses deeper stacks
    ([InvokeProofs.invocations_bounded]).  [Runtime.PreAccount.chunks_exact]
    takes the length of its input, each turn consuming a chunk.  The loops of
    fork choice take the number of blocks, as slots increase along the tree
    ([ForkChoiceTheorems.fork_choice_never_panics]); the iterations of the swap
    curves take the bounds of the source.  The search for the quote currency in
    the attributes of an oracle's product takes their number of bytes plus one:
    each turn moves forward ([LendingOracle.find_quote_fuel]).

    ** Not modelled

    Compute budgets, logs, timings and the recording of inner instructions,
    which do not change the outcome of an accepted instruction; the bytecode
    loaders, which run an external virtual machine; client-side builders of
    instructions; how the bank loads and stores accounts and the accounts
    database (concurrent, file backed); the threads that replay and produce
    blocks, and the storage of towers in files; storage, networking and RPC; the
    other programs of the program library (stake pool, governance and further
    ones) and the separate applications of the repository.  The elliptic-curve
    test of program addresses and the program that receives a flash loan are
    parameters. *)

From stdpp Require Import base gmap list fin_maps strings.
From Stdlib Require Import ZArith Lia SpecFloat.

#[global] Open Scope Z_scope.

(** ** Fallible Rust code

    [Ok]/[Err] are the two constructors of Rust's [Result]; [Panic] is an
    aborted run (slice index out of range, [assert!], [unwrap] on [None]). *)
Inductive result (E A : Type) : Type :=
| Ok (a : A)
| Err (e : E)
| Panic.
Arguments Ok {E A} a.
Arguments Err {E A} e.
Arguments Panic {E A}.

#[global] Instance result_ret {E} : MRet (result E) := fun _ a => Ok a.
#[global] Instance result_bind {E} : MBind (result E) := fun _ _ k r =>
  match r with Ok a => k a | Err e => Err e | Panic => Panic end.
#[global] Instance result_fmap {E} : FMap (result E) := fun _ _ f r =>
  match r with Ok a => Ok (f a) | Err e => Err e | Panic => Panic end.

(** [if c { return Err(e) }] as a statement. *)
Definition fail_if {E} (c : bool) (e : E) : result E unit :=
  if c then Err e else Ok tt.

(** [assert!(c)] and the bounds checks of slices. *)
Definition panic_unless {E} (c : bool) : result E unit :=
  if c then Ok tt else Panic.

(** [Option::ok_or]. *)
Definition ok_or {E A} (o : option A) (e : E) : result E A :=
  match o with Some a => Ok a | None => Err e end.

(** [Option::unwrap]. *)
Definition unwrap {E A} (o : option A) : result E A :=
  match o with Some a => Ok a | None => Panic end.

(** [Result::map_err]. *)
Definition map_err {E F A} (f : E -> F) (r : result E A) : result F A :=
  match r with Ok a => Ok a | Err e => Err (f e) | Panic => Panic end.

Definition is_ok {E A} (r : result E A) : bool :=
  match r with Ok _ => true | _ => false end.

(** The value of a computation that succeeds; to evaluate a run, it is enough
    to evaluate whether it succeeds. *)
Definition value_or {E A} (d : A) (r : result E A) : A :=
  match r with Ok a => a | _ => d end.
Lemma is_ok_value {E A} (d : A) (r : result E A) : is_ok r = true -> r = Ok (value_or d r).
Proof. by destruct r. Qed.

Section ResultLemmas.
Context {E A B : Type}.
Implicit Types (r : result E A) (k : A -> result E B).

Lemma bind_Ok r k b :
  (r ≫= k) = Ok b <-> exists a, r = Ok a /\ k a = Ok b.
Proof.
  destruct r; cbn; split; try done; eauto.
  - intros (? & [= <-] & H); done.
  - intros (? & ? & _); done.
  - intros (? & ? & _); done.
Qed.

Lemma bind_assoc {C} r k (h : B -> result E C) :
  (r ≫= k) ≫= h = r ≫= (fun a => k a ≫= h).
Proof. by destruct r. Qed.

Lemma fail_if_Ok (c : bool) (e : E) u : fail_if c e = Ok u <-> c = false.
Proof. destruct c, u; cbn; split; congruence. Qed.

Lemma panic_unless_Ok (c : bool) u :
  panic_unless (E := E) c = Ok u <-> c = true.
Proof. destruct c, u; cbn; split; congruence. Qed.

Lemma ok_or_Ok (o : option A) (e : E) a : ok_or o e = Ok a <-> o = Some a.
Proof. destruct o; cbn; split; congruence. Qed.

Lemma unwrap_Ok (o : option A) a : unwrap (E := E) o = Ok a <-> o = Some a.
Proof. destruct o; cbn; split; congruence. Qed.

Lemma map_err_Ok {F} (f : E -> F) r a : map_err f r = Ok a <-> r = Ok a.
Proof. destruct r; cbn; split; congruence. Qed.
End ResultLemmas.

Lemma fail_if_returns {E B} (c : bool) (e : E) (k : result E B) :
  (exists y, (fail_if c e ;; k) = Ok y) <-> c = false /\ exists y, k = Ok y.
Proof. destruct c; cbn; naive_solver. Qed.

Lemma bind_returns {E A B} (r : result E A) (k : A -> result E B) :
  (exists y, r ≫= k = Ok y) <-> exists x, r = Ok x /\ exists y, k x = Ok y.
Proof. destruct r; cbn; naive_solver. Qed.

(** Decompose every successful computation of the context into its steps. *)
Ltac inv_ok_step :=
  match goal with
  | H : Ok _ = Ok _ |- _ => injection H as H; try subst
  | H : Err _ = Ok _ |- _ => discriminate H
  | H : Panic = Ok _ |- _ => discriminate H
  | H : mret _ = Ok _ |- _ => injection H as H; try subst
  | H : (_ ≫= _) = Ok _ |- _ =>
      let x := fresh "x" in let H1 := fresh "Hr" in
      apply bind_Ok in H as (x & H1 & H); cbv beta in H
  | H : fail_if _ _ = Ok ?u |- _ => apply fail_if_Ok in H; try clear u
  | H : panic_unless _ = Ok ?u |- _ => apply panic_unless_Ok in H; try clear u
  | H : ok_or _ _ = Ok _ |- _ => apply ok_or_Ok in H
  | H : unwrap _ = Ok _ |- _ => apply unwrap_Ok in H
  | H : map_err _ _ = Ok _ |- _ => apply map_err_Ok in H
  | H : match ?x with pair _ _ => _ end = Ok _ |- _ =>
      is_var x; destruct x as [? ?]; cbv beta iota in H
  | H : Some _ = Some _ |- _ => injection H as H; try subst
  | H : None = Some _ |- _ => discriminate H
  | H : (_, _) = (_, _) |- _ => injection H as H; try subst
  end.
Ltac inv_ok := repeat inv_ok_step.

(** Case analysis on the innermost conditional of a hypothesis. *)
Ltac case_if H :=
  let E := fresh "E" in
  match type of H with
  | context [if ?b then _ else _] => destruct b eqn:E
  end.

(** Boolean guards of the code as propositions. *)
Ltac to_prop :=
  repeat match goal with
  | H : context [negb ?b = true] |- _ => rewrite negb_true_iff in H
  | H : context [negb ?b = false] |- _ => rewrite negb_false_iff in H
  | H : _ && _ = true |- _ => apply andb_true_iff in H as [? ?]
  | H : _ || _ = false |- _ => apply orb_false_iff in H as [? ?]
  | H : _ && _ = false |- _ => apply andb_false_iff in H
  | H : _ || _ = true |- _ => apply orb_true_iff in H
  | H : bool_decide _ = true |- _ => apply bool_decide_eq_true in H
  | H : bool_decide _ = false |- _ => apply bool_decide_eq_false in H
  | H : (_ <? _) = true |- _ => apply Z.ltb_lt in H
  | H : (_ <? _) = false |- _ => apply Z.ltb_ge in H
  | H : (_ <=? _) = true |- _ => apply Z.leb_le in H
  | H : (_ <=? _) = false |- _ => apply Z.leb_gt in H
  | H : (_ =? _) = true |- _ => apply Z.eqb_eq in H
  | H : (_ =? _) = false |- _ => apply Z.eqb_neq in H
  end.

(** ** Machine integers

    A [uN] is a [Z] in [0, 2^N); [checked_*], [saturating_*] and [wrapping_*]
    are Rust's methods, and a plain operator of the source is [wrapping_*]
    (release profile, no [overflow-checks] in the workspaces). *)
Definition u8_max : Z := 255.
Definition u32_max : Z := 4294967295.
Definition u64_max : Z := 18446744073709551615.
Definition u128_max : Z := 340282366920938463463374607431768211455.

Abbreviation is_u8 z := (0 <= z <= u8_max).
Abbreviation is_u32 z := (0 <= z <= u32_max).
Abbreviation is_u64 z := (0 <= z <= u64_max).
Abbreviation is_u128 z := (0 <= z <= u128_max).

Definition checked_add (max a b : Z) : option Z :=
  if a + b <=? max then Some (a + b) else None.
Definition checked_sub (a b : Z) : option Z :=
  if b <=? a then Some (a - b) else None.
Definition checked_mul (max a b : Z) : option Z :=
  if a * b <=? max then Some (a * b) else None.
Definition checked_div (a b : Z) : option Z :=
  if b =? 0 then None else Some (a / b).
Definition saturating_add (max a b : Z) : Z := Z.min max (a + b).
Definition saturating_sub (a b : Z) : Z := Z.max 0 (a - b).
Definition wrap (max a : Z) : Z := a mod (max + 1).
Definition wrapping_add (max a b : Z) : Z := wrap max (a + b).
Definition wrapping_sub (max a b : Z) : Z := wrap max (a - b).
Definition wrapping_mul (max a b : Z) : Z := wrap max (a * b).

Ltac unfold_max := unfold u8_max, u32_max, u64_max, u128_max in *.

Section IntLemmas.
Implicit Types a b c max : Z.

Lemma checked_add_Some max a b c :
  checked_add max a b = Some c <-> c = a + b /\ a + b <= max.
Proof. unfold checked_add. case_match; to_prop; naive_solver lia. Qed.

Lemma checked_sub_Some a b c :
  checked_sub a b = Some c <-> c = a - b /\ b <= a.
Proof. unfold checked_sub. case_match; to_prop; naive_solver lia. Qed.

Lemma checked_mul_Some max a b c :
  checked_mul max a b = Some c <-> c = a * b /\ a * b <= max.
Proof. unfold checked_mul. case_match; to_prop; naive_solver lia. Qed.

Lemma checked_div_Some a b c :
  checked_div a b = Some c <-> c = a / b /\ b <> 0.
Proof. unfold checked_div. case_match; to_prop; naive_solver. Qed.

Lemma wrap_small max a : 0 <= a <= max -> wrap max a = a.
Proof. intros. apply Z.mod_small. lia. Qed.

Lemma wrap_range max a : 0 <= max -> 0 <= wrap max a <= max.
Proof. intros. unfold wrap. pose proof (Z.mod_pos_bound a (max + 1)). lia. Qed.
End IntLemmas.

(** Replace the checked operations of the context by their arithmetic. *)
Ltac inv_checked :=
  repeat match goal with
  | H : checked_add _ _ _ = Some ?c |- _ => apply checked_add_Some in H as [H ?]
  | H : checked_sub _ _ = Some ?c |- _ => apply checked_sub_Some in H as [H ?]
  | H : checked_mul _ _ _ = Some ?c |- _ => apply checked_mul_Some in H as [H ?]
  | H : checked_div _ _ = Some ?c |- _ => apply checked_div_Some in H as [H ?]
  end.

(** ** Bytes and little-endian integers *)
Abbreviation is_byte b := (0 <= b < 256).
Definition bytes (l : list Z) : Prop := Forall (fun b => is_byte b) l.

Fixpoint to_le_bytes (n : nat) (z : Z) : list Z :=
  match n with
  | O => []
  | S n => z mod 256 :: to_le_bytes n (z / 256)
  end.

Fixpoint from_le_bytes (l : list Z) : Z :=
  match l with
  | [] => 0
  | b :: t => b + 256 * from_le_bytes t
  end.

Section Bytes.
Implicit Types (l : list Z) (z : Z) (n : nat).

Lemma length_to_le_bytes n z : length (to_le_bytes n z) = n.
Proof. revert z; induction n; intros; cbn; auto. Qed.

Lemma to_le_bytes_bytes n z : bytes (to_le_bytes n z).
Proof.
  revert z; induction n; intros z; constructor.
  - apply Z.mod_pos_bound. lia.
  - apply IHn.
Qed.

Lemma from_to_le_bytes n z :
  0 <= z < 256 ^ Z.of_nat n -> from_le_bytes (to_le_bytes n z) = z.
Proof.
  revert z; induction n as [|n IH]; intros z Hz.
  - cbn in *. lia.
  - rewrite Nat2Z.inj_succ, Z.pow_succ_r in Hz by lia. cbn.
    rewrite IH.
    + pose proof (Z.div_mod z 256). lia.
    + split; [apply Z.div_pos; lia|]. apply Z.div_lt_upper_bound; lia.
Qed.

Lemma from_le_bytes_range l :
  bytes l -> 0 <= from_le_bytes l < 256 ^ Z.of_nat (length l).
Proof.
  induction 1 as [|b l Hb Hl IH]; cbn [from_le_bytes length].
  - cbn. lia.
  - rewrite Nat2Z.inj_succ, Z.pow_succ_r by lia. lia.
Qed.

Lemma to_from_le_bytes l :
  bytes l -> to_le_bytes (length l) (from_le_bytes l) = l.
Proof.
  induction 1 as [|b l Hb Hl IH]; cbn; [done|].
  rewrite (Z.mul_comm 256), Z.mod_add, Z.div_add by lia.
  rewrite Z.mod_small, Z.div_small by lia. f_equal. apply IH.
Qed.

Lemma u64_le_roundtrip z : is_u64 z -> from_le_bytes (to_le_bytes 8 z) = z.
Proof. unfold_max. intros. apply from_to_le_bytes. cbn. lia. Qed.

Lemma take_app_exact l l' n : length l = n -> take n (l ++ l') = l.
Proof. intros <-. apply take_app_length. Qed.

Lemma drop_app_exact l l' n : length l = n -> drop n (l ++ l') = l'.
Proof. intros <-. apply drop_app_length. Qed.

Lemma bytes_app l l' : bytes l -> bytes l' -> bytes (l ++ l').
Proof. apply Forall_app_2. Qed.

Lemma bytes_take n l : bytes l -> bytes (take n l).
Proof. apply Forall_take. Qed.

Lemma bytes_drop n l : bytes l -> bytes (drop n l).
Proof. apply Forall_drop. Qed.

Lemma bytes_replicate n : bytes (replicate n 0).
Proof. apply Forall_replicate. lia. Qed.
End Bytes.

Arguments to_le_bytes : simpl never.
Arguments from_le_bytes : simpl never.

(** Cuts an array into the prefix of [n] elements and the rest
    ([split_at], and one step of [array_refs!]). *)
Definition split_at {A} (n : nat) (l : list A) : list A * list A :=
  (take n l, drop n l).

(** ** Sums over finite maps with a default entry

    [msum f d m] adds [f] over the entries of [m]; [f d = 0] for the default
    [d], so an absent key counts as a default entry. *)
Section MapSum.
Context {K V : Type} `{Countable K} (f : V -> Z).

Definition msum (m : gmap K V) : Z := map_fold (fun _ v s => f v + s) 0 m.

Lemma msum_empty : msum ∅ = 0.
Proof. apply map_fold_empty. Qed.

Lemma msum_insert_None m k v : m !! k = None -> msum (<[k:=v]> m) = f v + msum m.
Proof. intros Hk. unfold msum. rewrite map_fold_insert_L; [done| |done]. intros; lia. Qed.

Lemma msum_delete m k v : m !! k = Some v -> msum m = f v + msum (delete k m).
Proof. intros Hk. unfold msum. rewrite (map_fold_delete_L _ _ k v m); [done| |done]. intros; lia. Qed.

Lemma msum_insert m k v d :
  f d = 0 -> msum (<[k:=v]> m) = msum m - f (default d (m !! k)) + f v.
Proof.
  intros Hd. destruct (m !! k) as [w|] eqn:E; cbn.
  - rewrite <- insert_delete_eq, msum_insert_None by apply lookup_delete_eq.
    rewrite (msum_delete m k w E). lia.
  - rewrite msum_insert_None by done. lia.
Qed.

Lemma msum_delete_default m k d :
  f d = 0 -> msum (delete k m) = msum m - f (default d (m !! k)).
Proof.
  intros Hd. destruct (m !! k) as [w|] eqn:E; cbn.
  - rewrite (msum_delete m k w E). lia.
  - rewrite delete_id by done. lia.
Qed.

Lemma msum_nonneg m : (forall v, 0 <= f v) -> 0 <= msum m.
Proof.
  intros Hf. induction m as [|k v m Hk IH] using map_ind.
  - rewrite msum_empty. lia.
  - rewrite msum_insert_None by done. specialize (Hf v). lia.
Qed.

Lemma msum_nonneg_lookup m : (forall k v, m !! k = Some v -> 0 <= f v) -> 0 <= msum m.
Proof.
  induction m as [|k v m Hk IH] using map_ind; intros Hf.
  - rewrite msum_empty. lia.
  - rewrite msum_insert_None by done. pose proof (Hf k v (lookup_insert_eq _ _ _)).
    enough (0 <= msum m) by lia. apply IH. intros j w Hj. apply (Hf j).
    rewrite lookup_insert_ne; [done|]. intros ->. congruence.
Qed.

Lemma msum_lookup_le m k d :
  (forall v, 0 <= f v) -> f d = 0 -> f (default d (m !! k)) <= msum m.
Proof.
  intros Hf Hd. destruct (m !! k) as [w|] eqn:E; cbn.
  - rewrite (msum_delete m k w E). pose proof (msum_nonneg (delete k m) Hf). lia.
  - rewrite Hd. apply msum_nonneg, Hf.
Qed.

Lemma msum_ext_lookup m1 m2 d :
  f d = 0 -> (forall k, f (default d (m1 !! k)) = f (default d (m2 !! k))) ->
  msum m1 = msum m2.
Proof.
  intros Hd. revert m2.
  induction m1 as [|k v m Hk IH] using map_ind; intros m2 Heq.
  - rewrite msum_empty. symmetry.
    induction m2 as [|k v m Hk IH] using map_ind; [apply msum_empty|].
    rewrite msum_insert_None by done.
    pose proof (Heq k) as Hv. rewrite lookup_insert_eq, lookup_empty in Hv.
    cbn in Hv. rewrite IH; [lia|].
    intros k'. specialize (Heq k'). rewrite lookup_empty in *. cbn in *.
    destruct (decide (k = k')) as [->|]; [by rewrite Hk|].
    by rewrite lookup_insert_ne in Heq.
  - rewrite msum_insert_None by done.
    rewrite (IH (delete k m2)).
    + rewrite (msum_delete_default m2 k d Hd), <- (Heq k), lookup_insert_eq. cbn. lia.
    + intros k'. destruct (decide (k = k')) as [->|].
      * by rewrite Hk, lookup_delete_eq.
      * specialize (Heq k'). by rewrite lookup_insert_ne, lookup_delete_ne in *.
Qed.

(** The part of a sum at the keys [ks], absent keys counting as [d]. *)
Definition sum_keys (d : V) (m : gmap K V) (ks : list K) : Z :=
  foldr (fun k s => f (default d (m !! k)) + s) 0 ks.

Lemma lookup_foldr_delete (m : gmap K V) (ks : list K) (k : K) :
  foldr delete m ks !! k = if decide (k ∈ ks) then None else m !! k.
Proof.
  induction ks as [|j ks IH]; cbn.
  - rewrite decide_False; [done|]. intros Hk. inversion Hk.
  - rewrite lookup_delete, IH. clear IH. pose proof (elem_of_cons ks k j).
    repeat case_decide; try done; subst; intuition congruence.
Qed.

Lemma msum_split_keys m ks d :
  f d = 0 -> NoDup ks -> msum m = sum_keys d m ks + msum (foldr delete m ks).
Proof.
  intros Hd. induction 1 as [|k ks Hk _ IH]; cbn [sum_keys foldr]; [lia|].
  rewrite IH, (msum_delete_default (foldr delete m ks) k d) by done.
  rewrite lookup_foldr_delete, decide_False by done. unfold sum_keys. lia.
Qed.

(** Maps that agree outside [ks] differ by what they hold at [ks]. *)
Lemma msum_change m1 m2 ks d :
  f d = 0 -> NoDup ks ->
  (forall k, k ∉ ks -> f (default d (m2 !! k)) = f (default d (m1 !! k))) ->
  msum m2 - msum m1 = sum_keys d m2 ks - sum_keys d m1 ks.
Proof.
  intros Hd Hks Heq.
  rewrite (msum_split_keys m1 ks d), (msum_split_keys m2 ks d) by done.
  rewrite (msum_ext_lookup (foldr delete m2 ks) (foldr delete m1 ks) d); [lia|done|].
  intros k. rewrite !lookup_foldr_delete. case_decide; auto.
Qed.
End MapSum.

(** ** Hints shared by the components *)
Create HintDb rust.
Create Rewrite HintDb rust.
#[export] Hint Resolve to_le_bytes_bytes bytes_app bytes_take bytes_drop
  bytes_replicate : rust.
#[export] Hint Rewrite @length_app @length_take @length_drop @length_replicate
  length_to_le_bytes : rust.
