(* ===== verification/Sdk.v ===== *)
(** * The SDK the on-chain programs are written against

    Models [src/testnet/sdk/program/src]: public keys, [ProgramError],
    [AccountInfo] over a shared account store, the [Pack] trait and the rent
    computation with its [f64] arithmetic (IEEE binary64 through the Standard
    Library's [SpecFloat]).  The SPL programs link the same crate under its
    upstream name, with [lamports] for [tock]. *)

From stdpp Require Import base gmap list fin_maps strings.
From Stdlib Require Import ZArith Lia SpecFloat Ascii.
From Stdlib Require String.
From S2P Require Import Prelude.

(** ** Public keys: [Pubkey([u8; 32])] *)
Abbreviation Pubkey := (list Z).

Definition wf_key (k : Pubkey) : Prop := length k = 32%nat /\ bytes k.

Definition default_key : Pubkey := replicate 32 0.

(** The system program's id is the key of 32 zero bytes. *)
Definition system_program_id : Pubkey := default_key.

Lemma wf_default_key : wf_key default_key.
Proof. split; [done|apply bytes_replicate]. Qed.
#[export] Hint Resolve wf_default_key : rust.

Fixpoint index_of (i : Z) (c : ascii) (l : list ascii) : option Z :=
  match l with
  | [] => None
  | d :: l => if Ascii.eqb c d then Some i else index_of (i + 1) c l
  end.

(** [declare_id!("...")]: base58 digits to 32 big-endian bytes. *)
Definition base58_digit (c : ascii) : option Z :=
  index_of 0 c (String.list_ascii_of_string
    "123456789ABCDEFGHJKLMNPQRSTUVWXYZabcdefghijkmnopqrstuvwxyz").

Definition declare_id (s : string) : Pubkey :=
  reverse (to_le_bytes 32
    (foldl (fun n c => n * 58 + default 0 (base58_digit c)) 0
       (String.list_ascii_of_string s))).

(** [Hash([u8; 32])] *)
Abbreviation Hash := (list Z) (only parsing).

(** [sysvar::rent::id()] *)
Definition rent_sysvar_id : Pubkey :=
  Eval vm_compute in declare_id "SysvarRent111111111111111111111111111111111".
(** [sysvar::clock::id()] *)
Definition clock_sysvar_id : Pubkey :=
  Eval vm_compute in declare_id "SysvarC1ock11111111111111111111111111111111".

Record Clock := {
  clock_slot : Z;
  epoch_start_timestamp : Z;
  epoch : Z;
  leader_schedule_epoch : Z;
  unix_timestamp : Z;
}.

(** ** Errors *)
Inductive ProgramError : Type :=
| Custom (code : Z)
| InvalidArgument
| InvalidInstructionData
| InvalidAccountData
| AccountDataTooSmall
| InsufficientFunds
| IncorrectProgramId
| MissingRequiredSignature
| AccountAlreadyInitialized
| UninitializedAccount
| NotEnoughAccountKeys
| AccountBorrowFailed
| MaxSeedLengthExceeded
| InvalidSeeds
| BorshIoError (msg : list Z)
| AccountNotRentExempt
| UnsupportedSysvar
| IllegalOwner.

Abbreviation program_result := (result ProgramError).

(** ** Accounts

    [AccountInfo] holds reference-counted cells for lamports and data: two
    entries of an instruction with the same key alias the same cells.  The
    cells live in a store indexed by key; an absent key reads as the default
    account, as the runtime loads it. *)
Record AccountSharedData := {
  lamports : Z;
  data : list Z;
  owner : Pubkey;
  executable : bool;
  rent_epoch : Z;
}.

Definition default_account : AccountSharedData :=
  {| lamports := 0; data := []; owner := default_key;
     executable := false; rent_epoch := 0 |}.

Abbreviation store := (gmap Pubkey AccountSharedData).

Record AccountInfo := {
  key : Pubkey;
  is_signer : bool;
  is_writable : bool;
}.

Definition acct (st : store) (k : Pubkey) : AccountSharedData :=
  default default_account (st !! k).

Definition set_data (st : store) (k : Pubkey) (d : list Z) : store :=
  let a := acct st k in
  <[k := {| lamports := lamports a; data := d; owner := owner a;
            executable := executable a; rent_epoch := rent_epoch a |}]> st.

Definition set_lamports (st : store) (k : Pubkey) (l : Z) : store :=
  let a := acct st k in
  <[k := {| lamports := l; data := data a; owner := owner a;
            executable := executable a; rent_epoch := rent_epoch a |}]> st.

Definition data_len (st : store) (i : AccountInfo) : Z :=
  Z.of_nat (length (data (acct st (key i)))).

(** [iter.next().ok_or(NotEnoughAccountKeys)], returning the rest of the
    iterator. *)
Definition next_account_info (it : list AccountInfo)
  : program_result (AccountInfo * list AccountInfo) :=
  match it with
  | i :: rest => Ok (i, rest)
  | [] => Err NotEnoughAccountKeys
  end.

Section StoreLemmas.
Implicit Types (st : store) (k : Pubkey).

Lemma acct_set_data st k k' d :
  acct (set_data st k d) k' =
  if decide (k = k') then
    {| lamports := lamports (acct st k); data := d; owner := owner (acct st k);
       executable := executable (acct st k);
       rent_epoch := rent_epoch (acct st k) |}
  else acct st k'.
Proof.
  unfold acct at 1, set_data. rewrite lookup_insert.
  case_decide; reflexivity.
Qed.

Lemma acct_set_lamports st k k' l :
  acct (set_lamports st k l) k' =
  if decide (k = k') then
    {| lamports := l; data := data (acct st k); owner := owner (acct st k);
       executable := executable (acct st k);
       rent_epoch := rent_epoch (acct st k) |}
  else acct st k'.
Proof.
  unfold acct at 1, set_lamports. rewrite lookup_insert.
  case_decide; reflexivity.
Qed.

Lemma data_set_data st k k' d :
  data (acct (set_data st k d) k') =
  if decide (k = k') then d else data (acct st k').
Proof. rewrite acct_set_data. by case_decide. Qed.

Lemma data_set_lamports st k k' l :
  data (acct (set_lamports st k l) k') = data (acct st k').
Proof. rewrite acct_set_lamports. case_decide; by subst. Qed.

Lemma lamports_set_data st k k' d :
  lamports (acct (set_data st k d) k') = lamports (acct st k').
Proof. rewrite acct_set_data. case_decide; by subst. Qed.

Lemma lamports_set_lamports st k k' l :
  lamports (acct (set_lamports st k l) k') =
  if decide (k = k') then l else lamports (acct st k').
Proof. rewrite acct_set_lamports. by case_decide. Qed.

Lemma owner_set_data st k k' d :
  owner (acct (set_data st k d) k') = owner (acct st k').
Proof. rewrite acct_set_data. case_decide; by subst. Qed.

Lemma owner_set_lamports st k k' l :
  owner (acct (set_lamports st k l) k') = owner (acct st k').
Proof. rewrite acct_set_lamports. case_decide; by subst. Qed.
End StoreLemmas.

Create Rewrite HintDb store.
#[export] Hint Rewrite data_set_data data_set_lamports lamports_set_data
  lamports_set_lamports owner_set_data owner_set_lamports : store.

(** ** The [Pack] trait *)
Class Pack (T : Type) := {
  LEN : nat;
  is_initialized : T -> bool;
  pack_into_slice : T -> list Z -> list Z;
  unpack_from_slice : list Z -> program_result T;
}.
Arguments LEN T {_}.

Definition get_packed_len (T : Type) `{Pack T} : Z := Z.of_nat (LEN T).

Section PackOps.
Context {T : Type} `{Pack T}.

Definition unpack_unchecked (input : list Z) : program_result T :=
  if negb (Nat.eqb (length input) (LEN T)) then Err InvalidAccountData
  else unpack_from_slice input.

Definition unpack (input : list Z) : program_result T :=
  value ← unpack_unchecked input;
  if is_initialized value then Ok value else Err UninitializedAccount.

Definition pack (src : T) (dst : list Z) : program_result (list Z) :=
  if negb (Nat.eqb (length dst) (LEN T)) then Err InvalidAccountData
  else Ok (pack_into_slice src dst).
End PackOps.

(** What a packed state promises to its clients: packing keeps the length and
    what is packed is what is unpacked, whatever the buffer held before. *)
Class PackOk (T : Type) `{Pack T} := {
  wf_state : T -> Prop;
  pack_length : forall x dst,
    length dst = LEN T -> wf_state x -> length (pack_into_slice x dst) = LEN T;
  pack_bytes : forall x dst,
    bytes dst -> wf_state x -> bytes (pack_into_slice x dst);
  unpack_pack_slice : forall x dst,
    length dst = LEN T -> wf_state x ->
    unpack_from_slice (pack_into_slice x dst) = Ok x;
  unpack_wf : forall src x,
    length src = LEN T -> bytes src -> unpack_from_slice src = Ok x -> wf_state x;
}.

Section PackLemmas.
Context {T : Type} `{PackOk T}.

Lemma pack_Ok (x : T) dst d :
  pack x dst = Ok d <-> length dst = LEN T /\ d = pack_into_slice x dst.
Proof.
  unfold pack. destruct (Nat.eqb_spec (length dst) (LEN T)); cbn; naive_solver.
Qed.

Lemma unpack_unchecked_Ok (x : T) src :
  unpack_unchecked src = Ok x <->
  length src = LEN T /\ unpack_from_slice src = Ok x.
Proof.
  unfold unpack_unchecked.
  destruct (Nat.eqb_spec (length src) (LEN T)); cbn; naive_solver.
Qed.

Lemma unpack_Ok (x : T) src :
  unpack src = Ok x <->
  length src = LEN T /\ unpack_from_slice src = Ok x /\ is_initialized x = true.
Proof.
  unfold unpack. rewrite bind_Ok. setoid_rewrite unpack_unchecked_Ok.
  split.
  - intros (y & [Hl Hy] & Hi). destruct (is_initialized y) eqn:E; [|done].
    injection Hi as ->. auto.
  - intros (Hl & Hy & Hi). exists x. rewrite Hi. auto.
Qed.

Lemma unpack_pack (x : T) dst :
  length dst = LEN T -> wf_state x ->
  unpack (pack_into_slice x dst) =
  (if is_initialized x then Ok x else Err UninitializedAccount).
Proof.
  intros Hl Hx. unfold unpack, unpack_unchecked.
  rewrite (pack_length x dst Hl Hx), Nat.eqb_refl. cbn.
  by rewrite (unpack_pack_slice x dst Hl Hx).
Qed.
End PackLemmas.

(** ** IEEE binary64 and rent *)
Module F64.
Definition prec : Z := 53.
Definition emax : Z := 1024.
Abbreviation f64 := spec_float.

(** [z as f64] for an unsigned integer. *)
Definition of_u64 (z : Z) : f64 := binary_normalize prec emax z 0 false.
Definition mul (x y : f64) : f64 := SFmul prec emax x y.
Definition div (x y : f64) : f64 := SFdiv prec emax x y.

(** [x as u64]: truncation, saturating at the bounds, NaN to 0. *)
Definition to_u64 (x : f64) : Z :=
  match x with
  | S754_zero _ | S754_nan => 0
  | S754_infinity s => if s then 0 else u64_max
  | S754_finite s m e =>
      if s then 0
      else Z.min u64_max
             (if 0 <=? e then Zpos m * 2 ^ e else Zpos m / 2 ^ (- e))
  end.

Lemma to_u64_range x : is_u64 (to_u64 x).
Proof.
  unfold to_u64. unfold_max. destruct x as [| [] | |[] m e]; try lia.
  destruct (0 <=? e) eqn:E; to_prop.
  - pose proof (Z.pow_nonneg 2 e). lia.
  - pose proof (Z.div_pos (Zpos m) (2 ^ (- e))). pose proof (Z.pow_pos_nonneg 2 (- e)). lia.
Qed.
End F64.

Record Rent := {
  lamports_per_byte_year : Z;
  exemption_threshold : F64.f64;
  burn_percent : Z;
}.

Definition ACCOUNT_STORAGE_OVERHEAD : Z := 128.
Definition DEFAULT_LAMPORTS_PER_BYTE_YEAR : Z :=
  1000000000 / 100 * 365 / (1024 * 1024).
Definition DEFAULT_EXEMPTION_THRESHOLD : F64.f64 := F64.of_u64 2.
Definition DEFAULT_BURN_PERCENT : Z := 50.

Definition Rent_default : Rent :=
  {| lamports_per_byte_year := DEFAULT_LAMPORTS_PER_BYTE_YEAR;
     exemption_threshold := DEFAULT_EXEMPTION_THRESHOLD;
     burn_percent := DEFAULT_BURN_PERCENT |}.

(** [(burned, remaining)] *)
Definition calculate_burn (r : Rent) (rent_collected : Z) : Z * Z :=
  let burned := wrapping_mul u64_max rent_collected (burn_percent r) / 100 in
  (burned, wrapping_sub u64_max rent_collected burned).

Definition minimum_balance (r : Rent) (len : Z) : Z :=
  F64.to_u64
    (F64.mul
       (F64.of_u64
          (wrapping_mul u64_max
             (wrapping_add u64_max ACCOUNT_STORAGE_OVERHEAD len)
             (lamports_per_byte_year r)))
       (exemption_threshold r)).

Definition is_exempt (r : Rent) (balance len : Z) : bool :=
  minimum_balance r len <=? balance.

(** [(rent due, exempt)] *)
Definition rent_due (r : Rent) (balance len : Z) (years_elapsed : F64.f64)
  : Z * bool :=
  if is_exempt r balance len then (0, true)
  else
    (F64.to_u64
       (F64.mul
          (F64.of_u64
             (wrapping_mul u64_max (lamports_per_byte_year r)
                (wrapping_add u64_max len ACCOUNT_STORAGE_OVERHEAD)))
          years_elapsed), false).

Example minimum_balance_token_account :
  minimum_balance Rent_default 165 = 2039280.
Proof. vm_compute. reflexivity. Qed.

(** The lamports burnt and the ones kept add up to what was collected, for
    every valid percentage and every amount whose product fits in a [u64]. *)
Lemma calculate_burn_sum r n :
  0 <= burn_percent r <= 100 -> 0 <= n -> n * 100 <= u64_max ->
  let '(b, k) := calculate_burn r n in b + k = n /\ 0 <= b <= n.
Proof.
  intros Hp Hn Hm. unfold calculate_burn, wrapping_mul, wrapping_sub.
  rewrite (wrap_small _ (n * burn_percent r)) by nia.
  assert (0 <= n * burn_percent r / 100 <= n).
  { split; [apply Z.div_pos; nia|]. apply Z.div_le_upper_bound; nia. }
  rewrite wrap_small; lia.
Qed.
