(* ===== verification/MapOrder.v ===== *)
(** * Ordered keys and sums over maps

    The class [Ordered] states the laws of [Ord] in Rust; its instances follow
    the derived implementations: integers, tuples and slices compare
    lexicographically, enums by the order of their variants (through an
    injection into tuples).  A [BTreeMap] is a finite map whose entries are
    visited in the order of their keys ([sorted_entries]).

    [wsum] adds a weight over the entries of a map, [lsum] over a list. *)

From stdpp Require Import base gmap list sorting fin_maps.
From Stdlib Require Import ZArith Lia.
From S2P Require Import Prelude.

(** ** [Ord] *)
Class Ordered (K : Type) := {
  compare : K -> K -> comparison;
  compare_eq a b : compare a b = Eq <-> a = b;
  compare_opp a b : compare b a = CompOpp (compare a b);
  compare_lt_trans a b c : compare a b = Lt -> compare b c = Lt -> compare a c = Lt }.

Definition lt_key {K} `{Ordered K} (a b : K) : Prop := compare a b = Lt.
Definition le_key {K} `{Ordered K} (a b : K) : Prop := compare a b <> Gt.

#[global] Instance lt_key_dec {K} `{Ordered K} : RelDecision (lt_key (K := K)).
Proof. intros a b. unfold Decision, lt_key. decide equality. Defined.
#[global] Instance le_key_dec {K} `{Ordered K} : RelDecision (le_key (K := K)).
Proof. intros a b. unfold Decision, le_key. destruct (compare a b); [left|left|right]; naive_solver. Defined.

Section Ordered.
Context {K : Type} `{Ordered K}.
Implicit Types a b c : K.

Lemma compare_refl a : compare a a = Eq.
Proof. by apply compare_eq. Qed.

Lemma lt_key_irrefl a : ~ lt_key a a.
Proof. unfold lt_key. by rewrite compare_refl. Qed.

Lemma lt_key_trans a b c : lt_key a b -> lt_key b c -> lt_key a c.
Proof. apply compare_lt_trans. Qed.

Lemma lt_key_asym a b : lt_key a b -> lt_key b a -> False.
Proof. intros H1 H2. apply (lt_key_irrefl a). by eapply lt_key_trans. Qed.

Lemma lt_key_trichotomy a b : lt_key a b \/ a = b \/ lt_key b a.
Proof.
  unfold lt_key. destruct (compare a b) eqn:E; [right; left|by left|right; right].
  - by apply compare_eq.
  - by rewrite compare_opp, E.
Qed.

Lemma le_key_lt_eq a b : le_key a b <-> lt_key a b \/ a = b.
Proof.
  unfold le_key, lt_key. rewrite <- compare_eq. destruct (compare a b); naive_solver.
Qed.

#[global] Instance le_key_trans : Transitive (le_key (K := K)).
Proof.
  intros a b c. rewrite !le_key_lt_eq. intros [H1| ->] [H2| ->]; eauto using lt_key_trans.
Qed.

#[global] Instance le_key_total : Total (le_key (K := K)).
Proof.
  intros a b. rewrite !le_key_lt_eq. destruct (lt_key_trichotomy a b) as [?|[ -> |?]]; auto.
Qed.
End Ordered.

(** *** Instances *)
#[global] Program Instance Z_ordered : Ordered Z := {| compare := Z.compare |}.
Next Obligation. intros a b. apply Z.compare_eq_iff. Qed.
Next Obligation. intros a b. apply Z.compare_antisym. Qed.
Next Obligation. intros a b c. rewrite !Z.compare_lt_iff. lia. Qed.

(** The first difference decides. *)
Definition compare_then (c d : comparison) : comparison :=
  match c with Eq => d | _ => c end.

Section Lexicographic.
Context {A B : Type} `{Ordered A} `{Ordered B}.

Definition compare_pair (p q : A * B) : comparison :=
  compare_then (compare (fst p) (fst q)) (compare (snd p) (snd q)).

#[global] Program Instance pair_ordered : Ordered (A * B) := {| compare := compare_pair |}.
Next Obligation.
  intros [a1 b1] [a2 b2]. unfold compare_pair, compare_then. cbn.
  destruct (compare a1 a2) eqn:E; [apply compare_eq in E as ->; rewrite compare_eq|..];
    (split; [intros; simplify_eq; try done|intros; simplify_eq; try done]);
    rewrite compare_refl in *; done.
Qed.
Next Obligation.
  intros [a1 b1] [a2 b2]. unfold compare_pair, compare_then. cbn.
  rewrite (compare_opp a1 a2), (compare_opp b1 b2). by destruct (compare a1 a2).
Qed.
Next Obligation.
  intros [a1 b1] [a2 b2] [a3 b3]. unfold compare_pair, compare_then. cbn.
  destruct (compare a1 a2) eqn:E1; [apply compare_eq in E1 as ->| |done].
  - destruct (compare a2 a3) eqn:E2; [|done|done]. apply compare_lt_trans.
  - intros _. destruct (compare a2 a3) eqn:E2; [apply compare_eq in E2 as <-| |done].
    + by rewrite E1.
    + by rewrite (compare_lt_trans _ _ _ E1 E2).
Qed.

Fixpoint compare_list (l k : list A) : comparison :=
  match l, k with
  | [], [] => Eq
  | [], _ => Lt
  | _, [] => Gt
  | x :: l, y :: k => compare_then (compare x y) (compare_list l k)
  end.

Lemma compare_list_eq l k : compare_list l k = Eq <-> l = k.
Proof.
  revert k. induction l as [|x l IH]; intros [|y k]; cbn; try done.
  unfold compare_then. destruct (compare x y) eqn:E.
  - apply compare_eq in E as ->. rewrite IH. naive_solver.
  - split; [done|]. intros [= -> ->]. by rewrite compare_refl in E.
  - split; [done|]. intros [= -> ->]. by rewrite compare_refl in E.
Qed.

Lemma compare_list_opp l k : compare_list k l = CompOpp (compare_list l k).
Proof.
  revert k. induction l as [|x l IH]; intros [|y k]; cbn; try done.
  rewrite (compare_opp x y), IH. by destruct (compare x y).
Qed.

Lemma compare_list_trans l1 l2 l3 :
  compare_list l1 l2 = Lt -> compare_list l2 l3 = Lt -> compare_list l1 l3 = Lt.
Proof.
  revert l2 l3. induction l1 as [|x l1 IH]; intros [|y l2] [|z l3]; cbn; try done.
  unfold compare_then. destruct (compare x y) eqn:E1; [apply compare_eq in E1 as ->| |done].
  - destruct (compare y z); [apply IH|done|done].
  - intros _. destruct (compare y z) eqn:E2; [apply compare_eq in E2 as <-; by rewrite E1| |done].
    by rewrite (compare_lt_trans _ _ _ E1 E2).
Qed.

#[global] Instance list_ordered : Ordered (list A) :=
  {| compare := compare_list; compare_eq := compare_list_eq; compare_opp := compare_list_opp;
     compare_lt_trans := compare_list_trans |}.

(** The order a type takes from another through an injection. *)
Definition ordered_via {C : Type} (f : C -> A) (Hf : forall x y, f x = f y -> x = y) : Ordered C.
Proof.
  refine {| compare x y := compare (f x) (f y) |}.
  - intros x y. rewrite compare_eq. split; [apply Hf|congruence].
  - intros x y. apply compare_opp.
  - intros x y z. apply compare_lt_trans.
Defined.
End Lexicographic.

Lemma lt_key_pair {A B} `{Ordered A} `{Ordered B} (a a' : A) (b b' : B) :
  lt_key (a, b) (a', b') <-> lt_key a a' \/ a = a' /\ lt_key b b'.
Proof.
  unfold lt_key at 1. cbn. unfold compare_pair, compare_then. cbn.
  unfold lt_key. rewrite <- compare_eq. destruct (compare a a'); naive_solver.
Qed.

(** ** Iteration of a [BTreeMap] *)
Definition key_le {K V} `{Ordered K} (p q : K * V) : Prop := le_key (fst p) (fst q).

#[global] Instance key_le_dec {K V} `{Ordered K} : RelDecision (key_le (K := K) (V := V)).
Proof. intros p q. unfold key_le. apply _. Defined.

Definition sorted_entries {K V} `{Countable K} `{Ordered K} (m : gmap K V) : list (K * V) :=
  merge_sort key_le (map_to_list m).

Section SortedEntries.
Context {K V : Type} `{Countable K} `{Ordered K}.

Lemma sorted_entries_Permutation (m : gmap K V) : sorted_entries m ≡ₚ map_to_list m.
Proof. apply merge_sort_Permutation. Qed.

Lemma sorted_entries_sorted (m : gmap K V) :
  StronglySorted (fun p q => lt_key (fst p) (fst q)) (sorted_entries m).
Proof.
  assert (Hs : StronglySorted key_le (sorted_entries m)).
  { apply StronglySorted_merge_sort; unfold key_le; [|intros p q; apply (le_key_total p.1 q.1)].
    intros p q r. apply le_key_trans. }
  assert (Hd : NoDup (fst <$> sorted_entries m)).
  { rewrite sorted_entries_Permutation. apply NoDup_fst_map_to_list. }
  induction Hs as [|p l Hs IH Hp]; [constructor|].
  cbn in Hd. apply NoDup_cons in Hd as [Hnot Hd]. constructor; [by apply IH|].
  rewrite Forall_forall in Hp |- *. intros q Hq. specialize (Hp q Hq). unfold key_le in Hp.
  apply le_key_lt_eq in Hp as [?|E]; [done|]. exfalso. apply Hnot. rewrite E.
  by apply list_elem_of_fmap_2.
Qed.

(** From the greatest key to the smallest. *)
Lemma reverse_sorted_entries (m : gmap K V) :
  StronglySorted (fun p q => lt_key (fst q) (fst p)) (reverse (sorted_entries m)).
Proof.
  induction (sorted_entries_sorted m) as [|p l Hs IH Hp]; [constructor|].
  rewrite reverse_cons. apply StronglySorted_app_2; [|by apply IH|repeat constructor].
  intros q r Hq Hr. rewrite elem_of_reverse in Hq. apply list_elem_of_singleton in Hr as ->.
  rewrite Forall_forall in Hp. by apply Hp.
Qed.
End SortedEntries.

(** ** Sums *)
Fixpoint lsum {A} (f : A -> Z) (l : list A) : Z :=
  match l with [] => 0 | x :: l => f x + lsum f l end.

Section Sums.
Context {A : Type}.
Implicit Types (f g : A -> Z) (l : list A).

Lemma lsum_app f l k : lsum f (l ++ k) = lsum f l + lsum f k.
Proof. induction l; cbn in *; lia. Qed.

Lemma lsum_ext f g l : (forall x, x ∈ l -> f x = g x) -> lsum f l = lsum g l.
Proof. induction l; intros Hfg; cbn; [done|]. rewrite Hfg, IHl; set_solver. Qed.

Lemma lsum_add f g l : lsum (fun x => f x + g x) l = lsum f l + lsum g l.
Proof. induction l; cbn in *; lia. Qed.

Lemma lsum_zero f l : (forall x, x ∈ l -> f x = 0) -> lsum f l = 0.
Proof. intros Hf. induction l; cbn; [done|]. rewrite Hf, IHl; set_solver. Qed.

Lemma lsum_nonneg f l : (forall x, x ∈ l -> 0 <= f x) -> 0 <= lsum f l.
Proof.
  induction l as [|x l IH]; intros Hf; cbn; [done|].
  specialize (IH ltac:(set_solver)). specialize (Hf x ltac:(set_solver)). lia.
Qed.

Lemma lsum_le f g l : (forall x, x ∈ l -> f x <= g x) -> lsum f l <= lsum g l.
Proof.
  induction l as [|x l IH]; intros Hf; cbn; [done|].
  specialize (IH ltac:(set_solver)). specialize (Hf x ltac:(set_solver)). lia.
Qed.

Lemma lsum_Permutation f l k : l ≡ₚ k -> lsum f l = lsum f k.
Proof. induction 1; cbn; lia. Qed.

(** The one element of a list without duplicates that counts. *)
Lemma lsum_single `{EqDecision A} (a : A) f l :
  NoDup l -> a ∈ l -> (forall x, x ∈ l -> x <> a -> f x = 0) -> lsum f l = f a.
Proof.
  intros Hd Ha Hz. apply list_elem_of_split in Ha as (l1 & l2 & ->).
  apply NoDup_app in Hd as (_ & Hd1 & [Hd2 _]%NoDup_cons).
  rewrite lsum_app. cbn. rewrite !lsum_zero; [lia|..]; intros x Hx; apply Hz; try set_solver.
Qed.
End Sums.

Lemma lsum_swap {A B} (f : A -> B -> Z) (l : list A) (k : list B) :
  lsum (fun x => lsum (f x) k) l = lsum (fun y => lsum (fun x => f x y) l) k.
Proof.
  induction l as [|x l IH]; cbn; [symmetry; by apply lsum_zero|]. rewrite IH. symmetry. apply lsum_add.
Qed.

Definition wsum {K V} `{Countable K} (f : K -> V -> Z) (m : gmap K V) : Z :=
  lsum (fun p => f (fst p) (snd p)) (map_to_list m).

Section WeightedSum.
Context {K V : Type} `{Countable K} (f : K -> V -> Z).

Lemma wsum_empty : wsum f ∅ = 0.
Proof. unfold wsum. by rewrite map_to_list_empty. Qed.

Lemma wsum_insert_new m k v : m !! k = None -> wsum f (<[k:=v]> m) = f k v + wsum f m.
Proof. intros Hk. unfold wsum. by rewrite (lsum_Permutation _ _ _ (map_to_list_insert m k v Hk)). Qed.

Lemma wsum_insert m k v :
  wsum f (<[k:=v]> m) = wsum f m - from_option (f k) 0 (m !! k) + f k v.
Proof.
  destruct (m !! k) as [w|] eqn:E; cbn; [|rewrite wsum_insert_new by done; lia].
  rewrite <- insert_delete_eq, wsum_insert_new by apply lookup_delete_eq.
  rewrite <- (insert_delete_id m k w E) at 2.
  rewrite wsum_insert_new by apply lookup_delete_eq. lia.
Qed.

Lemma wsum_delete m k : wsum f (delete k m) = wsum f m - from_option (f k) 0 (m !! k).
Proof.
  destruct (m !! k) as [w|] eqn:E; cbn; [|rewrite delete_id by done; lia].
  rewrite <- (insert_delete_id m k w E) at 2.
  rewrite wsum_insert_new by apply lookup_delete_eq. lia.
Qed.

Lemma wsum_ext (g : K -> V -> Z) m :
  (forall k v, m !! k = Some v -> f k v = g k v) -> wsum f m = wsum g m.
Proof.
  intros Hfg. apply lsum_ext. intros [k v] Hkv. apply elem_of_map_to_list in Hkv. auto.
Qed.

Lemma wsum_le (g : K -> V -> Z) m :
  (forall k v, m !! k = Some v -> f k v <= g k v) -> wsum f m <= wsum g m.
Proof. intros Hf. apply lsum_le. intros [k v] Hkv%elem_of_map_to_list. auto. Qed.

Lemma wsum_nonneg m : (forall k v, m !! k = Some v -> 0 <= f k v) -> 0 <= wsum f m.
Proof. intros Hf. apply lsum_nonneg. intros [k v] Hkv%elem_of_map_to_list. auto. Qed.

Lemma wsum_lookup_le m k v :
  (forall j w, m !! j = Some w -> 0 <= f j w) -> m !! k = Some v -> f k v <= wsum f m.
Proof.
  intros Hf Hk. pose proof (wsum_delete m k) as Hd. rewrite Hk in Hd. cbn in Hd.
  enough (0 <= wsum f (delete k m)) by lia. apply wsum_nonneg.
  intros j w [_ Hj]%lookup_delete_Some. by apply Hf.
Qed.
End WeightedSum.
