(* ===== verification/Epochs.v ===== *)
(** * Epochs

    Models [src/testnet/sdk/program/src/epoch_schedule.rs]: how slots are
    divided into epochs.  With warm-up the first epochs are short, of 32 slots
    and then twice as long each time, until the normal length is reached.

    The theorems show that epochs partition the slots: the epoch and the
    offset computed for a slot are those of the one epoch whose range of slots
    contains it. *)

From stdpp Require Import base numbers.
From Stdlib Require Import ZArith Lia.
From S2P Require Import Prelude.

Abbreviation Slot := Z (only parsing).
Abbreviation Epoch := Z (only parsing).

(** ** Unsigned integers of 64 and 32 bits *)

(** [u64::next_power_of_two], which wraps to 0 past the last power *)
Definition next_power_of_two (v : Z) : Z := wrap u64_max (2 ^ Z.log2_up v).

Fixpoint pos_trailing_zeros (p : positive) : Z :=
  match p with xO p => 1 + pos_trailing_zeros p | _ => 0 end.
Definition trailing_zeros (v : Z) : Z :=
  match v with Zpos p => pos_trailing_zeros p | _ => 64 end.

#[global] Arguments trailing_zeros : simpl never.
#[global] Arguments next_power_of_two : simpl never.

(** [u64::saturating_pow] of 2 *)
Definition saturating_pow2 (n : Z) : Z := Z.min u64_max (2 ^ n).
Definition saturating_mul (max a b : Z) : Z := Z.min max (a * b).

(** ** The schedule *)
Definition MINIMUM_SLOTS_PER_EPOCH : Z := 32.
Definition DEFAULT_SLOTS_PER_EPOCH : Z := 432000.
Definition DEFAULT_LEADER_SCHEDULE_SLOT_OFFSET : Z := DEFAULT_SLOTS_PER_EPOCH.

Record EpochSchedule := {
  slots_per_epoch : Z;
  leader_schedule_slot_offset : Z;
  warmup : bool;
  first_normal_epoch : Epoch;
  first_normal_slot : Slot }.

Module EpochSchedule.
Definition custom {E} (slots_per_epoch leader_schedule_slot_offset : Z) (warmup : bool)
  : result E EpochSchedule :=
  panic_unless (MINIMUM_SLOTS_PER_EPOCH <=? slots_per_epoch);;
  let '(first_normal_epoch, first_normal_slot) :=
    if warmup then
      let next_power_of_two := next_power_of_two slots_per_epoch in
      let log2_slots_per_epoch :=
        saturating_sub (trailing_zeros next_power_of_two)
          (trailing_zeros MINIMUM_SLOTS_PER_EPOCH) in
      (log2_slots_per_epoch, saturating_sub next_power_of_two MINIMUM_SLOTS_PER_EPOCH)
    else (0, 0) in
  Ok {| slots_per_epoch := slots_per_epoch;
        leader_schedule_slot_offset := leader_schedule_slot_offset;
        warmup := warmup;
        first_normal_epoch := first_normal_epoch;
        first_normal_slot := first_normal_slot |}.

Definition new {E} (slots_per_epoch : Z) : result E EpochSchedule :=
  custom slots_per_epoch slots_per_epoch true.

Definition without_warmup {E} : result E EpochSchedule :=
  custom DEFAULT_SLOTS_PER_EPOCH DEFAULT_LEADER_SCHEDULE_SLOT_OFFSET false.

Definition default_ {E} : result E EpochSchedule :=
  custom DEFAULT_SLOTS_PER_EPOCH DEFAULT_LEADER_SCHEDULE_SLOT_OFFSET true.

Definition get_slots_in_epoch (self : EpochSchedule) (epoch : Epoch) : Z :=
  if epoch <? first_normal_epoch self then
    saturating_pow2
      (saturating_add u32_max (wrap u32_max epoch) (trailing_zeros MINIMUM_SLOTS_PER_EPOCH))
  else slots_per_epoch self.

Definition get_epoch_and_slot_index (self : EpochSchedule) (slot : Slot) : Epoch * Z :=
  if slot <? first_normal_slot self then
    let epoch :=
      saturating_sub
        (saturating_sub
           (trailing_zeros (next_power_of_two
              (saturating_add u64_max (saturating_add u64_max slot MINIMUM_SLOTS_PER_EPOCH) 1)))
           (trailing_zeros MINIMUM_SLOTS_PER_EPOCH)) 1 in
    let epoch_len :=
      saturating_pow2 (saturating_add u32_max epoch (trailing_zeros MINIMUM_SLOTS_PER_EPOCH)) in
    (epoch, saturating_sub slot (saturating_sub epoch_len MINIMUM_SLOTS_PER_EPOCH))
  else
    let normal_slot_index := saturating_sub slot (first_normal_slot self) in
    let normal_epoch_index :=
      default 0 (checked_div normal_slot_index (slots_per_epoch self)) in
    let epoch := saturating_add u64_max (first_normal_epoch self) normal_epoch_index in
    let slot_index :=
      if slots_per_epoch self =? 0 then 0 else normal_slot_index mod slots_per_epoch self in
    (epoch, slot_index).

Definition get_epoch (self : EpochSchedule) (slot : Slot) : Epoch :=
  fst (get_epoch_and_slot_index self slot).

Definition get_leader_schedule_epoch (self : EpochSchedule) (slot : Slot) : Epoch :=
  if slot <? first_normal_slot self then
    saturating_add u64_max (fst (get_epoch_and_slot_index self slot)) 1
  else
    let new_slots_since_first_normal_slot := saturating_sub slot (first_normal_slot self) in
    let new_first_normal_leader_schedule_slot :=
      saturating_add u64_max new_slots_since_first_normal_slot
        (leader_schedule_slot_offset self) in
    let new_epochs_since_first_normal_leader_schedule :=
      default 0
        (checked_div new_first_normal_leader_schedule_slot (slots_per_epoch self)) in
    saturating_add u64_max (first_normal_epoch self)
      new_epochs_since_first_normal_leader_schedule.

Definition get_first_slot_in_epoch (self : EpochSchedule) (epoch : Epoch) : Slot :=
  if epoch <=? first_normal_epoch self then
    saturating_mul u64_max (saturating_sub (saturating_pow2 (wrap u32_max epoch)) 1)
      MINIMUM_SLOTS_PER_EPOCH
  else
    saturating_add u64_max
      (saturating_mul u64_max (saturating_sub epoch (first_normal_epoch self))
         (slots_per_epoch self))
      (first_normal_slot self).

Definition get_last_slot_in_epoch (self : EpochSchedule) (epoch : Epoch) : Slot :=
  saturating_sub
    (saturating_add u64_max (get_first_slot_in_epoch self epoch)
       (get_slots_in_epoch self epoch)) 1.
End EpochSchedule.

(** ** Powers of two *)
Lemma trailing_zeros_pow2 n : 0 <= n -> trailing_zeros (2 ^ n) = n.
Proof.
  intros Hn. pattern n. apply natlike_ind; [done| |done]. intros m Hm IH.
  rewrite Z.pow_succ_r by done. unfold trailing_zeros in *.
  pose proof (Z.pow_pos_nonneg 2 m eq_refl Hm).
  destruct (2 ^ m) as [|p|p] eqn:E; [lia| |lia].
  change (1 + pos_trailing_zeros p = Z.succ m). lia.
Qed.

Lemma next_power_of_two_exact v :
  0 <= v <= 2 ^ 63 -> next_power_of_two v = 2 ^ Z.log2_up v.
Proof.
  intros Hv. unfold next_power_of_two. apply wrap_small. split; [apply Z.pow_nonneg; lia|].
  assert (Z.log2_up v <= 63).
  { change 63 with (Z.log2_up (2 ^ 63)). apply Z.log2_up_le_mono. lia. }
  assert (2 ^ Z.log2_up v <= 2 ^ 63) by (apply Z.pow_le_mono_r; lia). unfold_max. lia.
Qed.

Lemma saturating_pow2_exact n : 0 <= n <= 63 -> saturating_pow2 n = 2 ^ n.
Proof.
  intros Hn. unfold saturating_pow2.
  assert (2 ^ n <= 2 ^ 63) by (apply Z.pow_le_mono_r; lia). unfold_max. lia.
Qed.

(** ** The epochs of a schedule

    A schedule with at most [2 ^ 63] slots in an epoch: the length of the
    warm-up epochs stays within the machine integers. *)
Section Schedule.
Import EpochSchedule.

Record schedule_ok (s : EpochSchedule) : Prop := {
  spe_range : MINIMUM_SLOTS_PER_EPOCH <= slots_per_epoch s <= 2 ^ 63;
  fne_range : 0 <= first_normal_epoch s <= 58;
  fns_eq : first_normal_slot s = (2 ^ first_normal_epoch s - 1) * 32 }.

Lemma custom_ok {E} spe offset w s :
  spe <= 2 ^ 63 -> custom (E := E) spe offset w = Ok s ->
  schedule_ok s /\ slots_per_epoch s = spe /\ leader_schedule_slot_offset s = offset.
Proof.
  intros Hspe. unfold custom. destruct w; cbn; intros H; inv_ok;
    to_prop; unfold MINIMUM_SLOTS_PER_EPOCH in *; (split; [|done]).
  - assert (5 <= Z.log2_up spe <= 63).
    { split; [change 5 with (Z.log2_up 32)|change 63 with (Z.log2_up (2 ^ 63))];
        apply Z.log2_up_le_mono; lia. }
    rewrite next_power_of_two_exact by lia.
    rewrite trailing_zeros_pow2 by lia. change (trailing_zeros 32) with 5.
    unfold saturating_sub. rewrite !Z.max_r; [|pose proof (Z.pow_le_mono_r 2 5 (Z.log2_up spe));
      lia|lia].
    split; unfold MINIMUM_SLOTS_PER_EPOCH; cbn -[Z.pow]; [lia|lia|].
    pose proof (Z.pow_add_r 2 (Z.log2_up spe - 5) 5 ltac:(lia) ltac:(lia)) as Hp.
    rewrite Z.sub_add in Hp. rewrite Hp. lia.
  - split; unfold MINIMUM_SLOTS_PER_EPOCH; cbn; lia.
Qed.

Context (s : EpochSchedule) (Hs : schedule_ok s).

Definition epoch_start (e : Epoch) : Z :=
  if e <=? first_normal_epoch s then (2 ^ e - 1) * 32
  else first_normal_slot s + (e - first_normal_epoch s) * slots_per_epoch s.
Definition epoch_len (e : Epoch) : Z :=
  if e <? first_normal_epoch s then 2 ^ e * 32 else slots_per_epoch s.

Lemma epoch_start_succ e : 0 <= e -> epoch_start (e + 1) = epoch_start e + epoch_len e.
Proof.
  intros He. destruct Hs as [? ? Hf]. unfold epoch_start, epoch_len.
  destruct (Z.leb_spec (e + 1) (first_normal_epoch s)),
    (Z.leb_spec e (first_normal_epoch s)), (Z.ltb_spec e (first_normal_epoch s)); try lia.
  - rewrite Z.pow_add_r, Z.pow_1_r by lia. lia.
  - replace e with (first_normal_epoch s) by lia. rewrite <- Hf. lia.
Qed.

Lemma epoch_len_pos e : 0 <= e -> 32 <= epoch_len e.
Proof.
  intros He. destruct Hs as [H1 ? ?]. unfold epoch_len, MINIMUM_SLOTS_PER_EPOCH in *.
  pose proof (Z.pow_pos_nonneg 2 e). destruct (e <? _); lia.
Qed.

Lemma epoch_start_mono e d : 0 <= e -> 0 <= d -> epoch_start e <= epoch_start (e + d).
Proof.
  intros He Hd. pattern d. apply natlike_ind; [rewrite Z.add_0_r; lia| |done].
  intros x Hx IH. replace (e + Z.succ x) with (e + x + 1) by lia.
  rewrite epoch_start_succ by lia. pose proof (epoch_len_pos (e + x)). lia.
Qed.

Lemma epoch_start_nonneg e : 0 <= e -> 0 <= epoch_start e.
Proof.
  intros He. pose proof (epoch_start_mono 0 e ltac:(lia) He) as Hm. destruct Hs as [_ H _].
  unfold epoch_start in Hm at 1. rewrite (proj2 (Z.leb_le 0 _)) in Hm by lia. exact Hm.
Qed.

(** Ranges of different epochs do not meet. *)
Lemma epoch_unique e1 e2 slot :
  0 <= e1 -> 0 <= e2 ->
  epoch_start e1 <= slot < epoch_start e1 + epoch_len e1 ->
  epoch_start e2 <= slot < epoch_start e2 + epoch_len e2 -> e1 = e2.
Proof.
  intros H1 H2 R1 R2. rewrite <- epoch_start_succ in R1, R2 by done.
  destruct (Z.lt_trichotomy e1 e2) as [Hlt|[->|Hlt]]; [|done|].
  - pose proof (epoch_start_mono (e1 + 1) (e2 - e1 - 1)) as Hm.
    replace (e1 + 1 + (e2 - e1 - 1)) with e2 in Hm by lia. lia.
  - pose proof (epoch_start_mono (e2 + 1) (e1 - e2 - 1)) as Hm.
    replace (e2 + 1 + (e1 - e2 - 1)) with e1 in Hm by lia. lia.
Qed.

(** Where the results stay within the machine integers, the source computes
    the start and the length of an epoch. *)
Lemma get_first_slot_in_epoch_exact e :
  0 <= e -> epoch_start e <= u64_max -> get_first_slot_in_epoch s e = epoch_start e.
Proof.
  intros He Hmax. destruct Hs as [H1 H2 H3].
  unfold get_first_slot_in_epoch, epoch_start, MINIMUM_SLOTS_PER_EPOCH in *.
  destruct (Z.leb_spec e (first_normal_epoch s)).
  - rewrite (wrap_small u32_max) by (unfold_max; lia).
    rewrite saturating_pow2_exact by lia. pose proof (Z.pow_pos_nonneg 2 e).
    unfold saturating_mul, saturating_sub. lia.
  - pose proof (Z.pow_pos_nonneg 2 (first_normal_epoch s) ltac:(lia) ltac:(lia)).
    unfold saturating_mul, saturating_sub, saturating_add.
    rewrite (Z.max_r 0 (e - _)) by lia. lia.
Qed.

Lemma get_slots_in_epoch_exact e : 0 <= e -> get_slots_in_epoch s e = epoch_len e.
Proof.
  intros He. destruct Hs as [H1 H2 H3].
  unfold get_slots_in_epoch, epoch_len. destruct (Z.ltb_spec e (first_normal_epoch s)); [|done].
  rewrite (wrap_small u32_max) by (unfold_max; lia).
  change (trailing_zeros MINIMUM_SLOTS_PER_EPOCH) with 5.
  unfold saturating_add. rewrite Z.min_r by (unfold_max; lia).
  rewrite saturating_pow2_exact by lia. rewrite Z.pow_add_r by lia. lia.
Qed.

(** A slot of the warm-up. *)
Lemma warmup_epoch slot :
  0 <= slot < first_normal_slot s ->
  exists e, 0 <= e < first_normal_epoch s /\ 2 ^ e * 32 <= slot + 32 < 2 ^ (e + 1) * 32 /\
    get_epoch_and_slot_index s slot = (e, slot - (2 ^ e * 32 - 32)).
Proof.
  intros Hslot. destruct Hs as [H1 H2 H3]. set (f := first_normal_epoch s) in *.
  assert (Hf : 2 ^ f <= 2 ^ 58) by (apply Z.pow_le_mono_r; lia).
  set (l := Z.log2_up (slot + 33)).
  assert (Hl : 2 ^ Z.pred l < slot + 33 <= 2 ^ l) by (apply Z.log2_up_spec; lia).
  assert (6 <= l).
  { change 6 with (Z.log2_up 33). apply Z.log2_up_le_mono. lia. }
  assert (l <= f + 5).
  { rewrite <- (Z.log2_up_pow2 (f + 5)) by lia. apply Z.log2_up_le_mono.
    rewrite Z.pow_add_r by lia. lia. }
  exists (l - 6). split_and!; try lia.
  - replace (Z.pred l) with (l - 6 + 5) in Hl by lia. rewrite Z.pow_add_r in Hl by lia. lia.
  - replace l with (l - 6 + 1 + 5) in Hl at 2 by lia. rewrite Z.pow_add_r in Hl by lia. lia.
  - unfold get_epoch_and_slot_index. rewrite (proj2 (Z.ltb_lt _ _)) by lia.
    unfold MINIMUM_SLOTS_PER_EPOCH. change (trailing_zeros 32) with 5.
    replace (saturating_add u64_max (saturating_add u64_max slot 32) 1) with (slot + 33)
      by (unfold saturating_add; unfold_max; lia).
    rewrite next_power_of_two_exact by lia. fold l.
    rewrite trailing_zeros_pow2 by lia.
    replace (saturating_sub (saturating_sub l 5) 1) with (l - 6)
      by (unfold saturating_sub; lia).
    unfold saturating_add. rewrite Z.min_r by (unfold_max; lia).
    rewrite saturating_pow2_exact by lia. rewrite Z.pow_add_r by lia.
    pose proof (Z.pow_pos_nonneg 2 (l - 6) ltac:(lia) ltac:(lia)).
    replace (Z.pred l) with (l - 6 + 5) in Hl by lia. rewrite Z.pow_add_r in Hl by lia.
    unfold saturating_sub. f_equal. lia.
Qed.

(** The epoch and offset computed for a slot are those of the epoch whose
    range contains it. *)
Lemma get_epoch_and_slot_index_exact slot :
  is_u64 slot ->
  let '(e, i) := get_epoch_and_slot_index s slot in
  0 <= e /\ slot = epoch_start e + i /\ 0 <= i < epoch_len e.
Proof.
  intros Hslot. pose proof Hs as [H1 H2 H3]. unfold MINIMUM_SLOTS_PER_EPOCH in *.
  pose proof (Z.pow_pos_nonneg 2 (first_normal_epoch s) ltac:(lia) ltac:(lia)).
  assert (0 <= slot / slots_per_epoch s) by (apply Z.div_pos; lia).
  destruct (Z.ltb_spec slot (first_normal_slot s)) as [Hw|Hn].
  - destruct (warmup_epoch slot ltac:(lia)) as (e & He & Hr & ->).
    unfold epoch_start, epoch_len. rewrite (proj2 (Z.leb_le e _)), (proj2 (Z.ltb_lt e _)) by lia.
    rewrite Z.pow_add_r, Z.pow_1_r in Hr by lia. lia.
  - unfold get_epoch_and_slot_index. rewrite (proj2 (Z.ltb_ge _ _)) by done.
    replace (saturating_sub slot (first_normal_slot s)) with (slot - first_normal_slot s)
      by (unfold saturating_sub; lia).
    rewrite (proj2 (Z.eqb_neq (slots_per_epoch s) 0)) by lia.
    unfold checked_div. rewrite (proj2 (Z.eqb_neq (slots_per_epoch s) 0)) by lia. cbn [from_option id].
    remember (slot - first_normal_slot s) as x eqn:Hx. set (n := slots_per_epoch s) in *.
    pose proof (Z.div_mod x n ltac:(lia)). pose proof (Z.mod_pos_bound x n ltac:(lia)).
    assert (0 <= x / n) by (apply Z.div_pos; lia).
    assert (x / n * 1 <= x / n * n) by (apply Z.mul_le_mono_nonneg_l; lia).
    assert (32 * (x / n) <= n * (x / n)) by (apply Z.mul_le_mono_nonneg_r; lia).
    assert (Hsum : first_normal_epoch s + x / n <= u64_max) by (unfold_max; lia).
    unfold saturating_add. rewrite Z.min_r by done.
    cbn beta iota zeta. unfold epoch_start, epoch_len. rewrite (proj2 (Z.ltb_ge (first_normal_epoch s + x / n) (first_normal_epoch s))) by lia. fold n.
    destruct (Z.leb_spec (first_normal_epoch s + x / n) (first_normal_epoch s)).
    + replace (x / n) with 0 in * by lia. rewrite Z.add_0_r, <- H3. lia.
    + lia.
Qed.
End Schedule.

Section Theorems.
Import EpochSchedule.

(** epochs partition the slots. In a schedule of at most 2 ^ 63 slots per
    epoch, the epoch computed for a slot starts as many slots before it as
    the computed offset says, the offset is less than the length of the
    epoch, and no other epoch has the slot between its first and its last
    slot. *)
Theorem epochs_partition_slots {E} spe offset w s slot :
  spe <= 2 ^ 63 -> custom (E := E) spe offset w = Ok s -> is_u64 slot ->
  let '(e, i) := get_epoch_and_slot_index s slot in
  get_first_slot_in_epoch s e + i = slot /\
  0 <= i < get_slots_in_epoch s e /\
  (forall e', 0 <= e' ->
    get_first_slot_in_epoch s e' <= slot <= get_last_slot_in_epoch s e' -> e' = e).
Proof.
  intros Hspe Hc Hslot. destruct (custom_ok _ _ _ _ Hspe Hc) as (Hs & _ & _).
  pose proof (get_epoch_and_slot_index_exact s Hs slot Hslot) as H.
  destruct (get_epoch_and_slot_index s slot) as [e i]. destruct H as (He & Hi & Hr).
  rewrite get_first_slot_in_epoch_exact, get_slots_in_epoch_exact by (auto; lia).
  split_and!; [lia|lia|lia|]. intros e' He' Hin. unfold get_last_slot_in_epoch in Hin.
  rewrite get_slots_in_epoch_exact in Hin by auto.
  pose proof (epoch_len_pos s Hs e' He'). pose proof (epoch_start_nonneg s Hs e' He').
  unfold saturating_add, saturating_sub in Hin.
  destruct (Z_le_gt_dec (epoch_start s e') u64_max) as [Hle|Hgt].
  - rewrite get_first_slot_in_epoch_exact in Hin by auto.
    apply (epoch_unique s Hs e' e slot); lia.
  - exfalso. destruct Hs as [H1 H2 H3]. unfold epoch_start in Hgt.
    unfold get_first_slot_in_epoch, saturating_add, saturating_mul, saturating_sub in Hin.
    destruct (Z.leb_spec e' (first_normal_epoch s)).
    + assert (2 ^ e' <= 2 ^ 58) by (apply Z.pow_le_mono_r; lia). unfold_max. lia.
    + rewrite (Z.max_r 0 (e' - _)) in Hin by lia. unfold_max. lia.
Qed.

(** The leader schedule of a normal slot is that of the epoch of the slot one
    offset later. *)
Lemma leader_schedule_is_ahead s slot :
  schedule_ok s -> first_normal_slot s <= slot -> 0 <= leader_schedule_slot_offset s ->
  slot + leader_schedule_slot_offset s <= u64_max ->
  get_leader_schedule_epoch s slot = get_epoch s (slot + leader_schedule_slot_offset s).
Proof.
  intros [H1 H2 H3] Hslot Ho Hmax.
  pose proof (Z.pow_pos_nonneg 2 (first_normal_epoch s) ltac:(lia) ltac:(lia)).
  unfold get_leader_schedule_epoch, get_epoch, get_epoch_and_slot_index.
  rewrite !(proj2 (Z.ltb_ge _ _)) by lia. cbn [fst]. do 3 f_equal.
  unfold saturating_add, saturating_sub. lia.
Qed.
End Theorems.

Lemma epochs_partition_slots_witness :
  let s := value_or (Build_EpochSchedule 0 0 true 0 0) (EpochSchedule.default_ (E := unit)) in
  EpochSchedule.get_epoch_and_slot_index s 100 = (2, 4) /\
  EpochSchedule.get_first_slot_in_epoch s 2 + 4 = 100.
Proof.
  split; [by vm_compute|].
  pose proof (epochs_partition_slots (E := unit) DEFAULT_SLOTS_PER_EPOCH
    DEFAULT_LEADER_SCHEDULE_SLOT_OFFSET true
    (value_or (E := unit) (Build_EpochSchedule 0 0 true 0 0) EpochSchedule.default_) 100
    ltac:(vm_compute; discriminate) ltac:(vm_compute; reflexivity) ltac:(vm_compute; by split)) as H.
  replace (EpochSchedule.get_epoch_and_slot_index _ 100) with (2, 4) in H by (by vm_compute).
  exact (proj1 H).
Defined.
