(* ===== verification/Runtime.v ===== *)
(** * The runtime's account rules

    Models the checks the runtime makes after every instruction
    ([src/testnet/program-runtime/src/instruction_processor.rs], [PreAccount],
    and [invoke_context.rs], [InvokeContext::verify]): whatever a program did
    to its accounts, the instruction only stands if these checks pass.  The
    timing counters they also update are not part of the outcome and are left
    out. *)

From stdpp Require Import base gmap list fin_maps.
From Stdlib Require Import ZArith Lia.
From S2P Require Import Prelude Sdk.

Module InstructionError.
Inductive t : Type :=
| GenericError | InvalidArgument | InvalidInstructionData | InvalidAccountData
| AccountDataTooSmall | InsufficientFunds | IncorrectProgramId
| MissingRequiredSignature | AccountAlreadyInitialized | UninitializedAccount
| UnbalancedInstruction | ModifiedProgramId | ExternalAccountLamportSpend
| ExternalAccountDataModified | ReadonlyLamportChange | ReadonlyDataModified
| DuplicateAccountIndex | ExecutableModified | RentEpochModified
| NotEnoughAccountKeys | AccountDataSizeChanged | AccountNotExecutable
| AccountBorrowFailed | AccountBorrowOutstanding | DuplicateAccountOutOfSync
| Custom (code : Z) | InvalidError | ExecutableDataModified
| ExecutableLamportChange | ExecutableAccountNotRentExempt
| UnsupportedProgramId | CallDepth | MissingAccount | ReentrancyNotAllowed
| MaxSeedLengthExceeded | InvalidSeeds | InvalidRealloc
| ComputationalBudgetExceeded | PrivilegeEscalation
| ProgramEnvironmentSetupFailure | ProgramFailedToComplete
| ProgramFailedToCompile | Immutable | IncorrectAuthority
| BorshIoError (msg : list Z) | AccountNotRentExempt | InvalidAccountOwner
| ArithmeticOverflow | UnsupportedSysvar | IllegalOwner.
End InstructionError.
Abbreviation instruction_result := (result InstructionError.t).

Module PreAccount.
Import InstructionError.

Definition ZEROS_LEN : nat := 1024.

(** [chunks_exact(n)] of a slice: the full chunks and the remainder. *)
Fixpoint chunks_exact (fuel n : nat) (l : list Z) : list (list Z) * list Z :=
  match fuel with
  | O => ([], l)
  | S fuel =>
      if Nat.leb n (length l)
      then let '(cs, r) := chunks_exact fuel n (drop n l) in (take n l :: cs, r)
      else ([], l)
  end.

Definition is_zeroed (buf : list Z) : bool :=
  let '(chunks, remainder) := chunks_exact (length buf) ZEROS_LEN buf in
  forallb (fun c => bool_decide (c = replicate ZEROS_LEN 0)) chunks
  && bool_decide (remainder = replicate (length remainder) 0).

Definition MAX_PERMITTED_DATA_LENGTH : Z := 10 * 1024 * 1024.

Definition verify (program_id : Pubkey) (writable : bool) (rent : Rent)
    (do_support_realloc : bool) (pre post : AccountSharedData)
  : instruction_result unit :=
  let owned := bool_decide (program_id = owner pre) in
  let owner_changed := negb (bool_decide (owner pre = owner post)) in
  fail_if (owner_changed &&
           (negb writable || executable pre || negb owned
            || negb (is_zeroed (data post)))) ModifiedProgramId ;;
  fail_if (negb owned && (lamports post <? lamports pre))
    ExternalAccountLamportSpend ;;
  let lamports_changed := negb (lamports pre =? lamports post) in
  fail_if (lamports_changed && negb writable) ReadonlyLamportChange ;;
  fail_if (lamports_changed && executable pre) ExecutableLamportChange ;;
  let data_len_changed := negb (Nat.eqb (length (data pre)) (length (data post))) in
  (if do_support_realloc then
     fail_if (MAX_PERMITTED_DATA_LENGTH <? Z.of_nat (length (data post)))
       InvalidRealloc ;;
     fail_if (data_len_changed && negb owned) AccountDataSizeChanged
   else
     fail_if (data_len_changed &&
              (negb (bool_decide (program_id = system_program_id))
               || negb (bool_decide (owner pre = system_program_id))))
       AccountDataSizeChanged) ;;
  (if negb (owned && writable && negb (executable pre))
      && negb (bool_decide (data pre = data post))
   then if executable pre then Err ExecutableDataModified
        else if writable then Err ExternalAccountDataModified
        else Err ReadonlyDataModified
   else Ok tt) ;;
  let executable_changed := negb (eqb (executable pre) (executable post)) in
  (if executable_changed then
     fail_if (negb (is_exempt rent (lamports post)
                      (Z.of_nat (length (data post)))))
       ExecutableAccountNotRentExempt ;;
     fail_if (negb writable || executable pre
              || negb (bool_decide (program_id = owner post)))
       ExecutableModified
   else Ok tt) ;;
  fail_if (negb (rent_epoch pre =? rent_epoch post)) RentEpochModified.

Definition zeroed (buf : list Z) : Prop := Forall (fun b => b = 0) buf.

Lemma replicate_zeroed (l : list Z) : l = replicate (length l) 0 <-> zeroed l.
Proof.
  unfold zeroed. split.
  - intros ->. apply Forall_replicate. done.
  - induction 1 as [|b l -> _ IH]; cbn; [done|]. by f_equal.
Qed.

Lemma chunks_exact_zeroed fuel l :
  (let '(cs, r) := chunks_exact fuel ZEROS_LEN l in
   forallb (fun c => bool_decide (c = replicate ZEROS_LEN 0)) cs
   && bool_decide (r = replicate (length r) 0)) = true <-> zeroed l.
Proof.
  revert l. induction fuel as [|fuel IH]; intros l; cbn [chunks_exact].
  - cbn. rewrite bool_decide_eq_true. apply replicate_zeroed.
  - destruct (Nat.leb_spec ZEROS_LEN (length l)) as [Hl|Hl].
    + specialize (IH (drop ZEROS_LEN l)).
      destruct (chunks_exact fuel ZEROS_LEN (drop ZEROS_LEN l)) as [cs r].
      cbn [forallb]. rewrite <- andb_assoc, andb_true_iff, IH, bool_decide_eq_true.
      rewrite <- (take_drop ZEROS_LEN l) at 3. unfold zeroed at 2.
      rewrite Forall_app. apply and_iff_compat_r.
      rewrite <- (replicate_zeroed (take _ l)), length_take, Nat.min_l by done. done.
    + cbn [forallb]. rewrite andb_true_l, bool_decide_eq_true. apply replicate_zeroed.
Qed.

Lemma is_zeroed_spec buf : is_zeroed buf = true <-> zeroed buf.
Proof. apply chunks_exact_zeroed. Qed.

(** The policy the checks enforce on one account. *)
Record allowed (program_id : Pubkey) (writable : bool)
    (pre post : AccountSharedData) : Prop := {
  allowed_owner : owner pre <> owner post ->
    program_id = owner pre /\ zeroed (data post);
  allowed_debit : lamports post < lamports pre -> program_id = owner pre;
  allowed_data : data pre <> data post -> program_id = owner pre;
  allowed_readonly : writable = false \/ executable pre = true -> 
    owner pre = owner post /\ lamports pre = lamports post /\
    data pre = data post;
  allowed_epoch : rent_epoch pre = rent_epoch post;
}.

Lemma verify_allowed pid w rent realloc pre post u :
  verify pid w rent realloc pre post = Ok u -> allowed pid w pre post.
Proof.
  unfold verify. intros H. inv_ok. clear x3 x5 Hr3 Hr5. to_prop.
  assert (data pre <> data post ->
          pid = owner pre /\ w = true /\ executable pre = false) as Hdata.
  { intros Hne. rewrite (bool_decide_eq_false_2 _ Hne), andb_true_r in Hr4.
    destruct (bool_decide_reflect (pid = owner pre)), w, (executable pre);
      cbn in Hr4; naive_solver. }
  assert (owner pre <> owner post ->
          pid = owner pre /\ zeroed (data post) /\ w = true /\
          executable pre = false) as Howner.
  { intros Hne. destruct Hr as [Hr|Hr]; to_prop; [done|].
    rewrite <- is_zeroed_spec. auto. }
  split.
  - intuition.
  - intros Hlt. destruct Hr0 as [Hr0|Hr0]; to_prop; [done|lia].
  - intuition.
  - intros Hro. split; [|split].
    + destruct (decide (owner pre = owner post)); intuition congruence.
    + destruct Hr1, Hr2; to_prop; intuition congruence.
    + destruct (decide (data pre = data post)); intuition congruence.
  - done.
Qed.
End PreAccount.

(** ** The whole instruction *)

(** [visit_each_account]: the accounts of the instruction without the later
    occurrences of a duplicate. *)
Fixpoint unique_accounts (seen : list Pubkey) (l : list AccountInfo)
  : list AccountInfo :=
  match l with
  | [] => []
  | i :: l =>
      if bool_decide (key i ∈ seen) then unique_accounts seen l
      else i :: unique_accounts (key i :: seen) l
  end.

Definition account_work (program_id : Pubkey) (rent : Rent) (realloc : bool)
    (pre post : store) (sums : Z * Z) (i : AccountInfo)
  : instruction_result (Z * Z) :=
  let '(pre_sum, post_sum) := sums in
  PreAccount.verify program_id (is_writable i) rent realloc
    (acct pre (key i)) (acct post (key i)) ;;
  pre_sum' ← ok_or (checked_add u128_max pre_sum (lamports (acct pre (key i))))
               InstructionError.UnbalancedInstruction;
  post_sum' ← ok_or (checked_add u128_max post_sum (lamports (acct post (key i))))
                InstructionError.UnbalancedInstruction;
  Ok (pre_sum', post_sum').

Fixpoint visit_accounts (program_id : Pubkey) (rent : Rent) (realloc : bool)
    (pre post : store) (sums : Z * Z) (l : list AccountInfo)
  : instruction_result (Z * Z) :=
  match l with
  | [] => Ok sums
  | i :: l =>
      sums' ← account_work program_id rent realloc pre post sums i;
      visit_accounts program_id rent realloc pre post sums' l
  end.

(** [InvokeContext::verify]; no reference into an account outlives the
    program's entrypoint, so the outstanding-borrow checks pass. *)
Definition verify_instruction (program_id : Pubkey) (rent : Rent)
    (realloc : bool) (accounts : list AccountInfo) (pre post : store)
  : instruction_result unit :=
  sums ← visit_accounts program_id rent realloc pre post (0, 0)
           (unique_accounts [] accounts);
  fail_if (negb (fst sums =? snd sums)) InstructionError.UnbalancedInstruction.

(** An instruction only reaches the accounts it names. *)
Definition untouched_outside (accounts : list AccountInfo) (pre post : store)
  : Prop :=
  forall k, k ∉ key <$> accounts -> acct post k = acct pre k.

(** Lamports over the whole ledger. *)
Definition total_lamports (st : store) : Z := msum lamports st.

Section VerifyInstruction.
Context (pid : Pubkey) (rent : Rent) (realloc : bool).
Implicit Types (pre post : store) (l : list AccountInfo).

Lemma allowed_refl w a : PreAccount.allowed pid w a a.
Proof. split; intuition (congruence || lia). Qed.

Lemma elem_of_unique_accounts k seen l :
  k ∈ key <$> unique_accounts seen l <-> k ∈ key <$> l /\ k ∉ seen.
Proof.
  revert seen. induction l as [|i l IH]; intros seen; cbn [unique_accounts].
  - set_solver.
  - destruct (decide (k = key i)); case_bool_decide;
      rewrite ?fmap_cons, ?elem_of_cons, IH; set_solver.
Qed.

Lemma NoDup_unique_accounts seen l : NoDup (key <$> unique_accounts seen l).
Proof.
  revert seen. induction l as [|i l IH]; intros seen; cbn [unique_accounts].
  - constructor.
  - case_bool_decide; [apply IH|]. rewrite fmap_cons. constructor; [|apply IH].
    rewrite elem_of_unique_accounts. set_solver.
Qed.

Abbreviation sum_at := (sum_keys lamports default_account).

Lemma visit_accounts_Ok pre post sums l sums' :
  visit_accounts pid rent realloc pre post sums l = Ok sums' ->
  Forall (fun i => PreAccount.allowed pid (is_writable i)
                     (acct pre (key i)) (acct post (key i))) l /\
  fst sums' = fst sums + sum_at pre (key <$> l) /\
  snd sums' = snd sums + sum_at post (key <$> l).
Proof.
  revert sums. induction l as [|i l IH]; intros [p q] H; cbn in *.
  - inv_ok. split; [constructor|]. cbn. lia.
  - unfold account_work in H. inv_ok. apply IH in H as (Hall & H1 & H2). inv_checked. subst. cbn in *.
    split; [constructor; [eapply PreAccount.verify_allowed; eassumption|done]|]. unfold sum_keys, acct in *. lia.
Qed.

(** The access policy holds of every account of the ledger. *)
Lemma verify_instruction_allowed accounts pre post u :
  verify_instruction pid rent realloc accounts pre post = Ok u ->
  untouched_outside accounts pre post ->
  forall k, exists w, PreAccount.allowed pid w (acct pre k) (acct post k).
Proof.
  unfold verify_instruction. intros H Hout k. inv_ok.
  apply visit_accounts_Ok in Hr as [Hall _].
  destruct (decide (k ∈ key <$> accounts)) as [Hk|Hk].
  - assert (k ∈ key <$> unique_accounts [] accounts) as Hk'
      by (apply elem_of_unique_accounts; set_solver).
    apply list_elem_of_fmap in Hk' as (i & -> & Hi).
    rewrite Forall_forall in Hall. eauto.
  - exists true. rewrite Hout by done. apply allowed_refl.
Qed.

(** An instruction accepted by the runtime's account verification
    conserves the lamports of the whole ledger, also when accounts are
    passed more than once. *)
Theorem lamports_conserved accounts pre post :
  verify_instruction pid rent realloc accounts pre post = Ok tt ->
  untouched_outside accounts pre post ->
  total_lamports post = total_lamports pre.
Proof.
  unfold verify_instruction, total_lamports. intros H Hout. inv_ok. to_prop.
  apply visit_accounts_Ok in Hr as (_ & H1 & H2). cbn in *.
  set (ks := key <$> unique_accounts [] accounts) in *.
  pose proof (NoDup_unique_accounts [] accounts : NoDup ks) as Hnd.
  enough (msum lamports post - msum lamports pre = 0) by lia.
  rewrite (msum_change lamports pre post ks default_account); [lia|done|done|].
  intros k Hk. specialize (Hout k). unfold acct in Hout. rewrite Hout; [done|].
  intros Hin. apply Hk, elem_of_unique_accounts. set_solver.
Qed.

(** An instruction accepted by the runtime leaves every account its
    program does not own with the same owner, data and rent epoch, and
    with at least the lamports it had. *)
Theorem foreign_accounts_protected accounts pre post k :
  verify_instruction pid rent realloc accounts pre post = Ok tt ->
  untouched_outside accounts pre post -> owner (acct pre k) <> pid ->
  owner (acct post k) = owner (acct pre k) /\
  data (acct post k) = data (acct pre k) /\
  lamports (acct pre k) <= lamports (acct post k) /\
  rent_epoch (acct post k) = rent_epoch (acct pre k).
Proof.
  intros Hv Hout Ho. destruct (verify_instruction_allowed _ _ _ _ Hv Hout k) as [w Ha].
  destruct Ha as [Hown Hdebit Hdata _ Hepoch]. split_and!.
  - destruct (decide (owner (acct pre k) = owner (acct post k))); intuition congruence.
  - destruct (decide (data (acct pre k) = data (acct post k))); intuition congruence.
  - destruct (decide (lamports (acct post k) < lamports (acct pre k))); [|lia].
    intuition congruence.
  - done.
Qed.
End VerifyInstruction.

(** ** A sample instruction

    A program moves five lamports from its own account to another one. *)
Module RuntimeSample.
Definition k (n : Z) : Pubkey := n :: replicate 31 3.
Definition account (own : Pubkey) (l : Z) : AccountSharedData :=
  {| lamports := l; data := [1; 2]; owner := own; executable := false; rent_epoch := 4 |}.
Definition info (n : Z) : AccountInfo :=
  {| key := k n; is_signer := false; is_writable := true |}.
Definition ledger (a b : Z) : store :=
  <[k 1 := account (k 9) a]> (<[k 2 := account (k 8) b]> ∅).
Definition accounts : list AccountInfo := [info 1; info 2; info 1].

Lemma checked :
  verify_instruction (k 9) Rent_default true accounts (ledger 20 7) (ledger 15 12) = Ok tt.
Proof. vm_compute. reflexivity. Qed.

Lemma outside : untouched_outside accounts (ledger 20 7) (ledger 15 12).
Proof.
  intros j Hj. cbn [accounts fmap list_fmap] in Hj. unfold acct, ledger.
  rewrite !lookup_insert_ne; [done|set_solver..].
Qed.

Lemma lamports_conserved_witness :
  total_lamports (ledger 15 12) = total_lamports (ledger 20 7).
Proof.
  exact (lamports_conserved (k 9) Rent_default true accounts _ _ checked outside).
Defined.

Lemma foreign_accounts_protected_witness :
  owner (acct (ledger 15 12) (k 2)) = owner (acct (ledger 20 7) (k 2)) /\
  data (acct (ledger 15 12) (k 2)) = data (acct (ledger 20 7) (k 2)) /\
  lamports (acct (ledger 20 7) (k 2)) <= lamports (acct (ledger 15 12) (k 2)) /\
  rent_epoch (acct (ledger 15 12) (k 2)) = rent_epoch (acct (ledger 20 7) (k 2)).
Proof.
  apply (foreign_accounts_protected (k 9) Rent_default true accounts _ _ (k 2)
           checked outside).
  vm_compute. discriminate.
Defined.
End RuntimeSample.
