(* ===== verification/KeyedAccount.v ===== *)
(** * Keyed accounts of the native programs

    Models what the native programs use to reach their accounts
    ([src/testnet/sdk/src/keyed_account.rs], [account.rs],
    [account_utils.rs]): access by index, the set of signers, checked lamport
    arithmetic, and account data holding a serialized state.  Serialization
    goes through [bincode], which is not in the repository: encoders and
    decoders are arguments.  Also holds the numbering of errors
    ([src/testnet/sdk/program/src/program_error.rs]) by which an error crosses
    the boundary between a program and the runtime. *)

From stdpp Require Import base gmap list fin_maps strings.
From Stdlib Require Import ZArith Lia.
From S2P Require Import Prelude Sdk Runtime.

(** ** Error numbers *)
Definition BUILTIN_BIT_SHIFT : Z := 32.
Definition to_builtin (error : Z) : Z := Z.shiftl error BUILTIN_BIT_SHIFT.

(** [impl From<ProgramError> for u64] *)
Definition ProgramError_to_u64 (e : ProgramError) : Z :=
  match e with
  | InvalidArgument => to_builtin 2
  | InvalidInstructionData => to_builtin 3
  | InvalidAccountData => to_builtin 4
  | AccountDataTooSmall => to_builtin 5
  | InsufficientFunds => to_builtin 6
  | IncorrectProgramId => to_builtin 7
  | MissingRequiredSignature => to_builtin 8
  | AccountAlreadyInitialized => to_builtin 9
  | UninitializedAccount => to_builtin 10
  | NotEnoughAccountKeys => to_builtin 11
  | AccountBorrowFailed => to_builtin 12
  | MaxSeedLengthExceeded => to_builtin 13
  | InvalidSeeds => to_builtin 14
  | BorshIoError _ => to_builtin 15
  | AccountNotRentExempt => to_builtin 16
  | UnsupportedSysvar => to_builtin 17
  | IllegalOwner => to_builtin 18
  | Custom error => if error =? 0 then to_builtin 1 else error
  end.

(** ["Unknown".to_string()] *)
Definition unknown_message : list Z := [85; 110; 107; 110; 111; 119; 110].

(** The [match error] of the two conversions from a number: the table of the
    built-in errors, and the last arm for the rest. *)
Definition builtin_table {A} (table : list (Z * A)) (other : Z -> A) (error : Z) : A :=
  match list_find (fun x => fst x = error) table with
  | Some (_, (_, a)) => a
  | None => other error
  end.

(** [impl From<u64> for ProgramError] *)
Definition ProgramError_from_u64 : Z -> ProgramError :=
  builtin_table
    [(to_builtin 1, Custom 0); (to_builtin 2, InvalidArgument);
     (to_builtin 3, InvalidInstructionData); (to_builtin 4, InvalidAccountData);
     (to_builtin 5, AccountDataTooSmall); (to_builtin 6, InsufficientFunds);
     (to_builtin 7, IncorrectProgramId); (to_builtin 8, MissingRequiredSignature);
     (to_builtin 9, AccountAlreadyInitialized); (to_builtin 10, UninitializedAccount);
     (to_builtin 11, NotEnoughAccountKeys); (to_builtin 12, AccountBorrowFailed);
     (to_builtin 13, MaxSeedLengthExceeded); (to_builtin 14, InvalidSeeds);
     (to_builtin 15, BorshIoError unknown_message);
     (to_builtin 16, AccountNotRentExempt); (to_builtin 17, UnsupportedSysvar);
     (to_builtin 18, IllegalOwner)] (fun error => Custom (wrap u32_max error)).

(** [impl<T: ToPrimitive> From<T> for InstructionError], on [error.to_u64()] *)
Definition InstructionError_from : Z -> InstructionError.t :=
  builtin_table
    [(to_builtin 1, InstructionError.Custom 0);
     (to_builtin 2, InstructionError.InvalidArgument);
     (to_builtin 3, InstructionError.InvalidInstructionData);
     (to_builtin 4, InstructionError.InvalidAccountData);
     (to_builtin 5, InstructionError.AccountDataTooSmall);
     (to_builtin 6, InstructionError.InsufficientFunds);
     (to_builtin 7, InstructionError.IncorrectProgramId);
     (to_builtin 8, InstructionError.MissingRequiredSignature);
     (to_builtin 9, InstructionError.AccountAlreadyInitialized);
     (to_builtin 10, InstructionError.UninitializedAccount);
     (to_builtin 11, InstructionError.NotEnoughAccountKeys);
     (to_builtin 12, InstructionError.AccountBorrowFailed);
     (to_builtin 13, InstructionError.MaxSeedLengthExceeded);
     (to_builtin 14, InstructionError.InvalidSeeds);
     (to_builtin 15, InstructionError.BorshIoError unknown_message);
     (to_builtin 16, InstructionError.AccountNotRentExempt);
     (to_builtin 17, InstructionError.UnsupportedSysvar);
     (to_builtin 18, InstructionError.IllegalOwner)]
    (fun error =>
       if Z.shiftr error BUILTIN_BIT_SHIFT =? 0
       then InstructionError.Custom (wrap u32_max error)
       else InstructionError.InvalidError).

(** [impl TryFrom<InstructionError> for ProgramError] *)
Definition ProgramError_try_from (e : InstructionError.t)
  : result InstructionError.t ProgramError :=
  match e with
  | InstructionError.Custom err => Ok (Custom err)
  | InstructionError.InvalidArgument => Ok InvalidArgument
  | InstructionError.InvalidInstructionData => Ok InvalidInstructionData
  | InstructionError.InvalidAccountData => Ok InvalidAccountData
  | InstructionError.AccountDataTooSmall => Ok AccountDataTooSmall
  | InstructionError.InsufficientFunds => Ok InsufficientFunds
  | InstructionError.IncorrectProgramId => Ok IncorrectProgramId
  | InstructionError.MissingRequiredSignature => Ok MissingRequiredSignature
  | InstructionError.AccountAlreadyInitialized => Ok AccountAlreadyInitialized
  | InstructionError.UninitializedAccount => Ok UninitializedAccount
  | InstructionError.NotEnoughAccountKeys => Ok NotEnoughAccountKeys
  | InstructionError.AccountBorrowFailed => Ok AccountBorrowFailed
  | InstructionError.MaxSeedLengthExceeded => Ok MaxSeedLengthExceeded
  | InstructionError.InvalidSeeds => Ok InvalidSeeds
  | InstructionError.BorshIoError err => Ok (BorshIoError err)
  | InstructionError.AccountNotRentExempt => Ok AccountNotRentExempt
  | InstructionError.UnsupportedSysvar => Ok UnsupportedSysvar
  | InstructionError.IllegalOwner => Ok IllegalOwner
  | _ => Err e
  end.

(** ** Keyed accounts: references into the store *)
Definition keyed_account_at_index (keyed_accounts : list AccountInfo) (index : nat)
  : instruction_result AccountInfo :=
  ok_or (keyed_accounts !! index) InstructionError.NotEnoughAccountKeys.

Definition get_signers (keyed_accounts : list AccountInfo) : list Pubkey :=
  key <$> filter (fun i => is_signer i = true) keyed_accounts.

(** [checked_sub_lamports] and [checked_add_lamports]; both errors become
    [ArithmeticOverflow]. *)
Definition checked_sub_lamports (st : store) (k : Pubkey) (n : Z) : instruction_result store :=
  l ← ok_or (checked_sub (lamports (acct st k)) n) InstructionError.ArithmeticOverflow;
  Ok (set_lamports st k l).
Definition checked_add_lamports (st : store) (k : Pubkey) (n : Z) : instruction_result store :=
  l ← ok_or (checked_add u64_max (lamports (acct st k)) n)
        InstructionError.ArithmeticOverflow;
  Ok (set_lamports st k l).

(** [State::state] and [State::set_state] *)
Definition get_state {T} (decode : list Z -> option T) (st : store) (i : AccountInfo)
  : instruction_result T :=
  ok_or (decode (data (acct st (key i)))) InstructionError.InvalidAccountData.

Definition set_state {T} (encode : T -> list Z) (st : store) (i : AccountInfo) (v : T)
  : instruction_result store :=
  let d := data (acct st (key i)) in
  let e := encode v in
  fail_if (Nat.ltb (length d) (length e)) InstructionError.AccountDataTooSmall ;;
  Ok (set_data st (key i) (e ++ drop (length e) d)).

Definition from_keyed_account {S} (id : Pubkey) (dec : list Z -> option S) (st : store)
    (i : AccountInfo) : instruction_result S :=
  fail_if (negb (bool_decide (key i = id))) InstructionError.InvalidArgument ;;
  ok_or (dec (data (acct st (key i)))) InstructionError.InvalidArgument.

(** [instruction::checked_add] *)
Definition instruction_checked_add (a b : Z) : instruction_result Z :=
  ok_or (checked_add u64_max a b) InstructionError.InsufficientFunds.

(** ** Errors cross the boundary unchanged *)

(** What a number can carry: the text of a Borsh error is lost. *)
Definition forget_message (e : ProgramError) : ProgramError :=
  match e with BorshIoError _ => BorshIoError unknown_message | _ => e end.

Definition custom_in_range (e : ProgramError) : Prop :=
  match e with Custom c => is_u32 c | _ => True end.

Lemma builtin_table_custom {A} (table : list (Z * A)) other c :
  Forall (fun x => u32_max < fst x) table -> is_u32 c ->
  builtin_table table other c = other c.
Proof.
  intros Ht Hc. unfold builtin_table.
  replace (list_find _ table) with (@None (nat * (Z * A))); [done|].
  symmetry. apply list_find_None. eapply Forall_impl; [exact Ht|]. intros [y ?]; cbn. lia.
Qed.

(** A program error survives its numbering: read back from its 64-bit
    code, by the program or by the runtime, it is the same error, except
    that the text of a Borsh error is lost. *)
Theorem error_roundtrip e :
  custom_in_range e ->
  ProgramError_from_u64 (ProgramError_to_u64 e) = forget_message e /\
  ProgramError_try_from (InstructionError_from (ProgramError_to_u64 e)) =
    Ok (forget_message e).
Proof.
  destruct e as [c| | | | | | | | | | | | | |msg| | |]; intros Hc;
    [|split; vm_compute; reflexivity..].
  cbn [ProgramError_to_u64]. destruct (Z.eqb_spec c 0) as [->|Hne].
  - split; vm_compute; reflexivity.
  - unfold ProgramError_from_u64, InstructionError_from. cbn in Hc.
    rewrite !builtin_table_custom
      by (exact Hc || (repeat (apply Forall_cons; split; [reflexivity|]); apply Forall_nil_2)).
    assert (Z.shiftr c BUILTIN_BIT_SHIFT = 0) as ->
      by (unfold BUILTIN_BIT_SHIFT; rewrite Z.shiftr_div_pow2 by lia;
          apply Z.div_small; unfold_max; lia).
    unfold wrap. rewrite Z.mod_small by (unfold_max; lia). done.
Qed.

Lemma error_roundtrip_witness :
  custom_in_range (Custom 7) /\
  ProgramError_from_u64 (ProgramError_to_u64 (Custom 7)) = Custom 7.
Proof. split; [cbn; unfold_max; lia|]. apply (error_roundtrip (Custom 7)). cbn; unfold_max; lia. Defined.

Lemma elem_of_get_signers k l :
  k ∈ get_signers l <-> exists i, i ∈ l /\ is_signer i = true /\ key i = k.
Proof.
  unfold get_signers. rewrite list_elem_of_fmap. setoid_rewrite list_elem_of_filter.
  naive_solver.
Qed.

(** With a codec that reads back what it wrote and ignores trailing bytes,
    storing a state changes the data of one account, not its length. *)
Lemma set_state_stores {T} (encode : T -> list Z) (decode : list Z -> option T) st i v st' :
  (forall v rest, decode (encode v ++ rest) = Some v) ->
  set_state encode st i v = Ok st' ->
  exists d, st' = set_data st (key i) d /\ decode d = Some v /\
    length d = length (data (acct st (key i))).
Proof.
  unfold set_state. intros codec H. inv_ok. apply Nat.ltb_ge in Hr.
  eexists. split; [done|]. split; [by apply codec|]. rewrite length_app, length_drop. lia.
Qed.

(** ** Lamports of the whole ledger *)
Lemma total_set_lamports st k l :
  total_lamports (set_lamports st k l) = total_lamports st - lamports (acct st k) + l.
Proof.
  unfold total_lamports, set_lamports.
  rewrite (msum_insert lamports _ _ _ default_account) by done. done.
Qed.

Lemma total_set_data st k d : total_lamports (set_data st k d) = total_lamports st.
Proof.
  unfold total_lamports, set_data.
  rewrite (msum_insert lamports _ _ _ default_account) by done.
  cbn. unfold acct. lia.
Qed.

Lemma total_insert (st : store) k a :
  total_lamports (<[k := a]> st) = total_lamports st - lamports (acct st k) + lamports a.
Proof.
  unfold total_lamports.
  rewrite (msum_insert lamports _ _ _ default_account) by done. done.
Qed.

Lemma acct_insert (st : store) k a k' :
  acct (<[k := a]> st) k' = if decide (k = k') then a else acct st k'.
Proof. unfold acct. rewrite lookup_insert. by case_decide. Qed.

(** The two checked updates of a payment; [from] and [to] may be the same. *)
Definition move_lamports (st : store) (from to : Pubkey) (n : Z) : store :=
  let st := set_lamports st from (lamports (acct st from) - n) in
  set_lamports st to (lamports (acct st to) + n).

Lemma pay_Ok st from to n st1 st' :
  checked_sub_lamports st from n = Ok st1 -> checked_add_lamports st1 to n = Ok st' ->
  st' = move_lamports st from to n /\ n <= lamports (acct st from).
Proof.
  unfold checked_sub_lamports, checked_add_lamports. intros H1 H2. inv_ok. inv_checked.
  subst. split; [done|lia].
Qed.

Lemma total_move_lamports st from to n :
  total_lamports (move_lamports st from to n) = total_lamports st.
Proof. unfold move_lamports. rewrite !total_set_lamports. lia. Qed.

Lemma acct_move_lamports st from to n k :
  acct (move_lamports st from to n) k =
  {| lamports := lamports (acct st k) - (if decide (from = k) then n else 0)
                 + (if decide (to = k) then n else 0);
     data := data (acct st k); owner := owner (acct st k);
     executable := executable (acct st k); rent_epoch := rent_epoch (acct st k) |}.
Proof.
  unfold move_lamports. rewrite !acct_set_lamports.
  destruct (decide (from = k)) as [->|], (decide (to = k)) as [->|];
    rewrite ?decide_True, ?decide_False by congruence;
    destruct (acct st k); cbn; f_equal; lia.
Qed.

Lemma acct_move_0 st from to k : acct (move_lamports st from to 0) k = acct st k.
Proof.
  rewrite acct_move_lamports. destruct (acct st k); cbn. f_equal. repeat case_decide; lia.
Qed.
