(* ===== verification/Message.v ===== *)
(** * Messages

    Models the messages of transactions ([src/testnet/sdk/program/src/message],
    [legacy.rs] and [mod.rs]): compiling instructions into a message with one
    table of addresses, the signer and write privileges that positions in this
    table carry, sanitization, and the serialization of a message's
    instructions for the instructions sysvar.  The last part shows that the
    compilation is right when no address is promoted to writable, and what
    happens when one is. *)

From stdpp Require Import base gmap list fin_maps strings sorting.
From Stdlib Require Import ZArith Lia.
From S2P Require Import Prelude Sdk Runtime KeyedAccount.

(** ** Instructions and messages *)
Record AccountMeta := {
  pubkey : Pubkey;
  meta_is_signer : bool;
  meta_is_writable : bool;
}.

Record Instruction := {
  program_id : Pubkey;
  ix_accounts : list AccountMeta;
  ix_data : list Z;
}.

(** Indices are [u8]. *)
Record CompiledInstruction := {
  program_id_index : nat;
  accounts : list nat;
  ci_data : list Z;
}.

Record MessageHeader := {
  num_required_signatures : Z;
  num_readonly_signed_accounts : Z;
  num_readonly_unsigned_accounts : Z;
}.

Record Message := {
  header : MessageHeader;
  account_keys : list Pubkey;
  recent_blockhash : Hash;
  instructions : list CompiledInstruction;
}.

Module SanitizeError.
Inductive t : Type := IndexOutOfBounds | ValueOutOfBounds | InvalidValue.
End SanitizeError.

(** ** Reserved addresses *)

(** [sysvar::ALL_IDS] *)
Definition sysvar_ALL_IDS : list Pubkey := Eval vm_compute in declare_id <$>
  ["SysvarC1ock11111111111111111111111111111111";
   "SysvarEpochSchedu1e111111111111111111111111";
   "SysvarFees111111111111111111111111111111111";
   "SysvarRecentB1ockHashes11111111111111111111";
   "SysvarRent111111111111111111111111111111111";
   "SysvarRewards111111111111111111111111111111";
   "SysvarS1otHashes111111111111111111111111111";
   "SysvarS1otHistory11111111111111111111111111";
   "SysvarStakeHistory1111111111111111111111111";
   "Sysvar1nstructions1111111111111111111111111"].
Definition is_sysvar_id (id : Pubkey) : bool := existsb (fun k => bool_decide (k = id)) sysvar_ALL_IDS.

Definition bpf_loader_upgradeable_id : Pubkey :=
  Eval vm_compute in declare_id "BPFLoaderUpgradeab1e11111111111111111111111".

Definition BUILTIN_PROGRAMS_KEYS : list Pubkey := Eval vm_compute in declare_id <$>
  ["Config1111111111111111111111111111111111111";
   "Feature111111111111111111111111111111111111";
   "NativeLoader1111111111111111111111111111111";
   "Stake11111111111111111111111111111111111111";
   "StakeConfig11111111111111111111111111111111";
   "Vote111111111111111111111111111111111111111";
   "11111111111111111111111111111111";
   "BPFLoader2111111111111111111111111111111111";
   "BPFLoader1111111111111111111111111111111111";
   "BPFLoaderUpgradeab1e11111111111111111111111"].

(** ** Compiling instructions *)

(** [x as u8] of a [usize] *)
Definition as_u8 (n : nat) : nat := (n mod 256)%nat.

(** [keys.iter().position(|k| k == key).unwrap() as u8] *)
Definition position {E} (keys : list Pubkey) (k : Pubkey) : result E nat :=
  i ← unwrap (fst <$> list_find (fun k' => k' = k) keys);
  Ok (as_u8 i).

(** [.map(f).collect()], for an [f] that may fail *)
Fixpoint map_result {E A B} (f : A -> result E B) (l : list A) : result E (list B) :=
  match l with
  | [] => Ok []
  | a :: l => b ← f a; bs ← map_result f l; Ok (b :: bs)
  end.

Definition compile_instruction {E} (ix : Instruction) (keys : list Pubkey)
  : result E CompiledInstruction :=
  accounts ← map_result (fun m => position keys (pubkey m)) (ix_accounts ix);
  program_id_index ← position keys (program_id ix);
  Ok {| program_id_index := program_id_index; accounts := accounts; ci_data := ix_data ix |}.

Definition compile_instructions {E} (ixs : list Instruction) (keys : list Pubkey)
  : result E (list CompiledInstruction) :=
  map_result (fun ix => compile_instruction ix keys) ixs.

(** [.unique()]: the first occurrences. *)
Fixpoint unique (seen l : list Pubkey) : list Pubkey :=
  match l with
  | [] => []
  | k :: l => if bool_decide (k ∈ seen) then unique seen l else k :: unique (k :: seen) l
  end.

Definition get_program_ids (ixs : list Instruction) : list Pubkey :=
  unique [] (program_id <$> ixs).

(** The comparison of [sort_by], [Less] or [Equal]: signers first, then
    writable accounts. *)
Definition meta_le (x y : AccountMeta) : bool :=
  match Bool.compare (meta_is_signer y) (meta_is_signer x) with
  | Lt => true
  | Gt => false
  | Eq => match Bool.compare (meta_is_writable y) (meta_is_writable x) with
          | Gt => false | _ => true
          end
  end.

(** [sort_by], a stable sort. *)
Fixpoint insert_by (x : AccountMeta) (l : list AccountMeta) : list AccountMeta :=
  match l with
  | [] => [x]
  | y :: l => if meta_le x y then x :: y :: l else y :: insert_by x l
  end.
Definition sort_metas : list AccountMeta -> list AccountMeta := foldr insert_by [].

(** The loop of [get_keys] that merges the metas of an address: the first is
    kept, promoted to writable if this one requires it. *)
Fixpoint add_meta (unique_metas : list AccountMeta) (m : AccountMeta) : list AccountMeta :=
  match unique_metas with
  | [] => [m]
  | x :: l =>
      if bool_decide (pubkey x = pubkey m)
      then {| pubkey := pubkey x; meta_is_signer := meta_is_signer x;
              meta_is_writable := meta_is_writable x || meta_is_writable m |} :: l
      else x :: add_meta l m
  end.

Record InstructionKeys := {
  signed_keys : list Pubkey;
  unsigned_keys : list Pubkey;
  ik_num_readonly_signed_accounts : Z;
  ik_num_readonly_unsigned_accounts : Z;
}.

Definition program_metas (ixs : list Instruction) : list AccountMeta :=
  (fun id => {| pubkey := id; meta_is_signer := false; meta_is_writable := false |})
    <$> get_program_ids ixs.

Definition payer_metas (payer : option Pubkey) : list AccountMeta :=
  match payer with
  | Some payer => [{| pubkey := payer; meta_is_signer := true; meta_is_writable := true |}]
  | None => []
  end.

(** One turn of the last loop of [get_keys]. *)
Definition count_meta (ks : InstructionKeys) (m : AccountMeta) : InstructionKeys :=
  let readonly n := if meta_is_writable m then n else wrapping_add u8_max n 1 in
  if meta_is_signer m
  then {| signed_keys := signed_keys ks ++ [pubkey m]; unsigned_keys := unsigned_keys ks;
          ik_num_readonly_signed_accounts := readonly (ik_num_readonly_signed_accounts ks);
          ik_num_readonly_unsigned_accounts := ik_num_readonly_unsigned_accounts ks |}
  else {| signed_keys := signed_keys ks; unsigned_keys := unsigned_keys ks ++ [pubkey m];
          ik_num_readonly_signed_accounts := ik_num_readonly_signed_accounts ks;
          ik_num_readonly_unsigned_accounts := readonly (ik_num_readonly_unsigned_accounts ks) |}.

Definition get_keys (ixs : list Instruction) (payer : option Pubkey) : InstructionKeys :=
  let keys_and_signed :=
    payer_metas payer ++ sort_metas ((ixs ≫= ix_accounts) ++ program_metas ixs) in
  let unique_metas := foldl add_meta [] keys_and_signed in
  foldl count_meta
    {| signed_keys := []; unsigned_keys := []; ik_num_readonly_signed_accounts := 0;
       ik_num_readonly_unsigned_accounts := 0 |} unique_metas.

(** [Message::new_with_blockhash]; [Message::new] is the case of a default
    blockhash. *)
Definition Message_new_with_blockhash {E} (ixs : list Instruction) (payer : option Pubkey)
    (blockhash : Hash) : result E Message :=
  let ks := get_keys ixs payer in
  let keys := signed_keys ks ++ unsigned_keys ks in
  instructions ← compile_instructions ixs keys;
  Ok {| header :=
          {| num_required_signatures := wrap u8_max (Z.of_nat (length (signed_keys ks)));
             num_readonly_signed_accounts := ik_num_readonly_signed_accounts ks;
             num_readonly_unsigned_accounts := ik_num_readonly_unsigned_accounts ks |};
        account_keys := keys; recent_blockhash := blockhash; instructions := instructions |}.

Definition Message_new {E} (ixs : list Instruction) (payer : option Pubkey) : result E Message :=
  Message_new_with_blockhash ixs payer default_key.

(** ** Privileges *)

(** [self.account_keys\[i\]] panics out of range. *)
Definition account_key {E} (m : Message) (i : nat) : result E Pubkey :=
  unwrap (account_keys m !! i).

(** [CompiledInstruction::program_id] *)
Definition instruction_program_id {E} (ci : CompiledInstruction) (keys : list Pubkey)
  : result E Pubkey :=
  unwrap (keys !! program_id_index ci).

Definition is_key_passed_to_program (m : Message) (key_index : nat) : bool :=
  Nat.leb key_index 255 &&
  existsb (fun ci => existsb (Nat.eqb key_index) (accounts ci)) (instructions m).

Definition is_key_called_as_program (m : Message) (key_index : nat) : bool :=
  Nat.leb key_index 255 &&
  existsb (fun ci => Nat.eqb (program_id_index ci) key_index) (instructions m).

Definition is_non_loader_key (m : Message) (key_index : nat) : bool :=
  negb (is_key_called_as_program m key_index) || is_key_passed_to_program m key_index.

Definition is_upgradeable_loader_present (m : Message) : bool :=
  existsb (fun k => bool_decide (k = bpf_loader_upgradeable_id)) (account_keys m).

Definition is_signer_index (m : Message) (i : nat) : bool :=
  Z.of_nat i <? num_required_signatures (header m).

(** The positions the header makes writable. *)
Definition is_writable_position (m : Message) (i : nat) : bool :=
  let h := header m in
  (Z.of_nat i <? wrapping_sub u8_max (num_required_signatures h)
                   (num_readonly_signed_accounts h))
  || ((num_required_signatures h <=? Z.of_nat i)
      && (Z.of_nat i <? wrapping_sub u64_max (Z.of_nat (length (account_keys m)))
                          (num_readonly_unsigned_accounts h))).

(** [Message::is_writable] *)
Definition is_writable_index {E} (m : Message) (i : nat) (demote_program_write_locks : bool)
  : result E bool :=
  let demote_program_id :=
    demote_program_write_locks && is_key_called_as_program m i
    && negb (is_upgradeable_loader_present m) in
  if is_writable_position m i
  then k ← account_key m i;
       Ok (negb (is_sysvar_id k || bool_decide (k ∈ BUILTIN_PROGRAMS_KEYS))
           && negb demote_program_id)
  else Ok false.

Definition signer_keys (m : Message) : list Pubkey :=
  take (Z.to_nat (num_required_signatures (header m))) (account_keys m).

(** The nested loop of [has_duplicates]. *)
Fixpoint has_duplicate_keys (keys : list Pubkey) : bool :=
  match keys with
  | [] => false
  | k :: keys => bool_decide (k ∈ keys) || has_duplicate_keys keys
  end.
Definition has_duplicates (m : Message) : bool := has_duplicate_keys (account_keys m).

(** ** Sanitization *)
Definition sanitize_instruction (n : nat) (ci : CompiledInstruction)
  : result SanitizeError.t unit :=
  fail_if (Nat.leb n (program_id_index ci)) SanitizeError.IndexOutOfBounds ;;
  fail_if (Nat.eqb (program_id_index ci) 0) SanitizeError.IndexOutOfBounds ;;
  fail_if (existsb (Nat.leb n) (accounts ci)) SanitizeError.IndexOutOfBounds.

Fixpoint sanitize_instructions (n : nat) (l : list CompiledInstruction)
  : result SanitizeError.t unit :=
  match l with
  | [] => Ok tt
  | ci :: l => sanitize_instruction n ci ;; sanitize_instructions n l
  end.

Definition sanitize (m : Message) : result SanitizeError.t unit :=
  let h := header m in
  fail_if (Z.of_nat (length (account_keys m)) <?
           num_required_signatures h + num_readonly_unsigned_accounts h)
    SanitizeError.IndexOutOfBounds ;;
  fail_if (num_required_signatures h <=? num_readonly_signed_accounts h)
    SanitizeError.IndexOutOfBounds ;;
  sanitize_instructions (length (account_keys m)) (instructions m).

(** ** The instructions sysvar *)
Definition u16_max : Z := 65535.
Definition u16_bytes (z : Z) : list Z := to_le_bytes 2 (wrap u16_max z).
Definition len {A} (l : list A) : Z := Z.of_nat (length l).

Definition meta_byte (signer writable : bool) : Z :=
  Z.lor (if signer then 1 else 0) (if writable then 2 else 0).

Definition serialize_account (m : Message) (i : nat) : result SanitizeError.t (list Z) :=
  w ← is_writable_index m i true;
  k ← account_key m i;
  Ok (meta_byte (is_signer_index m i) w :: k).

Definition serialize_instruction (m : Message) (ci : CompiledInstruction)
  : result SanitizeError.t (list Z) :=
  metas ← map_result (serialize_account m) (accounts ci);
  id ← account_key m (program_id_index ci);
  Ok (u16_bytes (len (accounts ci)) ++ concat metas ++ id
      ++ u16_bytes (len (ci_data ci)) ++ ci_data ci).

(** The offsets of blobs that follow each other from [start]. *)
Fixpoint offsets (start : Z) (l : list (list Z)) : list Z :=
  match l with
  | [] => []
  | b :: l => start :: offsets (start + len b) l
  end.

(** The table of offsets is reserved first and filled in as the instructions
    are appended. *)
Definition serialize_instructions (m : Message) : result SanitizeError.t (list Z) :=
  blobs ← map_result (serialize_instruction m) (instructions m);
  Ok (u16_bytes (len blobs)
      ++ concat (u16_bytes <$> offsets (2 + 2 * len blobs) blobs)
      ++ concat blobs).

(** [read_u8], [read_u16], [read_pubkey], [read_slice]: the value at [current]
    and the position behind it. *)
Definition read_slice (current : nat) (d : list Z) (n : nat)
  : result SanitizeError.t (list Z * nat) :=
  fail_if (Nat.ltb (length d) (current + n)) SanitizeError.IndexOutOfBounds ;;
  Ok (take n (drop current d), (current + n)%nat).
Definition read_u8 (current : nat) (d : list Z) : result SanitizeError.t (Z * nat) :=
  '(b, current) ← read_slice current d 1; Ok (from_le_bytes b, current).
Definition read_u16 (current : nat) (d : list Z) : result SanitizeError.t (Z * nat) :=
  '(b, current) ← read_slice current d 2; Ok (from_le_bytes b, current).
Definition read_pubkey (current : nat) (d : list Z)
  : result SanitizeError.t (Pubkey * nat) := read_slice current d 32.

Fixpoint read_metas (n current : nat) (d : list Z)
  : result SanitizeError.t (list AccountMeta * nat) :=
  match n with
  | O => Ok ([], current)
  | S n =>
      '(b, current) ← read_u8 current d;
      '(k, current) ← read_pubkey current d;
      '(ms, current) ← read_metas n current d;
      Ok ({| pubkey := k; meta_is_signer := negb (Z.land b 1 =? 0);
             meta_is_writable := negb (Z.land b 2 =? 0) |} :: ms, current)
  end.

Definition deserialize_instruction (index : nat) (d : list Z)
  : result SanitizeError.t Instruction :=
  '(num_instructions, current) ← read_u16 0 d;
  fail_if (num_instructions <=? Z.of_nat index) SanitizeError.IndexOutOfBounds ;;
  '(start, _) ← read_u16 (current + index * 2) d;
  '(num_accounts, current) ← read_u16 (Z.to_nat start) d;
  '(metas, current) ← read_metas (Z.to_nat num_accounts) current d;
  '(id, current) ← read_pubkey current d;
  '(data_len, current) ← read_u16 current d;
  '(bytes, _) ← read_slice current d (Z.to_nat data_len);
  Ok {| program_id := id; ix_accounts := metas; ix_data := bytes |}.

(** ** Compiled messages *)

Lemma map_result_Ok {E A B} (f : A -> result E B) l l' :
  map_result f l = Ok l' <-> Forall2 (fun a b => f a = Ok b) l l'.
Proof.
  revert l'. induction l as [|a l IH]; intros l'; cbn.
  - split; [intros [= <-]; constructor|intros H; by inversion H].
  - split.
    + intros H. inv_ok. constructor; [done|]. by apply IH.
    + intros H. inversion H as [|? b ? bs Hb Hbs]; subst. rewrite Hb. cbn.
      apply IH in Hbs as ->. done.
Qed.

Section SortMetas.
Implicit Types (x y m : AccountMeta) (l u : list AccountMeta).

(** The four classes of metas, in the order of the sort. *)
Definition in_class (s w : bool) (m : AccountMeta) : bool :=
  eqb (meta_is_signer m) s && eqb (meta_is_writable m) w.
Definition class (s w : bool) l : list AccountMeta := filter (fun m => in_class s w m = true) l.

Lemma insert_by_skip x l1 l2 :
  Forall (fun y => meta_le x y = false) l1 -> insert_by x (l1 ++ l2) = l1 ++ insert_by x l2.
Proof. induction 1 as [|y l Hy _ IH]; [done|]. cbn. by rewrite Hy, IH. Qed.

Lemma insert_by_stop x l : Forall (fun y => meta_le x y = true) l -> insert_by x l = x :: l.
Proof. destruct 1 as [|y l Hy _]; [done|]. cbn. by rewrite Hy. Qed.

Lemma class_le x s w l (b : bool) :
  (forall y, in_class s w y = true -> meta_le x y = b) ->
  Forall (fun y => meta_le x y = b) (class s w l).
Proof.
  intros H. apply Forall_forall. intros y [Hy _]%list_elem_of_filter. by apply H.
Qed.

(** The stable sort puts the classes one after the other. *)
Lemma sort_metas_classes l :
  sort_metas l = class true true l ++ class true false l ++ class false true l ++ class false false l.
Proof.
  induction l as [|x l IH]; [done|]. change (sort_metas (x :: l)) with (insert_by x (sort_metas l)).
  rewrite IH. unfold class at 5 6 7 8. rewrite !filter_cons. fold (class true true l)
    (class true false l) (class false true l) (class false false l).
  destruct x as [k [] []]; cbn [in_class meta_is_signer meta_is_writable eqb andb];
    repeat case_decide; try done;
    rewrite ?app_comm_cons;
    repeat (rewrite insert_by_skip by (apply class_le; intros [? [] []] ?; done));
    rewrite insert_by_stop; try done; rewrite ?Forall_app; split_and?;
    apply class_le; intros [? [] []] ?; done.
Qed.
End SortMetas.

Section UniqueMetas.
Implicit Types (x y m : AccountMeta) (l u : list AccountMeta) (seen : list Pubkey).
Abbreviation keys l := (pubkey <$> l).

(** The first metas of the addresses not seen before. *)
Fixpoint fresh seen l : list AccountMeta :=
  match l with
  | [] => []
  | m :: l => if bool_decide (pubkey m ∈ seen) then fresh seen l
              else m :: fresh (pubkey m :: seen) l
  end.

Lemma fresh_ext s1 s2 l : (forall k, k ∈ s1 <-> k ∈ s2) -> fresh s1 l = fresh s2 l.
Proof.
  revert s1 s2. induction l as [|m l IH]; intros s1 s2 H; [done|]. cbn.
  rewrite (bool_decide_ext _ _ (H (pubkey m))). case_bool_decide; [by apply IH|].
  f_equal. apply IH. intros k. rewrite !elem_of_cons, H. done.
Qed.

Lemma elem_of_fresh seen l m : m ∈ fresh seen l -> m ∈ l /\ pubkey m ∉ seen.
Proof.
  revert seen. induction l as [|x l IH]; intros seen; cbn; [set_solver|].
  case_bool_decide; [|rewrite elem_of_cons]; intros Hm.
  - apply IH in Hm. set_solver.
  - destruct Hm as [->|Hm]; [set_solver|]. apply IH in Hm. set_solver.
Qed.

Lemma fresh_covers seen l k : k ∈ keys l -> k ∈ seen \/ k ∈ keys (fresh seen l).
Proof.
  revert seen. induction l as [|x l IH]; intros seen; cbn; [set_solver|].
  rewrite elem_of_cons. case_bool_decide; [set_solver|]. intros [->|Hk]; [set_solver|].
  apply (IH (pubkey x :: seen)) in Hk. set_solver.
Qed.

Lemma fresh_app seen l1 l2 : fresh seen (l1 ++ l2) = fresh seen l1 ++ fresh (seen ++ keys l1) l2.
Proof.
  revert seen. induction l1 as [|m l IH]; intros seen; cbn; [by rewrite app_nil_r|].
  rewrite !IH. case_bool_decide; cbn; [|f_equal]; f_equal; apply fresh_ext; set_solver.
Qed.

Lemma keys_add_meta u m :
  keys (add_meta u m) = if bool_decide (pubkey m ∈ keys u) then keys u else keys u ++ [pubkey m].
Proof.
  induction u as [|x u IH]; [by rewrite bool_decide_eq_false_2 by set_solver|].
  cbn [add_meta]. destruct (bool_decide_reflect (pubkey x = pubkey m)) as [E1|E1]; rewrite !fmap_cons.
  - by rewrite bool_decide_eq_true_2 by (rewrite E1; left).
  - rewrite IH. destruct (decide (pubkey m ∈ keys u)).
    + by rewrite !bool_decide_eq_true_2 by (done || by right).
    + rewrite !bool_decide_eq_false_2; [done|rewrite elem_of_cons; intuition congruence|done].
Qed.

Lemma add_meta_new u m : pubkey m ∉ keys u -> add_meta u m = u ++ [m].
Proof.
  induction u as [|x u IH]; cbn; [done|]. intros H. rewrite bool_decide_eq_false_2 by set_solver.
  f_equal. apply IH. set_solver.
Qed.

Lemma add_meta_old u m :
  pubkey m ∈ keys u ->
  (forall x, x ∈ u -> pubkey x = pubkey m -> meta_is_writable m = true -> meta_is_writable x = true) ->
  add_meta u m = u.
Proof.
  induction u as [|x u IH]; cbn; [set_solver|]. intros Hk Hw. case_bool_decide as E.
  - specialize (Hw x ltac:(left) E). destruct x as [k s []], m as [k' s' []]; cbn in *; try done.
    by specialize (Hw eq_refl).
  - f_equal. apply IH; [set_solver|]. intros y Hy. apply Hw. by right.
Qed.

(** Without promotions the loop keeps the first meta of each address. *)
Lemma add_metas_fresh l u :
  (forall x y, x ∈ u ++ fresh (keys u) l -> y ∈ l -> pubkey x = pubkey y ->
     meta_is_writable y = true -> meta_is_writable x = true) ->
  foldl add_meta u l = u ++ fresh (keys u) l.
Proof.
  revert u. induction l as [|m l IH]; intros u H; cbn; [by rewrite app_nil_r|].
  cbn in H. case_bool_decide as E.
  - rewrite add_meta_old; [|done|].
    + apply IH. intros x y Hx Hy. apply H; [done|by right].
    + intros x Hx. apply H; [apply elem_of_app; by left|left].
  - rewrite add_meta_new by done.
    assert (fresh (keys (u ++ [m])) l = fresh (pubkey m :: keys u) l) as Ef
      by (apply fresh_ext; set_solver).
    rewrite IH, Ef, <- app_assoc; [done|].
    rewrite Ef, <- app_assoc. intros x y Hx Hy. apply H; [done|by right].
Qed.

Lemma NoDup_add_metas l u : NoDup (keys u) -> NoDup (keys (foldl add_meta u l)).
Proof.
  revert u. induction l as [|m l IH]; intros u Hu; [done|]. cbn. apply IH.
  rewrite keys_add_meta. case_bool_decide as E; [done|]. apply NoDup_app.
  split_and!; [done|set_solver|apply NoDup_singleton].
Qed.

(** The merged metas cover the addresses of the list, and a merged signer
    comes from a signer. *)
Lemma elem_of_add_metas l u x :
  x ∈ foldl add_meta u l -> exists y, y ∈ u ++ l /\ pubkey y = pubkey x /\
    meta_is_signer y = meta_is_signer x.
Proof.
  revert u. induction l as [|m l IH]; intros u; cbn.
  - intros Hx. exists x. by rewrite app_nil_r.
  - intros Hx. apply IH in Hx as (y & Hy & Hk & Hs). apply elem_of_app in Hy as [Hy|Hy];
      [|exists y; rewrite elem_of_app, elem_of_cons; auto].
    assert (exists z, z ∈ u ++ [m] /\ pubkey z = pubkey y /\ meta_is_signer z = meta_is_signer y)
      as (z & Hz & Hk' & Hs').
    { clear -Hy. induction u as [|a u IHu]; cbn in *; [by exists y|].
      case_bool_decide; apply elem_of_cons in Hy as [->|Hy].
      - exists a. by split; [left|].
      - exists y. split; [right; apply elem_of_app; by left|done].
      - exists a. by split; [left|].
      - apply IHu in Hy as (z & Hz & ?). exists z. split; [by right|done]. }
    exists z. split; [set_solver|split; congruence].
Qed.

Lemma keys_add_metas l u k : k ∈ keys (foldl add_meta u l) <-> k ∈ keys u \/ k ∈ keys l.
Proof.
  revert u. induction l as [|m l IH]; intros u; cbn; [set_solver|].
  rewrite IH, keys_add_meta. case_bool_decide; set_solver.
Qed.
End UniqueMetas.

Section Compiled.
Implicit Types (l u : list AccountMeta).
Abbreviation keys l := (pubkey <$> l).

Definition all_metas (ixs : list Instruction) (payer : option Pubkey) : list AccountMeta :=
  payer_metas payer ++ (ixs ≫= ix_accounts) ++ program_metas ixs.

(** No address is promoted: one that some meta wants to sign and some meta
    wants to write has a meta that wants both. *)
Definition consistent l : Prop :=
  forall x y, x ∈ l -> y ∈ l -> pubkey x = pubkey y ->
    meta_is_signer x = true -> meta_is_writable y = true ->
    exists z, z ∈ l /\ pubkey z = pubkey x /\ meta_is_signer z = true /\ meta_is_writable z = true.

Lemma count_metas_keys u ks :
  signed_keys (foldl count_meta ks u) =
    signed_keys ks ++ keys (filter (fun m => meta_is_signer m = true) u) /\
  unsigned_keys (foldl count_meta ks u) =
    unsigned_keys ks ++ keys (filter (fun m => meta_is_signer m = false) u).
Proof.
  revert ks. induction u as [|m u IH]; intros ks; [cbn; by rewrite !app_nil_r|].
  cbn [foldl]. destruct (IH (count_meta ks m)) as [-> ->].
  rewrite !filter_cons. unfold count_meta.
  destruct (meta_is_signer m); cbn; by rewrite <- ?app_assoc.
Qed.

Lemma count_class s w u ks :
  Forall (fun m => in_class s w m = true) u ->
  let rs := ik_num_readonly_signed_accounts ks in
  let ru := ik_num_readonly_unsigned_accounts ks in
  0 <= rs -> 0 <= ru -> rs + ru + len u <= 255 ->
  foldl count_meta ks u =
  {| signed_keys := signed_keys ks ++ (if s then keys u else []);
     unsigned_keys := unsigned_keys ks ++ (if s then [] else keys u);
     ik_num_readonly_signed_accounts := rs + (if s && negb w then len u else 0);
     ik_num_readonly_unsigned_accounts := ru + (if negb s && negb w then len u else 0) |}.
Proof.
  intros Hu. revert ks. induction Hu as [|m u Hm Hu IH]; intros ks rs ru Hs Hr Hl; subst rs ru.
  - unfold len. destruct ks, s, w; cbn; rewrite ?app_nil_r; f_equal; lia.
  - unfold len in *. cbn [length] in Hl. cbn [foldl].
    unfold in_class in Hm. apply andb_true_iff in Hm as [Hms Hmw].
    apply eqb_prop in Hms, Hmw.
    rewrite IH; clear IH; unfold count_meta, wrapping_add; rewrite Hms, Hmw;
      rewrite ?wrap_small by (unfold_max; lia); destruct s, w; rewrite ?fmap_cons;
      cbn [andb negb app length signed_keys unsigned_keys ik_num_readonly_signed_accounts
           ik_num_readonly_unsigned_accounts]; rewrite ?app_nil_r, <- ?app_assoc; try lia; f_equal; lia.
Qed.

Definition sorted_metas (ixs : list Instruction) (payer : option Pubkey) : list AccountMeta :=
  payer_metas payer ++ sort_metas ((ixs ≫= ix_accounts) ++ program_metas ixs).

Lemma elem_of_class s w l x :
  x ∈ class s w l <-> x ∈ l /\ meta_is_signer x = s /\ meta_is_writable x = w.
Proof.
  unfold class, in_class. rewrite list_elem_of_filter, andb_true_iff, !eqb_true_iff. tauto.
Qed.

Lemma sorted_metas_classes ixs payer :
  exists l1 l2 l3 l4, sorted_metas ixs payer = l1 ++ l2 ++ l3 ++ l4 /\
  forall x, (x ∈ l1 <-> x ∈ all_metas ixs payer /\ meta_is_signer x = true /\ meta_is_writable x = true) /\
  (x ∈ l2 <-> x ∈ all_metas ixs payer /\ meta_is_signer x = true /\ meta_is_writable x = false) /\
  (x ∈ l3 <-> x ∈ all_metas ixs payer /\ meta_is_signer x = false /\ meta_is_writable x = true) /\
  (x ∈ l4 <-> x ∈ all_metas ixs payer /\ meta_is_signer x = false /\ meta_is_writable x = false).
Proof.
  unfold sorted_metas, all_metas. rewrite sort_metas_classes.
  eexists (payer_metas payer ++ _), _, _, _. split; [by rewrite <- app_assoc|].
  intros x. rewrite !elem_of_app, !elem_of_class, !elem_of_app.
  assert (x ∈ payer_metas payer -> meta_is_signer x = true /\ meta_is_writable x = true) as Hp.
  { destruct payer; cbn; [|set_solver]. by intros ->%list_elem_of_singleton. }
  split_and!; intuition congruence.
Qed.

(** The merged metas of consistent instructions: four runs of metas, one per
    class, whose privileges are the most any meta of their address asks for. *)
Lemma merged_metas ixs payer :
  let all := all_metas ixs payer in
  consistent all ->
  exists u1 u2 u3 u4, foldl add_meta [] (sorted_metas ixs payer) = u1 ++ u2 ++ u3 ++ u4 /\
  Forall (fun m => in_class true true m = true) u1 /\
  Forall (fun m => in_class true false m = true) u2 /\
  Forall (fun m => in_class false true m = true) u3 /\
  Forall (fun m => in_class false false m = true) u4 /\
  (forall x, x ∈ u1 ++ u2 ++ u3 ++ u4 -> x ∈ all /\ forall y, y ∈ all -> pubkey x = pubkey y ->
     (meta_is_signer y = true -> meta_is_signer x = true) /\
     (meta_is_writable y = true -> meta_is_writable x = true)).
Proof.
  intros all Hc. destruct (sorted_metas_classes ixs payer) as (l1 & l2 & l3 & l4 & E & Hl).
  fold all in Hl. rewrite E.
  assert (forall x, x ∈ fresh [] (l1 ++ l2 ++ l3 ++ l4) ->
    x ∈ all /\ forall y, y ∈ all -> pubkey x = pubkey y ->
     (meta_is_signer y = true -> meta_is_signer x = true) /\
     (meta_is_writable y = true -> meta_is_writable x = true)) as Hmax.
  { intros x Hx. rewrite !fresh_app, !elem_of_app in Hx. cbn [app] in Hx.
    destruct Hx as [Hx|[Hx|[Hx|Hx]]]; apply elem_of_fresh in Hx as [Hin Hnew];
      apply Hl in Hin as (Hin & Hs & Hw); (split; [done|]); intros y Hy Hk; rewrite Hs, Hw;
      (split; [intros Hys|intros Hyw]); try done; exfalso; apply Hnew; rewrite Hk;
      rewrite ?fmap_app, ?elem_of_app.
    - destruct (Hc x y Hin Hy Hk Hs Hyw) as (z & Hz & Hkz & Hsz & Hwz).
      rewrite <- Hk, <- Hkz. apply list_elem_of_fmap_2, Hl. auto.
    - destruct (meta_is_writable y) eqn:Hyw; [left|right]; apply list_elem_of_fmap_2, Hl; auto.
    - destruct (meta_is_writable y) eqn:Hyw; [left; left|left; right];
        apply list_elem_of_fmap_2, Hl; auto.
    - destruct (meta_is_signer y) eqn:Hys; [left; left|right];
        apply list_elem_of_fmap_2, Hl; auto. }
  rewrite add_metas_fresh; cbn [app fmap list_fmap].
  - rewrite !fresh_app in *. eexists _, _, _, _. split; [done|].
    split_and!; [..|exact Hmax]; apply Forall_forall; intros x [Hx _]%elem_of_fresh;
      apply Hl in Hx as (_ & Hs & Hw); unfold in_class; by rewrite Hs, Hw.
  - intros x y Hx Hy Hk. apply (Hmax x Hx); [|done].
    rewrite !elem_of_app in Hy. destruct Hy as [Hy|[Hy|[Hy|Hy]]]; by apply Hl in Hy as [? _].
Qed.

(** Positions in the four runs. *)
Lemma class_position u1 u2 u3 u4 i x :
  Forall (fun m => in_class true true m = true) u1 ->
  Forall (fun m => in_class true false m = true) u2 ->
  Forall (fun m => in_class false true m = true) u3 ->
  Forall (fun m => in_class false false m = true) u4 ->
  (u1 ++ u2 ++ u3 ++ u4) !! i = Some x ->
  (meta_is_signer x = true <-> (i < length u1 + length u2)%nat) /\
  (meta_is_writable x = true <-> (i < length u1)%nat \/
     (length u1 + length u2 <= i < length u1 + length u2 + length u3)%nat).
Proof.
  assert (forall s w u j, Forall (fun m => in_class s w m = true) u -> u !! j = Some x ->
    meta_is_signer x = s /\ meta_is_writable x = w) as Hclass.
  { intros s w u j Hu Hj. eapply Forall_lookup_1 in Hu; [|exact Hj]. unfold in_class in Hu.
    by rewrite andb_true_iff, !eqb_true_iff in Hu. }
  intros H1 H2 H3 H4 Hx.
  apply lookup_app_Some in Hx as [Hx|[Hi Hx]];
    [|apply lookup_app_Some in Hx as [Hx|[Hi' Hx]];
      [|apply lookup_app_Some in Hx as [Hx|[Hi'' Hx]]]];
    pose proof (lookup_lt_Some _ _ _ Hx);
    eapply Hclass in Hx as [-> ->]; eauto; split; split; intros ?; try done; lia.
Qed.

Lemma filter_signers_permutation u :
  keys (filter (fun m => meta_is_signer m = true) u)
    ++ keys (filter (fun m => meta_is_signer m = false) u) ≡ₚ keys u.
Proof.
  induction u as [|m u IH]; [done|]. rewrite !filter_cons, fmap_cons.
  destruct (meta_is_signer m); repeat case_decide; try done; rewrite fmap_cons, <- IH; [done|].
  symmetry. apply Permutation_middle.
Qed.

(** The addresses of [get_keys], whatever the privileges: each one once, and
    the signed ones are those of signers. *)
Lemma get_keys_table ixs payer :
  let ks := get_keys ixs payer in
  NoDup (signed_keys ks ++ unsigned_keys ks) /\
  (forall k, k ∈ signed_keys ks ++ unsigned_keys ks <-> k ∈ keys (all_metas ixs payer)) /\
  (length (signed_keys ks ++ unsigned_keys ks) <= length (all_metas ixs payer))%nat /\
  (forall k, k ∈ signed_keys ks ->
     exists x, x ∈ all_metas ixs payer /\ pubkey x = k /\ meta_is_signer x = true).
Proof.
  unfold get_keys. fold (sorted_metas ixs payer). set (u := foldl add_meta [] (sorted_metas ixs payer)).
  destruct (count_metas_keys u {| signed_keys := []; unsigned_keys := [];
    ik_num_readonly_signed_accounts := 0; ik_num_readonly_unsigned_accounts := 0 |}) as [-> ->].
  cbn [signed_keys unsigned_keys app].
  destruct (sorted_metas_classes ixs payer) as (l1 & l2 & l3 & l4 & El & Hl).
  assert (forall x, x ∈ sorted_metas ixs payer <-> x ∈ all_metas ixs payer) as Hall.
  { intros x. rewrite El, !elem_of_app. destruct (Hl x) as (-> & -> & -> & ->).
    destruct (meta_is_signer x), (meta_is_writable x); intuition congruence. }
  assert (NoDup (keys u)) as Hnd by (apply NoDup_add_metas; constructor).
  assert (forall k, k ∈ keys u <-> k ∈ keys (all_metas ixs payer)) as Hk.
  { intros k. unfold u. rewrite keys_add_metas. split; [intros [Hk|Hk]|intros Hk; right];
      [by apply not_elem_of_nil in Hk|..]; apply list_elem_of_fmap in Hk as (x & -> & Hx);
      apply list_elem_of_fmap_2; by apply Hall. }
  rewrite filter_signers_permutation. split_and!.
  - done.
  - intros k. by rewrite (elem_of_Permutation_proper k _ _ (filter_signers_permutation u)).
  - rewrite <- (length_fmap pubkey (all_metas _ _)).
    apply submseteq_length, NoDup_submseteq; [done|]. intros k. apply Hk.
  - intros k (x & -> & Hx)%list_elem_of_fmap. apply list_elem_of_filter in Hx as [Hs Hx].
    apply elem_of_add_metas in Hx as (y & Hy & Hky & Hys). exists y.
    split; [by apply Hall|]. split; [done|congruence].
Qed.

(** A position of the message that requires a signature belongs to a signer. *)
Lemma compiled_signers {E} ixs payer h m i k :
  Message_new_with_blockhash (E := E) ixs payer h = Ok m ->
  account_keys m !! i = Some k -> is_signer_index m i = true ->
  exists x, x ∈ all_metas ixs payer /\ pubkey x = k /\ meta_is_signer x = true.
Proof.
  unfold Message_new_with_blockhash. intros H Hk Hi. inv_ok. cbn [account_keys] in Hk.
  unfold is_signer_index in Hi. cbn [header num_required_signatures] in Hi. to_prop.
  apply (get_keys_table ixs payer). apply lookup_app_Some in Hk as [Hk|[Hge _]];
    [by eapply list_elem_of_lookup_2|].
  unfold wrap, u8_max in Hi.
  pose proof (Z.mod_le (Z.of_nat (length (signed_keys (get_keys ixs payer)))) (255 + 1)). lia.
Qed.

Lemma position_found {E} (l : list Pubkey) k :
  k ∈ l -> (length l <= 256)%nat -> exists i, position (E := E) l k = Ok i /\ l !! i = Some k.
Proof.
  intros Hk Hl. unfold position.
  destruct (list_find_elem_of (fun k' => k' = k) l k Hk eq_refl) as [[i k'] Hf]. rewrite Hf.
  apply list_find_Some in Hf as (Hi & -> & _). exists i. split; [|done].
  pose proof (lookup_lt_Some _ _ _ Hi). change (Ok (E := E) (as_u8 i) = Ok i). f_equal.
  apply Nat.mod_small. lia.
Qed.

(** What a compiled instruction refers to. *)
Definition resolves (m : Message) (ix : Instruction) (ci : CompiledInstruction) : Prop :=
  account_keys m !! program_id_index ci = Some (program_id ix) /\
  Forall2 (fun x i => account_keys m !! i = Some (pubkey x)) (ix_accounts ix) (accounts ci) /\
  ci_data ci = ix_data ix.

Lemma elem_of_unique seen (l : list Pubkey) k : k ∈ l -> k ∈ seen \/ k ∈ unique seen l.
Proof.
  revert seen. induction l as [|j l IH]; intros seen; cbn; [by intros ?%not_elem_of_nil|].
  rewrite elem_of_cons. case_bool_decide; intros [->|Hk]; [by left|by apply IH|right; left|].
  apply (IH (j :: seen)) in Hk. rewrite !elem_of_cons in *. tauto.
Qed.

Lemma instruction_metas ixs payer ix :
  ix ∈ ixs -> program_id ix ∈ keys (all_metas ixs payer) /\
    forall x, x ∈ ix_accounts ix -> x ∈ all_metas ixs payer.
Proof.
  intros Hix. unfold all_metas. split.
  - rewrite !fmap_app, !elem_of_app. right; right. unfold program_metas, get_program_ids.
    rewrite <- list_fmap_compose. apply list_elem_of_fmap. exists (program_id ix). split; [done|].
    destruct (elem_of_unique [] (program_id <$> ixs) (program_id ix)) as [H|H];
      [by apply list_elem_of_fmap_2|by apply not_elem_of_nil in H|done].
  - intros x Hx. rewrite !elem_of_app. right; left. apply list_elem_of_bind. eauto.
Qed.

Lemma compile_instructions_resolves {E} ixs payer keys :
  (forall k, k ∈ keys <-> k ∈ pubkey <$> all_metas ixs payer) -> (length keys <= 256)%nat ->
  forall ixs', ixs' ⊆ ixs -> exists cis, compile_instructions (E := E) ixs' keys = Ok cis /\
    Forall2 (fun ix ci => keys !! program_id_index ci = Some (program_id ix) /\
      Forall2 (fun x i => keys !! i = Some (pubkey x)) (ix_accounts ix) (accounts ci) /\
      ci_data ci = ix_data ix) ixs' cis.
Proof.
  intros Hk Hl. induction ixs' as [|ix ixs' IH]; intros Hsub.
  { by exists []; split; [|constructor]. }
  destruct IH as (cis & E1 & Hcis); [intros x Hx; apply Hsub; by right|].
  destruct (instruction_metas ixs payer ix) as [Hid Hmetas]; [apply Hsub; left|].
  destruct (position_found (E := E) keys (program_id ix)) as (p & Ep & Hp); [by apply Hk|done|].
  assert (exists idx, map_result (E := E) (fun m => position keys (pubkey m)) (ix_accounts ix) = Ok idx /\
    Forall2 (fun x i => keys !! i = Some (pubkey x)) (ix_accounts ix) idx) as (idx & E2 & Hidx).
  { revert Hmetas. generalize (ix_accounts ix). induction l as [|x l IHl]; intros Hx.
    { by exists []; split; [|constructor]. }
    destruct IHl as (idx & Ei & Hidx); [intros y Hy; apply Hx; by right|].
    destruct (position_found (E := E) keys (pubkey x)) as (i & E3 & Hi);
      [apply Hk, list_elem_of_fmap_2, Hx; left|done|].
    exists (i :: idx). cbn [map_result]. rewrite E3. cbn [mbind result_bind]. rewrite Ei.
    by split; [|constructor]. }
  assert (compile_instruction (E := E) ix keys =
    Ok {| program_id_index := p; accounts := idx; ci_data := ix_data ix |}) as E4
    by (unfold compile_instruction; rewrite E2; cbn [mbind result_bind]; by rewrite Ep).
  eexists. unfold compile_instructions in *. cbn [map_result]. rewrite E4.
  cbn [mbind result_bind]. rewrite E1. by split; [|constructor].
Qed.

Lemma length_sorted_metas ixs payer :
  length (sorted_metas ixs payer) = length (all_metas ixs payer).
Proof.
  unfold sorted_metas, all_metas. rewrite !length_app. f_equal. rewrite <- length_app.
  generalize ((ixs ≫= ix_accounts) ++ program_metas ixs). induction l as [|x l IH]; [done|].
  cbn. rewrite <- IH. generalize (sort_metas l). clear. intros l.
  induction l as [|y l IH]; [done|]. cbn. case_match; cbn; auto.
Qed.

Lemma length_add_metas l u : (length (foldl add_meta u l) <= length u + length l)%nat.
Proof.
  revert u. induction l as [|m l IH]; intros u; cbn; [lia|]. etrans; [apply IH|].
  assert (length (add_meta u m) <= S (length u))%nat; [|lia]. clear.
  induction u as [|x u IH]; cbn; [lia|]. case_match; cbn; lia.
Qed.

(** The result of [get_keys] on consistent instructions. *)
Lemma get_keys_classes ixs payer :
  let all := all_metas ixs payer in
  (length all <= 255)%nat -> consistent all ->
  exists u1 u2 u3 u4,
    get_keys ixs payer =
      {| signed_keys := keys (u1 ++ u2); unsigned_keys := keys (u3 ++ u4);
         ik_num_readonly_signed_accounts := len u2; ik_num_readonly_unsigned_accounts := len u4 |} /\
    (length (u1 ++ u2 ++ u3 ++ u4) <= 255)%nat /\
    (forall i x, (u1 ++ u2 ++ u3 ++ u4) !! i = Some x ->
      (meta_is_signer x = true <-> (i < length u1 + length u2)%nat) /\
      (meta_is_writable x = true <-> (i < length u1)%nat \/
         (length u1 + length u2 <= i < length u1 + length u2 + length u3)%nat)) /\
    (forall x, x ∈ u1 ++ u2 ++ u3 ++ u4 -> x ∈ all /\ forall y, y ∈ all -> pubkey x = pubkey y ->
       (meta_is_signer y = true -> meta_is_signer x = true) /\
       (meta_is_writable y = true -> meta_is_writable x = true)).
Proof.
  intros all Hlen Hc. unfold get_keys. fold (sorted_metas ixs payer).
  destruct (merged_metas ixs payer Hc) as (u1 & u2 & u3 & u4 & Eu & H1 & H2 & H3 & H4 & Hu).
  pose proof (length_add_metas (sorted_metas ixs payer) []) as Hl.
  rewrite length_sorted_metas, Eu in Hl. fold all in Hl. cbn [length] in Hl.
  exists u1, u2, u3, u4. rewrite Eu. split_and!; [|lia|by intros; eapply class_position|done].
  rewrite !length_app in Hl. rewrite !foldl_app. unfold len in *.
  rewrite (count_class true true u1) by (done || (unfold len; cbn; lia)).
  rewrite (count_class true false u2) by (done || (unfold len; cbn; lia)).
  rewrite (count_class false true u3) by (done || (unfold len; cbn; lia)).
  rewrite (count_class false false u4) by (done || (unfold len; cbn; lia)).
  cbn [signed_keys unsigned_keys ik_num_readonly_signed_accounts ik_num_readonly_unsigned_accounts
       andb negb app]. rewrite !fmap_app, !app_nil_r. unfold len. f_equal; lia.
Qed.

(** The header of consistent instructions. *)
Lemma compiled_header {E} ixs payer h m i k :
  let all := all_metas ixs payer in
  (length all <= 255)%nat -> consistent all ->
  Message_new_with_blockhash (E := E) ixs payer h = Ok m -> account_keys m !! i = Some k ->
  (is_signer_index m i = true <-> exists x, x ∈ all /\ pubkey x = k /\ meta_is_signer x = true) /\
  (is_writable_position m i = true <->
     exists x, x ∈ all /\ pubkey x = k /\ meta_is_writable x = true).
Proof.
  intros all Hlen Hc H Hk. unfold Message_new_with_blockhash in H. inv_ok.
  destruct (get_keys_classes ixs payer Hlen Hc) as (u1 & u2 & u3 & u4 & Eg & Hl & Hcls & Hu).
  unfold is_signer_index, is_writable_position. fold all in Hu.
  cbn [header num_required_signatures num_readonly_signed_accounts num_readonly_unsigned_accounts
       account_keys] in *. rewrite Eg in *.
  cbn [signed_keys unsigned_keys ik_num_readonly_signed_accounts ik_num_readonly_unsigned_accounts] in *.
  rewrite <- fmap_app, <- app_assoc in *. apply list_lookup_fmap_Some in Hk as (y & -> & Hy).
  destruct (Hcls _ _ Hy) as [Hs Hw]. destruct (Hu y) as [Hin Hmax]; [by eapply list_elem_of_lookup_2|].
  pose proof (lookup_lt_Some _ _ _ Hy) as Hi. rewrite !length_fmap, !length_app in *.
  unfold wrapping_sub. unfold len, u8_max, u64_max in *. rewrite !wrap_small by lia.
  rewrite orb_true_iff, andb_true_iff, !Z.ltb_lt, Z.leb_le. split; split.
  - intros ?. exists y. split_and!; [done..|]. apply Hs. lia.
  - intros (x' & Hx & Hkx & Hsx). cut (meta_is_signer y = true); [rewrite Hs; lia|].
    by apply (Hmax x').
  - intros ?. exists y. split_and!; [done..|]. apply Hw. lia.
  - intros (x' & Hx & Hkx & Hsx). cut (meta_is_writable y = true); [rewrite Hw; lia|].
    by apply (Hmax x').
Qed.

(** Compiling at most 255 metas always succeeds: the table names every
    address once and the compiled instructions refer to what the
    instructions named. If no address is promoted, a position signs, or is
    writable by the header, exactly if some meta of its address asks for
    it. *)
Theorem compiled_privileges {E} ixs payer h :
  let all := all_metas ixs payer in
  (length all <= 255)%nat ->
  exists m, Message_new_with_blockhash (E := E) ixs payer h = Ok m /\
  NoDup (account_keys m) /\ Forall2 (resolves m) ixs (instructions m) /\
  (consistent all -> forall i k, account_keys m !! i = Some k ->
    (is_signer_index m i = true <-> exists x, x ∈ all /\ pubkey x = k /\ meta_is_signer x = true) /\
    (is_writable_position m i = true <->
       exists x, x ∈ all /\ pubkey x = k /\ meta_is_writable x = true)).
Proof.
  intros all Hlen. subst all. destruct (get_keys_table ixs payer) as (Hnd & Hk & Hl & _).
  destruct (compile_instructions_resolves (E := E) ixs payer _ Hk ltac:(lia) ixs) as (cis & Ec & Hcis);
    [done|].
  assert (exists m, Message_new_with_blockhash (E := E) ixs payer h = Ok m /\
    NoDup (account_keys m) /\ Forall2 (resolves m) ixs (instructions m)) as (m & Em & ? & ?).
  { unfold Message_new_with_blockhash. rewrite Ec. cbn [mbind result_bind]. by eexists. }
  exists m. split_and!; [done..|]. intros Hc i k Hi. by eapply compiled_header.
Qed.
End Compiled.

(** ** Reading the instructions sysvar back *)
Section Sysvar.
Implicit Types (d b r : list Z) (cur n : nat).

(** [r] is what [d] holds from position [cur] on. *)
Definition rest_at d cur r : Prop := exists d0, d = d0 ++ r /\ cur = length d0.

Lemma rest_at_app d cur b r : rest_at d cur (b ++ r) -> rest_at d (cur + length b) r.
Proof. intros (d0 & -> & ->). exists (d0 ++ b). by rewrite app_assoc, length_app. Qed.

Lemma read_slice_at d cur b r :
  rest_at d cur (b ++ r) -> read_slice cur d (length b) = Ok (b, (cur + length b)%nat).
Proof.
  intros (d0 & -> & ->). unfold read_slice, fail_if. rewrite !length_app.
  rewrite (proj2 (Nat.ltb_ge _ _)) by lia. cbn [mbind result_bind].
  by rewrite drop_app_length, take_app_length.
Qed.

Lemma read_u16_at d cur z r :
  0 <= z <= u16_max -> rest_at d cur (u16_bytes z ++ r) ->
  read_u16 cur d = Ok (z, (cur + 2)%nat) /\ rest_at d (cur + 2) r.
Proof.
  intros Hz Hr. unfold read_u16.
  assert (length (u16_bytes z) = 2%nat) as Hlen by apply length_to_le_bytes. rewrite <- Hlen.
  rewrite (read_slice_at _ _ _ _ Hr). split; [|by apply rest_at_app].
  cbn [mbind result_bind]. unfold u16_bytes. rewrite wrap_small by done.
  rewrite from_to_le_bytes; [done|]. unfold u16_max in Hz. cbn. lia.
Qed.

Lemma read_u8_at d cur z r :
  rest_at d cur (z :: r) -> read_u8 cur d = Ok (z, (cur + 1)%nat) /\ rest_at d (cur + 1) r.
Proof.
  intros Hr. unfold read_u8. change (z :: r) with ([z] ++ r) in Hr.
  change 1%nat with (length [z]). rewrite (read_slice_at _ _ _ _ Hr).
  split; [|by apply rest_at_app]. cbn. unfold from_le_bytes. by rewrite Z.mul_0_r, Z.add_0_r.
Qed.

Lemma read_pubkey_at d cur k r :
  length k = 32%nat -> rest_at d cur (k ++ r) ->
  read_pubkey cur d = Ok (k, (cur + 32)%nat) /\ rest_at d (cur + 32) r.
Proof.
  intros Hk Hr. unfold read_pubkey. rewrite <- Hk. rewrite (read_slice_at _ _ _ _ Hr).
  split; [done|by apply rest_at_app].
Qed.

(** A meta of the sysvar says what the message says of its position. *)
Definition meta_of_index (m : Message) (x : AccountMeta) (i : nat) : Prop :=
  account_keys m !! i = Some (pubkey x) /\
  meta_is_signer x = is_signer_index m i /\
  is_writable_index (E := SanitizeError.t) m i true = Ok (meta_is_writable x).

Lemma meta_byte_bits s w :
  negb (Z.land (meta_byte s w) 1 =? 0) = s /\ negb (Z.land (meta_byte s w) 2 =? 0) = w.
Proof. by destruct s, w. Qed.

Context (m : Message).
Hypothesis keys_32 : Forall (fun k => length k = 32%nat) (account_keys m).

Lemma account_key_32 i k : account_key (E := SanitizeError.t) m i = Ok k ->
  account_keys m !! i = Some k /\ length k = 32%nat.
Proof.
  unfold account_key. intros H. inv_ok. split; [done|]. by eapply Forall_lookup_1 in keys_32.
Qed.

Lemma read_metas_at d idx blobs r : forall cur,
  map_result (serialize_account m) idx = Ok blobs -> rest_at d cur (concat blobs ++ r) ->
  exists metas cur', read_metas (length idx) cur d = Ok (metas, cur') /\
    rest_at d cur' r /\ Forall2 (meta_of_index m) metas idx.
Proof.
  revert blobs. induction idx as [|i idx IH]; intros blobs cur Hb Hr; cbn in Hb; inv_ok.
  - exists [], cur. split_and!; [done..|constructor].
  - unfold serialize_account in Hr0. inv_ok. rename x2 into k, x1 into w.
    apply account_key_32 in Hr3 as [Hk Hk32]. cbn [concat app] in Hr. rewrite <- app_assoc in Hr.
    apply read_u8_at in Hr as [E1 Hr]. apply read_pubkey_at in Hr as [E2 Hr]; [|done].
    destruct (IH _ _ Hr1 Hr) as (metas & cur' & E3 & Hr' & Hm).
    eexists (_ :: metas), cur'. cbn [length read_metas]. rewrite E1. cbn [mbind result_bind].
    rewrite E2. cbn [mbind result_bind]. rewrite E3. cbn [mbind result_bind].
    destruct (meta_byte_bits (is_signer_index m i) w) as [-> ->].
    split; [done|]. split; [done|]. by constructor.
Qed.

Lemma offsets_lookup start (blobs : list (list Z)) i :
  (i < length blobs)%nat -> offsets start blobs !! i = Some (start + len (concat (take i blobs))).
Proof.
  revert start i. induction blobs as [|b blobs IH]; intros start [|i] Hi; cbn in Hi |- *; try lia.
  - f_equal. unfold len. cbn. lia.
  - rewrite IH by lia. f_equal. unfold len. rewrite length_app. lia.
Qed.

Lemma length_offsets start (blobs : list (list Z)) : length (offsets start blobs) = length blobs.
Proof. revert start. induction blobs; intros; cbn; auto. Qed.

Lemma length_table (l : list Z) : length (concat (u16_bytes <$> l)) = (2 * length l)%nat.
Proof.
  induction l as [|z l IH]; [done|]. cbn. rewrite length_app, IH.
  unfold u16_bytes. rewrite length_to_le_bytes. lia.
Qed.

(** The table of offsets leads to the blobs. *)
Lemma blob_at (blobs : list (list Z)) rest i b :
  let d := (u16_bytes (len blobs) ++ concat (u16_bytes <$> offsets (2 + 2 * len blobs) blobs)
            ++ concat blobs) ++ rest in
  2 + 2 * len blobs + len (concat blobs) <= u16_max -> blobs !! i = Some b ->
  exists start r r', 0 <= start <= u16_max /\
    rest_at d (2 + i * 2) (u16_bytes start ++ r) /\ rest_at d (Z.to_nat start) (b ++ r').
Proof.
  intros d Hmax Hb. pose proof (lookup_lt_Some _ _ _ Hb) as Hi.
  pose proof (offsets_lookup (2 + 2 * len blobs) blobs i Hi) as Ho.
  set (start := 2 + 2 * len blobs + len (concat (take i blobs))) in *.
  pose proof (take_drop_middle _ _ _ Hb) as Hsplit.
  assert (concat blobs = concat (take i blobs) ++ b ++ concat (drop (S i) blobs)) as Hcat
    by (rewrite <- Hsplit at 1; by rewrite concat_app).
  assert (0 <= start <= u16_max) as Hstart.
  { unfold start, len in *. rewrite Hcat, !length_app in Hmax. lia. }
  pose proof (take_drop_middle _ _ _ Ho) as Hosplit.
  set (os := offsets (2 + 2 * len blobs) blobs) in *.
  assert (length os = length blobs) as Hos by apply length_offsets.
  eexists start, _, _. split; [done|]. split.
  - exists (u16_bytes (len blobs) ++ concat (u16_bytes <$> take i os)). split.
    + unfold d. rewrite <- Hosplit at 1. rewrite fmap_app, concat_app, fmap_cons. cbn [concat].
      rewrite <- !app_assoc. reflexivity.
    + rewrite length_app, length_table, length_take. unfold u16_bytes. rewrite length_to_le_bytes. lia.
  - exists (u16_bytes (len blobs) ++ concat (u16_bytes <$> os) ++ concat (take i blobs)). split.
    + unfold d. rewrite Hcat, <- !app_assoc. reflexivity.
    + rewrite !length_app, length_table, Hos. unfold u16_bytes. rewrite length_to_le_bytes.
      unfold start, len. lia.
Qed.

Lemma length_metas_ge idx blobs :
  map_result (serialize_account m) idx = Ok blobs -> (length idx <= length (concat blobs))%nat.
Proof.
  revert blobs. induction idx as [|i idx IH]; intros blobs H; cbn in H; inv_ok; [cbn; lia|].
  unfold serialize_account in Hr. inv_ok. specialize (IH _ Hr0). cbn. rewrite length_app. lia.
Qed.

(** One instruction. *)
Lemma read_blob_at d cur ci b r :
  serialize_instruction m ci = Ok b -> len b <= u16_max -> rest_at d cur (b ++ r) ->
  exists ix,
    ('(num_accounts, current) ← read_u16 cur d;
     '(metas, current) ← read_metas (Z.to_nat num_accounts) current d;
     '(id, current) ← read_pubkey current d;
     '(data_len, current) ← read_u16 current d;
     '(bytes, _) ← read_slice current d (Z.to_nat data_len);
     Ok {| program_id := id; ix_accounts := metas; ix_data := bytes |}) = Ok ix /\
    account_keys m !! program_id_index ci = Some (program_id ix) /\
    Forall2 (meta_of_index m) (ix_accounts ix) (accounts ci) /\ ix_data ix = ci_data ci.
Proof.
  unfold serialize_instruction. intros H Hmax Hr.
  apply bind_Ok in H as (metas & Hm & H). apply bind_Ok in H as (id & Hid & H).
  apply (f_equal (value_or [])) in H. cbn [value_or] in H. subst b.
  apply account_key_32 in Hid as [Hid Hid32]. pose proof (length_metas_ge _ _ Hm).
  unfold len in Hmax. rewrite !length_app in Hmax. rewrite <- !app_assoc in Hr.
  apply read_u16_at in Hr as [E1 Hr]; [|unfold len; lia].
  destruct (read_metas_at _ _ _ _ _ Hm Hr) as (xs & cur' & E2 & Hr' & Hxs). clear Hr. rename Hr' into Hr.
  apply read_pubkey_at in Hr as [E3 Hr]; [|done].
  apply read_u16_at in Hr as [E4 Hr]; [|unfold len; lia].
  apply read_slice_at in Hr as E5.
  eexists. rewrite E1. cbn [mbind result_bind]. unfold len. rewrite Nat2Z.id, E2.
  cbn [mbind result_bind]. rewrite E3. cbn [mbind result_bind]. rewrite E4.
  cbn [mbind result_bind]. unfold len. rewrite Nat2Z.id, E5. cbn [mbind result_bind]. done.
Qed.

(** The instructions sysvar is read back exactly: for a message with
    32-byte addresses whose serialization fits 16-bit offsets, the
    instruction found at an index is the one of the message, with the
    privileges the message gives to its positions; what follows the table
    does not matter. *)
Theorem instructions_sysvar_roundtrip bytes rest i ci :
  serialize_instructions m = Ok bytes -> len bytes <= u16_max ->
  instructions m !! i = Some ci ->
  exists ix, deserialize_instruction i (bytes ++ rest) = Ok ix /\
    account_keys m !! program_id_index ci = Some (program_id ix) /\
    Forall2 (meta_of_index m) (ix_accounts ix) (accounts ci) /\ ix_data ix = ci_data ci.
Proof.
  unfold serialize_instructions. intros H Hmax Hci.
  apply bind_Ok in H as (blobs & Hr & H). apply (f_equal (value_or [])) in H.
  cbn [value_or] in H. subst bytes.
  apply map_result_Ok in Hr. pose proof (Forall2_length _ _ _ Hr) as Hlen.
  destruct (Forall2_lookup_l _ _ _ _ _ Hr Hci) as (b & Hb & Hser).
  unfold len in Hmax. rewrite !length_app, length_table, length_offsets in Hmax.
  unfold u16_bytes in Hmax at 1. rewrite length_to_le_bytes in Hmax.
  destruct (blob_at blobs rest i b) as (start & r & r' & Hs & H1 & H2); [unfold len; lia|done|].
  set (d := (u16_bytes (len blobs) ++ _) ++ rest) in *.
  assert (len blobs <= u16_max) as Hn by (unfold len; lia).
  destruct (read_u16_at d 0 (len blobs) (concat (u16_bytes <$> offsets (2 + 2 * len blobs) blobs)
    ++ concat blobs ++ rest)) as [E0 _]; [unfold len in *; lia|exists []; split; [|done]; unfold d;
    by rewrite <- !app_assoc|].
  apply read_u16_at in H1 as [E1 _]; [|done].
  unfold deserialize_instruction. rewrite E0. cbn [mbind result_bind].
  pose proof (lookup_lt_Some _ _ _ Hb). unfold fail_if. rewrite (proj2 (Z.leb_gt _ _)) by (unfold len; lia).
  cbn [mbind result_bind]. change (0 + 2)%nat with 2%nat. rewrite E1. cbn [mbind result_bind].
  assert (length b <= length (concat blobs))%nat as Hbl.
  { rewrite <- (take_drop_middle _ _ _ Hb), concat_app, length_app. cbn. rewrite length_app. lia. }
  assert (len b <= u16_max) as Hb16 by (unfold len; lia). clear -keys_32 Hser H2 Hb16.
  by apply (read_blob_at d (Z.to_nat start) ci b r').
Qed.
End Sysvar.

(** ** Sample messages *)
Module MessageSample.
Definition k (n : Z) : Pubkey := n :: replicate 31 5.
Definition meta (n : Z) (s w : bool) : AccountMeta :=
  {| pubkey := k n; meta_is_signer := s; meta_is_writable := w |}.
Definition ix (l : list AccountMeta) : Instruction :=
  {| program_id := k 9; ix_accounts := l; ix_data := [1; 2] |}.
Definition compile (l : list AccountMeta) (payer : option Pubkey) : Message :=
  value_or {| header := Build_MessageHeader 0 0 0; account_keys := []; recent_blockhash := [];
              instructions := [] |} (Message_new (E := SanitizeError.t) [ix l] payer).

Definition metas : list AccountMeta := [meta 1 true false; meta 2 false true; meta 3 true true].

Lemma metas_consistent : consistent (all_metas [ix metas] (Some (k 4))).
Proof.
  assert (all_metas [ix metas] (Some (k 4)) =
    [meta 4 true true; meta 1 true false; meta 2 false true; meta 3 true true;
     meta 9 false false]) as -> by (vm_compute; reflexivity).
  intros x y Hx Hy Hk Hs Hw. rewrite !elem_of_cons in Hx, Hy.
  destruct Hx as [->|[->|[->|[->|[->|Hx%not_elem_of_nil]]]]]; try done;
    destruct Hy as [->|[->|[->|[->|[->|Hy%not_elem_of_nil]]]]]; try done;
    eexists; (split; [|by split_and!]); set_solver.
Qed.

Lemma compiled_privileges_witness :
  exists m, Message_new (E := SanitizeError.t) [ix metas] (Some (k 4)) = Ok m /\
    (is_writable_position m 2 = true <->
       exists x, x ∈ all_metas [ix metas] (Some (k 4)) /\ pubkey x = k 1 /\
         meta_is_writable x = true).
Proof.
  destruct (compiled_privileges (E := SanitizeError.t) [ix metas] (Some (k 4)) default_key)
    as (m & E & _ & _ & H); [vm_compute; lia|].
  exists m. split; [exact E|]. apply (H metas_consistent 2%nat (k 1)).
  apply (f_equal (value_or (compile [] None))) in E. cbn [value_or] in E. rewrite <- E.
  vm_compute. reflexivity.
Defined.

Definition bytes : list Z := value_or [] (serialize_instructions (compile metas (Some (k 4)))).

Lemma instructions_sysvar_roundtrip_witness :
  exists ix', deserialize_instruction 0 (bytes ++ [0; 0]) = Ok ix' /\ ix_data ix' = [1; 2].
Proof.
  destruct (instructions_sysvar_roundtrip (compile metas (Some (k 4)))
    ltac:(repeat constructor) bytes [0; 0] 0
    {| program_id_index := 4; accounts := [2; 3; 1]%nat; ci_data := [1; 2] |})
    as (ix' & E & _ & _ & H).
  - apply is_ok_value. vm_compute. reflexivity.
  - vm_compute. discriminate.
  - vm_compute. reflexivity.
  - exists ix'. exact (conj E H).
Defined.

(** An address that signs, and that another meta promotes to writable, takes
    its place behind the read-only signers.  The header counts one read-only
    signer, and the positions give the privilege to the wrong one: [k 1], which
    only asked to be read, is writable, and [k 2], which asked to be written,
    is not. *)
Example promotion_swaps_privileges :
  let m := compile [meta 1 true false; meta 2 true false; meta 2 false true] None in
  Message_new (E := SanitizeError.t)
    [ix [meta 1 true false; meta 2 true false; meta 2 false true]] None = Ok m /\
  account_keys m = [k 1; k 2; k 9] /\
  is_writable_index (E := SanitizeError.t) m 0 true = Ok true /\
  is_writable_index (E := SanitizeError.t) m 1 true = Ok false.
Proof.
  cbn zeta. split; [apply is_ok_value; vm_compute; reflexivity|]. vm_compute. done.
Qed.
End MessageSample.
