(* ===== verification/InvokeContext.v ===== *)
(** * Invoking programs

    Models how the runtime executes the instructions of a message
    ([src/testnet/program-runtime/src/invoke_context.rs],
    [instruction_processor.rs] and [src/testnet/runtime/src/message_processor.rs]):
    the stack of invocations, the snapshots the account checks compare with,
    the dispatch to programs, and the invocation of programs by programs.

    The loaded accounts are cells shared by all frames, as the source's
    [Rc<RefCell<AccountSharedData>>]: a list of addresses with contents, in
    which frames refer to positions.  Programs are parameters: a program is the
    tree of its interactions with the runtime, any function of what it reads.
    An invocation that fails ends its caller with the same error, as at every
    call site of [native_invoke].  Compute budgets, timings, logs and the
    recording of inner instructions do not influence the outcome and are left
    out, except that a program may end with any error. *)

From stdpp Require Import base gmap list fin_maps strings.
From Stdlib Require Import ZArith Lia.
From S2P Require Import Prelude Sdk Runtime KeyedAccount Message.

Definition native_loader_id : Pubkey :=
  Eval vm_compute in declare_id "NativeLoader1111111111111111111111111111111".
Definition secp256k1_program_id : Pubkey :=
  Eval vm_compute in declare_id "KeccakSecp256k11111111111111111111111111111".
Definition ed25519_program_id : Pubkey :=
  Eval vm_compute in declare_id "Ed25519SigVerify111111111111111111111111111".
Definition instructions_sysvar_id : Pubkey :=
  Eval vm_compute in declare_id "Sysvar1nstructions1111111111111111111111111".

(** The features the modelled code looks at. *)
Record FeatureSet := {
  demote_program_write_locks : bool;
  do_support_realloc : bool;
  remove_native_loader : bool;
  prevent_calling_precompiles_as_programs : bool;
  ed25519_program_enabled : bool;
}.

Module UpgradeableLoaderState.
Inductive t : Type :=
| Uninitialized
| Buffer (authority_address : option Pubkey)
| Program (programdata_address : Pubkey)
| ProgramData (slot : Z) (upgrade_authority_address : option Pubkey).
End UpgradeableLoaderState.

(** ** The state of the runtime *)

(** [KeyedAccount]: the privileges, the address, and the cell of the account. *)
Record KeyedAccount := {
  ka_is_signer : bool;
  ka_is_writable : bool;
  ka_key : Pubkey;
  ka_cell : nat;
}.

Record InvokeContextStackFrame := {
  number_of_program_accounts : nat;
  keyed_accounts : list KeyedAccount;
  range_start : nat;
}.

Definition frame_program_id (f : InvokeContextStackFrame) : option Pubkey :=
  ka_key <$> keyed_accounts f !! pred (number_of_program_accounts f).

(** [PreAccount] *)
Record PreAccountSnapshot := {
  pre_key : Pubkey;
  pre_account : AccountSharedData;
  pre_changed : bool;
}.

Abbreviation loaded_accounts := (list (Pubkey * AccountSharedData)).

(** [ThisInvokeContext]; the innermost frame comes first in [invoke_stack]. *)
Record InvokeContext := {
  invoke_stack : list InvokeContextStackFrame;
  pre_accounts : list PreAccountSnapshot;
  cells : loaded_accounts;
  return_data : Pubkey * list Z;
}.

Definition with_stack (c : InvokeContext) (s : list InvokeContextStackFrame) : InvokeContext :=
  {| invoke_stack := s; pre_accounts := pre_accounts c; cells := cells c;
     return_data := return_data c |}.
Definition with_pre (c : InvokeContext) (p : list PreAccountSnapshot) : InvokeContext :=
  {| invoke_stack := invoke_stack c; pre_accounts := p; cells := cells c;
     return_data := return_data c |}.
Definition with_cells (c : InvokeContext) (l : loaded_accounts) : InvokeContext :=
  {| invoke_stack := invoke_stack c; pre_accounts := pre_accounts c; cells := l;
     return_data := return_data c |}.

(** ** Programs *)

(** A program reads its keyed accounts, writes the accounts of its instruction
    (numbered after the program accounts of its frame), moves its range past
    the first account, sets the return data, invokes other programs, and ends
    with a result.  This is all that the loaders let a program of a user do; a
    built-in program is handed the cells of the program accounts as well, and is
    trusted not to write them, as none of the tree does. *)
Inductive program : Type :=
| Return (r : instruction_result unit)
| Read (i : nat) (next : option AccountSharedData -> program)
| Write (i : nat) (a : AccountSharedData) (next : program)
| RemoveFirst (next : program)
| SetReturnData (d : list Z) (next : program)
| Invoke (ix : Instruction) (signers : list Pubkey) (next : program).

(** [ProcessInstructionWithContext]: what a program does depends on the number
    of accounts to skip, the instruction data and its keyed accounts. *)
Abbreviation entrypoint := (nat -> list Z -> list KeyedAccount -> program).

Import InstructionError.

(** [accounts\[i\]] panics out of range. *)
Definition cell_at (c : InvokeContext) (i : nat)
  : instruction_result (Pubkey * AccountSharedData) := unwrap (cells c !! i).

(** [CompiledInstruction::visit_each_account] *)
Fixpoint unique_indices (seen l : list nat) : list nat :=
  match l with
  | [] => []
  | i :: l => if bool_decide (i ∈ seen) then unique_indices seen l
              else i :: unique_indices (i :: seen) l
  end.

Fixpoint visit_from {S} (work : nat -> nat -> S -> instruction_result S) (n : nat)
    (l : list nat) (s : S) : instruction_result S :=
  match l with
  | [] => Ok s
  | i :: l => s ← work n i s; visit_from work (n + 1) l s
  end.
Definition visit_each_account {S} (work : nat -> nat -> S -> instruction_result S)
    (ci : CompiledInstruction) (s : S) : instruction_result S :=
  visit_from work 0 (unique_indices [] (accounts ci)) s.

(** ** The invocation stack *)
Definition get_keyed_accounts (c : InvokeContext) : instruction_result (list KeyedAccount) :=
  f ← ok_or (head (invoke_stack c)) CallDepth;
  panic_unless (Nat.leb (range_start f) (length (keyed_accounts f))) ;;
  Ok (drop (range_start f) (keyed_accounts f)).

Definition get_caller (c : InvokeContext) : instruction_result Pubkey :=
  ok_or (head (invoke_stack c) ≫= frame_program_id) CallDepth.

Definition set_return_data (c : InvokeContext) (d : list Z) : instruction_result InvokeContext :=
  caller ← get_caller c;
  Ok {| invoke_stack := invoke_stack c; pre_accounts := pre_accounts c; cells := cells c;
        return_data := (caller, d) |}.

(** [get_account] searches from the end. *)
Fixpoint find_last (i : nat) (k : Pubkey) (l : loaded_accounts)
  : option (nat * AccountSharedData) :=
  match l with
  | [] => None
  | (k', a) :: l =>
      match find_last (i + 1) k l with
      | Some r => Some r
      | None => if bool_decide (k' = k) then Some (i, a) else None
      end
  end.
Definition get_account (c : InvokeContext) (k : Pubkey) : option (nat * AccountSharedData) :=
  find_last 0 k (cells c).

Definition pop (c : InvokeContext) : InvokeContext := with_stack c (tail (invoke_stack c)).

Section Runtime.
Context (decode_loader_state : list Z -> option UpgradeableLoaderState.t).
Context (features : FeatureSet) (rent : Rent) (max_invoke_depth : nat).
Context (programs : list (Pubkey * entrypoint)) (native_loader : entrypoint).

Definition remove_first_keyed_account (c : InvokeContext) : instruction_result InvokeContext :=
  if remove_native_loader features then Ok c
  else match invoke_stack c with
       | [] => Err CallDepth
       | f :: s =>
           Ok (with_stack c
                 ({| number_of_program_accounts := number_of_program_accounts f;
                     keyed_accounts := keyed_accounts f; range_start := range_start f + 1 |} :: s))
       end.

Definition check_reentrancy (c : InvokeContext) (program_indices : list nat)
  : instruction_result unit :=
  match last program_indices with
  | None => Ok tt
  | Some i =>
      '(id, _) ← cell_at c i;
      let contains :=
        existsb (fun f => bool_decide (frame_program_id f = Some id)) (invoke_stack c) in
      let is_last := bool_decide (head (invoke_stack c) ≫= frame_program_id = Some id) in
      fail_if (contains && negb is_last) ReentrancyNotAllowed
  end.

(** The snapshots taken for an instruction of the message. *)
Definition take_snapshot (c : InvokeContext) (_ i : nat) (pre : list PreAccountSnapshot)
  : instruction_result (list PreAccountSnapshot) :=
  '(k, a) ← ok_or (cells c !! i) MissingAccount;
  Ok (pre ++ [{| pre_key := k; pre_account := a; pre_changed := false |}]).

Definition program_keyed_account (c : InvokeContext) (i : nat) : instruction_result KeyedAccount :=
  '(k, _) ← cell_at c i;
  Ok {| ka_is_signer := false; ka_is_writable := false; ka_key := k; ka_cell := i |}.

Definition instruction_keyed_account (m : Message) (account_indices : option (list nat))
    (c : InvokeContext) (i : nat) : instruction_result KeyedAccount :=
  cell ← match account_indices with Some l => unwrap (l !! i) | None => Ok i end;
  w ← is_writable_index m i (demote_program_write_locks features);
  '(k, _) ← cell_at c cell;
  Ok {| ka_is_signer := is_signer_index m i; ka_is_writable := w; ka_key := k; ka_cell := cell |}.

Definition push (m : Message) (ci : CompiledInstruction) (program_indices : list nat)
    (account_indices : option (list nat)) (c : InvokeContext) : instruction_result InvokeContext :=
  fail_if (Nat.ltb max_invoke_depth (length (invoke_stack c))) CallDepth ;;
  check_reentrancy c program_indices ;;
  pre ← match invoke_stack c with
        | [] => visit_each_account (take_snapshot c) ci []
        | _ => Ok (pre_accounts c)
        end;
  ps ← map_result (program_keyed_account c) program_indices;
  kas ← map_result (instruction_keyed_account m account_indices c) (accounts ci);
  Ok {| invoke_stack :=
          {| number_of_program_accounts := length program_indices;
             keyed_accounts := ps ++ kas; range_start := 0 |} :: invoke_stack c;
        pre_accounts := pre; cells := cells c; return_data := return_data c |}.

(** ** The account checks *)

(** One account of [InvokeContext::verify]. *)
Definition verify_work (id : Pubkey) (m : Message) (c : InvokeContext) (n i : nat)
    (sums : Z * Z) : instruction_result (Z * Z) :=
  let '(pre_sum, post_sum) := sums in
  '(_, a) ← cell_at c i;
  pre ← unwrap (pre_accounts c !! n);
  w ← is_writable_index m i (demote_program_write_locks features);
  PreAccount.verify id w rent (do_support_realloc features) (pre_account pre) a ;;
  pre_sum ← ok_or (checked_add u128_max pre_sum (lamports (pre_account pre)))
              UnbalancedInstruction;
  post_sum ← ok_or (checked_add u128_max post_sum (lamports a)) UnbalancedInstruction;
  Ok (pre_sum, post_sum).

Definition verify (m : Message) (ci : CompiledInstruction) (program_indices : list nat)
    (c : InvokeContext) : instruction_result unit :=
  id ← instruction_program_id ci (account_keys m);
  _ ← map_result (cell_at c) program_indices;
  '(pre_sum, post_sum) ← visit_each_account (verify_work id m c) ci (0, 0);
  fail_if (negb (pre_sum =? post_sum)) UnbalancedInstruction.

(** [PreAccount::update] *)
Definition update (p : PreAccountSnapshot) (a : AccountSharedData) : PreAccountSnapshot :=
  {| pre_key := pre_key p;
     pre_account := {| lamports := lamports a; data := data a; owner := owner a;
                       executable := executable a; rent_epoch := rent_epoch (pre_account p) |};
     pre_changed := true |}.

(** The search of [verify_and_update] for the snapshot of an address: it is
    compared with the account and, if that is writable, brought up to date.
    Returns the snapshots and the lamports of the old one. *)
Fixpoint verify_snapshot (id k : Pubkey) (w : bool) (a : AccountSharedData)
    (pre : list PreAccountSnapshot) : instruction_result (list PreAccountSnapshot * Z) :=
  match pre with
  | [] => Err MissingAccount
  | p :: pre =>
      if bool_decide (k = pre_key p)
      then PreAccount.verify id w rent (do_support_realloc features) (pre_account p) a ;;
           Ok ((if w && negb (executable (pre_account p)) then update p a else p) :: pre,
               lamports (pre_account p))
      else '(pre, l) ← verify_snapshot id k w a pre; Ok (p :: pre, l)
  end.

Definition update_work (id : Pubkey) (account_indices : list nat) (write_privileges : list bool)
    (c : InvokeContext) (_ i : nat) (s : list PreAccountSnapshot * Z * Z)
  : instruction_result (list PreAccountSnapshot * Z * Z) :=
  let '(pre, pre_sum, post_sum) := s in
  match write_privileges !! i, account_indices !! i with
  | Some w, Some cell =>
      '(k, a) ← cell_at c cell;
      '(pre, l) ← verify_snapshot id k w a pre;
      pre_sum ← ok_or (checked_add u128_max pre_sum l) UnbalancedInstruction;
      post_sum ← ok_or (checked_add u128_max post_sum (lamports a)) UnbalancedInstruction;
      Ok (pre, pre_sum, post_sum)
  | _, _ => Err MissingAccount
  end.

Definition verify_and_update (ci : CompiledInstruction) (account_indices : list nat)
    (write_privileges : list bool) (c : InvokeContext) : instruction_result InvokeContext :=
  id ← get_caller c;
  '(pre, pre_sum, post_sum) ←
    visit_each_account (update_work id account_indices write_privileges c) ci
      (pre_accounts c, 0, 0);
  fail_if (negb (pre_sum =? post_sum)) UnbalancedInstruction ;;
  Ok (with_pre c pre).

(** ** Programs invoking programs *)
Definition find_keyed (k : Pubkey) (l : list KeyedAccount) : instruction_result KeyedAccount :=
  ok_or (snd <$> list_find (fun ka => ka_key ka = k) l) MissingAccount.

(** The privileges of an account of the invoked instruction come from the
    caller, or from the signatures of the calling program. *)
Definition check_privilege (callee : list KeyedAccount) (signers : list Pubkey)
    (x : AccountMeta) : instruction_result unit :=
  ka ← find_keyed (pubkey x) callee;
  fail_if (meta_is_writable x && negb (ka_is_writable ka)) PrivilegeEscalation ;;
  fail_if (meta_is_signer x && negb (ka_is_signer ka || bool_decide (pubkey x ∈ signers)))
    PrivilegeEscalation.

Definition programdata_indices (c : InvokeContext) (a : AccountSharedData)
  : instruction_result (list nat) :=
  if bool_decide (owner a = bpf_loader_upgradeable_id)
  then s ← ok_or (decode_loader_state (data a)) InvalidAccountData;
       match s with
       | UpgradeableLoaderState.Program programdata_address =>
           '(i, _) ← ok_or (get_account c programdata_address) MissingAccount;
           Ok [i]
       | _ => Err MissingAccount
       end
  else Ok [].

Definition create_message (ix : Instruction) (signers : list Pubkey) (c : InvokeContext)
  : instruction_result (Message * list bool * list nat) :=
  m ← Message_new [ix] None;
  caller ← get_keyed_accounts c;
  callee ← map_result (fun k => find_keyed k caller) (account_keys m);
  _ ← map_result (check_privilege callee signers) (ix_accounts ix);
  _ ← find_keyed (program_id ix) callee;
  '(program_index, a) ← ok_or (get_account c (program_id ix)) MissingAccount;
  fail_if (negb (executable a)) AccountNotExecutable ;;
  programdata ← programdata_indices c a;
  Ok (m, ka_is_writable <$> callee, programdata ++ [program_index]).

(** [InstructionProcessor::add_program] *)
Fixpoint add_program (l : list (Pubkey * entrypoint)) (p : Pubkey * entrypoint)
  : list (Pubkey * entrypoint) :=
  match l with
  | [] => [p]
  | q :: l => if bool_decide (fst p = fst q) then (fst q, snd p) :: l else q :: add_program l p
  end.

Definition find_program (k : Pubkey) (l : list (Pubkey * entrypoint)) : option entrypoint :=
  snd ∘ snd <$> list_find (fun p => fst p = k) l.

(** [InstructionProcessor::process_instruction]; [run] executes a program. *)
Definition process_instruction (run : program -> InvokeContext -> instruction_result InvokeContext)
    (programs : list (Pubkey * entrypoint)) (d : list Z) (c : InvokeContext)
  : instruction_result InvokeContext :=
  kas ← get_keyed_accounts c;
  match kas !! 0%nat with
  | None => Err UnsupportedProgramId
  | Some root =>
      '(_, a) ← cell_at c (ka_cell root);
      if bool_decide (owner a = native_loader_id)
      then match find_program (ka_key root) programs with
           | Some entry => run (entry 1%nat d kas) c
           | None => if remove_native_loader features then Err UnsupportedProgramId
                     else run (native_loader 0%nat d kas) c
           end
      else match find_program (owner a) programs with
           | Some entry => run (entry 0%nat d kas) c
           | None => Err UnsupportedProgramId
           end
  end.

Definition process_cross_program_instruction
    (run : program -> InvokeContext -> instruction_result InvokeContext)
    (m : Message) (program_indices account_indices : list nat)
    (caller_write_privileges : list bool) (c : InvokeContext)
  : instruction_result InvokeContext :=
  ci ← ok_or (instructions m !! 0%nat) GenericError;
  c ← verify_and_update ci account_indices caller_write_privileges c;
  c ← set_return_data c [];
  c ← push m ci program_indices (Some account_indices) c;
  c ← process_instruction run (foldl add_program [] programs) (ci_data ci) c;
  write_privileges ←
    map_result (fun i => is_writable_index m i (demote_program_write_locks features))
      (seq 0 (length (account_keys m)));
  c ← verify_and_update ci account_indices write_privileges c;
  Ok (pop c).

(** The check of [native_invoke] on the size of the accounts. *)
Definition check_realloc (c : InvokeContext) (x : nat * nat) : instruction_result unit :=
  let '(cell, prev_size) := x in
  '(_, a) ← cell_at c cell;
  fail_if (negb (do_support_realloc features) && negb (Nat.eqb prev_size (length (data a)))
           && negb (Nat.eqb prev_size 0)) InvalidRealloc.

Definition native_invoke (run : program -> InvokeContext -> instruction_result InvokeContext)
    (ix : Instruction) (signers : list Pubkey) (c : InvokeContext)
  : instruction_result InvokeContext :=
  '(m, caller_write_privileges, program_indices) ← create_message ix signers c;
  found ← map_result (fun k => ok_or (get_account c k) MissingAccount) (account_keys m);
  c ← process_cross_program_instruction run m program_indices (fst <$> found)
        caller_write_privileges c;
  _ ← map_result (check_realloc c) ((fun x => (fst x, length (data (snd x)))) <$> found);
  Ok c.

(** Executing a program, given how its invocations are executed. *)
Fixpoint exec (invoke : Instruction -> list Pubkey -> InvokeContext -> instruction_result InvokeContext)
    (p : program) (c : InvokeContext) : instruction_result InvokeContext :=
  match p with
  | Return r => r ;; Ok c
  | Read i next =>
      kas ← get_keyed_accounts c;
      match kas !! i with
      | None => exec invoke (next None) c
      | Some ka => '(_, a) ← cell_at c (ka_cell ka); exec invoke (next (Some a)) c
      end
  | Write i a next =>
      f ← ok_or (head (invoke_stack c)) CallDepth;
      ka ← ok_or (keyed_accounts f !! (number_of_program_accounts f + i)%nat)
             NotEnoughAccountKeys;
      exec invoke next (with_cells c (alter (fun x => (fst x, a)) (ka_cell ka) (cells c)))
  | RemoveFirst next => c ← remove_first_keyed_account c; exec invoke next c
  | SetReturnData d next => c ← set_return_data c d; exec invoke next c
  | Invoke ix signers next => c ← invoke ix signers c; exec invoke next c
  end.

(** [fuel] bounds the depth of the invocations. *)
Fixpoint run (fuel : nat) (p : program) (c : InvokeContext) : instruction_result InvokeContext :=
  exec (match fuel with
        | O => fun _ _ _ => Err CallDepth
        | S fuel => native_invoke (run fuel)
        end) p c.

(** ** The instructions of a message *)
Definition is_precompile (id : Pubkey) : bool :=
  (prevent_calling_precompiles_as_programs features && bool_decide (id = secp256k1_program_id))
  || (ed25519_program_enabled features && bool_decide (id = ed25519_program_id)).

(** [instructions::store_current_index] *)
Definition store_current_index (a : AccountSharedData) (index : nat)
  : instruction_result AccountSharedData :=
  panic_unless (Nat.leb 2 (length (data a))) ;;
  Ok {| lamports := lamports a;
        data := take (length (data a) - 2) (data a) ++ u16_bytes (Z.of_nat index);
        owner := owner a; executable := executable a; rent_epoch := rent_epoch a |}.

(** The first of the message's accounts that is the instructions sysvar. *)
Fixpoint fix_instructions_sysvar (n : nat) (index : nat) (l : loaded_accounts)
  : instruction_result loaded_accounts :=
  match n, l with
  | S n, (k, a) :: l =>
      if bool_decide (k = instructions_sysvar_id)
      then a ← store_current_index a index; Ok ((k, a) :: l)
      else l ← fix_instructions_sysvar n index l; Ok ((k, a) :: l)
  | _, _ => Ok l
  end.

(** One turn of [MessageProcessor::process_message]. *)
Definition execute_instruction (m : Message) (index : nat) (ci : CompiledInstruction)
    (program_indices : list nat) (c : InvokeContext) : instruction_result InvokeContext :=
  id ← instruction_program_id ci (account_keys m);
  if prevent_calling_precompiles_as_programs features && is_precompile id then Ok c
  else
    l ← fix_instructions_sysvar (length (account_keys m)) index (cells c);
    let c := with_cells c l in
    c ← push m ci program_indices None c;
    c ← process_instruction (run (max_invoke_depth + 1)) programs (ci_data ci) c;
    verify m ci program_indices c ;;
    Ok (pop c).

(** The loop of [process_message]; an error carries the index of the
    instruction ([TransactionError::InstructionError]). *)
Fixpoint execute_instructions (m : Message) (index : nat)
    (l : list (CompiledInstruction * list nat)) (c : InvokeContext)
  : result (nat * InstructionError.t) InvokeContext :=
  match l with
  | [] => Ok c
  | (ci, program_indices) :: l =>
      c ← map_err (fun e => (as_u8 index, e)) (execute_instruction m index ci program_indices c);
      execute_instructions m (index + 1) l c
  end.

Definition process_message (m : Message) (program_indices : list (list nat))
    (l : loaded_accounts) : result (nat * InstructionError.t) loaded_accounts :=
  c ← execute_instructions m 0 (zip (instructions m) program_indices)
        {| invoke_stack := []; pre_accounts := []; cells := l; return_data := (default_key, []) |};
  Ok (cells c).
End Runtime.
