(* ===== verification/InvokeProofs.v ===== *)
(** * What the runtime guarantees of any program

    The theorems about the execution of messages ([InvokeContext]): the depth
    of invocations is bounded, and invocation adds no privileges; a processed
    message conserves lamports, and its read-only accounts keep their contents,
    whatever the programs do to the accounts of their instructions, the latter
    as long as the instructions they invoke are compiled without promotions.
    [promotion_shifts_write_access] shows what is lost otherwise. *)

From stdpp Require Import base gmap list fin_maps strings.
From Stdlib Require Import ZArith Lia.
From S2P Require Import Prelude Sdk Runtime KeyedAccount Message InvokeContext.

(** ** Lamports in cells and snapshots *)
Definition key_of (l : loaded_accounts) (i : nat) : option Pubkey := fst <$> l !! i.
Lemma key_of_inv (l l' : loaded_accounts) i : fst <$> l' = fst <$> l -> key_of l' i = key_of l i.
Proof. intros H. unfold key_of. by rewrite <- !list_lookup_fmap, H. Qed.

Definition lamports_at (l : loaded_accounts) (i : nat) : Z :=
  match l !! i with Some (_, a) => lamports a | None => 0 end.
Definition sum_at (l : loaded_accounts) (u : list nat) : Z :=
  foldr (fun i s => lamports_at l i + s) 0 u.
Definition snapshot_sum (pre : list PreAccountSnapshot) : Z :=
  foldr (fun x s => lamports (pre_account x) + s) 0 pre.

Lemma elem_of_unique_indices seen l i : i ∈ unique_indices seen l <-> i ∈ l /\ i ∉ seen.
Proof.
  revert seen. induction l as [|j l IH]; intros seen; cbn; [rewrite elem_of_nil; tauto|].
  case_bool_decide; rewrite ?elem_of_cons, IH, ?not_elem_of_cons;
    destruct (decide (i = j)) as [->|]; tauto.
Qed.

Lemma NoDup_unique_indices seen l : NoDup (unique_indices seen l).
Proof.
  revert seen. induction l as [|j l IH]; intros seen; cbn; [constructor|].
  case_bool_decide; [done|]. constructor; [|done]. rewrite elem_of_unique_indices, not_elem_of_cons. tauto.
Qed.

(** Lamports of all loaded accounts. *)
Definition total_cells (l : loaded_accounts) : Z := foldr (fun x s => lamports (snd x) + s) 0 l.

Lemma sum_at_app l u v : sum_at l (u ++ v) = sum_at l u + sum_at l v.
Proof. induction u as [|i u IH]; [done|]. cbn in *. unfold sum_at in *. lia. Qed.

Lemma sum_at_perm l u v : u ≡ₚ v -> sum_at l u = sum_at l v.
Proof. induction 1; cbn in *; unfold sum_at in *; lia. Qed.

Lemma sum_at_ext l l' u : (forall i, i ∈ u -> l' !! i = l !! i) -> sum_at l' u = sum_at l u.
Proof.
  induction u as [|i u IH]; intros H; [done|]. cbn. fold (sum_at l' u) (sum_at l u).
  rewrite IH by (intros j Hj; apply H; by right). f_equal. unfold lamports_at.
  by rewrite H by left.
Qed.

Lemma total_cells_seq l : total_cells l = sum_at l (seq 0 (length l)).
Proof.
  assert (forall l1 l2, sum_at (l1 ++ l2) (seq (length l1) (length l2)) = total_cells l2) as H;
    [|symmetry; apply (H [])].
  intros l1 l2. revert l1. induction l2 as [|x l2 IH]; intros l1; [done|]. cbn.
  fold (sum_at (l1 ++ x :: l2) (seq (S (length l1)) (length l2))) (total_cells l2).
  rewrite <- (IH (l1 ++ [x])), length_app, <- app_assoc. cbn. rewrite Nat.add_1_r. f_equal.
  unfold lamports_at. rewrite lookup_app_r, Nat.sub_diag by lia. by destruct x.
Qed.

Lemma cells_total_change l l' u :
  length l' = length l -> NoDup u -> (forall i, i ∈ u -> (i < length l)%nat) ->
  (forall i, i ∉ u -> l' !! i = l !! i) ->
  total_cells l' - total_cells l = sum_at l' u - sum_at l u.
Proof.
  intros Hlen Hnd Hu Ho. rewrite !total_cells_seq, Hlen.
  assert (seq 0 (length l) ≡ₚ u ++ filter (fun i => i ∉ u) (seq 0 (length l))) as Hp.
  { apply NoDup_Permutation; [apply NoDup_seq| |].
    - apply NoDup_app. split_and!; [done| |apply NoDup_filter, NoDup_seq].
      intros i Hi [? _]%list_elem_of_filter. done.
    - intros i. rewrite elem_of_app, list_elem_of_filter, elem_of_seq.
      destruct (decide (i ∈ u)) as [Hi|Hi]; [specialize (Hu i Hi); split; [by left|lia]|].
      intuition lia. }
  rewrite !(sum_at_perm _ _ _ Hp), !sum_at_app.
  rewrite (sum_at_ext l l' (filter _ _)); [lia|]. intros i [Hi _]%list_elem_of_filter. by apply Ho.
Qed.

(** ** Loaded messages *)

(** The accounts loaded for a message: first those of its table; behind them
    come the programs of its instructions with their loaders, the programs a
    second time, whatever their addresses ([Accounts::load_executable_accounts]). *)
Definition table (m : Message) (l : loaded_accounts) : loaded_accounts :=
  take (length (account_keys m)) l.
Definition loaded_for (m : Message) (l : loaded_accounts) : Prop :=
  fst <$> table m l = account_keys m.

Lemma has_duplicates_NoDup l : has_duplicate_keys l = false -> NoDup l.
Proof.
  induction l as [|k l IH]; cbn; [constructor|]. intros [H1 H2]%orb_false_iff.
  constructor; [by apply bool_decide_eq_false in H1|auto].
Qed.

Lemma loaded_for_keys m l l' : fst <$> l' = fst <$> l -> loaded_for m l -> loaded_for m l'.
Proof. unfold loaded_for, table. rewrite !fmap_take. by intros ->. Qed.

Lemma loaded_key m l i :
  loaded_for m l -> (i < length (account_keys m))%nat -> key_of l i = account_keys m !! i.
Proof.
  unfold loaded_for, table, key_of. intros Hk Hi.
  rewrite <- list_lookup_fmap, <- Hk, fmap_take, lookup_take_lt by done. done.
Qed.

Lemma loaded_distinct m l i j k :
  loaded_for m l -> has_duplicates m = false ->
  (i < length (account_keys m))%nat -> (j < length (account_keys m))%nat ->
  key_of l i = Some k -> key_of l j = Some k -> j = i.
Proof.
  intros Hk Hd%has_duplicates_NoDup Hi Hj. rewrite !(loaded_key m) by done. intros Hik Hjk.
  by eapply NoDup_lookup.
Qed.

Lemma sanitize_indices m ci i :
  sanitize m = Ok tt -> ci ∈ instructions m -> i ∈ accounts ci ->
  (i < length (account_keys m))%nat.
Proof.
  unfold sanitize. intros H Hci Hi. inv_ok. clear Hr Hr0. revert H Hci.
  generalize (length (account_keys m)). intros n. generalize (instructions m). induction l as [|x l IH]; intros H Hci; cbn in H; inv_ok.
  { by apply not_elem_of_nil in Hci. }
  apply elem_of_cons in Hci as [<-|Hci]; [|auto].
  unfold sanitize_instruction in *. inv_ok.
  destruct (decide (i < n)%nat); [done|]. exfalso.
  match goal with E : existsb _ _ = false |- _ => apply not_true_iff_false in E; apply E end.
  apply existsb_exists. exists i. split; [by apply list_elem_of_In|]. apply Nat.leb_le. lia.
Qed.

(** Lemmas take the parameters their statements name, and what is assumed of
    them. *)
#[local] Set Default Proof Using "Type*".

Section Invoke.
Context (decode_loader_state : list Z -> option UpgradeableLoaderState.t).
Context (features : FeatureSet) (rent : Rent) (max_invoke_depth : nat).
Context (programs : list (Pubkey * entrypoint)) (native_loader : entrypoint).

Abbreviation run := (run decode_loader_state features rent max_invoke_depth programs native_loader).
Abbreviation native_invoke :=
  (native_invoke decode_loader_state features rent max_invoke_depth programs native_loader).
Abbreviation process_cross := 
  (process_cross_program_instruction features rent max_invoke_depth programs native_loader).
Abbreviation verify_and_update := (verify_and_update features rent).
Abbreviation push := (push features max_invoke_depth).
Abbreviation process_instruction := (process_instruction features native_loader).
Implicit Types (c : InvokeContext) (p : program).

(** ** The stack of invocations *)
Definition depth (c : InvokeContext) : nat := length (invoke_stack c).

Lemma verify_and_update_frame ci idx ws c c' :
  verify_and_update ci idx ws c = Ok c' ->
  invoke_stack c' = invoke_stack c /\ cells c' = cells c.
Proof. unfold InvokeContext.verify_and_update. intros H. inv_ok. done. Qed.

Lemma set_return_data_frame c d c' :
  set_return_data c d = Ok c' -> invoke_stack c' = invoke_stack c /\ cells c' = cells c /\
    pre_accounts c' = pre_accounts c.
Proof. unfold set_return_data. intros H. inv_ok. done. Qed.

Lemma push_frame m ci pis idx c c' :
  push m ci pis idx c = Ok c' -> (depth c <= max_invoke_depth)%nat /\ cells c' = cells c /\
    exists f, invoke_stack c' = f :: invoke_stack c /\
      number_of_program_accounts f = length pis /\ range_start f = 0%nat.
Proof.
  unfold InvokeContext.push. intros H. inv_ok. apply Nat.ltb_ge in Hr. split; [done|]. split; [done|].
  by eexists.
Qed.

(** ** The steps of an invocation *)
Definition entry_of (e : entrypoint) : Prop := e ∈ snd <$> programs \/ e = native_loader.

Lemma process_instruction_runs r ps d c c' :
  process_instruction r ps d c = Ok c' ->
  exists e n kas, (e ∈ snd <$> ps \/ e = native_loader) /\ r (e n d kas) c = Ok c'.
Proof.
  assert (forall k e, find_program k ps = Some e -> e ∈ snd <$> ps) as Hfind.
  { unfold find_program. intros k e He. apply fmap_Some in He as ([i [k' e']] & Hl & ->).
    apply list_find_Some in Hl as (Hl & _). apply list_elem_of_lookup_2 in Hl.
    apply list_elem_of_fmap. by exists (k', e'). }
  unfold InvokeContext.process_instruction. intros H. inv_ok. rename x into kas.
  case_match; inv_ok. case_match; [case_match|].
  - eexists _, _, _. split; [left; by eapply Hfind|exact H].
  - case_match; inv_ok. eexists _, _, _. split; [by right|exact H].
  - case_match; inv_ok. eexists _, _, _. split; [left; by eapply Hfind|exact H].
Qed.

Lemma elem_of_add_programs (l : list (Pubkey * entrypoint)) acc e :
  e ∈ snd <$> foldl add_program acc l -> e ∈ snd <$> acc \/ e ∈ snd <$> l.
Proof.
  revert acc. induction l as [|x l IH]; intros acc He; cbn in *; [by left|].
  apply IH in He as [He|He]; [|right; by right].
  assert (e ∈ snd <$> acc \/ e = snd x) as [?| ->]; [|by left|right; left]. clear -He.
  induction acc as [|y acc IH]; cbn in *; [right; by apply list_elem_of_singleton|].
  case_bool_decide; cbn in He; apply elem_of_cons in He as [->|He]; cbn;
    rewrite elem_of_cons; auto. destruct (IH He); auto.
Qed.

(** Entering the program invoked by [ix]: from [c] to [c']. *)
Record entered (ix : Instruction) (signers : list Pubkey) (c : InvokeContext) (m : Message)
    (privs : list bool) (found : list (nat * AccountSharedData)) (ci : CompiledInstruction)
    (c' : InvokeContext) : Prop := {
  entered_message : exists pis,
    create_message decode_loader_state ix signers c = Ok (m, privs, pis);
  entered_found :
    map_result (E := InstructionError.t)
      (fun k => ok_or (get_account c k) InstructionError.MissingAccount)
      (account_keys m) = Ok found;
  entered_instruction : instructions m !! 0%nat = Some ci;
  entered_frame : exists c1 c2 pis, verify_and_update ci (fst <$> found) privs c = Ok c1 /\
    set_return_data c1 [] = Ok c2 /\ push m ci pis (Some (fst <$> found)) c2 = Ok c';
}.

Inductive invoked (r : program -> InvokeContext -> instruction_result InvokeContext)
    (ix : Instruction) (signers : list Pubkey) (c : InvokeContext) : InvokeContext -> Prop :=
| invoked_intro m privs found ci c1 e n d kas c2 ws c3 :
    entered ix signers c m privs found ci c1 ->
    entry_of e -> r (e n d kas) c1 = Ok c2 ->
    map_result (E := InstructionError.t)
      (fun i => is_writable_index m i (demote_program_write_locks features))
      (seq 0 (length (account_keys m))) = Ok ws ->
    verify_and_update ci (fst <$> found) ws c2 = Ok c3 ->
    invoked r ix signers c (pop c3).

Lemma native_invoke_steps r ix signers c c' :
  native_invoke r ix signers c = Ok c' -> invoked r ix signers c c'.
Proof.
  unfold InvokeContext.native_invoke, process_cross_program_instruction. intros H. inv_ok.
  match goal with H : InvokeContext.process_instruction _ _ _ _ _ _ = Ok _ |- _ =>
    apply process_instruction_runs in H as (e & n & kas & He & H) end.
  econstructor; [econstructor; eauto 9| |eauto..]. destruct He as [He|He]; [left|by right].
  apply elem_of_add_programs in He as [He|He]; [by apply not_elem_of_nil in He|done].
Qed.

Lemma entered_stack ci idx privs m c c' :
  (exists c1 c2 pis, verify_and_update ci idx privs c = Ok c1 /\
    set_return_data c1 [] = Ok c2 /\ push m ci pis (Some idx) c2 = Ok c') ->
  exists f, invoke_stack c' = f :: invoke_stack c /\ (depth c <= max_invoke_depth)%nat /\
    cells c' = cells c.
Proof.
  intros (c1 & c2 & pis & H1 & H2 & H3). apply verify_and_update_frame in H1 as [E1 E1'].
  apply set_return_data_frame in H2 as (E2 & E2' & _).
  apply push_frame in H3 as (Hd & E3' & f & E3 & _). exists f. unfold depth in *. rewrite E2, E1 in *.
  split_and!; [done..|congruence].
Qed.

(** ** The depth of invocations is bounded *)

(** An executor that leaves the depth of the stack as it found it. *)
Definition keeps_depth (r : program -> InvokeContext -> instruction_result InvokeContext) : Prop :=
  forall p c c', r p c = Ok c' -> depth c' = depth c.

Lemma native_invoke_depth r ix signers c c' :
  keeps_depth r -> native_invoke r ix signers c = Ok c' -> depth c' = depth c.
Proof.
  intros Hr H. apply native_invoke_steps in H.
  destruct H as [m privs found ci c1 e n d kas c2 ws c3 [_ _ _ H1] _ H2 _ H3].
  apply entered_stack in H1 as (f & H1 & _). apply verify_and_update_frame in H3 as [H3 _].
  apply Hr in H2. unfold depth in *. cbn. rewrite H1 in H2. rewrite H3.
  destruct (invoke_stack c2); cbn in *; lia.
Qed.

Abbreviation exec := (exec features).

Lemma exec_depth invoke p c c' :
  (forall ix signers c c', invoke ix signers c = Ok c' -> depth c' = depth c) ->
  exec invoke p c = Ok c' -> depth c' = depth c.
Proof.
  intros Hi. revert c c'. induction p as [r|i k IH|i a k IH|k IH|d k IH|ix sg k IH];
    intros c c' H; cbn [InvokeContext.exec] in H; inv_ok.
  - done.
  - case_match; inv_ok; by apply IH in H.
  - apply IH in H. by rewrite H.
  - apply IH in H. rewrite H. unfold remove_first_keyed_account, depth in *.
    repeat case_match; inv_ok; cbn; congruence.
  - apply IH in H. rewrite H. apply set_return_data_frame in Hr as [Hr _]. unfold depth. by rewrite Hr.
  - apply IH in H. rewrite H. by eapply Hi.
Qed.

Lemma run_depth fuel : keeps_depth (run fuel).
Proof.
  induction fuel as [|fuel IH]; intros p c c' H; cbn [InvokeContext.run] in H;
    eapply exec_depth in H; eauto; [done|].
  intros ix sg c0 c0'. by apply native_invoke_depth.
Qed.

(** Executors of invocations that agree on the contexts they are called in. *)
Lemma exec_ext i1 i2 p c :
  (forall ix sg c c', i1 ix sg c = Ok c' -> depth c' = depth c) ->
  (forall ix sg c', depth c' = depth c -> i1 ix sg c' = i2 ix sg c') ->
  exec i1 p c = exec i2 p c.
Proof.
  intros Hd. revert c. induction p as [r|i k IH|i a k IH|k IH|d k IH|ix sg k IH];
    intros c Hi; cbn [InvokeContext.exec].
  - done.
  - destruct (get_keyed_accounts c); cbn; [|done..]. case_match; [|by apply IH].
    destruct (cell_at c _) as [[]| |]; cbn; [by apply IH|done..].
  - destruct (ok_or (head _) _); cbn; [|done..]. destruct (ok_or _ _); cbn; [|done..]. by apply IH.
  - destruct (remove_first_keyed_account features c) as [c'| |] eqn:E; cbn; [|done..].
    apply IH. intros ix sg c0 H0. apply Hi. rewrite H0. unfold remove_first_keyed_account, depth in *.
    repeat case_match; inv_ok; cbn; congruence.
  - destruct (set_return_data c d) as [c'| |] eqn:E; cbn; [|done..].
    apply IH. intros ix sg c0 H0. apply Hi. rewrite H0. apply set_return_data_frame in E as [E _].
    unfold depth. by rewrite E.
  - rewrite <- Hi by done. destruct (i1 ix sg c) as [c'| |] eqn:E; cbn; [|done..].
    apply IH. intros ix' sg' c0 H0. apply Hi. rewrite H0. by eapply Hd.
Qed.

Lemma process_instruction_ext r1 r2 ps d c :
  (forall p, r1 p c = r2 p c) -> process_instruction r1 ps d c = process_instruction r2 ps d c.
Proof.
  intros H. unfold InvokeContext.process_instruction. destruct (get_keyed_accounts c); cbn; [|done..].
  case_match; [|done]. destruct (cell_at c _) as [[]| |]; cbn; [|done..]. repeat case_match; auto.
Qed.

(** An invocation executes a program one level deeper, and only up to the
    permitted depth. *)
Lemma native_invoke_ext r1 r2 ix sg c :
  ((depth c <= max_invoke_depth)%nat -> forall p c', depth c' = S (depth c) -> r1 p c' = r2 p c') ->
  native_invoke r1 ix sg c = native_invoke r2 ix sg c.
Proof.
  intros Hr. unfold InvokeContext.native_invoke.
  destruct (create_message _ _ _ _) as [[[m privs] pis]| |]; cbn [mbind result_bind]; [|done..].
  destruct (map_result _ _) as [found| |]; cbn [mbind result_bind]; [|done..]. f_equal.
  unfold process_cross_program_instruction.
  destruct (ok_or _ _) as [ci| |]; cbn [mbind result_bind]; [|done..].
  destruct (verify_and_update _ _ _ _) as [c1| |] eqn:E1; cbn [mbind result_bind]; [|done..].
  destruct (set_return_data _ _) as [c2| |] eqn:E2; cbn [mbind result_bind]; [|done..].
  destruct (push _ _ _ _ _) as [c3| |] eqn:E3; cbn [mbind result_bind]; [|done..].
  f_equal. apply verify_and_update_frame in E1 as [E1 _]. apply set_return_data_frame in E2 as [E2 _].
  apply push_frame in E3 as (Hd & _ & f & E3 & _). unfold depth in Hd. rewrite E2, E1 in Hd.
  apply process_instruction_ext. intros p. apply Hr; [done|]. unfold depth. rewrite E3, E2, E1. done.
Qed.

Definition enough (fuel : nat) (c : InvokeContext) : Prop :=
  (1 <= fuel /\ max_invoke_depth + 2 <= fuel + depth c)%nat.

Lemma run_enough n1 n2 p c : enough n1 c -> enough n2 c -> run n1 p c = run n2 p c.
Proof.
  revert n2 p c. induction n1 as [|n1 IH]; intros [|n2] p c [H1 H1'] [H2 H2']; try lia.
  cbn [InvokeContext.run]. apply exec_ext.
  - intros ix sg c0 c1. apply native_invoke_depth, run_depth.
  - intros ix sg c0 Hc0. apply native_invoke_ext. intros Hd p' c' Hc'.
    apply IH; split; lia.
Qed.

(** Executing a program terminates within the permitted depth of
    invocations: for an instruction of a message, which runs with one
    frame on the stack, a fuel of max_invoke_depth + 1 gives the result,
    whatever the program does, and more fuel does not change it. *)
Theorem invocations_bounded fuel p c :
  invoke_stack c <> [] -> (max_invoke_depth + 1 <= fuel)%nat ->
  run fuel p c = run (max_invoke_depth + 1) p c.
Proof.
  intros Hs Hf. assert (1 <= depth c)%nat by (unfold depth; destruct (invoke_stack c); cbn; [done|lia]).
  apply run_enough; split; lia.
Qed.

(** ** Invariants of the execution *)
Section Preserve.
Context (I : InvokeContext -> Prop) (D : Instruction -> Prop).

(** A program whose invocations satisfy [D]. *)
Fixpoint disciplined (p : program) : Prop :=
  match p with
  | Return _ => True
  | Read _ next => forall o, disciplined (next o)
  | Write _ _ next | RemoveFirst next | SetReturnData _ next => disciplined next
  | Invoke ix _ next => D ix /\ disciplined next
  end.

Hypothesis I_write : forall c f i ka a,
  I c -> head (invoke_stack c) = Some f ->
  keyed_accounts f !! (number_of_program_accounts f + i)%nat = Some ka ->
  I (with_cells c (alter (fun x => (fst x, a)) (ka_cell ka) (cells c))).
Hypothesis I_remove : forall c c', I c -> remove_first_keyed_account features c = Ok c' -> I c'.
Hypothesis I_return : forall c d c', I c -> set_return_data c d = Ok c' -> I c'.
Hypothesis I_enter : forall ix signers c m privs found ci c',
  D ix -> I c -> entered ix signers c m privs found ci c' -> I c'.
Hypothesis I_leave : forall ix signers c m privs found ci c1 c2 ws c3,
  D ix -> I c -> entered ix signers c m privs found ci c1 -> I c2 -> depth c2 = S (depth c) ->
  map_result (E := InstructionError.t)
    (fun i => is_writable_index m i (demote_program_write_locks features))
    (seq 0 (length (account_keys m))) = Ok ws ->
  verify_and_update ci (fst <$> found) ws c2 = Ok c3 -> I (pop c3).
Hypothesis entries_disciplined : forall e n d kas, entry_of e -> disciplined (e n d kas).

Lemma exec_preserves invoke p c c' :
  (forall ix sg c c', D ix -> I c -> invoke ix sg c = Ok c' -> I c') ->
  disciplined p -> I c -> exec invoke p c = Ok c' -> I c'.
Proof.
  intros Hi. revert c c'. induction p as [r|i k IH|i a k IH|k IH|d k IH|ix sg k IH];
    intros c c' Hp HI H; cbn [InvokeContext.exec disciplined] in *; inv_ok.
  - done.
  - case_match; inv_ok; by eapply IH in H.
  - apply IH in H; [done..|]. by eapply I_write.
  - apply IH in H; [done..|]. by eapply I_remove.
  - apply IH in H; [done..|]. by eapply I_return.
  - destruct Hp as [Hix Hp]. apply IH in H; [done..|]. by eapply Hi.
Qed.

Lemma run_preserves fuel p c c' : disciplined p -> I c -> run fuel p c = Ok c' -> I c'.
Proof.
  revert p c c'. induction fuel as [|fuel IH]; intros p c c' Hp HI H; cbn [InvokeContext.run] in H;
    (eapply exec_preserves in H; [done|clear H|exact Hp|exact HI]); [done|].
  intros ix sg c0 c0' Hix HI0 H0. apply native_invoke_steps in H0.
  destruct H0 as [m privs found ci c1 e n d kas c2 ws c3 Hent He H2 Hws H3].
  assert (I c1) as HI1 by exact (I_enter _ _ _ _ _ _ _ _ Hix HI0 Hent).
  assert (I c2) as HI2 by (eapply IH; [|exact HI1|exact H2]; by apply entries_disciplined).
  apply run_depth in H2. destruct (entered_stack _ _ _ _ _ _ (entered_frame _ _ _ _ _ _ _ _ Hent))
    as (f & Est & _).
  refine (I_leave _ _ _ _ _ _ _ _ _ _ _ Hix HI0 Hent HI2 _ Hws H3).
  rewrite H2. unfold depth. by rewrite Est.
Qed.
End Preserve.

Lemma verify_snapshot_Ok id k w a pre pre' n :
  verify_snapshot features rent id k w a pre = Ok (pre', n) ->
  pre_key <$> pre' = pre_key <$> pre /\ k ∈ pre_key <$> pre /\
  snapshot_sum pre' = snapshot_sum pre - n + lamports a.
Proof.
  revert pre'. induction pre as [|p pre IH]; intros pre' H; cbn in H; [done|].
  case_bool_decide as E; inv_ok.
  - apply PreAccount.verify_allowed in Hr as [_ _ _ Hro _].
    split; [by case_match|]. split; [left|].
    destruct w, (executable (pre_account p)); cbn; try lia; destruct Hro as (_ & ? & _); auto; lia.
  - apply IH in Hr as (Hk & Hin & Hs). rewrite !fmap_cons. split_and!; [by f_equal|by right|].
    cbn [snapshot_sum foldr]. fold (snapshot_sum l) (snapshot_sum pre). lia.
Qed.

Lemma update_visit id idx ws c l : forall n pre ps qs pre' ps' qs',
  visit_from (update_work features rent id idx ws c) n l (pre, ps, qs) = Ok (pre', ps', qs') ->
  pre_key <$> pre' = pre_key <$> pre /\
  snapshot_sum pre' - snapshot_sum pre = (qs' - qs) - (ps' - ps) /\
  forall i, i ∈ l -> exists cell k, idx !! i = Some cell /\ key_of (cells c) cell = Some k /\
    k ∈ pre_key <$> pre.
Proof.
  induction l as [|i l IH]; intros n pre ps qs pre' ps' qs' H; cbn [visit_from] in H; inv_ok.
  - split_and!; [done|lia|]. intros i Hi. by apply not_elem_of_nil in Hi.
  - destruct x as [[pre1 ps1] qs1]. apply IH in H as (Hk & Hs & Hl). unfold update_work in Hr.
    repeat case_match; inv_ok. unfold cell_at in *. inv_ok. inv_checked. subst.
    apply verify_snapshot_Ok in Hr1 as (Hk1 & Hin & Hs1). split_and!; [congruence|lia|].
    intros j [->|Hj]%elem_of_cons.
    + eexists _, _. split_and!; [done| |done]. unfold key_of. by rewrite Hr0.
    + destruct (Hl j Hj) as (cell & k & ? & ? & ?). exists cell, k. split_and!; [done..|]. by rewrite <- Hk1.
Qed.

(** Comparing with the snapshots and updating them keeps their sum: whatever
    the program moved has balanced. *)
Lemma verify_and_update_Ok ci idx ws c c' :
  verify_and_update ci idx ws c = Ok c' ->
  pre_key <$> pre_accounts c' = pre_key <$> pre_accounts c /\
  snapshot_sum (pre_accounts c') = snapshot_sum (pre_accounts c) /\
  forall i, i ∈ accounts ci -> exists cell k, idx !! i = Some cell /\
    key_of (cells c) cell = Some k /\ k ∈ pre_key <$> pre_accounts c.
Proof.
  unfold InvokeContext.verify_and_update, visit_each_account. intros H. inv_ok. to_prop.
  apply update_visit in Hr0 as (Hk & Hs & Hl). cbn [with_pre pre_accounts].
  split_and!; [done|lia|].
  intros i Hi. apply Hl, elem_of_unique_indices. split; [done|]. apply not_elem_of_nil.
Qed.

(** The cells of the callee's frame. *)
Lemma push_cells m ci pis idx c c' f :
  push m ci pis (Some idx) c = Ok c' -> invoke_stack c <> [] -> head (invoke_stack c') = Some f ->
  pre_accounts c' = pre_accounts c /\
  forall n ka, keyed_accounts f !! (number_of_program_accounts f + n)%nat = Some ka ->
    exists i, i ∈ accounts ci /\ idx !! i = Some (ka_cell ka) /\
      key_of (cells c) (ka_cell ka) = Some (ka_key ka) /\
      ka_is_signer ka = is_signer_index m i /\
      is_writable_index (E := InstructionError.t) m i (demote_program_write_locks features)
        = Ok (ka_is_writable ka).
Proof.
  unfold InvokeContext.push. intros H Hs Hf. inv_ok. cbn in Hf. simplify_eq. cbn.
  destruct (invoke_stack c) as [|f0 s0]; [done|]. inv_ok. split; [done|].
  intros n ka Hka. apply map_result_Ok in Hr2, Hr3.
  rewrite lookup_app_r, <- (Forall2_length _ _ _ Hr2) in Hka by (rewrite <- (Forall2_length _ _ _ Hr2); lia).
  replace (length pis + n - length pis)%nat with n in Hka by lia.
  destruct (Forall2_lookup_r _ _ _ _ _ Hr3 Hka) as (i & Hi & Hka').
  unfold instruction_keyed_account, cell_at in Hka'. inv_ok.
  exists i. cbn. split_and!; [by eapply list_elem_of_lookup_2|done| |done..].
  unfold key_of. match goal with E : cells c !! _ = Some _ |- _ => by rewrite E end.
Qed.

(** ** The ledger during an instruction

    [l0] holds the accounts when the instruction started, the first [n0] of them
    those of the message, and [u] the positions of the accounts of the
    instruction, whose addresses occur nowhere else among those of the message. *)
Section Ledger.
Context (l0 : loaded_accounts) (n0 : nat) (u : list nat).
Hypothesis u_distinct : forall i j k,
  i ∈ u -> (j < n0)%nat -> key_of l0 i = Some k -> key_of l0 j = Some k -> j = i.

(** The cells a frame may hold: accounts of the instruction, and cells behind
    those of the message. *)
Definition reachable (i : nat) : Prop := i ∈ u \/ (n0 <= i)%nat.

Record ledger_inv (c : InvokeContext) : Prop := {
  inv_started : invoke_stack c <> [];
  inv_keys : fst <$> cells c = fst <$> l0;
  inv_outside : forall i, ~ reachable i -> cells c !! i = l0 !! i;
  inv_snapshots : Some <$> (pre_key <$> pre_accounts c) = key_of l0 <$> u;
  inv_sum : snapshot_sum (pre_accounts c) = sum_at l0 u;
  inv_frames : Forall (fun f => forall n ka,
    keyed_accounts f !! (number_of_program_accounts f + n)%nat = Some ka ->
    reachable (ka_cell ka) /\ key_of l0 (ka_cell ka) = Some (ka_key ka)) (invoke_stack c);
}.

Lemma in_snapshot c cell k :
  ledger_inv c -> key_of (cells c) cell = Some k -> k ∈ pre_key <$> pre_accounts c -> reachable cell.
Proof.
  intros [_ Hkeys _ Hsnap _ _] Hk Hin. rewrite (key_of_inv l0) in Hk by done.
  assert (Some k ∈ key_of l0 <$> u) as Hu by (rewrite <- Hsnap; by apply list_elem_of_fmap_2).
  apply list_elem_of_fmap in Hu as (i & Hi & Hiu).
  destruct (decide (n0 <= cell)%nat) as [|Hlt]; [by right|left].
  rewrite (u_distinct i cell k); [done..|lia|done|done].
Qed.

Lemma ledger_inv_write c f n ka a :
  ledger_inv c -> head (invoke_stack c) = Some f ->
  keyed_accounts f !! (number_of_program_accounts f + n)%nat = Some ka ->
  ledger_inv (with_cells c (alter (fun x => (fst x, a)) (ka_cell ka) (cells c))).
Proof using Type.
  intros [Hst Hk Ho Hs Hsum Hf] Hhd Hka.
  assert (reachable (ka_cell ka)) as Hu.
  { destruct (invoke_stack c); [done|]. cbn in Hhd. simplify_eq.
    apply Forall_cons in Hf as [Hf _]. by eapply Hf. }
  split; cbn; try done.
  - rewrite <- Hk. apply list_eq. intros i. rewrite !list_lookup_fmap.
    rewrite list_lookup_alter. case_decide as E; [|done]. rewrite E. by destruct (cells c !! i).
  - intros i Hi. rewrite list_lookup_alter_ne by congruence. by apply Ho.
Qed.

Lemma ledger_inv_frame c c' :
  ledger_inv c -> invoke_stack c' <> [] -> cells c' = cells c ->
  pre_accounts c' = pre_accounts c ->
  Forall (fun f => exists f', f' ∈ invoke_stack c /\
    number_of_program_accounts f = number_of_program_accounts f' /\
    keyed_accounts f = keyed_accounts f') (invoke_stack c') ->
  ledger_inv c'.
Proof using Type.
  intros [Hst Hk Ho Hs Hsum Hf] Hst' Ec Ep Hframes. split; rewrite ?Ec, ?Ep; try done.
  eapply Forall_impl; [exact Hframes|]. intros f (f' & Hin & En & Ek) n ka.
  rewrite En, Ek. rewrite Forall_forall in Hf. by apply Hf.
Qed.

Lemma ledger_inv_update c ci idx ws c' :
  ledger_inv c -> verify_and_update ci idx ws c = Ok c' ->
  ledger_inv c' /\ forall i cell, i ∈ accounts ci -> idx !! i = Some cell -> reachable cell.
Proof.
  intros HI H. apply verify_and_update_frame in H as Hfr. apply verify_and_update_Ok in H as (Hk & Hs & Hl).
  destruct Hfr as [Est Ec]. split.
  - destruct HI as [Hst Hkeys Ho Hsn Hsum Hf]. split; rewrite ?Est, ?Ec, ?Hk, ?Hs; done.
  - intros i cell Hi Hcell. destruct (Hl i Hi) as (cell' & k & Hcell' & Hkey & Hin). simplify_eq.
    by eapply in_snapshot.
Qed.

Lemma ledger_inv_return c d c' : ledger_inv c -> set_return_data c d = Ok c' -> ledger_inv c'.
Proof using Type.
  intros HI H. apply set_return_data_frame in H as (Est & Ec & Ep).
  apply (ledger_inv_frame c); [done|rewrite Est; apply HI|done..|]. rewrite Est.
  apply Forall_forall. eauto.
Qed.

Lemma ledger_inv_remove c c' :
  ledger_inv c -> remove_first_keyed_account features c = Ok c' -> ledger_inv c'.
Proof using Type.
  unfold remove_first_keyed_account. intros HI H. repeat case_match; inv_ok; [done|].
  apply (ledger_inv_frame c); [done..|]. cbn.
  match goal with E : invoke_stack c = _ |- _ => rewrite E end. constructor.
  - eexists. split; [left|done].
  - apply Forall_forall. intros f Hf. exists f. split; [by right|done].
Qed.

Lemma ledger_inv_enter ix signers c m privs found ci c' :
  ledger_inv c -> entered ix signers c m privs found ci c' -> ledger_inv c'.
Proof.
  intros HI [_ _ _ (c1 & c2 & pis & H1 & H2 & H3)].
  destruct (ledger_inv_update _ _ _ _ _ HI H1) as [HI1 Hcells].
  apply verify_and_update_frame in H1 as [_ Ec1].
  pose proof (ledger_inv_return _ _ _ HI1 H2) as HI2.
  apply push_frame in H3 as Hfr. destruct Hfr as (_ & Ec3 & f & Est & _).
  destruct (push_cells _ _ _ _ _ _ f H3) as [Ep Hf]; [apply HI2|by rewrite Est|].
  destruct HI2 as [Hst Hk Ho Hs Hsum Hfs]. split; rewrite ?Est, ?Ec3, ?Ep; try done.
  constructor; [|done]. intros n ka Hka. destruct (Hf n ka Hka) as (i & Hi & Hidx & Hkey & _).
  split; [by eapply Hcells|]. by rewrite <- (key_of_inv l0 (cells c2)).
Qed.

Lemma ledger_inv_leave c ci idx ws c' :
  ledger_inv c -> (2 <= depth c)%nat -> verify_and_update ci idx ws c = Ok c' -> ledger_inv (pop c').
Proof.
  intros HI Hd H. pose proof (ledger_inv_update _ _ _ _ _ HI H) as [HI' _].
  apply verify_and_update_frame in H as [Est _].
  apply (ledger_inv_frame c'); [done| |done..|].
  - unfold depth in Hd. cbn. rewrite Est. destruct (invoke_stack c) as [|? []]; cbn in *; try lia. done.
  - cbn. apply Forall_forall. intros f Hf. exists f. split; [|done].
    destruct (invoke_stack c'); [done|]. by right.
Qed.
End Ledger.

(** ** An instruction of the message *)
Lemma take_snapshots c l : forall n pre pre',
  visit_from (take_snapshot c) n l pre = Ok pre' ->
  exists new, pre' = pre ++ new /\
    Forall2 (fun i x => cells c !! i = Some (pre_key x, pre_account x)) l new.
Proof.
  induction l as [|i l IH]; intros n pre pre' H; cbn in H; inv_ok.
  - exists []. by rewrite app_nil_r.
  - unfold take_snapshot in Hr. inv_ok. apply IH in H as (new & -> & Hnew).
    eexists (_ :: new). rewrite <- app_assoc. split; [done|]. by constructor.
Qed.

Lemma snapshots_of c l new :
  Forall2 (fun i x => cells c !! i = Some (pre_key x, pre_account x)) l new ->
  Some <$> (pre_key <$> new) = key_of (cells c) <$> l /\ snapshot_sum new = sum_at (cells c) l.
Proof.
  induction 1 as [|i x l new Hx _ [IH1 IH2]]; [done|]. rewrite !fmap_cons, <- IH1. split.
  - f_equal. unfold key_of. by rewrite Hx.
  - cbn [snapshot_sum sum_at foldr]. fold (snapshot_sum new) (sum_at (cells c) l).
    rewrite <- IH2. unfold lamports_at. by rewrite Hx.
Qed.

Lemma push_snapshots m ci pis c c' :
  push m ci pis None c = Ok c' -> invoke_stack c = [] ->
  let u := unique_indices [] (accounts ci) in
  Forall2 (fun i x => cells c !! i = Some (pre_key x, pre_account x)) u (pre_accounts c') /\
  (forall n0, ledger_inv (cells c) n0 u c') /\
  Forall (fun f => forall n ka,
    keyed_accounts f !! (number_of_program_accounts f + n)%nat = Some ka ->
    is_writable_index (E := InstructionError.t) m (ka_cell ka) (demote_program_write_locks features)
      = Ok (ka_is_writable ka)) (invoke_stack c').
Proof.
  unfold InvokeContext.push, visit_each_account. intros H Hs. cbn zeta.
  set (u := unique_indices [] (accounts ci)). rewrite Hs in H. inv_ok.
  apply take_snapshots in Hr1 as (new & -> & Hnew). cbn [app] in *. fold u in Hnew.
  destruct (snapshots_of _ _ _ Hnew) as [Hk Hsum]. apply map_result_Ok in Hr2, Hr3.
  match type of Hr2 with Forall2 _ _ ?l => rename l into ps end.
  match type of Hr3 with Forall2 _ _ ?l => rename l into kas end.
  assert (forall n ka, (ps ++ kas) !! (length pis + n)%nat = Some ka ->
    ka_cell ka ∈ u /\ key_of (cells c) (ka_cell ka) = Some (ka_key ka) /\
    is_writable_index (E := InstructionError.t) m (ka_cell ka) (demote_program_write_locks features)
      = Ok (ka_is_writable ka)) as Hka.
  { intros n ka Hka. rewrite (Forall2_length _ _ _ Hr2), lookup_app_r in Hka by lia.
    replace (length ps + n - length ps)%nat with n in Hka by lia.
    destruct (Forall2_lookup_r _ _ _ _ _ Hr3 Hka) as (i & Hi & Hka').
    unfold instruction_keyed_account, cell_at in Hka'. inv_ok. cbn. split_and!; [| |done].
    - apply elem_of_unique_indices. split; [by eapply list_elem_of_lookup_2|apply not_elem_of_nil].
    - unfold key_of. match goal with E : cells c !! _ = Some _ |- _ => by rewrite E end. }
  cbn [pre_accounts invoke_stack]. split; [done|]. split.
  - intros n0. split; try done. cbn. constructor; [|constructor]. cbn. intros n ka Hn.
    destruct (Hka n ka Hn) as (? & ? & _). by split; [left|].
  - constructor; [|constructor]. cbn. intros n ka Hn. by destruct (Hka n ka Hn) as (_ & _ & ?).
Qed.

Lemma verify_visit id m c l : forall n ps qs ps' qs',
  visit_from (verify_work features rent id m c) n l (ps, qs) = Ok (ps', qs') ->
  ps' = ps + snapshot_sum (take (length l) (drop n (pre_accounts c))) /\
  qs' = qs + sum_at (cells c) l /\
  forall j i, l !! j = Some i -> exists x w a k, pre_accounts c !! (n + j)%nat = Some x /\
    cells c !! i = Some (k, a) /\
    is_writable_index (E := InstructionError.t) m i (demote_program_write_locks features) = Ok w /\
    PreAccount.verify id w rent (do_support_realloc features) (pre_account x) a = Ok tt.
Proof.
  induction l as [|i l IH]; intros n ps qs ps' qs' H; cbn [visit_from] in H; inv_ok.
  - cbn [length]. rewrite take_0. cbn. split_and!; [lia..|]. by intros j i Hj.
  - destruct x as [ps1 qs1]. apply IH in H as (-> & -> & Hl).
    unfold verify_work, cell_at in Hr. inv_ok. inv_checked. subst. repeat match goal with x : unit |- _ => destruct x end.
    match goal with E : cells c !! i = Some _ |- _ => rename E into Ei end.
    match goal with E : pre_accounts c !! n = Some _ |- _ => rename E into En end.
    split_and!.
    + rewrite (drop_S _ _ _ En). cbn [length take snapshot_sum foldr].
      replace (n + 1)%nat with (S n) by lia. unfold snapshot_sum. lia.
    + cbn [sum_at foldr]. fold (sum_at (cells c) l). unfold lamports_at. rewrite Ei. lia.
    + intros [|j] i' Hj; cbn in Hj.
      * simplify_eq. rewrite Nat.add_0_r. eauto 9.
      * replace (n + S j)%nat with (n + 1 + j)%nat by lia. by apply Hl.
Qed.

(** ** Messages *)

Abbreviation execute_instruction := (execute_instruction decode_loader_state features rent
  max_invoke_depth programs native_loader).
Abbreviation execute_instructions := (execute_instructions decode_loader_state features rent
  max_invoke_depth programs native_loader).
Abbreviation process_message := (process_message decode_loader_state features rent
  max_invoke_depth programs native_loader).

Lemma disciplined_any p : disciplined (fun _ => True) p.
Proof. induction p; cbn; auto. Qed.

Lemma run_ledger l0 n0 u fuel p c c' :
  (forall i j k, i ∈ u -> (j < n0)%nat -> key_of l0 i = Some k -> key_of l0 j = Some k -> j = i) ->
  ledger_inv l0 n0 u c -> run fuel p c = Ok c' -> ledger_inv l0 n0 u c'.
Proof.
  intros Hu HI H.
  apply (run_preserves (ledger_inv l0 n0 u) (fun _ => True)) in H;
    [done| | | | | | |apply disciplined_any|done].
  - intros. by eapply ledger_inv_write.
  - intros. by eapply ledger_inv_remove.
  - intros. by eapply ledger_inv_return.
  - intros ix sg c0 m privs found ci c1 _ HI0 ?. by eapply ledger_inv_enter.
  - intros ix sg c0 m privs found ci c1 c2 ws c3 _ HI0 _ HI2 Hd _ Hv.
    refine (ledger_inv_leave l0 n0 u Hu c2 ci _ ws c3 HI2 _ Hv). rewrite Hd.
    destruct HI0 as [Hs _ _ _ _ _]. unfold depth. destruct (invoke_stack c0); [done|cbn; lia].
  - intros. apply disciplined_any.
Qed.

Lemma fix_sysvar_Ok n index l l' :
  fix_instructions_sysvar n index l = Ok l' ->
  fst <$> l' = fst <$> l /\ total_cells (take n l') = total_cells (take n l) /\
  forall i k a, l !! i = Some (k, a) -> k <> instructions_sysvar_id -> l' !! i = Some (k, a).
Proof.
  revert l l'. induction n as [|n IH]; intros [|[k a] l] l' H; cbn in H; inv_ok; try done.
  case_bool_decide; inv_ok.
  - unfold store_current_index in *. inv_ok. split_and!; [done..|].
    intros [|i] k' a' Hi Hne; cbn in *; [by simplify_eq|done].
  - match goal with E : fix_instructions_sysvar _ _ _ = Ok _ |- _ => apply IH in E as (Hk & Ht & Hi) end.
    rewrite !fmap_cons. split_and!; [by f_equal|cbn; unfold total_cells in *; lia|].
    intros [|i] k' a' Hl Hne; cbn in *; [done|by apply Hi].
Qed.

Lemma execute_instruction_steps m index ci pis c c' :
  execute_instruction m index ci pis c = Ok c' ->
  c' = c \/
  exists l c1 e n kas c2 id, instruction_program_id (E := InstructionError.t) ci (account_keys m) = Ok id /\
    fix_instructions_sysvar (length (account_keys m)) index (cells c) = Ok l /\
    push m ci pis None (with_cells c l) = Ok c1 /\ entry_of e /\
    run (max_invoke_depth + 1) (e n (ci_data ci) kas) c1 = Ok c2 /\
    (exists ps qs, visit_each_account (verify_work features rent id m c2) ci (0, 0) = Ok (ps, qs) /\
       ps = qs) /\ c' = pop c2.
Proof.
  unfold InvokeContext.execute_instruction. intros H. inv_ok. case_match; inv_ok; [by left|right].
  match goal with H : InvokeContext.process_instruction _ _ _ _ _ _ = Ok _ |- _ =>
    apply process_instruction_runs in H as (e & n & kas & He & H) end.
  match goal with H : InvokeContext.verify _ _ _ _ _ _ = Ok _ |- _ =>
    unfold InvokeContext.verify in H; inv_ok; to_prop end.
  eauto 20.
Qed.

(** What is left of the stack when an instruction of the message ends. *)
Lemma instruction_unwinds m ci pis c c1 p fuel c2 :
  push m ci pis None c = Ok c1 -> invoke_stack c = [] -> run fuel p c1 = Ok c2 ->
  invoke_stack (pop c2) = [].
Proof.
  intros H Hs Hr. apply push_frame in H as (_ & _ & f & Est & _). apply run_depth in Hr.
  unfold depth in Hr. rewrite Est, Hs in Hr. cbn. destruct (invoke_stack c2) as [|? []]; cbn in *; done.
Qed.

(** The checks at the end of an instruction of the message. *)
Lemma checked_instruction l0 n0 id m ci c ps qs :
  let u := unique_indices [] (accounts ci) in
  ledger_inv l0 n0 u c -> (forall i, i ∈ u -> (i < n0)%nat) ->
  visit_each_account (verify_work features rent id m c) ci (0, 0) = Ok (ps, qs) -> ps = qs ->
  total_cells (take n0 (cells c)) = total_cells (take n0 l0) /\
  forall j i, u !! j = Some i -> exists x w a k, pre_accounts c !! j = Some x /\
    cells c !! i = Some (k, a) /\
    is_writable_index (E := InstructionError.t) m i (demote_program_write_locks features) = Ok w /\
    PreAccount.verify id w rent (do_support_realloc features) (pre_account x) a = Ok tt.
Proof.
  intros u [_ Hk Ho Hsn Hsum _] Hn0 Hv Heq. apply verify_visit in Hv as (Hps & Hqs & Hl). fold u in Hps, Hqs, Hl.
  split; [|exact Hl].
  assert (length (pre_accounts c) = length u) as Hlen.
  { apply (f_equal length) in Hsn. by rewrite !length_fmap in Hsn. }
  rewrite drop_0, take_ge in Hps by lia.
  assert (length (cells c) = length l0) as Hlc.
  { apply (f_equal length) in Hk. by rewrite !length_fmap in Hk. }
  assert (forall l, sum_at (take n0 l) u = sum_at l u) as Htake.
  { intros l. unfold sum_at. clear -Hn0. induction u as [|i v IH]; [done|]. cbn.
    rewrite IH by (intros j Hj; apply Hn0; by right). f_equal. unfold lamports_at.
    rewrite lookup_take_lt; [done|]. apply Hn0. left. }
  enough (total_cells (take n0 (cells c)) - total_cells (take n0 l0) = 0) by lia.
  rewrite (cells_total_change (take n0 l0) (take n0 (cells c)) u); rewrite ?Htake; [lia| | | |].
  - rewrite !length_take. lia.
  - apply NoDup_unique_indices.
  - intros i Hi. specialize (Hn0 i Hi). apply list_elem_of_lookup in Hi as (j & Hj).
    destruct (Hl j i Hj) as (x & w & a & k & _ & Hc & _). apply lookup_lt_Some in Hc.
    rewrite length_take. lia.
  - intros i Hi. destruct (decide (i < n0)%nat).
    + rewrite !lookup_take_lt by done. apply Ho. intros [?|?]; [done|lia].
    + by rewrite !lookup_take_ge by lia.
Qed.

Lemma execute_instruction_conserves m index ci pis c c' :
  sanitize m = Ok tt -> has_duplicates m = false -> ci ∈ instructions m ->
  loaded_for m (cells c) -> invoke_stack c = [] ->
  execute_instruction m index ci pis c = Ok c' ->
  invoke_stack c' = [] /\ fst <$> cells c' = fst <$> cells c /\
  total_cells (table m (cells c')) = total_cells (table m (cells c)).
Proof.
  intros Hsan Hdup Hci Hload Hs H.
  apply execute_instruction_steps in H as
    [->|(l & c1 & e & n & kas & c2 & id & _ & Hfix & Hpush & _ & Hrun & (ps & qs & Hv & Heq) & ->)];
    [done|].
  apply fix_sysvar_Ok in Hfix as (Hkeys & Htot & _).
  destruct (push_snapshots _ _ _ _ _ Hpush Hs) as (_ & HI & _). cbn [cells with_cells] in HI.
  specialize (HI (length (account_keys m))). set (u := unique_indices [] (accounts ci)) in *.
  assert (forall i, i ∈ u -> (i < length (account_keys m))%nat) as Hlt
    by (intros i [Hi _]%elem_of_unique_indices; by eapply sanitize_indices).
  apply (run_ledger l (length (account_keys m)) u) in Hrun as HI2; [|clear HI|exact HI].
  - split; [by eapply instruction_unwinds|].
    destruct (checked_instruction _ _ _ _ _ _ _ _ HI2 Hlt Hv Heq) as [Ht _].
    destruct HI2 as [_ Hk _ _ _ _]. unfold table. cbn [pop with_stack cells]. split; congruence.
  - intros i j k Hi Hj. apply (loaded_distinct m); eauto using loaded_for_keys.
Qed.

(** A property of the loaded accounts that every instruction keeps. *)
Lemma process_message_preserves (P : loaded_accounts -> Prop) m program_indices l l' :
  (forall index ci pis c c', ci ∈ instructions m -> loaded_for m (cells c) -> invoke_stack c = [] ->
     P (cells c) -> execute_instruction m index ci pis c = Ok c' ->
     invoke_stack c' = [] /\ fst <$> cells c' = fst <$> cells c /\ P (cells c')) ->
  loaded_for m l -> P l -> process_message m program_indices l = Ok l' -> P l'.
Proof.
  intros Hstep Hload HP H. unfold InvokeContext.process_message in H. inv_ok.
  assert (forall todo idx c c', (forall ci pis, (ci, pis) ∈ todo -> ci ∈ instructions m) ->
    loaded_for m (cells c) -> invoke_stack c = [] -> P (cells c) ->
    execute_instructions m idx todo c = Ok c' -> P (cells c')) as Hall.
  { clear -Hstep. induction todo as [|[ci pis] todo IH]; intros idx c c' Hin Hload Hs HP H; cbn in H; inv_ok.
    { done. }
    eapply Hstep in Hr as (Hs' & Hk & HP'); [|by apply (Hin ci pis); left|done..].
    apply IH in H; [done| | |done..].
    - intros ci' pis' Hin'. apply (Hin ci' pis'). by right.
    - by eapply loaded_for_keys. }
  apply Hall in Hr; [done| |done..]. intros ci pis Hin%elem_of_zip_l. done.
Qed.

(** C5: Processing a sanitized message without duplicate addresses conserves
    the lamports of the accounts of the message, those that are stored
    afterwards, and keeps all addresses, whatever its programs do to the
    accounts of their instructions and whatever programs they invoke. What
    is loaded behind the accounts of the message (the programs a second
    time, and their loaders) is arbitrary. *)
Theorem message_lamports_conserved m program_indices l l' :
  sanitize m = Ok tt -> has_duplicates m = false -> loaded_for m l ->
  process_message m program_indices l = Ok l' ->
  total_cells (table m l') = total_cells (table m l) /\ fst <$> l' = fst <$> l.
Proof.
  intros Hsan Hdup Hload H.
  refine (process_message_preserves
    (fun l' => total_cells (table m l') = total_cells (table m l) /\ fst <$> l' = fst <$> l)
    _ _ _ _ _ Hload _ H); [|done].
  intros index ci pis c c' Hci Hl Hs [Ht Hk] He.
  apply execute_instruction_conserves in He as (Hs' & Hk' & Ht'); [|done..].
  split_and!; congruence.
Qed.

(** ** Read-only accounts *)

(** A read-only account passes the checks only as it was. *)
Lemma verify_readonly id r b pre post :
  PreAccount.verify id false r b pre post = Ok tt -> post = pre.
Proof.
  intros H. pose proof (PreAccount.verify_allowed _ _ _ _ _ _ _ H) as [_ _ _ Hro He].
  destruct Hro as (Ho & Hl & Hd); [by left|].
  assert (executable pre = executable post) as Hx.
  { unfold PreAccount.verify in H. inv_ok. to_prop.
    destruct (executable pre), (executable post); try done; cbn in *; inv_ok; done. }
  destruct pre, post; cbn in *. congruence.
Qed.

Lemma verify_snapshot_changes id k w a pre pre' n j :
  verify_snapshot features rent id k w a pre = Ok (pre', n) ->
  pre' !! j = pre !! j \/ w = true /\ exists x, pre !! j = Some x /\ pre_key x = k.
Proof.
  revert pre' j. induction pre as [|p pre IH]; intros pre' j H; cbn in H; [done|].
  case_bool_decide; inv_ok.
  - destruct j as [|j]; [|by left]. destruct w; [right; eauto|by left].
  - destruct j as [|j]; [by left|]. by eapply IH in Hr.
Qed.

Lemma update_visit_changes id idx ws c l j : forall n pre ps qs pre' ps' qs',
  visit_from (update_work features rent id idx ws c) n l (pre, ps, qs) = Ok (pre', ps', qs') ->
  pre' !! j = pre !! j \/
  exists i cell x, ws !! i = Some true /\ idx !! i = Some cell /\ pre !! j = Some x /\
    key_of (cells c) cell = Some (pre_key x).
Proof.
  induction l as [|i l IH]; intros n pre ps qs pre' ps' qs' H; cbn [visit_from] in H; inv_ok; [by left|].
  destruct x as [[pre1 ps1] qs1]. unfold update_work in Hr. repeat case_match; inv_ok.
  unfold cell_at in *. inv_ok.
  pose proof (verify_snapshot_Ok _ _ _ _ _ _ _ Hr1) as (Hk1 & _).
  apply (verify_snapshot_changes _ _ _ _ _ _ _ j) in Hr1 as [E1|(-> & x & Hx & <-)].
  - rewrite <- E1. by eapply IH.
  - right. eexists i, _, x. split_and!; [done..|]. unfold key_of. by rewrite Hr0.
Qed.

(** ** The privileges of an invoked program *)
Definition consistent_instruction (ix : Instruction) : Prop :=
  consistent (all_metas [ix] None) /\ (length (all_metas [ix] None) <= 255)%nat.

Lemma privileged_meta ix x :
  x ∈ all_metas [ix] None -> meta_is_signer x = true \/ meta_is_writable x = true ->
  x ∈ ix_accounts ix.
Proof.
  unfold all_metas. rewrite !elem_of_app. intros [Hx|[Hx|Hx]] Hp; [by apply not_elem_of_nil in Hx| |].
  - cbn in Hx. by rewrite app_nil_r in Hx.
  - unfold program_metas in Hx. apply list_elem_of_fmap in Hx as (? & -> & _). by destruct Hp.
Qed.

Lemma find_keyed_Ok k l ka : find_keyed k l = Ok ka -> ka ∈ l /\ ka_key ka = k.
Proof.
  unfold find_keyed. intros H. inv_ok. apply fmap_Some in H as ([i ka'] & H & ->).
  apply list_find_Some in H as (Hi & Hk & _). cbn. split; [by eapply list_elem_of_lookup_2|done].
Qed.

Lemma find_last_Ok k l : forall i j a, find_last i k l = Some (j, a) ->
  exists n, j = (i + n)%nat /\ l !! n = Some (k, a).
Proof.
  induction l as [|[k' b] l IH]; intros i j a H; cbn in H; [done|]. case_match.
  - simplify_eq. match goal with E : find_last _ _ _ = Some _ |- _ => apply IH in E as (n & -> & Hn) end.
    exists (S n). split; [lia|done].
  - case_bool_decide; simplify_eq. exists 0%nat. split; [lia|done].
Qed.

Lemma get_account_Ok c k j a : get_account c k = Some (j, a) -> cells c !! j = Some (k, a).
Proof. unfold get_account. intros (n & -> & Hn)%find_last_Ok. done. Qed.

(** An account of a meta that is writable, or signs, has a privileged account
    among the caller's. *)
Lemma create_message_Ok ix signers c m privs pis :
  create_message decode_loader_state ix signers c = Ok (m, privs, pis) ->
  exists caller callee, get_keyed_accounts c = Ok caller /\
    Message_new (E := InstructionError.t) [ix] None = Ok m /\ privs = ka_is_writable <$> callee /\
    Forall2 (fun k ka => ka ∈ caller /\ ka_key ka = k) (account_keys m) callee /\
    forall x, x ∈ ix_accounts ix -> exists ka, ka ∈ callee /\ ka_key ka = pubkey x /\
      (meta_is_writable x = true -> ka_is_writable ka = true) /\
      (meta_is_signer x = true -> ka_is_signer ka = true \/ pubkey x ∈ signers).
Proof.
  unfold create_message. intros H. inv_ok. eexists _, _. split_and!; [done..| |].
  - apply map_result_Ok in Hr1. eapply Forall2_impl; [exact Hr1|]. intros k ka. apply find_keyed_Ok.
  - intros y Hy. apply map_result_Ok in Hr2. apply list_elem_of_lookup in Hy as (j & Hj).
    destruct (Forall2_lookup_l _ _ _ _ _ Hr2 Hj) as (? & _ & Hc). unfold check_privilege in Hc. inv_ok.
    match goal with E : find_keyed (pubkey y) _ = Ok ?ka |- _ =>
      apply find_keyed_Ok in E as [Hin Hk]; exists ka end.
    split_and!; [done|done|intros E; rewrite E in *..]; cbn [andb] in *.
    + match goal with H : negb (ka_is_writable _) = false |- _ => by apply negb_false_iff in H end.
    + match goal with H : negb (_ || _) = false |- _ =>
        apply negb_false_iff, orb_true_iff in H as [H|H];
        [by left|right; by apply bool_decide_eq_true in H] end.
Qed.

(** The flags of the invoked program's frame come from its caller. *)
Lemma callee_writable ix signers c m privs pis i :
  consistent_instruction ix ->
  create_message decode_loader_state ix signers c = Ok (m, privs, pis) ->
  is_writable_index (E := InstructionError.t) m i (demote_program_write_locks features) = Ok true ->
  privs !! i = Some true.
Proof.
  intros [Hc Hl] Hm Hw.
  apply create_message_Ok in Hm as (caller & callee & _ & Hm & -> & Hcallee & Hmetas).
  assert (is_writable_position m i = true /\ exists k, account_keys m !! i = Some k) as [Hp (k & Hk)].
  { unfold is_writable_index, account_key in Hw. case_match; [|done]. inv_ok. eauto. }
  unfold Message_new in Hm. pose proof Hm as Hm'.
  destruct (compiled_header _ _ _ _ _ _ Hl Hc Hm Hk) as [_ Hpos].
  destruct (proj1 Hpos Hp) as (x & Hx & Hxk & Hxw). rewrite <- Hxk in Hk.
  assert (x ∈ ix_accounts ix) as Hin by (eapply privileged_meta; eauto).
  destruct (Hmetas x Hin) as (ka & Hka & Hkk & Hkw & _). apply list_elem_of_lookup in Hka as (j & Hj).
  destruct (Forall2_lookup_r _ _ _ _ _ Hcallee Hj) as (k' & Hkj & _ & Hk').
  rewrite Hkk in Hk'. subst k'.
  unfold Message_new_with_blockhash in Hm'. inv_ok. destruct (get_keys_table [ix] None) as (Hnd & _).
  assert (i = j) as -> by (by eapply (NoDup_lookup _ i j (pubkey x) Hnd)).
  rewrite list_lookup_fmap, Hj. cbn. by rewrite Hkw.
Qed.

Section Readonly.
Context (m : Message) (l0 : loaded_accounts) (u : list nat).
Abbreviation n0 := (length (account_keys m)).
Hypothesis table_loaded : loaded_for m l0.
Hypothesis no_duplicates : has_duplicates m = false.
Hypothesis u_small : forall i, i ∈ u -> (i < n0)%nat.

Lemma u_distinct i j k :
  i ∈ u -> (j < n0)%nat -> key_of l0 i = Some k -> key_of l0 j = Some k -> j = i.
Proof. intros Hi Hj. apply (loaded_distinct m); auto. Qed.

Definition writable (i : nat) : Prop :=
  is_writable_index (E := InstructionError.t) m i (demote_program_write_locks features) = Ok true.

(** The addresses the message loads to be written. *)
Definition writable_key (k : Pubkey) : Prop :=
  exists i, account_keys m !! i = Some k /\ writable i.

Lemma writable_key_at i k : i ∈ u -> key_of l0 i = Some k -> writable_key k -> writable i.
Proof.
  intros Hi Hk (j & Hj & Hw). pose proof (lookup_lt_Some _ _ _ Hj) as Hlt.
  rewrite <- (u_distinct i j k); [done..|]. by rewrite (loaded_key m).
Qed.

Definition frame_privileges (f : InvokeContextStackFrame) : Prop :=
  forall n ka, keyed_accounts f !! n = Some ka -> ka_is_writable ka = true ->
    (number_of_program_accounts f <= n)%nat /\ writable_key (ka_key ka).

(** Frames only hold write privileges of the message, and the snapshots of
    read-only accounts are as old as the instruction. *)
Record readonly_inv (c : InvokeContext) : Prop := {
  ro_ledger : ledger_inv l0 n0 u c;
  ro_frames : Forall frame_privileges (invoke_stack c);
  ro_snapshots : forall j i x, u !! j = Some i -> pre_accounts c !! j = Some x -> ~ writable i ->
    l0 !! i = Some (pre_key x, pre_account x);
}.

(** Updates go to writable accounts. *)
Lemma readonly_inv_update c ci idx ws c' :
  readonly_inv c -> verify_and_update ci idx ws c = Ok c' ->
  (forall i cell k, ws !! i = Some true -> idx !! i = Some cell -> key_of (cells c) cell = Some k ->
     writable_key k) ->
  readonly_inv c'.
Proof.
  intros [HI Hf Hs] H Hw. destruct (ledger_inv_update _ _ _ u_distinct _ _ _ _ _ HI H) as [HI' _].
  pose proof (verify_and_update_frame _ _ _ _ _ H) as [Est _].
  split; [done|by rewrite Est|]. intros j i x Hj Hx Hro.
  unfold InvokeContext.verify_and_update, visit_each_account in H. inv_ok. cbn in Hx.
  apply (update_visit_changes _ _ _ _ _ j) in Hr0 as [E|(i' & cell & x' & Hwi & Hidx & Hx' & Hk)];
    [rewrite E in Hx; by eapply Hs|].
  exfalso. apply Hro. apply (writable_key_at i (pre_key x')); [by eapply list_elem_of_lookup_2| |by eapply Hw].
  destruct HI as [_ _ _ Hsn _ _].
  apply (f_equal (fun l => l !! j)) in Hsn. rewrite !list_lookup_fmap, Hx', Hj in Hsn.
  cbn in Hsn. by simplify_eq.
Qed.

Lemma caller_writable ix signers c m' privs pis i k :
  readonly_inv c ->
  create_message decode_loader_state ix signers c = Ok (m', privs, pis) ->
  privs !! i = Some true -> account_keys m' !! i = Some k -> writable_key k.
Proof.
  intros [HI Hf _] Hm Hi Hk.
  apply create_message_Ok in Hm as (caller & callee & Hcaller & _ & -> & Hcallee & _).
  rewrite list_lookup_fmap in Hi. apply fmap_Some in Hi as (ka & Hka & Hw). symmetry in Hw.
  destruct (Forall2_lookup_lr _ _ _ _ _ _ Hcallee Hk Hka) as [Hin <-].
  unfold get_keyed_accounts in Hcaller. inv_ok.
  destruct (invoke_stack c) as [|f st] eqn:Est; [done|]. cbn in Hr. simplify_eq.
  apply list_elem_of_lookup in Hin as (n & Hn). rewrite lookup_drop in Hn.
  apply Forall_cons in Hf as [Hf _]. by destruct (Hf _ _ Hn Hw).
Qed.

(** The cells found for the accounts of the invoked message hold its addresses. *)
Lemma found_key c m' found i cell k :
  map_result (E := InstructionError.t)
    (fun k => ok_or (get_account c k) InstructionError.MissingAccount) (account_keys m') = Ok found ->
  (fst <$> found) !! i = Some cell -> key_of (cells c) cell = Some k -> account_keys m' !! i = Some k.
Proof.
  intros Hfound%map_result_Ok Hcell Hk. rewrite list_lookup_fmap in Hcell.
  apply fmap_Some in Hcell as ([cell' a] & Hfi & ->).
  destruct (Forall2_lookup_r _ _ _ _ _ Hfound Hfi) as (k' & Hk' & Hget). inv_ok.
  apply get_account_Ok in Hget. cbn in Hk. unfold key_of in Hk. rewrite Hget in Hk. cbn in Hk. by simplify_eq.
Qed.

Lemma push_programs m' ci pis idx c c' f n ka :
  push m' ci pis idx c = Ok c' -> head (invoke_stack c') = Some f ->
  keyed_accounts f !! n = Some ka -> ka_is_writable ka = true ->
  (number_of_program_accounts f <= n)%nat.
Proof.
  unfold InvokeContext.push. intros H Hf Hka Hw. inv_ok. cbn in Hf. simplify_eq. cbn in *.
  apply map_result_Ok in Hr2. destruct (decide (length pis <= n)%nat); [done|exfalso].
  rewrite lookup_app_l in Hka by (rewrite <- (Forall2_length _ _ _ Hr2); lia).
  destruct (Forall2_lookup_r _ _ _ _ _ Hr2 Hka) as (i & _ & Hi).
  unfold program_keyed_account in Hi. inv_ok. done.
Qed.

Lemma readonly_inv_enter ix signers c m' privs found ci c' :
  consistent_instruction ix -> readonly_inv c ->
  entered ix signers c m' privs found ci c' -> readonly_inv c'.
Proof.
  intros Hix HI Hent. pose proof Hent as [(pis0 & Hm) Hfound _ (c1 & c2 & pis & H1 & H2 & H3)].
  assert (readonly_inv c1) as HI1.
  { eapply readonly_inv_update; [exact HI|exact H1|]. intros i cell k Hi Hcell Hk.
    eapply caller_writable; [exact HI|exact Hm|exact Hi|by eapply found_key]. }
  apply verify_and_update_frame in H1 as [_ Ec1]. apply set_return_data_frame in H2 as (Est2 & Ec2 & Ep2).
  destruct HI1 as [HL1 Hf1 Hs1].
  pose proof (ledger_inv_enter _ _ _ u_distinct _ _ _ _ _ _ _ _ (ro_ledger _ HI) Hent) as HL.
  pose proof (push_frame _ _ _ _ _ _ H3) as (_ & _ & f & Est & _).
  destruct (push_cells _ _ _ _ _ _ f H3) as [Ep Hf]; [rewrite Est2; apply HL1|by rewrite Est|].
  split; [done| |].
  - rewrite Est, Est2. constructor; [|done]. intros n ka Hka Hw.
    pose proof (push_programs _ _ _ _ _ _ f n ka H3 ltac:(by rewrite Est) Hka Hw) as Hge.
    split; [done|]. replace n with
      (number_of_program_accounts f + (n - number_of_program_accounts f))%nat in Hka by lia.
    destruct (Hf _ _ Hka) as (i & _ & Hidx & Hkey & _ & Hwi). rewrite Hw in Hwi.
    rewrite Ec2, Ec1 in Hkey. eapply caller_writable; [exact HI|exact Hm|by eapply callee_writable|].
    by eapply found_key.
  - intros j i x Hj Hx Hro. rewrite Ep, Ep2 in Hx. by eapply Hs1.
Qed.

Lemma readonly_inv_leave ix signers c m' privs found ci c1 c2 ws c3 :
  consistent_instruction ix -> readonly_inv c -> entered ix signers c m' privs found ci c1 ->
  readonly_inv c2 -> depth c2 = S (depth c) ->
  map_result (E := InstructionError.t)
    (fun i => is_writable_index m' i (demote_program_write_locks features))
    (seq 0 (length (account_keys m'))) = Ok ws ->
  verify_and_update ci (fst <$> found) ws c2 = Ok c3 -> readonly_inv (pop c3).
Proof.
  intros Hix HI [(pis & Hm) Hfound _ _] HI2 Hd Hws H.
  assert (readonly_inv c3) as [HL Hf Hs].
  { eapply readonly_inv_update; [exact HI2|exact H|]. intros i cell k Hi Hcell Hk.
    assert (key_of (cells c) cell = Some k) as Hk'.
    { rewrite <- Hk, (key_of_inv l0 (cells c)), (key_of_inv l0 (cells c2)); [done|apply HI2|apply HI]. }
    eapply caller_writable; [exact HI|exact Hm| |by eapply found_key].
    eapply callee_writable; [exact Hix|exact Hm|]. apply map_result_Ok in Hws.
    destruct (Forall2_lookup_r _ _ _ _ _ Hws Hi) as (i' & Hi' & Hw). apply lookup_seq in Hi' as [-> _].
    exact Hw. }
  split; [|cbn; by destruct Hf|exact Hs].
  eapply ledger_inv_leave; [exact u_distinct|apply HI2| |exact H]. rewrite Hd.
  destruct (ro_ledger _ HI) as [Hst _ _ _ _ _]. unfold depth. destruct (invoke_stack c); [done|cbn; lia].
Qed.

Lemma run_readonly fuel p c c' :
  (forall e n d kas, entry_of e -> disciplined consistent_instruction (e n d kas)) ->
  disciplined consistent_instruction p -> readonly_inv c -> run fuel p c = Ok c' -> readonly_inv c'.
Proof.
  intros He Hp HI H.
  apply (run_preserves readonly_inv consistent_instruction) in H; [done| | | | | |exact He|done|done].
  - intros c0 f i ka a [HL Hf Hs] Hhd Hka. split; [by eapply ledger_inv_write|done..].
  - intros c0 c1 [HL Hf Hs] H1. pose proof (ledger_inv_remove _ _ _ _ _ HL H1) as HL1.
    unfold remove_first_keyed_account in H1. repeat case_match; inv_ok; [done|].
    split; [done| |done]. cbn.
    apply Forall_cons in Hf as [Hf0 Hf]. constructor; [|done]. exact Hf0.
  - intros c0 d c1 [HL Hf Hs] H1. pose proof (ledger_inv_return _ _ _ _ _ _ HL H1) as HL1.
    apply set_return_data_frame in H1 as (Est & _ & Ep). split; [done|by rewrite Est|by rewrite Ep].
  - intros ix sg c0 m' privs found ci c1 Hix HI0. by apply readonly_inv_enter.
  - intros ix sg c0 m' privs found ci c1 c2 ws c3 Hix HI0 Hent HI2 Hd Hws Hv.
    exact (readonly_inv_leave _ _ _ _ _ _ _ _ _ _ _ Hix HI0 Hent HI2 Hd Hws Hv).
Qed.
End Readonly.

Lemma execute_instruction_readonly m index ci pis c c' i k a :
  (forall e n d kas, entry_of e -> disciplined consistent_instruction (e n d kas)) ->
  sanitize m = Ok tt -> has_duplicates m = false -> ci ∈ instructions m ->
  loaded_for m (cells c) -> invoke_stack c = [] ->
  execute_instruction m index ci pis c = Ok c' ->
  cells c !! i = Some (k, a) -> (i < length (account_keys m))%nat -> ~ writable m i ->
  k <> instructions_sysvar_id -> cells c' !! i = Some (k, a).
Proof.
  intros Hent Hsan Hdup Hci Hload Hs H Hi Hlt Hro Hk.
  apply execute_instruction_steps in H as
    [->|(l & c1 & e & n & kas & c2 & id & _ & Hfix & Hpush & He & Hrun & (ps & qs & Hv & Heq) & ->)];
    [done|].
  apply fix_sysvar_Ok in Hfix as (Hkeys & _ & Hcell). apply Hcell in Hi; [clear Hcell|done].
  apply (loaded_for_keys _ _ _ Hkeys) in Hload as Hload'.
  destruct (push_snapshots _ _ _ _ _ Hpush Hs) as (Hsn & HL & Hw). cbn [cells with_cells] in *.
  set (u := unique_indices [] (accounts ci)) in *.
  assert (forall i, i ∈ u -> (i < length (account_keys m))%nat) as Hu
    by (intros i' [Hi' _]%elem_of_unique_indices; by eapply sanitize_indices).
  assert (readonly_inv m l u c1) as HI.
  { split; [done| |].
    - apply push_frame in Hpush as Hfr. destruct Hfr as (_ & _ & f & Est & _).
      cbn in Est. rewrite Hs in Est. specialize (HL (length (account_keys m))).
      pose proof (inv_frames _ _ _ _ HL) as Hfs. rewrite Est in Hw, Hfs |- *.
      apply Forall_cons in Hw as [Hw _], Hfs as [Hfs _]. apply Forall_singleton.
      intros n' ka Hka Hkw. assert (number_of_program_accounts f <= n')%nat as Hge.
      { eapply push_programs; [exact Hpush|by rewrite Est|done..]. }
      split; [done|]. replace n' with
        (number_of_program_accounts f + (n' - number_of_program_accounts f))%nat in Hka by lia.
      specialize (Hw _ _ Hka). rewrite Hkw in Hw. exists (ka_cell ka). split; [|exact Hw].
      assert (ka_cell ka < length (account_keys m))%nat as Hlt'.
      { unfold is_writable_index, account_key in Hw. case_match eqn:E; [|done]. inv_ok.
        by eapply lookup_lt_Some. }
      rewrite <- (loaded_key m l) by done. by apply (Hfs _ _ Hka).
    - intros j i' x Hj Hx _. destruct (Forall2_lookup_lr _ _ _ _ _ _ Hsn Hj Hx). done. }
  apply (run_readonly m l u Hload' Hdup Hu) in Hrun as HI2; [|done|by apply Hent|done].
  cbn [pop with_stack cells].
  destruct HI2 as [HL2 _ Hs2]. destruct (checked_instruction _ _ _ _ _ _ _ _ HL2 Hu Hv Heq) as [_ Hchk].
  destruct (decide (i ∈ u)) as [Hin|Hout];
    [|rewrite (inv_outside _ _ _ _ HL2); [done|intros [?|?]; [done|lia]]].
  apply list_elem_of_lookup in Hin as (j & Hj).
  destruct (Hchk j i Hj) as (x & w & b & k' & Hx & Hc & Hwi & Hver).
  pose proof (Hs2 j i x Hj Hx Hro) as Hx'. simplify_eq.
  destruct w; [done|]. apply verify_readonly in Hver as ->. rewrite Hc. f_equal. f_equal.
  destruct HL2 as [_ Hkeys2 _ _ _ _]. apply (f_equal (fun l => l !! i)) in Hkeys2.
  rewrite !list_lookup_fmap, Hc, Hi in Hkeys2. cbn in Hkeys2. by simplify_eq.
Qed.

(** C6: If the programs only invoke instructions that are compiled without
    promotions (an address that one account meta wants to sign and another
    to write has one that wants both; and there are at most 255 metas), an
    account of the message that it loads read-only is unchanged when the
    message has been processed (the instructions sysvar apart, which the
    runtime itself rewrites), whatever the programs do to the accounts of
    their instructions. What is loaded behind the accounts of the message
    (the programs a second time, and their loaders) is arbitrary. *)
Theorem readonly_accounts_kept m program_indices l l' i k a :
  (forall e n d kas, entry_of e -> disciplined consistent_instruction (e n d kas)) ->
  sanitize m = Ok tt -> has_duplicates m = false -> loaded_for m l ->
  process_message m program_indices l = Ok l' ->
  table m l !! i = Some (k, a) -> ~ writable m i -> k <> instructions_sysvar_id ->
  table m l' !! i = Some (k, a).
Proof.
  unfold table. intros Hent Hsan Hdup Hload H [Hi Hlt]%lookup_take_Some Hro Hk.
  apply lookup_take_Some. split; [|done].
  refine (process_message_preserves (fun l => l !! i = Some (k, a)) _ _ _ _ _ Hload Hi H).
  intros index ci pis c c' Hci Hl Hs HP He.
  pose proof (execute_instruction_conserves _ _ _ _ _ _ Hsan Hdup Hci Hl Hs He) as (? & ? & _).
  split_and!; [done..|]. by eapply execute_instruction_readonly.
Qed.

(** C26: A program gets no privilege by being invoked: an account that signs
    in the frame of the invoked program signed in its caller's frame, or
    the calling program signed for it; and, for an instruction compiled
    without promotions, an account it may write is one its caller may
    write. *)
Theorem invoked_privileges ix signers c m privs pis found ci c1 c2 f caller n ka :
  create_message decode_loader_state ix signers c = Ok (m, privs, pis) ->
  map_result (fun k => ok_or (get_account c k) InstructionError.MissingAccount)
    (account_keys m) = Ok found ->
  instructions m !! 0%nat = Some ci ->
  cells c1 = cells c -> invoke_stack c1 = invoke_stack c -> get_keyed_accounts c = Ok caller ->
  push m ci pis (Some (fst <$> found)) c1 = Ok c2 -> head (invoke_stack c2) = Some f ->
  keyed_accounts f !! (number_of_program_accounts f + n)%nat = Some ka ->
  (ka_is_signer ka = true ->
     ka_key ka ∈ signers \/
     exists ka0, ka0 ∈ caller /\ ka_key ka0 = ka_key ka /\ ka_is_signer ka0 = true) /\
  (consistent_instruction ix -> ka_is_writable ka = true ->
     exists ka0, ka0 ∈ caller /\ ka_key ka0 = ka_key ka /\ ka_is_writable ka0 = true).
Proof.
  intros Hm Hfound Hci Ec Est Hcaller Hpush Hf Hka.
  destruct (push_cells _ _ _ _ _ _ f Hpush) as [_ Hcells]; [|done|].
  { rewrite Est. intros E. unfold get_keyed_accounts in Hcaller. by rewrite E in Hcaller. }
  destruct (Hcells n ka Hka) as (i & Hi & Hidx & Hkey & Hsig & Hw). rewrite Ec in Hkey.
  pose proof Hm as Hm'.
  apply create_message_Ok in Hm' as (caller' & callee & Hcaller' & Hnew & -> & Hcallee & Hmetas).
  rewrite Hcaller in Hcaller'. inv_ok. apply map_result_Ok in Hfound.
  rewrite list_lookup_fmap in Hidx. apply fmap_Some in Hidx as ([cell a] & Hfi & Hcell). cbn in Hcell.
  destruct (Forall2_lookup_r _ _ _ _ _ Hfound Hfi) as (k & Hk & Hget). inv_ok.
  apply get_account_Ok in Hget. unfold key_of in Hkey. rewrite Hcell, Hget in Hkey. cbn in Hkey.
  simplify_eq. split.
  - intros Hs. rewrite Hs in Hsig. symmetry in Hsig.
    destruct (compiled_signers _ _ _ _ _ _ Hnew Hk Hsig) as (x & Hx & Hxk & Hxs).
    assert (x ∈ ix_accounts ix) as Hin by (eapply privileged_meta; eauto).
    destruct (Hmetas x Hin) as (ka0 & Hka0 & Hk0 & _ & Hsg). rewrite Hxk in *.
    destruct (Hsg Hxs) as [Hsg0|Hsg0]; [right|by left]. exists ka0.
    apply list_elem_of_lookup in Hka0 as (j & Hj).
    by destruct (Forall2_lookup_r _ _ _ _ _ Hcallee Hj) as (? & _ & ? & _).
  - intros Hix Hwr. rewrite Hwr in Hw. pose proof (callee_writable _ _ _ _ _ _ _ Hix Hm Hw) as Hp.
    rewrite list_lookup_fmap in Hp. apply fmap_Some in Hp as (ka0 & Hj & Hw0). exists ka0.
    destruct (Forall2_lookup_r _ _ _ _ _ Hcallee Hj) as (k' & Hk' & Hin & Hkk).
    rewrite Hk in Hk'. by simplify_eq.
Qed.

(** ** Promotions *)

(** An instruction that names [x] twice, as a read-only signer after the
    read-only signer [s], and as writable. *)
Definition promoting (id s x : Pubkey) (d : list Z) : Instruction :=
  {| program_id := id;
     ix_accounts := [{| pubkey := s; meta_is_signer := true; meta_is_writable := false |};
                     {| pubkey := x; meta_is_signer := true; meta_is_writable := false |};
                     {| pubkey := x; meta_is_signer := false; meta_is_writable := true |}];
     ix_data := d |}.
Definition promoted_message (id s x : Pubkey) (d : list Z) : Message :=
  {| header := Build_MessageHeader 2 1 1; account_keys := [s; x; id]; recent_blockhash := default_key;
     instructions := [{| program_id_index := 2; accounts := [0; 1; 1]%nat; ci_data := d |}] |}.

Lemma promoting_compiled id s x d :
  s <> x -> id <> s -> id <> x ->
  Message_new (E := InstructionError.t) [promoting id s x d] None = Ok (promoted_message id s x d).
Proof.
  intros Hsx Hps Hpx.
  assert (get_keys [promoting id s x d] None =
    {| signed_keys := [s; x]; unsigned_keys := [id]; ik_num_readonly_signed_accounts := 1;
       ik_num_readonly_unsigned_accounts := 1 |}) as E.
  { unfold get_keys, program_metas, get_program_ids. cbn -[bool_decide].
    repeat (first [rewrite (bool_decide_eq_true_2 (_ = _)) by done
                  |rewrite (bool_decide_eq_false_2 (_ = _)) by congruence
                  |rewrite (bool_decide_eq_false_2 (_ ∈ [])) by set_solver]; cbn -[bool_decide]).
    done. }
  unfold Message_new, Message_new_with_blockhash. rewrite E.
  unfold compile_instructions, compile_instruction, position. cbn -[decide].
  repeat (case_decide; cbn -[decide]); congruence || done.
Qed.

Lemma find_keyed_cons k ka l :
  find_keyed k (ka :: l) = if decide (ka_key ka = k) then Ok ka else find_keyed k l.
Proof.
  unfold find_keyed. cbn. case_decide; [done|]. by destruct (list_find _ l) as [[]|].
Qed.

(** C40: An invocation can hand over a write privilege its caller does not
    have. Whenever a program invokes an instruction that names a signer s
    as read-only, and after it another account x as a read-only signer and
    once more as writable, where the caller's s is a read-only signer and
    its x a writable signer, the privilege check passes; but in the
    message compiled for the invocation s is writable and x is not, so
    that the invoked program may write s, which its caller may only read.
    (s is no sysvar or built-in program, the invoked program is executable
    and not one of the upgradeable loader.) *)
Theorem promotion_shifts_write_access id s x d c caller ks kx kp j a :
  s <> x -> id <> s -> id <> x ->
  get_keyed_accounts c = Ok caller ->
  find_keyed s caller = Ok ks -> ka_is_signer ks = true -> ka_is_writable ks = false ->
  find_keyed x caller = Ok kx -> ka_is_signer kx = true -> ka_is_writable kx = true ->
  find_keyed id caller = Ok kp ->
  get_account c id = Some (j, a) -> executable a = true -> owner a <> bpf_loader_upgradeable_id ->
  is_sysvar_id s = false -> s ∉ BUILTIN_PROGRAMS_KEYS ->
  let m := promoted_message id s x d in
  create_message decode_loader_state (promoting id s x d) [] c
    = Ok (m, [false; true; ka_is_writable kp], [j]) /\
  is_writable_index (E := InstructionError.t) m 0 (demote_program_write_locks features) = Ok true /\
  is_writable_index (E := InstructionError.t) m 1 (demote_program_write_locks features) = Ok false /\
  forall pis idx c1 c2 f, push m {| program_id_index := 2; accounts := [0; 1; 1]%nat; ci_data := d |}
      pis (Some idx) c1 = Ok c2 -> head (invoke_stack c2) = Some f ->
    exists ka, keyed_accounts f !! number_of_program_accounts f = Some ka /\
      idx !! 0%nat = Some (ka_cell ka) /\ ka_is_writable ka = true.
Proof.
  clear rent programs native_loader. intros Hsx Hps Hpx Hcaller Hs Hss Hsw Hx Hxs Hxw Hp Ha Hexec Hown Hsys Hbuiltin m.
  assert (is_writable_index (E := InstructionError.t) m 0 (demote_program_write_locks features) = Ok true) as Hw.
  { unfold is_writable_index. cbn -[is_sysvar_id BUILTIN_PROGRAMS_KEYS bool_decide].
    rewrite Hsys, bool_decide_eq_false_2 by done. cbn. by rewrite ?andb_false_r. }
  pose proof (find_keyed_Ok _ _ _ Hs) as [_ Eks]. pose proof (find_keyed_Ok _ _ _ Hx) as [_ Ekx].
  pose proof (find_keyed_Ok _ _ _ Hp) as [_ Ekp].
  split_and!; [|done|done|].
  - unfold create_message. rewrite promoting_compiled by done. cbn [mbind result_bind]. rewrite Hcaller.
    cbn -[find_keyed check_privilege]. rewrite Hs, Hx, Hp. cbn -[find_keyed check_privilege].
    assert (forall y, y ∈ ix_accounts (promoting id s x d) ->
      check_privilege [ks; kx; kp] [] y = Ok tt) as Hall.
    { intros y Hy. cbn in Hy. rewrite !elem_of_cons, elem_of_nil in Hy. unfold check_privilege.
      destruct Hy as [->|[->|[->|[]]]]; cbn [pubkey]; rewrite !find_keyed_cons;
        repeat case_decide; try congruence; cbn; by rewrite ?Hss, ?Hsw, ?Hxs, ?Hxw. }
    rewrite !Hall by (cbn; set_solver). cbn -[find_keyed].
    rewrite !find_keyed_cons. repeat case_decide; try congruence. cbn. rewrite Ha. cbn.
    rewrite Hexec. cbn. unfold programdata_indices. rewrite bool_decide_eq_false_2 by done. cbn.
    by rewrite Hsw, Hxw.
  - intros pis idx c1 c2 f H Hf. unfold InvokeContext.push in H. inv_ok. cbn in Hf. simplify_eq. cbn.
    apply map_result_Ok in Hr2, Hr3. pose proof (Forall2_length _ _ _ Hr2) as ->.
    destruct (Forall2_lookup_l _ _ _ _ _ Hr3 (eq_refl : [0; 1; 1]%nat !! 0%nat = Some 0%nat)) as (ka & Hka & H').
    exists ka. rewrite lookup_app_r, Nat.sub_diag by done. split; [done|].
    unfold instruction_keyed_account in H'. rewrite Hw in H'. inv_ok. done.
Qed.
End Invoke.
