(* ===== verification/InvokeSample.v ===== *)
(** * Sample messages with invocations

    The theorems on the execution of messages applied to a message whose
    program invokes another one, and the run of a message in which the second
    program writes an account that the message only loads to be read. *)

From stdpp Require Import base gmap list fin_maps strings.
From Stdlib Require Import ZArith Lia.
From S2P Require Import Prelude Sdk Runtime KeyedAccount Message InvokeContext InvokeProofs.

Module InvokeSample.
Definition k (n : Z) : Pubkey := n :: replicate 31 6.
Definition account (own : Pubkey) (l : Z) (d : list Z) (x : bool) : Pubkey -> Pubkey * AccountSharedData :=
  fun key => (key, {| lamports := l; data := d; owner := own; executable := x; rent_epoch := 0 |}).

(** [k 1] signs and is writable, [k 2] signs and is read-only, [k 3] is
    writable; all belong to program [k 5], which program [k 4] invokes and which
    the message then calls itself.  Behind the table the accounts of the two
    programs are loaded again; the slot of [k 4] in the table, which is passed to
    no program, is left empty. *)
Definition loaded : loaded_accounts :=
  [account (k 5) 100 [1] false (k 1); account (k 5) 50 [7] false (k 2);
   account (k 5) 10 [] false (k 3); account default_key 0 [] false (k 4);
   account native_loader_id 1 [] true (k 5);
   account native_loader_id 1 [] true (k 4); account native_loader_id 1 [] true (k 5)].

Definition message : Message :=
  {| header := Build_MessageHeader 2 1 2; account_keys := [k 1; k 2; k 3; k 4; k 5];
     recent_blockhash := default_key;
     instructions := [{| program_id_index := 3; accounts := [1; 0; 2; 4]%nat; ci_data := [] |};
                      {| program_id_index := 4; accounts := [0; 2]%nat; ci_data := [0] |}] |}.

Definition meta (n : Z) (s w : bool) : AccountMeta :=
  {| pubkey := k n; meta_is_signer := s; meta_is_writable := w |}.
Definition ix (metas : list AccountMeta) (d : list Z) : Instruction :=
  {| program_id := k 5; ix_accounts := metas; ix_data := d |}.

(** The invoking program: one invocation. *)
Definition caller (i : Instruction) : entrypoint := fun _ _ _ => Invoke i [] (Return (Ok tt)).

Definition with_lamports (a : AccountSharedData) (l : Z) : AccountSharedData :=
  {| lamports := l; data := data a; owner := owner a; executable := executable a;
     rent_epoch := rent_epoch a |}.
Definition with_data (a : AccountSharedData) (d : list Z) : AccountSharedData :=
  {| lamports := lamports a; data := d; owner := owner a; executable := executable a;
     rent_epoch := rent_epoch a |}.

(** The invoked program: on data [\[0\]] it moves five lamports from its first to
    its second account, else it overwrites the data of its first account. *)
Definition callee : entrypoint := fun _ d _ =>
  Read 1 (fun a => Read 2 (fun b =>
    match a, b with
    | Some a, Some b =>
        if bool_decide (d = [0])
        then Write 0 (with_lamports a (lamports a - 5))
               (Write 1 (with_lamports b (lamports b + 5)) (Return (Ok tt)))
        else Write 0 (with_data a [8]) (Return (Ok tt))
    | _, _ => Return (Err InstructionError.NotEnoughAccountKeys)
    end)).

Definition features : FeatureSet :=
  {| demote_program_write_locks := true; do_support_realloc := false; remove_native_loader := true;
     prevent_calling_precompiles_as_programs := true; ed25519_program_enabled := true |}.
Definition programs (i : Instruction) : list (Pubkey * entrypoint) :=
  [(k 4, caller i); (k 5, callee)].
Definition no_loader : entrypoint := fun _ _ _ => Return (Err InstructionError.UnsupportedProgramId).
Abbreviation processed i :=
  (process_message (fun _ => None) features Rent_default 4 (programs i) no_loader message
     [[5]; [6]]%nat loaded).

Definition pay : Instruction := ix [meta 1 true true; meta 3 false true] [0].
Definition after_pay : loaded_accounts := value_or [] (processed pay).

Lemma paid : processed pay = Ok after_pay /\ lamports_at after_pay 2 = 20.
Proof. split; [apply is_ok_value|]; vm_compute; reflexivity. Qed.

Lemma loaded_for_message : loaded_for message loaded.
Proof. vm_compute. reflexivity. Qed.

Lemma message_lamports_conserved_witness :
  total_cells (table message after_pay) = total_cells (table message loaded).
Proof.
  refine (proj1 (message_lamports_conserved _ _ _ _ _ _ message [[5]; [6]]%nat loaded after_pay _ _
    loaded_for_message (proj1 paid))); vm_compute; reflexivity.
Defined.

Lemma pay_consistent : consistent_instruction pay.
Proof.
  split; [|vm_compute; lia].
  assert (all_metas [pay] None = [meta 1 true true; meta 3 false true; meta 5 false false]) as ->
    by (vm_compute; reflexivity).
  intros x y Hx Hy Hk Hs Hw. rewrite !elem_of_cons in Hx, Hy.
  destruct Hx as [->|[->|[->|Hx%not_elem_of_nil]]]; try done.
  exists (meta 1 true true). by split_and!; [left|..].
Qed.

Lemma pay_disciplined e n d kas :
  entry_of (programs pay) no_loader e -> disciplined consistent_instruction (e n d kas).
Proof.
  unfold entry_of. cbn. rewrite !elem_of_cons. intros [[->|[->|H%not_elem_of_nil]]| ->]; try done.
  - cbn. split; [apply pay_consistent|done].
  - cbn. intros [a|] [b|]; try done. by case_bool_decide.
Qed.

Lemma readonly_accounts_kept_witness :
  table message after_pay !! 1%nat = table message loaded !! 1%nat.
Proof.
  refine (readonly_accounts_kept (fun _ => None) features Rent_default 4 (programs pay) no_loader message
    [[5]; [6]]%nat loaded after_pay 1 (k 2) _ pay_disciplined _ _ loaded_for_message (proj1 paid) _ _ _);
    [vm_compute; reflexivity..| |]; vm_compute; discriminate.
Defined.

(** The state in which the invoking program starts. *)
Definition empty : InvokeContext :=
  {| invoke_stack := []; pre_accounts := []; cells := loaded; return_data := (default_key, []) |}.
Definition ci : CompiledInstruction :=
  {| program_id_index := 3; accounts := [1; 0; 2; 4]%nat; ci_data := [] |}.
Definition started : InvokeContext := value_or empty (push features 4 message ci [5%nat] None empty).

Abbreviation run fuel :=
  (run (fun _ => None) features Rent_default 4 (programs pay) no_loader fuel).

Lemma invocations_bounded_witness :
  run 9 (caller pay 1%nat [] []) started = run 5 (caller pay 1%nat [] []) started.
Proof.
  apply (invocations_bounded (fun _ => None) features Rent_default 4 (programs pay) no_loader 9);
    [vm_compute; discriminate|lia].
Defined.

(** The message of the invocation, and the state in which it starts. *)
Definition created : Message * list bool * list nat :=
  value_or (message, [], []) (create_message (fun _ => None) pay [] started).
Definition invoked_message : Message := fst (fst created).
Definition found : list (nat * AccountSharedData) :=
  value_or [] (map_result (fun k => ok_or (get_account started k) InstructionError.MissingAccount)
                 (account_keys invoked_message)).
Definition invoked_ci : CompiledInstruction :=
  {| program_id_index := 2; accounts := [0; 1]%nat; ci_data := [0] |}.
Definition inner : InvokeContext :=
  value_or empty (push features 4 invoked_message invoked_ci (snd created) (Some (fst <$> found)) started).
Definition inner_frame : InvokeContextStackFrame :=
  {| number_of_program_accounts := 1;
     keyed_accounts :=
       [{| ka_is_signer := false; ka_is_writable := false; ka_key := k 5; ka_cell := 6 |};
        {| ka_is_signer := true; ka_is_writable := true; ka_key := k 1; ka_cell := 0 |};
        {| ka_is_signer := false; ka_is_writable := true; ka_key := k 3; ka_cell := 2 |}];
     range_start := 0 |}.
Definition outer_accounts : list KeyedAccount :=
  value_or [] (get_keyed_accounts started).

Lemma invoked_privileges_witness :
  exists ka0, ka0 ∈ outer_accounts /\ ka_key ka0 = k 3 /\ ka_is_writable ka0 = true.
Proof.
  refine (proj2 (invoked_privileges (fun _ => None) features 4 pay [] started invoked_message
    (snd (fst created)) (snd created) found invoked_ci started inner inner_frame outer_accounts 1
    {| ka_is_signer := false; ka_is_writable := true; ka_key := k 3; ka_cell := 2 |}
    _ _ _ _ _ _ _ _ _) pay_consistent _); vm_compute; reflexivity.
Defined.

(** Names [k 1] twice. *)
Definition swapped : Instruction := promoting (k 5) (k 2) (k 1) [1].
Definition after_swapped : loaded_accounts := value_or [] (processed swapped).

(** The invoking program [k 4] holds [k 2] read-only and [k 1] writable; with
    this invocation the message is processed, and the account [k 2] that it
    loads read-only has changed. *)
Lemma promotion_shifts_write_access_witness :
  create_message (fun _ => None) swapped [] started
    = Ok (promoted_message (k 5) (k 2) (k 1) [1], [false; true; false], [6%nat]) /\
  is_writable_index (E := InstructionError.t) (promoted_message (k 5) (k 2) (k 1) [1]) 0 true = Ok true /\
  processed swapped = Ok after_swapped /\
  is_writable_index (E := InstructionError.t) message 1 true = Ok false /\
  (data ∘ snd <$> loaded !! 1%nat) = Some [7] /\
  (data ∘ snd <$> after_swapped !! 1%nat) = Some [8].
Proof.
  destruct (promotion_shifts_write_access (fun _ => None) features 4 (k 5) (k 2) (k 1) [1] started outer_accounts
    {| ka_is_signer := true; ka_is_writable := false; ka_key := k 2; ka_cell := 1 |}
    {| ka_is_signer := true; ka_is_writable := true; ka_key := k 1; ka_cell := 0 |}
    {| ka_is_signer := false; ka_is_writable := false; ka_key := k 5; ka_cell := 4 |}
    6 (snd (account native_loader_id 1 [] true (k 5)))) as (H1 & H2 & _);
    [vm_compute; (reflexivity || discriminate)..| |].
  - apply (bool_decide_unpack _). vm_compute. exact I.
  - split; [exact H1|]. split; [exact H2|]. split; [apply is_ok_value; vm_compute; reflexivity|].
    split_and!; vm_compute; reflexivity.
Defined.
End InvokeSample.
