(* ===== verification/InvokeLedger.v ===== *)
(** * The runtime implements the account rules

    [Runtime.verify_instruction] states the runtime's checks on an instruction
    over the ledger before and after it, which is what the theorems about the
    programs assume of the runtime.  Here the execution of an instruction by
    [InvokeContext] is shown to refine it, for programs that invoke no others. *)

From stdpp Require Import base gmap list fin_maps strings.
From Stdlib Require Import ZArith Lia.
From S2P Require Import Prelude Sdk Runtime KeyedAccount Message InvokeContext InvokeProofs InvokeSample.

(** The ledger that loaded accounts stand for. *)
Definition store_of (l : loaded_accounts) : store := list_to_map l.

Lemma acct_store_of l i k a :
  l !! i = Some (k, a) -> (forall j, key_of l j = Some k -> j = i) -> acct (store_of l) k = a.
Proof.
  unfold acct, store_of. revert i. induction l as [|[k' b] l IH]; intros [|i] Hi Hu; cbn in Hi; simplify_eq.
  - cbn. by rewrite lookup_insert_eq.
  - cbn. destruct (decide (k' = k)) as [->|Hne]; [by specialize (Hu 0%nat eq_refl)|].
    rewrite lookup_insert_ne by done. apply (IH i); [done|]. intros j Hj.
    specialize (Hu (S j) Hj). lia.
Qed.

Lemma acct_store_of_ext l l' k :
  fst <$> l' = fst <$> l -> (forall i a, l !! i = Some (k, a) -> l' !! i = Some (k, a)) ->
  acct (store_of l') k = acct (store_of l) k.
Proof.
  unfold acct, store_of. revert l'. induction l as [|[j a] l IH]; intros [|[j' a'] l'] Hk Hl; try done.
  cbn in Hk. injection Hk as -> Hk. cbn. destruct (decide (j = k)) as [->|Hne].
  - specialize (Hl 0%nat a eq_refl). cbn in Hl. simplify_eq. by rewrite !lookup_insert_eq.
  - rewrite !lookup_insert_ne by done. apply IH; [done|]. intros i b Hi. by apply (Hl (S i)).
Qed.

Section Refines.
Context (decode_loader_state : list Z -> option UpgradeableLoaderState.t).
Context (features : FeatureSet) (rent : Rent) (max_invoke_depth : nat).
Context (programs : list (Pubkey * entrypoint)) (native_loader : entrypoint).

Definition info_of (m : Message) (l : loaded_accounts) (i : nat) : AccountInfo :=
  {| key := default default_key (key_of l i);
     is_signer := is_signer_index m i;
     is_writable := value_or false (is_writable_index (E := InstructionError.t) m i
                      (demote_program_write_locks features)) |}.

Lemma unique_infos m l seen idx :
  (forall i j, i ∈ seen ++ idx -> j ∈ seen ++ idx -> key (info_of m l i) = key (info_of m l j) -> i = j) ->
  unique_accounts ((fun i => key (info_of m l i)) <$> seen) (info_of m l <$> idx)
  = info_of m l <$> unique_indices seen idx.
Proof.
  revert seen. induction idx as [|i idx IH]; intros seen Hinj; [done|].
  rewrite fmap_cons. cbn [unique_accounts unique_indices].
  destruct (decide (i ∈ seen)) as [Hi|Hi].
  - rewrite !bool_decide_eq_true_2 by (done || exact (list_elem_of_fmap_2 (fun i => key (info_of m l i)) seen i Hi)).
    apply IH. intros a b Ha Hb. apply Hinj; rewrite elem_of_app, ?elem_of_cons in *; tauto.
  - rewrite !bool_decide_eq_false_2; [|done|].
    + rewrite fmap_cons. f_equal. apply (IH (i :: seen)). intros a b Ha Hb.
      apply Hinj; rewrite elem_of_app, ?elem_of_cons in *; cbn in *; rewrite ?elem_of_cons, ?elem_of_app in *; tauto.
    + intros (j & Hj & Hin)%list_elem_of_fmap. apply Hi. replace i with j; [done|]. symmetry.
      apply Hinj; [rewrite elem_of_app, elem_of_cons; tauto..|done].
Qed.

(** A program that invokes nothing leaves the snapshots alone. *)
Lemma run_snapshots fuel p c c' :
  (forall e n d kas, entry_of programs native_loader e -> disciplined (fun _ => False) (e n d kas)) ->
  disciplined (fun _ => False) p ->
  run decode_loader_state features rent max_invoke_depth programs native_loader fuel p c = Ok c' ->
  pre_accounts c' = pre_accounts c.
Proof.
  intros He Hp H.
  apply (run_preserves decode_loader_state features rent max_invoke_depth programs native_loader
    (fun c1 => pre_accounts c1 = pre_accounts c) (fun _ => False)) in H; try done.
  - intros c0 c1 E H0. unfold remove_first_keyed_account in H0. repeat case_match; by inv_ok.
  - intros c0 d c1 E (_ & _ & E')%set_return_data_frame. congruence.
Qed.

Lemma visit_refines id m l pre post c u : forall n ps qs ps' qs',
  (forall j i, u !! j = Some i -> exists x k a, pre_accounts c !! (n + j)%nat = Some x /\
     l !! i = Some (k, pre_account x) /\ cells c !! i = Some (k, a) /\
     acct pre k = pre_account x /\ acct post k = a) ->
  visit_from (verify_work features rent id m c) n u (ps, qs) = Ok (ps', qs') ->
  visit_accounts id rent (do_support_realloc features) pre post (ps, qs)
    (info_of m l <$> u) = Ok (ps', qs').
Proof.
  induction u as [|i u IH]; intros n ps qs ps' qs' Hu H; cbn [visit_from] in H; [done|].
  inv_ok. destruct x as [ps1 qs1]. destruct (Hu 0%nat i eq_refl) as (x & k & a & Hx & Hl & Hc & Hpre & Hpost).
  rewrite Nat.add_0_r in Hx. unfold verify_work, cell_at in Hr. rewrite Hc, Hx in Hr.
  cbn [unwrap mbind result_bind] in Hr. rewrite fmap_cons. cbn [visit_accounts].
  assert (key (info_of m l i) = k) as Hk by (cbn; unfold key_of; by rewrite Hl).
  unfold account_work. rewrite Hk, Hpre, Hpost.
  apply bind_Ok in Hr as (w & Hw & Hr). cbn [is_writable info_of]. rewrite Hw. cbn [value_or].
  apply bind_Ok in Hr as ([] & Hv & Hr). rewrite Hv. cbn [mbind result_bind].
  apply bind_Ok in Hr as (z1 & Hz1 & Hr). rewrite Hz1. cbn [mbind result_bind].
  apply bind_Ok in Hr as (z2 & Hz2 & Hr). rewrite Hz2. cbn [mbind result_bind]. inv_ok.
  apply (IH (n + 1)%nat); [|done]. intros j i' Hj. destruct (Hu (S j) i' Hj) as (x' & H').
  exists x'. by replace (n + 1 + j)%nat with (n + S j)%nat by lia.
Qed.

(** The accounts of the message, as entries of the ledger. *)
Lemma acct_table m l i k a :
  loaded_for m l -> has_duplicates m = false -> (i < length (account_keys m))%nat ->
  l !! i = Some (k, a) -> acct (store_of (table m l)) k = a.
Proof.
  intros Hl Hd Hi Ha. apply (acct_store_of _ i); [by apply lookup_take_Some|]. intros j Hj.
  unfold table, key_of in Hj. apply fmap_Some in Hj as ([k' b] & [Hj Hlt]%lookup_take_Some & ->).
  apply (loaded_distinct m l i j k'); try done; unfold key_of; by rewrite ?Ha, ?Hj.
Qed.

(** C27: The execution of an instruction by programs that invoke no others
    refines the account rules: the accounts of the message before it (once
    the runtime has recorded the index of the instruction) and after it
    pass the runtime's checks for the program of the instruction, and none
    but those the instruction names has changed, for sanitized messages
    without duplicate addresses. What is loaded behind the accounts of the
    message (the programs a second time, and their loaders) is arbitrary. *)
Theorem instruction_refines_rules m index ci pis c c' :
  (forall e n d kas, entry_of programs native_loader e -> disciplined (fun _ => False) (e n d kas)) ->
  sanitize m = Ok tt -> has_duplicates m = false -> ci ∈ instructions m ->
  loaded_for m (cells c) -> invoke_stack c = [] ->
  execute_instruction decode_loader_state features rent max_invoke_depth programs native_loader
    m index ci pis c = Ok c' ->
  let infos := info_of m (cells c) <$> accounts ci in
  let ledger l := store_of (table m l) in
  c' = c \/
  exists id l, instruction_program_id (E := InstructionError.t) ci (account_keys m) = Ok id /\
    fix_instructions_sysvar (length (account_keys m)) index (cells c) = Ok l /\
    verify_instruction id rent (do_support_realloc features) infos (ledger l) (ledger (cells c'))
      = Ok tt /\
    untouched_outside infos (ledger l) (ledger (cells c')).
Proof.
  intros Hent Hsan Hdup Hci Hload Hs H infos ledger.
  apply execute_instruction_steps in H as
    [->|(l & c1 & e & n & kas & c2 & id & Hid & Hfix & Hpush & He & Hrun & (ps & qs & Hv & Heq) & ->)];
    [by left|right]. exists id, l. split; [done|]. split; [done|].
  apply fix_sysvar_Ok in Hfix as (Hkeys & _). apply (loaded_for_keys _ _ _ Hkeys) in Hload as Hload'.
  assert (infos = info_of m l <$> accounts ci) as ->.
  { unfold infos, info_of, key_of. apply list_fmap_ext. intros _ i _.
    by rewrite <- !list_lookup_fmap, Hkeys. }
  destruct (push_snapshots _ _ _ _ _ _ _ Hpush Hs) as (Hsn & HL & _). cbn [cells with_cells] in *.
  set (u := unique_indices [] (accounts ci)) in *.
  assert (forall i, i ∈ u -> (i < length (account_keys m))%nat) as Hlt.
  { intros i [Hi _]%elem_of_unique_indices. by eapply sanitize_indices. }
  assert (pre_accounts c2 = pre_accounts c1) as Epre by (eapply run_snapshots; eauto).
  specialize (HL (length (account_keys m))).
  eapply run_ledger in Hrun as HL2; [|intros i j k Hi Hj; apply (loaded_distinct m); eauto|exact HL].
  cbn [pop with_stack cells]. assert (fst <$> cells c2 = fst <$> l) as Hk2 by apply HL2.
  apply (loaded_for_keys _ _ _ Hk2) in Hload' as Hload2.
  assert (forall j i, u !! j = Some i -> exists x k a, pre_accounts c2 !! (0 + j)%nat = Some x /\
     l !! i = Some (k, pre_account x) /\ cells c2 !! i = Some (k, a) /\
     acct (ledger l) k = pre_account x /\ acct (ledger (cells c2)) k = a) as Hcells.
  { intros j i Hj. rewrite Epre. destruct (Forall2_lookup_l _ _ _ _ _ Hsn Hj) as (x & Hx & Hl).
    assert (key_of l i = Some (pre_key x)) as Hki by (unfold key_of; by rewrite Hl).
    rewrite <- (key_of_inv l (cells c2) i Hk2) in Hki. unfold key_of in Hki.
    apply fmap_Some in Hki as ([k a] & Hc & Hk). cbn in Hk. subst k.
    assert (i < length (account_keys m))%nat by (by eapply Hlt, list_elem_of_lookup_2).
    exists x, (pre_key x), a. split_and!; try done; by eapply acct_table. }
  unfold visit_each_account in Hv. fold u in Hv.
  apply (visit_refines id m l (ledger l) (ledger (cells c2)) c2 u 0) in Hv; [|exact Hcells]. split.
  - unfold verify_instruction. rewrite (unique_infos m l []).
    + fold u. rewrite Hv. cbn. by rewrite Heq, Z.eqb_refl.
    + cbn [app]. intros i j Hi Hj. cbn.
      apply (sanitize_indices _ _ _ Hsan Hci) in Hi, Hj. rewrite !(loaded_key m) by done.
      destruct (lookup_lt_is_Some_2 _ _ Hi) as [ki Hki], (lookup_lt_is_Some_2 _ _ Hj) as [kj Hkj].
      rewrite Hki, Hkj. cbn. intros <-. apply (loaded_distinct m l j i ki); try done; by rewrite (loaded_key m).
  - intros k Hk. apply acct_store_of_ext; [unfold table; by rewrite !fmap_take, Hk2|]. intros i a Hi.
    unfold table in *. apply lookup_take_Some in Hi as [Hi Hlti]. apply lookup_take_Some. split; [|done].
    rewrite (inv_outside _ _ _ _ HL2); [done|]. intros [Hiu|?]; [|lia]. apply Hk.
    apply elem_of_unique_indices in Hiu as [Hiu _]. rewrite <- list_fmap_compose.
    apply list_elem_of_fmap. exists i. split; [|done]. cbn. unfold key_of. by rewrite Hi.
Qed.
End Refines.

(** ** A payment by one program *)
Module LedgerSample.
Import InvokeSample.
Definition payment : CompiledInstruction :=
  {| program_id_index := 4; accounts := [0; 2]%nat; ci_data := [0] |}.
Definition payment_message : Message :=
  {| header := header message; account_keys := account_keys message;
     recent_blockhash := default_key; instructions := [payment] |}.
Definition paid : InvokeContext :=
  value_or empty (execute_instruction (fun _ => None) features Rent_default 4 [(k 5, callee)] no_loader
    payment_message 0 payment [6%nat] empty).

Lemma callee_invokes_nothing e n d kas :
  entry_of [(k 5, callee)] no_loader e -> disciplined (fun _ => False) (e n d kas).
Proof.
  unfold entry_of. cbn. rewrite elem_of_cons. intros [[->|H%not_elem_of_nil]| ->]; try done.
  cbn. intros [a|] [b|]; try done. by case_bool_decide.
Qed.

Lemma instruction_refines_rules_witness :
  let infos := info_of features payment_message (cells empty) <$> accounts payment in
  paid = empty \/
  exists id l,
    instruction_program_id (E := InstructionError.t) payment (account_keys payment_message) = Ok id /\
    fix_instructions_sysvar (length (account_keys payment_message)) 0 (cells empty) = Ok l /\
    verify_instruction id Rent_default false infos (store_of (table payment_message l))
      (store_of (table payment_message (cells paid))) = Ok tt /\
    untouched_outside infos (store_of (table payment_message l))
      (store_of (table payment_message (cells paid))).
Proof.
  refine (instruction_refines_rules (fun _ => None) features Rent_default 4 [(k 5, callee)] no_loader
    payment_message 0 payment [6%nat] empty paid callee_invokes_nothing _ _ _ _ _ _).
  - vm_compute. reflexivity.
  - vm_compute. reflexivity.
  - left.
  - exact loaded_for_message.
  - reflexivity.
  - apply is_ok_value. vm_compute. reflexivity.
Defined.
End LedgerSample.
