(* ===== verification/Codec.v ===== *)
(** * A self-delimiting codec

    The programs serialize their states with [bincode], which is not in the
    repository; the theorems are stated for any encoder and decoder with the
    law below.  This file builds such pairs from combinators over lists of
    cells, so that the theorems can be applied to concrete states. *)

From stdpp Require Import base list.
From Stdlib Require Import ZArith Lia.
From S2P Require Import Prelude Sdk.

Record codec (A : Type) := {
  enc : A -> list Z;
  dec : list Z -> option (A * list Z);
  law : forall a rest, dec (enc a ++ rest) = Some (a, rest);
}.
Arguments enc {A}. Arguments dec {A}. Arguments law {A}.

Definition c_Z : codec Z.
Proof.
  refine {| enc z := [z];
            dec l := match l with z :: r => Some (z, r) | [] => None end |}.
  done.
Defined.

Definition c_iso {A B} (c : codec A) (f : B -> A) (g : A -> B) (Hfg : forall b, g (f b) = b)
  : codec B.
Proof.
  refine {| enc b := enc c (f b);
            dec l := '(a, r) ← dec c l; Some (g a, r) |}.
  intros b rest. rewrite law. cbn. by rewrite Hfg.
Defined.

Definition c_pair {A B} (c : codec A) (d : codec B) : codec (A * B).
Proof.
  refine {| enc p := enc c (fst p) ++ enc d (snd p);
            dec l := '(a, r) ← dec c l; '(b, r) ← dec d r; Some ((a, b), r) |}.
  intros [a b] rest. cbn. rewrite <- app_assoc, law. cbn. by rewrite law.
Defined.

Definition c_sum {A B} (c : codec A) (d : codec B) : codec (A + B).
Proof.
  refine {| enc s := match s with inl a => 0 :: enc c a | inr b => 1 :: enc d b end;
            dec l := match l with
                     | 0 :: r => '(a, r) ← dec c r; Some (inl a, r)
                     | _ :: r => '(b, r) ← dec d r; Some (inr b, r)
                     | [] => None
                     end |}.
  intros [a|b] rest; cbn; by rewrite law.
Defined.

Definition c_unit : codec unit.
Proof. refine {| enc _ := []; dec l := Some (tt, l) |}. by intros []. Defined.

Definition c_option {A} (c : codec A) : codec (option A) :=
  c_iso (c_sum c_unit c)
    (fun o => match o with None => inl tt | Some a => inr a end)
    (fun s => match s with inl _ => None | inr a => Some a end)
    (fun o => match o with None => eq_refl | Some _ => eq_refl end).

Fixpoint dec_n {A} (c : codec A) (n : nat) (l : list Z) : option (list A * list Z) :=
  match n with
  | O => Some ([], l)
  | S n => '(a, r) ← dec c l; '(xs, r) ← dec_n c n r; Some (a :: xs, r)
  end.

Definition c_list {A} (c : codec A) : codec (list A).
Proof.
  refine {| enc xs := Z.of_nat (length xs) :: concat (enc c <$> xs);
            dec l := match l with
                     | n :: r => dec_n c (Z.to_nat n) r
                     | [] => None
                     end |}.
  intros xs rest. cbn. rewrite Nat2Z.id. induction xs as [|x xs IH]; [done|].
  cbn. rewrite <- app_assoc, law. cbn. by rewrite IH.
Defined.

Definition c_key : codec Pubkey := c_list c_Z.
Definition c_nat : codec nat := c_iso c_Z Z.of_nat Z.to_nat Nat2Z.id.
Definition c_bool : codec bool :=
  c_iso c_Z (fun b : bool => if b then 1 else 0) (fun z => z =? 1)
    (fun b => match b with true => eq_refl | false => eq_refl end).

(** The decoder of a whole buffer ignores what follows the value. *)
Definition decode_prefix {A} (c : codec A) (l : list Z) : option A := fst <$> dec c l.

Lemma decode_prefix_enc {A} (c : codec A) a rest :
  decode_prefix c (enc c a ++ rest) = Some a.
Proof. unfold decode_prefix. by rewrite law. Qed.
