(* ===== verification/SystemProgram.v ===== *)
(** * System program: accounts, transfers and nonces

    Models [src/testnet/runtime/src/system_instruction_processor.rs] and
    [nonce_keyed_account.rs] of the same directory, with the addresses derived
    from seeds ([sdk/program/src/pubkey.rs], [create_with_seed]), the nonce
    state ([sdk/program/src/nonce/state]) and its reading
    ([sdk/src/nonce_account.rs]).  SHA-256 ([hashv]) and [bincode] come from
    crates that are not in the repository and are parameters, as are the
    contents of the sysvar accounts they decode. *)

From stdpp Require Import base gmap list fin_maps strings.
From Stdlib Require Import ZArith Lia Ascii.
From Stdlib Require String.
From S2P Require Import Prelude Sdk Runtime KeyedAccount.

(** [sysvar::id()], the owner of the sysvar accounts *)
Definition sysvar_owner_id : Pubkey :=
  Eval vm_compute in declare_id "Sysvar1111111111111111111111111111111111111".
Definition recent_blockhashes_sysvar_id : Pubkey :=
  Eval vm_compute in declare_id "SysvarRecentB1ockHashes11111111111111111111".

(** ** Errors *)
Module SystemError.
Inductive t : Type :=
| AccountAlreadyInUse | ResultWithNegativeLamports | InvalidProgramId
| InvalidAccountDataLength | MaxSeedLengthExceeded | AddressWithSeedMismatch
| NonceNoRecentBlockhashes | NonceBlockhashNotExpired
| NonceUnexpectedBlockhashValue.

Definition discriminant (e : t) : Z :=
  match e with
  | AccountAlreadyInUse => 0 | ResultWithNegativeLamports => 1
  | InvalidProgramId => 2 | InvalidAccountDataLength => 3
  | MaxSeedLengthExceeded => 4 | AddressWithSeedMismatch => 5
  | NonceNoRecentBlockhashes => 6 | NonceBlockhashNotExpired => 7
  | NonceUnexpectedBlockhashValue => 8
  end.

Definition into (e : t) : InstructionError.t := InstructionError_from (discriminant e).
End SystemError.

Module PubkeyError.
Inductive t : Type := MaxSeedLengthExceeded | InvalidSeeds | IllegalOwner.
Definition discriminant (e : t) : Z :=
  match e with MaxSeedLengthExceeded => 0 | InvalidSeeds => 1 | IllegalOwner => 2 end.
Definition into (e : t) : InstructionError.t := InstructionError_from (discriminant e).
End PubkeyError.

(** [NonceErrorAdapter] has the variants of [NonceError] in the same order. *)
Module NonceError.
Inductive t : Type :=
| NoRecentBlockhashes | NotExpired | UnexpectedValue | BadAccountState.
Definition discriminant (e : t) : Z :=
  match e with
  | NoRecentBlockhashes => 0 | NotExpired => 1
  | UnexpectedValue => 2 | BadAccountState => 3
  end.
Definition into (e : t) : InstructionError.t := InstructionError_from (discriminant e).
End NonceError.

Definition nonce_to_instruction_error (error : NonceError.t) (use_system_variant : bool)
  : InstructionError.t :=
  if use_system_variant then
    match error with
    | NonceError.NoRecentBlockhashes => SystemError.into SystemError.NonceNoRecentBlockhashes
    | NonceError.NotExpired => SystemError.into SystemError.NonceBlockhashNotExpired
    | NonceError.UnexpectedValue =>
        SystemError.into SystemError.NonceUnexpectedBlockhashValue
    | NonceError.BadAccountState => InstructionError.InvalidAccountData
    end
  else NonceError.into error.

(** ** The nonce state *)
Module Nonce.
Record FeeCalculator := { lamports_per_signature : Z }.

Record Data := {
  authority : Pubkey;
  blockhash : Hash;
  fee_calculator : FeeCalculator;
}.

Definition Data_new (a : Pubkey) (h : Hash) (lps : Z) : Data :=
  {| authority := a; blockhash := h;
     fee_calculator := {| lamports_per_signature := lps |} |}.

Definition get_lamports_per_signature (d : Data) : Z :=
  lamports_per_signature (fee_calculator d).

Inductive State : Type :=
| Uninitialized
| Initialized (d : Data).

Inductive Versions : Type := Current (s : State).

Definition convert_to_current (v : Versions) : State :=
  match v with Current s => s end.
End Nonce.

(** ** Instructions *)
Module SystemInstruction.
Inductive t : Type :=
| CreateAccount (tock space : Z) (owner : Pubkey)
| Assign (owner : Pubkey)
| Transfer (tock : Z)
| CreateAccountWithSeed (base : Pubkey) (seed : list Z) (tock space : Z) (owner : Pubkey)
| AdvanceNonceAccount
| WithdrawNonceAccount (tock : Z)
| InitializeNonceAccount (authorized : Pubkey)
| AuthorizeNonceAccount (nonce_authority : Pubkey)
| Allocate (space : Z)
| AllocateWithSeed (base : Pubkey) (seed : list Z) (space : Z) (owner : Pubkey)
| AssignWithSeed (base : Pubkey) (seed : list Z) (owner : Pubkey)
| TransferWithSeed (tock : Z) (from_seed : list Z) (from_owner : Pubkey).
End SystemInstruction.

(** What the handlers read of [dyn InvokeContext]. *)
Record InvokeContext := {
  ic_blockhash : Hash;
  ic_lamports_per_signature : Z;
  rent_for_sysvars : bool;
  system_transfer_zero_check : bool;
  merge_nonce_error_into_system_error : bool;
}.

Definition MAX_SEED_LEN : nat := 32.
Definition PDA_MARKER : list Z :=
  Eval vm_compute in
  map (fun c => Z.of_N (N_of_ascii c)) (String.list_ascii_of_string "ProgramDerivedAddress").

Record Address := {
  address : Pubkey;
  base : option Pubkey;
}.

Definition Address_is_signer (a : Address) (signers : list Pubkey) : bool :=
  match base a with
  | Some b => bool_decide (b ∈ signers)
  | None => bool_decide (address a ∈ signers)
  end.

Definition set_account_data (a : AccountSharedData) (d : list Z) : AccountSharedData :=
  {| lamports := lamports a; data := d; owner := owner a;
     executable := executable a; rent_epoch := rent_epoch a |}.
Definition set_owner (a : AccountSharedData) (k : Pubkey) : AccountSharedData :=
  {| lamports := lamports a; data := data a; owner := k;
     executable := executable a; rent_epoch := rent_epoch a |}.
Definition is_nil {A} (l : list A) : bool := match l with [] => true | _ => false end.

Section System.
(** SHA-256 of the concatenated slices *)
Context (hashv : list (list Z) -> Hash).
Context (encode : Nonce.Versions -> list Z).
Context (decode : list Z -> option Nonce.Versions).
Context (decode_blockhashes : list Z -> option (list (Hash * Nonce.FeeCalculator))).
Context (decode_rent : list Z -> option Rent).
Context (decode_instruction : list Z -> option SystemInstruction.t).
Context (ic : InvokeContext).

(** [Pubkey::create_with_seed]; [Pubkey::new] panics on a slice of another
    length than 32. *)
Definition create_with_seed (b : Pubkey) (seed : list Z) (own : Pubkey)
  : result PubkeyError.t Pubkey :=
  fail_if (Nat.ltb MAX_SEED_LEN (length seed)) PubkeyError.MaxSeedLengthExceeded ;;
  fail_if (Nat.leb (length PDA_MARKER) (length own)
           && bool_decide (drop (length own - length PDA_MARKER) own = PDA_MARKER))
    PubkeyError.IllegalOwner ;;
  let h := hashv [b; seed; own] in
  panic_unless (Nat.eqb (length h) 32) ;;
  Ok h.

Definition Address_create (k : Pubkey) (with_seed : option (Pubkey * list Z * Pubkey))
  : instruction_result Address :=
  b ← match with_seed with
      | Some (b, seed, own) =>
          address_with_seed ← map_err PubkeyError.into (create_with_seed b seed own);
          fail_if (negb (bool_decide (k = address_with_seed)))
            (SystemError.into SystemError.AddressWithSeedMismatch) ;;
          Ok (Some b)
      | None => Ok None
      end;
  Ok {| address := k; base := b |}.

Definition allocate (account : AccountSharedData) (a : Address) (space : Z)
    (signers : list Pubkey) : instruction_result AccountSharedData :=
  fail_if (negb (Address_is_signer a signers)) InstructionError.MissingRequiredSignature ;;
  fail_if (negb (is_nil (data account))
           || negb (bool_decide (owner account = system_program_id)))
    (SystemError.into SystemError.AccountAlreadyInUse) ;;
  fail_if (PreAccount.MAX_PERMITTED_DATA_LENGTH <? space)
    (SystemError.into SystemError.InvalidAccountDataLength) ;;
  Ok (set_account_data account (replicate (Z.to_nat space) 0)).

Definition assign (account : AccountSharedData) (a : Address) (own : Pubkey)
    (signers : list Pubkey) : instruction_result AccountSharedData :=
  if bool_decide (owner account = own) then Ok account
  else
    fail_if (negb (Address_is_signer a signers)) InstructionError.MissingRequiredSignature ;;
    fail_if (negb (rent_for_sysvars ic) && bool_decide (own = sysvar_owner_id))
      (SystemError.into SystemError.InvalidProgramId) ;;
    Ok (set_owner account own).

Definition allocate_and_assign (to : AccountSharedData) (to_address : Address) (space : Z)
    (own : Pubkey) (signers : list Pubkey) : instruction_result AccountSharedData :=
  to ← allocate to to_address space signers;
  assign to to_address own signers.

(** *** Transfers *)
Definition transfer_verified (from to : AccountInfo) (tock : Z) (st : store)
  : instruction_result store :=
  fail_if (negb (is_nil (data (acct st (key from))))) InstructionError.InvalidArgument ;;
  fail_if (lamports (acct st (key from)) <? tock)
    (SystemError.into SystemError.ResultWithNegativeLamports) ;;
  st ← checked_sub_lamports st (key from) tock;
  checked_add_lamports st (key to) tock.

Definition transfer (from to : AccountInfo) (tock : Z) (st : store)
  : instruction_result store :=
  if negb (system_transfer_zero_check ic) && (tock =? 0) then Ok st
  else
    fail_if (negb (is_signer from)) InstructionError.MissingRequiredSignature ;;
    transfer_verified from to tock st.

Definition transfer_with_seed (from from_base : AccountInfo) (from_seed : list Z)
    (from_owner : Pubkey) (to : AccountInfo) (tock : Z) (st : store)
  : instruction_result store :=
  if negb (system_transfer_zero_check ic) && (tock =? 0) then Ok st
  else
    fail_if (negb (is_signer from_base)) InstructionError.MissingRequiredSignature ;;
    address_from_seed ←
      map_err PubkeyError.into (create_with_seed (key from_base) from_seed from_owner);
    fail_if (negb (bool_decide (key from = address_from_seed)))
      (SystemError.into SystemError.AddressWithSeedMismatch) ;;
    transfer_verified from to tock st.

Definition create_account (from to : AccountInfo) (to_address : Address)
    (tock space : Z) (own : Pubkey) (signers : list Pubkey) (st : store)
  : instruction_result store :=
  fail_if (0 <? lamports (acct st (key to)))
    (SystemError.into SystemError.AccountAlreadyInUse) ;;
  a ← allocate_and_assign (acct st (key to)) to_address space own signers;
  transfer from to tock (<[key to := a]> st).

(** *** Nonce accounts *)
Definition nonce_error (e : NonceError.t) : InstructionError.t :=
  nonce_to_instruction_error e (merge_nonce_error_into_system_error ic).

Definition advance_nonce_account (me : AccountInfo) (signers : list Pubkey) (st : store)
  : instruction_result store :=
  v ← get_state decode st me;
  match Nonce.convert_to_current v with
  | Nonce.Initialized d =>
      fail_if (negb (bool_decide (Nonce.authority d ∈ signers)))
        InstructionError.MissingRequiredSignature ;;
      let recent_blockhash := ic_blockhash ic in
      fail_if (bool_decide (Nonce.blockhash d = recent_blockhash))
        (nonce_error NonceError.NotExpired) ;;
      let new_data := Nonce.Data_new (Nonce.authority d) recent_blockhash
                        (ic_lamports_per_signature ic) in
      set_state encode st me (Nonce.Current (Nonce.Initialized new_data))
  | Nonce.Uninitialized => Err (nonce_error NonceError.BadAccountState)
  end.

Definition withdraw_nonce_account (me : AccountInfo) (tock : Z) (to : AccountInfo)
    (rent : Rent) (signers : list Pubkey) (st : store) : instruction_result store :=
  v ← get_state decode st me;
  '(signer, st) ←
    match Nonce.convert_to_current v with
    | Nonce.Uninitialized =>
        fail_if (lamports (acct st (key me)) <? tock) InstructionError.InsufficientFunds ;;
        Ok (key me, st)
    | Nonce.Initialized d =>
        st ← (if tock =? lamports (acct st (key me)) then
                fail_if (bool_decide (Nonce.blockhash d = ic_blockhash ic))
                  (nonce_error NonceError.NotExpired) ;;
                set_state encode st me (Nonce.Current Nonce.Uninitialized)
              else
                let min_balance := minimum_balance rent (data_len st me) in
                amount ← instruction_checked_add tock min_balance;
                fail_if (lamports (acct st (key me)) <? amount)
                  InstructionError.InsufficientFunds ;;
                Ok st);
        Ok (Nonce.authority d, st)
    end;
  fail_if (negb (bool_decide (signer ∈ signers))) InstructionError.MissingRequiredSignature ;;
  st ← checked_sub_lamports st (key me) tock;
  checked_add_lamports st (key to) tock.

Definition initialize_nonce_account (me : AccountInfo) (nonce_authority : Pubkey)
    (rent : Rent) (st : store) : instruction_result store :=
  v ← get_state decode st me;
  match Nonce.convert_to_current v with
  | Nonce.Uninitialized =>
      let min_balance := minimum_balance rent (data_len st me) in
      fail_if (lamports (acct st (key me)) <? min_balance)
        InstructionError.InsufficientFunds ;;
      let d := Nonce.Data_new nonce_authority (ic_blockhash ic)
                 (ic_lamports_per_signature ic) in
      set_state encode st me (Nonce.Current (Nonce.Initialized d))
  | Nonce.Initialized _ => Err (nonce_error NonceError.BadAccountState)
  end.

Definition authorize_nonce_account (me : AccountInfo) (nonce_authority : Pubkey)
    (signers : list Pubkey) (st : store) : instruction_result store :=
  v ← get_state decode st me;
  match Nonce.convert_to_current v with
  | Nonce.Initialized d =>
      fail_if (negb (bool_decide (Nonce.authority d ∈ signers)))
        InstructionError.MissingRequiredSignature ;;
      let new_data := Nonce.Data_new nonce_authority (Nonce.blockhash d)
                        (Nonce.get_lamports_per_signature d) in
      set_state encode st me (Nonce.Current (Nonce.Initialized new_data))
  | Nonce.Uninitialized => Err (nonce_error NonceError.BadAccountState)
  end.

(** *** The dispatcher *)
Definition blockhashes_at (st : store) (keyed_accounts : list AccountInfo) (index : nat)
  : instruction_result (list (Hash * Nonce.FeeCalculator)) :=
  i ← keyed_account_at_index keyed_accounts index;
  from_keyed_account recent_blockhashes_sysvar_id decode_blockhashes st i.

Definition rent_at (st : store) (keyed_accounts : list AccountInfo) (index : nat)
  : instruction_result Rent :=
  i ← keyed_account_at_index keyed_accounts index;
  from_keyed_account rent_sysvar_id decode_rent st i.

Definition process_instruction (first_instruction_account : nat)
    (keyed_accounts : list AccountInfo) (instruction_data : list Z) (st : store)
  : instruction_result store :=
  instruction ← ok_or (decode_instruction instruction_data)
                  InstructionError.InvalidInstructionData;
  me ← keyed_account_at_index keyed_accounts first_instruction_account;
  let signers := get_signers (drop first_instruction_account keyed_accounts) in
  let account_at n := keyed_account_at_index keyed_accounts (first_instruction_account + n) in
  match instruction with
  | SystemInstruction.CreateAccount tock space own =>
      to ← account_at 1%nat;
      to_address ← Address_create (key to) None;
      create_account me to to_address tock space own signers st
  | SystemInstruction.CreateAccountWithSeed b seed tock space own =>
      to ← account_at 1%nat;
      to_address ← Address_create (key to) (Some (b, seed, own));
      create_account me to to_address tock space own signers st
  | SystemInstruction.Assign own =>
      a ← Address_create (key me) None;
      account ← assign (acct st (key me)) a own signers;
      Ok (<[key me := account]> st)
  | SystemInstruction.Transfer tock =>
      to ← account_at 1%nat;
      transfer me to tock st
  | SystemInstruction.TransferWithSeed tock from_seed from_owner =>
      from_base ← account_at 1%nat;
      to ← account_at 2%nat;
      transfer_with_seed me from_base from_seed from_owner to tock st
  | SystemInstruction.AdvanceNonceAccount =>
      hashes ← blockhashes_at st keyed_accounts (first_instruction_account + 1);
      fail_if (is_nil hashes) (NonceError.into NonceError.NoRecentBlockhashes) ;;
      advance_nonce_account me signers st
  | SystemInstruction.WithdrawNonceAccount tock =>
      to ← account_at 1%nat;
      _ ← blockhashes_at st keyed_accounts (first_instruction_account + 2);
      rent ← rent_at st keyed_accounts (first_instruction_account + 3);
      withdraw_nonce_account me tock to rent signers st
  | SystemInstruction.InitializeNonceAccount authorized =>
      hashes ← blockhashes_at st keyed_accounts (first_instruction_account + 1);
      fail_if (is_nil hashes) (NonceError.into NonceError.NoRecentBlockhashes) ;;
      rent ← rent_at st keyed_accounts (first_instruction_account + 2);
      initialize_nonce_account me authorized rent st
  | SystemInstruction.AuthorizeNonceAccount nonce_authority =>
      authorize_nonce_account me nonce_authority signers st
  | SystemInstruction.Allocate space =>
      a ← Address_create (key me) None;
      account ← allocate (acct st (key me)) a space signers;
      Ok (<[key me := account]> st)
  | SystemInstruction.AllocateWithSeed b seed space own =>
      a ← Address_create (key me) (Some (b, seed, own));
      account ← allocate_and_assign (acct st (key me)) a space own signers;
      Ok (<[key me := account]> st)
  | SystemInstruction.AssignWithSeed b seed own =>
      a ← Address_create (key me) (Some (b, seed, own));
      account ← assign (acct st (key me)) a own signers;
      Ok (<[key me := account]> st)
  end.

(** *** Reading nonce accounts *)

(** [nonce_account::verify_nonce_account]: may a transaction use [h] as its
    durable blockhash? *)
Definition verify_nonce_account (acc : AccountSharedData) (h : Hash) : bool :=
  if negb (bool_decide (owner acc = system_program_id)) then false
  else match Nonce.convert_to_current <$> decode (data acc) with
       | Some (Nonce.Initialized d) => bool_decide (h = Nonce.blockhash d)
       | _ => false
       end.

Definition lamports_per_signature_of (acc : AccountSharedData) : option Z :=
  v ← decode (data acc);
  match Nonce.convert_to_current v with
  | Nonce.Initialized d => Some (Nonce.get_lamports_per_signature d)
  | Nonce.Uninitialized => None
  end.

Inductive SystemAccountKind : Type := KindSystem | KindNonce.

(** [nonce::State::size()] *)
Definition nonce_state_size : nat :=
  length (encode (Nonce.Current (Nonce.Initialized
            (Nonce.Data_new default_key (replicate 32 0) 0)))).

Definition get_system_account_kind (account : AccountSharedData) : option SystemAccountKind :=
  if bool_decide (owner account = system_program_id) then
    if is_nil (data account) then Some KindSystem
    else if Nat.eqb (length (data account)) nonce_state_size then
      v ← decode (data account);
      match v with
      | Nonce.Current (Nonce.Initialized _) => Some KindNonce
      | _ => None
      end
    else None
  else None.
End System.
