(* ===== verification/SystemTheorems.v ===== *)
(** * System program: the guarantees

    Every accepted instruction is at most one rewrite of an account's owner
    and data followed by at most one payment ([system_effect]); both need a
    signature of the account, of the base key its address is derived from, or
    of the nonce authority.  From this follow the conservation of lamports and
    the authorization of changes; the creation of accounts and the nonce
    operations are characterized exactly. *)

From stdpp Require Import base gmap list fin_maps.
From Stdlib Require Import ZArith Lia.
From S2P Require Import Prelude Sdk Runtime KeyedAccount Codec SystemProgram.

(** The amounts of a decoded instruction are [u64]s. *)
Definition wf_instruction (i : SystemInstruction.t) : Prop :=
  match i with
  | SystemInstruction.CreateAccount tock space _
  | SystemInstruction.CreateAccountWithSeed _ _ tock space _ => is_u64 tock /\ is_u64 space
  | SystemInstruction.Transfer tock | SystemInstruction.WithdrawNonceAccount tock
  | SystemInstruction.TransferWithSeed tock _ _ => is_u64 tock
  | SystemInstruction.Allocate space
  | SystemInstruction.AllocateWithSeed _ _ space _ => is_u64 space
  | _ => True
  end.

Lemma is_nil_true {A} (l : list A) : is_nil l = true <-> l = [].
Proof. by destruct l. Qed.

Section Guarantees.
Context (hashv : list (list Z) -> Hash).
Context (encode : Nonce.Versions -> list Z).
Context (decode : list Z -> option Nonce.Versions).
Context (decode_blockhashes : list Z -> option (list (Hash * Nonce.FeeCalculator))).
Context (decode_rent : list Z -> option Rent).
Context (decode_instruction : list Z -> option SystemInstruction.t).
Context (ic : InvokeContext).
Implicit Types (st : store) (k : Pubkey) (signers : list Pubkey) (a : AccountSharedData).

(** An instruction is decoded from its bytes with its amounts in range. *)
Hypothesis decoded_wf : forall input i,
  decode_instruction input = Some i -> wf_instruction i.

Abbreviation run := (process_instruction hashv encode decode decode_blockhashes
  decode_rent decode_instruction ic).

(** ** Authority over an account *)

(** The key itself signed, or the base its address is derived from. *)
Definition controls signers k : Prop :=
  k ∈ signers \/
  exists b seed own, create_with_seed hashv b seed own = Ok k /\ b ∈ signers.

(** The authority of the nonce stored at [k] signed. *)
Definition nonce_signed signers st k : Prop :=
  exists d, decode (data (acct st k)) = Some (Nonce.Current (Nonce.Initialized d)) /\
    Nonce.authority d ∈ signers.

(** A rewrite of the owner and the data of [k]; an uninitialized nonce account
    may be initialized by anyone, keeping its owner. *)
Record rewritten signers st k a : Prop := {
  rw_lamports : lamports a = lamports (acct st k);
  rw_executable : executable a = executable (acct st k);
  rw_rent_epoch : rent_epoch a = rent_epoch (acct st k);
  rw_authority : a = acct st k \/ controls signers k \/ nonce_signed signers st k \/
    owner a = owner (acct st k) /\
    decode (data (acct st k)) = Some (Nonce.Current Nonce.Uninitialized);
}.

Definition rewrite_step signers st st1 : Prop :=
  st1 = st \/ exists k a, st1 = <[k := a]> st /\ rewritten signers st k a.

Definition move_step signers st st1 st' : Prop :=
  st' = st1 \/
  exists from to n, (controls signers from \/ nonce_signed signers st from) /\
    0 <= n <= lamports (acct st1 from) /\ st' = move_lamports st1 from to n.

Definition system_effect signers st st' : Prop :=
  exists st1, rewrite_step signers st st1 /\ move_step signers st st1 st'.

Lemma effect_rewrite signers st k a :
  rewritten signers st k a -> system_effect signers st (<[k := a]> st).
Proof. intros H. eexists. split; [right; eauto|by left]. Qed.

Lemma effect_move signers st st' :
  move_step signers st st st' -> system_effect signers st st'.
Proof. intros H. exists st. split; [by left|done]. Qed.

Lemma Address_create_controls k seed ad signers :
  Address_create hashv k seed = Ok ad -> Address_is_signer ad signers = true ->
  controls signers k.
Proof.
  unfold Address_create, Address_is_signer. intros H Hs.
  destruct seed as [[[b seed] own]|]; inv_ok; cbn in Hs; to_prop; [right|by left].
  subst. eauto.
Qed.

Lemma rewritten_by_controller signers st k a :
  controls signers k -> lamports a = lamports (acct st k) ->
  executable a = executable (acct st k) -> rent_epoch a = rent_epoch (acct st k) ->
  rewritten signers st k a.
Proof. split; auto. Qed.

Lemma assign_rewritten st k seed ad own signers x x' :
  Address_create hashv k seed = Ok ad -> assign ic x ad own signers = Ok x' ->
  rewritten signers st k x -> rewritten signers st k x'.
Proof.
  unfold assign. intros Ha H [? ? ? Hx]. case_bool_decide; inv_ok; [done|]. to_prop.
  apply rewritten_by_controller; try done. by eapply Address_create_controls.
Qed.

Lemma allocate_rewritten st k seed ad space signers x' :
  Address_create hashv k seed = Ok ad -> allocate (acct st k) ad space signers = Ok x' ->
  rewritten signers st k x'.
Proof.
  unfold allocate. intros Ha H. inv_ok. to_prop.
  apply rewritten_by_controller; try done. by eapply Address_create_controls.
Qed.

Lemma rewritten_refl signers st k : rewritten signers st k (acct st k).
Proof. split; auto. Qed.

Lemma allocate_and_assign_rewritten st k seed ad space own signers x' :
  Address_create hashv k seed = Ok ad ->
  allocate_and_assign ic (acct st k) ad space own signers = Ok x' ->
  rewritten signers st k x'.
Proof.
  unfold allocate_and_assign. intros Ha H. inv_ok.
  eapply assign_rewritten; [done..|]. by eapply allocate_rewritten.
Qed.

(** ** Payments *)
Lemma transfer_verified_Ok from to n st st' :
  transfer_verified from to n st = Ok st' ->
  data (acct st (key from)) = [] /\ n <= lamports (acct st (key from)) /\
  st' = move_lamports st (key from) (key to) n.
Proof.
  unfold transfer_verified. intros H. inv_ok. destruct (pay_Ok _ _ _ _ _ _ Hr1 H) as [-> ?]. to_prop.
  rewrite is_nil_true in *. auto.
Qed.

Lemma transfer_move from to n st0 st st' signers :
  0 <= n -> (is_signer from = true -> key from ∈ signers) ->
  transfer ic from to n st = Ok st' -> move_step signers st0 st st'.
Proof.
  unfold transfer. intros Hn Hs H. case_if H; [inv_ok; by left|]. inv_ok. to_prop.
  apply transfer_verified_Ok in H as (_ & ? & ->).
  right. exists (key from), (key to), n. split; [left; left; by auto|].
  split; [lia|done].
Qed.

(** The instruction names [i] and [i] signed. *)
Lemma named_signer accounts first n i :
  keyed_account_at_index accounts (first + n) = Ok i -> is_signer i = true ->
  key i ∈ get_signers (drop first accounts).
Proof.
  unfold keyed_account_at_index. intros H Hs. inv_ok.
  apply elem_of_get_signers. exists i. split; [|done].
  apply list_elem_of_lookup. exists n. by rewrite lookup_drop.
Qed.

(** ** Nonces *)
Lemma nonce_state_Ok st i v :
  get_state decode st i = Ok v ->
  decode (data (acct st (key i))) = Some (Nonce.Current (Nonce.convert_to_current v)).
Proof. unfold get_state. intros H. inv_ok. by destruct v. Qed.

Lemma set_state_rewritten st i v st' signers :
  set_state encode st i v = Ok st' ->
  nonce_signed signers st (key i) \/
    decode (data (acct st (key i))) = Some (Nonce.Current Nonce.Uninitialized) ->
  exists a, st' = <[key i := a]> st /\ rewritten signers st (key i) a.
Proof.
  unfold set_state, set_data. intros H Hn. inv_ok. eexists. split; [done|].
  split; try done. naive_solver.
Qed.

Lemma advance_effect i signers st st' :
  advance_nonce_account encode decode ic i signers st = Ok st' ->
  system_effect signers st st'.
Proof.
  unfold advance_nonce_account. intros H. inv_ok. apply nonce_state_Ok in Hr.
  case_match; inv_ok. to_prop.
  destruct (set_state_rewritten _ _ _ _ signers H) as (a & -> & ?).
  { left. eexists. eauto. }
  by apply effect_rewrite.
Qed.

Lemma authorize_effect i k signers st st' :
  authorize_nonce_account encode decode ic i k signers st = Ok st' ->
  system_effect signers st st'.
Proof.
  unfold authorize_nonce_account. intros H. inv_ok. apply nonce_state_Ok in Hr.
  case_match; inv_ok. to_prop.
  destruct (set_state_rewritten _ _ _ _ signers H) as (a & -> & ?).
  { left. eexists. eauto. }
  by apply effect_rewrite.
Qed.

Lemma initialize_effect i k rent signers st st' :
  initialize_nonce_account encode decode ic i k rent st = Ok st' ->
  system_effect signers st st'.
Proof.
  unfold initialize_nonce_account. intros H. inv_ok. apply nonce_state_Ok in Hr.
  case_match; inv_ok.
  destruct (set_state_rewritten _ _ _ _ signers H) as (a & -> & ?); [by right|].
  by apply effect_rewrite.
Qed.

Lemma withdraw_effect i n to rent signers st st' :
  0 <= n -> withdraw_nonce_account encode decode ic i n to rent signers st = Ok st' ->
  system_effect signers st st'.
Proof.
  unfold withdraw_nonce_account. intros Hpos H. inv_ok. apply nonce_state_Ok in Hr.
  match goal with H1 : checked_sub_lamports _ _ _ = _ |- _ =>
    destruct (pay_Ok _ _ _ _ _ _ H1 H) as [-> Hle] end.
  to_prop. case_match; inv_ok.
  - apply effect_move. right. eexists _, _, _. split; [left; by left|].
    split; [split; [exact Hpos|exact Hle]|reflexivity].
  - assert (nonce_signed signers st (key i)) as Hn by (eexists; eauto).
    match goal with H1 : (if ?b then _ else _) = Ok ?st1 |- _ =>
      assert (rewrite_step signers st st1) as Hst1 end.
    { case_match; inv_ok; [|by left].
      match goal with H1 : set_state _ _ _ _ = Ok _ |- _ =>
        destruct (set_state_rewritten _ _ _ _ signers H1 (or_introl Hn)) as (a & -> & ?)
      end. right. eauto. }
    eexists. split; [exact Hst1|]. right. eexists _, _, _. split; [by right|].
    split; [split; [exact Hpos|exact Hle]|reflexivity].
Qed.

Lemma transfer_with_seed_move from b n seed own to st st' signers :
  0 <= n -> (is_signer b = true -> key b ∈ signers) ->
  transfer_with_seed hashv ic from b seed own to n st = Ok st' ->
  move_step signers st st st'.
Proof.
  unfold transfer_with_seed. intros Hn Hs H. case_if H; [inv_ok; by left|]. inv_ok. to_prop.
  apply transfer_verified_Ok in H as (_ & ? & ->). subst.
  right. exists (key from), (key to), n.
  split; [left; right; exists (key b), seed, own; by auto|].
  split; [lia|done].
Qed.

Lemma create_effect from to seed ad n space own signers st st' :
  0 <= n -> (is_signer from = true -> key from ∈ signers) ->
  Address_create hashv (key to) seed = Ok ad ->
  create_account ic from to ad n space own signers st = Ok st' ->
  system_effect signers st st'.
Proof.
  unfold create_account. intros Hn Hs Ha H. inv_ok.
  eapply allocate_and_assign_rewritten in Hr0; [|done].
  eexists. split; [right; eauto|]. by eapply transfer_move.
Qed.

Lemma run_effect first accounts input st st' :
  run first accounts input st = Ok st' ->
  system_effect (get_signers (drop first accounts)) st st'.
Proof.
  unfold process_instruction. intros H. inv_ok. rename x0 into me.
  assert (is_signer me = true -> key me ∈ get_signers (drop first accounts)) as Hme.
  { apply (named_signer _ _ 0). by rewrite Nat.add_0_r. }
  apply decoded_wf in Hr. destruct x; cbn in Hr; inv_ok.
  - eapply create_effect; [|done..]. lia.
  - eapply effect_rewrite, assign_rewritten; [done..|apply rewritten_refl].
  - eapply effect_move, transfer_move; [|done..]. lia.
  - eapply create_effect; [|done..]. lia.
  - by eapply advance_effect.
  - eapply withdraw_effect; [|done]. lia.
  - by eapply initialize_effect.
  - by eapply authorize_effect.
  - by eapply effect_rewrite, allocate_rewritten.
  - by eapply effect_rewrite, allocate_and_assign_rewritten.
  - eapply effect_rewrite, assign_rewritten; [done..|apply rewritten_refl].
  - eapply effect_move, transfer_with_seed_move; [| |done]; [lia|].
    by apply (named_signer _ _ 1).
Qed.

(** ** Conservation and authorization *)
(** Every instruction the system program accepts conserves the lamports
    of the whole ledger, also when the payer is its own recipient. *)
Theorem system_lamports_conserved first accounts input st st' :
  run first accounts input st = Ok st' -> total_lamports st' = total_lamports st.
Proof.
  intros H. destruct (run_effect _ _ _ _ _ H) as (st1 & Hrw & Hmv).
  assert (total_lamports st1 = total_lamports st) as <-.
  { destruct Hrw as [->|(k & a & -> & [? _ _ _])]; [done|]. rewrite total_insert. lia. }
  destruct Hmv as [->|(from & to & n & _ & _ & ->)]; [done|apply total_move_lamports].
Qed.

(** An accepted system instruction changes the owner or the data of an
    account or debits it only if the account signed, the base key its
    address is derived from signed, or the authority of the nonce it
    stores signed; the one exception is that anyone may initialize an
    uninitialized nonce account, which changes its data only. *)
Theorem system_changes_are_authorized first accounts input st st' k :
  run first accounts input st = Ok st' ->
  let signers := get_signers (drop first accounts) in
  controls signers k \/ nonce_signed signers st k \/
  owner (acct st' k) = owner (acct st k) /\
  lamports (acct st k) <= lamports (acct st' k) /\
  (data (acct st' k) = data (acct st k) \/
   decode (data (acct st k)) = Some (Nonce.Current Nonce.Uninitialized)).
Proof.
  intros H signers. destruct (run_effect _ _ _ _ _ H) as (st1 & Hrw & Hmv).
  fold signers in Hrw, Hmv.
  assert (controls signers k \/ nonce_signed signers st k \/
    owner (acct st1 k) = owner (acct st k) /\ lamports (acct st1 k) = lamports (acct st k) /\
    (data (acct st1 k) = data (acct st k) \/
     decode (data (acct st k)) = Some (Nonce.Current Nonce.Uninitialized))) as Hst1.
  { destruct Hrw as [->|(k0 & a & -> & [? _ _ Ha])]; [by auto 10|].
    rewrite acct_insert. case_decide; [subst k0|by auto 10].
    destruct Ha as [->|[?|[?|[? ?]]]]; auto 10. }
  destruct Hst1 as [?|[?|(Ho & Hl & Hd)]]; [by auto..|].
  destruct Hmv as [->|(from & to & n & Hfrom & Hn & ->)].
  { right; right. rewrite Hl. split; [done|]. split; [lia|done]. }
  destruct (decide (from = k)) as [->|Hne]; [tauto|].
  right; right. rewrite acct_move_lamports. cbn. rewrite decide_False by done.
  split; [done|]. split; [case_decide; lia|done].
Qed.

(** ** Creating accounts *)
Lemma allocate_and_assign_Ok x ad space own signers x' :
  allocate_and_assign ic x ad space own signers = Ok x' ->
  data x = [] /\ owner x = system_program_id /\
  space <= PreAccount.MAX_PERMITTED_DATA_LENGTH /\
  x' = {| lamports := lamports x; data := replicate (Z.to_nat space) 0; owner := own;
          executable := executable x; rent_epoch := rent_epoch x |}.
Proof.
  unfold allocate_and_assign, allocate, assign. intros H. inv_ok. to_prop.
  rewrite is_nil_true in *. repeat (split; [done|]).
  case_bool_decide; inv_ok; [by subst|done].
Qed.

(** The account a creation leaves at [to]. *)
Definition new_account st (to : Pubkey) (tock space : Z) (own : Pubkey) : AccountSharedData :=
  {| lamports := tock; data := replicate (Z.to_nat space) 0; owner := own;
     executable := executable (acct st to); rent_epoch := rent_epoch (acct st to) |}.

Definition creates (i : SystemInstruction.t) (tock space : Z) (own : Pubkey) : Prop :=
  i = SystemInstruction.CreateAccount tock space own \/
  exists b seed, i = SystemInstruction.CreateAccountWithSeed b seed tock space own.

Lemma run_creates first accounts input i tock space own from to st st' :
  decode_instruction input = Some i -> creates i tock space own ->
  accounts !! first = Some from -> accounts !! (first + 1)%nat = Some to ->
  run first accounts input st = Ok st' ->
  exists seed ad, Address_create hashv (key to) seed = Ok ad /\
    create_account ic from to ad tock space own (get_signers (drop first accounts)) st = Ok st'.
Proof.
  intros Hi Hc Hfrom Hto. unfold process_instruction, keyed_account_at_index.
  rewrite Hi, Hfrom, Hto.
  destruct Hc as [->|(b & seed & ->)]; cbn [ok_or mbind result_bind]; intros H; inv_ok; eauto.
Qed.

(** Creating an account, at its own key or at one derived from a seed,
    only succeeds on an unused address and leaves there exactly the
    requested lamports, zeroed space and owner; the funding account pays
    exactly these lamports and no other account changes. *)
Theorem create_account_exact first accounts input i tock space own from to st st' :
  decode_instruction input = Some i -> creates i tock space own ->
  accounts !! first = Some from -> accounts !! (first + 1)%nat = Some to ->
  0 <= lamports (acct st (key to)) ->
  run first accounts input st = Ok st' ->
  lamports (acct st (key to)) = 0 /\ data (acct st (key to)) = [] /\
  owner (acct st (key to)) = system_program_id /\
  forall k, acct st' k =
    if decide (k = key to) then new_account st (key to) tock space own
    else if decide (k = key from)
    then acct (set_lamports st k (lamports (acct st k) - tock)) k
    else acct st k.
Proof.
  intros Hi Hc Hfrom Hto Hpos H. pose proof (decoded_wf _ _ Hi) as Hwf.
  destruct (run_creates _ _ _ _ _ _ _ _ _ _ _ Hi Hc Hfrom Hto H) as (seed & ad & _ & Hcr).
  unfold create_account in Hcr. inv_ok. to_prop.
  apply allocate_and_assign_Ok in Hr0 as (Hd & Ho & Hsp & ->).
  assert (0 <= tock) as Htock by (destruct Hc as [->|(? & ? & ->)]; cbn in Hwf; lia).
  assert (lamports (acct st (key to)) = 0) as Hl by lia.
  split; [done|]. split; [done|]. split; [done|].
  rewrite Hl in Hcr. change {| lamports := 0 |} with (new_account st (key to) 0 space own) in Hcr.
  assert ((tock = 0 \/ key from <> key to) /\ forall k, acct st' k = acct (move_lamports
            (<[key to := new_account st (key to) 0 space own]> st) (key from) (key to) tock) k)
    as [Hne Hst'].
  { unfold transfer in Hcr. case_if Hcr; inv_ok; to_prop.
    - subst tock. split; [by left|]. intros k. by rewrite acct_move_0.
    - apply transfer_verified_Ok in Hcr as (_ & Hle & ->). split; [|done].
      rewrite acct_insert in Hle. case_decide; cbn in Hle; [left; lia|by right]. }
  intros k. rewrite Hst', acct_move_lamports, !acct_insert, acct_set_lamports.
  destruct (decide (k = key to)) as [->|]; [|destruct (decide (k = key from)) as [->|]];
    rewrite ?(decide_True (P := key to = _)), ?(decide_False (P := key to = _)),
      ?(decide_True (P := key from = _)) by done; cbn.
  - destruct Hne as [->|Hne]; [|rewrite decide_False by done]; unfold new_account; f_equal.
    destruct (decide _); lia.
  - f_equal. lia.
  - rewrite decide_False by done. destruct (acct st k); cbn; f_equal; lia.
Qed.

Lemma allocate_and_assign_returns x ad space own signers :
  (exists x', allocate_and_assign ic x ad space own signers = Ok x') <->
  Address_is_signer ad signers = true /\ data x = [] /\ owner x = system_program_id /\
  space <= PreAccount.MAX_PERMITTED_DATA_LENGTH /\
  (rent_for_sysvars ic = true \/ own <> sysvar_owner_id).
Proof.
  unfold allocate_and_assign, allocate, assign. split.
  - intros [x' H]. inv_ok. to_prop. rewrite is_nil_true in *. repeat (split; [done|]).
    cbn in H. case_bool_decide as Ho; inv_ok; to_prop; [|naive_solver].
    right. intros Heq. assert (system_program_id = sysvar_owner_id) by congruence. done.
  - intros (Hs & Hd & Ho & Hsp & Hown). 
    rewrite Hs, Hd, Ho, (proj2 (Z.ltb_ge _ _) Hsp).
    rewrite (bool_decide_eq_true_2 (system_program_id = _)) by done.
    cbn [is_nil negb orb fail_if mbind result_bind].
    case_bool_decide; [eauto|].
    destruct Hown as [->|Hown]; [by cbn; eauto|].
    rewrite bool_decide_eq_false_2, andb_false_r by done. cbn. eauto.
Qed.

Lemma transfer_returns from to n st :
  0 < n -> key from <> key to ->
  (exists st', transfer ic from to n st = Ok st') <->
  is_signer from = true /\ data (acct st (key from)) = [] /\
  n <= lamports (acct st (key from)) /\ lamports (acct st (key to)) + n <= u64_max.
Proof.
  intros Hn Hne. unfold transfer.
  rewrite (proj2 (Z.eqb_neq n 0)), andb_false_r by lia.
  rewrite fail_if_returns. unfold transfer_verified. rewrite !fail_if_returns.
  unfold checked_sub_lamports, checked_add_lamports. rewrite bind_returns.
  rewrite !negb_false_iff, is_nil_true, Z.ltb_ge. split.
  - intros (Hs & Hd & Hle & st1 & H1 & st2 & H2). inv_ok. inv_checked. subst.
    rewrite lamports_set_lamports, decide_False in * by done. done.
  - intros (Hs & Hd & Hle & Hmax). repeat (split; [done|]).
    unfold checked_sub. rewrite (proj2 (Z.leb_le n _) Hle). cbn.
    eexists. split; [done|]. rewrite lamports_set_lamports, decide_False by done.
    unfold checked_add. rewrite (proj2 (Z.leb_le _ u64_max) Hmax). cbn. eauto.
Qed.

(** A funded account creation succeeds if and only if both accounts
    signed, the new address has no data and belongs to the system program,
    the space is permitted, the owner may be assigned, and the funding
    account carries no data and enough lamports. *)
Theorem create_account_iff first accounts input tock space own from to st :
  decode_instruction input = Some (SystemInstruction.CreateAccount tock space own) ->
  accounts !! first = Some from -> accounts !! (first + 1)%nat = Some to ->
  key from <> key to -> lamports (acct st (key to)) = 0 -> 0 < tock ->
  (exists st', run first accounts input st = Ok st') <->
  key to ∈ get_signers (drop first accounts) /\ is_signer from = true /\
  data (acct st (key to)) = [] /\ owner (acct st (key to)) = system_program_id /\
  space <= PreAccount.MAX_PERMITTED_DATA_LENGTH /\
  (rent_for_sysvars ic = true \/ own <> sysvar_owner_id) /\
  data (acct st (key from)) = [] /\ tock <= lamports (acct st (key from)).
Proof.
  intros Hi Hfrom Hto Hne Hl Htock. pose proof (decoded_wf _ _ Hi) as [Hwf _].
  unfold process_instruction, keyed_account_at_index. rewrite Hi, Hfrom.
  cbn [ok_or mbind result_bind]. rewrite Hto. cbn [ok_or mbind result_bind Address_create].
  unfold create_account. rewrite fail_if_returns, Hl, bind_returns.
  setoid_rewrite transfer_returns; [|done..].
  transitivity ((exists x', allocate_and_assign ic (acct st (key to))
      {| address := key to; base := None |} space own (get_signers (drop first accounts))
      = Ok x') /\ is_signer from = true /\ data (acct st (key from)) = [] /\
      tock <= lamports (acct st (key from))).
  - split.
    + intros (_ & x & Hx & Ht). split; [by exists x|].
      rewrite !acct_insert, decide_False in Ht by done. tauto.
    + intros [[x Hx] Hrest]. split; [done|]. exists x. split; [done|].
      rewrite !acct_insert, decide_False, decide_True by done.
      apply allocate_and_assign_Ok in Hx as (_ & _ & _ & ->). cbn. rewrite Hl.
      repeat split; try apply Hrest. lia.
  - rewrite allocate_and_assign_returns. cbn. rewrite bool_decide_eq_true. tauto.
Qed.

(** ** Nonce accounts *)

(** [bincode] reads back what it wrote and ignores trailing bytes. *)
Hypothesis codec : forall v rest, decode (encode v ++ rest) = Some v.

Definition nonce_at st k (s : Nonce.State) : Prop :=
  decode (data (acct st k)) = Some (Nonce.Current s).

Lemma nonce_set_state_Ok st i s st' :
  set_state encode st i (Nonce.Current s) = Ok st' ->
  exists d, st' = set_data st (key i) d /\ decode d = Some (Nonce.Current s) /\
    length d = length (data (acct st (key i))).
Proof. by apply set_state_stores. Qed.

Lemma run_advance first accounts input st st' me :
  decode_instruction input = Some SystemInstruction.AdvanceNonceAccount ->
  accounts !! first = Some me -> run first accounts input st = Ok st' ->
  advance_nonce_account encode decode ic me (get_signers (drop first accounts)) st = Ok st'.
Proof.
  intros Hi Hme H. unfold process_instruction, keyed_account_at_index in H.
  rewrite Hi, Hme in H. cbn [ok_or mbind result_bind] in H. by inv_ok.
Qed.

Lemma advance_Ok me signers st st' :
  advance_nonce_account encode decode ic me signers st = Ok st' ->
  exists d, nonce_at st (key me) (Nonce.Initialized d) /\ Nonce.authority d ∈ signers /\
    Nonce.blockhash d <> ic_blockhash ic /\
    nonce_at st' (key me) (Nonce.Initialized (Nonce.Data_new (Nonce.authority d)
      (ic_blockhash ic) (ic_lamports_per_signature ic))).
Proof.
  unfold advance_nonce_account. intros H. inv_ok. apply nonce_state_Ok in Hr.
  case_match eqn:Es; inv_ok. to_prop.
  apply nonce_set_state_Ok in H as (d' & -> & Hd' & _).
  eexists. split; [exact Hr|]. repeat (split; [done|]).
  unfold nonce_at. by rewrite data_set_data, decide_True.
Qed.

(** Advancing a nonce needs its authority, stores the current blockhash,
    makes the old nonce unusable for durable transactions, and cannot be
    repeated under the same blockhash, whatever accounts are passed with
    it. *)
Theorem nonce_advances_once first accounts input st st' me :
  decode_instruction input = Some SystemInstruction.AdvanceNonceAccount ->
  accounts !! first = Some me -> run first accounts input st = Ok st' ->
  exists d, nonce_at st (key me) (Nonce.Initialized d) /\
    Nonce.authority d ∈ get_signers (drop first accounts) /\
    nonce_at st' (key me) (Nonce.Initialized (Nonce.Data_new (Nonce.authority d)
      (ic_blockhash ic) (ic_lamports_per_signature ic))) /\
    verify_nonce_account decode (acct st' (key me)) (Nonce.blockhash d) = false /\
    forall accounts' st'', accounts' !! first = Some me ->
      run first accounts' input st' <> Ok st''.
Proof.
  intros Hi Hme H. apply (run_advance _ _ _ _ _ me) in H; [|done..].
  destruct (advance_Ok _ _ _ _ H) as (d & Hat & Hsig & Hne & Hat').
  exists d. repeat (split; [done|]). split.
  - unfold verify_nonce_account. rewrite Hat'. case_match; [done|]. cbn.
    by rewrite bool_decide_eq_false_2.
  - intros accounts' st'' Hme' H'. apply (run_advance _ _ _ _ _ me) in H'; [|done..].
    destruct (advance_Ok _ _ _ _ H') as (d' & Hd' & _ & Hne' & _).
    unfold nonce_at in *. rewrite Hat' in Hd'. injection Hd' as <-. done.
Qed.

Lemma withdraw_initialized_Ok me n to rent signers st st' d :
  key to <> key me -> nonce_at st (key me) (Nonce.Initialized d) ->
  withdraw_nonce_account encode decode ic me n to rent signers st = Ok st' ->
  Nonce.authority d ∈ signers /\
  (lamports (acct st' (key me)) = 0 /\ nonce_at st' (key me) Nonce.Uninitialized /\
     Nonce.blockhash d <> ic_blockhash ic \/
   nonce_at st' (key me) (Nonce.Initialized d) /\
     minimum_balance rent (data_len st me) <= lamports (acct st' (key me))).
Proof.
  unfold withdraw_nonce_account, nonce_at. intros Hne Hat H. inv_ok.
  apply nonce_state_Ok in Hr. rewrite Hat in Hr. injection Hr as Hr. rewrite <- Hr in Hr0.
  inv_ok. destruct (pay_Ok _ _ _ _ _ _ Hr2 H) as [-> _]. to_prop. split; [done|].
  rewrite acct_move_lamports, decide_True, decide_False by done. cbn.
  case_if Hr3; inv_ok; to_prop.
  - apply nonce_set_state_Ok in Hr3 as (d' & -> & Hd' & _). left.
    rewrite lamports_set_data, data_set_data, decide_True by done.
    split; [lia|]. by split.
  - right. split; [done|]. unfold instruction_checked_add in *. inv_ok. inv_checked. lia.
Qed.

(** A withdrawal from an initialized nonce account is signed by its
    authority and either empties it and uninitializes it, which is refused
    while the nonce is current, or leaves the nonce intact and at least
    the rent-exempt reserve. *)
Theorem nonce_withdrawal_keeps_reserve first accounts input n st st' me to d :
  decode_instruction input = Some (SystemInstruction.WithdrawNonceAccount n) ->
  accounts !! first = Some me -> accounts !! (first + 1)%nat = Some to ->
  key to <> key me -> nonce_at st (key me) (Nonce.Initialized d) ->
  run first accounts input st = Ok st' ->
  Nonce.authority d ∈ get_signers (drop first accounts) /\
  (lamports (acct st' (key me)) = 0 /\ nonce_at st' (key me) Nonce.Uninitialized /\
     Nonce.blockhash d <> ic_blockhash ic \/
   nonce_at st' (key me) (Nonce.Initialized d) /\
   exists i rent, accounts !! (first + 3)%nat = Some i /\ key i = rent_sysvar_id /\
     decode_rent (data (acct st (key i))) = Some rent /\
     minimum_balance rent (data_len st me) <= lamports (acct st' (key me))).
Proof.
  intros Hi Hme Hto Hne Hat H.
  unfold process_instruction, keyed_account_at_index, rent_at, from_keyed_account in H.
  rewrite Hi, Hme in H. cbn [ok_or mbind result_bind] in H. rewrite Hto in H.
  inv_ok. unfold keyed_account_at_index in *. inv_ok. to_prop.
  destruct (withdraw_initialized_Ok _ _ _ _ _ _ _ _ Hne Hat H) as [? [?|[? ?]]];
    split; auto. right. split; [done|]. eauto 10.
Qed.

(** Initializing a nonce account of the system program gives an account
    that the runtime recognizes as a nonce, accepts for the current
    blockhash, and charges at the current fee rate. *)
Theorem nonce_initialization first accounts input authorized st st' me :
  decode_instruction input = Some (SystemInstruction.InitializeNonceAccount authorized) ->
  accounts !! first = Some me -> owner (acct st (key me)) = system_program_id ->
  length (data (acct st (key me))) = nonce_state_size encode ->
  run first accounts input st = Ok st' ->
  nonce_at st (key me) Nonce.Uninitialized /\
  get_system_account_kind encode decode (acct st' (key me)) = Some KindNonce /\
  verify_nonce_account decode (acct st' (key me)) (ic_blockhash ic) = true /\
  lamports_per_signature_of decode (acct st' (key me)) = Some (ic_lamports_per_signature ic) /\
  nonce_at st' (key me) (Nonce.Initialized (Nonce.Data_new authorized
    (ic_blockhash ic) (ic_lamports_per_signature ic))).
Proof.
  intros Hi Hme Ho Hlen H.
  unfold process_instruction, keyed_account_at_index in H.
  rewrite Hi, Hme in H. cbn [ok_or mbind result_bind] in H. inv_ok.
  unfold initialize_nonce_account in H. inv_ok.
  match goal with Hg : get_state _ _ _ = Ok _ |- _ => apply nonce_state_Ok in Hg as Hat end.
  case_match; inv_ok. apply nonce_set_state_Ok in H as (d & -> & Hd & Hld).
  split; [done|]. unfold nonce_at, get_system_account_kind, verify_nonce_account,
    lamports_per_signature_of.
  rewrite data_set_data, decide_True, owner_set_data, Ho, Hd, Hld, Hlen, Nat.eqb_refl by done.
  rewrite bool_decide_eq_true_2 by done. cbn. rewrite bool_decide_eq_true_2 by done.
  destruct d as [|z d]; [|done]. exfalso.
  cbn in Hld. rewrite <- Hld in Hlen. symmetry in Hlen. apply nil_length_inv in Hlen.
  pose proof (codec (Nonce.Current (Nonce.Initialized
    (Nonce.Data_new default_key (replicate 32 0) 0))) (data (acct st (key me)))) as Hc.
  rewrite Hlen in Hc. cbn [app] in Hc. congruence.
Qed.
End Guarantees.

(** ** The guarantees on a concrete ledger *)
Module SystemSample.
Definition k (n : Z) : Pubkey := n :: replicate 31 1.
Definition hashv (l : list (list Z)) : Hash := take 32 (concat l ++ replicate 32 0).

Definition c_data : codec Nonce.Data.
Proof.
  refine (c_iso (c_pair c_key (c_pair c_key c_Z))
    (fun d => (Nonce.authority d, (Nonce.blockhash d, Nonce.get_lamports_per_signature d)))
    (fun p => Nonce.Data_new (fst p) (fst (snd p)) (snd (snd p))) _).
  by intros [? ? []].
Defined.

Definition c_nonce : codec Nonce.Versions.
Proof.
  refine (c_iso (c_option c_data)
    (fun v => match v with Nonce.Current Nonce.Uninitialized => None
                         | Nonce.Current (Nonce.Initialized d) => Some d end)
    (fun o => Nonce.Current match o with None => Nonce.Uninitialized
                                       | Some d => Nonce.Initialized d end) _).
  by intros [[]].
Defined.

Definition encode : Nonce.Versions -> list Z := enc c_nonce.
Definition decode : list Z -> option Nonce.Versions := decode_prefix c_nonce.

Lemma nonce_codec_ok v rest : decode (encode v ++ rest) = Some v.
Proof. apply decode_prefix_enc. Qed.

Definition decode_blockhashes (l : list Z) : option (list (Hash * Nonce.FeeCalculator)) :=
  Some [(l, {| Nonce.lamports_per_signature := 5 |})].
Definition decode_rent (l : list Z) : option Rent := Some Rent_default.
Definition decode_instruction (l : list Z) : option SystemInstruction.t :=
  match l with
  | [0] => Some (SystemInstruction.CreateAccount 100 4 (k 9))
  | [4] => Some SystemInstruction.AdvanceNonceAccount
  | [5] => Some (SystemInstruction.WithdrawNonceAccount 30)
  | [6] => Some (SystemInstruction.InitializeNonceAccount (k 5))
  | _ => None
  end.

Lemma sample_decoded_wf input i : decode_instruction input = Some i -> wf_instruction i.
Proof.
  unfold decode_instruction. intros H.
  repeat case_match; simplify_eq; cbn; unfold_max; lia.
Qed.

Definition ic : InvokeContext :=
  {| ic_blockhash := k 77; ic_lamports_per_signature := 5; rent_for_sysvars := false;
     system_transfer_zero_check := true; merge_nonce_error_into_system_error := true |}.

(** [k 1] pays, [k 2] is new, [k 3] is a nonce account of [k 5], [k 4] one to
    be initialized. *)
Definition nonce : Nonce.Data := Nonce.Data_new (k 5) (k 76) 4.
Definition account (l : Z) (d : list Z) : AccountSharedData :=
  {| lamports := l; data := d; owner := system_program_id; executable := false;
     rent_epoch := 0 |}.
Definition blank : list Z := replicate (nonce_state_size encode) 0.
Definition st : store :=
  <[k 1 := account 1000 []]>
  (<[k 3 := account 10000000 (encode (Nonce.Current (Nonce.Initialized nonce)))]>
  (<[k 4 := account 10000000 blank]> ∅)).
Definition info (j : Pubkey) (signer : bool) : AccountInfo :=
  {| key := j; is_signer := signer; is_writable := true |}.
Definition create_accounts := [info (k 1) true; info (k 2) true].
Definition advance_accounts :=
  [info (k 3) false; info recent_blockhashes_sysvar_id false; info (k 5) true].
Definition withdraw_accounts :=
  [info (k 3) false; info (k 1) false; info recent_blockhashes_sysvar_id false;
   info rent_sysvar_id false; info (k 5) true].
Definition init_accounts :=
  [info (k 4) false; info recent_blockhashes_sysvar_id false; info rent_sysvar_id false].

Abbreviation run := (process_instruction hashv encode decode decode_blockhashes decode_rent
  decode_instruction ic 0).
Definition after (accounts : list AccountInfo) (input : list Z) : store :=
  value_or st (run accounts input st).
Definition st_create : store := after create_accounts [0].
Definition st_advance : store := after advance_accounts [4].
Definition st_withdraw : store := after withdraw_accounts [5].
Definition st_init : store := after init_accounts [6].

Lemma sample_create : run create_accounts [0] st = Ok st_create.
Proof. apply is_ok_value. vm_compute. reflexivity. Qed.
Lemma sample_advance : run advance_accounts [4] st = Ok st_advance.
Proof. apply is_ok_value. vm_compute. reflexivity. Qed.
Lemma sample_withdraw : run withdraw_accounts [5] st = Ok st_withdraw.
Proof. apply is_ok_value. vm_compute. reflexivity. Qed.
Lemma sample_init : run init_accounts [6] st = Ok st_init.
Proof. apply is_ok_value. vm_compute. reflexivity. Qed.

Lemma system_lamports_conserved_witness :
  total_lamports st_withdraw = total_lamports st.
Proof.
  exact (system_lamports_conserved _ _ _ _ _ _ _ sample_decoded_wf 0 withdraw_accounts [5]
           st st_withdraw sample_withdraw).
Defined.

Lemma system_changes_are_authorized_witness :
  controls hashv [k 5] (k 3) \/ nonce_signed decode [k 5] st (k 3) \/
  owner (acct st_withdraw (k 3)) = owner (acct st (k 3)) /\
  lamports (acct st (k 3)) <= lamports (acct st_withdraw (k 3)) /\
  (data (acct st_withdraw (k 3)) = data (acct st (k 3)) \/
   decode (data (acct st (k 3))) = Some (Nonce.Current Nonce.Uninitialized)).
Proof.
  exact (system_changes_are_authorized _ _ _ _ _ _ _ sample_decoded_wf 0 withdraw_accounts [5]
           st st_withdraw (k 3) sample_withdraw).
Defined.

Lemma create_account_exact_witness :
  acct st_create (k 2) = new_account st (k 2) 100 4 (k 9) /\
  lamports (acct st_create (k 1)) = 900.
Proof.
  destruct (create_account_exact hashv encode decode decode_blockhashes decode_rent
    decode_instruction ic sample_decoded_wf 0 create_accounts [0]
    (SystemInstruction.CreateAccount 100 4 (k 9)) 100 4 (k 9) (info (k 1) true)
    (info (k 2) true) st st_create eq_refl (or_introl eq_refl) eq_refl eq_refl)
    as (_ & _ & _ & H).
  - vm_compute. discriminate.
  - exact sample_create.
  - split; [exact (H (k 2))|]. rewrite (H (k 1)). vm_compute. reflexivity.
Defined.

Lemma create_account_iff_witness : exists st', run create_accounts [0] st = Ok st'.
Proof.
  apply (create_account_iff hashv encode decode decode_blockhashes decode_rent
    decode_instruction ic sample_decoded_wf 0 create_accounts [0] 100 4 (k 9) (info (k 1) true)
    (info (k 2) true) st eq_refl eq_refl eq_refl); [discriminate|reflexivity|lia|].
  split; [apply (bool_decide_unpack _); vm_compute; exact I|].
  repeat (split; [vm_compute; (reflexivity || discriminate)|]).
  split; [right; discriminate|]. split; [reflexivity|]. vm_compute. discriminate.
Defined.

Lemma nonce_advances_once_witness :
  verify_nonce_account decode (acct st_advance (k 3)) (k 76) = false /\
  forall st'', run advance_accounts [4] st_advance <> Ok st''.
Proof.
  destruct (nonce_advances_once hashv encode decode decode_blockhashes decode_rent
    decode_instruction ic nonce_codec_ok 0 advance_accounts [4] st st_advance (info (k 3) false)
    eq_refl eq_refl sample_advance) as (d & Hd & _ & _ & Hv & Hrun).
  assert (d = nonce) as -> by (vm_compute in Hd; by injection Hd).
  split; [exact Hv|]. intros st''. by apply Hrun.
Defined.

Lemma nonce_withdrawal_keeps_reserve_witness :
  Nonce.authority nonce ∈ get_signers (drop 0 withdraw_accounts).
Proof.
  apply (nonce_withdrawal_keeps_reserve hashv encode decode decode_blockhashes decode_rent
    decode_instruction ic nonce_codec_ok 0 withdraw_accounts [5] 30 st st_withdraw
    (info (k 3) false) (info (k 1) false) nonce eq_refl eq_refl eq_refl);
    [discriminate|vm_compute; reflexivity|exact sample_withdraw].
Defined.

Lemma nonce_initialization_witness :
  get_system_account_kind encode decode (acct st_init (k 4)) = Some KindNonce.
Proof.
  apply (nonce_initialization hashv encode decode decode_blockhashes decode_rent
    decode_instruction ic nonce_codec_ok 0 init_accounts [6] (k 5) st st_init
    (info (k 4) false) eq_refl eq_refl eq_refl eq_refl sample_init).
Defined.
End SystemSample.
