(* ===== verification/ConfigProgram.v ===== *)
(** * Config program

    Models [src/testnet/programs/config/src/config_processor.rs] and the
    reading of configuration accounts in [lib.rs]: an account holds a list of
    keys, some of them marked as signers, followed by opaque data, and may be
    overwritten when the stored signers sign. *)

From stdpp Require Import base gmap list fin_maps strings.
From Stdlib Require Import ZArith Lia.
From S2P Require Import Prelude Sdk Runtime KeyedAccount Codec.

Definition config_program_id : Pubkey :=
  Eval vm_compute in declare_id "Config1111111111111111111111111111111111111".

Abbreviation ConfigKeys := (list (Pubkey * bool)).

(** The keys of the list that are marked as signers. *)
Definition signer_keys (keys : ConfigKeys) : list Pubkey :=
  fst <$> filter (fun x => snd x = true) keys.

Section Config.
(** [bincode] on lists of keys, and on the instruction data *)
Context (encode_keys : ConfigKeys -> list Z).
Context (decode_keys : list Z -> option ConfigKeys).
Context (decode_instruction : list Z -> option ConfigKeys).

(** [get_config_data]: what follows the keys *)
Definition get_config_data (bytes : list Z) : result unit (list Z) :=
  keys ← ok_or (decode_keys bytes) tt;
  let offset := length (encode_keys keys) in
  panic_unless (Nat.leb offset (length bytes)) ;;
  Ok (drop offset bytes).

(** The loop over the signers of the new list; returns their number. *)
Fixpoint check_new_signers (config_keyed_account : AccountInfo)
    (keyed_accounts : list AccountInfo) (current_keys : ConfigKeys)
    (new_signers : list Pubkey) (counter : nat) : instruction_result nat :=
  match new_signers with
  | [] => Ok counter
  | signer :: new_signers =>
      let counter := S counter in
      (if negb (bool_decide (signer = key config_keyed_account)) then
         signer_account ← ok_or (keyed_accounts !! S counter)
                            InstructionError.MissingRequiredSignature;
         fail_if (negb (is_signer signer_account)) InstructionError.MissingRequiredSignature ;;
         fail_if (negb (bool_decide (key signer_account = signer)))
           InstructionError.MissingRequiredSignature ;;
         fail_if (negb (match current_keys with [] => true | _ => false end)
                  && negb (bool_decide (signer ∈ signer_keys current_keys)))
           InstructionError.MissingRequiredSignature
       else
         fail_if (negb (is_signer config_keyed_account))
           InstructionError.MissingRequiredSignature) ;;
      check_new_signers config_keyed_account keyed_accounts current_keys new_signers counter
  end.

(** [dedupe]: the feature [dedupe_config_program_signers] *)
Definition process_instruction (first_instruction_account : nat)
    (keyed_accounts : list AccountInfo) (dedupe : bool) (input : list Z) (st : store)
  : instruction_result store :=
  key_list ← ok_or (decode_instruction input) InstructionError.InvalidInstructionData;
  me ← keyed_account_at_index keyed_accounts first_instruction_account;
  fail_if (negb (bool_decide (owner (acct st (key me)) = config_program_id)))
    InstructionError.InvalidAccountOwner ;;
  current_keys ← ok_or (decode_keys (data (acct st (key me))))
                   InstructionError.InvalidAccountData;
  let current_signer_keys := signer_keys current_keys in
  fail_if (match current_signer_keys with [] => true | _ => false end
           && negb (is_signer me)) InstructionError.MissingRequiredSignature ;;
  counter ← check_new_signers me keyed_accounts current_keys (signer_keys key_list) 0;
  fail_if (dedupe && negb (Nat.eqb (length (remove_dups key_list)) (length key_list)))
    InstructionError.InvalidArgument ;;
  fail_if (Nat.ltb counter (length current_signer_keys))
    InstructionError.MissingRequiredSignature ;;
  fail_if (Nat.ltb (length (data (acct st (key me)))) (length input))
    InstructionError.InvalidInstructionData ;;
  Ok (set_data st (key me) (input ++ drop (length input) (data (acct st (key me))))).

(** ** The stored signers decide *)
Lemma check_new_signers_Ok me accounts cur new n m :
  check_new_signers me accounts cur new n = Ok m ->
  m = (n + length new)%nat /\
  (is_signer me = false -> cur <> [] ->
   Forall (fun k => k ∈ signer_keys cur /\ k ∈ get_signers accounts) new).
Proof.
  revert n. induction new as [|k new IH]; intros n H; cbn [check_new_signers] in H.
  - inv_ok. split; [cbn; lia|constructor].
  - inv_ok. apply IH in H as [-> Hall]. split; [cbn; lia|].
    intros Hme Hcur. constructor; [|by apply Hall].
    case_bool_decide as Hk; cbn in Hr; [by rewrite Hme in Hr|]. inv_ok. to_prop.
    destruct cur as [|c cur]; [done|]. destruct Hr as [|Hr]; [done|]. to_prop.
    split; [done|]. apply elem_of_get_signers. eexists.
    split; [by eapply list_elem_of_lookup_2|done].
Qed.

Lemma NoDup_signer_keys keys : NoDup keys -> NoDup (signer_keys keys).
Proof.
  intros Hnd. unfold signer_keys. apply NoDup_fmap_2_strong; [|by apply NoDup_filter].
  intros [a b] [a' b'] Ha Hb Heq. cbn in Heq. subst.
  apply list_elem_of_filter in Ha as [Ha _], Hb as [Hb _]. cbn in *. by subst.
Qed.

Lemma remove_dups_full (keys : ConfigKeys) :
  length (remove_dups keys) = length keys -> NoDup keys.
Proof.
  intros Hl. assert (remove_dups keys ⊆+ keys) as Hsub.
  { apply NoDup_submseteq; [apply NoDup_remove_dups|]. intros x. by rewrite elem_of_remove_dups. }
  rewrite <- (submseteq_length_Permutation _ _ Hsub) by lia. apply NoDup_remove_dups.
Qed.

(** As many distinct new signers as stored ones, all of them stored: they are
    the stored ones. *)
Lemma signers_all_present keys cur (signed : list Pubkey) :
  NoDup keys -> (length (signer_keys cur) <= length (signer_keys keys))%nat ->
  Forall (fun k => k ∈ signer_keys cur /\ k ∈ signed) (signer_keys keys) ->
  signer_keys cur ⊆ signed.
Proof.
  intros Hnd Hle Hall. rewrite Forall_forall in Hall.
  assert (signer_keys keys ⊆+ signer_keys cur) as Hsub.
  { apply NoDup_submseteq; [by apply NoDup_signer_keys|]. intros k Hk. by apply Hall. }
  intros k Hk. rewrite <- (submseteq_length_Permutation _ _ Hsub) in Hk by lia.
  by apply Hall.
Qed.

(** With duplicate signers refused, a configuration account is only
    rewritten if it signed itself or all of its stored signers signed; the
    instruction data then replaces the front of its data, whose length,
    the lamports and every other account stay the same. *)
Theorem config_update_signed first accounts input st st' me cur :
  accounts !! first = Some me -> decode_keys (data (acct st (key me))) = Some cur ->
  process_instruction first accounts true input st = Ok st' ->
  (is_signer me = true \/ signer_keys cur ⊆ get_signers accounts) /\
  data (acct st' (key me)) = input ++ drop (length input) (data (acct st (key me))) /\
  length (data (acct st' (key me))) = length (data (acct st (key me))) /\
  (forall k, lamports (acct st' k) = lamports (acct st k)) /\
  forall k, k <> key me -> acct st' k = acct st k.
Proof.
  unfold process_instruction, keyed_account_at_index. intros Hme Hcur H.
  rewrite Hme in H. inv_ok. rewrite Hcur in *. inv_ok. cbn [andb] in *. to_prop.
  rename x0 into me, x2 into cur. apply Nat.eqb_eq in Hr5.
  apply Nat.ltb_ge in Hr6, Hr7.
  rewrite data_set_data, decide_True, length_app, length_drop by done. split.
  - destruct (is_signer me) eqn:Hs; [by left|right].
    destruct Hr3 as [Hne|]; [|done].
    apply check_new_signers_Ok in Hr4 as [-> Hall].
    eapply signers_all_present; [by apply remove_dups_full|exact Hr6|].
    apply Hall; [done|]. by intros ->.
  - split; [done|]. split; [lia|]. split; intros k.
    + apply lamports_set_data.
    + intros Hk. by rewrite acct_set_data, decide_False.
Qed.
End Config.

(** ** A configuration with two signers *)
Module ConfigSample.
Definition k (n : Z) : Pubkey := n :: replicate 31 3.
Definition c_keys : codec ConfigKeys := c_list (c_pair c_key c_bool).
Definition encode : ConfigKeys -> list Z := enc c_keys.
Definition decode : list Z -> option ConfigKeys := decode_prefix c_keys.

(** Stored at [k 3]: the signers [k 1] and [k 2]. *)
Definition stored : ConfigKeys := [(k 1, true); (k 2, true)].
Definition st : store :=
  <[k 3 := {| lamports := 1; data := encode stored ++ [7]; owner := config_program_id;
              executable := false; rent_epoch := 0 |}]> ∅.
Definition info (j : Pubkey) (signer : bool) : AccountInfo :=
  {| key := j; is_signer := signer; is_writable := true |}.
Definition accounts : list AccountInfo :=
  [info config_program_id false; info (k 3) false; info (k 1) true; info (k 2) true].
Definition input : list Z := encode stored ++ [8].

Definition update (l : list AccountInfo) (keys : list Z) : store :=
  value_or st (process_instruction decode decode 1 l true keys st).
Definition st_signed : store := update accounts input.

Lemma signed_update : process_instruction decode decode 1 accounts true input st = Ok st_signed.
Proof. apply is_ok_value. vm_compute. reflexivity. Qed.

Lemma config_update_signed_witness :
  [k 1; k 2] ⊆ get_signers accounts /\ data (acct st_signed (k 3)) = input.
Proof.
  destruct (config_update_signed decode decode 1 accounts input st st_signed
    (info (k 3) false) stored eq_refl) as ([Hs|Hs] & Hd & _);
    [vm_compute; reflexivity|exact signed_update|discriminate|].
  split; [exact Hs|]. refine (eq_trans Hd _). vm_compute. reflexivity.
Defined.

(** The account's own key counts as a signer although it is not stored: with
    its signature, [k 1] alone can replace the list [k 1], [k 2]. *)
Definition taken : ConfigKeys := [(k 1, true); (k 3, true)].
Definition short_accounts : list AccountInfo :=
  [info config_program_id false; info (k 3) true; info (k 1) true].
Definition st_taken : store := update short_accounts (encode taken).

Theorem account_key_replaces_signer :
  (k 2 ∈ signer_keys stored) /\ (k 2 ∉ get_signers short_accounts) /\
  process_instruction decode decode 1 short_accounts true (encode taken) st = Ok st_taken /\
  decode (data (acct st_taken (k 3))) = Some taken.
Proof.
  split; [by vm_compute; constructor; constructor|]. split; [|split].
  - apply (bool_decide_unpack _). vm_compute. exact I.
  - apply is_ok_value. vm_compute. reflexivity.
  - vm_compute. reflexivity.
Qed.
End ConfigSample.
