(* ===== verification/VoteState.v ===== *)
(** * Vote program: the vote state

    Models [src/testnet/programs/vote/src/vote_state/mod.rs] and
    [authorized_voters.rs]: the lockout tower, credits, timestamps, the
    authorized voters of coming epochs and the history of past ones.
    Arithmetic the source leaves unchecked wraps, as in a release build. *)

From stdpp Require Import base list sorting.
From Stdlib Require Import ZArith Lia.
From S2P Require Import Prelude Sdk Runtime.

Abbreviation Slot := Z (only parsing).
Abbreviation Epoch := Z (only parsing).
Abbreviation UnixTimestamp := Z (only parsing).

Definition MAX_LOCKOUT_HISTORY : nat := 31.
Definition INITIAL_LOCKOUT : Z := 2.
Definition MAX_EPOCH_CREDITS_HISTORY : nat := 64.
Definition MAX_ITEMS : nat := 32.

Inductive VoteError : Type :=
| VoteTooOld | SlotsMismatch | SlotHashMismatch | EmptySlots | TimestampTooOld
| TooSoonToReauthorize.

(** [VoteError] as [InstructionError::Custom], by declaration order. *)
Definition VoteError_into (e : VoteError) : InstructionError.t :=
  InstructionError.Custom
    (match e with
     | VoteTooOld => 0 | SlotsMismatch => 1 | SlotHashMismatch => 2
     | EmptySlots => 3 | TimestampTooOld => 4 | TooSoonToReauthorize => 5
     end).

Record Vote := {
  slots : list Slot;
  hash : Hash;
  timestamp : option UnixTimestamp;
}.

(** ** Lockouts *)
Record Lockout := { slot : Slot; confirmation_count : Z }.

Definition Lockout_new (s : Slot) : Lockout := {| slot := s; confirmation_count := 1 |}.

Definition lockout (l : Lockout) : Z :=
  wrap u64_max (INITIAL_LOCKOUT ^ confirmation_count l).
Definition last_locked_out_slot (l : Lockout) : Slot :=
  wrapping_add u64_max (slot l) (lockout l).
Definition is_locked_out_at_slot (l : Lockout) (s : Slot) : bool :=
  s <=? last_locked_out_slot l.

(** ** The circular buffer of prior voters *)
Record CircBuf (I : Type) := { buf : list I; idx : nat; is_empty : bool }.
Arguments buf {I}. Arguments idx {I}. Arguments is_empty {I}.

Definition CircBuf_default {I} (d : I) : CircBuf I :=
  {| buf := replicate MAX_ITEMS d; idx := MAX_ITEMS - 1; is_empty := true |}.

Definition CircBuf_append {I} (c : CircBuf I) (item : I) : CircBuf I :=
  let i := ((idx c + 1) mod MAX_ITEMS)%nat in
  {| buf := <[i := item]> (buf c); idx := i; is_empty := false |}.

Definition CircBuf_last {I} (c : CircBuf I) : option I :=
  if is_empty c then None else buf c !! idx c.

(** ** Authorized voters *)

(** A [BTreeMap] with integer keys, as its entries by increasing key. *)
Module BTreeMap.
Section Ops.
Context {V : Type}.
Implicit Types (m : list (Z * V)) (k : Z) (v : V).

Fixpoint get k m : option V :=
  match m with
  | [] => None
  | (k', v) :: m => if k =? k' then Some v else get k m
  end.

Fixpoint insert k v m : list (Z * V) :=
  match m with
  | [] => [(k, v)]
  | (k', v') :: m' =>
      if k <? k' then (k, v) :: m
      else if k =? k' then (k, v) :: m'
      else (k', v') :: insert k v m'
  end.

Definition remove k m : list (Z * V) := filter (fun e => fst e <> k) m.

(** [range(0..k)] *)
Definition range_to k m : list (Z * V) := filter (fun e => fst e < k) m.
End Ops.
End BTreeMap.

Abbreviation AuthorizedVoters := (list (Z * Pubkey)).

Definition AuthorizedVoters_new (epoch : Epoch) (k : Pubkey) : AuthorizedVoters :=
  BTreeMap.insert epoch k [].

Definition get_or_calculate_authorized_voter_for_epoch
    (m : AuthorizedVoters) (epoch : Epoch) : option (Pubkey * bool) :=
  match BTreeMap.get epoch m with
  | None => (fun e => (snd e, false)) <$> last (BTreeMap.range_to epoch m)
  | Some k => Some (k, true)
  end.

Definition AuthorizedVoters_get (m : AuthorizedVoters) (epoch : Epoch) : option Pubkey :=
  fst <$> get_or_calculate_authorized_voter_for_epoch m epoch.

Definition get_and_cache_authorized_voter_for_epoch
    (m : AuthorizedVoters) (epoch : Epoch) : option Pubkey * AuthorizedVoters :=
  match get_or_calculate_authorized_voter_for_epoch m epoch with
  | Some (k, existed) =>
      (Some k, if existed then m else BTreeMap.insert epoch k m)
  | None => (None, m)
  end.

Definition purge_authorized_voters (m : AuthorizedVoters) (current_epoch : Epoch)
  : instruction_result AuthorizedVoters :=
  let expired_keys := fst <$> BTreeMap.range_to current_epoch m in
  let m := foldl (fun m k => BTreeMap.remove k m) m expired_keys in
  panic_unless (match m with [] => false | _ => true end) ;;
  Ok m.

Definition AuthorizedVoters_last (m : AuthorizedVoters) : option (Epoch * Pubkey) := last m.
Definition AuthorizedVoters_contains (m : AuthorizedVoters) (epoch : Epoch) : bool :=
  match BTreeMap.get epoch m with Some _ => true | None => false end.

(** ** The vote state *)
Record BlockTimestamp := { ts_slot : Slot; ts_timestamp : UnixTimestamp }.

Record VoteInit := {
  init_node_pubkey : Pubkey;
  init_authorized_voter : Pubkey;
  init_authorized_withdrawer : Pubkey;
  init_commission : Z;
}.

Inductive VoteAuthorize : Type := Voter | Withdrawer.

Record VoteState := {
  node_pubkey : Pubkey;
  authorized_withdrawer : Pubkey;
  commission : Z;
  votes : list Lockout;
  root_slot : option Slot;
  authorized_voters : AuthorizedVoters;
  prior_voters : CircBuf (Pubkey * Epoch * Epoch);
  epoch_credits : list (Epoch * Z * Z);
  last_timestamp : BlockTimestamp;
}.

Definition VoteState_default : VoteState :=
  {| node_pubkey := default_key; authorized_withdrawer := default_key; commission := 0;
     votes := []; root_slot := None; authorized_voters := [];
     prior_voters := CircBuf_default (default_key, 0, 0); epoch_credits := [];
     last_timestamp := {| ts_slot := 0; ts_timestamp := 0 |} |}.

Definition VoteState_new (i : VoteInit) (clock_epoch : Epoch) : VoteState :=
  {| node_pubkey := init_node_pubkey i;
     authorized_withdrawer := init_authorized_withdrawer i;
     commission := init_commission i; votes := []; root_slot := None;
     authorized_voters := AuthorizedVoters_new clock_epoch (init_authorized_voter i);
     prior_voters := CircBuf_default (default_key, 0, 0); epoch_credits := [];
     last_timestamp := {| ts_slot := 0; ts_timestamp := 0 |} |}.

(** *** Field updates of [&mut self] *)
Definition with_tower (vs : VoteState) (vo : list Lockout) (root : option Slot)
    (credits : list (Epoch * Z * Z)) : VoteState :=
  {| node_pubkey := node_pubkey vs; authorized_withdrawer := authorized_withdrawer vs;
     commission := commission vs; votes := vo; root_slot := root;
     authorized_voters := authorized_voters vs; prior_voters := prior_voters vs;
     epoch_credits := credits; last_timestamp := last_timestamp vs |}.
Definition with_votes (vs : VoteState) (vo : list Lockout) : VoteState :=
  with_tower vs vo (root_slot vs) (epoch_credits vs).
Definition with_voters (vs : VoteState) (m : AuthorizedVoters)
    (prior : CircBuf (Pubkey * Epoch * Epoch)) : VoteState :=
  {| node_pubkey := node_pubkey vs; authorized_withdrawer := authorized_withdrawer vs;
     commission := commission vs; votes := votes vs; root_slot := root_slot vs;
     authorized_voters := m; prior_voters := prior;
     epoch_credits := epoch_credits vs; last_timestamp := last_timestamp vs |}.
Definition with_timestamp (vs : VoteState) (t : BlockTimestamp) : VoteState :=
  {| node_pubkey := node_pubkey vs; authorized_withdrawer := authorized_withdrawer vs;
     commission := commission vs; votes := votes vs; root_slot := root_slot vs;
     authorized_voters := authorized_voters vs; prior_voters := prior_voters vs;
     epoch_credits := epoch_credits vs; last_timestamp := t |}.
Definition with_identity (vs : VoteState) (node withdrawer : Pubkey) (c : Z) : VoteState :=
  {| node_pubkey := node; authorized_withdrawer := withdrawer; commission := c;
     votes := votes vs; root_slot := root_slot vs;
     authorized_voters := authorized_voters vs; prior_voters := prior_voters vs;
     epoch_credits := epoch_credits vs; last_timestamp := last_timestamp vs |}.

Definition commission_split (vs : VoteState) (on : Z) : Z * Z * bool :=
  let split := Z.min (commission vs) 100 in
  if split =? 0 then (0, on, false)
  else if split =? 100 then (on, 0, false)
  else (wrap u64_max (on * split / 100), wrap u64_max (on * (100 - split) / 100), true).

Definition last_lockout (vs : VoteState) : option Lockout := last (votes vs).
Definition last_voted_slot (vs : VoteState) : option Slot := slot <$> last_lockout vs.
Definition nth_recent_vote (vs : VoteState) (position : nat) : option Lockout :=
  if Nat.ltb position (length (votes vs))
  then votes vs !! (length (votes vs) - 1 - position)%nat else None.
Definition tower (vs : VoteState) : list Slot := slot <$> votes vs.
Definition current_epoch (vs : VoteState) : Epoch :=
  match last (epoch_credits vs) with Some (e, _, _) => e | None => 0 end.
Definition credits (vs : VoteState) : Z :=
  match last (epoch_credits vs) with Some (_, c, _) => c | None => 0 end.

(** [last_voted_slot.map_or(false, |last| s <= last)] *)
Definition already_voted (last_slot : option Slot) (s : Slot) : bool :=
  match last_slot with Some l => s <=? l | None => false end.

(** *** Matching a vote against the bank's slot hashes

    [i] walks the vote's slots from the oldest, [j] the slot hashes from their
    end (the oldest); every turn moves one of them. *)
Fixpoint match_slots (fuel : nat) (last_slot : option Slot) (vslots : list Slot)
    (slot_hashes : list (Slot * Hash)) (i j : nat) : nat * nat :=
  match fuel with
  | O => (i, j)
  | S fuel =>
      if Nat.ltb i (length vslots) && Nat.ltb 0 j then
        if already_voted last_slot (nth i vslots 0) then
          match_slots fuel last_slot vslots slot_hashes (S i) j
        else if negb (nth i vslots 0 =? fst (nth (j - 1) slot_hashes (0, []))) then
          match_slots fuel last_slot vslots slot_hashes i (j - 1)
        else match_slots fuel last_slot vslots slot_hashes (S i) (j - 1)
      else (i, j)
  end.

Definition check_slots_are_valid (vs : VoteState) (vote : Vote)
    (slot_hashes : list (Slot * Hash)) : result VoteError unit :=
  let '(i, j) := match_slots (length (slots vote) + length slot_hashes)
                   (last_voted_slot vs) (slots vote) slot_hashes
                   0 (length slot_hashes) in
  fail_if (Nat.eqb j (length slot_hashes)) VoteTooOld ;;
  fail_if (negb (Nat.eqb i (length (slots vote)))) SlotsMismatch ;;
  match slot_hashes !! j with
  | Some (_, h) => fail_if (negb (bool_decide (h = hash vote))) SlotHashMismatch
  | None => Panic
  end.

(** *** The tower *)
Fixpoint pop_expired_back (rvotes : list Lockout) (next_vote_slot : Slot) : list Lockout :=
  match rvotes with
  | [] => []
  | v :: rest =>
      if negb (is_locked_out_at_slot v next_vote_slot)
      then pop_expired_back rest next_vote_slot else rvotes
  end.

(** The newest vote is at the back. *)
Definition pop_expired_votes (vo : list Lockout) (next_vote_slot : Slot) : list Lockout :=
  reverse (pop_expired_back (reverse vo) next_vote_slot).

Definition double_lockouts (vo : list Lockout) : list Lockout :=
  let stack_depth := Z.of_nat (length vo) in
  imap (fun i v =>
          if Z.of_nat i + confirmation_count v <? stack_depth
          then {| slot := slot v;
                  confirmation_count := wrapping_add u32_max (confirmation_count v) 1 |}
          else v) vo.

(** [epoch_credits.last_mut().unwrap().1 += 1] *)
Definition bump_last_credit (ec : list (Epoch * Z * Z)) : list (Epoch * Z * Z) :=
  match last ec with
  | Some (e, c, p) => removelast ec ++ [(e, wrapping_add u64_max c 1, p)]
  | None => ec
  end.

Definition increment_credits (ec : list (Epoch * Z * Z)) (epoch : Epoch)
  : list (Epoch * Z * Z) :=
  let ec :=
    match last ec with
    | None => [(epoch, 0, 0)]
    | Some (e, c, p) =>
        if negb (epoch =? e) then
          let ec :=
            if negb (c =? p) then ec ++ [(epoch, c, c)]
            else removelast ec ++ [(epoch, c, p)] in
          if Nat.ltb MAX_EPOCH_CREDITS_HISTORY (length ec) then tl ec else ec
        else ec
    end in
  bump_last_credit ec.

Definition process_next_vote_slot (vs : VoteState) (next_vote_slot : Slot) (epoch : Epoch)
  : VoteState :=
  if already_voted (last_voted_slot vs) next_vote_slot then vs
  else
    let vs := with_votes vs (pop_expired_votes (votes vs) next_vote_slot) in
    let vs :=
      if Nat.eqb (length (votes vs)) MAX_LOCKOUT_HISTORY then
        match votes vs with
        | v :: rest =>
            with_tower vs rest (Some (slot v)) (increment_credits (epoch_credits vs) epoch)
        | [] => vs
        end
      else vs in
    with_votes vs (double_lockouts (votes vs ++ [Lockout_new next_vote_slot])).

Definition process_vote (vs : VoteState) (vote : Vote)
    (slot_hashes : list (Slot * Hash)) (epoch : Epoch) : result VoteError VoteState :=
  match slots vote with
  | [] => Err EmptySlots
  | _ =>
      check_slots_are_valid vs vote slot_hashes ;;
      Ok (foldl (fun vs s => process_next_vote_slot vs s epoch) vs (slots vote))
  end.

(** The error, if any, is ignored. *)
Definition process_vote_unchecked (vs : VoteState) (vote : Vote) : result VoteError VoteState :=
  let slot_hashes := (fun x => (x, hash vote)) <$> reverse (slots vote) in
  match process_vote vs vote slot_hashes (current_epoch vs) with
  | Err _ => Ok vs
  | r => r
  end.

Definition process_slot_vote_unchecked (vs : VoteState) (s : Slot)
  : result VoteError VoteState :=
  process_vote_unchecked vs
    {| slots := [s]; hash := replicate 32 0; timestamp := None |}.

Definition process_timestamp (vs : VoteState) (s : Slot) (t : UnixTimestamp)
  : result VoteError VoteState :=
  let '{| ts_slot := ls; ts_timestamp := lt |} := last_timestamp vs in
  fail_if ((s <? ls) || (t <? lt)
           || ((s =? ls) && negb ((s =? ls) && (t =? lt)) && negb (ls =? 0)))
    TimestampTooOld ;;
  Ok (with_timestamp vs {| ts_slot := s; ts_timestamp := t |}).

(** *** Changing the authorized voter *)
Definition get_and_update_authorized_voter (vs : VoteState) (current : Epoch)
  : instruction_result (Pubkey * VoteState) :=
  let '(k, m) := get_and_cache_authorized_voter_for_epoch (authorized_voters vs) current in
  k ← ok_or k InstructionError.InvalidAccountData;
  m ← purge_authorized_voters m current;
  Ok (k, with_voters vs m (prior_voters vs)).

Definition set_new_authorized_voter (vs : VoteState) (authorized : Pubkey)
    (current target : Epoch) (verify : Pubkey -> instruction_result unit)
  : instruction_result VoteState :=
  '(epoch_authorized_voter, vs) ← get_and_update_authorized_voter vs current;
  verify epoch_authorized_voter ;;
  fail_if (AuthorizedVoters_contains (authorized_voters vs) target)
    (VoteError_into TooSoonToReauthorize) ;;
  '(latest_epoch, latest) ← ok_or (AuthorizedVoters_last (authorized_voters vs))
                              InstructionError.InvalidAccountData;
  prior ←
    (if negb (bool_decide (latest = authorized)) then
       let since := match CircBuf_last (prior_voters vs) with
                    | Some (_, _, e) => e | None => 0 end in
       panic_unless (latest_epoch <? target) ;;
       Ok (CircBuf_append (prior_voters vs) (latest, since, target))
     else Ok (prior_voters vs));
  Ok (with_voters vs (BTreeMap.insert target authorized (authorized_voters vs)) prior).
