(* ===== verification/VoteProofs.v ===== *)
(** * Vote program: slot matching, the tower, credits and timestamps

    What [process_vote] accepts and what it does to the tower of lockouts. *)

From stdpp Require Import base list sorting.
From Stdlib Require Import ZArith Lia.
From S2P Require Import Prelude Sdk Runtime VoteState.

(** ** Which votes the bank's history supports *)
Section MatchSlots.
Context (last_slot : option Slot) (vslots : list Slot) (hashes : list (Slot * Hash)).

(** The slots of the vote that are new to the voter. *)
Definition new_slots (l : list Slot) : list Slot :=
  filter (fun s => already_voted last_slot s = false) l.

(** The matched part: up to position [i] of the vote, against the hashes from
    [j0] on; [j] has moved past [j0] only in search of a new slot at [i]. *)
Definition matched (i j j0 : nat) : Prop :=
  (j <= j0 <= length hashes)%nat /\ (i <= length vslots)%nat /\
  new_slots (take i vslots) `sublist_of` (fst <$> reverse (drop j0 hashes)) /\
  (if decide (j0 = length hashes) then new_slots (take i vslots) = []
   else exists s h, hashes !! j0 = Some (s, h) /\
                    last (new_slots (take i vslots)) = Some s) /\
  (j = j0 \/ exists s, vslots !! i = Some s /\ already_voted last_slot s = false).

Lemma new_slots_snoc i s :
  vslots !! i = Some s ->
  new_slots (take (S i) vslots) =
    new_slots (take i vslots) ++ (if already_voted last_slot s then [] else [s]).
Proof.
  intros Hs. rewrite (take_S_r _ _ _ Hs). unfold new_slots. rewrite filter_app.
  f_equal. cbn. destruct (already_voted last_slot s); [done|by rewrite decide_True].
Qed.

Lemma match_slots_matched fuel i j j0 i' j' :
  matched i j j0 -> match_slots fuel last_slot vslots hashes i j = (i', j') ->
  exists j0', matched i' j' j0'.
Proof.
  revert i j j0. induction fuel as [|fuel IH]; intros i j j0 HM H;
    cbn [match_slots] in H.
  { injection H as <- <-. eauto. }
  destruct (Nat.ltb_spec i (length vslots)) as [Hi|];
    [|cbn in H; injection H as <- <-; eauto].
  destruct (Nat.ltb_spec 0 j) as [Hj|]; [|cbn in H; injection H as <- <-; eauto].
  cbn [andb] in H.
  destruct (lookup_lt_is_Some_2 _ _ Hi) as [s Hs].
  rewrite (nth_lookup_Some _ _ _ _ Hs) in H.
  destruct HM as (Hle & Hin & Hsub & Hlast & Hpos).
  destruct (already_voted last_slot s) eqn:Hold.
  - eapply (IH (S i) j j0); [|exact H]. unfold matched.
    rewrite (new_slots_snoc _ _ Hs), Hold, app_nil_r.
    destruct Hpos as [->|(s' & Hs' & Hnew)]; [|congruence].
    split; [lia|]. split; [lia|auto].
  - destruct (lookup_lt_is_Some_2 hashes (j - 1)) as [[x h] Hx]; [lia|].
    rewrite (nth_lookup_Some _ _ _ _ Hx) in H. cbn in H.
    destruct (Z.eqb_spec s x) as [<-|Hne]; cbn in H.
    + eapply (IH (S i) (j - 1)%nat (j - 1)%nat); [|exact H].
      unfold matched. rewrite (new_slots_snoc _ _ Hs), Hold. do 2 (split; [lia|]).
      split; [|split; [|by left]].
      * rewrite (drop_S _ _ _ Hx), reverse_cons, fmap_app. apply sublist_app; [|done].
        replace (S (j - 1)) with j by lia. etrans; [exact Hsub|].
        apply fmap_sublist. rewrite <- (take_drop (j0 - j) (drop j hashes)), reverse_app,
          drop_drop. replace (j + (j0 - j))%nat with j0 by lia.
        by apply sublist_inserts_r.
      * rewrite decide_False by lia. exists s, h. split; [done|]. by rewrite last_snoc.
    + eapply (IH i (j - 1)%nat j0); [|exact H]. do 2 (split; [lia|]). split; [done|].
      split; [done|]. right. eauto.
Qed.

(** The new slots still to be matched, against the hashes still ahead. *)
Definition matchable (i j : nat) : Prop :=
  (j <= length hashes)%nat /\
  new_slots (drop i vslots) `sublist_of` (fst <$> reverse (take j hashes)).

Lemma match_slots_matchable fuel i j i' j' :
  matchable i j -> (length vslots - i + j <= fuel)%nat ->
  match_slots fuel last_slot vslots hashes i j = (i', j') ->
  matchable i' j' /\ ((length vslots <= i')%nat \/ j' = 0%nat).
Proof.
  revert i j. induction fuel as [|fuel IH]; intros i j HM Hf H; cbn [match_slots] in H.
  { injection H as <- <-. split; [done|]. right. lia. }
  destruct (Nat.ltb_spec i (length vslots)) as [Hi|Hi];
    [|cbn in H; injection H as <- <-; auto].
  destruct (Nat.ltb_spec 0 j) as [Hj|Hj];
    [|cbn in H; injection H as <- <-; split; [done|right; lia]].
  cbn [andb] in H. destruct (lookup_lt_is_Some_2 _ _ Hi) as [s Hs].
  rewrite (nth_lookup_Some _ _ _ _ Hs) in H. destruct HM as [Hle Hsub].
  assert (new_slots (drop i vslots) = (if already_voted last_slot s then [] else [s])
            ++ new_slots (drop (S i) vslots)) as Hd.
  { rewrite (drop_S _ _ _ Hs). unfold new_slots. rewrite filter_cons.
    destruct (already_voted last_slot s); [by rewrite decide_False|by rewrite decide_True]. }
  rewrite Hd in Hsub. destruct (already_voted last_slot s) eqn:Hold.
  - eapply (IH (S i) j); [by split|lia|exact H].
  - destruct (lookup_lt_is_Some_2 hashes (j - 1)) as [[x h] Hx]; [lia|].
    assert (take j hashes = take (j - 1) hashes ++ [(x, h)]) as Ht.
    { replace j with (S (j - 1)) at 1 by lia. by apply take_S_r. }
    rewrite Ht, reverse_app in Hsub. cbn in Hsub. apply sublist_cons_r in Hsub.
    rewrite (nth_lookup_Some _ _ _ _ Hx) in H. cbn [fst] in H.
    destruct (Z.eqb_spec s x) as [<-|Hne]; cbn [negb] in H.
    + eapply (IH (S i) (j - 1)%nat); [|lia|exact H]. split; [lia|].
      destruct Hsub as [Hsub|(l' & [= ->] & Hsub)]; [|done].
      etrans; [|exact Hsub]. by apply sublist_cons.
    + eapply (IH i (j - 1)%nat); [|lia|exact H]. split; [lia|]. rewrite Hd.
      destruct Hsub as [Hsub|(l' & [= ->] & _)]; done.
Qed.
End MatchSlots.

Lemma matched_start last_slot vslots hashes :
  matched last_slot vslots hashes 0 (length hashes) (length hashes).
Proof.
  unfold matched. rewrite take_0, drop_all. split; [lia|]. split; [lia|].
  split; [apply sublist_nil_l|]. rewrite decide_True by done. auto.
Qed.

(** At the end of the vote nothing is being searched for. *)
Lemma matched_end last_slot vslots hashes j j0 :
  matched last_slot vslots hashes (length vslots) j j0 -> j = j0.
Proof.
  intros (_ & _ & _ & _ & [->|(s & Hs & _)]); [done|].
  rewrite lookup_ge_None_2 in Hs by lia. discriminate.
Qed.

Section CheckSlots.
Context (vs : VoteState) (vote : Vote) (slot_hashes : list (Slot * Hash)).

Abbreviation fresh := (new_slots (last_voted_slot vs) (slots vote)).

(** What [check_slots_are_valid] accepts. *)
Definition supported : Prop :=
  fresh `sublist_of` (fst <$> reverse slot_hashes) /\
  exists s, last fresh = Some s /\ (s, hash vote) ∈ slot_hashes.

Lemma check_slots_inv :
  exists i j j0, matched (last_voted_slot vs) (slots vote) slot_hashes i j j0 /\
    match_slots (length (slots vote) + length slot_hashes) (last_voted_slot vs)
      (slots vote) slot_hashes 0 (length slot_hashes) = (i, j).
Proof.
  destruct (match_slots _ _ _ _ _ _) as [i j] eqn:E.
  destruct (match_slots_matched _ _ _ _ _ _ _ _ _ (matched_start _ _ _) E) as [j0 HM].
  eauto 6.
Qed.

Lemma check_slots_no_panic : check_slots_are_valid vs vote slot_hashes <> Panic.
Proof.
  unfold check_slots_are_valid. destruct check_slots_inv as (i & j & j0 & HM & ->).
  destruct HM as ([Hj Hj0] & _).
  destruct (Nat.eqb_spec j (length slot_hashes)); [done|].
  destruct (Nat.eqb_spec i (length (slots vote))); [cbn|done].
  destruct (lookup_lt_is_Some_2 slot_hashes j) as [[s h] ->]; [lia|].
  by destruct (negb _).
Qed.

Lemma check_slots_sound : check_slots_are_valid vs vote slot_hashes = Ok tt -> supported.
Proof.
  unfold check_slots_are_valid. destruct check_slots_inv as (i & j & j0 & HM & ->).
  intros H. inv_ok. to_prop. rewrite Nat.eqb_neq in Hr. rewrite Nat.eqb_eq in Hr0. subst i.
  destruct (slot_hashes !! j) as [[s h]|] eqn:Hj; [|done]. inv_ok. to_prop. subst h.
  pose proof (matched_end _ _ _ _ _ HM) as <-.
  destruct HM as (_ & _ & Hsub & Hlast & _). rewrite firstn_all in *.
  rewrite decide_False in Hlast by done. destruct Hlast as (s' & h' & Hj' & Hl).
  rewrite Hj in Hj'. injection Hj' as <- <-. split.
  - etrans; [exact Hsub|]. apply fmap_sublist.
    rewrite <- (take_drop j slot_hashes) at 2. rewrite reverse_app. by apply sublist_inserts_r.
  - exists s. split; [done|]. by eapply list_elem_of_lookup_2.
Qed.

Lemma fresh_suffix i :
  StronglySorted Z.lt (slots vote) ->
  new_slots (last_voted_slot vs) (take i (slots vote)) <> [] ->
  new_slots (last_voted_slot vs) (drop i (slots vote)) = [] ->
  (length (slots vote) <= i)%nat.
Proof.
  intros Hs Hne Hnil. destruct (decide (length (slots vote) <= i)%nat); [done|exfalso].
  destruct (lookup_lt_is_Some_2 (slots vote) i) as [s Hi]; [lia|].
  rewrite (drop_S _ _ _ Hi) in Hnil. unfold new_slots in Hnil. rewrite filter_cons in Hnil.
  case_decide as Hold; [done|].
  destruct (new_slots _ (take i (slots vote))) as [|x l] eqn:E; [done|].
  assert (x ∈ new_slots (last_voted_slot vs) (take i (slots vote))) as Hx
    by (rewrite E; apply list_elem_of_here).
  unfold new_slots in Hx. apply list_elem_of_filter in Hx as [Hxnew Hx].
  assert (x < s) as Hlt.
  { rewrite <- (take_drop_middle _ _ _ Hi) in Hs.
    apply StronglySorted_app_1_elem_of with (l1 := take i (slots vote))
      (l2 := s :: drop (S i) (slots vote)); [done|done|apply list_elem_of_here]. }
  destruct (last_voted_slot vs) as [l0|]; cbn in *; [|done].
  apply Hold. apply Z.leb_gt. apply Z.leb_gt in Hxnew. lia.
Qed.

Lemma check_slots_complete :
  StronglySorted Z.lt (slots vote) -> NoDup (fst <$> slot_hashes) ->
  supported -> check_slots_are_valid vs vote slot_hashes = Ok tt.
Proof.
  intros Hsort Hnd [Hsub (s & Hlast & Hin)].
  unfold check_slots_are_valid. destruct check_slots_inv as (i & j & j0 & HM & E).
  assert (fresh <> []) as Hne by (intros E'; by rewrite E' in Hlast).
  assert (matchable (last_voted_slot vs) (slots vote) slot_hashes 0 (length slot_hashes))
    as H0 by (split; [done|by rewrite firstn_all]).
  pose proof E as Hrun.
  eapply match_slots_matchable in Hrun as [[_ Hrest] Hend]; [|exact H0|lia].
  pose proof HM as (Hj & Hi & _ & Hl & _).
  assert (i = length (slots vote)) as ->.
  { destruct Hend as [|Hj0]; [lia|subst j]. apply sublist_nil_r in Hrest.
    enough (length (slots vote) <= i)%nat by lia. apply fresh_suffix; [done| |done].
    intros E'. apply Hne. rewrite <- (take_drop i (slots vote)). unfold new_slots in *.
    by rewrite filter_app, E', Hrest. }
  pose proof (matched_end _ _ _ _ _ HM) as <-. rewrite firstn_all in Hl. rewrite E.
  case_decide as Hjl; [done|]. destruct Hl as (s' & h & Hj' & Hl').
  rewrite (proj2 (Nat.eqb_neq _ _) Hjl), Nat.eqb_refl. cbn [negb fail_if mbind result_bind].
  rewrite Hj'. rewrite Hlast in Hl'. injection Hl' as <-.
  assert (h = hash vote) as ->; [|by rewrite bool_decide_true].
  apply list_elem_of_lookup in Hin as [j' Hj''].
  assert (j = j') as <-; [|congruence].
  eapply (NoDup_lookup _ _ _ s); [exact Hnd|..]; by rewrite list_lookup_fmap, ?Hj', ?Hj''.
Qed.
End CheckSlots.

(** ** The tower of lockouts *)

(** Slots increase towards the back; a vote with [d] votes from it to the back
    has at least [d] confirmations and more than the votes behind it. *)
Record stack_ok (vo : list Lockout) : Prop := {
  stack_slots : StronglySorted Z.lt (slot <$> vo);
  stack_conf : forall i v, vo !! i = Some v ->
    Z.of_nat (length vo - i) <= confirmation_count v <= 31;
  stack_dec : forall i v w, vo !! i = Some v -> vo !! S i = Some w ->
    confirmation_count w < confirmation_count v;
}.

Definition push_vote (vo : list Lockout) (s : Slot) : list Lockout :=
  double_lockouts (vo ++ [Lockout_new s]).

Lemma stack_ok_nil : stack_ok [].
Proof. split; [constructor|intros; discriminate..]. Qed.

Lemma stack_ok_prefix vo popped : stack_ok (vo ++ popped) -> stack_ok vo.
Proof.
  intros [Hs Hc Hd]. split.
  - rewrite fmap_app in Hs. by apply StronglySorted_app_1_l in Hs.
  - intros i v Hi. specialize (Hc i v (lookup_app_l_Some _ _ _ _ Hi)).
    rewrite length_app in Hc. apply lookup_lt_Some in Hi. lia.
  - intros i v w Hi Hj. apply (Hd i); by apply lookup_app_l_Some.
Qed.

Lemma stack_ok_tail v vo : stack_ok (v :: vo) -> stack_ok vo.
Proof.
  intros [Hs Hc Hd]. split.
  - by apply StronglySorted_inv in Hs as [? _].
  - intros i w Hi. exact (Hc (S i) w Hi).
  - intros i u w Hi Hj. exact (Hd (S i) u w Hi Hj).
Qed.

(** The confirmations of a vote after a push on [n] votes. *)
Definition doubled (n i : nat) (v : Lockout) : Lockout :=
  if Z.of_nat i + confirmation_count v <? Z.of_nat n
  then {| slot := slot v;
          confirmation_count := wrapping_add u32_max (confirmation_count v) 1 |}
  else v.

Lemma double_lockouts_lookup vo i :
  double_lockouts vo !! i = doubled (length vo) i <$> vo !! i.
Proof. unfold double_lockouts. by rewrite list_lookup_imap. Qed.

Lemma length_double_lockouts vo : length (double_lockouts vo) = length vo.
Proof. apply length_imap. Qed.

Lemma slot_double_lockouts vo : slot <$> double_lockouts vo = slot <$> vo.
Proof.
  apply list_eq. intros i. rewrite !list_lookup_fmap, double_lockouts_lookup.
  destruct (vo !! i); [|done]. cbn. unfold doubled. by case_match.
Qed.

Lemma doubled_conf n i v :
  Z.of_nat n - 1 <= Z.of_nat i + confirmation_count v -> 1 <= confirmation_count v <= 31 ->
  (i < n)%nat -> (n <= 31)%nat ->
  confirmation_count (doubled n i v) = Z.max (confirmation_count v) (Z.of_nat (n - i)).
Proof.
  intros Hlo Hc Hi Hn. unfold doubled. case_match; to_prop; cbn; [|lia].
  unfold wrapping_add, wrap. rewrite Z.mod_small; unfold_max; lia.
Qed.

Lemma stack_ok_push vo s :
  stack_ok vo -> (length vo <= 30)%nat -> Forall (fun v => slot v < s) vo ->
  stack_ok (push_vote vo s).
Proof.
  intros [Hs Hc Hd] Hlen Hlt. unfold push_vote.
  assert (forall i v, (vo ++ [Lockout_new s]) !! i = Some v ->
    (i < length (vo ++ [Lockout_new s]))%nat /\
    confirmation_count (doubled (length (vo ++ [Lockout_new s])) i v) =
      Z.max (confirmation_count v) (Z.of_nat (length (vo ++ [Lockout_new s]) - i)) /\
    1 <= confirmation_count v <= 31) as Hconf.
  { intros i v Hv. pose proof (lookup_lt_Some _ _ _ Hv) as Hi. split; [done|].
    enough (Z.of_nat (length (vo ++ [Lockout_new s])) - 1 <= Z.of_nat i + confirmation_count v
            /\ 1 <= confirmation_count v <= 31) as [H1 H2].
    { split; [|done]. apply doubled_conf; try done. rewrite length_app. cbn. lia. }
    rewrite length_app in *. cbn in *. apply lookup_app_Some in Hv as [Hv|[Hge Hv]].
    - specialize (Hc i v Hv). apply lookup_lt_Some in Hv. lia.
    - destruct (i - length vo)%nat as [|n] eqn:E; [|done]. injection Hv as <-. cbn. lia. }
  split.
  - rewrite slot_double_lockouts, fmap_app. apply StronglySorted_app_2; [|done|].
    + intros x y Hx Hy. apply list_elem_of_fmap in Hx as (v & -> & Hv).
      rewrite Forall_forall in Hlt. specialize (Hlt v Hv).
      apply list_elem_of_singleton in Hy as ->. done.
    + repeat constructor.
  - intros i w Hw. rewrite double_lockouts_lookup in Hw. apply fmap_Some in Hw as (v & Hv & ->).
    destruct (Hconf i v Hv) as (Hi & -> & Hr). rewrite length_double_lockouts.
    rewrite length_app in *. cbn in *. lia.
  - intros i v' w' Hv Hw. rewrite double_lockouts_lookup in Hv, Hw.
    apply fmap_Some in Hv as (v & Hv & ->). apply fmap_Some in Hw as (w & Hw & ->).
    destruct (Hconf i v Hv) as (Hi & -> & Hr), (Hconf (S i) w Hw) as (Hj & -> & Hr').
    rewrite length_app in *. cbn in *.
    apply lookup_app_Some in Hw as [Hw|[Hge Hw]].
    + apply lookup_app_Some in Hv as [Hv|[Hge Hv]]; [|apply lookup_lt_Some in Hw; lia].
      specialize (Hd i v w Hv Hw). lia.
    + destruct (S i - length vo)%nat as [|n] eqn:E; [|done]. injection Hw as <-. cbn. lia.
Qed.

(** Popping removes, from the back, votes that are no longer locked out. *)
Lemma pop_expired_back_split rv s :
  exists popped, rv = popped ++ pop_expired_back rv s /\
    Forall (fun v => is_locked_out_at_slot v s = false) popped /\
    (forall v, head (pop_expired_back rv s) = Some v -> is_locked_out_at_slot v s = true).
Proof.
  induction rv as [|v rv (popped & IH & Hp & Hh)]; cbn.
  - exists []. split_and!; [done|constructor|done].
  - destruct (is_locked_out_at_slot v s) eqn:E; cbn.
    + exists []. split_and!; [done|constructor|]. intros w [= <-]. done.
    + exists (v :: popped). split_and!; [cbn; by f_equal|by constructor|done].
Qed.

Lemma pop_expired_split vo s :
  exists popped, vo = pop_expired_votes vo s ++ popped /\
    Forall (fun v => is_locked_out_at_slot v s = false) popped.
Proof.
  destruct (pop_expired_back_split (reverse vo) s) as (popped & E & Hp & _).
  exists (reverse popped). split; [|by apply Forall_reverse].
  unfold pop_expired_votes. rewrite <- reverse_app, <- E. by rewrite reverse_involutive.
Qed.

Definition root_below (root : option Slot) (vo : list Lockout) : Prop :=
  forall r v, root = Some r -> v ∈ vo -> r < slot v.

Record tower_ok (vs : VoteState) : Prop := {
  tower_stack : stack_ok (votes vs);
  tower_len : (length (votes vs) <= MAX_LOCKOUT_HISTORY)%nat;
  tower_root : root_below (root_slot vs) (votes vs);
  tower_start : votes vs = [] -> root_slot vs = None;
}.

Lemma root_below_push root vo s :
  root_below root vo -> (forall r, root = Some r -> r < s) ->
  root_below root (push_vote vo s).
Proof.
  intros Hroot Hs r v Hr Hv.
  assert (slot v ∈ slot <$> push_vote vo s) as Hin by (by apply list_elem_of_fmap_2).
  unfold push_vote in Hin. rewrite slot_double_lockouts, fmap_app, elem_of_app in Hin.
  destruct Hin as [Hin|Hin].
  - apply list_elem_of_fmap in Hin as (w & -> & Hw). by eapply Hroot.
  - apply list_elem_of_singleton in Hin as ->. by apply Hs.
Qed.

Lemma push_vote_not_nil vo s : push_vote vo s <> [].
Proof.
  intros E. apply (f_equal length) in E. unfold push_vote in E.
  rewrite length_double_lockouts, length_app in E. cbn in E. lia.
Qed.

Lemma length_push_vote vo s : length (push_vote vo s) = S (length vo).
Proof. unfold push_vote. rewrite length_double_lockouts, length_app. cbn. lia. Qed.

Lemma new_vote_above vs s :
  stack_ok (votes vs) -> already_voted (last_voted_slot vs) s = false ->
  Forall (fun v => slot v < s) (votes vs).
Proof.
  intros [Hs _ _] Hnew. unfold last_voted_slot, last_lockout in Hnew.
  destruct (votes vs) as [|v vo _] using rev_ind; [constructor|].
  rewrite last_snoc in Hnew. cbn in Hnew. apply Z.leb_gt in Hnew.
  rewrite fmap_app in Hs. apply Forall_app. split; [|by repeat constructor].
  apply Forall_forall. intros w Hw.
  assert (slot w < slot v); [|lia].
  eapply StronglySorted_app_1_elem_of; [exact Hs|by apply list_elem_of_fmap_2|].
  apply list_elem_of_singleton. done.
Qed.

(** The step of the tower, in one equation. *)
Lemma process_next_vote_slot_eq vs s e :
  already_voted (last_voted_slot vs) s = false ->
  let vo := pop_expired_votes (votes vs) s in
  process_next_vote_slot vs s e =
    match vo with
    | v :: rest =>
        if Nat.eqb (length vo) MAX_LOCKOUT_HISTORY
        then with_tower vs (push_vote rest s) (Some (slot v))
               (increment_credits (epoch_credits vs) e)
        else with_votes vs (push_vote vo s)
    | [] => with_votes vs (push_vote [] s)
    end.
Proof.
  intros Hnew vo. unfold process_next_vote_slot. rewrite Hnew. cbn [votes with_votes with_tower].
  fold vo. destruct vo as [|v rest]; [done|]. destruct (Nat.eqb _ _); done.
Qed.

Lemma process_next_vote_slot_ok vs s e :
  tower_ok vs -> tower_ok (process_next_vote_slot vs s e).
Proof.
  intros [Hs Hlen Hroot Hstart]. destruct (already_voted (last_voted_slot vs) s) eqn:Hnew.
  { unfold process_next_vote_slot. by rewrite Hnew. }
  rewrite process_next_vote_slot_eq by done. cbv zeta.
  pose proof (new_vote_above _ _ Hs Hnew) as Habove.
  assert (forall r, root_slot vs = Some r -> r < s) as Hrs.
  { intros r Hr. destruct (votes vs) as [|v vo]; [by rewrite Hstart in Hr|].
    apply Forall_cons in Habove as [Hv _]. specialize (Hroot r v Hr (list_elem_of_here _ _)). lia. }
  destruct (pop_expired_split (votes vs) s) as (popped & E & _).
  set (vo := pop_expired_votes (votes vs) s) in *. clearbody vo.
  rewrite E in Hs, Hlen, Hroot, Habove. apply stack_ok_prefix in Hs.
  rewrite length_app in Hlen. apply Forall_app in Habove as [Habove _].
  assert (root_below (root_slot vs) vo) as Hroot'.
  { intros r v Hr Hv. apply (Hroot r v Hr). apply elem_of_app. by left. }
  unfold MAX_LOCKOUT_HISTORY in *.
  destruct vo as [|v rest]; [|destruct (Nat.eqb_spec (length (v :: rest)) 31) as [Hfull|Hfull]].
  - split; cbn [votes root_slot with_votes with_tower].
    + by apply stack_ok_push; [apply stack_ok_nil|cbn; lia|].
    + rewrite length_push_vote. unfold MAX_LOCKOUT_HISTORY. cbn. lia.
    + by apply root_below_push.
    + by intros ?%push_vote_not_nil.
  - apply Forall_cons in Habove as [Hv Habove]. cbn in Hfull.
    split; cbn [votes root_slot with_tower].
    + apply stack_ok_push; [by eapply stack_ok_tail|lia|done].
    + rewrite length_push_vote. unfold MAX_LOCKOUT_HISTORY. lia.
    + apply root_below_push; [|by intros r [= <-]].
      intros r w [= <-] Hw. destruct Hs as [Hs _ _]. cbn in Hs.
      apply StronglySorted_inv in Hs as [_ Hs]. rewrite Forall_forall in Hs.
      apply Hs. by apply list_elem_of_fmap_2.
    + by intros ?%push_vote_not_nil.
  - split; cbn [votes root_slot with_votes with_tower].
    + apply stack_ok_push; [done|cbn in *; lia|done].
    + rewrite length_push_vote. unfold MAX_LOCKOUT_HISTORY. cbn in *. lia.
    + by apply root_below_push.
    + by intros ?%push_vote_not_nil.
Qed.

(** C8: A vote that is still locked out at a new slot is never dropped by
    voting for that slot: it stays in the tower or becomes the root. *)
Theorem locked_votes_are_kept vs s e v :
  v ∈ votes vs -> is_locked_out_at_slot v s = true ->
  slot v ∈ tower (process_next_vote_slot vs s e) \/
  root_slot (process_next_vote_slot vs s e) = Some (slot v).
Proof.
  intros Hv Hl. destruct (already_voted (last_voted_slot vs) s) eqn:Hnew.
  { unfold process_next_vote_slot. rewrite Hnew. left. by apply list_elem_of_fmap_2. }
  rewrite process_next_vote_slot_eq by done. cbv zeta.
  destruct (pop_expired_split (votes vs) s) as (popped & E & Hp).
  set (vo := pop_expired_votes (votes vs) s) in *. clearbody vo.
  rewrite E, elem_of_app in Hv. destruct Hv as [Hv|Hv].
  2: { rewrite Forall_forall in Hp. specialize (Hp v Hv). congruence. }
  assert (forall rest, v ∈ rest -> slot v ∈ slot <$> push_vote rest s) as Hin.
  { intros rest Hr. unfold push_vote. rewrite slot_double_lockouts, fmap_app, elem_of_app.
    left. by apply list_elem_of_fmap_2. }
  destruct vo as [|w rest]; [by apply elem_of_nil in Hv|].
  destruct (Nat.eqb _ _); cbn [tower votes root_slot with_tower with_votes];
    [|left; by apply Hin].
  apply elem_of_cons in Hv as [->|Hv]; [by right|left; by apply Hin].
Qed.

(** ** Roots and credits *)
Definition root_le (a b : option Slot) : Prop :=
  match a, b with
  | None, _ => True
  | Some r, Some r' => r <= r'
  | Some _, None => False
  end.

#[global] Instance root_le_preorder : PreOrder root_le.
Proof.
  split.
  - intros [r|]; cbn; lia.
  - intros [r1|] [r2|] [r3|]; cbn; lia || tauto.
Qed.

(** Credits of a history, and its shape. *)
Definition credits_in (ec : list (Epoch * Z * Z)) : Z :=
  match last ec with Some (_, c, _) => c | None => 0 end.
Definition credits_ok (ec : list (Epoch * Z * Z)) : Prop :=
  (length ec <= MAX_EPOCH_CREDITS_HISTORY)%nat /\
  Forall (fun '(_, c, p) => 0 <= p <= c) ec.

Lemma last_removelast {A} (l : list A) x : last l = Some x -> l = removelast l ++ [x].
Proof.
  destruct l as [|y l _] using rev_ind; [done|]. rewrite last_snoc. intros [= ->].
  by rewrite removelast_last.
Qed.

Lemma bump_last_credit_spec ec :
  ec <> [] -> Forall (fun '(_, c, p) => 0 <= p <= c) ec -> credits_in ec < u64_max ->
  credits_in (bump_last_credit ec) = credits_in ec + 1 /\
  length (bump_last_credit ec) = length ec /\
  Forall (fun '(_, c, p) => 0 <= p <= c) (bump_last_credit ec).
Proof.
  intros Hne Hf Hmax. unfold bump_last_credit, credits_in in *.
  destruct ec as [|[[e c] p] ec _] using rev_ind; [done|].
  rewrite last_snoc in *. rewrite removelast_last, last_snoc.
  apply Forall_app in Hf as [Hf [Hl _]%Forall_cons].
  unfold wrapping_add, wrap. rewrite Z.mod_small by (unfold_max; lia).
  split; [done|]. split; [by rewrite !length_app|].
  apply Forall_app. split; [done|]. repeat constructor; lia.
Qed.

Lemma increment_credits_spec ec e :
  credits_ok ec -> credits_in ec < u64_max ->
  credits_in (increment_credits ec e) = credits_in ec + 1 /\
  credits_ok (increment_credits ec e).
Proof.
  intros [Hlen Hf] Hmax. unfold increment_credits, MAX_EPOCH_CREDITS_HISTORY in *.
  set (ec1 := match last ec with None => _ | Some _ => _ end).
  enough (ec1 <> [] /\ credits_in ec1 = credits_in ec /\ (length ec1 <= 64)%nat /\
          Forall (fun '(_, c, p) => 0 <= p <= c) ec1) as (Hne & Hc & Hl & Hf1).
  { destruct (bump_last_credit_spec ec1) as (? & ? & ?); [done|done|lia|].
    split; [lia|]. split; [unfold MAX_EPOCH_CREDITS_HISTORY; lia|done]. }
  subst ec1. unfold credits_in in *.
  destruct ec as [|[[e0 c] p] ec _] using rev_ind.
  { cbn. split_and!; try done; [lia|]. repeat constructor; lia. }
  rewrite last_snoc in *. rewrite removelast_last.
  pose proof Hf as [Hf0 [Hcp _]%Forall_cons]%Forall_app.
  rewrite length_app in Hlen. cbn in Hlen.
  destruct (Z.eqb_spec e e0) as [->|He]; cbn [negb].
  { rewrite last_snoc, length_app. cbn.
    split_and!; [by destruct ec|done|lia|done]. }
  destruct (Z.eqb_spec c p) as [->|Hne]; cbn [negb].
  - rewrite (proj2 (Nat.ltb_ge _ _)) by (rewrite length_app; cbn; lia).
    rewrite last_snoc, length_app. cbn.
    split_and!; [by destruct ec|done|lia|]. apply Forall_app. split; [done|].
    repeat constructor; lia.
  - destruct (Nat.ltb_spec 64 (length ((ec ++ [(e0, c, p)]) ++ [(e, c, c)]))) as [Hl|Hl].
    + rewrite !length_app in Hl. cbn in Hl. destruct ec as [|x ec]; [cbn in *; lia|].
      cbn [app tl]. rewrite last_snoc, !length_app. cbn in *.
      split_and!; [by destruct ec|done|lia|].
      inversion Hf0; subst. rewrite Forall_app. split; [|repeat constructor; lia].
      rewrite Forall_app. split; [done|]. repeat constructor; lia.
    + rewrite last_snoc. split_and!; [by destruct ec|done|done|].
      rewrite Forall_app. split; [done|]. repeat constructor; lia.
Qed.

(** One vote slot advances the root exactly when it earns a credit. *)
Lemma process_next_vote_slot_root vs s e :
  tower_ok vs -> credits_ok (epoch_credits vs) -> credits vs < u64_max ->
  let vs' := process_next_vote_slot vs s e in
  credits_ok (epoch_credits vs') /\
  ((root_slot vs' = root_slot vs /\ credits vs' = credits vs) \/
   (root_slot vs' <> root_slot vs /\ root_le (root_slot vs) (root_slot vs') /\
    credits vs' = credits vs + 1)).
Proof.
  intros [Hs Hlen Hroot Hstart] Hc Hmax. cbv zeta.
  destruct (already_voted (last_voted_slot vs) s) eqn:Hnew.
  { unfold process_next_vote_slot. rewrite Hnew. auto. }
  rewrite process_next_vote_slot_eq by done. cbv zeta.
  destruct (pop_expired_split (votes vs) s) as (popped & E & _).
  set (vo := pop_expired_votes (votes vs) s) in *. clearbody vo.
  destruct vo as [|v rest]; [by auto|]. destruct (Nat.eqb _ _); [|by auto].
  destruct (increment_credits_spec (epoch_credits vs) e Hc Hmax) as [Hc1 Hc2].
  split; [done|]. right. cbn [root_slot with_tower].
  assert (forall r, root_slot vs = Some r -> r < slot v) as Hr.
  { intros r Hr. apply (Hroot r v Hr). rewrite E. apply list_elem_of_here. }
  split; [|split; [|done]].
  - intros Heq. specialize (Hr (slot v) (eq_sym Heq)). lia.
  - destruct (root_slot vs) as [r|]; cbn; [|done]. specialize (Hr r eq_refl). lia.
Qed.

Lemma last_push_vote vo s : slot <$> last (push_vote vo s) = Some s.
Proof.
  rewrite <- fmap_last. unfold push_vote. rewrite slot_double_lockouts, fmap_app.
  change (slot <$> [Lockout_new s]) with [s]. by rewrite last_snoc.
Qed.

Lemma process_next_vote_slot_last vs s e :
  last_voted_slot (process_next_vote_slot vs s e) =
    if already_voted (last_voted_slot vs) s then last_voted_slot vs else Some s.
Proof.
  destruct (already_voted (last_voted_slot vs) s) eqn:Hnew.
  { unfold process_next_vote_slot. by rewrite Hnew. }
  rewrite process_next_vote_slot_eq by done. cbv zeta. unfold last_voted_slot, last_lockout.
  repeat case_match; cbn [votes with_votes with_tower]; apply last_push_vote.
Qed.

(** The newest vote is never older than the slots voted on. *)
Definition voted_up_to (vs : VoteState) (s : Slot) : Prop :=
  exists l, last_voted_slot vs = Some l /\ s <= l.

Lemma voted_up_to_step vs s s' e :
  voted_up_to vs s \/ s = s' -> voted_up_to (process_next_vote_slot vs s' e) s.
Proof.
  unfold voted_up_to. rewrite process_next_vote_slot_last.
  destruct (last_voted_slot vs) as [l|] eqn:E; cbn.
  - intros [(l' & [= <-] & Hl)| ->].
    + destruct (Z.leb_spec s' l); eexists; (split; [done|lia]).
    + destruct (Z.leb_spec s' l); eexists; (split; [done|lia]).
  - intros [(l' & [=] & _)| ->]. exists s'. split; [done|lia].
Qed.

Lemma process_slots_up_to ss e s :
  forall vs, voted_up_to vs s \/ s ∈ ss ->
  voted_up_to (foldl (fun vs s => process_next_vote_slot vs s e) vs ss) s.
Proof.
  induction ss as [|s' ss IH]; intros vs H; cbn.
  - destruct H as [H|H]; [done|]. by apply elem_of_nil in H.
  - apply IH. rewrite elem_of_cons in H. destruct H as [H|[->|H]]; [|left|by right];
      [left; apply voted_up_to_step; by left|apply voted_up_to_step; by right].
Qed.

Lemma process_slots_ok ss e :
  forall vs, tower_ok vs -> credits_ok (epoch_credits vs) ->
  credits vs + Z.of_nat (length ss) <= u64_max ->
  let vs' := foldl (fun vs s => process_next_vote_slot vs s e) vs ss in
  tower_ok vs' /\ credits_ok (epoch_credits vs') /\
  root_le (root_slot vs) (root_slot vs') /\
  credits vs <= credits vs' <= credits vs + Z.of_nat (length ss).
Proof.
  induction ss as [|s ss IH]; intros vs Ht Hc Hmax; cbn [foldl].
  { split_and!; try done; cbn; lia. }
  cbn [length] in Hmax.
  destruct (process_next_vote_slot_root vs s e Ht Hc) as [Hc1 Hr]; [lia|].
  pose proof (process_next_vote_slot_ok vs s e Ht) as Ht1.
  destruct (IH _ Ht1 Hc1) as (Ht2 & Hc2 & Hroot & Hcred); [lia|].
  split_and!; [done|done| |cbn [length]; lia..].
  etrans; [|exact Hroot]. destruct Hr as [[-> _]|(_ & Hle & _)]; [reflexivity|done].
Qed.

(** C7: An accepted vote keeps the tower well formed (slots increasing,
    lockouts at least their depth and strictly decreasing, at most 31
    votes, all above the root), never moves the root backwards, earns at
    most one credit per voted slot, and leaves every voted slot at or
    below the newest vote. *)
Theorem process_vote_tower vs vote slot_hashes e vs' :
  tower_ok vs -> credits_ok (epoch_credits vs) ->
  credits vs + Z.of_nat (length (slots vote)) <= u64_max ->
  process_vote vs vote slot_hashes e = Ok vs' ->
  tower_ok vs' /\ credits_ok (epoch_credits vs') /\
  root_le (root_slot vs) (root_slot vs') /\
  credits vs <= credits vs' <= credits vs + Z.of_nat (length (slots vote)) /\
  Forall (voted_up_to vs') (slots vote).
Proof.
  intros Ht Hc Hmax H. unfold process_vote in H.
  destruct (slots vote) as [|s0 ss0] eqn:Ess; [done|].
  rewrite <- Ess in *. clear Ess. inv_ok.
  destruct (process_slots_ok (slots vote) e vs Ht Hc Hmax) as (? & ? & ? & ?).
  split_and!; try done; try lia. apply Forall_forall. intros s Hs.
  apply process_slots_up_to. by right.
Qed.

(** C24: The two-index loop over the vote and the slot hashes decides the
    declarative condition: for increasing vote slots and distinct hashed
    slots, the vote is accepted if and only if it has a slot newer than
    the last vote, its new slots occur in order among the slot hashes, and
    the hash of the last one is the hash of the vote. *)
Theorem process_vote_supported vs vote slot_hashes e :
  StronglySorted Z.lt (slots vote) -> NoDup (fst <$> slot_hashes) ->
  (exists vs', process_vote vs vote slot_hashes e = Ok vs') <->
  supported vs vote slot_hashes.
Proof.
  intros Hs Hnd. unfold process_vote. split.
  - intros [vs' H]. destruct (slots vote) eqn:E; [done|]. inv_ok. destruct x.
    by apply check_slots_sound.
  - intros Hsup. pose proof (check_slots_complete _ _ _ Hs Hnd Hsup) as ->.
    destruct (slots vote) eqn:E; [|cbn; eauto].
    destruct Hsup as [_ (s & Hl & _)]. by rewrite E in Hl.
Qed.

(** ** Votes without slot hashes *)
Lemma sorted_lt_NoDup (l : list Z) : StronglySorted Z.lt l -> NoDup l.
Proof.
  induction 1 as [|x l _ IH Hx]; constructor; [|done].
  intros Hin. rewrite Forall_forall in Hx. specialize (Hx x Hin). lia.
Qed.

Lemma process_old_slots vs ss e :
  new_slots (last_voted_slot vs) ss = [] ->
  foldl (fun vs s => process_next_vote_slot vs s e) vs ss = vs.
Proof.
  unfold new_slots. induction ss as [|s ss IH]; cbn [foldl]; [done|].
  rewrite filter_cons. case_decide as Ho; [done|]. intros H.
  assert (process_next_vote_slot vs s e = vs) as ->; [|auto].
  unfold process_next_vote_slot. by destruct (already_voted _ s).
Qed.

Lemma unchecked_supported vs vote :
  new_slots (last_voted_slot vs) (slots vote) <> [] ->
  supported vs vote ((fun x => (x, hash vote)) <$> reverse (slots vote)).
Proof.
  intros Hne. split.
  - rewrite <- fmap_reverse, reverse_involutive, <- list_fmap_compose. cbn.
    rewrite list_fmap_id. apply sublist_filter.
  - destruct (last (new_slots (last_voted_slot vs) (slots vote))) as [s|] eqn:E;
      [|by apply last_None in E].
    exists s. split; [done|]. apply list_elem_of_fmap. exists s. split; [done|].
    apply elem_of_reverse. apply last_Some_elem_of in E.
    unfold new_slots in E. by apply list_elem_of_filter in E as [_ ?].
Qed.

(** Replaying a vote without slot hashes never fails and never drops a
    slot: for increasing slots it equals applying them one after the other
    in the current epoch. *)
Theorem process_vote_unchecked_total vs vote :
  StronglySorted Z.lt (slots vote) ->
  process_vote_unchecked vs vote =
  Ok (foldl (fun v s => process_next_vote_slot v s (current_epoch vs)) vs (slots vote)).
Proof.
  intros Hs. unfold process_vote_unchecked. set (hs := _ <$> _).
  destruct (decide (new_slots (last_voted_slot vs) (slots vote) = [])) as [Hn|Hn].
  - rewrite process_old_slots by done.
    pose proof (check_slots_no_panic vs vote hs) as Hp. unfold process_vote.
    destruct (slots vote) as [|s0 ss] eqn:E; [done|]. rewrite <- E in *.
    destruct (check_slots_are_valid vs vote hs) as [[]| |] eqn:Hc; [|done..].
    apply check_slots_sound in Hc as [_ (s & Hl & _)]. by rewrite Hn in Hl.
  - pose proof (unchecked_supported _ _ Hn) as Hsup.
    assert (NoDup (fst <$> hs)) as Hnd.
    { unfold hs. rewrite <- list_fmap_compose. cbn. rewrite list_fmap_id.
      rewrite reverse_Permutation. apply sorted_lt_NoDup, Hs. }
    unfold process_vote. rewrite (check_slots_complete _ _ _ Hs Hnd Hsup).
    by destruct (slots vote).
Qed.

(** ** Commission and timestamps *)
(** The commission split gives voter and staker the floor of their
    percentage of the reward, never overflows, never pays out more than
    the reward and loses at most one lamport. *)
Theorem commission_split_exact vs on :
  0 <= commission vs -> is_u64 on ->
  let '(mine, theirs, _) := commission_split vs on in
  mine = on * Z.min (commission vs) 100 / 100 /\
  theirs = on * (100 - Z.min (commission vs) 100) / 100 /\
  0 <= mine /\ 0 <= theirs /\ on - 1 <= mine + theirs <= on.
Proof.
  intros Hc Hon. unfold commission_split. set (c := Z.min (commission vs) 100).
  assert (0 <= c <= 100) as Hcr by lia. clearbody c.
  pose proof (Z.div_mod (on * c) 100). pose proof (Z.mod_pos_bound (on * c) 100).
  pose proof (Z.div_mod (on * (100 - c)) 100). pose proof (Z.mod_pos_bound (on * (100 - c)) 100).
  destruct (Z.eqb_spec c 0) as [->|Hc0].
  { rewrite Z.mul_0_r, Z.sub_0_r, Z.div_mul by lia. rewrite Z.div_0_l by lia. lia. }
  destruct (Z.eqb_spec c 100) as [->|Hc1].
  { rewrite Z.div_mul, Z.sub_diag, Z.mul_0_r by lia. rewrite Z.div_0_l by lia. lia. }
  assert (0 <= on * c / 100 <= on) by nia. assert (0 <= on * (100 - c) / 100 <= on) by nia.
  unfold wrap. rewrite !Z.mod_small by (unfold_max; lia). nia.
Qed.

(** An accepted block timestamp is recorded and never moves the slot or
    the time backwards; for a slot already recorded it must repeat the
    recorded time. *)
Theorem process_timestamp_monotone vs s t vs' :
  process_timestamp vs s t = Ok vs' ->
  last_timestamp vs' = {| ts_slot := s; ts_timestamp := t |} /\
  ts_slot (last_timestamp vs) <= s /\ ts_timestamp (last_timestamp vs) <= t /\
  (s = ts_slot (last_timestamp vs) -> s <> 0 -> last_timestamp vs' = last_timestamp vs).
Proof.
  unfold process_timestamp. destruct (last_timestamp vs) as [ls lt]. intros H. inv_ok.
  apply orb_false_iff in Hr as [[H1 H2]%orb_false_iff H3].
  apply Z.ltb_ge in H1, H2. cbn. split; [done|]. split; [done|]. split; [done|].
  intros -> Hne. rewrite Z.eqb_refl in H3. cbn in H3.
  rewrite (proj2 (Z.eqb_neq _ _) Hne) in H3.
  destruct (Z.eqb_spec t lt); [by subst|done].
Qed.

Lemma tower_ok_default : tower_ok VoteState_default.
Proof. split; cbn; [apply stack_ok_nil|lia|done|done]. Qed.

(** ** A sample: thirty-three votes in a row *)
Module TowerSample.
Definition h (n : Z) : Hash := n :: replicate 31 1.
Definition voted : list Slot := Z.of_nat <$> seq 1 33.
Definition vote : Vote := {| slots := voted; hash := h 33; timestamp := None |}.
Definition hashes : list (Slot * Hash) := (fun s => (s, h s)) <$> reverse voted.
Definition vs' : VoteState := Eval vm_compute in
  match process_vote VoteState_default vote hashes 3 with Ok v => v | _ => VoteState_default end.

Lemma process_vote_tower_witness :
  (tower_ok vs' /\ credits_ok (epoch_credits vs') /\
   root_le (root_slot VoteState_default) (root_slot vs') /\
   credits VoteState_default <= credits vs' <= credits VoteState_default + 33 /\
   Forall (voted_up_to vs') voted) /\ root_slot vs' = Some 2 /\ credits vs' = 2.
Proof.
  split; [|vm_compute; auto].
  apply (process_vote_tower VoteState_default vote hashes 3 vs').
  - apply tower_ok_default.
  - split; [cbn; lia|constructor].
  - vm_compute. discriminate.
  - vm_compute. reflexivity.
Defined.

Lemma process_vote_supported_witness :
  (exists v, process_vote VoteState_default vote hashes 3 = Ok v) <->
  supported VoteState_default vote hashes.
Proof.
  apply process_vote_supported.
  - repeat constructor.
  - apply (bool_decide_unpack _). vm_compute. exact I.
Defined.

(** The vote for slot 30 is locked out at slot 35. *)
Lemma process_vote_unchecked_total_witness :
  exists vs', process_vote_unchecked VoteState_default vote = Ok vs' /\ root_slot vs' = Some 2.
Proof.
  eexists. split.
  - apply (process_vote_unchecked_total VoteState_default vote). repeat constructor.
  - vm_compute. reflexivity.
Defined.

Lemma locked_votes_are_kept_witness :
  30 ∈ tower (process_next_vote_slot vs' 35 3) \/
  root_slot (process_next_vote_slot vs' 35 3) = Some 30.
Proof.
  apply (locked_votes_are_kept vs' 35 3 {| slot := 30; confirmation_count := 4 |}).
  - vm_compute. repeat (first [apply list_elem_of_here | apply list_elem_of_further]).
  - vm_compute. reflexivity.
Defined.

Lemma commission_split_exact_witness :
  let vs := with_identity VoteState_default default_key default_key 7 in
  let '(mine, theirs, _) := commission_split vs 1001 in
  mine = 1001 * Z.min 7 100 / 100 /\ theirs = 1001 * (100 - Z.min 7 100) / 100 /\
  0 <= mine /\ 0 <= theirs /\ 1001 - 1 <= mine + theirs <= 1001.
Proof.
  apply (commission_split_exact (with_identity VoteState_default default_key default_key 7) 1001);
    [cbn; lia|unfold_max; lia].
Defined.

Lemma process_timestamp_monotone_witness :
  last_timestamp (with_timestamp VoteState_default {| ts_slot := 4; ts_timestamp := 9 |})
    = {| ts_slot := 4; ts_timestamp := 9 |} /\ 0 <= 4 /\ 0 <= 9 /\
  (4 = 0 -> 4 <> 0 -> {| ts_slot := 4; ts_timestamp := 9 |} = last_timestamp VoteState_default).
Proof.
  exact (process_timestamp_monotone VoteState_default 4 9 _ eq_refl).
Defined.
End TowerSample.
