(* ===== verification/VoteAuthority.v ===== *)
(** * Vote program: who may vote in which epoch

    The authorized voters as a function of the epoch, and what the operations
    on the map do to that function; the history of prior voters. *)

From stdpp Require Import base list sorting.
From Stdlib Require Import ZArith Lia.
From S2P Require Import Prelude Sdk Runtime VoteState.

Definition key_lt (x y : Epoch * Pubkey) : Prop := fst x < fst y.

(** A map as the source keeps it: entries by increasing epoch. *)
Definition voters_sorted (m : AuthorizedVoters) : Prop := StronglySorted key_lt m.

(** The voter of [epoch]: the entry of the latest epoch not after it. *)
Definition voter_at (m : AuthorizedVoters) (epoch : Epoch) : option Pubkey :=
  snd <$> last (filter (fun e => fst e <= epoch) m).

Section Sorted.
Implicit Types (m : AuthorizedVoters) (e t : Epoch) (k : Pubkey).

Lemma sorted_filter m (P : Epoch * Pubkey -> Prop) `{forall x, Decision (P x)} :
  voters_sorted m -> voters_sorted (filter P m).
Proof.
  intros Hs. induction Hs as [|x m Hs IH Hx]; [constructor|].
  rewrite filter_cons. case_decide; [|done]. constructor; [done|].
  apply Forall_forall. intros y Hy. apply list_elem_of_filter in Hy as [_ Hy].
  rewrite Forall_forall in Hx. auto.
Qed.

Lemma filter_all m (P : Epoch * Pubkey -> Prop) `{forall x, Decision (P x)} :
  Forall P m -> filter P m = m.
Proof.
  induction 1 as [|x m Hx _ IH]; [done|]. rewrite filter_cons, decide_True by done.
  by f_equal.
Qed.

Lemma filter_none m (P : Epoch * Pubkey -> Prop) `{forall x, Decision (P x)} :
  Forall (fun x => ~ P x) m -> filter P m = [].
Proof.
  induction 1 as [|x m Hx _ IH]; [done|]. by rewrite filter_cons, decide_False.
Qed.

Lemma filter_ext_in m (P Q : Epoch * Pubkey -> Prop)
    `{forall x, Decision (P x)} `{forall x, Decision (Q x)} :
  Forall (fun x => P x <-> Q x) m -> filter P m = filter Q m.
Proof.
  induction 1 as [|x m Hx _ IH]; [done|]. rewrite !filter_cons, IH.
  repeat case_decide; tauto.
Qed.

Lemma get_Some_split m e k :
  voters_sorted m -> BTreeMap.get e m = Some k ->
  exists m1 m2, m = m1 ++ (e, k) :: m2 /\ Forall (fun x => fst x < e) m1 /\
    Forall (fun x => e < fst x) m2.
Proof.
  induction 1 as [|[e' k'] m Hs IH Hx]; [done|]. cbn.
  destruct (Z.eqb_spec e e') as [->|Hne].
  - intros [= <-]. exists [], m. split; [done|]. split; [constructor|done].
  - intros H. destruct (IH H) as (m1 & m2 & -> & H1 & H2).
    exists ((e', k') :: m1), m2. split; [done|]. split; [|done]. constructor; [|done].
    apply Forall_app in Hx as [_ Hx]. apply Forall_cons in Hx as [Hx _]. done.
Qed.

Lemma get_None_split m e :
  voters_sorted m -> BTreeMap.get e m = None ->
  Forall (fun x => fst x <> e) m.
Proof.
  intros _. induction m as [|[e' k'] m IH]; [constructor|]. cbn.
  destruct (Z.eqb_spec e e') as [->|Hne]; [done|]. constructor; [cbn; congruence|auto].
Qed.

Lemma insert_split m t k :
  voters_sorted m ->
  BTreeMap.insert t k m =
    filter (fun x => fst x < t) m ++ (t, k) :: filter (fun x => t < fst x) m.
Proof.
  induction 1 as [|[e' k'] m Hs IH Hx]; [done|]. cbn [BTreeMap.insert].
  rewrite !filter_cons. cbn [fst].
  destruct (Z.ltb_spec t e') as [Hlt|Hge].
  - rewrite decide_False, decide_True by lia.
    rewrite filter_none, filter_all; [done|..];
      eapply Forall_impl; [exact Hx| |exact Hx|]; intros [e2 k2]; unfold key_lt; cbn; lia.
  - destruct (Z.eqb_spec t e') as [->|Hne].
    + rewrite !decide_False by lia.
      rewrite filter_none, filter_all; [done|..];
        eapply Forall_impl; [exact Hx| |exact Hx|]; intros [e2 k2]; unfold key_lt; cbn; lia.
    + rewrite decide_True, decide_False by lia. cbn. f_equal. exact IH.
Qed.

Lemma insert_sorted m t k : voters_sorted m -> voters_sorted (BTreeMap.insert t k m).
Proof.
  intros Hs. rewrite insert_split by done. apply StronglySorted_app_2.
  - intros x y Hx Hy. apply list_elem_of_filter in Hx as [Hx _].
    apply elem_of_cons in Hy as [->|Hy]; [done|].
    apply list_elem_of_filter in Hy as [Hy _]. unfold key_lt. lia.
  - by apply sorted_filter.
  - constructor; [by apply sorted_filter|]. apply Forall_forall. intros y Hy.
    by apply list_elem_of_filter in Hy as [Hy _].
Qed.

(** The source's lookup is [voter_at]. *)
Lemma AuthorizedVoters_get_spec m e :
  voters_sorted m -> AuthorizedVoters_get m e = voter_at m e.
Proof.
  intros Hs. unfold AuthorizedVoters_get, get_or_calculate_authorized_voter_for_epoch, voter_at.
  destruct (BTreeMap.get e m) as [k|] eqn:E.
  - destruct (get_Some_split _ _ _ Hs E) as (m1 & m2 & -> & H1 & H2).
    rewrite filter_app, filter_cons, decide_True by (cbn; lia).
    rewrite (filter_none m2).
    + rewrite last_snoc. done.
    + eapply Forall_impl; [exact H2|]. cbn. intros; lia.
  - pose proof (get_None_split _ _ Hs E) as Hne. unfold BTreeMap.range_to.
    rewrite (filter_ext_in m (fun x => fst x <= e) (fun x => fst x < e)).
    + by destruct (last _) as [[]|].
    + eapply Forall_impl; [exact Hne|]. cbn. intros; lia.
Qed.

Lemma filter_le_split m t e :
  voters_sorted m -> t <= e ->
  filter (fun x => fst x <= e) m =
    filter (fun x => fst x <= t) m ++ filter (fun x => t < fst x <= e) m.
Proof.
  intros Hs Hte. induction Hs as [|[e' k'] m Hs IH Hx]; [done|]. rewrite !filter_cons, IH.
  cbn [fst]. destruct (decide (e' <= t)) as [Hle|Hgt].
  - rewrite decide_True, decide_False by lia. done.
  - rewrite (filter_none m (fun x => fst x <= t)).
    + repeat case_decide; try done; lia.
    + eapply Forall_impl; [exact Hx|]. unfold key_lt. cbn. intros; lia.
Qed.

Lemma filter_insert_le m t k e :
  voters_sorted m ->
  filter (fun x => fst x <= e) (BTreeMap.insert t k m) =
    filter (fun x => fst x <= e /\ fst x < t) m ++
    (if decide (t <= e) then [(t, k)] else []) ++
    filter (fun x => t < fst x <= e) m.
Proof.
  intros Hs. rewrite insert_split, filter_app, filter_cons, !list_filter_filter by done.
  cbn [fst].
  rewrite (list_filter_iff (fun x : Z * Pubkey => fst x <= e /\ t < fst x)
             (fun x => t < fst x <= e)) by (intros; lia).
  by case_decide.
Qed.

(** Inserting later entries does not change earlier epochs. *)
Lemma voter_at_insert_before m t k e :
  voters_sorted m -> e < t -> voter_at (BTreeMap.insert t k m) e = voter_at m e.
Proof.
  intros Hs He. unfold voter_at. rewrite filter_insert_le, decide_False by (done || lia).
  rewrite (filter_none m (fun x => t < fst x <= e)), app_nil_r by
    (apply Forall_forall; intros; lia).
  do 2 f_equal. apply list_filter_iff. intros; lia.
Qed.

Lemma voter_at_insert_last m t k e :
  voters_sorted m -> Forall (fun x => fst x < t) m -> t <= e ->
  voter_at (BTreeMap.insert t k m) e = Some k.
Proof.
  intros Hs Hm He. unfold voter_at. rewrite filter_insert_le, decide_True by done.
  rewrite (filter_none m (fun x => t < fst x <= e)), app_nil_r, last_snoc; [done|].
  eapply Forall_impl; [exact Hm|]. cbn. intros; lia.
Qed.

(** Caching the voter of [t] changes nothing from [t] on. *)
Lemma voter_at_cache m t k e :
  voters_sorted m -> BTreeMap.get t m = None -> voter_at m t = Some k -> t <= e ->
  voter_at (BTreeMap.insert t k m) e = voter_at m e.
Proof.
  intros Hs Hg Hk He. unfold voter_at in *.
  rewrite filter_insert_le, decide_True, (filter_le_split m t e) by done.
  rewrite !last_app.
  destruct (last (filter (fun x => t < fst x <= e) m)) as [x|]; [done|]. by rewrite Hk.
Qed.

Lemma purge_filter m (cur : Z) :
  foldl (fun m j => BTreeMap.remove j m) m (fst <$> BTreeMap.range_to cur m) =
    filter (fun x => cur <= fst x) m.
Proof.
  assert (forall ks m, foldl (fun m j => BTreeMap.remove j m) m ks =
    filter (fun x : Z * Pubkey => fst x ∉ ks) m) as Hfold.
  { intros ks. induction ks as [|k ks IH]; intros m'; cbn [foldl].
    - symmetry. apply filter_all. apply Forall_forall. intros x _ Hx. by apply elem_of_nil in Hx.
    - rewrite IH. unfold BTreeMap.remove. rewrite list_filter_filter.
      apply list_filter_iff. intros x. rewrite elem_of_cons. tauto. }
  rewrite Hfold. apply filter_ext_in. apply Forall_forall. intros x Hx. split.
  - intros Hn. destruct (decide (cur <= fst x)); [done|]. exfalso. apply Hn.
    apply list_elem_of_fmap_2, list_elem_of_filter. split; [lia|done].
  - intros Hle Hin. apply list_elem_of_fmap in Hin as (y & E & Hy).
    apply list_elem_of_filter in Hy as [Hy _]. lia.
Qed.

Lemma voter_at_purge m cur k e :
  voters_sorted m -> (cur, k) ∈ m -> cur <= e ->
  voter_at (filter (fun x => cur <= fst x) m) e = voter_at m e.
Proof.
  intros Hs Hin He. unfold voter_at. rewrite list_filter_filter.
  apply list_elem_of_split in Hin as (m1 & m2 & ->).
  rewrite !filter_app, !filter_cons, !decide_True by (cbn; lia).
  rewrite !last_app, !last_cons.
  assert (Forall (fun x => cur < fst x) m2) as H2.
  { apply StronglySorted_app_1_r in Hs. apply StronglySorted_inv in Hs as [_ Hs]. done. }
  rewrite (filter_ext_in m2 (fun x => fst x <= e /\ cur <= fst x) (fun x => fst x <= e));
    [by destruct (last _)|]. eapply Forall_impl; [exact H2|]. cbn. intros; lia.
Qed.

Lemma get_elem_of m e k : BTreeMap.get e m = Some k -> (e, k) ∈ m.
Proof.
  induction m as [|[e' k'] m IH]; [done|]. cbn. destruct (Z.eqb_spec e e') as [->|].
  - intros [= ->]. apply list_elem_of_here.
  - intros H. apply list_elem_of_further. auto.
Qed.

Lemma get_insert_eq m e k : voters_sorted m -> (e, k) ∈ BTreeMap.insert e k m.
Proof.
  intros Hs. rewrite insert_split by done. apply elem_of_app. right. apply list_elem_of_here.
Qed.

Lemma elem_of_insert m e k x :
  voters_sorted m -> x ∈ BTreeMap.insert e k m -> x ∈ m \/ x = (e, k).
Proof.
  intros Hs. rewrite insert_split, elem_of_app, elem_of_cons, !list_elem_of_filter by done.
  tauto.
Qed.
End Sorted.

(** Looking a voter up, caching it and purging the past. *)
Record updated (m m' : AuthorizedVoters) (cur : Epoch) : Prop := {
  upd_sorted : voters_sorted m';
  upd_nonempty : m' <> [];
  upd_voters e : cur <= e -> voter_at m' e = voter_at m e;
  upd_keys x : x ∈ m' -> cur <= fst x /\ (x ∈ m \/ fst x = cur);
  upd_later x : cur < fst x -> x ∈ m -> x ∈ m';
}.

Lemma get_and_update_spec vs cur :
  voters_sorted (authorized_voters vs) ->
  match voter_at (authorized_voters vs) cur with
  | Some k => exists m', get_and_update_authorized_voter vs cur =
      Ok (k, with_voters vs m' (prior_voters vs)) /\ updated (authorized_voters vs) m' cur
  | None => get_and_update_authorized_voter vs cur = Err InstructionError.InvalidAccountData
  end.
Proof.
  intros Hs. unfold get_and_update_authorized_voter, get_and_cache_authorized_voter_for_epoch.
  set (m := authorized_voters vs) in *.
  pose proof (AuthorizedVoters_get_spec m cur Hs) as Hg. unfold AuthorizedVoters_get in Hg.
  destruct (voter_at m cur) as [k|] eqn:Hk.
  - destruct (get_or_calculate_authorized_voter_for_epoch m cur) as [[k' existed]|] eqn:E;
      [|done]. injection Hg as ->.
    set (m1 := if existed then m else BTreeMap.insert cur k m).
    assert (voters_sorted m1 /\ (cur, k) ∈ m1 /\
            (forall e, cur <= e -> voter_at m1 e = voter_at m e) /\
            (forall x, x ∈ m1 -> x ∈ m \/ fst x = cur) /\
            (forall x, cur < fst x -> x ∈ m -> x ∈ m1)) as (Hs1 & Hin & Hv & Hkeys & Hlater).
    { subst m1. unfold get_or_calculate_authorized_voter_for_epoch in E.
      destruct (BTreeMap.get cur m) as [k0|] eqn:Hget.
      - injection E as -> <-. split_and!; auto using get_elem_of.
      - assert (existed = false) as -> by (destruct (last _); [by injection E|done]).
        split_and!; [by apply insert_sorted|by apply get_insert_eq|..].
        + intros e He. by apply voter_at_cache.
        + intros x Hx. apply elem_of_insert in Hx as [| ->]; auto.
        + intros x Hlt Hx. rewrite insert_split, elem_of_app, elem_of_cons,
            !list_elem_of_filter by done. auto. }
    clearbody m1. cbn [ok_or mbind result_bind]. unfold purge_authorized_voters.
    rewrite purge_filter.
    assert ((cur, k) ∈ filter (fun x => cur <= fst x) m1) as Hin'
      by (apply list_elem_of_filter; split; [cbn; lia|done]).
    exists (filter (fun x => cur <= fst x) m1). split.
    + destruct (filter _ m1); [by apply elem_of_nil in Hin'|done].
    + split.
      * by apply sorted_filter.
      * intros E'. rewrite E' in Hin'. by apply elem_of_nil in Hin'.
      * intros e He. rewrite (voter_at_purge m1 cur k) by done. auto.
      * intros x Hx. apply list_elem_of_filter in Hx as [? ?]. auto.
      * intros x Hlt Hx. apply list_elem_of_filter. split; [lia|auto].
  - by destruct (get_or_calculate_authorized_voter_for_epoch m cur) as [[]|].
Qed.

Lemma contains_spec m e :
  AuthorizedVoters_contains m e = true <-> exists k, (e, k) ∈ m.
Proof.
  unfold AuthorizedVoters_contains. split.
  - destruct (BTreeMap.get e m) as [k|] eqn:E; [|done]. intros _. exists k. by apply get_elem_of.
  - intros [k Hk]. induction m as [|[e' k'] m IH]; [by apply elem_of_nil in Hk|]. cbn.
    destruct (Z.eqb_spec e e') as [->|Hne]; [done|]. apply IH.
    apply elem_of_cons in Hk as [[=]|]; [congruence|done].
Qed.

(** Every later epoch already has a voter, none after [target]. *)
Definition voters_ok (m : AuthorizedVoters) (target : Epoch) : Prop :=
  voters_sorted m /\ Forall (fun x => fst x <= target) m.

(** Changing the authorized voter follows its calendar on every branch:
    no voter for the current epoch, a refused signature and a target epoch
    already assigned are errors; otherwise every epoch from the current
    one up to the target keeps its voter and every epoch from the target
    on has the new one. *)
Theorem set_new_authorized_voter_spec vs authorized cur target verify :
  voters_ok (authorized_voters vs) target -> cur < target ->
  match voter_at (authorized_voters vs) cur with
  | None => set_new_authorized_voter vs authorized cur target verify =
              Err InstructionError.InvalidAccountData
  | Some k =>
      match verify k with
      | Ok _ =>
          if AuthorizedVoters_contains (authorized_voters vs) target
          then set_new_authorized_voter vs authorized cur target verify =
                 Err (VoteError_into TooSoonToReauthorize)
          else exists vs',
            set_new_authorized_voter vs authorized cur target verify = Ok vs' /\
            voters_ok (authorized_voters vs') target /\
            forall e, cur <= e -> voter_at (authorized_voters vs') e =
              if decide (e < target) then voter_at (authorized_voters vs) e
              else Some authorized
      | Err x => set_new_authorized_voter vs authorized cur target verify = Err x
      | Panic => set_new_authorized_voter vs authorized cur target verify = Panic
      end
  end.
Proof.
  intros [Hs Hm] Hct. unfold set_new_authorized_voter.
  pose proof (get_and_update_spec vs cur Hs) as Hspec.
  destruct (voter_at (authorized_voters vs) cur) as [k|] eqn:Hk; [|by rewrite Hspec].
  destruct Hspec as (m' & -> & Hupd). cbn [mbind result_bind].
  destruct (verify k) as [u| |]; [|done..]. cbn [mbind result_bind authorized_voters with_voters].
  destruct Hupd as [Hs' Hne Hv Hkeys Hlater].
  assert (AuthorizedVoters_contains m' target =
          AuthorizedVoters_contains (authorized_voters vs) target) as ->.
  { apply eq_true_iff_eq. rewrite !contains_spec. split; intros [k' Hin]; exists k'.
    - destruct (Hkeys _ Hin) as [_ [?|?]]; [done|]. cbn in *. lia.
    - apply Hlater; [cbn; lia|done]. }
  destruct (AuthorizedVoters_contains _ target) eqn:Hcon; [done|].
  cbn [fail_if mbind result_bind].
  assert (Forall (fun x => fst x < target) m') as Hlt.
  { apply Forall_forall. intros x Hx. destruct (Hkeys x Hx) as [_ [Hin|E]]; [|lia].
    rewrite Forall_forall in Hm. specialize (Hm x Hin).
    destruct (decide (fst x = target)) as [E|]; [|lia].
    assert (AuthorizedVoters_contains (authorized_voters vs) target = true) as Ht; [|congruence].
    apply contains_spec. exists (snd x). rewrite <- E. by destruct x. }
  unfold AuthorizedVoters_last. destruct (last m') as [[le lk]|] eqn:Hl;
    [|by destruct m' as [|? ? _] using rev_ind; [|rewrite last_snoc in Hl]].
  cbn [ok_or mbind result_bind].
  assert (le < target) as Hle.
  { rewrite Forall_forall in Hlt. apply (Hlt (le, lk)). by apply last_Some_elem_of. }
  rewrite (proj2 (Z.ltb_lt _ _) Hle). cbn [panic_unless mbind result_bind].
  assert (forall prior, voters_ok (authorized_voters (with_voters (with_voters vs m' (prior_voters vs))
      (BTreeMap.insert target authorized m') prior)) target /\
    forall e, cur <= e -> voter_at (authorized_voters (with_voters
      (with_voters vs m' (prior_voters vs)) (BTreeMap.insert target authorized m') prior)) e =
      if decide (e < target) then voter_at (authorized_voters vs) e else Some authorized) as Hfin.
  { intros prior. cbn [authorized_voters with_voters]. split; [split|].
    - by apply insert_sorted.
    - apply Forall_forall. intros x Hx. apply elem_of_insert in Hx as [Hx| ->]; [|cbn; lia|done].
      rewrite Forall_forall in Hlt. specialize (Hlt x Hx). cbn in Hlt. lia.
    - intros e He. case_decide as Hd.
      + rewrite voter_at_insert_before by done. auto.
      + apply voter_at_insert_last; [done|done|lia]. }
  destruct (negb _); eexists; (split; [reflexivity|apply Hfin]).
Qed.

Module AuthoritySample.
Definition k (n : Z) : Pubkey := n :: replicate 31 6.
Definition vs : VoteState :=
  with_voters VoteState_default [(3, k 1); (6, k 2)] (CircBuf_default (default_key, 0, 0)).
Definition verify (j : Pubkey) : instruction_result unit :=
  if bool_decide (j = k 1) then Ok tt else Err InstructionError.MissingRequiredSignature.

Lemma set_new_authorized_voter_spec_witness :
  exists vs', set_new_authorized_voter vs (k 5) 4 7 verify = Ok vs' /\
    voters_ok (authorized_voters vs') 7 /\
    forall e, 4 <= e -> voter_at (authorized_voters vs') e =
      if decide (e < 7) then voter_at (authorized_voters vs) e else Some (k 5).
Proof.
  apply (set_new_authorized_voter_spec vs (k 5) 4 7 verify).
  - split; repeat constructor; cbn; lia.
  - lia.
Defined.
End AuthoritySample.
