(* ===== verification/VoteInstruction.v ===== *)
(** * Vote program: accounts and instructions

    Models the account-level functions of
    [src/testnet/programs/vote/src/vote_state/mod.rs], the versions of
    [vote_state_versions.rs] and the dispatcher of [vote_instruction.rs].

    Account data goes through [bincode], which is not in the repository: its
    encoder and decoder are parameters, related by the law that decoding reads
    back what was encoded and ignores what follows. *)

From stdpp Require Import base gmap list fin_maps strings.
From Stdlib Require Import ZArith Lia.
From S2P Require Import Prelude Sdk Runtime KeyedAccount VoteState.

Definition vote_program_id : Pubkey :=
  Eval vm_compute in declare_id "Vote111111111111111111111111111111111111111".
Definition slot_hashes_sysvar_id : Pubkey :=
  Eval vm_compute in declare_id "SysvarS1otHashes111111111111111111111111111".

Record VoteState0_23_5 := {
  old_node_pubkey : Pubkey;
  old_authorized_voter : Pubkey;
  old_authorized_voter_epoch : Epoch;
  old_prior_voters : list (Pubkey * Epoch * Epoch * Slot) * nat;
  old_authorized_withdrawer : Pubkey;
  old_commission : Z;
  old_votes : list Lockout;
  old_root_slot : option Z;
  old_epoch_credits : list (Epoch * Z * Z);
  old_last_timestamp : BlockTimestamp;
}.

Inductive VoteStateVersions : Type :=
| V0_23_5 (s : VoteState0_23_5)
| Current (s : VoteState).

Definition convert_to_current (v : VoteStateVersions) : VoteState :=
  match v with
  | V0_23_5 s =>
      {| node_pubkey := old_node_pubkey s;
         authorized_withdrawer := old_authorized_withdrawer s;
         commission := old_commission s; votes := old_votes s;
         root_slot := old_root_slot s;
         authorized_voters :=
           AuthorizedVoters_new (old_authorized_voter_epoch s) (old_authorized_voter s);
         prior_voters := CircBuf_default (default_key, 0, 0);
         epoch_credits := old_epoch_credits s;
         last_timestamp := old_last_timestamp s |}
  | Current s => s
  end.

Definition is_uninitialized (v : VoteStateVersions) : bool :=
  match v with
  | V0_23_5 s => bool_decide (old_authorized_voter s = default_key)
  | Current s => match authorized_voters s with [] => true | _ => false end
  end.

Definition MAX_LEADER_SCHEDULE_EPOCH_OFFSET : nat := 3.

(** [new_rand] stands for the random keys of the sized state. *)
Definition get_max_sized_vote_state (new_rand : Pubkey) : VoteState :=
  {| node_pubkey := default_key; authorized_withdrawer := default_key; commission := 0;
     votes := replicate MAX_LOCKOUT_HISTORY {| slot := 0; confirmation_count := 0 |};
     root_slot := Some u64_max;
     authorized_voters :=
       foldl (fun m i => BTreeMap.insert (Z.of_nat i) new_rand m) []
         (seq 0 (S MAX_LEADER_SCHEDULE_EPOCH_OFFSET));
     prior_voters := CircBuf_default (default_key, 0, 0);
     epoch_credits := replicate MAX_EPOCH_CREDITS_HISTORY (0, 0, 0);
     last_timestamp := {| ts_slot := 0; ts_timestamp := 0 |} |}.

Module VoteInstruction.
Inductive t : Type :=
| InitializeAccount (vote_init : VoteInit)
| Authorize (voter : Pubkey) (vote_authorize : VoteAuthorize)
| Vote (vote : VoteState.Vote)
| Withdraw (tock : Z)
| UpdateValidatorIdentity
| UpdateCommission (commission : Z)
| VoteSwitch (vote : VoteState.Vote) (hash : Hash)
| AuthorizeChecked (vote_authorize : VoteAuthorize).
End VoteInstruction.

Section Handlers.
Context (encode : VoteStateVersions -> list Z).
Context (decode : list Z -> option VoteStateVersions).
Context (decode_clock : list Z -> option Clock).
Context (decode_slot_hashes : list Z -> option (list (Slot * Hash))).
Context (decode_rent : list Z -> option Rent).
Context (decode_instruction : list Z -> option VoteInstruction.t).
Context (new_rand : Pubkey).

Definition size_of : nat := length (encode (Current (get_max_sized_vote_state new_rand))).

Definition verify_authorized_signer (signers : list Pubkey) (authorized : Pubkey)
  : instruction_result unit :=
  if bool_decide (authorized ∈ signers) then Ok tt
  else Err InstructionError.MissingRequiredSignature.

Definition authorize (vote_account : AccountInfo) (authorized : Pubkey)
    (vote_authorize : VoteAuthorize) (signers : list Pubkey) (clock : Clock) (st : store)
  : instruction_result store :=
  v ← get_state decode st vote_account;
  let vote_state := convert_to_current v in
  vote_state ←
    match vote_authorize with
    | Voter =>
        set_new_authorized_voter vote_state authorized (epoch clock)
          (wrapping_add u64_max (leader_schedule_epoch clock) 1)
          (verify_authorized_signer signers)
    | Withdrawer =>
        verify_authorized_signer signers (authorized_withdrawer vote_state) ;;
        Ok (with_identity vote_state (node_pubkey vote_state) authorized
              (commission vote_state))
    end;
  set_state encode st vote_account (Current vote_state).

Definition update_validator_identity (vote_account : AccountInfo) (node : Pubkey)
    (signers : list Pubkey) (st : store) : instruction_result store :=
  v ← get_state decode st vote_account;
  let vote_state := convert_to_current v in
  verify_authorized_signer signers (authorized_withdrawer vote_state) ;;
  verify_authorized_signer signers node ;;
  set_state encode st vote_account
    (Current (with_identity vote_state node (authorized_withdrawer vote_state)
                (commission vote_state))).

Definition update_commission (vote_account : AccountInfo) (c : Z)
    (signers : list Pubkey) (st : store) : instruction_result store :=
  v ← get_state decode st vote_account;
  let vote_state := convert_to_current v in
  verify_authorized_signer signers (authorized_withdrawer vote_state) ;;
  set_state encode st vote_account
    (Current (with_identity vote_state (node_pubkey vote_state)
                (authorized_withdrawer vote_state) c)).

Definition withdraw (vote_account : AccountInfo) (tock : Z) (to_account : AccountInfo)
    (signers : list Pubkey) (st : store) : instruction_result store :=
  v ← get_state decode st vote_account;
  let vote_state := convert_to_current v in
  verify_authorized_signer signers (authorized_withdrawer vote_state) ;;
  st ← match lamports (acct st (key vote_account)) ?= tock with
       | Lt => Err InstructionError.InsufficientFunds
       | Eq => set_state encode st vote_account (Current VoteState_default)
       | Gt => Ok st
       end;
  st ← checked_sub_lamports st (key vote_account) tock;
  checked_add_lamports st (key to_account) tock.

Definition initialize_account (vote_account : AccountInfo) (vote_init : VoteInit)
    (signers : list Pubkey) (clock : Clock) (st : store) : instruction_result store :=
  fail_if (negb (data_len st vote_account =? Z.of_nat size_of))
    InstructionError.InvalidAccountData ;;
  versioned ← get_state decode st vote_account;
  fail_if (negb (is_uninitialized versioned)) InstructionError.AccountAlreadyInitialized ;;
  verify_authorized_signer signers (init_node_pubkey vote_init) ;;
  set_state encode st vote_account (Current (VoteState_new vote_init (epoch clock))).

(** The greatest slot of a vote, if any. *)
Definition max_slot (l : list Slot) : option Slot :=
  match l with [] => None | s :: l => Some (foldl Z.max s l) end.

Definition vote_result {A} (r : result VoteError A) : instruction_result A :=
  map_err VoteError_into r.

Definition process_vote_account (vote_account : AccountInfo)
    (slot_hashes : list (Slot * Hash)) (clock : Clock) (vote : Vote)
    (signers : list Pubkey) (st : store) : instruction_result store :=
  versioned ← get_state decode st vote_account;
  fail_if (is_uninitialized versioned) InstructionError.UninitializedAccount ;;
  let vote_state := convert_to_current versioned in
  '(authorized_voter, vote_state) ←
    get_and_update_authorized_voter vote_state (epoch clock);
  verify_authorized_signer signers authorized_voter ;;
  vote_state ← vote_result (process_vote vote_state vote slot_hashes (epoch clock));
  vote_state ←
    match timestamp vote with
    | Some t =>
        s ← ok_or (max_slot (slots vote)) (VoteError_into EmptySlots);
        vote_result (process_timestamp vote_state s t)
    | None => Ok vote_state
    end;
  set_state encode st vote_account (Current vote_state).

Definition verify_rent_exemption (st : store) (keyed_account rent_account : AccountInfo)
  : instruction_result unit :=
  rent ← from_keyed_account rent_sysvar_id decode_rent st rent_account;
  fail_if (negb (is_exempt rent (lamports (acct st (key keyed_account)))
                   (data_len st keyed_account)))
    InstructionError.InsufficientFunds.

Definition clock_at (st : store) (keyed_accounts : list AccountInfo) (index : nat)
  : instruction_result Clock :=
  i ← keyed_account_at_index keyed_accounts index;
  from_keyed_account clock_sysvar_id decode_clock st i.

Definition process_instruction (first_instruction_account : nat)
    (keyed_accounts : list AccountInfo) (checked_instructions : bool)
    (input : list Z) (st : store) : instruction_result store :=
  me ← keyed_account_at_index keyed_accounts first_instruction_account;
  fail_if (negb (bool_decide (owner (acct st (key me)) = vote_program_id)))
    InstructionError.InvalidAccountOwner ;;
  let signers := get_signers (drop first_instruction_account keyed_accounts) in
  instruction ← ok_or (decode_instruction input) InstructionError.InvalidInstructionData;
  match instruction with
  | VoteInstruction.InitializeAccount vote_init =>
      rent_account ← keyed_account_at_index keyed_accounts (first_instruction_account + 1);
      verify_rent_exemption st me rent_account ;;
      clock ← clock_at st keyed_accounts (first_instruction_account + 2);
      initialize_account me vote_init signers clock st
  | VoteInstruction.Authorize voter vote_authorize =>
      clock ← clock_at st keyed_accounts (first_instruction_account + 1);
      authorize me voter vote_authorize signers clock st
  | VoteInstruction.UpdateValidatorIdentity =>
      node ← keyed_account_at_index keyed_accounts (first_instruction_account + 1);
      update_validator_identity me (key node) signers st
  | VoteInstruction.UpdateCommission c => update_commission me c signers st
  | VoteInstruction.Vote vote | VoteInstruction.VoteSwitch vote _ =>
      hashes_account ← keyed_account_at_index keyed_accounts (first_instruction_account + 1);
      slot_hashes ← from_keyed_account slot_hashes_sysvar_id decode_slot_hashes st
                      hashes_account;
      clock ← clock_at st keyed_accounts (first_instruction_account + 2);
      process_vote_account me slot_hashes clock vote signers st
  | VoteInstruction.Withdraw tock =>
      to ← keyed_account_at_index keyed_accounts (first_instruction_account + 1);
      withdraw me tock to signers st
  | VoteInstruction.AuthorizeChecked vote_authorize =>
      if checked_instructions then
        voter ← keyed_account_at_index keyed_accounts (first_instruction_account + 3);
        fail_if (negb (is_signer voter)) InstructionError.MissingRequiredSignature ;;
        clock ← clock_at st keyed_accounts (first_instruction_account + 1);
        authorize me (key voter) vote_authorize signers clock st
      else Err InstructionError.InvalidInstructionData
  end.
End Handlers.
