(* ===== verification/VoteTheorems.v ===== *)
(** * Vote program: the guarantees

    What every successful vote instruction respects: the well-formedness of
    the stored vote states, the signatures a change needs, and the lamports. *)

From stdpp Require Import base gmap list fin_maps sorting.
From Stdlib Require Import ZArith Lia.
From S2P Require Import Prelude Sdk Runtime KeyedAccount Codec VoteState VoteProofs VoteAuthority VoteInstruction.

(** The parts of a vote state its operations keep in order. *)
Record state_ok (vs : VoteState) : Prop := {
  ok_tower : tower_ok vs;
  ok_voters : voters_sorted (authorized_voters vs);
}.

(** ** Authorized voters in a run *)
Lemma get_and_update_Ok vs cur k vs' :
  get_and_update_authorized_voter vs cur = Ok (k, vs') ->
  AuthorizedVoters_get (authorized_voters vs) cur = Some k /\
  exists m', vs' = with_voters vs m' (prior_voters vs) /\
    (voters_sorted (authorized_voters vs) -> voters_sorted m').
Proof.
  intros H. split.
  - unfold get_and_update_authorized_voter, get_and_cache_authorized_voter_for_epoch in H.
    unfold AuthorizedVoters_get.
    destruct (get_or_calculate_authorized_voter_for_epoch _ _) as [[k' b]|]; inv_ok. done.
  - assert (exists m', vs' = with_voters vs m' (prior_voters vs)) as [m' ->].
    { unfold get_and_update_authorized_voter in H. destruct (get_and_cache_authorized_voter_for_epoch _ _).
      inv_ok. eauto. }
    exists m'. split; [done|]. intros Hs. pose proof (get_and_update_spec vs cur Hs) as Hspec.
    destruct (voter_at _ _); [|congruence].
    destruct Hspec as (m2 & E & Hupd). rewrite E in H. injection H as _ <-. apply Hupd.
Qed.

Lemma set_new_Ok vs authorized cur target verify vs' :
  set_new_authorized_voter vs authorized cur target verify = Ok vs' ->
  exists k m' prior,
    AuthorizedVoters_get (authorized_voters vs) cur = Some k /\ verify k = Ok tt /\
    vs' = with_voters vs m' prior /\
    (voters_sorted (authorized_voters vs) -> voters_sorted m').
Proof.
  unfold set_new_authorized_voter. intros H. inv_ok.
  match goal with Hg : get_and_update_authorized_voter _ _ = _ |- _ =>
    apply get_and_update_Ok in Hg as (Hget & m' & -> & Hs) end.
  match goal with Hv : verify ?k = Ok ?u |- _ => destruct u; exists k end.
  eexists _, _. split; [done|]. split; [done|]. split; [reflexivity|].
  intros Hm. apply insert_sorted, Hs, Hm.
Qed.

Lemma verify_signer_Ok signers k u :
  verify_authorized_signer signers k = Ok u -> k ∈ signers.
Proof. unfold verify_authorized_signer. by case_bool_decide. Qed.

(** ** What the operations keep *)
Lemma state_ok_new i e : state_ok (VoteState_new i e).
Proof.
  split; [split; cbn; [apply stack_ok_nil|lia|done|done]|]. cbn. repeat constructor.
Qed.

Lemma process_slots_tower ss e : forall vs,
  tower_ok vs -> tower_ok (foldl (fun vs s => process_next_vote_slot vs s e) vs ss).
Proof.
  induction ss as [|s ss IH]; intros vs H; cbn; [done|].
  by apply IH, process_next_vote_slot_ok.
Qed.

(** Voting touches the tower, its root and the credits only. *)
Definition same_identity (vs vs' : VoteState) : Prop :=
  authorized_withdrawer vs' = authorized_withdrawer vs /\
  node_pubkey vs' = node_pubkey vs /\ commission vs' = commission vs /\
  authorized_voters vs' = authorized_voters vs.

Lemma process_next_identity vs s e : same_identity vs (process_next_vote_slot vs s e).
Proof.
  unfold process_next_vote_slot. case_match; [done|].
  destruct (votes (with_votes vs _)); case_match; done.
Qed.

Lemma process_slots_identity ss e : forall vs,
  same_identity vs (foldl (fun vs s => process_next_vote_slot vs s e) vs ss).
Proof.
  induction ss as [|s ss IH]; intros vs; cbn; [done|].
  destruct (IH (process_next_vote_slot vs s e)) as (H1 & H2 & H3 & H4).
  destruct (process_next_identity vs s e) as (E1 & E2 & E3 & E4).
  unfold same_identity. rewrite H1, H2, H3, H4. auto.
Qed.

Lemma process_vote_Ok vs vote slot_hashes e vs' :
  process_vote vs vote slot_hashes e = Ok vs' ->
  same_identity vs vs' /\ (tower_ok vs -> tower_ok vs').
Proof.
  unfold process_vote. intros H.
  assert (vs' = foldl (fun vs s => process_next_vote_slot vs s e) vs (slots vote)) as ->.
  { destruct (slots vote); [done|]. by inv_ok. }
  split; [apply process_slots_identity|apply process_slots_tower].
Qed.

Lemma process_timestamp_Ok vs s t vs' :
  process_timestamp vs s t = Ok vs' ->
  same_identity vs vs' /\ (tower_ok vs -> tower_ok vs').
Proof.
  unfold process_timestamp. destruct (last_timestamp vs). intros H. inv_ok.
  split; [done|]. intros []. by split.
Qed.

Section Guarantees.
Context (encode : VoteStateVersions -> list Z).
Context (decode : list Z -> option VoteStateVersions).
Context (decode_clock : list Z -> option Clock).
Context (decode_slot_hashes : list Z -> option (list (Slot * Hash))).
Context (decode_rent : list Z -> option Rent).
Context (decode_instruction : list Z -> option VoteInstruction.t).
Context (new_rand : Pubkey).
(** [bincode] reads back what it wrote and ignores trailing bytes. *)
Hypothesis codec : forall v rest, decode (encode v ++ rest) = Some v.

Abbreviation run := (process_instruction encode decode decode_clock decode_slot_hashes
  decode_rent decode_instruction new_rand).

(** The current vote state stored at [k]. *)
Definition state_at (st : store) (k : Pubkey) (vs : VoteState) : Prop :=
  exists v, decode (data (acct st k)) = Some v /\ convert_to_current v = vs.

Lemma set_state_Ok st i vs st' :
  set_state encode st i (Current vs) = Ok st' ->
  exists d, st' = set_data st (key i) d /\ decode d = Some (Current vs).
Proof. intros H. eapply set_state_stores in H; [naive_solver|done]. Qed.

(** What one instruction may do to the vote account [k]. *)
Inductive vote_step (signers : list Pubkey) (k : Pubkey) (st st' : store) : Prop :=
| V_update vs vs' d :
    state_at st k vs -> st' = set_data st k d -> decode d = Some (Current vs') ->
    (authorized_withdrawer vs ∈ signers \/
     exists e voter, AuthorizedVoters_get (authorized_voters vs) e = Some voter /\
       voter ∈ signers /\
       authorized_withdrawer vs' = authorized_withdrawer vs /\
       node_pubkey vs' = node_pubkey vs /\ commission vs' = commission vs) ->
    (state_ok vs -> state_ok vs') ->
    vote_step signers k st st'
| V_init v (i : VoteInit) e d :
    decode (data (acct st k)) = Some v -> is_uninitialized v = true ->
    st' = set_data st k d -> decode d = Some (Current (VoteState_new i e)) ->
    init_node_pubkey i ∈ signers -> vote_step signers k st st'
| V_withdraw vs st1 to n :
    state_at st k vs -> authorized_withdrawer vs ∈ signers ->
    (st1 = st /\ n < lamports (acct st k) \/
     n = lamports (acct st k) /\ exists d, st1 = set_data st k d /\
       decode d = Some (Current VoteState_default)) ->
    st' = set_lamports (set_lamports st1 k (lamports (acct st k) - n)) to
            (lamports (acct (set_lamports st1 k (lamports (acct st k) - n)) to) + n) ->
    lamports (acct (set_lamports st1 k (lamports (acct st k) - n)) to) + n <= u64_max ->
    vote_step signers k st st'.

Lemma get_state_Ok st i v :
  get_state decode st i = Ok v ->
  decode (data (acct st (key i))) = Some v /\ state_at st (key i) (convert_to_current v).
Proof.
  unfold get_state. intros H. inv_ok. split; [done|]. by exists v.
Qed.

Lemma state_ok_with_voters vs m prior :
  state_ok vs -> voters_sorted m -> state_ok (with_voters vs m prior).
Proof. intros [[] _] Hm. by split; [split|]. Qed.

Lemma state_ok_with_identity vs n w c : state_ok vs -> state_ok (with_identity vs n w c).
Proof. intros [[] ?]. by split; [split|]. Qed.

(** Invert a handler: its reads, its checks and its final write. *)
Ltac inv_handler :=
  inv_ok;
  repeat match goal with
  | H : get_state _ _ _ = Ok _ |- _ => apply get_state_Ok in H as [? ?]
  | H : verify_authorized_signer _ _ = Ok _ |- _ => apply verify_signer_Ok in H
  | H : set_state _ _ _ (Current _) = Ok _ |- _ =>
      apply set_state_Ok in H as (? & -> & ?)
  end.

Lemma authorize_refines i k ty signers clock st st' :
  authorize encode decode i k ty signers clock st = Ok st' ->
  vote_step signers (key i) st st'.
Proof.
  unfold authorize. intros H. destruct ty; inv_handler.
  - match goal with Hs : set_new_authorized_voter _ _ _ _ _ = _ |- _ =>
      apply set_new_Ok in Hs as (voter & m & prior & Hget & Hv & -> & Hm) end.
    apply verify_signer_Ok in Hv. eapply V_update; try done.
    + right. eauto 10.
    + intros Hok. apply state_ok_with_voters; [done|apply Hm, Hok].
  - eapply V_update; try done; [by left|]. apply state_ok_with_identity.
Qed.

Lemma update_identity_refines i node signers st st' :
  update_validator_identity encode decode i node signers st = Ok st' ->
  vote_step signers (key i) st st'.
Proof.
  unfold update_validator_identity. intros H. inv_handler.
  eapply V_update; try done; [by left|]. apply state_ok_with_identity.
Qed.

Lemma update_commission_refines i c signers st st' :
  update_commission encode decode i c signers st = Ok st' ->
  vote_step signers (key i) st st'.
Proof.
  unfold update_commission. intros H. inv_handler.
  eapply V_update; try done; [by left|]. apply state_ok_with_identity.
Qed.

Lemma withdraw_refines i n to signers st st' :
  withdraw encode decode i n to signers st = Ok st' ->
  vote_step signers (key i) st st'.
Proof.
  unfold withdraw, checked_sub_lamports, checked_add_lamports. intros H. inv_handler.
  inv_checked. subst.
  destruct (Z.compare_spec (lamports (acct st (key i))) n) as [E|E|E]; inv_handler.
  - rewrite !lamports_set_data in *. eapply (V_withdraw _ _ _ _ _ _ (key to) n); try done.
    right. eauto.
  - eapply (V_withdraw _ _ _ _ _ _ (key to) n); try done. by left.
Qed.

Lemma initialize_refines i vi signers clock st st' :
  initialize_account encode decode new_rand i vi signers clock st = Ok st' ->
  vote_step signers (key i) st st'.
Proof.
  unfold initialize_account. intros H. inv_handler. to_prop. by eapply V_init.
Qed.

Lemma vote_refines i hashes clock vote signers st st' :
  process_vote_account encode decode i hashes clock vote signers st = Ok st' ->
  vote_step signers (key i) st st'.
Proof.
  unfold process_vote_account, vote_result. intros H. inv_handler.
  match goal with Hg : get_and_update_authorized_voter _ _ = _ |- _ =>
    apply get_and_update_Ok in Hg as (Hget & m' & -> & Hs) end.
  match goal with Hp : process_vote _ _ _ _ = Ok ?vs1, Ht : match timestamp vote with _ => _ end = Ok ?vs2 |- _ =>
    apply process_vote_Ok in Hp as [(W1 & N1 & C1 & A1) T1];
    assert (same_identity vs1 vs2 /\ (tower_ok vs1 -> tower_ok vs2))
      as [(W2 & N2 & C2 & A2) T2]
  end.
  { destruct (timestamp vote); inv_ok; [by eapply process_timestamp_Ok|done]. }
  eapply V_update; try done.
  - right. eexists _, _. split; [exact Hget|]. split; [done|].
    rewrite W2, W1, N2, N1, C2, C1. done.
  - intros [[] Hv]. split; [apply T2, T1; by split|]. rewrite A2, A1. by apply Hs.
Qed.

Lemma vote_instruction_refines first accounts checked input st st' :
  run first accounts checked input st = Ok st' ->
  exists me, accounts !! first = Some me /\ owner (acct st (key me)) = vote_program_id /\
    vote_step (get_signers (drop first accounts)) (key me) st st'.
Proof.
  unfold process_instruction, keyed_account_at_index. intros H. inv_ok. to_prop.
  eexists. split; [done|]. split; [done|].
  match goal with Hi : decode_instruction _ = Some ?i |- _ => destruct i end; inv_ok.
  - by eapply initialize_refines.
  - by eapply authorize_refines.
  - by eapply vote_refines.
  - by eapply withdraw_refines.
  - by eapply update_identity_refines.
  - by eapply update_commission_refines.
  - by eapply vote_refines.
  - destruct checked; inv_ok. by eapply authorize_refines.
Qed.

Lemma state_at_data st st' k vs :
  data (acct st' k) = data (acct st k) -> state_at st' k vs -> state_at st k vs.
Proof. unfold state_at. by intros ->. Qed.

Lemma state_at_set_data st j d k vs' vs :
  decode d = Some (Current vs') -> state_at (set_data st j d) k vs ->
  vs = vs' \/ state_at st k vs.
Proof.
  intros Hd (v & Hv & <-). rewrite data_set_data in Hv. case_decide.
  - left. rewrite Hd in Hv. by injection Hv as <-.
  - right. by exists v.
Qed.

(** C34: Every instruction the vote program accepts keeps every vote account
    well formed: if the vote states stored in the accounts of the program
    all have a well-formed tower and an ordered voter calendar before it,
    so have all after it. *)
Theorem vote_states_stay_ok first accounts checked input st st' :
  run first accounts checked input st = Ok st' ->
  (forall k vs, owner (acct st k) = vote_program_id -> state_at st k vs -> state_ok vs) ->
  forall k vs, owner (acct st' k) = vote_program_id -> state_at st' k vs -> state_ok vs.
Proof.
  intros H Hok k vs Ho Hvs.
  destruct (vote_instruction_refines _ _ _ _ _ _ H) as (me & _ & Hme & Hs). destruct Hs.
  - subst. rewrite owner_set_data in Ho.
    eapply state_at_set_data in Hvs as [->|]; [|by eauto|done]. eauto.
  - subst. rewrite owner_set_data in Ho.
    eapply state_at_set_data in Hvs as [->|]; [apply state_ok_new|by eauto|done].
  - assert (state_at st1 k vs) as Hvs1.
    { subst. eapply state_at_data; [|exact Hvs]. by rewrite !data_set_lamports. }
    subst st'. rewrite !owner_set_lamports in Ho.
    match goal with Hst : _ \/ _ |- _ => destruct Hst as [[-> _]|(_ & d & -> & Hd)] end;
      [by eauto|]. rewrite owner_set_data in Ho.
    eapply state_at_set_data in Hvs1 as [->|]; [|by eauto|done].
    split; [apply tower_ok_default|constructor].
Qed.

(** Every instruction the vote program accepts conserves the lamports of
    the whole ledger, also when the account is its own withdrawal
    recipient. *)
Theorem vote_lamports_conserved first accounts checked input st st' :
  run first accounts checked input st = Ok st' ->
  total_lamports st' = total_lamports st.
Proof.
  intros H. destruct (vote_instruction_refines _ _ _ _ _ _ H) as (me & _ & _ & Hs).
  destruct Hs; subst; rewrite ?total_set_data; try done.
  rewrite !total_set_lamports.
  match goal with Hst : _ \/ _ |- _ => destruct Hst as [[-> _]|(_ & d & -> & Hd)] end;
    rewrite ?total_set_data, ?lamports_set_data; lia.
Qed.

(** Without a signature of the authorized withdrawer an accepted vote
    instruction moves no lamports, touches no other account, keeps the
    withdrawer, the validator identity and the commission, and was signed
    by an authorized voter. *)
Theorem withdrawer_controls_account first accounts checked input st st' me v :
  run first accounts checked input st = Ok st' ->
  accounts !! first = Some me -> decode (data (acct st (key me))) = Some v ->
  is_uninitialized v = false ->
  authorized_withdrawer (convert_to_current v) ∉ get_signers (drop first accounts) ->
  (forall k, lamports (acct st' k) = lamports (acct st k)) /\
  (forall k, k <> key me -> acct st' k = acct st k) /\
  exists vs', state_at st' (key me) vs' /\
    authorized_withdrawer vs' = authorized_withdrawer (convert_to_current v) /\
    node_pubkey vs' = node_pubkey (convert_to_current v) /\
    commission vs' = commission (convert_to_current v) /\
    exists e voter,
      AuthorizedVoters_get (authorized_voters (convert_to_current v)) e = Some voter /\
      voter ∈ get_signers (drop first accounts).
Proof.
  intros H Hme Hv Hinit Hno.
  destruct (vote_instruction_refines _ _ _ _ _ _ H) as (me' & Hme' & _ & Hs).
  rewrite Hme in Hme'. injection Hme' as <-.
  assert (forall vs, state_at st (key me) vs -> vs = convert_to_current v) as Hinj.
  { intros vs (v' & Hv' & <-). congruence. }
  destruct Hs as [vs vs' d Hvs -> Hd Hauth _|v' i e d Hv' Hun _ _ _|vs st1 to n Hvs Hw _ _ _].
  - apply Hinj in Hvs as ->. destruct Hauth as [|(e & voter & ? & ? & ? & ? & ?)]; [done|].
    split_and!.
    + intros k. apply lamports_set_data.
    + intros k Hk. by rewrite acct_set_data, decide_False.
    + exists vs'. split_and!; try done; [|by eauto]. exists (Current vs').
      by rewrite data_set_data, decide_True.
  - congruence.
  - by apply Hinj in Hvs as ->.
Qed.
End Guarantees.

(** ** A sample vote account

    A codec that satisfies the law: every value as a list of cells, lists with
    their length in front. *)
Module VoteSample.
Definition c_lockout : codec Lockout.
Proof.
  refine (c_iso (c_pair c_Z c_Z) (fun l => (slot l, confirmation_count l))
            (fun p => {| slot := fst p; confirmation_count := snd p |}) _).
  by intros [].
Defined.

Definition c_timestamp : codec BlockTimestamp.
Proof.
  refine (c_iso (c_pair c_Z c_Z) (fun t => (ts_slot t, ts_timestamp t))
            (fun p => {| ts_slot := fst p; ts_timestamp := snd p |}) _).
  by intros [].
Defined.

Definition c_buf {I} (c : codec I) : codec (CircBuf I).
Proof.
  refine (c_iso (c_pair (c_list c) (c_pair c_nat c_bool))
    (fun b => (buf b, (idx b, is_empty b)))
    (fun p => {| buf := fst p; idx := fst (snd p); is_empty := snd (snd p) |}) _).
  by intros [].
Defined.

Definition c_credits : codec (list (Epoch * Z * Z)) := c_list (c_pair (c_pair c_Z c_Z) c_Z).

Definition c_state : codec VoteState.
Proof.
  refine (c_iso
    (c_pair (c_pair c_key (c_pair c_key c_Z))
       (c_pair (c_pair (c_list c_lockout) (c_option c_Z))
          (c_pair (c_pair (c_list (c_pair c_Z c_key))
                     (c_buf (c_pair (c_pair c_key c_Z) c_Z)))
             (c_pair c_credits c_timestamp))))
    (fun s => ((node_pubkey s, (authorized_withdrawer s, commission s)),
               ((votes s, root_slot s),
                ((authorized_voters s, prior_voters s),
                 (epoch_credits s, last_timestamp s)))))
    (fun '((a, (b, c)), ((d, e), ((f, g), (h, i)))) =>
       {| node_pubkey := a; authorized_withdrawer := b; commission := c; votes := d;
          root_slot := e; authorized_voters := f; prior_voters := g;
          epoch_credits := h; last_timestamp := i |}) _).
  by intros [].
Defined.

Definition c_old : codec VoteState0_23_5.
Proof.
  refine (c_iso
    (c_pair (c_pair c_key (c_pair c_key c_Z))
       (c_pair (c_pair (c_pair (c_list (c_pair (c_pair (c_pair c_key c_Z) c_Z) c_Z)) c_nat)
                  (c_pair c_key c_Z))
          (c_pair (c_pair (c_list c_lockout) (c_option c_Z))
             (c_pair c_credits c_timestamp))))
    (fun s => ((old_node_pubkey s, (old_authorized_voter s, old_authorized_voter_epoch s)),
               ((old_prior_voters s, (old_authorized_withdrawer s, old_commission s)),
                ((old_votes s, old_root_slot s),
                 (old_epoch_credits s, old_last_timestamp s)))))
    (fun '((a, (b, c)), ((d, (e, f)), ((g, h), (i, j)))) =>
       {| old_node_pubkey := a; old_authorized_voter := b; old_authorized_voter_epoch := c;
          old_prior_voters := d; old_authorized_withdrawer := e; old_commission := f;
          old_votes := g; old_root_slot := h; old_epoch_credits := i;
          old_last_timestamp := j |}) _).
  by intros [].
Defined.

Definition c_versions : codec VoteStateVersions.
Proof.
  refine (c_iso (c_sum c_old c_state)
    (fun v => match v with V0_23_5 s => inl s | Current s => inr s end)
    (fun s => match s with inl s => V0_23_5 s | inr s => Current s end) _).
  by intros [].
Defined.

Definition encode : VoteStateVersions -> list Z := enc c_versions.
Definition decode : list Z -> option VoteStateVersions := decode_prefix c_versions.

Lemma codec_ok v rest : decode (encode v ++ rest) = Some v.
Proof. apply decode_prefix_enc. Qed.

Definition decode_clock (l : list Z) : option Clock :=
  match l with
  | [a; b; c; d; e] =>
      Some {| clock_slot := a; epoch_start_timestamp := b; epoch := c;
              leader_schedule_epoch := d; unix_timestamp := e |}
  | _ => None
  end.
Definition c_hashes : codec (list (Slot * Hash)) := c_list (c_pair c_Z c_key).
Definition decode_slot_hashes : list Z -> option (list (Slot * Hash)) :=
  decode_prefix c_hashes.
Definition decode_rent (l : list Z) : option Rent := Some Rent_default.

Definition k (n : Z) : Pubkey := n :: replicate 31 2.
Definition hashes : list (Slot * Hash) := [(9, k 109); (7, k 107); (6, k 106); (4, k 104)].
Definition vote : Vote := {| slots := [4; 7]; hash := k 107; timestamp := Some 50 |}.
Definition decode_instruction (l : list Z) : option VoteInstruction.t :=
  match l with
  | [2] => Some (VoteInstruction.Vote vote)
  | [3; n] => Some (VoteInstruction.Withdraw n)
  | _ => None
  end.

(** Vote account [k 1]: node [k 2], voter [k 3], withdrawer [k 4]. *)
Definition vote_init : VoteInit :=
  {| init_node_pubkey := k 2; init_authorized_voter := k 3;
     init_authorized_withdrawer := k 4; init_commission := 10 |}.
Definition account (own : Pubkey) (l : Z) (d : list Z) : AccountSharedData :=
  {| lamports := l; data := d; owner := own; executable := false; rent_epoch := 0 |}.
Definition space : list Z := replicate (size_of encode (k 0)) 0.
Definition fresh : list Z := encode (Current (VoteState_new vote_init 5)).
Definition vote_data : list Z := fresh ++ drop (length fresh) space.
Definition st : store :=
  <[k 1 := account vote_program_id 1000 vote_data]>
  (<[slot_hashes_sysvar_id := account (k 9) 1 (enc c_hashes hashes)]>
  (<[clock_sysvar_id := account (k 9) 1 [10; 0; 5; 6; 60]]> ∅)).

Definition info (j : Pubkey) (signer : bool) : AccountInfo :=
  {| key := j; is_signer := signer; is_writable := true |}.
Definition vote_accounts : list AccountInfo :=
  [info (k 1) false; info slot_hashes_sysvar_id false; info clock_sysvar_id false;
   info (k 3) true].
Abbreviation run :=
  (process_instruction encode decode decode_clock decode_slot_hashes decode_rent
     decode_instruction (k 0)).
Definition st' : store := value_or st (run 0 vote_accounts true [2] st).

Lemma run_vote : run 0 vote_accounts true [2] st = Ok st'.
Proof. apply is_ok_value. vm_compute. reflexivity. Qed.

Lemma states_ok j vs : state_at decode st j vs -> state_ok vs.
Proof.
  intros (v & Hv & <-). unfold st, acct in Hv. rewrite !lookup_insert, lookup_empty in Hv.
  repeat case_decide; cbn [default data account id] in Hv.
  - unfold vote_data, fresh in Hv. rewrite codec_ok in Hv. injection Hv as <-.
    apply state_ok_new.
  - vm_compute in Hv. discriminate.
  - vm_compute in Hv. discriminate.
  - discriminate.
Qed.

Lemma vote_states_stay_ok_witness :
  exists vs, state_at decode st' (k 1) vs /\ tower vs = [7] /\ state_ok vs.
Proof.
  destruct (decode (data (acct st' (k 1)))) as [v|] eqn:E; [|vm_compute in E; discriminate].
  exists (convert_to_current v). assert (state_at decode st' (k 1) (convert_to_current v)) as Hv
    by exact (ex_intro _ v (conj E eq_refl)).
  split; [exact Hv|]. split.
  - vm_compute in E. injection E as <-. reflexivity.
  - refine (vote_states_stay_ok encode decode _ _ _ _ _ codec_ok 0 vote_accounts true [2]
           st st' run_vote (fun j vs _ => states_ok j vs) (k 1) _ _ Hv).
    vm_compute. reflexivity.
Defined.

Definition withdraw_accounts : list AccountInfo :=
  [info (k 1) false; info (k 8) false; info (k 4) true].
Definition st_w : store := value_or st (run 0 withdraw_accounts true [3; 300] st).

Lemma vote_lamports_conserved_witness : total_lamports st_w = total_lamports st.
Proof.
  apply (vote_lamports_conserved encode decode decode_clock decode_slot_hashes decode_rent
           decode_instruction (k 0) codec_ok 0 withdraw_accounts true [3; 300]).
  apply is_ok_value. vm_compute. reflexivity.
Defined.

Lemma withdrawer_controls_account_witness :
  (forall j, lamports (acct st' j) = lamports (acct st j)) /\
  (forall j, j <> k 1 -> acct st' j = acct st j) /\
  exists vs', state_at decode st' (k 1) vs' /\
    authorized_withdrawer vs' = k 4 /\ node_pubkey vs' = k 2 /\ commission vs' = 10 /\
    exists e voter,
      AuthorizedVoters_get (authorized_voters (VoteState_new vote_init 5)) e = Some voter /\
      voter ∈ get_signers (drop 0 vote_accounts).
Proof.
  apply (withdrawer_controls_account encode decode decode_clock decode_slot_hashes decode_rent
    decode_instruction (k 0) codec_ok 0 vote_accounts true [2] st st' (info (k 1) false)
    (Current (VoteState_new vote_init 5)) run_vote eq_refl).
  - vm_compute. reflexivity.
  - reflexivity.
  - apply (bool_decide_unpack _). vm_compute. exact I.
Defined.
End VoteSample.
