(* ===== verification/StakeState.v ===== *)
(** * Stake program: stake state, activation and rewards

    Models [src/testnet/sdk/program/src/stake/state.rs] (lockups, authorities,
    delegations and their activation), [stake/config.rs], [stake_history.rs],
    and the reward computation of
    [src/testnet/programs/stake/src/stake_state.rs].  The tracing callbacks of
    the reward computation only report and are left out. *)

From stdpp Require Import base gmap list fin_maps strings.
From Stdlib Require Import ZArith Lia SpecFloat.
From S2P Require Import Prelude Sdk Runtime KeyedAccount VoteState VoteInstruction.

(** ** Floating point used by the stake program *)
Definition f64_sub (x y : F64.f64) : F64.f64 := SFsub F64.prec F64.emax x y.
Definition f64_EPSILON : F64.f64 :=
  Eval vm_compute in binary_normalize F64.prec F64.emax 1 (-52) false.

(** ** Errors *)
Module StakeError.
Inductive t : Type :=
| NoCreditsToRedeem | LockupInForce | AlreadyDeactivated | TooSoonToRedelegate
| InsufficientStake | MergeTransientStake | MergeMismatch | CustodianMissing
| CustodianSignatureMissing.

Definition discriminant (e : t) : Z :=
  match e with
  | NoCreditsToRedeem => 0 | LockupInForce => 1 | AlreadyDeactivated => 2
  | TooSoonToRedelegate => 3 | InsufficientStake => 4 | MergeTransientStake => 5
  | MergeMismatch => 6 | CustodianMissing => 7 | CustodianSignatureMissing => 8
  end.

Definition into (e : t) : InstructionError.t := InstructionError_from (discriminant e).
End StakeError.

(** ** The history of the cluster's stake, most recent epoch first *)
Record StakeHistoryEntry := {
  effective : Z;
  activating : Z;
  deactivating : Z;
}.

Definition StakeHistoryEntry_default : StakeHistoryEntry :=
  {| effective := 0; activating := 0; deactivating := 0 |}.
Definition with_effective (n : Z) : StakeHistoryEntry :=
  {| effective := n; activating := 0; deactivating := 0 |}.
Definition with_effective_and_activating (n a : Z) : StakeHistoryEntry :=
  {| effective := n; activating := a; deactivating := 0 |}.
Definition with_deactivating (n : Z) : StakeHistoryEntry :=
  {| effective := n; activating := 0; deactivating := n |}.
Definition StakeHistoryEntry_add (x y : StakeHistoryEntry) : StakeHistoryEntry :=
  {| effective := saturating_add u64_max (effective x) (effective y);
     activating := saturating_add u64_max (activating x) (activating y);
     deactivating := saturating_add u64_max (deactivating x) (deactivating y) |}.

Abbreviation StakeHistory := (list (Epoch * StakeHistoryEntry)).

Module StakeHistory.
Definition MAX_ENTRIES : nat := 512.

(** [binary_search_by(|probe| epoch.cmp(&probe.0))]: bisection of
    [left, right), [inl] the index found or [inr] where to insert. *)
Fixpoint binary_search (fuel : nat) (h : StakeHistory) (epoch : Epoch) (left right : nat)
  : nat + nat :=
  match fuel with
  | O => inr left
  | S fuel =>
      if Nat.ltb left right then
        let mid := (left + (right - left) / 2)%nat in
        match h !! mid with
        | Some (probe, _) =>
            match epoch ?= probe with
            | Lt => binary_search fuel h epoch (S mid) right
            | Gt => binary_search fuel h epoch left mid
            | Eq => inl mid
            end
        | None => inr left
        end
      else inr left
  end.

Definition search (h : StakeHistory) (epoch : Epoch) : nat + nat :=
  binary_search (S (length h)) h epoch 0 (length h).

Definition get (h : StakeHistory) (epoch : Epoch) : option StakeHistoryEntry :=
  match search h epoch with
  | inl index => snd <$> h !! index
  | inr _ => None
  end.

Definition add (h : StakeHistory) (epoch : Epoch) (entry : StakeHistoryEntry) : StakeHistory :=
  take MAX_ENTRIES
    match search h epoch with
    | inl index => <[index := (epoch, entry)]> h
    | inr index => take index h ++ (epoch, entry) :: drop index h
    end.
End StakeHistory.

(** ** Configuration *)
Record Config := {
  c_warmup_cooldown_rate : F64.f64;
  slash_penalty : Z;
}.

Definition DEFAULT_WARMUP_COOLDOWN_RATE : F64.f64 :=
  Eval vm_compute in binary_normalize F64.prec F64.emax 1 (-2) false.
Definition DEFAULT_SLASH_PENALTY : Z := 5 * u8_max / 100.
Definition Config_default : Config :=
  {| c_warmup_cooldown_rate := DEFAULT_WARMUP_COOLDOWN_RATE;
     slash_penalty := DEFAULT_SLASH_PENALTY |}.

(** ** Lockups and authorities *)
Module StakeAuthorize.
Inductive t : Type := Staker | Withdrawer.
End StakeAuthorize.

Record Lockup := {
  lockup_timestamp : UnixTimestamp;
  lockup_epoch : Epoch;
  lockup_custodian : Pubkey;
}.

Definition Lockup_default : Lockup :=
  {| lockup_timestamp := 0; lockup_epoch := 0; lockup_custodian := default_key |}.

Definition is_in_force (l : Lockup) (clock : Clock) (custodian : option Pubkey) : bool :=
  if bool_decide (custodian = Some (lockup_custodian l)) then false
  else (unix_timestamp clock <? lockup_timestamp l) || (epoch clock <? lockup_epoch l).

Record Authorized := {
  staker : Pubkey;
  withdrawer : Pubkey;
}.

Definition Authorized_auto (k : Pubkey) : Authorized := {| staker := k; withdrawer := k |}.

Definition Authorized_check (a : Authorized) (signers : list Pubkey) (ty : StakeAuthorize.t)
  : instruction_result unit :=
  match ty with
  | StakeAuthorize.Staker => fail_if (negb (bool_decide (staker a ∈ signers)))
                InstructionError.MissingRequiredSignature
  | StakeAuthorize.Withdrawer => fail_if (negb (bool_decide (withdrawer a ∈ signers)))
                         InstructionError.MissingRequiredSignature
  end.

(** The lockup guards of a new withdrawer. *)
Definition check_lockup_custodian (signers : list Pubkey)
    (args : option (Lockup * Clock * option Pubkey)) : instruction_result unit :=
  match args with
  | Some (lockup, clock, custodian) =>
      if is_in_force lockup clock None then
        match custodian with
        | None => Err (StakeError.into StakeError.CustodianMissing)
        | Some c =>
            fail_if (negb (bool_decide (c ∈ signers)))
              (StakeError.into StakeError.CustodianSignatureMissing) ;;
            fail_if (is_in_force lockup clock (Some c))
              (StakeError.into StakeError.LockupInForce)
        end
      else Ok tt
  | None => Ok tt
  end.

Definition Authorized_authorize (a : Authorized) (signers : list Pubkey) (new : Pubkey)
    (ty : StakeAuthorize.t) (args : option (Lockup * Clock * option Pubkey))
  : instruction_result Authorized :=
  match ty with
  | StakeAuthorize.Staker =>
      fail_if (negb (bool_decide (staker a ∈ signers))
               && negb (bool_decide (withdrawer a ∈ signers)))
        InstructionError.MissingRequiredSignature ;;
      Ok {| staker := new; withdrawer := withdrawer a |}
  | StakeAuthorize.Withdrawer =>
      check_lockup_custodian signers args ;;
      Authorized_check a signers ty ;;
      Ok {| staker := staker a; withdrawer := new |}
  end.

Record Meta := {
  rent_exempt_reserve : Z;
  authorized : Authorized;
  lockup : Lockup;
}.

Record LockupArgs := {
  new_unix_timestamp : option UnixTimestamp;
  new_epoch : option Epoch;
  new_custodian : option Pubkey;
}.

Definition with_authorized (m : Meta) (a : Authorized) : Meta :=
  {| rent_exempt_reserve := rent_exempt_reserve m; authorized := a; lockup := lockup m |}.
Definition with_reserve (m : Meta) (n : Z) : Meta :=
  {| rent_exempt_reserve := n; authorized := authorized m; lockup := lockup m |}.

Definition Meta_set_lockup (m : Meta) (args : LockupArgs) (signers : list Pubkey)
    (clock : option Clock) : instruction_result Meta :=
  match clock with
  | None => fail_if (negb (bool_decide (lockup_custodian (lockup m) ∈ signers)))
              InstructionError.MissingRequiredSignature
  | Some clock =>
      if is_in_force (lockup m) clock None
      then fail_if (negb (bool_decide (lockup_custodian (lockup m) ∈ signers)))
             InstructionError.MissingRequiredSignature
      else fail_if (negb (bool_decide (withdrawer (authorized m) ∈ signers)))
             InstructionError.MissingRequiredSignature
  end ;;
  Ok {| rent_exempt_reserve := rent_exempt_reserve m; authorized := authorized m;
        lockup :=
          {| lockup_timestamp := default (lockup_timestamp (lockup m)) (new_unix_timestamp args);
             lockup_epoch := default (lockup_epoch (lockup m)) (new_epoch args);
             lockup_custodian := default (lockup_custodian (lockup m)) (new_custodian args) |} |}.

Definition rewrite_rent_exempt_reserve (m : Meta) (rent : Rent) (len : Z)
  : Meta * option (Z * Z) :=
  let corrected := minimum_balance rent len in
  if negb (corrected =? rent_exempt_reserve m)
  then (with_reserve m corrected, Some (rent_exempt_reserve m, corrected))
  else (m, None).

(** ** Delegations *)
Record Delegation := {
  voter_pubkey : Pubkey;
  stake : Z;
  activation_epoch : Epoch;
  deactivation_epoch : Epoch;
  warmup_cooldown_rate : F64.f64;
}.

Definition Delegation_new (voter : Pubkey) (n : Z) (activation : Epoch) (rate : F64.f64)
  : Delegation :=
  {| voter_pubkey := voter; stake := n; activation_epoch := activation;
     deactivation_epoch := u64_max; warmup_cooldown_rate := rate |}.

Definition is_bootstrap (d : Delegation) : bool := activation_epoch d =? u64_max.

(** The share of an epoch's change in effective stake that [part] of the
    [whole] is entitled to, at least 1. *)
Definition entitlement (d : Delegation) (part whole cluster : Z) : Z :=
  let weight := F64.div (F64.of_u64 part) (F64.of_u64 whole) in
  let newly_cluster_stake := F64.mul (F64.of_u64 cluster) (warmup_cooldown_rate d) in
  Z.max (F64.to_u64 (F64.mul weight newly_cluster_stake)) 1.

(** The loop from the activation epoch to the target; [None] when the fuel
    runs out. *)
Fixpoint activation_loop (fuel : nat) (d : Delegation) (history : StakeHistory)
    (target_epoch prev_epoch : Epoch) (prev_cluster_stake : StakeHistoryEntry)
    (current_effective_stake : Z) : option Z :=
  match fuel with
  | O => None
  | S fuel =>
      let current_epoch := wrapping_add u64_max prev_epoch 1 in
      if activating prev_cluster_stake =? 0 then Some current_effective_stake
      else
        let remaining := wrapping_sub u64_max (stake d) current_effective_stake in
        let newly_effective_stake :=
          entitlement d remaining (activating prev_cluster_stake)
            (effective prev_cluster_stake) in
        let current_effective_stake :=
          wrapping_add u64_max current_effective_stake newly_effective_stake in
        if stake d <=? current_effective_stake then Some (stake d)
        else if (target_epoch <=? current_epoch) || (deactivation_epoch d <=? current_epoch)
        then Some current_effective_stake
        else match StakeHistory.get history current_epoch with
             | Some current_cluster_stake =>
                 activation_loop fuel d history target_epoch current_epoch
                   current_cluster_stake current_effective_stake
             | None => Some current_effective_stake
             end
  end.

Fixpoint deactivation_loop (fuel : nat) (d : Delegation) (history : StakeHistory)
    (target_epoch prev_epoch : Epoch) (prev_cluster_stake : StakeHistoryEntry)
    (current_effective_stake : Z) : option Z :=
  match fuel with
  | O => None
  | S fuel =>
      let current_epoch := wrapping_add u64_max prev_epoch 1 in
      if deactivating prev_cluster_stake =? 0 then Some current_effective_stake
      else
        let newly_not_effective_stake :=
          entitlement d current_effective_stake (deactivating prev_cluster_stake)
            (effective prev_cluster_stake) in
        let current_effective_stake :=
          saturating_sub current_effective_stake newly_not_effective_stake in
        if current_effective_stake =? 0 then Some current_effective_stake
        else if target_epoch <=? current_epoch then Some current_effective_stake
        else match StakeHistory.get history current_epoch with
             | Some current_cluster_stake =>
                 deactivation_loop fuel d history target_epoch current_epoch
                   current_cluster_stake current_effective_stake
             | None => Some current_effective_stake
             end
  end.

(** Every turn but the last finds a later epoch in the history. *)
Definition history_fuel (history : StakeHistory) : nat := S (length history).

(** [history.and_then(|history| history.get(&epoch).map(...))] *)
Definition history_at (history : option StakeHistory) (epoch : Epoch)
  : option (StakeHistory * StakeHistoryEntry) :=
  h ← history; e ← StakeHistory.get h epoch; Some (h, e).

Definition stake_and_activating (d : Delegation) (target_epoch : Epoch)
    (history : option StakeHistory) : Z * Z :=
  let delegated_stake := stake d in
  if is_bootstrap d then (delegated_stake, 0)
  else if activation_epoch d =? deactivation_epoch d then (0, 0)
  else if target_epoch =? activation_epoch d then (0, delegated_stake)
  else if target_epoch <? activation_epoch d then (0, 0)
  else match history_at history (activation_epoch d) with
       | Some (h, entry) =>
           let current_effective_stake :=
             default 0 (activation_loop (history_fuel h) d h target_epoch
                          (activation_epoch d) entry 0) in
           (current_effective_stake,
            wrapping_sub u64_max delegated_stake current_effective_stake)
       | None => (delegated_stake, 0)
       end.

Definition stake_activating_and_deactivating (d : Delegation) (target_epoch : Epoch)
    (history : option StakeHistory) : StakeHistoryEntry :=
  let '(effective_stake, activating_stake) := stake_and_activating d target_epoch history in
  if target_epoch <? deactivation_epoch d then
    if activating_stake =? 0 then with_effective effective_stake
    else with_effective_and_activating effective_stake activating_stake
  else if target_epoch =? deactivation_epoch d then with_deactivating effective_stake
  else match history_at history (deactivation_epoch d) with
       | Some (h, entry) =>
           with_deactivating
             (default 0 (deactivation_loop (history_fuel h) d h target_epoch
                           (deactivation_epoch d) entry effective_stake))
       | None => StakeHistoryEntry_default
       end.

Definition Delegation_stake (d : Delegation) (e : Epoch) (history : option StakeHistory) : Z :=
  effective (stake_activating_and_deactivating d e history).

(** [new_stake_history_entry]: the cluster's totals *)
Definition new_stake_history_entry (e : Epoch) (stakes : list Delegation)
    (history : option StakeHistory) : StakeHistoryEntry :=
  foldl (fun sum d => StakeHistoryEntry_add sum (stake_activating_and_deactivating d e history))
    StakeHistoryEntry_default stakes.

(** ** Stakes *)
Record Stake := {
  delegation : Delegation;
  credits_observed : Z;
}.

Definition with_stake (d : Delegation) (n : Z) : Delegation :=
  {| voter_pubkey := voter_pubkey d; stake := n; activation_epoch := activation_epoch d;
     deactivation_epoch := deactivation_epoch d;
     warmup_cooldown_rate := warmup_cooldown_rate d |}.
Definition with_deactivation (d : Delegation) (e : Epoch) : Delegation :=
  {| voter_pubkey := voter_pubkey d; stake := stake d; activation_epoch := activation_epoch d;
     deactivation_epoch := e; warmup_cooldown_rate := warmup_cooldown_rate d |}.

(** The source with what remains, and the new stake. *)
Definition Stake_split (s : Stake) (remaining_stake_delta split_stake_amount : Z)
  : result StakeError.t (Stake * Stake) :=
  fail_if (stake (delegation s) <? remaining_stake_delta) StakeError.InsufficientStake ;;
  let s' := {| delegation := with_stake (delegation s)
                 (wrapping_sub u64_max (stake (delegation s)) remaining_stake_delta);
               credits_observed := credits_observed s |} in
  Ok (s', {| delegation := with_stake (delegation s') split_stake_amount;
             credits_observed := credits_observed s' |}).

Definition Stake_deactivate (s : Stake) (e : Epoch) : result StakeError.t Stake :=
  fail_if (negb (deactivation_epoch (delegation s) =? u64_max)) StakeError.AlreadyDeactivated ;;
  Ok {| delegation := with_deactivation (delegation s) e;
        credits_observed := credits_observed s |}.

Module StakeState.
Inductive t : Type :=
| Uninitialized
| Initialized (m : Meta)
| Stake (m : Meta) (s : Stake)
| RewardsPool.
End StakeState.

Definition new_stake (n : Z) (voter : Pubkey) (vote_state : VoteState) (activation : Epoch)
    (config : Config) : Stake :=
  {| delegation := Delegation_new voter n activation (c_warmup_cooldown_rate config);
     credits_observed := credits vote_state |}.

Definition redelegate (s : Stake) (stake_lamports : Z) (voter : Pubkey)
    (vote_state : VoteState) (clock : Clock) (stake_history : StakeHistory) (config : Config)
    (can_reverse_deactivation : bool) : result StakeError.t Stake :=
  if negb (Delegation_stake (delegation s) (epoch clock) (Some stake_history) =? 0) then
    if bool_decide (voter_pubkey (delegation s) = voter)
       && (epoch clock =? deactivation_epoch (delegation s)) && can_reverse_deactivation
    then Ok {| delegation := with_deactivation (delegation s) u64_max;
               credits_observed := credits_observed s |}
    else Err StakeError.TooSoonToRedelegate
  else
    Ok {| delegation :=
            {| voter_pubkey := voter; stake := stake_lamports;
               activation_epoch := epoch clock; deactivation_epoch := u64_max;
               warmup_cooldown_rate := c_warmup_cooldown_rate config |};
          credits_observed := credits vote_state |}.

(** ** Rewards *)
Record PointValue := {
  rewards : Z;
  points : Z;
}.

(** What one epoch's credits add: the points so far and the credits observed. *)
Definition epoch_points (s : Stake) (stake_history : option StakeHistory)
    (acc : Z * Z) (ec : Epoch * Z * Z) : Z * Z :=
  let '(points, new_credits_observed) := acc in
  let '(e, final_epoch_credits, initial_epoch_credits) := ec in
  let stake_amount := Delegation_stake (delegation s) e stake_history in
  let earned_credits :=
    if credits_observed s <? initial_epoch_credits
    then wrapping_sub u64_max final_epoch_credits initial_epoch_credits
    else if credits_observed s <? final_epoch_credits
    then wrapping_sub u64_max final_epoch_credits new_credits_observed
    else 0 in
  (wrapping_add u128_max points (wrapping_mul u128_max stake_amount earned_credits),
   Z.max new_credits_observed final_epoch_credits).

Definition calculate_stake_points_and_credits (s : Stake) (new_vote_state : VoteState)
    (stake_history : option StakeHistory) : Z * Z :=
  if credits new_vote_state <=? credits_observed s then (0, credits_observed s)
  else foldl (epoch_points s stake_history) (0, credits_observed s)
         (epoch_credits new_vote_state).

Definition calculate_stake_points (s : Stake) (vote_state : VoteState)
    (stake_history : option StakeHistory) : Z :=
  fst (calculate_stake_points_and_credits s vote_state stake_history).

(** The staker's and the voter's reward and the credits observed; [None] when
    nothing is paid.  The [unwrap]s panic. *)
Definition calculate_stake_rewards (rewarded_epoch : Epoch) (s : Stake)
    (point_value : PointValue) (vote_state : VoteState)
    (stake_history : option StakeHistory) (fix_activating_credits_observed : bool)
  : instruction_result (option (Z * Z * Z)) :=
  let '(pts, credits_observed) :=
    calculate_stake_points_and_credits s vote_state stake_history in
  if (rewards point_value =? 0)
     || (fix_activating_credits_observed
         && (activation_epoch (delegation s) =? rewarded_epoch))
  then Ok (Some (0, 0, credits_observed))
  else if pts =? 0 then Ok None
  else if points point_value =? 0 then Ok None
  else
    r ← unwrap (checked_mul u128_max pts (rewards point_value));
    r ← unwrap (checked_div r (points point_value));
    panic_unless (r <=? u64_max) ;;
    if r =? 0 then Ok None
    else
      let '(voter_rewards, staker_rewards, is_split) := commission_split vote_state r in
      if ((voter_rewards =? 0) || (staker_rewards =? 0)) && is_split then Ok None
      else Ok (Some (staker_rewards, voter_rewards, credits_observed)).

(** The stake after the payment, and the rewards of staker and voter. *)
Definition redeem_stake_rewards (rewarded_epoch : Epoch) (s : Stake)
    (point_value : PointValue) (vote_state : VoteState)
    (stake_history : option StakeHistory) (fix_activating_credits_observed : bool)
  : instruction_result (option (Stake * (Z * Z))) :=
  r ← calculate_stake_rewards rewarded_epoch s point_value vote_state stake_history
        fix_activating_credits_observed;
  Ok match r with
     | Some (stakers_reward, voters_reward, observed) =>
         Some ({| delegation := with_stake (delegation s)
                    (wrapping_add u64_max (stake (delegation s)) stakers_reward);
                  credits_observed := observed |}, (stakers_reward, voters_reward))
     | None => None
     end.

Definition calculate_points (state : StakeState.t) (vote_state : VoteState)
    (stake_history : option StakeHistory) : instruction_result Z :=
  match state with
  | StakeState.Stake _ s => Ok (calculate_stake_points s vote_state stake_history)
  | _ => Err InstructionError.InvalidAccountData
  end.

(** [calculate_split_rent_exempt_reserve] *)
Definition calculate_split_rent_exempt_reserve
    (source_reserve source_data_len split_data_len : Z) : Z :=
  let lamports_per_byte_year :=
    source_reserve / (wrapping_add u64_max source_data_len ACCOUNT_STORAGE_OVERHEAD) in
  wrapping_mul u64_max lamports_per_byte_year
    (wrapping_add u64_max split_data_len ACCOUNT_STORAGE_OVERHEAD).

(** ** Merging stakes *)
Definition stake_weighted_credits_observed (s : Stake) (absorbed_lamports : Z)
    (absorbed_credits_observed : Z) : option Z :=
  if credits_observed s =? absorbed_credits_observed then Some (credits_observed s)
  else
    total_stake ← checked_add u64_max (stake (delegation s)) absorbed_lamports;
    stake_weighted_credits ← checked_mul u128_max (credits_observed s) (stake (delegation s));
    absorbed_weighted_credits ←
      checked_mul u128_max absorbed_credits_observed absorbed_lamports;
    t ← checked_add u128_max stake_weighted_credits absorbed_weighted_credits;
    t ← checked_add u128_max t total_stake;
    t ← checked_sub t 1;
    q ← checked_div t total_stake;
    if q <=? u64_max then Some q else None.

(** [unmatched_credits]: the feature [stake_merge_with_unmatched_credits_observed] *)
Definition merge_delegation_stake_and_credits_observed (unmatched_credits : bool) (s : Stake)
    (absorbed_lamports absorbed_credits_observed : Z) : instruction_result Stake :=
  observed ← (if unmatched_credits
              then ok_or (stake_weighted_credits_observed s absorbed_lamports
                            absorbed_credits_observed) InstructionError.ArithmeticOverflow
              else Ok (credits_observed s));
  n ← instruction_checked_add (stake (delegation s)) absorbed_lamports;
  Ok {| delegation := with_stake (delegation s) n; credits_observed := observed |}.

#[global] Instance Lockup_eq_dec : EqDecision Lockup.
Proof. solve_decision. Defined.
#[global] Instance Authorized_eq_dec : EqDecision Authorized.
Proof. solve_decision. Defined.

Module MergeKind.
Inductive t : Type :=
| Inactive (m : Meta) (lamports : Z)
| ActivationEpoch (m : Meta) (s : Stake)
| FullyActive (m : Meta) (s : Stake).

Definition meta (k : t) : Meta :=
  match k with Inactive m _ | ActivationEpoch m _ | FullyActive m _ => m end.

Definition active_stake (k : t) : option Stake :=
  match k with Inactive _ _ => None | ActivationEpoch _ s | FullyActive _ s => Some s end.

(** [lamports] is the balance of the account that holds [state]. *)
Definition get_if_mergeable (state : StakeState.t) (lamports : Z) (clock : Clock)
    (stake_history : StakeHistory) : instruction_result t :=
  match state with
  | StakeState.Stake m s =>
      let status := stake_activating_and_deactivating (delegation s) (epoch clock)
                      (Some stake_history) in
      if effective status =? 0 then
        if (activating status =? 0) && (deactivating status =? 0)
        then Ok (Inactive m lamports) else Ok (ActivationEpoch m s)
      else if (activating status =? 0) && (deactivating status =? 0)
      then Ok (FullyActive m s)
      else Err (StakeError.into StakeError.MergeTransientStake)
  | StakeState.Initialized m => Ok (Inactive m lamports)
  | _ => Err InstructionError.InvalidAccountData
  end.

Definition metas_can_merge (m source : Meta) (clock : option Clock) : instruction_result unit :=
  let can_merge_lockups :=
    match clock with
    | None => bool_decide (lockup m = lockup source)
    | Some clock =>
        bool_decide (lockup m = lockup source)
        || (negb (is_in_force (lockup m) clock None)
            && negb (is_in_force (lockup source) clock None))
    end in
  if bool_decide (authorized m = authorized source) && can_merge_lockups then Ok tt
  else Err (StakeError.into StakeError.MergeMismatch).

Definition active_delegations_can_merge (d source : Delegation) : instruction_result unit :=
  if negb (bool_decide (voter_pubkey d = voter_pubkey source))
  then Err (StakeError.into StakeError.MergeMismatch)
  else if SFltb (SFabs (f64_sub (warmup_cooldown_rate d) (warmup_cooldown_rate source)))
            f64_EPSILON
          && (deactivation_epoch d =? u64_max) && (deactivation_epoch source =? u64_max)
  then Ok tt
  else Err (StakeError.into StakeError.MergeMismatch).

Definition active_stakes_can_merge (s source : Stake) : instruction_result unit :=
  active_delegations_can_merge (delegation s) (delegation source) ;;
  if credits_observed s =? credits_observed source then Ok tt
  else Err (StakeError.into StakeError.MergeMismatch).

Definition merge (unmatched_credits : bool) (self source : t) (clock : option Clock)
  : instruction_result (option StakeState.t) :=
  metas_can_merge (meta self) (meta source) clock ;;
  match active_stake self, active_stake source with
  | Some s, Some source =>
      if unmatched_credits
      then active_delegations_can_merge (delegation s) (delegation source)
      else active_stakes_can_merge s source
  | _, _ => Ok tt
  end ;;
  match self, source with
  | Inactive _ _, Inactive _ _ => Ok None
  | Inactive _ _, ActivationEpoch _ _ => Ok None
  | ActivationEpoch m s, Inactive _ source_lamports =>
      n ← instruction_checked_add (stake (delegation s)) source_lamports;
      Ok (Some (StakeState.Stake m
        {| delegation := with_stake (delegation s) n;
           credits_observed := credits_observed s |}))
  | ActivationEpoch m s, ActivationEpoch source_meta source_stake =>
      source_lamports ← instruction_checked_add (rent_exempt_reserve source_meta)
                          (stake (delegation source_stake));
      s ← merge_delegation_stake_and_credits_observed unmatched_credits s source_lamports
            (credits_observed source_stake);
      Ok (Some (StakeState.Stake m s))
  | FullyActive m s, FullyActive _ source_stake =>
      s ← merge_delegation_stake_and_credits_observed unmatched_credits s
            (stake (delegation source_stake)) (credits_observed source_stake);
      Ok (Some (StakeState.Stake m s))
  | _, _ => Err (StakeError.into StakeError.MergeMismatch)
  end.
End MergeKind.
