(* ===== verification/StakeProofs.v ===== *)
(** * Stake program: history, activation and rewards

    Theorems on the pure part of the stake program ([StakeState.v]): the stake
    history behaves as a bounded finite map, the warm-up and cool-down loops
    terminate and keep the stake of a delegation within what was delegated, a
    round of rewards stays within its pool, and merging two stakes does not
    create credits. *)

From stdpp Require Import base gmap list fin_maps sorting strings.
From Stdlib Require Import ZArith Lia SpecFloat.
From S2P Require Import Prelude Sdk Runtime KeyedAccount VoteState VoteProofs VoteInstruction StakeState.

(** ** The stake history is a finite map of at most 512 epochs *)
Definition descending (h : StakeHistory) : Prop :=
  StronglySorted (fun x y => fst y < fst x) h.
Definition contents (h : StakeHistory) : gmap Z StakeHistoryEntry := list_to_map h.

(** What a search may return. *)
Definition search_ok (h : StakeHistory) (e : Epoch) (r : nat + nat) : Prop :=
  match r with
  | inl i => exists x, h !! i = Some (e, x)
  | inr i => (i <= length h)%nat /\ Forall (fun p => e < fst p) (take i h) /\
             Forall (fun p => fst p < e) (drop i h)
  end.

Lemma descending_split h i p :
  descending h -> h !! i = Some p ->
  h = take i h ++ p :: drop (S i) h /\
  Forall (fun q => fst p < fst q) (take i h) /\
  Forall (fun q => fst q < fst p) (drop (S i) h).
Proof.
  intros Hs Hi. pose proof (take_drop_middle _ _ _ Hi) as Hh.
  unfold descending in Hs. rewrite <- Hh in Hs.
  apply StronglySorted_app in Hs as (Hlt & _ & [_ Hp]%StronglySorted_inv).
  split; [done|]. split; [|done].
  apply Forall_forall. intros q Hq. apply (Hlt q p Hq). left.
Qed.

Lemma binary_search_ok fuel h e l r :
  descending h -> (l <= r <= length h)%nat -> (r - l < fuel)%nat ->
  Forall (fun p => e < fst p) (take l h) -> Forall (fun p => fst p < e) (drop r h) ->
  search_ok h e (StakeHistory.binary_search fuel h e l r).
Proof.
  intros Hs. revert l r. induction fuel as [|fuel IH]; intros l r Hlr Hf Hl Hr; [lia|].
  cbn [StakeHistory.binary_search].
  destruct (Nat.ltb_spec l r) as [Hlt|Hge].
  2: { assert (l = r) as <- by lia. cbn. split; [lia|done]. }
  set (mid := (l + (r - l) / 2)%nat).
  assert (l <= mid < r)%nat as Hm.
  { pose proof (Nat.div_lt (r - l) 2). unfold mid. lia. }
  destruct (lookup_lt_is_Some_2 h mid) as [[probe y] Hy]; [lia|]. rewrite Hy.
  destruct (descending_split h mid _ Hs Hy) as (Hh & Hbefore & Hafter). cbn in *.
  destruct (Z.compare_spec e probe) as [->|Hlt'|Hgt].
  - eexists. exact Hy.
  - apply IH; [lia..| |done]. rewrite (take_S_r _ _ _ Hy).
    apply Forall_app. split; [|by repeat constructor].
    eapply Forall_impl; [exact Hbefore|]. intros; cbn in *. lia.
  - apply IH; [lia..|done|]. rewrite (drop_S _ _ _ Hy). constructor; [done|].
    eapply Forall_impl; [exact Hafter|]. intros; cbn in *. lia.
Qed.

Lemma search_spec h e : descending h -> search_ok h e (StakeHistory.search h e).
Proof.
  intros Hs. apply binary_search_ok; [done|lia|lia|by rewrite take_0|].
  by rewrite drop_all.
Qed.

Lemma descending_NoDup h : descending h -> NoDup h.*1.
Proof.
  induction 1 as [|[e x] h Hs IH Hx]; cbn; constructor; [|done].
  intros ([e' y] & -> & Hy)%list_elem_of_fmap. rewrite Forall_forall in Hx.
  specialize (Hx _ Hy). cbn in Hx. lia.
Qed.

Lemma history_get h e : descending h -> StakeHistory.get h e = contents h !! e.
Proof.
  intros Hs. pose proof (search_spec h e Hs) as Hr. unfold StakeHistory.get, contents.
  destruct (StakeHistory.search h e) as [i|i]; cbn in Hr.
  - destruct Hr as [x Hx]. rewrite Hx. symmetry. cbn.
    apply elem_of_list_to_map; [by apply descending_NoDup|].
    by eapply list_elem_of_lookup_2.
  - destruct Hr as (_ & Ht & Hd). symmetry. apply not_elem_of_list_to_map.
    intros ([e' y] & -> & Hy)%list_elem_of_fmap. rewrite <- (take_drop i h) in Hy.
    apply elem_of_app in Hy as [Hy|Hy]; rewrite Forall_forall in Ht, Hd;
      [specialize (Ht _ Hy)|specialize (Hd _ Hy)]; cbn in *; lia.
Qed.

(** The entry put in its place, before truncation. *)
Definition place (h : StakeHistory) (e : Epoch) (x : StakeHistoryEntry) : StakeHistory :=
  match StakeHistory.search h e with
  | inl i => <[i := (e, x)]> h
  | inr i => take i h ++ (e, x) :: drop i h
  end.

Lemma place_descending h e x : descending h -> descending (place h e x).
Proof.
  intros Hs. pose proof (search_spec h e Hs) as Hr. unfold place.
  assert (forall l r : StakeHistory, descending (l ++ r) ->
    Forall (fun p => e < fst p) l -> Forall (fun p => fst p < e) r ->
    descending (l ++ (e, x) :: r)) as Hins.
  { unfold descending. intros l r (Hlr & Hl & Hr')%StronglySorted_app Hle Hre.
    rewrite Forall_forall in Hle.
    apply StronglySorted_app_2; [|done|constructor; [done|]].
    - intros p q Hp [->|Hq]%elem_of_cons; cbn; auto.
    - exact Hre. }
  destruct (StakeHistory.search h e) as [i|i]; cbn in Hr.
  - destruct Hr as [y Hy]. destruct (descending_split h i _ Hs Hy) as (Hh & Hb & Ha).
    rewrite insert_take_drop by (by eapply lookup_lt_Some). apply Hins; [|done..].
    unfold descending in *. rewrite Hh in Hs.
    apply StronglySorted_app in Hs as (Hlr & Hl & [Hr' _]%StronglySorted_inv).
    apply StronglySorted_app_2; [|done..]. intros p q Hp Hq. apply Hlr; [done|by right].
  - destruct Hr as (_ & Hb & Ha). apply Hins; [by rewrite take_drop|done..].
Qed.

Lemma place_contents h e x : descending h -> contents (place h e x) = <[e := x]> (contents h).
Proof.
  intros Hs. pose proof (descending_NoDup _ (place_descending h e x Hs)) as Hnd.
  pose proof (search_spec h e Hs) as Hr. pose proof (descending_NoDup _ Hs) as Hnd0.
  unfold place, contents in *.
  destruct (StakeHistory.search h e) as [i|i]; cbn in Hr.
  - destruct Hr as [y Hy]. destruct (descending_split h i _ Hs Hy) as (Hh & _ & _).
    rewrite insert_take_drop in * by (by eapply lookup_lt_Some).
    rewrite (list_to_map_proper _ ((e, x) :: take i h ++ drop (S i) h))
      by (done || by rewrite <- Permutation_middle).
    rewrite (list_to_map_proper h ((e, y) :: take i h ++ drop (S i) h))
      by (done || (rewrite Hh at 1; by rewrite <- Permutation_middle)).
    cbn. by rewrite insert_insert_eq.
  - rewrite (list_to_map_proper _ ((e, x) :: h)); [done..|].
    rewrite <- Permutation_middle. by rewrite take_drop.
Qed.

Lemma place_length h e x :
  descending h ->
  length (place h e x) = if decide (e ∈ dom (contents h)) then length h else S (length h).
Proof.
  intros Hs. pose proof (history_get h e Hs) as Hg. pose proof (search_spec h e Hs) as Hr.
  unfold StakeHistory.get, place in *. rewrite (decide_ext _ (is_Some (contents h !! e)))
    by apply elem_of_dom. rewrite <- Hg.
  destruct (StakeHistory.search h e) as [i|i]; cbn in Hr.
  - destruct Hr as [y ->]. rewrite length_insert. by rewrite decide_True by (cbn; eauto).
  - rewrite decide_False by (intros [? [=]]). rewrite length_app. cbn.
    rewrite length_take, length_drop. lia.
Qed.

(** A full history loses its oldest epoch to a new one. *)
Lemma add_full h0 old y e x :
  let h := h0 ++ [(old, y)] in
  descending h -> length h = StakeHistory.MAX_ENTRIES -> old < e -> contents h !! e = None ->
  contents (StakeHistory.add h e x) = <[e := x]> (delete old (contents h)).
Proof.
  intros h Hs Hlen Hold He. pose proof (search_spec h e Hs) as Hr.
  pose proof (history_get h e Hs) as Hg. rewrite He in Hg.
  pose proof (descending_NoDup _ (place_descending h e x Hs)) as Hnd.
  pose proof (descending_NoDup _ Hs) as Hnd0.
  unfold StakeHistory.get, StakeHistory.add, place, contents in *.
  destruct (StakeHistory.search h e) as [i|i]; cbn in Hr.
  { destruct Hr as [? Hx]. by rewrite Hx in Hg. }
  destruct Hr as (Hi & Hb & Ha).
  assert (i <= length h0)%nat as Hi'.
  { destruct (decide (i <= length h0)%nat); [done|]. exfalso.
    rewrite take_ge in Hb by (unfold h; rewrite length_app; cbn; lia).
    unfold h in Hb. rewrite Forall_app, Forall_singleton in Hb. cbn in Hb. lia. }
  assert (length h = S (length h0)) as Hl by (unfold h; rewrite length_app; cbn; lia).
  unfold h in *. rewrite (take_app_le h0 _ i), (drop_app_le h0 _ i) in * by done.
  assert ((take i h0 ++ (e, x) :: drop i h0 ++ [(old, y)]) =
          (take i h0 ++ (e, x) :: drop i h0) ++ [(old, y)]) as Heq
    by (rewrite <- app_assoc; done).
  rewrite Heq in *.
  assert (length (take i h0 ++ (e, x) :: drop i h0) = StakeHistory.MAX_ENTRIES) as Hlen'.
  { rewrite <- Hlen, Hl, length_app, length_take. cbn. rewrite length_drop. lia. }
  rewrite take_app_length' by done.
  rewrite fmap_app in Hnd, Hnd0. apply NoDup_app in Hnd as (Hnd & _ & _).
  apply NoDup_app in Hnd0 as (Hnd0 & Hdisj & _).
  rewrite (list_to_map_proper _ ((e, x) :: h0))
    by (done || (rewrite <- Permutation_middle; by rewrite take_drop)).
  assert (old ∉ h0.*1) as Hnew by (intros H; apply (Hdisj _ H); cbn; left).
  cbn. f_equal. rewrite list_to_map_snoc by done.
  by rewrite delete_insert_id by (by apply not_elem_of_list_to_map).
Qed.

(** The stake history refines a finite map from epochs to entries:
    looking an epoch up is the map's lookup; adding keeps the epochs in
    descending order and their number at 512 at most; adding is the map's
    insertion while there is room or the epoch is known, and otherwise
    drops the oldest epoch. *)
Theorem history_refines_map h e x :
  descending h ->
  (forall e', StakeHistory.get h e' = contents h !! e') /\
  descending (StakeHistory.add h e x) /\
  (length (StakeHistory.add h e x) <= StakeHistory.MAX_ENTRIES)%nat /\
  ((length h < StakeHistory.MAX_ENTRIES)%nat \/
     (length h = StakeHistory.MAX_ENTRIES /\ e ∈ dom (contents h)) ->
   contents (StakeHistory.add h e x) = <[e := x]> (contents h)) /\
  (forall h0 old y,
     h = h0 ++ [(old, y)] -> length h = StakeHistory.MAX_ENTRIES -> old < e ->
     contents h !! e = None ->
     contents (StakeHistory.add h e x) = <[e := x]> (delete old (contents h))).
Proof.
  intros Hs. pose proof (place_descending h e x Hs) as Hp.
  change (StakeHistory.add h e x) with (take StakeHistory.MAX_ENTRIES (place h e x)) at 1 2 3.
  split_and!.
  - intros e'. by apply history_get.
  - unfold descending in *. rewrite <- (take_drop StakeHistory.MAX_ENTRIES (place h e x)) in Hp.
    by apply StronglySorted_app in Hp as (_ & ? & _).
  - rewrite length_take. lia.
  - intros Hroom. rewrite take_ge; [by apply place_contents|].
    rewrite place_length by done. case_decide; naive_solver lia.
  - intros h0 old y -> Hl Ho He. by apply (add_full h0 old y).
Qed.

(** ** The warm-up and cool-down loops *)

Lemma binary_search_found fuel h e l r i :
  StakeHistory.binary_search fuel h e l r = inl i -> exists x, h !! i = Some (e, x).
Proof.
  revert l r. induction fuel as [|fuel IH]; intros l r H; [done|].
  cbn [StakeHistory.binary_search] in H. case_if H; [|done].
  destruct (h !! (l + (r - l) / 2)%nat) as [[probe y]|] eqn:Hy; [|done].
  destruct (Z.compare_spec e probe) as [->|?|?]; eauto. injection H as <-. eauto.
Qed.

(** What a lookup returns is in the history, sorted or not. *)
Lemma history_get_elem h e x : StakeHistory.get h e = Some x -> (e, x) ∈ h.
Proof.
  unfold StakeHistory.get, StakeHistory.search.
  destruct (StakeHistory.binary_search _ _ _ _ _) as [i|] eqn:Hb; [|done].
  apply binary_search_found in Hb as [y Hy]. rewrite Hy. intros [= <-].
  by eapply list_elem_of_lookup_2.
Qed.

(** The entries a loop that has reached [prev] can still visit. *)
Definition later (h : StakeHistory) (prev : Epoch) : nat :=
  length (filter (fun p => prev < fst p) h).

Lemma later_decreases h prev x : (prev + 1, x) ∈ h -> (later h (prev + 1) < later h prev)%nat.
Proof.
  unfold later. induction h as [|[e y] h IH]; [by intros ?%not_elem_of_nil|].
  intros [[= <- <-]|Hin]%elem_of_cons; rewrite !filter_cons; cbn.
  - rewrite decide_False, decide_True by lia. cbn.
    enough (length (filter (fun p => (prev + 1 < fst p)%Z) h) <=
            length (filter (fun p => (prev < fst p)%Z) h))%nat by lia.
    clear. induction h as [|[e z] h IH]; [done|]. rewrite !filter_cons; cbn.
    repeat case_decide; cbn; lia.
  - specialize (IH Hin). repeat case_decide; cbn; lia.
Qed.

Lemma next_epoch prev target :
  0 <= prev < target -> target <= u64_max -> wrapping_add u64_max prev 1 = prev + 1.
Proof. intros. unfold wrapping_add. rewrite wrap_small; lia. Qed.

Lemma activation_loop_returns d h target fuel prev entry cur :
  (later h prev < fuel)%nat -> 0 <= prev < target -> target <= u64_max ->
  is_Some (activation_loop fuel d h target prev entry cur).
Proof.
  revert prev entry cur. induction fuel as [|fuel IH]; intros prev entry cur Hf Hp Ht; [lia|].
  cbn [activation_loop]. rewrite (next_epoch _ target) by done.
  repeat case_match; to_prop; eauto. apply IH; [|lia|done].
  match goal with H : StakeHistory.get _ _ = Some _ |- _ =>
    apply history_get_elem, later_decreases in H end. lia.
Qed.

Lemma deactivation_loop_returns d h target fuel prev entry cur :
  (later h prev < fuel)%nat -> 0 <= prev < target -> target <= u64_max ->
  is_Some (deactivation_loop fuel d h target prev entry cur).
Proof.
  revert prev entry cur. induction fuel as [|fuel IH]; intros prev entry cur Hf Hp Ht; [lia|].
  cbn [deactivation_loop]. rewrite (next_epoch _ target) by done.
  repeat case_match; to_prop; eauto. apply IH; [|lia|done].
  match goal with H : StakeHistory.get _ _ = Some _ |- _ =>
    apply history_get_elem, later_decreases in H end. lia.
Qed.

Lemma activation_loop_more d h target fuel fuel' prev entry cur v :
  activation_loop fuel d h target prev entry cur = Some v -> (fuel <= fuel')%nat ->
  activation_loop fuel' d h target prev entry cur = Some v.
Proof.
  revert fuel' prev entry cur. induction fuel as [|fuel IH]; intros [|fuel'] prev entry cur H Hf;
    [done..|lia|].
  cbn [activation_loop] in *. repeat case_match; eauto with lia.
Qed.

Lemma deactivation_loop_more d h target fuel fuel' prev entry cur v :
  deactivation_loop fuel d h target prev entry cur = Some v -> (fuel <= fuel')%nat ->
  deactivation_loop fuel' d h target prev entry cur = Some v.
Proof.
  revert fuel' prev entry cur. induction fuel as [|fuel IH]; intros [|fuel'] prev entry cur H Hf;
    [done..|lia|].
  cbn [deactivation_loop] in *. repeat case_match; eauto with lia.
Qed.

Lemma later_fuel h prev : (later h prev < history_fuel h)%nat.
Proof.
  unfold later, history_fuel. pose proof (length_filter (fun p => prev < fst p) h). lia.
Qed.

(** C35: The loops that follow a stake through the history terminate: with as
    many turns as the history has entries plus one they return a result,
    and more turns do not change it. *)
Theorem epoch_loops_terminate d h target prev entry cur :
  0 <= prev < target -> target <= u64_max ->
  (exists v, forall fuel, (history_fuel h <= fuel)%nat ->
     activation_loop fuel d h target prev entry cur = Some v) /\
  (exists v, forall fuel, (history_fuel h <= fuel)%nat ->
     deactivation_loop fuel d h target prev entry cur = Some v).
Proof.
  intros Hp Ht. pose proof (later_fuel h prev) as Hl.
  destruct (activation_loop_returns d h target _ prev entry cur Hl Hp Ht) as [v Hv].
  destruct (deactivation_loop_returns d h target _ prev entry cur Hl Hp Ht) as [w Hw].
  split; eexists; intros fuel Hf;
    [eapply activation_loop_more|eapply deactivation_loop_more]; eauto.
Qed.

Lemma entitlement_pos d part whole cluster : 1 <= entitlement d part whole cluster <= u64_max.
Proof.
  unfold entitlement. pose proof (F64.to_u64_range (F64.mul
    (F64.div (F64.of_u64 part) (F64.of_u64 whole))
    (F64.mul (F64.of_u64 cluster) (warmup_cooldown_rate d)))).
  unfold_max. lia.
Qed.

Lemma activation_loop_bounds d h target fuel prev entry cur v :
  0 <= stake d -> 0 <= cur <= stake d ->
  activation_loop fuel d h target prev entry cur = Some v -> 0 <= v <= stake d.
Proof.
  intros Hs. revert prev entry cur. induction fuel as [|fuel IH]; intros prev entry cur Hc H; [done|].
  cbn [activation_loop] in H.
  match type of H with context [wrapping_add u64_max cur ?n] =>
    pose proof (wrap_range u64_max (cur + n) ltac:(unfold_max; lia)) as Hw;
    change (wrap u64_max (cur + n)) with (wrapping_add u64_max cur n) in Hw end.
  repeat case_match; to_prop; simplify_eq; try lia. eapply IH; [|exact H]. lia.
Qed.

Lemma deactivation_loop_bounds d h target fuel prev entry cur v :
  0 <= cur -> deactivation_loop fuel d h target prev entry cur = Some v -> 0 <= v <= cur.
Proof.
  revert prev entry cur. induction fuel as [|fuel IH]; intros prev entry cur Hc H; [done|].
  cbn [deactivation_loop] in H.
  set (n := entitlement _ _ _ _) in H. pose proof (entitlement_pos d cur
    (deactivating entry) (effective entry)) as Hn. fold n in Hn. clearbody n.
  assert (0 <= saturating_sub cur n <= cur) by (unfold saturating_sub; lia).
  repeat case_match; to_prop; simplify_eq; try lia. apply IH in H; lia.
Qed.

Lemma stake_and_activating_bounds d e h :
  is_u64 (stake d) ->
  let '(eff, act) := stake_and_activating d e h in
  0 <= eff /\ 0 <= act /\ eff + act <= stake d.
Proof.
  intros Hs. unfold stake_and_activating. repeat case_match; simplify_eq; try lia.
  match goal with |- context [default 0 ?o] => destruct o as [v|] eqn:Hv end; cbn.
  - apply activation_loop_bounds in Hv; [|lia..].
    unfold wrapping_sub. rewrite wrap_small by lia. lia.
  - unfold wrapping_sub. rewrite wrap_small by lia. lia.
Qed.

Lemma delegation_status d e h :
  is_u64 (stake d) ->
  let s := stake_activating_and_deactivating d e h in
  0 <= effective s /\ 0 <= activating s /\ effective s + activating s <= stake d /\
  (deactivating s = 0 \/ deactivating s = effective s /\ activating s = 0).
Proof.
  intros Hs s. subst s. pose proof (stake_and_activating_bounds d e h Hs) as Hb.
  unfold stake_activating_and_deactivating.
  destruct (stake_and_activating d e h) as [eff act] eqn:He.
  repeat case_match; cbn [effective activating deactivating with_effective with_deactivating
    with_effective_and_activating StakeHistoryEntry_default] in *; try lia.
  match goal with |- context [default 0 ?o] => destruct o as [v|] eqn:Hv end; cbn; [|lia].
  apply deactivation_loop_bounds in Hv; lia.
Qed.

Definition total_stake (ds : list Delegation) : Z := foldr (fun d n => stake d + n) 0 ds.

(** The entry of the history that a set of delegations adds up to is
    sound: effective and activating stake together never exceed what was
    delegated, and no more is deactivating than is effective; the same
    holds of each delegation, for which in addition nothing activates
    while it deactivates. *)
Theorem cluster_stake_bounds ds e h :
  Forall (fun d => is_u64 (stake d)) ds ->
  let s := new_stake_history_entry e ds h in
  0 <= effective s /\ 0 <= activating s /\ 0 <= deactivating s <= effective s /\
  effective s + activating s <= total_stake ds /\
  Forall (fun d =>
    let s := stake_activating_and_deactivating d e h in
    0 <= effective s /\ 0 <= activating s /\ effective s + activating s <= stake d /\
    (deactivating s = 0 \/ deactivating s = effective s /\ activating s = 0)) ds.
Proof.
  intros Hds s. subst s.
  assert (forall acc total, 0 <= effective acc -> 0 <= activating acc ->
    0 <= deactivating acc <= effective acc -> effective acc + activating acc <= total ->
    let s := foldl (fun sum d => StakeHistoryEntry_add sum
               (stake_activating_and_deactivating d e h)) acc ds in
    0 <= effective s /\ 0 <= activating s /\ 0 <= deactivating s <= effective s /\
    effective s + activating s <= total + total_stake ds) as Hfold.
  { induction Hds as [|d ds Hd Hds IH]; intros acc total H1 H2 H3 H4; cbn [foldl total_stake foldr];
      [lia|].
    pose proof (delegation_status d e h Hd). cbn zeta in *.
    destruct (stake_activating_and_deactivating d e h) as [eff act deact]. cbn in *.
    specialize (IH (StakeHistoryEntry_add acc {| effective := eff; activating := act;
      deactivating := deact |}) (total + stake d)).
    unfold StakeHistoryEntry_add, saturating_add in *. cbn in *. fold (total_stake ds).
    unfold_max. destruct IH as (? & ? & ? & ?); lia. }
  unfold new_stake_history_entry.
  destruct (Hfold StakeHistoryEntry_default 0) as (? & ? & ? & ?); cbn; [lia..|].
  split_and!; try done; try lia.
  eapply Forall_impl; [exact Hds|]. intros d Hd. by apply delegation_status.
Qed.

(** *** Stake rises while warming up and falls while cooling down *)

(** The additions of the warm-up stay within 64 bits. *)
Definition no_overflow (d : Delegation) (h : StakeHistory) : Prop :=
  forall e x part, (e, x) ∈ h -> activating x <> 0 -> 0 <= part <= stake d ->
    stake d + entitlement d part (activating x) (effective x) <= u64_max.

Definition epochs_ok (d : Delegation) : Prop :=
  0 <= activation_epoch d /\ 0 <= deactivation_epoch d <= u64_max /\
  (is_bootstrap d = true \/ activation_epoch d <= deactivation_epoch d).

Lemma activation_loop_grows d h t1 t2 fuel prev x cur v1 v2 :
  is_u64 (stake d) -> no_overflow d h -> (prev, x) ∈ h -> 0 <= cur <= stake d -> t1 <= t2 ->
  activation_loop fuel d h t1 prev x cur = Some v1 ->
  activation_loop fuel d h t2 prev x cur = Some v2 -> cur <= v1 <= v2.
Proof.
  intros Hs Hno. revert t1 prev x cur v1 v2.
  induction fuel as [|fuel IH]; intros t1 prev x cur v1 v2 Hx Hc Ht H1 H2; [done|].
  cbn [activation_loop] in H1, H2.
  destruct (Z.eqb_spec (activating x) 0) as [_|Hact]; [simplify_eq; lia|].
  assert (0 <= wrapping_sub u64_max (stake d) cur <= stake d) as Hrem
    by (unfold wrapping_sub; rewrite wrap_small; lia).
  specialize (Hno _ _ _ Hx Hact Hrem) as Hn.
  set (n := entitlement _ _ _ _) in *. pose proof (entitlement_pos d
    (wrapping_sub u64_max (stake d) cur) (activating x) (effective x)) as Hn1. fold n in Hn1.
  assert (wrapping_add u64_max cur n = cur + n) as Hw
    by (unfold wrapping_add; rewrite wrap_small; lia).
  rewrite Hw in *. clearbody n. case_if H1; simplify_eq; to_prop; [lia|].
  destruct (StakeHistory.get h (wrapping_add u64_max prev 1)) as [y|] eqn:Hy.
  2: { repeat case_match; simplify_eq; lia. }
  apply history_get_elem in Hy. assert (0 <= cur + n <= stake d) as Hc' by lia.
  case_if H2.
  - simplify_eq. case_if H1; simplify_eq; [lia|]. to_prop. lia.
  - case_if H1; simplify_eq.
    + pose proof (IH t2 _ _ _ v2 v2 Hy Hc' ltac:(lia) H2 H2). lia.
    + pose proof (IH _ _ _ _ _ _ Hy Hc' Ht H1 H2). lia.
Qed.

Lemma history_at_elem h e l x : history_at h e = Some (l, x) -> h = Some l /\ (e, x) ∈ l.
Proof.
  unfold history_at. destruct h as [h|]; cbn; [|done].
  destruct (StakeHistory.get h e) eqn:Hg; cbn; [|done]. intros [= <- <-].
  split; [done|]. by apply history_get_elem.
Qed.

(** Stake that is not yet deactivated never shrinks from one epoch to a later
    one. *)
Lemma warmup_grows d h e1 e2 :
  is_u64 (stake d) -> epochs_ok d -> (forall l, h = Some l -> no_overflow d l) ->
  e1 <= e2 < deactivation_epoch d -> Delegation_stake d e1 h <= Delegation_stake d e2 h.
Proof.
  intros Hs (Ha & Hd & _) Hno He. unfold Delegation_stake, stake_activating_and_deactivating.
  pose proof (stake_and_activating_bounds d e2 h Hs) as Hb2.
  enough (fst (stake_and_activating d e1 h) <= fst (stake_and_activating d e2 h)) as Hle.
  { destruct (stake_and_activating d e1 h), (stake_and_activating d e2 h).
    repeat case_match; to_prop; cbn in *; lia. }
  assert (0 <= fst (stake_and_activating d e2 h)) as Hpos
    by (destruct (stake_and_activating d e2 h); cbn; lia).
  destruct (decide (e1 <= activation_epoch d)) as [Hle|Hgt].
  { assert (is_bootstrap d = true \/ fst (stake_and_activating d e1 h) = 0) as [Hb| ->];
      [|by unfold stake_and_activating; rewrite Hb|done].
    unfold stake_and_activating. repeat case_match; to_prop; cbn; auto; lia. }
  unfold stake_and_activating. destruct (is_bootstrap d); [done|].
  destruct (activation_epoch d =? deactivation_epoch d); [done|].
  rewrite !(proj2 (Z.eqb_neq _ (activation_epoch d))), !(proj2 (Z.ltb_ge _ _)) by lia.
  destruct (history_at h (activation_epoch d)) as [[l x]|] eqn:Hh; [|done].
  apply history_at_elem in Hh as [-> Hx]. cbn [fst].
  destruct (activation_loop_returns d l e1 (history_fuel l) (activation_epoch d) x 0)
    as [v1 H1]; [apply later_fuel|lia..|].
  destruct (activation_loop_returns d l e2 (history_fuel l) (activation_epoch d) x 0)
    as [v2 H2]; [apply later_fuel|lia..|].
  rewrite H1, H2. cbn.
  eapply (activation_loop_grows d l e1 e2); eauto; lia.
Qed.

(** Past the deactivation epoch the warm-up no longer depends on the epoch. *)
Lemma activation_loop_capped d h t1 t2 fuel prev x cur :
  deactivation_epoch d <= t1 -> deactivation_epoch d <= t2 ->
  activation_loop fuel d h t1 prev x cur = activation_loop fuel d h t2 prev x cur.
Proof.
  intros H1 H2. revert prev x cur. induction fuel as [|fuel IH]; intros prev x cur; [done|].
  cbn [activation_loop]. set (c := wrapping_add u64_max prev 1).
  assert ((t1 <=? c) || (deactivation_epoch d <=? c) =
          (t2 <=? c) || (deactivation_epoch d <=? c)) as ->.
  { destruct (Z.leb_spec t1 c), (Z.leb_spec t2 c), (Z.leb_spec (deactivation_epoch d) c);
      cbn; lia. }
  repeat case_match; auto.
Qed.

Lemma deactivation_loop_shrinks d h t1 t2 fuel prev x cur v1 v2 :
  0 <= cur -> t1 <= t2 ->
  deactivation_loop fuel d h t1 prev x cur = Some v1 ->
  deactivation_loop fuel d h t2 prev x cur = Some v2 -> v2 <= v1.
Proof.
  intros Hc Ht. revert prev x cur Hc.
  induction fuel as [|fuel IH]; intros prev x cur Hc H1 H2; [done|].
  cbn [deactivation_loop] in H1, H2. set (n := saturating_sub _ _) in *.
  assert (0 <= n) by (unfold n, saturating_sub; lia). clearbody n.
  case_if H1; simplify_eq; [done|]. case_if H1; simplify_eq; [done|].
  destruct (StakeHistory.get h (wrapping_add u64_max prev 1)) as [y|].
  2: { repeat case_match; simplify_eq; lia. }
  destruct (Z.leb_spec t1 (wrapping_add u64_max prev 1)); simplify_eq.
  - case_if H2; simplify_eq; [lia|]. apply deactivation_loop_bounds in H2; lia.
  - case_if H2; simplify_eq; to_prop; [lia|]. eauto.
Qed.

Lemma activated_at_deactivation d h e1 e2 :
  epochs_ok d -> deactivation_epoch d <= e1 -> deactivation_epoch d <= e2 ->
  stake_and_activating d e1 h = stake_and_activating d e2 h.
Proof.
  intros (Ha & Hd & Hb) H1 H2. unfold stake_and_activating.
  destruct (is_bootstrap d); [done|]. destruct Hb as [|Hle]; [done|].
  destruct (Z.eqb_spec (activation_epoch d) (deactivation_epoch d)); [done|].
  rewrite !(proj2 (Z.eqb_neq _ _)), !(proj2 (Z.ltb_ge _ _)) by lia.
  destruct (history_at h (activation_epoch d)) as [[l x]|]; [|done].
  by rewrite (activation_loop_capped d l e1 e2).
Qed.

(** Stake past its deactivation epoch never grows again. *)
Lemma cooldown_shrinks d h e1 e2 :
  is_u64 (stake d) -> epochs_ok d -> deactivation_epoch d <= e1 <= e2 -> e2 <= u64_max ->
  Delegation_stake d e2 h <= Delegation_stake d e1 h.
Proof.
  intros Hs Hok He Hmax. pose proof Hok as (Ha & Hd & _).
  unfold Delegation_stake, stake_activating_and_deactivating.
  rewrite (activated_at_deactivation d h e2 e1) by (done || lia).
  pose proof (stake_and_activating_bounds d e1 h Hs) as Hb.
  destruct (stake_and_activating d e1 h) as [eff act].
  rewrite !(proj2 (Z.ltb_ge _ _)) by lia.
  destruct (Z.eqb_spec e2 (deactivation_epoch d)) as [->|].
  { by rewrite (proj2 (Z.eqb_eq _ _)) by lia. }
  destruct (history_at h (deactivation_epoch d)) as [[l x]|];
    [|by destruct (e1 =? deactivation_epoch d); cbn; lia].
  destruct (deactivation_loop_returns d l e2 (history_fuel l) (deactivation_epoch d) x eff)
    as [v2 H2]; [apply later_fuel|lia..|]. rewrite H2.
  pose proof H2 as Hv2. apply deactivation_loop_bounds in Hv2; [|lia].
  destruct (Z.eqb_spec e1 (deactivation_epoch d)); [cbn; lia|].
  destruct (deactivation_loop_returns d l e1 (history_fuel l) (deactivation_epoch d) x eff)
    as [v1 H1]; [apply later_fuel|lia..|]. rewrite H1. cbn.
  apply (deactivation_loop_shrinks d l e1 e2 (history_fuel l) (deactivation_epoch d) x eff);
    (done || lia).
Qed.

(** Read against one history, the effective stake of a delegation only
    grows until it is deactivated and only shrinks afterwards. *)
Theorem stake_ramps d h e1 e2 :
  is_u64 (stake d) -> epochs_ok d -> (forall l, h = Some l -> no_overflow d l) ->
  e1 <= e2 <= u64_max ->
  (e2 < deactivation_epoch d -> Delegation_stake d e1 h <= Delegation_stake d e2 h) /\
  (deactivation_epoch d <= e1 -> Delegation_stake d e2 h <= Delegation_stake d e1 h).
Proof.
  intros Hs Hok Hno He. split; intros Hd.
  - apply warmup_grows; auto; lia.
  - apply cooldown_shrinks; auto; lia.
Qed.

(** ** Rewards *)

Lemma epoch_points_observed s h l pts obs :
  let r := foldl (epoch_points s h) (pts, obs) l in
  obs <= snd r /\ forall e f i, (e, f, i) ∈ l -> f <= snd r.
Proof.
  revert pts obs. induction l as [|[[e f] i] l IH]; intros pts obs; cbn [foldl].
  { split; [cbn; lia|]. by intros ? ? ? ?%not_elem_of_nil. }
  cbn [epoch_points].
  match goal with |- context [foldl _ (?a, ?b) l] => destruct (IH a b) as [H1 H2] end.
  split; [lia|]. intros e' f' i' [[= -> -> ->]|Hin]%elem_of_cons; [lia|]. eauto.
Qed.

(** Credits once observed earn no points again. *)
Lemma points_after_observing s vs h s' :
  0 <= credits_observed s -> credits_observed s' = snd (calculate_stake_points_and_credits s vs h) ->
  calculate_stake_points_and_credits s' vs h = (0, credits_observed s').
Proof.
  intros Hs Hs'. unfold calculate_stake_points_and_credits at 1.
  destruct (Z.leb_spec (credits vs) (credits_observed s')) as [|Hlt]; [done|]. exfalso.
  rewrite Hs' in Hlt. unfold calculate_stake_points_and_credits in Hlt.
  destruct (Z.leb_spec (credits vs) (credits_observed s)); [cbn in Hlt; lia|].
  destruct (epoch_points_observed s h (epoch_credits vs) 0 (credits_observed s)) as [Hge Hall].
  unfold credits in *. destruct (last (epoch_credits vs)) as [[[e f] i]|] eqn:Hl; [|lia].
  apply last_Some_elem_of in Hl. specialize (Hall _ _ _ Hl). lia.
Qed.

Lemma calculate_stake_rewards_observed e s pv vs h fix_ st v obs :
  calculate_stake_rewards e s pv vs h fix_ = Ok (Some (st, v, obs)) ->
  obs = snd (calculate_stake_points_and_credits s vs h).
Proof.
  unfold calculate_stake_rewards.
  destruct (calculate_stake_points_and_credits s vs h) as [pts o]. intros H.
  repeat (case_if H; [by simplify_eq|]). inv_ok. case_if H; [by simplify_eq|].
  destruct (commission_split vs x0) as [[? ?] ?]. by case_if H; simplify_eq.
Qed.

(** What a stake earns in a round: its points times the rewards over the
    points of the round, rounded down and split with the voter. *)
Lemma calculate_stake_rewards_total e s pv vs h fix_ :
  let pts := calculate_stake_points s vs h in
  0 <= commission vs -> 0 <= pts <= points pv -> is_u64 (rewards pv) ->
  pts * rewards pv <= u128_max ->
  exists r, calculate_stake_rewards e s pv vs h fix_ = Ok r /\
  match r with
  | Some (staker, voter, _) =>
      0 <= staker /\ 0 <= voter /\ (staker + voter) * points pv <= pts * rewards pv
  | None => True
  end.
Proof.
  intros pts Hc Hp Hr Hm. unfold calculate_stake_rewards. unfold pts, calculate_stake_points in *.
  destruct (calculate_stake_points_and_credits s vs h) as [p o]. cbn [fst] in *. clear pts.
  destruct (_ || _); [eexists; split; [done|]; cbn; split_and!; nia|].
  destruct (Z.eqb_spec p 0); [by eexists|]. destruct (Z.eqb_spec (points pv) 0); [by eexists|].
  unfold checked_mul. rewrite (proj2 (Z.leb_le _ _)) by done. cbn.
  unfold checked_div. rewrite (proj2 (Z.eqb_neq _ _)) by done. cbn.
  pose proof (Z.mul_div_le (p * rewards pv) (points pv) ltac:(lia)) as Hd.
  assert (0 <= p * rewards pv / points pv <= rewards pv) as Hq.
  { split; [apply Z.div_pos; nia|]. apply Z.div_le_upper_bound; nia. }
  set (q := p * rewards pv / points pv) in *. clearbody q.
  rewrite (proj2 (Z.leb_le q u64_max)) by lia. cbn.
  destruct (Z.eqb_spec q 0); [by eexists|].
  pose proof (commission_split_exact vs q Hc ltac:(lia)) as Hsplit.
  destruct (commission_split vs q) as [[v st] sp].
  destruct (_ && sp); [by eexists|]. eexists; split; [done|].
  destruct Hsplit as (_ & _ & ? & ? & ?). split_and!; [lia..|]. etrans; [|exact Hd]. nia.
Qed.

Lemma points_and_credits_monotone s vs h :
  credits_observed s <= snd (calculate_stake_points_and_credits s vs h).
Proof.
  unfold calculate_stake_points_and_credits. case_match; [done|].
  by destruct (epoch_points_observed s h (epoch_credits vs) 0 (credits_observed s)).
Qed.

(** C30: Vote credits are paid for once: a redemption moves the credits
    observed forward, and until the vote account earns new credits a
    further redemption, whatever the epoch and the value of a point, pays
    nobody and leaves the stake as it is. *)
Theorem credits_paid_once e s pv vs h fix_ s' paid :
  0 <= credits_observed s ->
  redeem_stake_rewards e s pv vs h fix_ = Ok (Some (s', paid)) ->
  credits_observed s <= credits_observed s' /\
  forall e' pv' fix_',
    redeem_stake_rewards e' s' pv' vs h fix_' = Ok None \/
    redeem_stake_rewards e' s' pv' vs h fix_' = Ok (Some (s', (0, 0))).
Proof.
  intros Hobs H. unfold redeem_stake_rewards in H. inv_ok.
  destruct x as [[[st v] o]|]; simplify_eq.
  apply calculate_stake_rewards_observed in Hr as Ho. cbn [credits_observed].
  split; [subst o; apply points_and_credits_monotone|]. intros e' pv' fix_'.
  set (s' := {| delegation := _; credits_observed := o |}).
  pose proof (points_after_observing s vs h s' Hobs Ho) as Hp.
  unfold redeem_stake_rewards, calculate_stake_rewards. rewrite Hp.
  destruct (_ || _); cbn [mbind result_bind]; [right|by left].
  assert (wrapping_add u64_max (stake (delegation s')) 0 = stake (delegation s')) as ->; [|done].
  unfold wrapping_add at 1. rewrite Z.add_0_r. apply wrap_small, wrap_range. unfold_max; lia.
Qed.

(** ** Merging stakes *)

(** The credits of a merged stake are the average of the two, weighted by
    stake and rounded up; there is always an answer when the stakes add up
    to a positive 64-bit number. So whatever credits the vote account
    reaches, the merged stake earns at most the points of the two it came
    from, and falls short of them by less than one credit of the merged
    stake. *)
Theorem merged_credits_exact s absorbed c :
  is_u64 (stake (delegation s)) -> is_u64 (credits_observed s) ->
  is_u64 absorbed -> is_u64 c -> 0 < stake (delegation s) + absorbed <= u64_max ->
  let s1 := stake (delegation s) in let c1 := credits_observed s in
  exists c', stake_weighted_credits_observed s absorbed c = Some c' /\
  Z.min c1 c <= c' <= Z.max c1 c /\
  forall reached,
    (reached - c1) * s1 + (reached - c) * absorbed - (s1 + absorbed) <
    (reached - c') * (s1 + absorbed) <= (reached - c1) * s1 + (reached - c) * absorbed.
Proof.
  intros Hs Hc1 Ha Hc Ht. cbn. unfold stake_weighted_credits_observed.
  set (s1 := stake (delegation s)) in *. set (c1 := credits_observed s) in *. clearbody s1 c1.
  destruct (Z.eqb_spec c1 c) as [->|Hne]; [exists c; split; [done|]; split; [lia|nia]|].
  unfold checked_add at 3. rewrite (proj2 (Z.leb_le _ _)) by lia. cbn -[Z.mul Z.add].
  assert (c1 * s1 + c * absorbed <= u64_max * (s1 + absorbed)) as Hb by nia.
  assert (0 <= c1 * s1 /\ 0 <= c * absorbed) by nia.
  assert (u64_max * (s1 + absorbed) + (s1 + absorbed) <= u128_max) by (unfold_max; lia).
  unfold checked_mul. rewrite !(proj2 (Z.leb_le _ _)) by lia. cbn -[Z.mul Z.add].
  unfold checked_add. rewrite (proj2 (Z.leb_le _ _)) by lia. cbn -[Z.mul Z.add].
  rewrite (proj2 (Z.leb_le _ _)) by lia. cbn -[Z.mul Z.add].
  unfold checked_sub. rewrite (proj2 (Z.leb_le _ _)) by lia. cbn -[Z.mul Z.add].
  unfold checked_div. rewrite (proj2 (Z.eqb_neq _ _)) by lia. cbn -[Z.mul Z.add Z.div].
  set (n := c1 * s1 + c * absorbed + (s1 + absorbed) - 1).
  pose proof (Z.div_mod n (s1 + absorbed) ltac:(lia)) as Hd.
  pose proof (Z.mod_pos_bound n (s1 + absorbed) ltac:(lia)) as Hm.
  set (q := n / (s1 + absorbed)) in *. clearbody q.
  assert (Z.min c1 c <= q <= Z.max c1 c) as Hq by (unfold n in *; nia).
  rewrite (proj2 (Z.leb_le _ _)) by lia. exists q. split; [done|]. split; [done|].
  intros reached. unfold n in *. nia.
Qed.
