(* ===== verification/StakeInstruction.v ===== *)
(** * Stake program: accounts and instructions

    Models the operations on stake accounts of
    [src/testnet/programs/stake/src/stake_state.rs] (trait [StakeAccount] and
    the functions the runtime calls to pay rewards and to build genesis
    accounts) and the dispatcher of [stake_instruction.rs].  States are
    stored through [bincode], whose encoders and decoders are parameters. *)

From stdpp Require Import base gmap list fin_maps strings.
From Stdlib Require Import ZArith Lia.
From S2P Require Import Prelude Sdk Runtime KeyedAccount SystemProgram ConfigProgram VoteState VoteInstruction StakeState.

Definition stake_program_id : Pubkey :=
  Eval vm_compute in declare_id "Stake11111111111111111111111111111111111111".
Definition stake_config_id : Pubkey :=
  Eval vm_compute in declare_id "StakeConfig11111111111111111111111111111111".
Definition stake_history_sysvar_id : Pubkey :=
  Eval vm_compute in declare_id "SysvarStakeHistory1111111111111111111111111".

(** [std::mem::size_of::<StakeState>()]: an eight-byte tag and the 120 and 72
    bytes of [Meta] and [Stake]. *)
Definition STAKE_STATE_SIZE : Z := 200.

Definition Clock_default : Clock :=
  {| clock_slot := 0; epoch_start_timestamp := 0; epoch := 0; leader_schedule_epoch := 0;
     unix_timestamp := 0 |}.

Definition stake_result {A} (r : result StakeError.t A) : instruction_result A :=
  map_err StakeError.into r.

Record AuthorizeWithSeedArgs := {
  new_authorized_pubkey : Pubkey;
  seed_stake_authorize : StakeAuthorize.t;
  authority_seed : list Z;
  authority_owner : Pubkey;
}.
Record AuthorizeCheckedWithSeedArgs := {
  checked_stake_authorize : StakeAuthorize.t;
  checked_authority_seed : list Z;
  checked_authority_owner : Pubkey;
}.
Record LockupCheckedArgs := {
  checked_unix_timestamp : option UnixTimestamp;
  checked_epoch : option Epoch;
}.

Module StakeInstruction.
Inductive t : Type :=
| Initialize (authorized : Authorized) (lockup : Lockup)
| Authorize (authorized_pubkey : Pubkey) (stake_authorize : StakeAuthorize.t)
| DelegateStake
| Split (tock : Z)
| Withdraw (tock : Z)
| Deactivate
| SetLockup (lockup : LockupArgs)
| Merge
| AuthorizeWithSeed (args : AuthorizeWithSeedArgs)
| InitializeChecked
| AuthorizeChecked (stake_authorize : StakeAuthorize.t)
| AuthorizeCheckedWithSeed (args : AuthorizeCheckedWithSeedArgs)
| SetLockupChecked (lockup_checked : LockupCheckedArgs).
End StakeInstruction.

(** The features the dispatcher asks for. *)
Record StakeFeatures := {
  require_custodian_for_locked_stake_authorize : bool;
  stake_program_v4 : bool;
  vote_stake_checked_instructions : bool;
  stake_merge_with_unmatched_credits_observed : bool;
}.

Section Stakes.
Context (hashv : list (list Z) -> Hash).
Context (encode : StakeState.t -> list Z).
Context (decode : list Z -> option StakeState.t).
Context (decode_vote : list Z -> option VoteStateVersions).
Context (decode_clock : list Z -> option Clock).
Context (decode_history : list Z -> option StakeHistory).
Context (decode_rent : list Z -> option Rent).
Context (encode_keys : ConfigKeys -> list Z).
Context (decode_keys : list Z -> option ConfigKeys).
Context (decode_config : list Z -> option Config).
Context (decode_instruction : list Z -> option StakeInstruction.t).
(** The clock among the sysvars of the invoke context *)
Context (sysvar_clock : option Clock).

Definition balance (st : store) (i : AccountInfo) : Z := lamports (acct st (key i)).

Definition stake_initialize (me : AccountInfo) (a : Authorized) (l : Lockup) (rent : Rent)
    (st : store) : instruction_result store :=
  fail_if (negb (data_len st me =? STAKE_STATE_SIZE)) InstructionError.InvalidAccountData ;;
  state ← get_state decode st me;
  match state with
  | StakeState.Uninitialized =>
      let reserve := minimum_balance rent (data_len st me) in
      if reserve <? balance st me
      then set_state encode st me
             (StakeState.Initialized
                {| rent_exempt_reserve := reserve; authorized := a; lockup := l |})
      else Err InstructionError.InsufficientFunds
  | _ => Err InstructionError.InvalidAccountData
  end.

Definition stake_authorize (me : AccountInfo) (signers : list Pubkey) (new_authority : Pubkey)
    (ty : StakeAuthorize.t) (require_custodian : bool) (clock : Clock)
    (custodian : option Pubkey) (st : store) : instruction_result store :=
  let args m := if require_custodian then Some (lockup m, clock, custodian) else None in
  state ← get_state decode st me;
  match state with
  | StakeState.Stake m s =>
      a ← Authorized_authorize (authorized m) signers new_authority ty (args m);
      set_state encode st me (StakeState.Stake (with_authorized m a) s)
  | StakeState.Initialized m =>
      a ← Authorized_authorize (authorized m) signers new_authority ty (args m);
      set_state encode st me (StakeState.Initialized (with_authorized m a))
  | _ => Err InstructionError.InvalidAccountData
  end.

Definition stake_authorize_with_seed (me authority_base : AccountInfo) (seed : list Z)
    (own new_authority : Pubkey) (ty : StakeAuthorize.t) (require_custodian : bool)
    (clock : Clock) (custodian : option Pubkey) (st : store) : instruction_result store :=
  signers ← (if is_signer authority_base then
               k ← map_err PubkeyError.into (create_with_seed hashv (key authority_base) seed own);
               Ok [k]
             else Ok []);
  stake_authorize me signers new_authority ty require_custodian clock custodian st.

Definition stake_delegate (me vote_account : AccountInfo) (clock : Clock)
    (stake_history : StakeHistory) (config : Config) (signers : list Pubkey)
    (can_reverse_deactivation : bool) (st : store) : instruction_result store :=
  fail_if (negb (bool_decide (owner (acct st (key vote_account)) = vote_program_id)))
    InstructionError.IncorrectProgramId ;;
  state ← get_state decode st me;
  match state with
  | StakeState.Initialized m =>
      Authorized_check (authorized m) signers StakeAuthorize.Staker ;;
      v ← get_state decode_vote st vote_account;
      let s := new_stake (saturating_sub (balance st me) (rent_exempt_reserve m))
                 (key vote_account) (convert_to_current v) (epoch clock) config in
      set_state encode st me (StakeState.Stake m s)
  | StakeState.Stake m s =>
      Authorized_check (authorized m) signers StakeAuthorize.Staker ;;
      v ← get_state decode_vote st vote_account;
      s ← stake_result (redelegate s
            (saturating_sub (balance st me) (rent_exempt_reserve m)) (key vote_account)
            (convert_to_current v) clock stake_history config can_reverse_deactivation);
      set_state encode st me (StakeState.Stake m s)
  | _ => Err InstructionError.InvalidAccountData
  end.

Definition stake_deactivate (me : AccountInfo) (clock : Clock) (signers : list Pubkey)
    (st : store) : instruction_result store :=
  state ← get_state decode st me;
  match state with
  | StakeState.Stake m s =>
      Authorized_check (authorized m) signers StakeAuthorize.Staker ;;
      s ← stake_result (Stake_deactivate s (epoch clock));
      set_state encode st me (StakeState.Stake m s)
  | _ => Err InstructionError.InvalidAccountData
  end.

Definition stake_set_lockup (me : AccountInfo) (args : LockupArgs) (signers : list Pubkey)
    (clock : option Clock) (st : store) : instruction_result store :=
  state ← get_state decode st me;
  match state with
  | StakeState.Initialized m =>
      m ← Meta_set_lockup m args signers clock;
      set_state encode st me (StakeState.Initialized m)
  | StakeState.Stake m s =>
      m ← Meta_set_lockup m args signers clock;
      set_state encode st me (StakeState.Stake m s)
  | _ => Err InstructionError.InvalidAccountData
  end.

(** The guard on the lamports of a split: enough for the rent of the new
    account, and something left in the old one unless it is emptied. *)
Definition check_split_lamports (tock split_reserve : Z) (m : Meta) (me split : AccountInfo)
    (st : store) : instruction_result unit :=
  insufficient ←
    (if tock <=? saturating_sub split_reserve (balance st split) then Ok true
     else if tock =? balance st me then Ok false
     else
       n ← instruction_checked_add tock (rent_exempt_reserve m);
       Ok (balance st me <=? n));
  fail_if insufficient InstructionError.InsufficientFunds.

Definition stake_split (me : AccountInfo) (tock : Z) (split : AccountInfo)
    (signers : list Pubkey) (st : store) : instruction_result store :=
  fail_if (negb (bool_decide (owner (acct st (key split)) = stake_program_id)))
    InstructionError.IncorrectProgramId ;;
  fail_if (negb (data_len st split =? STAKE_STATE_SIZE)) InstructionError.InvalidAccountData ;;
  split_state ← get_state decode st split;
  match split_state with
  | StakeState.Uninitialized =>
      fail_if (balance st me <? tock) InstructionError.InsufficientFunds ;;
      state ← get_state decode st me;
      st ←
        match state with
        | StakeState.Stake m s =>
            Authorized_check (authorized m) signers StakeAuthorize.Staker ;;
            let split_reserve := calculate_split_rent_exempt_reserve (rent_exempt_reserve m)
                                   (data_len st me) (data_len st split) in
            check_split_lamports tock split_reserve m me split st ;;
            let '(remaining_stake_delta, split_stake_amount) :=
              if tock =? balance st me then
                (saturating_sub tock (rent_exempt_reserve m),
                 saturating_sub tock (rent_exempt_reserve m))
              else
                (tock, wrapping_sub u64_max tock
                         (saturating_sub split_reserve (balance st split))) in
            '(s, split_stake) ← stake_result
                                  (Stake_split s remaining_stake_delta split_stake_amount);
            st ← set_state encode st me (StakeState.Stake m s);
            set_state encode st split
              (StakeState.Stake (with_reserve m split_reserve) split_stake)
        | StakeState.Initialized m =>
            Authorized_check (authorized m) signers StakeAuthorize.Staker ;;
            let split_reserve := calculate_split_rent_exempt_reserve (rent_exempt_reserve m)
                                   (data_len st me) (data_len st split) in
            check_split_lamports tock split_reserve m me split st ;;
            set_state encode st split (StakeState.Initialized (with_reserve m split_reserve))
        | StakeState.Uninitialized =>
            fail_if (negb (bool_decide (key me ∈ signers)))
              InstructionError.MissingRequiredSignature ;;
            Ok st
        | StakeState.RewardsPool => Err InstructionError.InvalidAccountData
        end;
      st ← (if tock =? balance st me then set_state encode st me StakeState.Uninitialized
            else Ok st);
      st ← checked_add_lamports st (key split) tock;
      checked_sub_lamports st (key me) tock
  | _ => Err InstructionError.InvalidAccountData
  end.

Definition get_if_mergeable_at (st : store) (i : AccountInfo) (clock : Clock)
    (stake_history : StakeHistory) : instruction_result MergeKind.t :=
  state ← get_state decode st i;
  MergeKind.get_if_mergeable state (balance st i) clock stake_history.

Definition stake_merge (unmatched_credits : bool) (me source_account : AccountInfo)
    (clock : Clock) (stake_history : StakeHistory) (signers : list Pubkey)
    (can_merge_expired_lockups : bool) (st : store) : instruction_result store :=
  fail_if (negb (bool_decide (owner (acct st (key source_account)) = stake_program_id)))
    InstructionError.IncorrectProgramId ;;
  fail_if (bool_decide (key source_account = key me)) InstructionError.InvalidArgument ;;
  stake_merge_kind ← get_if_mergeable_at st me clock stake_history;
  Authorized_check (authorized (MergeKind.meta stake_merge_kind)) signers
    StakeAuthorize.Staker ;;
  source_merge_kind ← get_if_mergeable_at st source_account clock stake_history;
  merged ← MergeKind.merge unmatched_credits stake_merge_kind source_merge_kind
             (if can_merge_expired_lockups then Some clock else None);
  st ← match merged with
       | Some merged_state => set_state encode st me merged_state
       | None => Ok st
       end;
  st ← set_state encode st source_account StakeState.Uninitialized;
  let tock := balance st source_account in
  st ← checked_sub_lamports st (key source_account) tock;
  checked_add_lamports st (key me) tock.

(** The lockup, the lamports that must stay, and whether stake is exposed. *)
Definition withdraw_limits (me : AccountInfo) (signers : list Pubkey) (clock : Clock)
    (stake_history : StakeHistory) (prevent_withdraw_to_zero : bool) (st : store)
  : instruction_result (Lockup * Z * bool) :=
  state ← get_state decode st me;
  match state with
  | StakeState.Stake m s =>
      Authorized_check (authorized m) signers StakeAuthorize.Withdrawer ;;
      let staked := if deactivation_epoch (delegation s) <=? epoch clock
                    then Delegation_stake (delegation s) (epoch clock) (Some stake_history)
                    else stake (delegation s) in
      staked_and_reserve ← instruction_checked_add staked (rent_exempt_reserve m);
      Ok (lockup m, staked_and_reserve, negb (staked =? 0))
  | StakeState.Initialized m =>
      Authorized_check (authorized m) signers StakeAuthorize.Withdrawer ;;
      reserve ← (if prevent_withdraw_to_zero
                 then instruction_checked_add (rent_exempt_reserve m) 1
                 else Ok (rent_exempt_reserve m));
      Ok (lockup m, reserve, false)
  | StakeState.Uninitialized =>
      fail_if (negb (bool_decide (key me ∈ signers)))
        InstructionError.MissingRequiredSignature ;;
      Ok (Lockup_default, 0, false)
  | StakeState.RewardsPool => Err InstructionError.InvalidAccountData
  end.

(** [KeyedAccount::signer_key] *)
Definition signer_key (i : AccountInfo) : option Pubkey :=
  if is_signer i then Some (key i) else None.

Definition stake_withdraw (me : AccountInfo) (tock : Z) (to : AccountInfo) (clock : Clock)
    (stake_history : StakeHistory) (withdraw_authority : AccountInfo)
    (custodian : option AccountInfo) (prevent_withdraw_to_zero : bool) (st : store)
  : instruction_result store :=
  withdraw_authority_pubkey ← ok_or (signer_key withdraw_authority)
                                InstructionError.MissingRequiredSignature;
  '(lockup, reserve, is_staked) ←
    withdraw_limits me [withdraw_authority_pubkey] clock stake_history
      prevent_withdraw_to_zero st;
  let custodian_pubkey := custodian ≫= signer_key in
  fail_if (is_in_force lockup clock custodian_pubkey)
    (StakeError.into StakeError.LockupInForce) ;;
  lamports_and_reserve ← instruction_checked_add tock reserve;
  fail_if (is_staked && (balance st me <? lamports_and_reserve))
    InstructionError.InsufficientFunds ;;
  (if negb (tock =? balance st me) && (balance st me <? lamports_and_reserve)
   then panic_unless (negb is_staked) ;; Err InstructionError.InsufficientFunds
   else Ok tt) ;;
  st ← (if tock =? balance st me then set_state encode st me StakeState.Uninitialized
        else Ok st);
  st ← checked_sub_lamports st (key me) tock;
  checked_add_lamports st (key to) tock.

(** ** Rewards and genesis accounts, on account values *)

(** [StateMut::set_state] *)
Definition account_set_state (a : AccountSharedData) (v : StakeState.t)
  : instruction_result AccountSharedData :=
  fail_if (Nat.ltb (length (data a)) (length (encode v))) InstructionError.AccountDataTooSmall ;;
  Ok (set_account_data a (encode v ++ drop (length (encode v)) (data a))).

Definition account_add_lamports (a : AccountSharedData) (n : Z)
  : instruction_result AccountSharedData :=
  l ← ok_or (checked_add u64_max (lamports a) n) InstructionError.ArithmeticOverflow;
  Ok {| lamports := l; data := data a; owner := owner a; executable := executable a;
        rent_epoch := rent_epoch a |}.

(** The account after the payment, and the rewards of staker and voter.  After
    an error the caller drops its copy of the account. *)
Definition redeem_rewards (rewarded_epoch : Epoch) (stake_state : StakeState.t)
    (stake_account : AccountSharedData) (vote_state : VoteState) (point_value : PointValue)
    (stake_history : option StakeHistory) (fix_activating_credits_observed : bool)
  : instruction_result (AccountSharedData * (Z * Z)) :=
  match stake_state with
  | StakeState.Stake m s =>
      r ← redeem_stake_rewards rewarded_epoch s point_value vote_state stake_history
            fix_activating_credits_observed;
      match r with
      | Some (s, (stakers_reward, voters_reward)) =>
          a ← account_add_lamports stake_account stakers_reward;
          a ← account_set_state a (StakeState.Stake m s);
          Ok (a, (stakers_reward, voters_reward))
      | None => Err (StakeError.into StakeError.NoCreditsToRedeem)
      end
  | _ => Err InstructionError.InvalidAccountData
  end.

(** [redeem_rewards_slow] reads the state itself and pays the voter too; it
    returns the two accounts as it leaves them, also after an error. *)
Definition redeem_rewards_slow (rewarded_epoch : Epoch)
    (stake_account vote_account : AccountSharedData) (vote_state : VoteState)
    (point_value : PointValue) (stake_history : option StakeHistory)
    (fix_activating_credits_observed : bool)
  : AccountSharedData * AccountSharedData * instruction_result (Z * Z) :=
  match decode (data stake_account) with
  | Some (StakeState.Stake m s) =>
      match redeem_stake_rewards rewarded_epoch s point_value vote_state stake_history
              fix_activating_credits_observed with
      | Ok (Some (s, (stakers_reward, voters_reward))) =>
          match account_add_lamports stake_account stakers_reward with
          | Ok a =>
              match account_add_lamports vote_account voters_reward with
              | Ok v =>
                  match account_set_state a (StakeState.Stake m s) with
                  | Ok a => (a, v, Ok (stakers_reward, voters_reward))
                  | Err e => (a, v, Err e)
                  | Panic => (a, v, Panic)
                  end
              | Err e => (a, vote_account, Err e)
              | Panic => (a, vote_account, Panic)
              end
          | Err e => (stake_account, vote_account, Err e)
          | Panic => (stake_account, vote_account, Panic)
          end
      | Ok None =>
          (stake_account, vote_account, Err (StakeError.into StakeError.NoCreditsToRedeem))
      | Err e => (stake_account, vote_account, Err e)
      | Panic => (stake_account, vote_account, Panic)
      end
  | _ => (stake_account, vote_account, Err InstructionError.InvalidAccountData)
  end.

Definition calculate_points_slow (stake_account vote_account : AccountSharedData)
    (stake_history : option StakeHistory) : instruction_result Z :=
  state ← ok_or (decode (data stake_account)) InstructionError.InvalidAccountData;
  match state with
  | StakeState.Stake _ s =>
      v ← ok_or (decode_vote (data vote_account)) InstructionError.InvalidAccountData;
      Ok (calculate_stake_points s (convert_to_current v) stake_history)
  | _ => Err InstructionError.InvalidAccountData
  end.

(** [AccountSharedData::new(tock, size_of::<StakeState>(), &id())] *)
Definition new_stake_account (tock : Z) : AccountSharedData :=
  {| lamports := tock; data := replicate (Z.to_nat STAKE_STATE_SIZE) 0;
     owner := stake_program_id; executable := false; rent_epoch := 0 |}.

(** [expect]: an error is a panic *)
Definition expect {E F A} (r : result E A) : result F A :=
  match r with Ok a => Ok a | _ => Panic end.

Definition create_lockup_stake_account (a : Authorized) (l : Lockup) (rent : Rent) (tock : Z)
  : instruction_result AccountSharedData :=
  let stake_account := new_stake_account tock in
  let reserve := minimum_balance rent (Z.of_nat (length (data stake_account))) in
  panic_unless (reserve <=? tock) ;;
  expect (account_set_state stake_account
    (StakeState.Initialized
       {| rent_exempt_reserve := reserve; authorized := a; lockup := l |})).

Definition do_create_account (a voter : Pubkey) (vote_account : AccountSharedData) (rent : Rent)
    (tock : Z) (activation : Epoch) : instruction_result AccountSharedData :=
  let stake_account := new_stake_account tock in
  vote_state ← unwrap (convert_to_current <$> decode_vote (data vote_account));
  let reserve := minimum_balance rent (Z.of_nat (length (data stake_account))) in
  expect (account_set_state stake_account
    (StakeState.Stake
       {| rent_exempt_reserve := reserve; authorized := Authorized_auto a;
          lockup := Lockup_default |}
       (new_stake (wrapping_sub u64_max tock reserve) voter vote_state activation
          Config_default))).

(** ** The dispatcher *)
Definition history_account_at (st : store) (keyed_accounts : list AccountInfo) (index : nat)
  : instruction_result StakeHistory :=
  i ← keyed_account_at_index keyed_accounts index;
  from_keyed_account stake_history_sysvar_id decode_history st i.

(** [config::from_keyed_account] *)
Definition config_from_account (st : store) (i : AccountInfo) : instruction_result Config :=
  fail_if (negb (bool_decide (key i = stake_config_id))) InstructionError.InvalidArgument ;;
  match get_config_data encode_keys decode_keys (data (acct st (key i))) with
  | Ok d => ok_or (decode_config d) InstructionError.InvalidArgument
  | Err _ => Err InstructionError.InvalidArgument
  | Panic => Panic
  end.

(** [get_sysvar::<Clock>] *)
Definition get_sysvar_clock : instruction_result Clock :=
  ok_or sysvar_clock InstructionError.UnsupportedSysvar.

(** [keyed_account_at_index(..).ok().map(|ka| ka.unsigned_key())] *)
Definition key_at (keyed_accounts : list AccountInfo) (index : nat) : option Pubkey :=
  key <$> keyed_accounts !! index.

(** [keyed_account_at_index(..)?.signer_key().ok_or(MissingRequiredSignature)?] *)
Definition signer_at (keyed_accounts : list AccountInfo) (index : nat)
  : instruction_result Pubkey :=
  i ← keyed_account_at_index keyed_accounts index;
  ok_or (signer_key i) InstructionError.MissingRequiredSignature.

(** [process_instruction] *)
Definition process_stake (first_instruction_account : nat)
    (keyed_accounts : list AccountInfo) (features : StakeFeatures)
    (input : list Z) (st : store) : instruction_result store :=
  let account n := keyed_account_at_index keyed_accounts (first_instruction_account + n) in
  let clock_account n := clock_at decode_clock st keyed_accounts (first_instruction_account + n) in
  let history_account n :=
    history_account_at st keyed_accounts (first_instruction_account + n) in
  let rent_account n := rent_at decode_rent st keyed_accounts (first_instruction_account + n) in
  let require_custodian := require_custodian_for_locked_stake_authorize features in
  me ← keyed_account_at_index keyed_accounts first_instruction_account;
  fail_if (negb (bool_decide (owner (acct st (key me)) = stake_program_id)))
    InstructionError.InvalidAccountOwner ;;
  let signers := get_signers (drop first_instruction_account keyed_accounts) in
  instruction ← ok_or (decode_instruction input) InstructionError.InvalidInstructionData;
  match instruction with
  | StakeInstruction.Initialize a l =>
      rent ← rent_account 1%nat;
      stake_initialize me a l rent st
  | StakeInstruction.Authorize k ty =>
      if require_custodian then
        clock ← clock_account 1%nat;
        _current_authority ← account 2%nat;
        stake_authorize me signers k ty require_custodian clock
          (key_at keyed_accounts (first_instruction_account + 3)) st
      else stake_authorize me signers k ty require_custodian Clock_default None st
  | StakeInstruction.AuthorizeWithSeed args =>
      authority_base ← account 1%nat;
      if require_custodian then
        clock ← clock_account 2%nat;
        stake_authorize_with_seed me authority_base (authority_seed args)
          (authority_owner args) (new_authorized_pubkey args) (seed_stake_authorize args)
          require_custodian clock (key_at keyed_accounts (first_instruction_account + 3)) st
      else
        stake_authorize_with_seed me authority_base (authority_seed args)
          (authority_owner args) (new_authorized_pubkey args) (seed_stake_authorize args)
          require_custodian Clock_default None st
  | StakeInstruction.DelegateStake =>
      vote ← account 1%nat;
      clock ← clock_account 2%nat;
      stake_history ← history_account 3%nat;
      config_account ← account 4%nat;
      config ← config_from_account st config_account;
      stake_delegate me vote clock stake_history config signers (stake_program_v4 features) st
  | StakeInstruction.Split tock =>
      split ← account 1%nat;
      stake_split me tock split signers st
  | StakeInstruction.Merge =>
      source ← account 1%nat;
      clock ← clock_account 2%nat;
      stake_history ← history_account 3%nat;
      stake_merge (stake_merge_with_unmatched_credits_observed features) me source clock
        stake_history signers (stake_program_v4 features) st
  | StakeInstruction.Withdraw tock =>
      to ← account 1%nat;
      clock ← clock_account 2%nat;
      stake_history ← history_account 3%nat;
      withdraw_authority ← account 4%nat;
      stake_withdraw me tock to clock stake_history withdraw_authority
        (keyed_accounts !! (first_instruction_account + 5)%nat) (stake_program_v4 features) st
  | StakeInstruction.Deactivate =>
      clock ← clock_account 1%nat;
      stake_deactivate me clock signers st
  | StakeInstruction.SetLockup args =>
      clock ← (if stake_program_v4 features
               then c ← get_sysvar_clock; Ok (Some c) else Ok None);
      stake_set_lockup me args signers clock st
  | StakeInstruction.InitializeChecked =>
      if vote_stake_checked_instructions features then
        staker_account ← account 2%nat;
        w ← signer_at keyed_accounts (first_instruction_account + 3);
        rent ← rent_account 1%nat;
        stake_initialize me {| staker := key staker_account; withdrawer := w |}
          Lockup_default rent st
      else Err InstructionError.InvalidInstructionData
  | StakeInstruction.AuthorizeChecked ty =>
      if vote_stake_checked_instructions features then
        clock ← clock_account 1%nat;
        _current_authority ← account 2%nat;
        k ← signer_at keyed_accounts (first_instruction_account + 3);
        stake_authorize me signers k ty true clock
          (key_at keyed_accounts (first_instruction_account + 4)) st
      else Err InstructionError.InvalidInstructionData
  | StakeInstruction.AuthorizeCheckedWithSeed args =>
      if vote_stake_checked_instructions features then
        authority_base ← account 1%nat;
        clock ← clock_account 2%nat;
        k ← signer_at keyed_accounts (first_instruction_account + 3);
        stake_authorize_with_seed me authority_base (checked_authority_seed args)
          (checked_authority_owner args) k (checked_stake_authorize args) true clock
          (key_at keyed_accounts (first_instruction_account + 4)) st
      else Err InstructionError.InvalidInstructionData
  | StakeInstruction.SetLockupChecked args =>
      if vote_stake_checked_instructions features then
        custodian ← match keyed_accounts !! (first_instruction_account + 2)%nat with
                    | Some i => k ← ok_or (signer_key i)
                                      InstructionError.MissingRequiredSignature;
                                Ok (Some k)
                    | None => Ok None
                    end;
        clock ← get_sysvar_clock;
        stake_set_lockup me
          {| new_unix_timestamp := checked_unix_timestamp args;
             new_epoch := checked_epoch args; new_custodian := custodian |}
          signers (Some clock) st
      else Err InstructionError.InvalidInstructionData
  end.
End Stakes.
