(* ===== verification/StakeTheorems.v ===== *)
(** * Stake program: the guarantees

    Every accepted stake instruction is one step of [stake_step]: it rewrites
    the state of one account, or moves lamports between two accounts and
    rewrites their states, under the signatures and limits listed there.  From
    this follow the conservation of lamports, the authority needed to take
    lamports out of a stake account or to change its authorities, and the
    backing of delegations by lamports. *)

From stdpp Require Import base gmap list fin_maps strings.
From Stdlib Require Import ZArith Lia SpecFloat.
From S2P Require Import Prelude Sdk Runtime KeyedAccount Codec SystemProgram SystemTheorems ConfigProgram VoteState VoteInstruction StakeState StakeProofs StakeInstruction.

(** The amounts of a decoded instruction are [u64]s. *)
Definition wf_stake_instruction (i : StakeInstruction.t) : Prop :=
  match i with
  | StakeInstruction.Split n | StakeInstruction.Withdraw n => is_u64 n
  | _ => True
  end.

Definition meta_of (s : StakeState.t) : option Meta :=
  match s with
  | StakeState.Initialized m | StakeState.Stake m _ => Some m
  | _ => None
  end.

Definition with_meta (s : StakeState.t) (m : Meta) : StakeState.t :=
  match s with
  | StakeState.Initialized _ => StakeState.Initialized m
  | StakeState.Stake _ x => StakeState.Stake m x
  | _ => s
  end.

Section Guarantees.
Context (hashv : list (list Z) -> Hash).
Context (encode : StakeState.t -> list Z).
Context (decode : list Z -> option StakeState.t).
Context (decode_vote : list Z -> option VoteStateVersions).
Context (decode_clock : list Z -> option Clock).
Context (decode_history : list Z -> option StakeHistory).
Context (decode_rent : list Z -> option Rent).
Context (encode_keys : ConfigKeys -> list Z).
Context (decode_keys : list Z -> option ConfigKeys).
Context (decode_config : list Z -> option Config).
Context (decode_instruction : list Z -> option StakeInstruction.t).
Context (sysvar_clock : option Clock).
(** [bincode] reads back what it wrote and ignores trailing bytes. *)
Hypothesis codec : forall v rest, decode (encode v ++ rest) = Some v.
(** An instruction is decoded from its bytes with its amounts in range. *)
Hypothesis decoded_wf : forall input i,
  decode_instruction input = Some i -> wf_stake_instruction i.
Implicit Types (st : store) (k : Pubkey) (signers : list Pubkey).

Abbreviation run := (process_stake hashv encode decode decode_vote decode_clock decode_history
  decode_rent encode_keys decode_keys decode_config decode_instruction sysvar_clock).
Abbreviation controls := (controls hashv).

Definition stake_at st k (s : StakeState.t) : Prop := decode (data (acct st k)) = Some s.
Definition clock_of st (c : Clock) : Prop :=
  decode_clock (data (acct st clock_sysvar_id)) = Some c.
Definition history_of st (h : StakeHistory) : Prop :=
  decode_history (data (acct st stake_history_sysvar_id)) = Some h.

(** ** The steps *)

(** The lockup has expired, or its custodian agrees. *)
Definition unlocked signers (l : Lockup) (c : Clock) : Prop :=
  is_in_force l c None = false \/ controls signers (lockup_custodian l).

(** Who may change the authorities or the lockup. *)
Inductive meta_change (features : StakeFeatures) signers st (m : Meta) : Meta -> Prop :=
| M_staker k :
    controls signers (staker (authorized m)) \/ controls signers (withdrawer (authorized m)) ->
    meta_change features signers st m
      (with_authorized m {| staker := k; withdrawer := withdrawer (authorized m) |})
| M_withdrawer k :
    controls signers (withdrawer (authorized m)) ->
    (require_custodian_for_locked_stake_authorize features = true ->
     exists c, clock_of st c /\ unlocked signers (lockup m) c) ->
    meta_change features signers st m
      (with_authorized m {| staker := staker (authorized m); withdrawer := k |})
| M_lockup l :
    lockup_custodian (lockup m) ∈ signers \/
    (withdrawer (authorized m) ∈ signers /\
     exists c, sysvar_clock = Some c /\ is_in_force (lockup m) c None = false) ->
    meta_change features signers st m
      {| rent_exempt_reserve := rent_exempt_reserve m; authorized := authorized m;
         lockup := l |}.

(** The rewrites of the state [s] of an account holding [l] lamports and
    [len] bytes. *)
Inductive rewrite_ok (features : StakeFeatures) signers st (l len : Z)
  : StakeState.t -> StakeState.t -> Prop :=
| W_same : rewrite_ok features signers st l len StakeState.Uninitialized StakeState.Uninitialized
| W_initialize m :
    0 <= rent_exempt_reserve m < l -> len = STAKE_STATE_SIZE ->
    rewrite_ok features signers st l len StakeState.Uninitialized (StakeState.Initialized m)
| W_meta s m m' :
    meta_of s = Some m -> meta_change features signers st m m' ->
    rewrite_ok features signers st l len s (with_meta s m')
| W_delegate s m x :
    meta_of s = Some m -> staker (authorized m) ∈ signers ->
    stake (delegation x) = saturating_sub l (rent_exempt_reserve m) ->
    deactivation_epoch (delegation x) = u64_max ->
    rewrite_ok features signers st l len s (StakeState.Stake m x)
| W_rescind m x c :
    staker (authorized m) ∈ signers -> stake_program_v4 features = true -> clock_of st c ->
    epoch c = deactivation_epoch (delegation x) ->
    rewrite_ok features signers st l len (StakeState.Stake m x)
      (StakeState.Stake m {| delegation := with_deactivation (delegation x) u64_max;
                             credits_observed := credits_observed x |})
| W_deactivate m x c :
    staker (authorized m) ∈ signers -> clock_of st c ->
    deactivation_epoch (delegation x) = u64_max ->
    rewrite_ok features signers st l len (StakeState.Stake m x)
      (StakeState.Stake m {| delegation := with_deactivation (delegation x) (epoch c);
                             credits_observed := credits_observed x |}).

(** The stake a withdrawal must leave untouched. *)
Definition exposed (x : Stake) (c : Clock) (h : StakeHistory) : Z :=
  if deactivation_epoch (delegation x) <=? epoch c
  then Delegation_stake (delegation x) (epoch c) (Some h) else stake (delegation x).

(** Who may withdraw [n] of the [l] lamports of an account in state [s]. *)
Definition withdraw_ok (features : StakeFeatures) signers st k (l n : Z) (s : StakeState.t)
  : Prop :=
  exists c h, clock_of st c /\ history_of st h /\
  match s with
  | StakeState.Stake m x =>
      withdrawer (authorized m) ∈ signers /\ unlocked signers (lockup m) c /\
      (n = l /\ exposed x c h = 0 \/ n + exposed x c h + rent_exempt_reserve m <= l)
  | StakeState.Initialized m =>
      withdrawer (authorized m) ∈ signers /\ unlocked signers (lockup m) c /\
      (n = l \/ n + rent_exempt_reserve m + Z.b2z (stake_program_v4 features) <= l)
  | StakeState.Uninitialized => k ∈ signers
  | StakeState.RewardsPool => False
  end.

(** The state of an account after [n] of its [l] lamports left it. *)
Definition emptied (n l : Z) (s : StakeState.t) : StakeState.t :=
  if n =? l then StakeState.Uninitialized else s.

(** Splitting [n] of [l] lamports off into an account with [l2] lamports:
    the states before and after of the first, and the one of the second. *)
Inductive split_ok signers k (l len l2 len2 n : Z)
  : StakeState.t -> StakeState.t -> StakeState.t -> Prop :=
| Split_stake m x x1 x2 :
    let reserve := calculate_split_rent_exempt_reserve (rent_exempt_reserve m) len len2 in
    let delta := if n =? l then saturating_sub n (rent_exempt_reserve m) else n in
    let amount := if n =? l then saturating_sub n (rent_exempt_reserve m)
                  else wrapping_sub u64_max n (saturating_sub reserve l2) in
    staker (authorized m) ∈ signers -> saturating_sub reserve l2 < n ->
    (n = l \/ n + rent_exempt_reserve m < l) -> Stake_split x delta amount = Ok (x1, x2) ->
    split_ok signers k l len l2 len2 n (StakeState.Stake m x)
      (emptied n l (StakeState.Stake m x1)) (StakeState.Stake (with_reserve m reserve) x2)
| Split_initialized m :
    let reserve := calculate_split_rent_exempt_reserve (rent_exempt_reserve m) len len2 in
    staker (authorized m) ∈ signers -> saturating_sub reserve l2 < n ->
    (n = l \/ n + rent_exempt_reserve m < l) ->
    split_ok signers k l len l2 len2 n (StakeState.Initialized m)
      (emptied n l (StakeState.Initialized m)) (StakeState.Initialized (with_reserve m reserve))
| Split_uninitialized :
    k ∈ signers ->
    split_ok signers k l len l2 len2 n StakeState.Uninitialized StakeState.Uninitialized
      StakeState.Uninitialized.

(** Merging an account in state [s] into one in state [t]. *)
Definition merge_ok (features : StakeFeatures) signers st (l l2 : Z) (s t t1 : StakeState.t)
  : Prop :=
  exists c h ks kt merged, clock_of st c /\ history_of st h /\
  MergeKind.get_if_mergeable t l2 c h = Ok kt /\
  staker (authorized (MergeKind.meta kt)) ∈ signers /\
  MergeKind.get_if_mergeable s l c h = Ok ks /\
  MergeKind.merge (stake_merge_with_unmatched_credits_observed features) kt ks
    (if stake_program_v4 features then Some c else None) = Ok merged /\
  t1 = default t merged.

(** The account at [k] after [n] lamports went from [from] to [to] and their
    data became [d1] and [d2]. *)
Definition paid st (from to : Pubkey) (n : Z) (d1 d2 : list Z) k : AccountSharedData :=
  let a := acct st k in
  {| lamports := lamports a - (if decide (from = k) then n else 0)
                 + (if decide (to = k) then n else 0);
     data := if decide (from = k) then d1 else if decide (to = k) then d2 else data a;
     owner := owner a; executable := executable a; rent_epoch := rent_epoch a |}.

(** The payments out of an account in state [s], which is left in state [s1]. *)
Inductive pay_ok (features : StakeFeatures) signers st (from to : Pubkey) (n : Z)
    (s s1 : StakeState.t) (d2 : list Z) : Prop :=
| P_withdraw :
    withdraw_ok features signers st from (lamports (acct st from)) n s ->
    d2 = data (acct st to) -> s1 = emptied n (lamports (acct st from)) s ->
    pay_ok features signers st from to n s s1 d2
| P_split t1 :
    from <> to -> owner (acct st to) = stake_program_id ->
    stake_at st to StakeState.Uninitialized ->
    Z.of_nat (length (data (acct st to))) = STAKE_STATE_SIZE -> decode d2 = Some t1 ->
    split_ok signers from (lamports (acct st from)) (Z.of_nat (length (data (acct st from))))
      (lamports (acct st to)) STAKE_STATE_SIZE n s s1 t1 ->
    pay_ok features signers st from to n s s1 d2
| P_merge t t1 :
    from <> to -> owner (acct st to) = stake_program_id -> stake_at st to t ->
    decode d2 = Some t1 -> n = lamports (acct st from) -> s1 = StakeState.Uninitialized ->
    merge_ok features signers st (lamports (acct st from)) (lamports (acct st to)) s t t1 ->
    pay_ok features signers st from to n s s1 d2.

Inductive stake_step (features : StakeFeatures) signers st st' : Prop :=
| Step_rewrite k s s' d :
    owner (acct st k) = stake_program_id -> stake_at st k s ->
    rewrite_ok features signers st (lamports (acct st k)) (Z.of_nat (length (data (acct st k))))
      s s' ->
    decode d = Some s' -> length d = length (data (acct st k)) ->
    (forall j, acct st' j = acct (set_data st k d) j) -> stake_step features signers st st'
| Step_pay from to n s s1 d1 d2 :
    owner (acct st from) = stake_program_id -> stake_at st from s ->
    0 <= n <= lamports (acct st from) -> decode d1 = Some s1 ->
    length d1 = length (data (acct st from)) -> length d2 = length (data (acct st to)) ->
    pay_ok features signers st from to n s s1 d2 ->
    (forall j, acct st' j = paid st from to n d1 d2 j) -> stake_step features signers st st'.

(** ** Every handler takes a step *)

Lemma stake_set_state st i v st' :
  set_state encode st i v = Ok st' ->
  exists d, st' = set_data st (key i) d /\ decode d = Some v /\
    length d = length (data (acct st (key i))).
Proof. by apply set_state_stores. Qed.

Lemma get_state_at st i s : get_state decode st i = Ok s -> stake_at st (key i) s.
Proof. unfold get_state. intros H. by inv_ok. Qed.

(** A handler that only rewrites the state of [me]. *)
Lemma rewrite_refines features signers me s s' st st' :
  owner (acct st (key me)) = stake_program_id -> stake_at st (key me) s ->
  rewrite_ok features signers st (balance st me) (data_len st me) s s' ->
  set_state encode st me s' = Ok st' -> stake_step features signers st st'.
Proof.
  intros Ho Hs Hok (d & -> & Hd & Hl)%stake_set_state.
  by eapply (Step_rewrite features signers st _ (key me) s s' d).
Qed.

(** A handler that only changes the authorities or the lockup of [me]. *)
Lemma meta_refines features signers me s m m' st st' :
  owner (acct st (key me)) = stake_program_id -> stake_at st (key me) s ->
  meta_of s = Some m -> meta_change features signers st m m' ->
  set_state encode st me (with_meta s m') = Ok st' -> stake_step features signers st st'.
Proof. intros Ho Hs Hm Hc. eapply rewrite_refines; eauto. by eapply W_meta. Qed.

Lemma check_staker a signers u :
  Authorized_check a signers StakeAuthorize.Staker = Ok u -> staker a ∈ signers.
Proof. cbn. intros H. inv_ok. by to_prop. Qed.

Lemma check_withdrawer a signers u :
  Authorized_check a signers StakeAuthorize.Withdrawer = Ok u -> withdrawer a ∈ signers.
Proof. cbn. intros H. inv_ok. by to_prop. Qed.

Ltac inv_stake :=
  inv_ok;
  repeat match goal with
  | H : get_state decode _ _ = Ok _ |- _ => apply get_state_at in H
  | H : Authorized_check _ _ StakeAuthorize.Staker = Ok _ |- _ => apply check_staker in H
  | H : Authorized_check _ _ StakeAuthorize.Withdrawer = Ok _ |- _ => apply check_withdrawer in H
  end; to_prop.

Lemma initialize_step features signers me a l rent st st' :
  owner (acct st (key me)) = stake_program_id ->
  stake_initialize encode decode me a l rent st = Ok st' -> stake_step features signers st st'.
Proof.
  intros Ho H. unfold stake_initialize in H. inv_stake.
  destruct x0; inv_ok. case_if H; inv_ok. to_prop.
  eapply rewrite_refines; eauto. apply W_initialize; [|done]. split; [|done].
  apply F64.to_u64_range.
Qed.

Lemma check_lockup_unlocked signers auth l c custodian u :
  (forall k, k ∈ auth -> controls signers k) ->
  check_lockup_custodian auth (Some (l, c, custodian)) = Ok u -> unlocked signers l c.
Proof.
  intros Ha H. unfold check_lockup_custodian in H.
  destruct (is_in_force l c None) eqn:Hf; [right|by left].
  destruct custodian as [k|]; [|done]. inv_ok. to_prop.
  unfold is_in_force in H, Hf. case_bool_decide as Hk; [|].
  - injection Hk as ->. auto.
  - rewrite bool_decide_eq_false_2 in Hf by done. congruence.
Qed.

Lemma authorize_meta features signers auth st m new ty req c custodian a :
  (forall k, k ∈ auth -> controls signers k) ->
  (require_custodian_for_locked_stake_authorize features = true -> req = true) ->
  (req = true -> clock_of st c) ->
  Authorized_authorize (authorized m) auth new ty
    (if req then Some (lockup m, c, custodian) else None) = Ok a ->
  meta_change features signers st m (with_authorized m a).
Proof.
  intros Ha Hreq Hc H. destruct ty; cbn in H; inv_ok.
  - apply M_staker. to_prop. destruct Hr as [Hr|Hr]; to_prop; auto.
  - to_prop. apply M_withdrawer; [auto|]. intros Hf. specialize (Hreq Hf). subst req.
    exists c. split; [auto|]. by eapply check_lockup_unlocked.
Qed.

Lemma authorize_step features signers auth me new ty req c custodian st st' :
  owner (acct st (key me)) = stake_program_id ->
  (forall k, k ∈ auth -> controls signers k) ->
  (require_custodian_for_locked_stake_authorize features = true -> req = true) ->
  (req = true -> clock_of st c) ->
  stake_authorize encode decode me auth new ty req c custodian st = Ok st' ->
  stake_step features signers st st'.
Proof.
  intros Ho Ha Hreq Hc H. unfold stake_authorize in H. inv_stake.
  destruct x as [|m|m x|]; [done| | |done]; inv_ok;
    (eapply meta_refines; [done|done|reflexivity| |exact H]); by eapply authorize_meta.
Qed.

Lemma authorize_with_seed_step features signers me base seed own new ty req c custodian st st' :
  owner (acct st (key me)) = stake_program_id ->
  (is_signer base = true -> key base ∈ signers) ->
  (require_custodian_for_locked_stake_authorize features = true -> req = true) ->
  (req = true -> clock_of st c) ->
  stake_authorize_with_seed hashv encode decode me base seed own new ty req c custodian st = Ok st' ->
  stake_step features signers st st'.
Proof.
  intros Ho Hb Hreq Hc H. unfold stake_authorize_with_seed in H. inv_ok.
  eapply authorize_step; [done| |done|done|exact H]. intros k Hk.
  destruct (is_signer base); inv_ok; [|by apply not_elem_of_nil in Hk].
  apply list_elem_of_singleton in Hk as ->. right. exists (key base), seed, own. auto.
Qed.

Lemma deactivate_step features signers me c st st' :
  owner (acct st (key me)) = stake_program_id -> clock_of st c ->
  stake_deactivate encode decode me c signers st = Ok st' -> stake_step features signers st st'.
Proof.
  intros Ho Hc H. unfold stake_deactivate in H. inv_stake.
  destruct x as [| |m x|]; [done|done| |done]. inv_stake.
  match goal with H1 : stake_result _ = Ok _ |- _ =>
    unfold stake_result, Stake_deactivate in H1; inv_ok; to_prop end.
  eapply rewrite_refines; eauto. by apply W_deactivate.
Qed.

Lemma set_lockup_meta features signers st m args clock m' :
  clock = None \/ clock = sysvar_clock -> Meta_set_lockup m args signers clock = Ok m' ->
  meta_change features signers st m m'.
Proof.
  intros Hc H. unfold Meta_set_lockup in H. inv_ok. apply M_lockup.
  destruct clock as [c|]; [|inv_ok; to_prop; by left].
  destruct (is_in_force (lockup m) c None) eqn:Hf; inv_ok; to_prop; [by left|].
  right. destruct Hc as [|Hc]; [done|]. eauto.
Qed.

Lemma set_lockup_step features signers me args clock st st' :
  owner (acct st (key me)) = stake_program_id -> clock = None \/ clock = sysvar_clock ->
  stake_set_lockup encode decode me args signers clock st = Ok st' ->
  stake_step features signers st st'.
Proof.
  intros Ho Hc H. unfold stake_set_lockup in H. inv_stake.
  destruct x as [|m|m x|]; [done| | |done]; inv_ok;
    (eapply meta_refines; [done|done|reflexivity| |exact H]); by eapply set_lockup_meta.
Qed.

Lemma delegate_step features signers me vote c h config st st' :
  owner (acct st (key me)) = stake_program_id -> clock_of st c ->
  stake_delegate encode decode decode_vote me vote c h config signers
    (stake_program_v4 features) st = Ok st' ->
  stake_step features signers st st'.
Proof.
  intros Ho Hc H. unfold stake_delegate in H. inv_stake.
  destruct x0 as [|m|m x|]; [done| | |done]; inv_stake.
  - eapply rewrite_refines; eauto. by eapply W_delegate.
  - match goal with H1 : stake_result _ = Ok ?y |- _ =>
      unfold stake_result, redelegate in H1; inv_ok end.
    repeat case_match; inv_ok; to_prop.
    + destruct_and?. eapply rewrite_refines; eauto. by eapply W_rescind.
    + eapply rewrite_refines; eauto. by eapply W_delegate.
Qed.

(** A payment out of a store that agrees with [st] but for the data of the two
    accounts. *)
Lemma acct_paid st st1 from to n d1 d2 :
  from <> to -> (forall j, acct st1 j = acct (set_data (set_data st from d1) to d2) j) ->
  forall j, acct (move_lamports st1 from to n) j = paid st from to n d1 d2 j.
Proof.
  intros Hne H1 j. rewrite acct_move_lamports, H1, !acct_set_data. unfold paid.
  destruct (decide (from = j)) as [->|], (decide (to = j)) as [->|]; try done.
  all: rewrite ?decide_False by done; cbn; done.
Qed.

Lemma acct_set_same st k j : acct (set_data st k (data (acct st k))) j = acct st j.
Proof. rewrite acct_set_data. case_decide as Hk; [subst|done]. by destruct (acct st j). Qed.

Lemma pay_back_Ok st from to n st1 st' :
  from <> to -> checked_add_lamports st to n = Ok st1 -> checked_sub_lamports st1 from n = Ok st' ->
  n <= lamports (acct st from) /\ forall j, acct st' j = acct (move_lamports st from to n) j.
Proof.
  unfold checked_sub_lamports, checked_add_lamports. intros Hne H1 H2. inv_ok. inv_checked.
  rewrite lamports_set_lamports, decide_False in * by done. split; [done|]. intros j. subst.
  unfold move_lamports. rewrite !acct_set_lamports.
  destruct (decide (from = j)) as [->|], (decide (to = j)) as [->|];
    rewrite ?decide_False by done; done.
Qed.

(** The end of a split: the first account is emptied or not, and pays. *)
Definition split_tail (me split : AccountInfo) (n : Z) st : instruction_result store :=
  st ← (if n =? balance st me then set_state encode st me StakeState.Uninitialized else Ok st);
  st ← checked_add_lamports st (key split) n;
  checked_sub_lamports st (key me) n.

Lemma split_tail_pays st st1 st' me split n d1 d2 s1 :
  key me <> key split ->
  (forall j, acct st1 j = acct (set_data (set_data st (key me) d1) (key split) d2) j) ->
  decode d1 = Some s1 -> split_tail me split n st1 = Ok st' ->
  exists d, decode d = Some (emptied n (balance st me) s1) /\ length d = length d1 /\
    n <= balance st me /\
    forall j, acct st' j = paid st (key me) (key split) n d d2 j.
Proof.
  intros Hne H1 Hd H. unfold split_tail in H.
  assert (balance st1 me = balance st me) as Hb
    by (unfold balance; rewrite H1; by autorewrite with store).
  rewrite Hb in H. unfold emptied. inv_ok.
  destruct (n =? balance st me); inv_ok.
  - apply stake_set_state in Hr as (d & -> & Hd' & Hl).
    destruct (pay_back_Ok _ _ _ _ _ _ Hne Hr0 H) as [Hle Hacct].
    rewrite lamports_set_data in Hle. exists d. split; [done|].
    rewrite H1, !data_set_data, decide_False, decide_True in Hl by done.
    split; [done|]. unfold balance in *. split; [lia|]. intros j. rewrite Hacct.
    apply acct_paid; [done|]. intros i. rewrite !acct_set_data, !H1, !acct_set_data.
    repeat (case_decide; try congruence); done.
  - destruct (pay_back_Ok _ _ _ _ _ _ Hne Hr0 H) as [Hle Hacct]. unfold balance in *.
    exists d1. do 2 (split; [done|]). split; [lia|].
    intros j. rewrite Hacct. by apply acct_paid.
Qed.

Lemma split_tail_self st st' me split n :
  key me = key split -> stake_at st (key me) StakeState.Uninitialized ->
  split_tail me split n st = Ok st' ->
  exists d, decode d = Some StakeState.Uninitialized /\
    length d = length (data (acct st (key me))) /\
    forall j, acct st' j = acct (set_data st (key me) d) j.
Proof.
  intros He Hs H. unfold split_tail in H. rewrite <- He in H. inv_ok.
  assert (exists d, decode d = Some StakeState.Uninitialized /\
    length d = length (data (acct st (key me))) /\
    forall j, acct x j = acct (set_data st (key me) d) j) as (d & Hd & Hl & Hx).
  { destruct (n =? balance st me); inv_ok.
    - apply stake_set_state in Hr as (d & -> & Hd & Hl). eauto.
    - eexists. split; [exact Hs|]. split; [done|]. intros j. by rewrite acct_set_same. }
  exists d. do 2 (split; [done|]). intros j. rewrite <- Hx.
  unfold checked_add_lamports, checked_sub_lamports in *. inv_ok. inv_checked. subst.
  rewrite lamports_set_lamports, decide_True by done. rewrite !acct_set_lamports.
  case_decide as Hj; [subst|done]. rewrite decide_True by done. cbn.
  destruct (acct x (key me)); cbn. f_equal. lia.
Qed.

Lemma check_split_Ok n reserve m me split st u :
  check_split_lamports n reserve m me split st = Ok u ->
  saturating_sub reserve (balance st split) < n /\
  (n = balance st me \/ n + rent_exempt_reserve m < balance st me).
Proof.
  unfold check_split_lamports. intros H. inv_ok. case_if Hr; to_prop; [by simplify_eq|].
  case_if Hr; to_prop; inv_ok; [auto|]. unfold instruction_checked_add in Hr0. inv_ok.
  inv_checked. lia.
Qed.

(** A split between two accounts, once the states are written. *)
Lemma split_pays features signers me split n st st1 st' s s1 t1 d1 d2 :
  owner (acct st (key me)) = stake_program_id ->
  owner (acct st (key split)) = stake_program_id ->
  stake_at st (key me) s -> stake_at st (key split) StakeState.Uninitialized ->
  data_len st split = STAKE_STATE_SIZE -> 0 <= n -> key me <> key split ->
  (forall j, acct st1 j = acct (set_data (set_data st (key me) d1) (key split) d2) j) ->
  decode d1 = Some s1 -> length d1 = length (data (acct st (key me))) ->
  decode d2 = Some t1 -> length d2 = length (data (acct st (key split))) ->
  split_ok signers (key me) (balance st me) (data_len st me) (balance st split)
    STAKE_STATE_SIZE n s (emptied n (balance st me) s1) t1 ->
  split_tail me split n st1 = Ok st' -> stake_step features signers st st'.
Proof.
  intros Ho Ho2 Hs Ht Hlen Hn Hne H1 Hd1 Hl1 Hd2 Hl2 Hok H.
  destruct (split_tail_pays _ _ _ _ _ _ _ _ _ Hne H1 Hd1 H) as (d & Hd & Hl & Hle & Hacct).
  eapply (Step_pay _ _ _ _ (key me) (key split) n s _ d d2); try done.
  - by rewrite Hl.
  - by eapply (P_split _ _ _ _ _ _ _ _ _ t1).
Qed.

Lemma split_step features signers me n split st st' :
  owner (acct st (key me)) = stake_program_id -> 0 <= n ->
  stake_split encode decode me n split signers st = Ok st' -> stake_step features signers st st'.
Proof.
  intros Ho Hn H. unfold stake_split in H. inv_stake.
  destruct x1; [|done..].
  apply bind_Ok in H as (? & Hle & H). apply bind_Ok in H as (sm & Hs & H).
  apply bind_Ok in H as (st1 & Hm & H). cbv beta in *.
  change (split_tail me split n st1 = Ok st') in H. apply get_state_at in Hs.
  assert (sm <> StakeState.Uninitialized -> key me <> key split) as Hdiff
    by (intros Hsm He; unfold stake_at in *; rewrite He in *; congruence).
  destruct sm as [|m|m y|]; [| | |done]; inv_stake.
  - destruct (decide (key me = key split)) as [He|Hne].
    + destruct (split_tail_self _ _ _ _ _ He Hs H) as (d & Hd & Hl & Hacct).
      eapply (Step_rewrite _ _ _ _ (key me) _ _ d); eauto. apply W_same.
    + assert (forall j, acct st1 j = acct (set_data (set_data st1 (key me) (data (acct st1 (key me))))
        (key split) (data (acct st1 (key split)))) j) as Hsame.
      { intros j. rewrite acct_set_data, !acct_set_same. case_decide; [|done]. subst.
        by destruct (acct _ (key split)). }
      eapply (split_pays _ _ me split n st1 st1 st'); try done; [].
      unfold emptied. case_match; by apply Split_uninitialized.
  - apply check_split_Ok in Hr3 as [? ?]. rewrite Hr0 in *.
    apply stake_set_state in Hm as (d & -> & Hd & Hl).
    assert (forall j, acct (set_data st (key split) d) j =
      acct (set_data (set_data st (key me) (data (acct st (key me)))) (key split) d) j) as Hsame
      by (intros j; rewrite !(acct_set_data _ (key split)), !acct_set_same; done).
    eapply (split_pays _ _ me split n st); try done; [by apply Hdiff|].
    by apply Split_initialized.
  - apply check_split_Ok in Hr3 as [? ?]. rewrite Hr0 in *.
    destruct (if n =? balance st me then _ else _) as [delta amount] eqn:Hda. inv_ok.
    apply stake_set_state in Hr4 as (d1 & -> & Hd1 & Hl1).
    apply stake_set_state in Hm as (d2 & -> & Hd2 & Hl2).
    rewrite data_set_data, decide_False in Hl2 by (by apply Hdiff).
    eapply (split_pays _ _ me split n st _ st' _ _ _ d1 d2); try done; [by apply Hdiff|].
    apply map_err_Ok in Hr3. eapply Split_stake; try done.
    destruct (n =? balance st me); by injection Hda as -> ->.
Qed.

Lemma merge_step features signers me source c h st st' :
  owner (acct st (key me)) = stake_program_id -> clock_of st c -> history_of st h ->
  (forall k, 0 <= lamports (acct st k)) ->
  stake_merge encode decode (stake_merge_with_unmatched_credits_observed features) me source c h
    signers (stake_program_v4 features) st = Ok st' ->
  stake_step features signers st st'.
Proof.
  intros Ho Hc Hh Hpos H. unfold stake_merge, get_if_mergeable_at in H. inv_stake.
  rename x1 into kt, x3 into ks, x4 into merged, x5 into st1, x9 into t, x8 into s.
  assert (exists d2, decode d2 = Some (default t merged) /\
    length d2 = length (data (acct st (key me))) /\
    forall j, acct st1 j = acct (set_data st (key me) d2) j) as (d2 & Hd2 & Hl2 & H1).
  { destruct merged as [t1|]; inv_ok.
    - match goal with H1 : set_state _ _ _ t1 = Ok _ |- _ =>
        apply stake_set_state in H1 as (d & -> & ? & ?) end. eauto.
    - eexists. split; [eassumption|]. split; [done|]. intros j. by rewrite acct_set_same. }
  match goal with H2 : set_state _ _ _ StakeState.Uninitialized = Ok _ |- _ =>
    apply stake_set_state in H2 as (d1 & -> & Hd1 & Hl1) end.
  match goal with H3 : checked_sub_lamports _ _ _ = Ok _ |- _ =>
    destruct (pay_Ok _ _ _ _ _ _ H3 H) as [-> Hle] end.
  assert (balance (set_data st1 (key source) d1) source = lamports (acct st (key source))) as Hb
    by (unfold balance; rewrite lamports_set_data, H1, lamports_set_data; done).
  rewrite Hb in *.
  rewrite H1, data_set_data, decide_False in Hl1 by done.
  eapply (Step_pay _ _ _ _ (key source) (key me)
    (lamports (acct st (key source))) s StakeState.Uninitialized d1 d2); try done.
  - eapply P_merge; try done; [].
    exists c, h, ks, kt, merged. done.
  - apply acct_paid; [done|]. intros i. rewrite !acct_set_data, !H1, !acct_set_data.
    repeat (case_decide; try congruence); done.
Qed.

Lemma acct_withdrawn st st1 from to n d1 :
  (forall j, acct st1 j = acct (set_data st from d1) j) ->
  forall j, acct (move_lamports st1 from to n) j = paid st from to n d1 (data (acct st to)) j.
Proof.
  intros H1 j. rewrite acct_move_lamports, H1, acct_set_data. unfold paid.
  destruct (decide (from = j)) as [->|]; [done|]. destruct (decide (to = j)) as [->|]; done.
Qed.

Lemma not_in_force_unlocked signers l c custodian :
  (forall k, custodian = Some k -> k ∈ signers) ->
  is_in_force l c custodian = false -> unlocked signers l c.
Proof.
  intros Hk H. destruct (decide (custodian = Some (lockup_custodian l))); [right; left; auto|].
  left. unfold is_in_force in *. by rewrite bool_decide_eq_false_2 in * by done.
Qed.

(** The limits of a withdrawal, when its guards pass. *)
Lemma withdraw_limits_ok features signers auth me c h st l reserve staked custodian n :
  (forall k, k ∈ auth -> k ∈ signers) -> (forall k, custodian = Some k -> k ∈ signers) ->
  clock_of st c -> history_of st h ->
  withdraw_limits decode me auth c h (stake_program_v4 features) st = Ok (l, reserve, staked) ->
  is_in_force l c custodian = false -> n <= balance st me ->
  (staked = true -> n + reserve <= balance st me) ->
  (n = balance st me \/ n + reserve <= balance st me) ->
  exists s, stake_at st (key me) s /\ withdraw_ok features signers st (key me) (balance st me) n s.
Proof.
  intros Ha Hcust Hc Hh H Hf Hn Hst Hres. unfold withdraw_limits in H. inv_stake.
  exists x. split; [done|]. exists c, h. do 2 (split; [done|]).
  destruct x as [|m|m x|]; [| | |done]; inv_stake; [auto|..].
  - split; [auto|]. split; [by eapply not_in_force_unlocked|].
    destruct (stake_program_v4 features); unfold instruction_checked_add in *; inv_ok;
      inv_checked; cbn; lia.
  - split; [auto|]. split; [by eapply not_in_force_unlocked|].
    fold (exposed x c h) in *. unfold instruction_checked_add in *. inv_ok. inv_checked. subst.
    destruct (Z.eqb_spec (exposed x c h) 0); cbn in Hst; [lia|]. right. specialize (Hst eq_refl). lia.
Qed.

Lemma withdraw_step features signers me n to c h auth custodian st st' :
  owner (acct st (key me)) = stake_program_id -> 0 <= n -> clock_of st c -> history_of st h ->
  (is_signer auth = true -> key auth ∈ signers) ->
  (forall i, custodian = Some i -> is_signer i = true -> key i ∈ signers) ->
  stake_withdraw encode decode me n to c h auth custodian (stake_program_v4 features) st = Ok st' ->
  stake_step features signers st st'.
Proof.
  intros Ho Hn Hc Hh Ha Hcust H. unfold stake_withdraw in H. inv_ok. to_prop.
  rename x into a, l into l0.
  match goal with H1 : instruction_checked_add _ _ = Ok _ |- _ =>
    unfold instruction_checked_add in H1; inv_ok; inv_checked; subst end.
  destruct (pay_Ok _ _ _ _ _ _ Hr6 H) as [-> Hle].
  assert (lamports (acct x4 (key me)) = balance st me) as Hb.
  { destruct (n =? balance st me); inv_ok; [|done].
    apply stake_set_state in Hr5 as (d & -> & _). by autorewrite with store. }
  rewrite Hb in Hle.
  assert (exists s, stake_at st (key me) s /\
    withdraw_ok features signers st (key me) (balance st me) n s) as (s & Hs & Hok).
  { unfold signer_key in *. eapply withdraw_limits_ok; [..|exact Hr0|exact Hr1|done| |]; try done.
    - intros k Hk. apply list_elem_of_singleton in Hk as ->.
      destruct (is_signer auth); simplify_eq. auto.
    - intros k Hk. destruct custodian as [i|]; cbn in Hk; [|done].
      destruct (is_signer i) eqn:?; simplify_eq. eauto.
    - intros ->. destruct Hr3; to_prop; [done|lia].
    - case_if Hr4; inv_ok; to_prop. destruct E as [E|E]; to_prop; auto. }
  assert (exists d1, decode d1 = Some (emptied n (balance st me) s) /\
    length d1 = length (data (acct st (key me))) /\
    forall j, acct x4 j = acct (set_data st (key me) d1) j) as (d1 & Hd1 & Hl1 & H1).
  { unfold emptied. destruct (n =? balance st me); inv_ok.
    - apply stake_set_state in Hr5 as (d & -> & ? & ?). eauto.
    - eexists. split; [exact Hs|]. split; [done|]. intros j. by rewrite acct_set_same. }
  eapply (Step_pay _ _ _ _ (key me) (key to) n s _ d1 (data (acct st (key to)))); try done.
  - by apply P_withdraw.
  - by apply acct_withdrawn.
Qed.

(** ** The dispatcher *)

Lemma signer_in first accounts n i :
  accounts !! (first + n)%nat = Some i -> is_signer i = true ->
  key i ∈ get_signers (drop first accounts).
Proof.
  intros Hi Hs. apply elem_of_get_signers. exists i. split; [|done].
  apply list_elem_of_lookup. exists n. by rewrite lookup_drop.
Qed.

Lemma clock_at_of st accounts n c : clock_at decode_clock st accounts n = Ok c -> clock_of st c.
Proof. unfold clock_at, from_keyed_account. intros H. inv_ok. to_prop. unfold clock_of. congruence. Qed.

Lemma history_at_of st accounts n h :
  history_account_at decode_history st accounts n = Ok h -> history_of st h.
Proof. unfold history_account_at, from_keyed_account. intros H. inv_ok. to_prop. unfold history_of. congruence. Qed.

Lemma stake_instruction_refines features first accounts input st st' :
  (forall k, 0 <= lamports (acct st k)) ->
  run first accounts features input st = Ok st' ->
  stake_step features (get_signers (drop first accounts)) st st'.
Proof.
  intros Hpos H. unfold process_stake in H. inv_ok. to_prop.
  match goal with H1 : decode_instruction input = Some ?i |- _ =>
    pose proof (decoded_wf _ _ H1) as Hwf; destruct i end; cbn in Hwf;
    repeat (case_if H; try discriminate H); inv_ok;
    repeat match goal with
    | H1 : clock_at _ _ _ _ = Ok _ |- _ => apply clock_at_of in H1
    | H1 : history_account_at _ _ _ _ = Ok _ |- _ => apply history_at_of in H1
    | H1 : keyed_account_at_index _ _ = Ok _ |- _ => unfold keyed_account_at_index in H1; inv_ok
    end.
  all: try (by eapply initialize_step).
  all: try (by eapply deactivate_step).
  all: try (by eapply delegate_step).
  all: try (by eapply merge_step).
  all: try (refine (split_step _ _ _ _ _ _ _ _ _ H); [done|lia]).
  all: try (refine (authorize_step _ _ _ _ _ _ _ _ _ _ _ _ _ _ _ H);
    [done|by left|congruence|intros; done]).
  all: try (refine (authorize_with_seed_step _ _ _ _ _ _ _ _ _ _ _ _ _ _ _ _ _ H);
    [done|by eapply signer_in|congruence|intros; done]).
  all: try (refine (withdraw_step _ _ _ _ _ _ _ _ _ _ _ _ _ _ _ _ _ H);
    [done|lia|done|done|by eapply signer_in|intros; by eapply signer_in]).
  all: refine (set_lockup_step _ _ _ _ _ _ _ _ _ H); [done|]; unfold get_sysvar_clock in *;
    inv_ok; auto.
Qed.

(** ** Lamports *)

Lemma total_ext st1 st2 :
  (forall k, lamports (acct st1 k) = lamports (acct st2 k)) ->
  total_lamports st1 = total_lamports st2.
Proof. intros H. apply (msum_ext_lookup lamports st1 st2 default_account); [done|apply H]. Qed.

(** A stake instruction neither creates nor destroys lamports. *)
Theorem stake_lamports_conserved features first accounts input st st' :
  (forall k, 0 <= lamports (acct st k)) ->
  run first accounts features input st = Ok st' -> total_lamports st' = total_lamports st.
Proof.
  intros Hpos H. apply stake_instruction_refines in H; [|done].
  destruct H as [k s s' d _ _ _ _ _ Hst|from to n s s1 d1 d2 _ _ _ _ _ _ _ Hst].
  - rewrite <- (total_set_data st k d). apply total_ext. intros j. by rewrite Hst.
  - rewrite <- (total_move_lamports st from to n). apply total_ext. intros j.
    by rewrite Hst, acct_move_lamports.
Qed.

(** ** Authority *)

Lemma stake_at_inj st k s s' : stake_at st k s -> stake_at st k s' -> s = s'.
Proof. unfold stake_at. congruence. Qed.

Lemma mergeable_meta s l c h ks :
  MergeKind.get_if_mergeable s l c h = Ok ks -> meta_of s = Some (MergeKind.meta ks).
Proof.
  unfold MergeKind.get_if_mergeable. destruct s; intros H; try done; inv_ok; [done|].
  repeat case_match; by inv_ok.
Qed.

Lemma merge_metas u kt ks clock merged :
  MergeKind.merge u kt ks clock = Ok merged ->
  authorized (MergeKind.meta kt) = authorized (MergeKind.meta ks) /\
  (lockup (MergeKind.meta kt) = lockup (MergeKind.meta ks) \/
   exists c, clock = Some c /\ is_in_force (lockup (MergeKind.meta kt)) c None = false /\
     is_in_force (lockup (MergeKind.meta ks)) c None = false).
Proof.
  unfold MergeKind.merge, MergeKind.metas_can_merge. intros H.
  apply bind_Ok in H as ([] & Hm & _). case_if Hm; [|done]. to_prop. split; [done|].
  destruct clock as [c|]; to_prop; [|auto].
  destruct H0 as [H0|H0]; to_prop; [auto|]. right. eauto.
Qed.

Lemma merged_meta u kt ks clock t1 :
  MergeKind.merge u kt ks clock = Ok (Some t1) -> meta_of t1 = Some (MergeKind.meta kt).
Proof.
  unfold MergeKind.merge. intros H. inv_ok. destruct kt, ks; by inv_ok.
Qed.

(** The account that absorbs keeps its authorities and lockup, which agree
    with those of the account absorbed. *)
Lemma merge_ok_metas features signers st l l2 s t t1 m :
  merge_ok features signers st l l2 s t t1 -> meta_of s = Some m ->
  exists m2, meta_of t = Some m2 /\ meta_of t1 = Some m2 /\ staker (authorized m) ∈ signers /\
    authorized m2 = authorized m /\
    (lockup m2 = lockup m \/
     exists c, clock_of st c /\ is_in_force (lockup m) c None = false /\
       is_in_force (lockup m2) c None = false).
Proof.
  intros (c & h & ks & kt & merged & Hc & Hh & Ht & Hsig & Hs & Hm & ->) Hms.
  apply mergeable_meta in Ht, Hs. rewrite Hs in Hms. injection Hms as <-.
  destruct (merge_metas _ _ _ _ _ Hm) as [Ha Hl]. exists (MergeKind.meta kt).
  split; [done|]. split.
  { destruct merged as [t1|]; [|done]. cbn. by eapply merged_meta. }
  rewrite <- Ha. do 2 (split; [done|]).
  destruct Hl as [|(c' & Hc' & ? & ?)]; [by left|right]. exists c.
  destruct (stake_program_v4 features); by simplify_eq.
Qed.

Lemma merge_ok_meta features signers st l l2 s t t1 :
  merge_ok features signers st l l2 s t t1 -> exists m, meta_of s = Some m.
Proof.
  intros (c & h & ks & kt & merged & _ & _ & _ & _ & Hs & _). apply mergeable_meta in Hs. eauto.
Qed.

(** What the receiver of a payment gets. *)
Lemma paid_receiver st st' from to n d1 d2 :
  (forall j, acct st' j = paid st from to n d1 d2 j) -> from <> to ->
  owner (acct st' to) = owner (acct st to) /\ data (acct st' to) = d2 /\
  lamports (acct st' to) = lamports (acct st to) + n.
Proof.
  intros Hst Hne. rewrite Hst. unfold paid. cbn.
  repeat case_decide; try congruence. split_and!; [done|done|lia].
Qed.

(** C28: The lamports of a stake account leave it in two ways only. Either its
    withdrawer signs, and the lockup has expired or its custodian agrees;
    or its staker signs and the lamports go to another stake account under
    the same authorities and under the same lockup, or both lockups
    expired. *)
Theorem stake_outflow_authorized features first accounts input st st' k s m :
  (forall k, 0 <= lamports (acct st k)) ->
  run first accounts features input st = Ok st' ->
  stake_at st k s -> meta_of s = Some m -> lamports (acct st' k) < lamports (acct st k) ->
  let signers := get_signers (drop first accounts) in
  withdrawer (authorized m) ∈ signers /\
    (exists c, clock_of st c /\ unlocked signers (lockup m) c) \/
  staker (authorized m) ∈ signers /\
  exists k2 s2 m2,
    k2 <> k /\ owner (acct st' k2) = stake_program_id /\ stake_at st' k2 s2 /\
    meta_of s2 = Some m2 /\ authorized m2 = authorized m /\
    (lockup m2 = lockup m \/
     exists c, clock_of st c /\ is_in_force (lockup m) c None = false /\
       is_in_force (lockup m2) c None = false) /\
    lamports (acct st' k2) - lamports (acct st k2) = lamports (acct st k) - lamports (acct st' k).
Proof.
  intros Hpos H Hs Hm Hlt. cbn zeta. apply stake_instruction_refines in H; [|done].
  destruct H as [k' s0 s' d _ _ _ _ _ Hst|from to n s0 s1 d1 d2 Ho Hs0 Hn Hd1 Hl1 Hl2 Hok Hst].
  { rewrite Hst, lamports_set_data in Hlt. lia. }
  assert (from = k /\ to <> k /\ lamports (acct st' k) = lamports (acct st k) - n)
    as (-> & Hto & Hk).
  { rewrite Hst in *. unfold paid in *. cbn in *.
    destruct (decide (from = k)); [|exfalso; case_decide; lia].
    destruct (decide (to = k)); [exfalso; lia|]. split_and!; [done..|lia]. }
  rewrite Hk.
  pose proof (stake_at_inj _ _ _ _ Hs Hs0) as <-.
  destruct Hok as [(c & h & Hc & Hh & Hw) _ _|t1 Hne Ho2 Ht _ Hd2 Hsplit|t t1 Hne Ho2 Ht Hd2 -> _ Hmerge].
  - left. destruct s; try done; simplify_eq/=; destruct Hw as (? & ? & _); eauto.
  - right. assert (staker (authorized m) ∈ get_signers (drop first accounts) /\
      exists r, meta_of t1 = Some (with_reserve m r)) as [? [r Hr]]
      by (destruct Hsplit; simplify_eq/=; eauto).
    destruct (paid_receiver _ _ _ _ _ _ _ Hst Hne) as (Ho' & Hd' & Hl').
    split; [done|]. exists to, t1, (with_reserve m r). unfold stake_at. rewrite Ho', Hd', Hl'.
    split_and!; auto; lia.
  - right. destruct (merge_ok_metas _ _ _ _ _ _ _ _ _ Hmerge Hm) as (m2 & _ & ? & ? & ? & ?).
    destruct (paid_receiver _ _ _ _ _ _ _ Hst Hne) as (Ho' & Hd' & Hl').
    split; [done|]. exists to, t1, m2. unfold stake_at. rewrite Ho', Hd', Hl'.
    split_and!; auto; lia.
Qed.

(** What a step does to the authorities and the lockup of one account. *)
Definition meta_kept features signers st (m m' : Meta) : Prop :=
  (withdrawer (authorized m') <> withdrawer (authorized m) ->
   controls signers (withdrawer (authorized m)) /\
   (require_custodian_for_locked_stake_authorize features = true ->
    exists c, clock_of st c /\ unlocked signers (lockup m) c)) /\
  (staker (authorized m') <> staker (authorized m) ->
   controls signers (staker (authorized m)) \/ controls signers (withdrawer (authorized m))) /\
  (lockup m' <> lockup m ->
   lockup_custodian (lockup m) ∈ signers \/
   withdrawer (authorized m) ∈ signers /\
   exists c, sysvar_clock = Some c /\ is_in_force (lockup m) c None = false).

Lemma meta_kept_same features signers st m m' :
  authorized m' = authorized m -> lockup m' = lockup m -> meta_kept features signers st m m'.
Proof. unfold meta_kept. intros -> ->. split_and!; congruence. Qed.

Lemma meta_change_kept features signers st m m' :
  meta_change features signers st m m' -> meta_kept features signers st m m'.
Proof. unfold meta_kept. intros []; cbn; split_and!; intros; (done || congruence || auto). Qed.

Lemma rewrite_kept features signers st l len s s' m :
  rewrite_ok features signers st l len s s' -> meta_of s = Some m ->
  exists m', meta_of s' = Some m' /\ meta_kept features signers st m m'.
Proof.
  intros [] Hm; simplify_eq/=; eauto using meta_kept_same.
  match goal with H1 : meta_of ?s0 = Some _, H2 : meta_change _ _ _ _ ?m1 |- _ =>
    exists m1; split; [by destruct s0|]; by apply meta_change_kept end.
Qed.

Lemma emptied_cases n l s s1 : s1 = emptied n l s -> s1 = s \/ s1 = StakeState.Uninitialized.
Proof. unfold emptied. case_match; auto. Qed.

(** The paying account keeps its authorities and lockup, or is closed. *)
Lemma payer_kept features signers st from to n s s1 d2 m :
  pay_ok features signers st from to n s s1 d2 -> meta_of s = Some m ->
  meta_of s1 = Some m \/
  s1 = StakeState.Uninitialized /\
  (withdrawer (authorized m) ∈ signers /\
     (exists c, clock_of st c /\ unlocked signers (lockup m) c) \/
   staker (authorized m) ∈ signers).
Proof.
  intros [(c & h & Hc & _ & Hw) _ Hs1|t1 _ _ _ _ _ Hsplit|t t1 _ _ _ _ _ -> Hmerge] Hm.
  - apply emptied_cases in Hs1 as [->| ->]; [by left|right]. split; [done|left].
    destruct s; simplify_eq/=; destruct Hw as (? & ? & _); eauto.
  - destruct Hsplit; simplify_eq/=; unfold emptied; case_match; auto.
  - right. split; [done|right].
    by destruct (merge_ok_metas _ _ _ _ _ _ _ _ _ Hmerge Hm) as (? & _ & _ & ? & _).
Qed.

(** The receiving account, if it had authorities, keeps them. *)
Lemma receiver_kept features signers st from to n s s1 d2 t m :
  pay_ok features signers st from to n s s1 d2 ->
  stake_at st to t -> meta_of t = Some m ->
  exists t', decode d2 = Some t' /\ meta_of t' = Some m.
Proof.
  intros [_ -> _|t1 _ _ Ht0 _ _ _|t0 t1 _ _ Ht0 Hd2 _ _ Hmerge] Ht Hm.
  - exists t. done.
  - pose proof (stake_at_inj _ _ _ _ Ht Ht0) as ->. done.
  - pose proof (stake_at_inj _ _ _ _ Ht Ht0) as <-.
    destruct (merge_ok_meta _ _ _ _ _ _ _ _ Hmerge) as [m0 Hs].
    destruct (merge_ok_metas _ _ _ _ _ _ _ _ _ Hmerge Hs) as (m2 & ? & ? & _).
    exists t1. split; [done|]. congruence.
Qed.

(** C29: The authorities and the lockup of a stake account change only with
    the signature, or that of the base of a derived key, of who holds
    them: a new withdrawer needs the old one, and, where the feature
    require_custodian_for_locked_stake_authorize is active, under a lockup
    in force also its custodian; a new staker needs the old one or the
    withdrawer; a new lockup needs the custodian, or the withdrawer once
    it expired. Only the withdrawer, past the lockup, or the staker can
    close the account. *)
Theorem stake_authority_guarded features first accounts input st st' k s m :
  (forall k, 0 <= lamports (acct st k)) ->
  run first accounts features input st = Ok st' ->
  stake_at st k s -> meta_of s = Some m ->
  let signers := get_signers (drop first accounts) in
  (exists s' m', stake_at st' k s' /\ meta_of s' = Some m' /\
     meta_kept features signers st m m') \/
  stake_at st' k StakeState.Uninitialized /\
  (withdrawer (authorized m) ∈ signers /\
     (exists c, clock_of st c /\ unlocked signers (lockup m) c) \/
   staker (authorized m) ∈ signers).
Proof.
  intros Hpos H Hs Hm. cbn zeta. apply stake_instruction_refines in H; [|done].
  destruct H as [k' s0 s' d _ Hs0 Hok Hd _ Hst|from to n s0 s1 d1 d2 Ho Hs0 Hn Hd1 Hl1 Hl2 Hok Hst].
  - left. unfold stake_at in *. rewrite Hst, data_set_data.
    case_decide as Hk; [subst k'|eauto 9 using meta_kept_same].
    rewrite Hs in Hs0. injection Hs0 as <-.
    destruct (rewrite_kept _ _ _ _ _ _ _ _ Hok Hm) as (m' & ? & ?). eauto.
  - pose proof (receiver_kept _ _ _ _ to _ _ _ _ s m Hok) as Hrecv.
    unfold stake_at in *. rewrite Hst. unfold paid. cbn. case_decide as Hf; [subst from|].
    { rewrite Hs in Hs0. injection Hs0 as <-.
      destruct (payer_kept _ _ _ _ _ _ _ _ _ _ Hok Hm) as [?|[-> ?]];
        eauto 9 using meta_kept_same. }
    left. case_decide as Ht; [subst to|eauto 9 using meta_kept_same].
    destruct (Hrecv Hs Hm) as (t' & ? & ?). eauto 9 using meta_kept_same.
Qed.

(** ** Delegations are backed by lamports *)

(** An account with [l] lamports holds its rent reserve, and a delegation not
    deactivated holds its stake on top of it. *)
Definition backed (l : Z) (s : StakeState.t) : Prop :=
  match s with
  | StakeState.Initialized m => 0 <= rent_exempt_reserve m <= l
  | StakeState.Stake m x =>
      0 <= rent_exempt_reserve m <= l /\ is_u64 (stake (delegation x)) /\
      (deactivation_epoch (delegation x) = u64_max ->
       stake (delegation x) + rent_exempt_reserve m <= l)
  | _ => True
  end.

Definition account_backed st k : Prop :=
  owner (acct st k) = stake_program_id -> forall s, stake_at st k s ->
  backed (lamports (acct st k)) s.

Definition data_len st k : Z := Z.of_nat (length (data (acct st k))).

(** A delegation in an account smaller than a new one was split off whole into
    [k]: the new account needs a larger reserve than the old one held. *)
Definition outgrown st st' k : Prop :=
  exists from m x, from <> k /\ stake_at st from (StakeState.Stake m x) /\
    data_len st from < STAKE_STATE_SIZE /\ lamports (acct st' from) = 0 /\
    stake_at st k StakeState.Uninitialized.

(** The deactivation of [k] in this very epoch was rescinded. *)
Definition rescinded features st st' k : Prop :=
  stake_program_v4 features = true /\
  exists m x c, clock_of st c /\ stake_at st k (StakeState.Stake m x) /\
    deactivation_epoch (delegation x) = epoch c /\
    stake_at st' k (StakeState.Stake m
      {| delegation := with_deactivation (delegation x) u64_max;
         credits_observed := credits_observed x |}).

Lemma backed_mono l l' s : l <= l' -> backed l s -> backed l' s.
Proof. destruct s; cbn; intuition lia. Qed.

Lemma meta_change_reserve features signers st m m' :
  meta_change features signers st m m' -> rent_exempt_reserve m' = rent_exempt_reserve m.
Proof. by intros []. Qed.

Lemma rewrite_backed features signers st l len s s' :
  (forall c, clock_of st c -> epoch c < u64_max) -> is_u64 l ->
  rewrite_ok features signers st l len s s' -> backed l s ->
  backed l s' \/
  stake_program_v4 features = true /\
  exists m x c, clock_of st c /\ s = StakeState.Stake m x /\
    deactivation_epoch (delegation x) = epoch c /\
    s' = StakeState.Stake m {| delegation := with_deactivation (delegation x) u64_max;
                               credits_observed := credits_observed x |}.
Proof.
  intros Hclock Hl Hok Hb. destruct Hok as [|m ? ?|s m m' Hm Hch|s m x Hm ? Hst Hde|m x c|m x c ? Hc ?].
  - by left.
  - left. cbn. lia.
  - left. apply meta_change_reserve in Hch. destruct s; simplify_eq/=; rewrite Hch; done.
  - left. cbn. unfold saturating_sub in Hst.
    destruct s; simplify_eq/=; lia.
  - right. split; [done|]. exists m, x, c. done.
  - left. specialize (Hclock c Hc). cbn in *. intuition lia.
Qed.

Lemma split_reserve_le reserve len :
  0 <= reserve <= u64_max -> 0 <= len < 2 ^ 63 ->
  let split := calculate_split_rent_exempt_reserve reserve len STAKE_STATE_SIZE in
  0 <= split /\ (STAKE_STATE_SIZE <= len -> split <= reserve).
Proof.
  intros Hr Hlen. unfold calculate_split_rent_exempt_reserve, wrapping_mul, wrapping_add.
  change (wrap u64_max (STAKE_STATE_SIZE + ACCOUNT_STORAGE_OVERHEAD)) with 328.
  rewrite (wrap_small _ (len + _)) by (unfold ACCOUNT_STORAGE_OVERHEAD; unfold_max; lia). cbn zeta.
  split; [by apply wrap_range|]. unfold STAKE_STATE_SIZE, ACCOUNT_STORAGE_OVERHEAD. intros Hl.
  pose proof (Z.mul_div_le reserve (len + 128) ltac:(lia)). pose proof (Z.div_pos reserve (len + 128)).
  rewrite wrap_small by nia. nia.
Qed.

Lemma split_backed signers k l len l2 n s s1 t1 :
  is_u64 l -> 0 <= l2 -> 0 <= n <= l -> 0 <= len < 2 ^ 63 ->
  split_ok signers k l len l2 STAKE_STATE_SIZE n s s1 t1 -> backed l s ->
  backed (l - n) s1 /\
  (backed (l2 + n) t1 \/ n = l /\ len < STAKE_STATE_SIZE /\ exists m x, s = StakeState.Stake m x).
Proof.
  intros Hl Hl2 Hn Hlen [m x x1 x2 reserve delta amount _ Hres Hleft Hsplit|m reserve _ Hres Hleft|_];
    [| |by auto]; intros Hb; cbn [backed] in Hb.
  - destruct Hb as (Hr & Hx & Hb).
    destruct (split_reserve_le (rent_exempt_reserve m) len ltac:(lia) Hlen) as [Hs0 Hs1].
    fold reserve in Hs0, Hs1. clearbody reserve. unfold Stake_split in Hsplit. inv_ok. to_prop.
    unfold emptied, delta, amount, saturating_sub, wrapping_sub in *. cbn in *.
    destruct (Z.eqb_spec n l) as [->|Hne]; cbn.
    + split; [done|]. destruct (decide (STAKE_STATE_SIZE <= len)) as [Hge|Hlt]; [left|right].
      * specialize (Hs1 Hge). split_and!; lia.
      * split_and!; [done|lia|eauto].
    + rewrite !wrap_small by lia. split; [|left]; intuition lia.
  - destruct (split_reserve_le (rent_exempt_reserve m) len ltac:(lia) Hlen) as [Hs0 _].
    fold reserve in Hs0. clearbody reserve. unfold emptied, saturating_sub in *. cbn in *.
    destruct (Z.eqb_spec n l); cbn; (split; [|left]); intuition lia.
Qed.

Lemma mergeable_cases s l c h ks :
  MergeKind.get_if_mergeable s l c h = Ok ks ->
  match ks with
  | MergeKind.Inactive m l' => l' = l
  | MergeKind.ActivationEpoch m x | MergeKind.FullyActive m x => s = StakeState.Stake m x
  end.
Proof.
  unfold MergeKind.get_if_mergeable. destruct s; intros H; try done; inv_ok; [done|].
  repeat case_match; by inv_ok.
Qed.

Lemma delegations_can_merge_Ok d d' u :
  MergeKind.active_delegations_can_merge d d' = Ok u ->
  deactivation_epoch d = u64_max /\ deactivation_epoch d' = u64_max.
Proof.
  unfold MergeKind.active_delegations_can_merge. intros H. case_if H; [done|].
  case_if H; [|done]. by to_prop.
Qed.

(** Two delegations merge only while neither is deactivated. *)
Lemma merge_delegations u kt ks clock merged x y :
  MergeKind.merge u kt ks clock = Ok merged ->
  MergeKind.active_stake kt = Some x -> MergeKind.active_stake ks = Some y ->
  deactivation_epoch (delegation x) = u64_max /\ deactivation_epoch (delegation y) = u64_max.
Proof.
  unfold MergeKind.merge. intros H Hx Hy. rewrite Hx, Hy in H.
  apply bind_Ok in H as (? & _ & H). apply bind_Ok in H as (? & H & _).
  destruct u; [by eapply delegations_can_merge_Ok|].
  unfold MergeKind.active_stakes_can_merge in H. inv_ok. by eapply delegations_can_merge_Ok.
Qed.

Lemma merge_stake_Ok u x n c x' :
  merge_delegation_stake_and_credits_observed u x n c = Ok x' ->
  stake (delegation x') = stake (delegation x) + n /\
  stake (delegation x) + n <= u64_max /\
  deactivation_epoch (delegation x') = deactivation_epoch (delegation x).
Proof.
  unfold merge_delegation_stake_and_credits_observed, instruction_checked_add. intros H.
  inv_ok. inv_checked. subst. cbn. auto.
Qed.

Lemma merge_backed features signers st l l2 s t t1 :
  0 <= l -> merge_ok features signers st l l2 s t t1 ->
  backed l s -> backed l2 t -> backed (l2 + l) t1.
Proof.
  intros Hl (c & h & ks & kt & merged & _ & _ & Ht & _ & Hs & Hm & ->) Hbs Hbt.
  pose proof (fun x y => merge_delegations _ _ _ _ _ x y Hm) as Hdel.
  apply mergeable_cases in Ht, Hs. unfold MergeKind.merge in Hm. inv_ok.
  destruct kt as [mt lt|mt xt|mt xt], ks as [ms ls|ms xs|ms xs]; inv_ok; cbn [default];
    try (eapply backed_mono; [|done]; lia); subst.
  - unfold instruction_checked_add in *. inv_ok. inv_checked. subst. cbn in *. intuition lia.
  - destruct (Hdel _ _ eq_refl eq_refl) as [Hx Hy].
    match goal with H1 : merge_delegation_stake_and_credits_observed _ _ _ _ = Ok _ |- _ =>
      apply merge_stake_Ok in H1 as (Hs' & ? & Hd') end.
    unfold instruction_checked_add in *. inv_ok. inv_checked. subst.
    cbn in *. rewrite Hs', Hd'. intuition lia.
  - destruct (Hdel _ _ eq_refl eq_refl) as [Hx Hy].
    match goal with H1 : merge_delegation_stake_and_credits_observed _ _ _ _ = Ok _ |- _ =>
      apply merge_stake_Ok in H1 as (Hs' & ? & Hd') end.
    cbn in *. rewrite Hs', Hd'. intuition lia.
Qed.

Lemma exposed_nonneg x c h : is_u64 (stake (delegation x)) -> 0 <= exposed x c h.
Proof.
  intros Hx. unfold exposed. case_match; [|lia].
  by destruct (delegation_status (delegation x) (epoch c) (Some h) Hx).
Qed.

Lemma withdraw_backed features signers st k l n s s1 :
  (forall c, clock_of st c -> epoch c < u64_max) ->
  withdraw_ok features signers st k l n s -> s1 = emptied n l s ->
  backed l s -> backed (l - n) s1.
Proof.
  intros Hclock (c & h & Hc & _ & Hw) -> Hb. unfold emptied.
  destruct (Z.eqb_spec n l) as [|Hne]; [done|]. specialize (Hclock c Hc).
  destruct s as [|m|m x|]; cbn in *; [done| | |done].
  - destruct Hw as (_ & _ & Hw). destruct (stake_program_v4 features); cbn in Hw; intuition lia.
  - destruct Hw as (_ & _ & Hw), Hb as (Hr & Hx & Hb).
    pose proof (exposed_nonneg x c h Hx) as Hexp.
    assert (deactivation_epoch (delegation x) = u64_max ->
      exposed x c h = stake (delegation x)) as Hactive.
    { intros Hd. unfold exposed. rewrite (proj2 (Z.leb_gt _ _)) by lia. done. }
    split_and!; lia.
Qed.

Lemma payer_backed features signers st from to n s s1 d2 :
  (forall c, clock_of st c -> epoch c < u64_max) ->
  is_u64 (lamports (acct st from)) -> 0 <= lamports (acct st to) -> data_len st from < 2 ^ 63 ->
  0 <= n <= lamports (acct st from) -> pay_ok features signers st from to n s s1 d2 ->
  backed (lamports (acct st from)) s -> backed (lamports (acct st from) - n) s1.
Proof.
  intros Hclock Hl Hl2 Hlen Hn [Hw _ Hs1|t1 _ _ _ _ _ Hsplit|t t1 _ _ _ _ _ -> _] Hb; [..|done].
  - by eapply withdraw_backed.
  - destruct (split_backed _ _ _ _ _ _ _ _ _ Hl Hl2 Hn (conj (Zle_0_nat _) Hlen) Hsplit Hb). done.
Qed.

Lemma receiver_backed features signers st from to n s s1 d2 t :
  is_u64 (lamports (acct st from)) -> 0 <= lamports (acct st to) -> data_len st from < 2 ^ 63 ->
  0 <= n <= lamports (acct st from) -> pay_ok features signers st from to n s s1 d2 ->
  backed (lamports (acct st from)) s ->
  account_backed st to -> owner (acct st to) = stake_program_id -> decode d2 = Some t ->
  backed (lamports (acct st to) + n) t \/
  from <> to /\ n = lamports (acct st from) /\ data_len st from < STAKE_STATE_SIZE /\
  (exists m x, s = StakeState.Stake m x) /\ stake_at st to StakeState.Uninitialized.
Proof.
  intros Hl Hl2 Hlen Hn [_ -> _|t1 ? _ ? _ Hd2 Hsplit|t0 t1 _ _ Ht0 Hd2 -> _ Hmerge] Hb Hto Ho Ht;
    [|rewrite Ht in Hd2; injection Hd2 as <-..].
  - left. eapply backed_mono; [|by apply Hto]. lia.
  - destruct (split_backed _ _ _ _ _ _ _ _ _ Hl Hl2 Hn (conj (Zle_0_nat _) Hlen) Hsplit Hb) as [_ [?|?]];
      [by left|right]. naive_solver.
  - left. eapply merge_backed; [lia|done|done|]. by apply Hto.
Qed.

(** C9: Delegations stay backed: if every stake account holds its rent reserve
    and, unless it is being deactivated, the stake it delegates on top of
    it, then the same is true after any stake instruction, with two
    exceptions: an account whose deactivation in the current epoch the
    instruction rescinds, and an account that takes over whole, in a
    split, a delegation from an account of fewer bytes than a new stake
    account has. (Balances are of 64 bits, no account has 2^63 bytes or
    more, and the epoch of the clock is not the last one that can be
    represented.) *)
Theorem delegations_stay_backed features first accounts input st st' :
  (forall k, is_u64 (lamports (acct st k))) -> (forall k, data_len st k < 2 ^ 63) ->
  (forall c, clock_of st c -> epoch c < u64_max) ->
  (forall k, account_backed st k) ->
  run first accounts features input st = Ok st' ->
  forall k, account_backed st' k \/ rescinded features st st' k \/ outgrown st st' k.
Proof.
  intros Hpos Hlen Hclock Hb H k. apply stake_instruction_refines in H; [|apply Hpos].
  destruct H as [k' s0 s' d Ho Hs0 Hok Hd Hl Hst|from to n s0 s1 d1 d2 Ho Hs0 Hn Hd1 Hl1 Hl2 Hok Hst].
  - destruct (decide (k' = k)) as [->|Hne].
    2: { left. unfold account_backed, stake_at. rewrite !Hst, acct_set_data, decide_False by done.
         apply Hb. }
    destruct (rewrite_backed _ _ _ _ _ _ _ Hclock (Hpos k) Hok (Hb k Ho _ Hs0))
      as [Hb'|(Hv4 & m & x & c & Hc & -> & He & ->)].
    + left. intros _ s Hs. unfold stake_at in Hs. rewrite Hst, acct_set_data, decide_True in * by done.
      cbn in *. congruence.
    + right. left. split; [done|]. exists m, x, c. do 3 (split; [done|]).
      unfold stake_at. by rewrite Hst, data_set_data, decide_True.
  - pose proof (Hb from Ho _ Hs0) as Hfrom.
    destruct (decide (to = k /\ from <> k /\ owner (acct st' k) = stake_program_id)) as [(-> & Hne & Hown)|Hother].
    + destruct (decode d2) as [t|] eqn:Ed2; cycle 1.
      { left. intros _ s Hs. unfold stake_at in Hs. rewrite Hst in Hs. unfold paid in Hs. cbn in Hs.
        rewrite decide_False, decide_True in Hs by done. congruence. }
      assert (owner (acct st k) = stake_program_id) as Hok' by (by rewrite Hst in Hown).
      destruct (receiver_backed _ _ _ _ _ _ _ _ _ _ (Hpos from) (proj1 (Hpos k)) (Hlen from) Hn Hok Hfrom
        (Hb k) Hok' Ed2) as [Hk|(_ & -> & Hsh & (m & x & ->) & Hk)]; [left|right; right].
      * intros _ s Hs. unfold stake_at in Hs. rewrite Hst in Hs |- *. unfold paid in *. cbn in *.
        rewrite !decide_False, !decide_True in * by done. eapply backed_mono; [|by simplify_eq]. lia.
      * exists from, m, x. split_and!; try done. rewrite Hst. unfold paid. cbn.
        rewrite decide_True, decide_False by done. lia.
    + left. intros Hown s Hs. unfold stake_at in Hs. rewrite Hst in Hs |- *. unfold paid in *. cbn in *.
      destruct (decide (from = k)) as [->|].
      * rewrite Hd1 in Hs. injection Hs as <-.
        eapply backed_mono; [|eapply payer_backed; try done; apply Hpos]. case_decide; lia.
      * destruct (decide (to = k)) as [->|]; [by destruct Hother|].
        rewrite Hst in Hown. eapply backed_mono; [|by apply Hb]. lia.
Qed.

(** ** Stake can be recovered *)

(** Emptying an account whose limits allow it. *)
Lemma withdraw_all_Ok features me to c h auth custodian st l reserve :
  key me <> key to -> is_signer auth = true ->
  withdraw_limits decode me [key auth] c h (stake_program_v4 features) st = Ok (l, reserve, false) ->
  is_in_force l c (custodian ≫= signer_key) = false ->
  balance st me + reserve <= u64_max -> balance st me + balance st to <= u64_max ->
  (length (encode StakeState.Uninitialized) <= length (data (acct st (key me))))%nat ->
  exists st', stake_withdraw encode decode me (balance st me) to c h auth custodian
      (stake_program_v4 features) st = Ok st' /\
    balance st' me = 0 /\ balance st' to = balance st me + balance st to /\
    stake_at st' (key me) StakeState.Uninitialized.
Proof.
  intros Hne Hsig Hlim Hlock Hres Hsum Hlen. unfold stake_withdraw.
  assert (signer_key auth = Some (key auth)) as -> by (unfold signer_key; by rewrite Hsig).
  cbn. rewrite Hlim. cbn. rewrite Hlock. cbn.
  unfold instruction_checked_add, checked_add at 1. rewrite (proj2 (Z.leb_le _ _)) by lia. cbn.
  rewrite Z.eqb_refl. cbn. unfold set_state.
  rewrite (proj2 (Nat.ltb_ge _ _)) by done. cbn.
  set (st1 := set_data st (key me) _).
  unfold checked_sub_lamports, checked_sub, checked_add_lamports, checked_add, balance in *.
  assert (forall k, lamports (acct st1 k) = lamports (acct st k)) as Hl1
    by (intros k; unfold st1; by rewrite lamports_set_data).
  rewrite Hl1, (proj2 (Z.leb_le _ _)) by lia. cbn.
  rewrite lamports_set_lamports, decide_False, Hl1, (proj2 (Z.leb_le _ _)) by (done || lia). cbn.
  eexists. split; [done|]. unfold stake_at. autorewrite with store.
  unfold st1. rewrite data_set_data. repeat case_decide; try congruence.
  split_and!; [lia|lia|by apply codec].
Qed.

(** Once a delegation is deactivated and fully cooled down and its lockup
    does not bind, its withdrawer can take out everything: the instruction
    succeeds, the account is closed and all its lamports arrive. *)
Theorem inactive_stake_withdrawable features first accounts input st me to auth c h m x :
  decode_instruction input = Some (StakeInstruction.Withdraw (balance st me)) ->
  accounts !! first = Some me -> accounts !! (first + 1)%nat = Some to ->
  clock_at decode_clock st accounts (first + 2) = Ok c ->
  history_account_at decode_history st accounts (first + 3) = Ok h ->
  accounts !! (first + 4)%nat = Some auth ->
  owner (acct st (key me)) = stake_program_id ->
  stake_at st (key me) (StakeState.Stake m x) -> key me <> key to ->
  is_signer auth = true -> key auth = withdrawer (authorized m) ->
  is_in_force (lockup m) c (accounts !! (first + 5)%nat ≫= signer_key) = false ->
  deactivation_epoch (delegation x) <= epoch c ->
  Delegation_stake (delegation x) (epoch c) (Some h) = 0 ->
  balance st me + rent_exempt_reserve m <= u64_max -> rent_exempt_reserve m <= u64_max ->
  balance st me + balance st to <= u64_max ->
  (length (encode StakeState.Uninitialized) <= length (data (acct st (key me))))%nat ->
  exists st', run first accounts features input st = Ok st' /\
    balance st' me = 0 /\ balance st' to = balance st me + balance st to /\
    stake_at st' (key me) StakeState.Uninitialized.
Proof.
  intros Hi Hme Hto Hc Hh Hauth Ho Hs Hne Hsig Hkey Hlock Hde Heff Hres Hres' Hsum Hlen.
  unfold process_stake, keyed_account_at_index. rewrite Hme. cbn.
  rewrite bool_decide_eq_true_2 by done. cbn. rewrite Hi. cbn.
  rewrite Hto. cbn. rewrite Hc. cbn. rewrite Hh. cbn. rewrite Hauth. cbn.
  apply (withdraw_all_Ok _ _ _ _ _ _ _ _ (lockup m) (rent_exempt_reserve m)); try done.
  unfold withdraw_limits, get_state. rewrite Hs. cbn.
  rewrite bool_decide_eq_true_2 by (rewrite Hkey; left). cbn.
  rewrite (proj2 (Z.leb_le _ _)) by done. rewrite Heff.
  unfold instruction_checked_add, checked_add. by rewrite (proj2 (Z.leb_le _ _)) by lia.
Qed.

(** ** A deactivation taken back *)

(** C39: Taking back a deactivation does not look at the balance. With the
    feature stake_program_v4 active, whenever the staker delegates an
    account again to the voter it was deactivated from in this very epoch,
    while some of its stake is still effective, the instruction is
    accepted; the account then delegates the full amount it delegated
    before the deactivation, whatever lamports it has left. If what had
    not become effective was withdrawn in between, the stake is not backed
    by the account's lamports any more. *)
Theorem rescinding_ignores_balance features first accounts input st me vote ca c h g m x v :
  stake_program_v4 features = true ->
  decode_instruction input = Some StakeInstruction.DelegateStake ->
  accounts !! first = Some me -> accounts !! (first + 1)%nat = Some vote ->
  clock_at decode_clock st accounts (first + 2) = Ok c ->
  history_account_at decode_history st accounts (first + 3) = Ok h ->
  accounts !! (first + 4)%nat = Some ca ->
  config_from_account encode_keys decode_keys decode_config st ca = Ok g ->
  owner (acct st (key me)) = stake_program_id -> owner (acct st (key vote)) = vote_program_id ->
  stake_at st (key me) (StakeState.Stake m x) -> decode_vote (data (acct st (key vote))) = Some v ->
  staker (authorized m) ∈ get_signers (drop first accounts) ->
  voter_pubkey (delegation x) = key vote -> deactivation_epoch (delegation x) = epoch c ->
  Delegation_stake (delegation x) (epoch c) (Some h) <> 0 ->
  let x' := {| delegation := with_deactivation (delegation x) u64_max;
               credits_observed := credits_observed x |} in
  (length (encode (StakeState.Stake m x')) <= length (data (acct st (key me))))%nat ->
  exists st', run first accounts features input st = Ok st' /\
    stake_at st' (key me) (StakeState.Stake m x') /\
    stake (delegation x') = stake (delegation x) /\ balance st' me = balance st me /\
    (balance st me < stake (delegation x) + rent_exempt_reserve m -> ~ account_backed st' (key me)).
Proof.
  intros Hv4 Hi Hme Hvote Hc Hh Hca Hg Ho Hov Hs Hv Hsig Hk Hde Heff x' Hlen.
  unfold process_stake, keyed_account_at_index. rewrite Hme. cbn.
  rewrite bool_decide_eq_true_2 by done. cbn. rewrite Hi. cbn.
  rewrite Hvote. cbn. rewrite Hc. cbn. rewrite Hh. cbn. rewrite Hca. cbn. rewrite Hg. cbn.
  unfold stake_delegate, get_state. rewrite bool_decide_eq_true_2 by done. cbn.
  rewrite Hs. cbn. rewrite bool_decide_eq_true_2 by done. cbn. rewrite Hv. cbn.
  unfold redelegate. rewrite (proj2 (Z.eqb_neq _ _)) by done. cbn.
  rewrite bool_decide_eq_true_2, Hde, Z.eqb_refl, Hv4 by done. cbn. fold x'.
  unfold set_state. rewrite (proj2 (Nat.ltb_ge _ _)) by done. cbn.
  eexists. split; [done|]. unfold stake_at, balance. rewrite data_set_data, decide_True, lamports_set_data by done.
  split_and!; [by apply codec|done..|]. intros Hlow Hb.
  specialize (Hb ltac:(by rewrite owner_set_data) (StakeState.Stake m x')).
  unfold stake_at in Hb. rewrite data_set_data, decide_True, lamports_set_data in Hb by done.
  destruct (Hb (codec _ _)) as (_ & _ & Hx). cbn in Hx. specialize (Hx eq_refl). lia.
Qed.
End Guarantees.
