(* ===== verification/StakeSample.v ===== *)
(** * A sample stake account

    The stake theorems applied to concrete accounts, and a run of three
    instructions that leaves a delegation without backing. *)

From stdpp Require Import base gmap list fin_maps strings.
From Stdlib Require Import ZArith Lia SpecFloat.
From S2P Require Import Prelude Sdk Runtime KeyedAccount Codec SystemProgram SystemTheorems ConfigProgram VoteState VoteInstruction VoteTheorems StakeState StakeProofs StakeInstruction StakeTheorems.

(** ** A codec for stake states *)
Definition c_float : codec spec_float.
Proof.
  refine (c_iso (c_pair c_nat (c_pair c_bool (c_pair c_Z c_Z)))
    (fun f => match f with
              | S754_zero b => (0%nat, (b, (1, 0))) | S754_infinity b => (1%nat, (b, (1, 0)))
              | S754_nan => (2%nat, (false, (1, 0)))
              | S754_finite b p z => (3%nat, (b, (Zpos p, z)))
              end)
    (fun '(n, (b, (p, z))) => match n with
              | 0%nat => S754_zero b | 1%nat => S754_infinity b | 2%nat => S754_nan
              | _ => S754_finite b (Z.to_pos p) z
              end) _).
  by intros [].
Defined.

Definition c_meta : codec Meta.
Proof.
  refine (c_iso (c_pair c_Z (c_pair (c_pair c_key c_key) (c_pair c_Z (c_pair c_Z c_key))))
    (fun m => (rent_exempt_reserve m, ((staker (authorized m), withdrawer (authorized m)),
       (lockup_timestamp (lockup m), (lockup_epoch (lockup m), lockup_custodian (lockup m))))))
    (fun '(r, ((s, w), (t, (e, c)))) =>
       {| rent_exempt_reserve := r; authorized := {| staker := s; withdrawer := w |};
          lockup := {| lockup_timestamp := t; lockup_epoch := e; lockup_custodian := c |} |}) _).
  by intros [? [] []].
Defined.

Definition c_stake : codec Stake.
Proof.
  refine (c_iso (c_pair c_key (c_pair c_Z (c_pair c_Z (c_pair c_Z (c_pair c_float c_Z)))))
    (fun x => (voter_pubkey (delegation x), (stake (delegation x),
       (activation_epoch (delegation x), (deactivation_epoch (delegation x),
         (warmup_cooldown_rate (delegation x), credits_observed x))))))
    (fun '(v, (n, (a, (d, (r, o))))) =>
       {| delegation := {| voter_pubkey := v; stake := n; activation_epoch := a;
                           deactivation_epoch := d; warmup_cooldown_rate := r |};
          credits_observed := o |}) _).
  by intros [[]].
Defined.

Definition c_stake_state : codec StakeState.t.
Proof.
  refine (c_iso (c_sum c_unit (c_sum c_meta (c_sum (c_pair c_meta c_stake) c_unit)))
    (fun s => match s with
              | StakeState.Uninitialized => inl tt
              | StakeState.Initialized m => inr (inl m)
              | StakeState.Stake m x => inr (inr (inl (m, x)))
              | StakeState.RewardsPool => inr (inr (inr tt))
              end)
    (fun s => match s with
              | inl _ => StakeState.Uninitialized
              | inr (inl m) => StakeState.Initialized m
              | inr (inr (inl (m, x))) => StakeState.Stake m x
              | inr (inr (inr _)) => StakeState.RewardsPool
              end) _).
  by intros [].
Defined.

Definition c_history : codec StakeHistory.
Proof.
  refine (c_iso (c_list (c_pair c_Z (c_pair c_Z (c_pair c_Z c_Z))))
    (fmap (fun '(e, x) => (e, (effective x, (activating x, deactivating x)))))
    (fmap (fun '(e, (f, (a, d))) =>
             (e, {| effective := f; activating := a; deactivating := d |}))) _).
  intros h. rewrite <- list_fmap_compose. rewrite <- (list_fmap_id h) at 2.
  apply list_fmap_ext. by intros ? [? []] ?.
Defined.

Module StakeSample.
Definition encode : StakeState.t -> list Z := enc c_stake_state.
Definition decode : list Z -> option StakeState.t := decode_prefix c_stake_state.
Lemma stake_codec_ok v rest : decode (encode v ++ rest) = Some v.
Proof. apply decode_prefix_enc. Qed.

Definition decode_instruction (l : list Z) : option StakeInstruction.t :=
  match l with
  | [2] => Some StakeInstruction.DelegateStake
  | [3; n] => if (0 <=? n) && (n <=? u64_max) then Some (StakeInstruction.Split n) else None
  | [4; n] => if (0 <=? n) && (n <=? u64_max) then Some (StakeInstruction.Withdraw n) else None
  | [5] => Some StakeInstruction.Deactivate
  | [7] => Some StakeInstruction.Merge
  | 1 :: 0 :: j => Some (StakeInstruction.Authorize j StakeAuthorize.Staker)
  | 1 :: 1 :: j => Some (StakeInstruction.Authorize j StakeAuthorize.Withdrawer)
  | _ => None
  end.

Lemma decoded input i : decode_instruction input = Some i -> wf_stake_instruction i.
Proof.
  unfold decode_instruction. intros H. repeat case_match; simplify_eq; cbn; try done;
    to_prop; done.
Qed.

Definition k (n : Z) : Pubkey := n :: replicate 31 2.
(** The clock in epoch 10. *)
Definition clock : Clock :=
  {| clock_slot := 320; epoch_start_timestamp := 0; epoch := 10; leader_schedule_epoch := 11;
     unix_timestamp := 60 |}.
Definition clock_bytes (e : Z) : list Z := [320; 0; e; e + 1; 60].
Definition history : StakeHistory :=
  [(9, {| effective := 4000; activating := 2000; deactivating := 100 |});
   (8, {| effective := 4000; activating := 0; deactivating := 0 |})].

(** Stake account [k 1]: staker [k 2], withdrawer [k 3], custodian [k 4],
    delegating 900 lamports to [k 5] since epoch 9. *)
Definition meta : Meta :=
  {| rent_exempt_reserve := 100; authorized := {| staker := k 2; withdrawer := k 3 |};
     lockup := {| lockup_timestamp := 50; lockup_epoch := 3; lockup_custodian := k 4 |} |}.
Definition staked : Stake :=
  {| delegation := Delegation_new (k 5) 900 9 DEFAULT_WARMUP_COOLDOWN_RATE;
     credits_observed := 0 |}.
Definition space : list Z := replicate 200 0.
Definition bytes_of (s : StakeState.t) : list Z := encode s ++ drop (length (encode s)) space.
Definition account (own : Pubkey) (l : Z) (d : list Z) : AccountSharedData :=
  {| lamports := l; data := d; owner := own; executable := false; rent_epoch := 0 |}.
Definition st : store :=
  <[k 1 := account stake_program_id 1000 (bytes_of (StakeState.Stake meta staked))]>
  (<[k 6 := account stake_program_id 0 space]>
  (<[k 5 := account vote_program_id 1 []]>
  (<[stake_config_id := account config_program_id 1 (ConfigSample.encode [])]>
  (<[stake_history_sysvar_id := account (k 9) 1 (enc c_history history)]>
  (<[clock_sysvar_id := account (k 9) 1 (clock_bytes 10)]> ∅))))).

Definition features : StakeFeatures :=
  {| require_custodian_for_locked_stake_authorize := true; stake_program_v4 := true;
     vote_stake_checked_instructions := true;
     stake_merge_with_unmatched_credits_observed := true |}.
Definition info (j : Pubkey) (signer : bool) : AccountInfo :=
  {| key := j; is_signer := signer; is_writable := true |}.
Abbreviation run :=
  (process_stake (@concat Z) encode decode (fun _ => Some (Current VoteState_default))
     VoteSample.decode_clock (decode_prefix c_history) (fun _ => Some Rent_default)
     ConfigSample.encode ConfigSample.decode (fun _ => Some Config_default)
     decode_instruction None 0).
Definition after (st : store) (l : list AccountInfo) (input : list Z) : store :=
  value_or ∅ (run l features input st).
Lemma run_after st l input :
  is_ok (run l features input st) = true -> run l features input st = Ok (after st l input).
Proof. apply is_ok_value. Qed.

(** *** Deactivate, withdraw and delegate again within epoch 10 *)
Definition deactivate_accounts : list AccountInfo :=
  [info (k 1) false; info clock_sysvar_id false; info (k 2) true].
Definition withdraw_accounts : list AccountInfo :=
  [info (k 1) false; info (k 8) false; info clock_sysvar_id false;
   info stake_history_sysvar_id false; info (k 3) true].
Definition delegate_accounts : list AccountInfo :=
  [info (k 1) false; info (k 5) false; info clock_sysvar_id false;
   info stake_history_sysvar_id false; info stake_config_id false; info (k 2) true].
Definition st1 : store := after st deactivate_accounts [5].
Definition st2 : store := after st1 withdraw_accounts [4; 450].

Lemma run1 : run deactivate_accounts features [5] st = Ok st1.
Proof. apply run_after. vm_compute. reflexivity. Qed.
Lemma run2 : run withdraw_accounts features [4; 450] st1 = Ok st2.
Proof. apply run_after. vm_compute. reflexivity. Qed.

(** The stake account [k 1] of 1000 lamports is deactivated, 450 lamports that
    had not become effective are withdrawn, and the deactivation is taken back:
    a delegation of 900 on 550 lamports. *)
Lemma rescinding_ignores_balance_witness :
  run deactivate_accounts features [5] st = Ok st1 /\
  run withdraw_accounts features [4; 450] st1 = Ok st2 /\
  account_backed decode st2 (k 1) /\
  exists st', run delegate_accounts features [2] st2 = Ok st' /\
    stake_at decode st' (k 1) (StakeState.Stake meta staked) /\ stake (delegation staked) = 900 /\
    lamports (acct st' (k 1)) = 550 /\ ~ account_backed decode st' (k 1).
Proof.
  split; [exact run1|]. split; [exact run2|]. split.
  { intros _ s Hs. vm_compute in Hs. injection Hs as <-. vm_compute. intuition congruence. }
  destruct (rescinding_ignores_balance (@concat Z) encode decode
    (fun _ => Some (Current VoteState_default)) VoteSample.decode_clock (decode_prefix c_history)
    (fun _ => Some Rent_default) ConfigSample.encode ConfigSample.decode
    (fun _ => Some Config_default) decode_instruction None stake_codec_ok
    features 0 delegate_accounts [2] st2 (info (k 1) false) (info (k 5) false) (info stake_config_id false)
    clock history Config_default meta
    {| delegation := with_deactivation (delegation staked) 10; credits_observed := 0 |}
    (Current VoteState_default)) as (st' & Hrun & Hs & _ & Hl & Hb);
    [first [vm_compute; reflexivity | vm_compute; discriminate | apply list_elem_of_In; vm_compute; by auto
           | apply Nat.leb_le; vm_compute; reflexivity]..|].
  exists st'. split; [exact Hrun|]. split; [exact Hs|]. split; [reflexivity|].
  split; [refine (eq_trans Hl _); vm_compute; reflexivity|]. apply Hb. vm_compute. reflexivity.
Defined.

Lemma lamports_ok j : is_u64 (lamports (acct st j)).
Proof.
  unfold st, acct. rewrite !lookup_insert, lookup_empty. unfold_max.
  repeat case_decide; cbn; lia.
Qed.

(** *** The ledger theorems at work *)
Lemma stake_lamports_conserved_witness : total_lamports st1 = total_lamports st.
Proof.
  refine (stake_lamports_conserved _ _ _ _ _ _ _ _ _ _ _ _ stake_codec_ok decoded features 0
    deactivate_accounts [5] st st1 _ run1).
  intros j. apply lamports_ok.
Defined.

(** Splitting 300 lamports off into the empty account [k 6]. *)
Definition split_accounts : list AccountInfo :=
  [info (k 1) false; info (k 6) false; info (k 2) true].
Definition st_split : store := after st split_accounts [3; 400].
Lemma run_split : run split_accounts features [3; 400] st = Ok st_split.
Proof. apply run_after. vm_compute. reflexivity. Qed.

Lemma stake_outflow_authorized_witness :
  lamports (acct st_split (k 1)) = 600 /\
  (k 3 ∈ get_signers split_accounts /\
     (exists c, clock_of VoteSample.decode_clock st c /\
        unlocked (@concat Z) (get_signers split_accounts) (lockup meta) c) \/
   k 2 ∈ get_signers split_accounts /\
   exists k2 s2 m2,
     k2 <> k 1 /\ owner (acct st_split k2) = stake_program_id /\
     stake_at decode st_split k2 s2 /\ meta_of s2 = Some m2 /\
     authorized m2 = authorized meta /\
     (lockup m2 = lockup meta \/
      exists c, clock_of VoteSample.decode_clock st c /\
        is_in_force (lockup meta) c None = false /\ is_in_force (lockup m2) c None = false) /\
     lamports (acct st_split k2) - lamports (acct st k2) =
     lamports (acct st (k 1)) - lamports (acct st_split (k 1))).
Proof.
  split; [vm_compute; reflexivity|].
  refine (stake_outflow_authorized _ _ _ _ _ _ _ _ _ _ _ _ stake_codec_ok decoded features 0
    split_accounts [3; 400] st st_split (k 1) (StakeState.Stake meta staked) meta _ run_split
    _ eq_refl _); [intros j; apply lamports_ok|vm_compute; reflexivity..].
Defined.

(** The withdrawer hands over to [k 7]. *)
Definition authorize_accounts : list AccountInfo :=
  [info (k 1) false; info clock_sysvar_id false; info (k 3) true].
Definition st_auth : store := after st authorize_accounts (1 :: 1 :: k 7).
Lemma run_auth : run authorize_accounts features (1 :: 1 :: k 7) st = Ok st_auth.
Proof. apply run_after. vm_compute. reflexivity. Qed.

Lemma stake_authority_guarded_witness :
  (exists s' m', stake_at decode st_auth (k 1) s' /\ meta_of s' = Some m' /\
     meta_kept (@concat Z) VoteSample.decode_clock None features
       (get_signers authorize_accounts) st meta m') \/
  stake_at decode st_auth (k 1) StakeState.Uninitialized /\
  (k 3 ∈ get_signers authorize_accounts /\
     (exists c, clock_of VoteSample.decode_clock st c /\
        unlocked (@concat Z) (get_signers authorize_accounts) (lockup meta) c) \/
   k 2 ∈ get_signers authorize_accounts).
Proof.
  refine (stake_authority_guarded _ _ _ _ _ _ _ _ _ _ _ _ stake_codec_ok decoded features 0
    authorize_accounts (1 :: 1 :: k 7) st st_auth (k 1) (StakeState.Stake meta staked) meta _
    run_auth _ eq_refl); [intros j; apply lamports_ok|vm_compute; reflexivity].
Defined.

Lemma all_backed j : account_backed decode st j.
Proof.
  unfold account_backed, stake_at, st, acct. rewrite !lookup_insert, lookup_empty.
  repeat case_decide; cbn [default data owner account id lamports]; intros Ho s Hs;
    try (vm_compute in Ho; discriminate Ho).
  - vm_compute in Hs. injection Hs as <-. vm_compute. intuition congruence.
  - vm_compute in Hs. injection Hs as <-. vm_compute. done.
Qed.

Lemma data_lens j : data_len st j < 2 ^ 63.
Proof.
  unfold data_len, st, acct. rewrite !lookup_insert, lookup_empty. repeat case_decide; vm_compute; reflexivity.
Qed.

Lemma delegations_stay_backed_witness :
  account_backed decode st_split (k 6) \/
  rescinded decode VoteSample.decode_clock features st st_split (k 6) \/
  outgrown decode st st_split (k 6).
Proof.
  refine (delegations_stay_backed _ _ _ _ _ _ _ _ _ _ _ _ stake_codec_ok decoded features 0
    split_accounts [3; 400] st st_split lamports_ok data_lens _ all_backed run_split (k 6)).
  intros c Hc. vm_compute in Hc. injection Hc as <-. vm_compute. reflexivity.
Defined.

(** A delegation that was deactivated in the epoch it was made. *)
Definition cooled : Stake :=
  {| delegation := with_deactivation (Delegation_new (k 5) 900 8 DEFAULT_WARMUP_COOLDOWN_RATE) 8;
     credits_observed := 0 |}.
Definition st_cooled : store :=
  <[k 1 := account stake_program_id 1000 (bytes_of (StakeState.Stake meta cooled))]> st.

Lemma inactive_stake_withdrawable_witness :
  exists st', run withdraw_accounts features [4; 1000] st_cooled = Ok st' /\
    lamports (acct st' (k 1)) = 0 /\ lamports (acct st' (k 8)) = 1000.
Proof.
  destruct (inactive_stake_withdrawable (@concat Z) encode decode
    (fun _ => Some (Current VoteState_default)) VoteSample.decode_clock (decode_prefix c_history)
    (fun _ => Some Rent_default) ConfigSample.encode ConfigSample.decode
    (fun _ => Some Config_default) decode_instruction None stake_codec_ok
    features 0 withdraw_accounts [4; 1000] st_cooled (info (k 1) false) (info (k 8) false)
    (info (k 3) true) clock history meta cooled) as (st' & Hrun & H1 & H2 & _);
    [vm_compute; (reflexivity || discriminate)..| |].
  - cbn. apply Nat.leb_le. vm_compute. reflexivity.
  - exists st'. split; [exact Hrun|]. split; [exact H1|]. refine (eq_trans H2 _).
    vm_compute. reflexivity.
Defined.

(** *** The pure theorems at work *)
Lemma history_descending : descending history.
Proof. repeat constructor; cbn; lia. Qed.

Lemma history_refines_map_witness :
  let x := {| effective := 5000; activating := 7; deactivating := 0 |} in
  StakeHistory.get (StakeHistory.add history 10 x) 10 = Some x /\
  contents (StakeHistory.add history 10 x) = <[10 := x]> (contents history).
Proof.
  cbn zeta. set (x := {| effective := 5000; activating := 7; deactivating := 0 |}).
  split; [vm_compute; reflexivity|].
  destruct (history_refines_map history 10 x history_descending) as (_ & _ & _ & H & _).
  apply H. left. apply Nat.ltb_lt. vm_compute. reflexivity.
Defined.

Lemma epoch_loops_terminate_witness :
  exists v, forall fuel, (3 <= fuel)%nat ->
    activation_loop fuel (delegation staked) history 20 9
      {| effective := 4000; activating := 2000; deactivating := 100 |} 0 = Some v.
Proof.
  refine (proj1 (epoch_loops_terminate (delegation staked) history 20 9 _ 0 _ _));
    [lia|unfold_max; lia].
Defined.

Lemma cluster_stake_bounds_witness :
  new_stake_history_entry 10 [delegation staked; delegation cooled] (Some history)
  = {| effective := 450; activating := 450; deactivating := 0 |} /\
  450 + 450 <= total_stake [delegation staked; delegation cooled].
Proof.
  assert (new_stake_history_entry 10 [delegation staked; delegation cooled] (Some history)
    = {| effective := 450; activating := 450; deactivating := 0 |}) as E
    by (vm_compute; reflexivity).
  split; [exact E|].
  destruct (cluster_stake_bounds [delegation staked; delegation cooled] 10 (Some history))
    as (_ & _ & _ & H & _); [|by rewrite E in H].
  repeat constructor; vm_compute; discriminate.
Defined.

(** A delegation of two lamports warms up within range. *)
Definition small : Delegation := Delegation_new (k 5) 2 9 DEFAULT_WARMUP_COOLDOWN_RATE.

Lemma small_no_overflow l : Some history = Some l -> no_overflow small l.
Proof.
  intros [= <-] e x part Hx Hact Hpart. cbn in Hpart.
  assert (part = 0 \/ part = 1 \/ part = 2) as Hp by lia.
  unfold history in Hx. rewrite !elem_of_cons in Hx.
  destruct Hx as [Hx|[Hx|Hx%not_elem_of_nil]]; [..|done]; injection Hx as -> ->;
    [destruct Hp as [->|[->| ->]]; vm_compute; discriminate|by destruct Hact].
Qed.

Lemma stake_ramps_witness :
  Delegation_stake small 9 (Some history) <= Delegation_stake small 12 (Some history).
Proof.
  destruct (stake_ramps small (Some history) 9 12) as [H _].
  - vm_compute; split; discriminate.
  - split; [vm_compute; discriminate|]. split; [vm_compute; split; discriminate|].
    right. vm_compute. discriminate.
  - exact small_no_overflow.
  - unfold_max. lia.
  - apply H. vm_compute. reflexivity.
Defined.

(** Credits of epochs 8 and 9, redeemed once. *)
Definition voted : VoteState :=
  Build_VoteState (node_pubkey VoteState_default) (authorized_withdrawer VoteState_default)
    10 [] None (authorized_voters VoteState_default) (prior_voters VoteState_default)
    [(9, 30, 20); (10, 45, 30)] (last_timestamp VoteState_default).
Definition pool : PointValue := {| rewards := 500; points := 20000 |}.
Definition redeemed : Stake :=
  {| delegation := with_stake (delegation staked) 1051; credits_observed := 45 |}.

Lemma credits_paid_once_witness :
  redeem_stake_rewards 10 redeemed pool voted (Some history) true = Ok None \/
  redeem_stake_rewards 10 redeemed pool voted (Some history) true = Ok (Some (redeemed, (0, 0))).
Proof.
  apply (credits_paid_once 10 staked pool voted (Some history) true redeemed (151, 16));
    [cbn; lia|vm_compute; reflexivity].
Defined.

Lemma merged_credits_exact_witness :
  exists c', stake_weighted_credits_observed staked 100 50 = Some c' /\ 0 <= c' <= 50.
Proof.
  destruct (merged_credits_exact staked 100 50) as (c' & H & Hc & _);
    [unfold_max; cbn; lia..|]. exists c'. split; [exact H|]. cbn in Hc. lia.
Defined.
End StakeSample.
