(* ===== verification/BankRewards.v ===== *)
(** * The bank's epoch rewards

    Models the payment of a round of inflation rewards by the bank
    ([pay_validator_rewards_with_thread_pool] of
    [src/testnet/runtime/src/bank.rs]): the points of all delegations are added
    up, each delegation redeems its share, and the vote accounts receive their
    commissions.  The threads only share sums and the store of distinct
    accounts; the model visits the accounts in the order of a list, and the
    theorems hold for every list. *)

From stdpp Require Import base gmap list fin_maps strings.
From Stdlib Require Import ZArith Lia SpecFloat.
From S2P Require Import Prelude Sdk Runtime KeyedAccount Codec SystemProgram VoteState VoteProofs VoteInstruction StakeState StakeProofs StakeInstruction StakeTheorems StakeSample.

Module RewardType.
Inductive t : Type := Fee | Rent | Staking | Voting.
End RewardType.

Record RewardInfo := {
  reward_type : RewardType.t;
  tock : Z;
  post_balance : Z;
  reward_commission : option Z;
}.

(** [x as i64] *)
Definition i64_max : Z := 9223372036854775807.
Definition as_i64 (x : Z) : Z := if x <=? i64_max then x else x - (u64_max + 1).

Record VoteWithStakeDelegations := {
  vote_state : VoteState;
  vote_account : AccountSharedData;
  delegations : list (Pubkey * (StakeState.t * AccountSharedData));
}.

Section Rewards.
Context (encode : StakeState.t -> list Z).
Context (rewarded_epoch : Epoch) (stake_history : StakeHistory)
  (fix_activating_credits_observed : bool).

(** [calculate_points(..).unwrap_or(0)] *)
Definition points_of (vs : VoteState) (s : StakeState.t) : Z :=
  match calculate_points s vs (Some stake_history) with Ok p => p | _ => 0 end.

(** [.sum::<u128>()] *)
Definition sum_u128 (l : list Z) : Z := foldl (wrapping_add u128_max) 0 l.

Definition delegation_points (vs : VoteState)
    (d : Pubkey * (StakeState.t * AccountSharedData)) : Z :=
  points_of vs (fst (snd d)).

Definition group_points (g : VoteWithStakeDelegations) : list Z :=
  delegation_points (vote_state g) <$> delegations g.

Definition total_points (groups : list (Pubkey * VoteWithStakeDelegations)) : Z :=
  sum_u128 ((fun g => sum_u128 (group_points (snd g))) <$> groups).

(** The store, the list of rewards, and the voter's sum so far. *)
Record PayState := {
  ps_store : store;
  ps_rewards : list (Pubkey * RewardInfo);
  vote_rewards_sum : Z;
  vote_needs_store : bool;
}.

(** One delegation; a failed redemption is only reported. *)
Definition pay_stake (point_value : PointValue) (vs : VoteState) (ps : PayState)
    (d : Pubkey * (StakeState.t * AccountSharedData)) : instruction_result PayState :=
  let '(stake_pubkey, (stake_state, stake_account)) := d in
  match redeem_rewards encode rewarded_epoch stake_state stake_account vs point_value
          (Some stake_history) fix_activating_credits_observed with
  | Ok (a, (stakers_reward, voters_reward)) =>
      Ok {| ps_store := <[stake_pubkey := a]> (ps_store ps);
            ps_rewards :=
              if 0 <? stakers_reward
              then ps_rewards ps ++
                     [(stake_pubkey,
                       {| reward_type := RewardType.Staking; tock := as_i64 stakers_reward;
                          post_balance := lamports a;
                          reward_commission := Some (commission vs) |})]
              else ps_rewards ps;
            vote_rewards_sum :=
              saturating_add u64_max (vote_rewards_sum ps) voters_reward;
            vote_needs_store := true |}
  | Err _ => Ok ps
  | Panic => Panic
  end.

Fixpoint pay_stakes (point_value : PointValue) (vs : VoteState) (ps : PayState)
    (l : list (Pubkey * (StakeState.t * AccountSharedData))) : instruction_result PayState :=
  match l with
  | [] => Ok ps
  | d :: l => ps ← pay_stake point_value vs ps d; pay_stakes point_value vs ps l
  end.

(** What is owed to a vote account: the account, its commission, the sum of
    its rewards and whether it must be stored. *)
Abbreviation VoteReward := (AccountSharedData * Z * Z * bool)%type.

Fixpoint pay_groups (point_value : PointValue) (st : store)
    (infos : list (Pubkey * RewardInfo)) (groups : list (Pubkey * VoteWithStakeDelegations))
  : instruction_result (store * list (Pubkey * RewardInfo) * list (Pubkey * VoteReward)) :=
  match groups with
  | [] => Ok (st, infos, [])
  | (vote_pubkey, g) :: groups =>
      ps ← pay_stakes point_value (vote_state g)
             {| ps_store := st; ps_rewards := infos; vote_rewards_sum := 0;
                vote_needs_store := false |} (delegations g);
      '(st, infos, votes) ← pay_groups point_value (ps_store ps) (ps_rewards ps) groups;
      Ok (st, infos,
          (vote_pubkey, (vote_account g, commission (vote_state g), vote_rewards_sum ps,
                         vote_needs_store ps)) :: votes)
  end.

Fixpoint pay_votes (st : store) (votes : list (Pubkey * VoteReward))
  : store * list (Pubkey * RewardInfo) :=
  match votes with
  | [] => (st, [])
  | (vote_pubkey, (account, c, vote_rewards, needs_store)) :: votes =>
      match account_add_lamports account vote_rewards with
      | Ok a =>
          let st := if (needs_store : bool) then <[vote_pubkey := a]> st else st in
          let '(st, infos) := pay_votes st votes in
          (st, if 0 <? vote_rewards
               then (vote_pubkey,
                     {| reward_type := RewardType.Voting; tock := as_i64 vote_rewards;
                        post_balance := lamports a; reward_commission := Some c |}) :: infos
               else infos)
      | _ => pay_votes st votes
      end
  end.

(** The store and the rewards paid. *)
Definition pay_validator_rewards (rewards : Z) (st : store)
    (groups : list (Pubkey * VoteWithStakeDelegations))
  : instruction_result (store * list (Pubkey * RewardInfo)) :=
  let points := total_points groups in
  if points =? 0 then Ok (st, [])
  else
    '(st, stake_rewards, votes) ←
      pay_groups {| StakeState.rewards := rewards; points := points |} st [] groups;
    let '(st, vote_rewards) := pay_votes st votes in
    Ok (st, vote_rewards ++ stake_rewards).
End Rewards.

(** ** A round of rewards stays within its pool *)

Definition zsum (l : list Z) : Z := foldr Z.add 0 l.

Lemma zsum_app l1 l2 : zsum (l1 ++ l2) = zsum l1 + zsum l2.
Proof.
  induction l1 as [|x l1 IH]; [done|]. cbn. fold (zsum (l1 ++ l2)) (zsum l1). lia.
Qed.

Lemma zsum_nonneg l : Forall (fun z => 0 <= z) l -> 0 <= zsum l.
Proof. induction 1 as [|x l Hx _ IH]; cbn; [lia|]. fold (zsum l). lia. Qed.

Lemma sum_u128_exact l :
  Forall (fun z => 0 <= z) l -> zsum l <= u128_max -> sum_u128 l = zsum l.
Proof.
  unfold sum_u128. intros Hl Hm.
  assert (forall acc, 0 <= acc -> acc + zsum l <= u128_max ->
    foldl (wrapping_add u128_max) acc l = acc + zsum l) as H; [|apply H; lia].
  clear Hm. induction Hl as [|z l Hz Hl IH]; intros acc Ha Hm; cbn in *; [lia|].
  fold (zsum l) in *.
  pose proof (zsum_nonneg l Hl). unfold wrapping_add at 2. rewrite wrap_small by lia.
  rewrite IH; lia.
Qed.

(** What a list of rewards pays. *)
Definition paid_out (infos : list (Pubkey * RewardInfo)) : Z :=
  zsum ((fun i => tock (snd i)) <$> infos).

Lemma paid_out_app l1 l2 : paid_out (l1 ++ l2) = paid_out l1 + paid_out l2.
Proof. unfold paid_out. by rewrite fmap_app, zsum_app. Qed.

(** The addresses of the vote accounts and of their delegations. *)
Definition group_keys (g : Pubkey * VoteWithStakeDelegations) : list Pubkey :=
  fst g :: (fst <$> delegations (snd g)).
Definition reward_keys (groups : list (Pubkey * VoteWithStakeDelegations)) : list Pubkey :=
  concat (group_keys <$> groups).

(** The accounts of a group are those of the store. *)
Definition loaded_from (st : store) (g : Pubkey * VoteWithStakeDelegations) : Prop :=
  vote_account (snd g) = acct st (fst g) /\
  Forall (fun d => snd (snd d) = acct st (fst d)) (delegations (snd g)).

Lemma loaded_elsewhere st st' groups :
  (forall k, k ∈ reward_keys groups -> acct st' k = acct st k) ->
  Forall (loaded_from st) groups -> Forall (loaded_from st') groups.
Proof.
  intros Hk Hl. apply Forall_forall. intros g Hg. pose proof (proj1 (Forall_forall _ _) Hl g Hg) as [Hv Hd].
  assert (forall k, k ∈ group_keys g -> acct st' k = acct st k) as Hg'.
  { intros k Hin. apply Hk. apply list_elem_of_In, in_concat. exists (group_keys g).
    split; apply list_elem_of_In; [by apply list_elem_of_fmap_2|done]. }
  split; [by rewrite Hg' by left|].
  apply Forall_forall. intros d Hin. rewrite Hg'; [by eapply Forall_forall in Hd|].
  right. by apply list_elem_of_fmap_2.
Qed.

Section Pool.
Context (encode : StakeState.t -> list Z).
Context (rewarded_epoch : Epoch) (stake_history : StakeHistory) (fix_ : bool).
Context (pv : PointValue).
Hypothesis pv_rewards : 0 <= rewards pv <= i64_max.
Hypothesis pv_points : 0 < points pv.
Hypothesis pv_product : points pv * rewards pv <= u128_max.
Implicit Types (st : store).

Abbreviation pts := (delegation_points stake_history).

Lemma points_of_nonneg vs s : 0 <= points_of stake_history vs s.
Proof.
  unfold points_of, calculate_points. destruct s as [| |m x|]; cbn; try lia.
  unfold calculate_stake_points, calculate_stake_points_and_credits. case_match; [cbn; lia|].
  assert (forall l acc, 0 <= fst acc ->
    0 <= fst (foldl (epoch_points x (Some stake_history)) acc l)) as Hfold; [|by apply Hfold].
  induction l as [|[[e f] i] l IH]; intros [p o] Hp; [done|]. cbn [foldl]. apply IH.
  cbn -[wrapping_add]. apply wrap_range. unfold_max; lia.
Qed.

(** [pays ps ps' p keys]: from [ps] to [ps'], delegations with [p] points, at
    the addresses [keys], were paid no more than [p] points are worth. *)
Definition pays (ps ps' : PayState) (p : Z) (keys : list Pubkey) : Prop :=
  exists s v, 0 <= s /\ 0 <= v /\ (s + v) * points pv <= p * rewards pv /\
    total_lamports (ps_store ps') = total_lamports (ps_store ps) + s /\
    paid_out (ps_rewards ps') = paid_out (ps_rewards ps) + s /\
    vote_rewards_sum ps <= vote_rewards_sum ps' <= vote_rewards_sum ps + v /\
    (vote_needs_store ps' = false -> ps' = ps) /\
    (forall k, k ∉ keys -> acct (ps_store ps') k = acct (ps_store ps) k).

Lemma pays_nothing ps p keys : 0 <= p -> pays ps ps p keys.
Proof. intros Hp. exists 0, 0. split_and!; try done; nia. Qed.

Lemma pays_trans ps1 ps2 ps3 p q k l :
  pays ps1 ps2 p k -> pays ps2 ps3 q l -> pays ps1 ps3 (p + q) (k ++ l).
Proof.
  intros (s & v & ? & ? & ? & ? & ? & ? & Hn & Ha) (s' & v' & ? & ? & ? & ? & ? & ? & Hn' & Ha').
  exists (s + s'), (v + v'). split_and!; try lia.
  - intros E. pose proof (Hn' E) as ->. auto.
  - intros j [? ?]%not_elem_of_app. by rewrite Ha', Ha.
Qed.

(** One delegation. *)
Lemma pay_stake_pays vs ps d :
  0 <= commission vs -> pts vs d <= points pv ->
  snd (snd d) = acct (ps_store ps) (fst d) -> 0 <= vote_rewards_sum ps <= i64_max ->
  exists ps', pay_stake encode rewarded_epoch stake_history fix_ pv vs ps d = Ok ps' /\
    pays ps ps' (pts vs d) [fst d].
Proof.
  unfold delegation_points. destruct d as [k [s a]]. cbn [fst snd]. intros Hc Hp -> Hv0.
  pose proof (points_of_nonneg vs s) as Hp0.
  assert (exists ps', Ok (E := InstructionError.t) ps = Ok ps' /\
    pays ps ps' (points_of stake_history vs s) [k]) as Hskip by eauto using pays_nothing.
  unfold pay_stake, redeem_rewards. destruct s as [| |m x|]; try exact Hskip.
  unfold redeem_stake_rewards.
  destruct (calculate_stake_rewards_total rewarded_epoch x pv vs (Some stake_history) fix_)
    as (r & -> & Hr); [done|cbn in *; lia|unfold i64_max in *; unfold_max; lia|cbn in *; nia|].
  cbn. destruct r as [[[sr vr] o]|]; cbn; [|exact Hskip].
  destruct Hr as (Hsr & Hvr & Hsum).
  destruct (account_add_lamports (acct (ps_store ps) k) sr) as [a|e|] eqn:Ha; cbn;
    [|exact Hskip|unfold account_add_lamports, ok_or in Ha; case_match; done].
  destruct (account_set_state encode a _) as [a'|e|] eqn:Hs; cbn [mbind result_bind];
    [|exact Hskip|unfold account_set_state, fail_if in Hs; case_match; done].
  eexists. split; [reflexivity|]. exists sr, vr.
  cbn [ps_store ps_rewards vote_rewards_sum vote_needs_store].
  assert (lamports a' = lamports (acct (ps_store ps) k) + sr) as Hl.
  { unfold account_set_state, account_add_lamports in *. inv_ok. inv_checked. by subst. }
  assert (sr <= i64_max) as Hi.
  { cbn in Hp, Hsum. assert (sr * points pv <= points pv * rewards pv) by nia. nia. }
  split_and!; try done.
  - rewrite total_insert. lia.
  - destruct (Z.ltb_spec 0 sr); [|lia]. rewrite paid_out_app. cbn. unfold as_i64.
    rewrite (proj2 (Z.leb_le _ _)) by done. lia.
  - unfold saturating_add, i64_max in *. unfold_max. lia.
  - unfold saturating_add. lia.
  - intros j [Hj _]%not_elem_of_cons. rewrite acct_insert. by rewrite decide_False by congruence.
Qed.

Lemma pts_nonneg vs l : Forall (fun z => 0 <= z) (pts vs <$> l).
Proof. apply Forall_fmap, Forall_true. intros d. apply points_of_nonneg. Qed.

(** What [p] points earn is bounded by the rewards of the round. *)
Lemma pays_bounded ps ps' p keys :
  pays ps ps' p keys -> p <= points pv ->
  vote_rewards_sum ps' <= vote_rewards_sum ps + rewards pv.
Proof. intros (s & v & ? & ? & ? & _ & _ & ? & _) ?. nia. Qed.

(** The delegations of a vote account. *)
Lemma pay_stakes_pays vs l : 0 <= commission vs -> NoDup (fst <$> l) ->
  forall p0 keys0 ps0 ps, pays ps0 ps p0 keys0 -> vote_rewards_sum ps0 = 0 -> 0 <= p0 ->
  p0 + zsum (pts vs <$> l) <= points pv ->
  Forall (fun d => snd (snd d) = acct (ps_store ps) (fst d)) l ->
  exists ps', pay_stakes encode rewarded_epoch stake_history fix_ pv vs ps l = Ok ps' /\
    pays ps0 ps' (p0 + zsum (pts vs <$> l)) (keys0 ++ (fst <$> l)).
Proof.
  intros Hc. induction l as [|d l IH]; intros Hnd p0 keys0 ps0 ps Hpays Hz Hp0 Hp Hl.
  { exists ps. cbn. by rewrite Z.add_0_r, app_nil_r. }
  rewrite fmap_cons in *. apply NoDup_cons in Hnd as [Hd Hnd].
  apply Forall_cons in Hl as [Hda Hl]. cbn [zsum foldr] in Hp.
  fold (zsum (pts vs <$> l)) in Hp.
  pose proof (zsum_nonneg _ (pts_nonneg vs l)). pose proof (points_of_nonneg vs (fst (snd d)) : 0 <= pts vs d).
  pose proof (pays_bounded _ _ _ _ Hpays ltac:(lia)).
  destruct (pay_stake_pays vs ps d) as (ps' & E & Hd'); [done|lia|done| |].
  { destruct Hpays as (? & ? & ?). lia. }
  cbn [pay_stakes]. rewrite E. cbn [mbind result_bind].
  destruct (IH Hnd (p0 + pts vs d) (keys0 ++ [fst d]) ps0 ps') as (ps'' & E' & H');
    [eauto using pays_trans|done|lia|lia| |].
  - destruct Hd' as (_ & _ & _ & _ & _ & _ & _ & _ & _ & Ha).
    apply Forall_forall. intros d' Hin. rewrite Ha; [by eapply Forall_forall in Hl|].
    rewrite list_elem_of_singleton. intros Eq. apply Hd. rewrite <-Eq. by apply list_elem_of_fmap_2.
  - exists ps''. split; [done|]. rewrite <-app_assoc in H'. cbn [zsum foldr].
    by rewrite Z.add_assoc.
Qed.

Definition vote_sum (v : Pubkey * (AccountSharedData * Z * Z * bool)) : Z := snd (fst (snd v)).

Definition groups_points (groups : list (Pubkey * VoteWithStakeDelegations)) : Z :=
  zsum ((fun g => zsum (group_points stake_history (snd g))) <$> groups).

Lemma groups_points_nonneg groups : 0 <= groups_points groups.
Proof.
  apply zsum_nonneg, Forall_fmap, Forall_true. intros g. apply zsum_nonneg, pts_nonneg.
Qed.

(** An entry of the vote rewards is worth paying: it names the account of the
    store, and an account that is not stored is owed nothing. *)
Definition vote_entry_ok st (v : Pubkey * (AccountSharedData * Z * Z * bool)) : Prop :=
  let '(k, (a, _, r, needs)) := v in
  a = acct st k /\ 0 <= r <= i64_max /\ (needs = false -> r = 0).

(** All vote accounts. *)
Lemma pay_groups_pays groups : forall st infos,
  Forall (fun g => 0 <= commission (vote_state (snd g))) groups ->
  NoDup (reward_keys groups) ->
  groups_points groups <= points pv -> Forall (loaded_from st) groups ->
  exists st' infos' votes s,
    pay_groups encode rewarded_epoch stake_history fix_ pv st infos groups
      = Ok (st', infos', votes) /\
    0 <= s /\ (s + zsum (vote_sum <$> votes)) * points pv <= groups_points groups * rewards pv /\
    total_lamports st' = total_lamports st + s /\ paid_out infos' = paid_out infos + s /\
    (fst <$> votes) = (fst <$> groups) /\ Forall (vote_entry_ok st') votes /\
    (forall k, k ∉ reward_keys groups -> acct st' k = acct st k).
Proof.
  induction groups as [|[vk g] groups IH]; intros st infos Hc Hnd Hp Hl.
  { exists st, infos, [], 0. cbn. split_and!; try done; try lia. }
  apply Forall_cons in Hc as [Hc0 Hc]. apply Forall_cons in Hl as [[Hv0 Hd0] Hl].
  unfold reward_keys in Hnd. cbn [fmap list_fmap concat fst snd] in *.
  apply NoDup_app in Hnd as (Hng & Hdis & Hnd). apply NoDup_cons in Hng as [Hvk Hng].
  fold (reward_keys groups) in *.
  change (groups_points ((vk, g) :: groups))
    with (zsum (group_points stake_history g) + groups_points groups) in *.
  pose proof (groups_points_nonneg groups). pose proof (zsum_nonneg _ (pts_nonneg (vote_state g) (delegations g))).
  unfold group_points in *.
  destruct (pay_stakes_pays (vote_state g) (delegations g) Hc0 Hng 0 [] _ _
    (pays_nothing {| ps_store := st; ps_rewards := infos; vote_rewards_sum := 0;
                vote_needs_store := false |} 0 [] (Z.le_refl 0))) as (ps & E & Hps);
    [done|done|lia|done|]. cbn [app] in Hps. rewrite Z.add_0_l in Hps.
  pose proof (pays_bounded _ _ _ _ Hps ltac:(lia)) as Hb.
  destruct Hps as (s & v & ? & ? & ? & ? & ? & ? & Hn & Ha). cbn [ps_store ps_rewards vote_rewards_sum] in *.
  destruct (IH (ps_store ps) (ps_rewards ps)) as (st' & infos' & votes & s' & E' & ? & ? & ? & ? & Hk & Hok & Ha');
    [done|done|lia| |].
  { revert Hl. apply loaded_elsewhere. intros k Hin. apply Ha. intros Hin'. by apply (Hdis k); [right|]. }
  exists st', infos', ((vk, (vote_account g, commission (vote_state g), vote_rewards_sum ps,
                         vote_needs_store ps)) :: votes), (s + s').
  cbn [pay_groups]. rewrite E. cbn [mbind result_bind]. rewrite E'. cbn [mbind result_bind].
  cbn [fmap list_fmap zsum foldr fst snd vote_sum]. fold (zsum (vote_sum <$> votes)).
  split_and!; try lia; try done.
  - assert (vote_rewards_sum ps * points pv <= v * points pv) by nia. nia.
  - cbn. by f_equal.
  - constructor; [|done]. cbn. rewrite Ha', Ha; [|done|intros Hin; by apply (Hdis vk); [left|]].
    split_and!; [done|lia..|]. intros Hf. by rewrite (Hn Hf).
  - intros k Hk'. unfold reward_keys in Hk'. cbn in Hk'.
    apply not_elem_of_cons in Hk' as [_ [? ?]%not_elem_of_app]. by rewrite Ha', Ha.
Qed.
End Pool.

Lemma total_points_exact h groups :
  groups_points h groups <= u128_max -> total_points h groups = groups_points h groups.
Proof.
  unfold total_points, groups_points. intros Hm.
  assert (((fun g => sum_u128 (group_points h (snd g))) <$> groups)
    = ((fun g => zsum (group_points h (snd g))) <$> groups)) as E.
  { induction groups as [|g groups IH]; [done|]. cbn in Hm.
    pose proof (zsum_nonneg _ (pts_nonneg h (vote_state (snd g)) (delegations (snd g)))).
    pose proof (groups_points_nonneg h groups). unfold groups_points, group_points, zsum in *.
    cbn. rewrite IH by lia. f_equal. apply sum_u128_exact; [apply pts_nonneg|unfold zsum; lia]. }
  rewrite E. apply sum_u128_exact; [|done].
  apply Forall_fmap, Forall_true. intros g. apply zsum_nonneg, pts_nonneg.
Qed.

Lemma vote_key_in groups k : k ∈ fst <$> groups -> k ∈ reward_keys groups.
Proof.
  intros (g & -> & Hg)%list_elem_of_fmap_1. apply list_elem_of_In, in_concat.
  exists (group_keys g). split; apply list_elem_of_In; [by apply list_elem_of_fmap_2|by left].
Qed.

Lemma NoDup_vote_keys groups : NoDup (reward_keys groups) -> NoDup (fst <$> groups).
Proof.
  induction groups as [|g groups IH]; [constructor|]. unfold reward_keys. cbn.
  rewrite NoDup_cons, NoDup_app. intros (Hk & _ & _ & Hn).
  constructor; [|by apply IH]. intros Hin. apply Hk, elem_of_app. right. by apply vote_key_in.
Qed.

(** The vote accounts receive their sums. *)
Lemma pay_votes_pays votes : forall st,
  Forall (vote_entry_ok st) votes -> NoDup (fst <$> votes) ->
  let '(st', infos) := pay_votes st votes in
  total_lamports st' = total_lamports st + paid_out infos /\
  0 <= paid_out infos <= zsum (vote_sum <$> votes) /\
  (forall j, j ∉ fst <$> votes -> acct st' j = acct st j).
Proof.
  induction votes as [|[k [[[a c] r] needs]] votes IH]; intros st Hok Hnd;
    [cbn; split_and!; [lia..|done]|].
  apply Forall_cons in Hok as [(-> & Hr & Hneeds) Hok]. apply NoDup_cons in Hnd as [Hk Hnd].
  cbn [fmap list_fmap zsum foldr]. fold (zsum (vote_sum <$> votes)). cbn [vote_sum fst snd].
  assert (forall j, j ∉ k :: (fst <$> votes) -> j <> k /\ j ∉ fst <$> votes) as Hout
    by (intros j; by rewrite not_elem_of_cons).
  cbn [pay_votes]. destruct (account_add_lamports (acct st k) r) as [a|e|] eqn:Ha;
    [|specialize (IH st Hok Hnd); destruct (pay_votes st votes); destruct IH as (? & ? & IH);
      split_and!; [lia..|intros j [_ Hj]%Hout; by apply IH]..].
  assert (lamports a = lamports (acct st k) + r) as Hl.
  { unfold account_add_lamports in Ha. inv_ok. inv_checked. by subst. }
  set (st1 := if needs then <[k:=a]> st else st).
  assert (total_lamports st1 = total_lamports st + r) as Ht.
  { unfold st1. destruct needs; [rewrite total_insert; lia|]. specialize (Hneeds eq_refl). lia. }
  assert (forall j, j <> k -> acct st1 j = acct st j) as Hst1.
  { intros j Hj. unfold st1. destruct needs; [|done]. rewrite acct_insert.
    by rewrite decide_False by congruence. }
  assert (Forall (vote_entry_ok st1) votes) as Hok1.
  { apply Forall_forall. intros [j [[[b d] q] n]] Hj.
    destruct (proj1 (Forall_forall _ _) Hok _ Hj) as (-> & ? & ?).
    split_and!; try lia; auto. rewrite Hst1; [done|]. intros ->. apply Hk.
    by apply (list_elem_of_fmap_2 fst) in Hj. }
  specialize (IH st1 Hok1 Hnd). destruct (pay_votes st1 votes) as [st' infos].
  destruct IH as (IHt & IHp & IHk).
  assert (forall j, j ∉ k :: (fst <$> votes) -> acct st' j = acct st j) as Hframe
    by (intros j [? Hj]%Hout; by rewrite IHk, Hst1).
  destruct (Z.ltb_spec 0 r); [|split_and!; [lia..|done]].
  unfold paid_out in *. cbn [fmap list_fmap zsum foldr snd tock].
  fold (zsum ((fun i => tock (snd i)) <$> infos)).
  unfold as_i64. rewrite (proj2 (Z.leb_le _ _)) by lia. split_and!; [lia..|done].
Qed.


Module RewardsSample.
Import StakeSample.

(** The sample stake is the only delegation of vote account [k 5]. *)
Definition groups : list (Pubkey * VoteWithStakeDelegations) :=
  [(k 5, {| vote_state := voted; vote_account := acct st (k 5);
            delegations := [(k 1, (StakeState.Stake meta staked, acct st (k 1)))] |})].
Definition round : store * list (Pubkey * RewardInfo) :=
  value_or (∅, []) (pay_validator_rewards encode 10 history true 1000 st groups).

Lemma round_pays :
  pay_validator_rewards encode 10 history true 1000 st groups = Ok round /\
  (fun i => (fst i, tock (snd i))) <$> snd round = [(k 5, 100); (k 1, 900)].
Proof. split; [apply is_ok_value; vm_compute; reflexivity|vm_compute; reflexivity]. Qed.

End RewardsSample.
