(* ===== verification/StakesCache.v ===== *)
(** * The bank's cache of stakes

    Models [src/testnet/runtime/src] [vote_account.rs], [stakes.rs] and
    [epoch_stakes.rs].  The bank keeps the delegations of all stake accounts
    and, for every vote account, the stake delegated to it.  Storing an account
    updates the sums ([store]); a new epoch recomputes them
    ([activate_epoch], formerly [clone_with_epoch]).  [VoteAccounts] also holds
    the stake of each validator identity, computed on first use and updated
    from then on.  [EpochStakes] is the snapshot that fork choice and the
    leader schedule read.

    Decoders of account data are arguments.  [HashMap]s are finite maps; where
    the source visits one, the order is that of [map_to_list], and the theorems
    do not depend on it.  Unchecked sums wrap. *)

From stdpp Require Import base gmap list fin_maps strings.
From Stdlib Require Import ZArith Lia.
From S2P Require Import Prelude Sdk Runtime KeyedAccount MapOrder VoteState VoteInstruction StakeState StakeInstruction.

(** ** Vote accounts *)

(** A vote account and the stake delegated to it. *)
Abbreviation VoteAccountsHashMap := (gmap Pubkey (Z * AccountSharedData)).

Module VoteAccounts.
(** [staked_nodes] is [None] until [staked_nodes_once] has completed. *)
Record t := {
  vote_accounts : VoteAccountsHashMap;
  staked_nodes : option (gmap Pubkey Z) }.
End VoteAccounts.

Definition DEFAULT_PRIOR_VOTERS_OFFSET : nat := 82.

(** ** The cache *)
Record Stakes := {
  vote_accounts : VoteAccounts.t;
  stake_delegations : gmap Pubkey Delegation;
  unused : Z;
  epoch : Epoch;
  stake_history : StakeHistory }.

Section Stakes.
Context (decode_vote : list Z -> option VoteStateVersions).
Context (vote_state_size_of : nat).
Context (decode_stake : list Z -> option StakeState.t).

(** [VoteState::deserialize], through [VoteAccount::vote_state] *)
Definition vote_state (a : AccountSharedData) : option VoteState :=
  convert_to_current <$> decode_vote (data a).

Definition account_node_pubkey (a : AccountSharedData) : option Pubkey :=
  node_pubkey <$> vote_state a.

(** [Some(acc.unwrap_or_default() + stake)] *)
Definition aggregate_node (m : gmap Pubkey Z) (node : Pubkey) (n : Z) : gmap Pubkey Z :=
  <[node := wrapping_add u64_max (default 0 (m !! node)) n]> m.

(** One account of the sum by validator: unstaked accounts and those whose
    state cannot be read do not count. *)
Definition count_node (m : gmap Pubkey Z) (v : Z * AccountSharedData) : gmap Pubkey Z :=
  if negb (fst v =? 0) then
    match account_node_pubkey (snd v) with
    | Some node => aggregate_node m node (fst v)
    | None => m
    end
  else m.

Definition compute_staked_nodes (m : VoteAccountsHashMap) : gmap Pubkey Z :=
  foldl count_node ∅ (snd <$> map_to_list m).

Definition staked_nodes (self : VoteAccounts.t) : gmap Pubkey Z * VoteAccounts.t :=
  match VoteAccounts.staked_nodes self with
  | Some nodes => (nodes, self)
  | None =>
      let nodes := compute_staked_nodes (VoteAccounts.vote_accounts self) in
      (nodes, {| VoteAccounts.vote_accounts := VoteAccounts.vote_accounts self;
                 VoteAccounts.staked_nodes := Some nodes |})
  end.

Definition with_nodes (self : VoteAccounts.t) (nodes : gmap Pubkey Z) : VoteAccounts.t :=
  {| VoteAccounts.vote_accounts := VoteAccounts.vote_accounts self;
     VoteAccounts.staked_nodes := Some nodes |}.
Definition with_accounts (self : VoteAccounts.t) (m : VoteAccountsHashMap) : VoteAccounts.t :=
  {| VoteAccounts.vote_accounts := m;
     VoteAccounts.staked_nodes := VoteAccounts.staked_nodes self |}.

Definition add_node_stake (self : VoteAccounts.t) (n : Z) (a : AccountSharedData)
  : VoteAccounts.t :=
  match VoteAccounts.staked_nodes self with
  | Some nodes =>
      if negb (n =? 0) then
        match account_node_pubkey a with
        | Some node =>
            with_nodes self
              match nodes !! node with
              | Some s => <[node := wrapping_add u64_max s n]> nodes
              | None => <[node := n]> nodes
              end
        | None => self
        end
      else self
  | None => self
  end.

Definition sub_node_stake (self : VoteAccounts.t) (n : Z) (a : AccountSharedData)
  : result Empty_set VoteAccounts.t :=
  match VoteAccounts.staked_nodes self with
  | Some nodes =>
      if negb (n =? 0) then
        match account_node_pubkey a with
        | Some node =>
            match nodes !! node with
            | None => Panic
            | Some s =>
                match s ?= n with
                | Lt => Panic
                | Eq => Ok (with_nodes self (delete node nodes))
                | Gt => Ok (with_nodes self (<[node := s - n]> nodes))
                end
            end
        | None => Ok self
        end
      else Ok self
  | None => Ok self
  end.

Definition VoteAccounts_insert (self : VoteAccounts.t) (k : Pubkey) (v : Z * AccountSharedData)
  : result Empty_set VoteAccounts.t :=
  let self := add_node_stake self (fst v) (snd v) in
  let m := VoteAccounts.vote_accounts self in
  let self := with_accounts self (<[k := v]> m) in
  match m !! k with
  | Some (n, a) => sub_node_stake self n a
  | None => Ok self
  end.

Definition VoteAccounts_remove (self : VoteAccounts.t) (k : Pubkey)
  : result Empty_set (option (Z * AccountSharedData) * VoteAccounts.t) :=
  let m := VoteAccounts.vote_accounts self in
  let self := with_accounts self (delete k m) in
  match m !! k with
  | Some (n, a) => self ← sub_node_stake self n a; Ok (Some (n, a), self)
  | None => Ok (None, self)
  end.

Definition add_stake (self : VoteAccounts.t) (k : Pubkey) (delta : Z) : VoteAccounts.t :=
  let m := VoteAccounts.vote_accounts self in
  match m !! k with
  | Some (n, a) =>
      add_node_stake (with_accounts self (<[k := (wrapping_add u64_max n delta, a)]> m)) delta a
  | None => self
  end.

Definition sub_stake (self : VoteAccounts.t) (k : Pubkey) (delta : Z)
  : result Empty_set VoteAccounts.t :=
  let m := VoteAccounts.vote_accounts self in
  match m !! k with
  | Some (n, a) =>
      n ← unwrap (checked_sub n delta);
      sub_node_stake (with_accounts self (<[k := (n, a)]> m)) delta a
  | None => Ok self
  end.

(** ** Stakes *)

(** [.sum::<u64>()] *)
Definition sum_u64 (l : list Z) : Z := foldl (wrapping_add u64_max) 0 l.

Definition calculate_stake (self : Stakes) (voter : Pubkey) (e : Epoch)
    (history : option StakeHistory) : Z :=
  sum_u64 ((fun p => if bool_decide (voter_pubkey (snd p) = voter)
                     then Delegation_stake (snd p) e history else 0)
             <$> map_to_list (stake_delegations self)).

Definition clone_with_epoch (self : Stakes) (next_epoch : Epoch) : Stakes :=
  let prev_epoch := epoch self in
  if prev_epoch =? next_epoch then self
  else
    let stake_history_upto_prev_epoch :=
      StakeHistory.add (stake_history self) prev_epoch
        (new_stake_history_entry prev_epoch (snd <$> map_to_list (stake_delegations self))
           (Some (stake_history self))) in
    {| vote_accounts :=
         {| VoteAccounts.vote_accounts :=
              map_imap (fun k v =>
                Some (calculate_stake self k next_epoch (Some stake_history_upto_prev_epoch),
                      snd v))
                (VoteAccounts.vote_accounts (vote_accounts self));
            VoteAccounts.staked_nodes := None |};
       stake_delegations := stake_delegations self;
       unused := unused self;
       epoch := next_epoch;
       stake_history := stake_history_upto_prev_epoch |}.

(** [vote_delegations]: the delegations of each vote account *)
Definition group_delegation (g : gmap Pubkey (list Delegation)) (d : Delegation)
  : gmap Pubkey (list Delegation) :=
  <[voter_pubkey d := default [] (g !! voter_pubkey d) ++ [d]]> g.
Definition group_delegations (m : gmap Pubkey Delegation) : gmap Pubkey (list Delegation) :=
  foldl group_delegation ∅ (snd <$> map_to_list m).

(** [.reduce(StakeActivationStatus::default, |a, b| a + b)] *)
Definition reduce_status (l : list StakeHistoryEntry) : StakeHistoryEntry :=
  foldl StakeHistoryEntry_add StakeHistoryEntry_default l.

Definition activate_epoch (self : Stakes) (next_epoch : Epoch) : Stakes :=
  let prev_epoch := epoch self in
  let vote_delegations := group_delegations (stake_delegations self) in
  let stake_history_entry :=
    reduce_status
      ((fun g =>
          reduce_status
            ((fun d => stake_activating_and_deactivating d prev_epoch
                         (Some (stake_history self))) <$> snd g))
         <$> map_to_list vote_delegations) in
  let history := StakeHistory.add (stake_history self) prev_epoch stake_history_entry in
  let vote_accounts_for_next_epoch :=
    map_imap (fun k v =>
      let delegated_stake :=
        match vote_delegations !! k with
        | Some ds => sum_u64 ((fun d => Delegation_stake d next_epoch (Some history)) <$> ds)
        | None => 0
        end in
      Some (delegated_stake, snd v))
      (VoteAccounts.vote_accounts (vote_accounts self)) in
  {| vote_accounts := {| VoteAccounts.vote_accounts := vote_accounts_for_next_epoch;
                         VoteAccounts.staked_nodes := None |};
     stake_delegations := stake_delegations self;
     unused := unused self;
     epoch := next_epoch;
     stake_history := history |}.

Definition vote_balance_and_staked (self : Stakes) : Z :=
  wrapping_add u64_max
    (sum_u64 ((fun p => stake (snd p)) <$> map_to_list (stake_delegations self)))
    (sum_u64 ((fun p => lamports (snd (snd p)))
                <$> map_to_list (VoteAccounts.vote_accounts (vote_accounts self)))).

(** [data.len() != VoteState::size_of() || data[4..86] == [0; 82]] *)
Definition is_uninitialized_no_deser (d : list Z) : bool :=
  negb (length d =? vote_state_size_of)%nat ||
  bool_decide (take DEFAULT_PRIOR_VOTERS_OFFSET (drop 4 d)
               = replicate DEFAULT_PRIOR_VOTERS_OFFSET 0).

Definition delegation_from (a : AccountSharedData) : option Delegation :=
  match decode_stake (data a) with
  | Some (StakeState.Stake _ s) => Some (delegation s)
  | _ => None
  end.

Definition with_vote_accounts (self : Stakes) (v : VoteAccounts.t) : Stakes :=
  {| vote_accounts := v; stake_delegations := stake_delegations self; unused := unused self;
     epoch := epoch self; stake_history := stake_history self |}.
Definition with_delegations (self : Stakes) (m : gmap Pubkey Delegation) : Stakes :=
  {| vote_accounts := vote_accounts self; stake_delegations := m; unused := unused self;
     epoch := epoch self; stake_history := stake_history self |}.

Definition store_vote (self : Stakes) (k : Pubkey) (account : AccountSharedData)
  : result Empty_set Stakes :=
  '(old, v) ← VoteAccounts_remove (vote_accounts self) k;
  if negb (lamports account =? 0) && negb (is_uninitialized_no_deser (data account)) then
    let n :=
      match old with
      | Some (n, _) => n
      | None => calculate_stake self k (epoch self) (Some (stake_history self))
      end in
    v ← VoteAccounts_insert v k (n, account);
    Ok (with_vote_accounts self v)
  else Ok (with_vote_accounts self v).

(** [if stake != old_stake { .. }] *)
Definition adjust_stake (v : VoteAccounts.t) (old_stake new_stake : option (Pubkey * Z))
  : result Empty_set VoteAccounts.t :=
  if bool_decide (new_stake <> old_stake) then
    v ← match old_stake with
        | Some (voter, n) => sub_stake v voter n
        | None => Ok v
        end;
    Ok match new_stake with
       | Some (voter, n) => add_stake v voter n
       | None => v
       end
  else Ok v.

Definition store_stake (self : Stakes) (k : Pubkey) (account : AccountSharedData)
    (remove_delegation_on_inactive : bool) : result Empty_set Stakes :=
  let stake_now d := Delegation_stake d (epoch self) (Some (stake_history self)) in
  let old_stake := (fun d => (voter_pubkey d, stake_now d)) <$> stake_delegations self !! k in
  let delegation := delegation_from account in
  let new_stake :=
    (fun d => (voter_pubkey d, if negb (lamports account =? 0) then stake_now d else 0))
      <$> delegation in
  v ← adjust_stake (vote_accounts self) old_stake new_stake;
  let self := with_vote_accounts self v in
  let remove_delegation :=
    if remove_delegation_on_inactive
    then match delegation with None => true | Some _ => false end
    else lamports account =? 0 in
  if remove_delegation then Ok (with_delegations self (delete k (stake_delegations self)))
  else match delegation with
       | Some d => Ok (with_delegations self (<[k := d]> (stake_delegations self)))
       | None => Ok self
       end.

Definition store (self : Stakes) (k : Pubkey) (account : AccountSharedData)
    (remove_delegation_on_inactive : bool) : result Empty_set Stakes :=
  if bool_decide (owner account = vote_program_id) then store_vote self k account
  else if bool_decide (owner account = stake_program_id) then
    store_stake self k account remove_delegation_on_inactive
  else Ok self.

Definition is_stake (size_of_StakeState : nat) (account : AccountSharedData) : bool :=
  bool_decide (owner account = vote_program_id) ||
  bool_decide (owner account = stake_program_id) &&
    (size_of_StakeState <=? length (data account))%nat.

(** [max_by] keeps the last of equal elements. *)
Definition highest_staked_node (self : Stakes) : option Pubkey :=
  best ← foldl (fun best p =>
                  match best with
                  | Some b => if fst (snd b) <=? fst (snd p) then Some p else best
                  | None => Some p
                  end) None (map_to_list (VoteAccounts.vote_accounts (vote_accounts self)));
  node_pubkey <$> vote_state (snd (snd best)).

(** ** The snapshot of an epoch *)
Record NodeVoteAccounts := {
  node_vote_accounts : list Pubkey;
  node_total_stake : Z }.

Record EpochStakes := {
  stakes : Stakes;
  total_stake : Z;
  node_id_to_vote_accounts : gmap Pubkey NodeVoteAccounts;
  epoch_authorized_voters : gmap Pubkey Pubkey }.

Definition NodeVoteAccounts_default : NodeVoteAccounts :=
  {| node_vote_accounts := []; node_total_stake := 0 |}.

(** One account of [parse_epoch_vote_accounts]. *)
Definition parse_vote_account (leader_schedule_epoch : Epoch)
    (acc : gmap Pubkey NodeVoteAccounts * gmap Pubkey Pubkey)
    (p : Pubkey * (Z * AccountSharedData))
  : gmap Pubkey NodeVoteAccounts * gmap Pubkey Pubkey :=
  let '(nodes, voters) := acc in
  let '(k, (n, account)) := p in
  match vote_state account with
  | None => acc
  | Some vs =>
      if 0 <? n then
        match AuthorizedVoters_get (authorized_voters vs) leader_schedule_epoch with
        | Some authorized_voter =>
            let nva := default NodeVoteAccounts_default (nodes !! node_pubkey vs) in
            (<[node_pubkey vs :=
                 {| node_vote_accounts := node_vote_accounts nva ++ [k];
                    node_total_stake := wrapping_add u64_max (node_total_stake nva) n |}]> nodes,
             <[k := authorized_voter]> voters)
        | None => acc
        end
      else acc
  end.

Definition parse_epoch_vote_accounts (m : VoteAccountsHashMap) (leader_schedule_epoch : Epoch)
  : Z * gmap Pubkey NodeVoteAccounts * gmap Pubkey Pubkey :=
  let total := sum_u64 ((fun p => fst (snd p)) <$> map_to_list m) in
  let '(nodes, voters) :=
    foldl (parse_vote_account leader_schedule_epoch) (∅, ∅) (map_to_list m) in
  (total, nodes, voters).

Definition EpochStakes_new (s : Stakes) (leader_schedule_epoch : Epoch) : EpochStakes :=
  let '(total, nodes, voters) :=
    parse_epoch_vote_accounts (VoteAccounts.vote_accounts (vote_accounts s))
      leader_schedule_epoch in
  {| stakes := s; total_stake := total; node_id_to_vote_accounts := nodes;
     epoch_authorized_voters := voters |}.
End Stakes.

Definition vote_account_stake (self : EpochStakes) (k : Pubkey) : Z :=
  match VoteAccounts.vote_accounts (vote_accounts (stakes self)) !! k with
  | Some (n, _) => n
  | None => 0
  end.
