(* ===== verification/StakesProofs.v ===== *)
(** * The cache of stakes is exact

    Proofs about [StakesCache]: the sums that [store] updates are those that
    [calculate_stake] and [compute_staked_nodes] recompute from the
    delegations, and the faster change of epochs gives the same cache as the
    one it replaced. *)

From stdpp Require Import base gmap list fin_maps strings.
From Stdlib Require Import ZArith Lia.
From S2P Require Import Prelude Sdk Runtime KeyedAccount MapOrder VoteState VoteInstruction StakeState StakeProofs StakeInstruction StakesCache.

(** ** Sums of machine integers *)
Lemma sum_u64_wrap l : sum_u64 l = wrap u64_max (lsum id l).
Proof.
  unfold sum_u64. assert (forall acc, foldl (wrapping_add u64_max) (wrap u64_max acc) l
    = wrap u64_max (acc + lsum id l)) as H.
  { induction l as [|x l IH]; intros acc; cbn; [by rewrite Z.add_0_r|].
    unfold wrapping_add at 2.
    replace (wrap u64_max (wrap u64_max acc + x)) with (wrap u64_max (acc + x))
      by (unfold wrap; by rewrite Zplus_mod_idemp_l).
    rewrite IH. unfold id. f_equal. lia. }
  specialize (H 0). by rewrite wrap_small in H.
Qed.

Lemma lsum_fmap {A B} (g : A -> B) (f : B -> Z) l : lsum f (g <$> l) = lsum (fun x => f (g x)) l.
Proof. induction l as [|x l IH]; cbn; [done|]. by rewrite IH. Qed.

Section Cache.
Context (decode_vote : list Z -> option VoteStateVersions).

Abbreviation node_of := (account_node_pubkey decode_vote).
Abbreviation accounts := VoteAccounts.vote_accounts.

(** The stake of the accounts of a validator. *)
Definition node_total (m : VoteAccountsHashMap) (node : Pubkey) : Z :=
  wsum (fun _ v => if bool_decide (node_of (snd v) = Some node) then fst v else 0) m.

(** A sum by validators holds those with stake. *)
Definition nodes_ok (nodes : gmap Pubkey Z) (total : Pubkey -> Z) : Prop :=
  forall node, nodes !! node = if total node =? 0 then None else Some (total node).

Lemma nodes_ok_ext nodes t t' : (forall node, t node = t' node) -> nodes_ok nodes t -> nodes_ok nodes t'.
Proof. intros E H node. by rewrite H, E. Qed.

(** What [n] of stake in account [a] is to a validator. *)
Definition share (n : Z) (a : AccountSharedData) (node : Pubkey) : Z :=
  if bool_decide (node_of a = Some node) then n else 0.

Lemma add_node_stake_ok self nodes n a t :
  VoteAccounts.staked_nodes self = Some nodes -> nodes_ok nodes t ->
  0 <= n -> (forall node, 0 <= t node /\ t node + share n a node <= u64_max) ->
  exists nodes', add_node_stake decode_vote self n a = with_nodes self nodes' /\
    nodes_ok nodes' (fun node => t node + share n a node).
Proof.
  intros Hs Hn Hpos Ht. unfold add_node_stake. rewrite Hs.
  assert (Hsame : (forall node, share n a node = 0) -> nodes_ok nodes (fun node => t node + share n a node)).
  { intros Hz. eapply nodes_ok_ext; [|exact Hn]. intros node. cbn. rewrite Hz. lia. }
  assert (Hid : self = with_nodes self nodes) by (destruct self; cbn in *; by rewrite Hs).
  destruct (Z.eqb_spec n 0) as [->|Hn0]; cbn.
  { exists nodes. split; [done|]. apply Hsame. intros node. unfold share. by case_bool_decide. }
  destruct (node_of a) as [node|] eqn:Ea; [|exists nodes; split; [done|]; apply Hsame;
    intros x; unfold share; rewrite Ea; by case_bool_decide].
  eexists. split; [reflexivity|]. intros x. unfold share. rewrite Ea.
  pose proof (Ht node) as Hb. unfold share in Hb. rewrite Ea, bool_decide_true in Hb by done.
  rewrite (Hn node). destruct (decide (node = x)) as [<-|Hx].
  - rewrite bool_decide_true by done. destruct (Z.eqb_spec (t node) 0) as [E|E].
    + rewrite lookup_insert_eq. destruct (Z.eqb_spec (t node + n) 0); [lia|f_equal; lia].
    + rewrite lookup_insert_eq. unfold wrapping_add. rewrite wrap_small by lia.
      destruct (Z.eqb_spec (t node + n) 0); [lia|done].
  - rewrite bool_decide_false by congruence. rewrite Z.add_0_r, <- Hn.
    by case_match; rewrite lookup_insert_ne.
Qed.

Lemma sub_node_stake_ok self nodes n a t :
  VoteAccounts.staked_nodes self = Some nodes -> nodes_ok nodes t ->
  0 <= n -> (forall node, share n a node <= t node) ->
  exists nodes', sub_node_stake decode_vote self n a = Ok (with_nodes self nodes') /\
    nodes_ok nodes' (fun node => t node - share n a node).
Proof.
  intros Hs Hn Hpos Ht. unfold sub_node_stake. rewrite Hs.
  assert (Hsame : (forall node, share n a node = 0) -> nodes_ok nodes (fun node => t node - share n a node)).
  { intros Hz. eapply nodes_ok_ext; [|exact Hn]. intros node. cbn. rewrite Hz. lia. }
  assert (Hid : self = with_nodes self nodes) by (destruct self; cbn in *; by rewrite Hs).
  destruct (Z.eqb_spec n 0) as [->|Hn0]; cbn.
  { exists nodes. split; [by f_equal|]. apply Hsame. intros node. unfold share. by case_bool_decide. }
  destruct (node_of a) as [node|] eqn:Ea; [|exists nodes; split; [by f_equal|]; apply Hsame;
    intros x; unfold share; rewrite Ea; by case_bool_decide].
  pose proof (Ht node) as Hb. unfold share in Hb. rewrite Ea, bool_decide_true in Hb by done.
  rewrite (Hn node). destruct (Z.eqb_spec (t node) 0) as [E|E]; [lia|].
  destruct (Z.compare_spec (t node) n) as [E2|E2|E2]; [| lia |];
    (eexists; split; [reflexivity|]); intros x; unfold share; rewrite Ea;
    (destruct (decide (node = x)) as [<-|Hx];
      [rewrite bool_decide_true by done|rewrite bool_decide_false by congruence]).
  - rewrite lookup_delete_eq. destruct (Z.eqb_spec (t node - n) 0); [done|lia].
  - rewrite lookup_delete_ne, Z.sub_0_r by done. apply Hn.
  - rewrite lookup_insert_eq. destruct (Z.eqb_spec (t node - n) 0); [lia|done].
  - rewrite lookup_insert_ne, Z.sub_0_r by done. apply Hn.
Qed.

(** Computing the sums from scratch. *)
Lemma count_node_add nodes n a :
  is_u64 n ->
  add_node_stake decode_vote {| accounts := ∅; VoteAccounts.staked_nodes := Some nodes |} n a
  = {| accounts := ∅; VoteAccounts.staked_nodes := Some (count_node decode_vote nodes (n, a)) |}.
Proof.
  intros Hn. unfold add_node_stake, count_node, aggregate_node. cbn.
  destruct (negb (n =? 0)); [|done]. destruct (node_of a) as [node|]; [|done].
  unfold with_nodes. cbn. do 2 f_equal. destruct (nodes !! node); [done|]. cbn.
  unfold wrapping_add. by rewrite wrap_small.
Qed.

Abbreviation entry := (Pubkey * (Z * AccountSharedData))%type.
Definition list_total (l : list entry) (node : Pubkey) : Z :=
  lsum (fun p => share (fst (snd p)) (snd (snd p)) node) l.

Lemma list_total_nonneg l node : (forall p : entry, p ∈ l -> is_u64 (fst (snd p))) -> 0 <= list_total l node.
Proof.
  intros Hall. apply lsum_nonneg. intros p Hp. specialize (Hall p Hp).
  unfold share. case_bool_decide; lia.
Qed.

Lemma count_nodes_ok l nodes t :
  (forall p : entry, p ∈ l -> is_u64 (fst (snd p))) ->
  nodes_ok nodes t -> (forall node, 0 <= t node) ->
  (forall node, t node + list_total l node <= u64_max) ->
  nodes_ok (foldl (count_node decode_vote) nodes (snd <$> l)) (fun node => t node + list_total l node).
Proof.
  revert nodes t. induction l as [|[k [n a]] l IH]; intros nodes t Hall Hn Ht Hmax; cbn.
  { eapply nodes_ok_ext; [|exact Hn]. intros node. cbn. lia. }
  assert (Hu : is_u64 n) by (apply (Hall (k, (n, a))); set_solver).
  assert (Hl : forall p, p ∈ l -> is_u64 (fst (snd p))) by set_solver.
  assert (Hsh : forall node, 0 <= share n a node) by (intros; unfold share; case_bool_decide; lia).
  assert (Hb : forall node, 0 <= t node /\ t node + share n a node <= u64_max).
  { intros node. specialize (Hmax node). specialize (Ht node). cbn in Hmax.
    pose proof (list_total_nonneg l node Hl). unfold list_total in *. lia. }
  destruct (add_node_stake_ok {| accounts := ∅; VoteAccounts.staked_nodes := Some nodes |}
    nodes n a t eq_refl Hn ltac:(lia) Hb) as (nodes' & E & Hok).
  rewrite count_node_add in E by done. inversion E as [E']. subst nodes'.
  eapply nodes_ok_ext; [|apply (IH _ _ Hl Hok)].
  - intros node. cbn. unfold list_total. lia.
  - intros node. specialize (Hb node). specialize (Hsh node). cbn. lia.
  - intros node. specialize (Hmax node). cbn in *. unfold list_total in *. lia.
Qed.

Lemma compute_staked_nodes_ok m :
  (forall k v, m !! k = Some v -> is_u64 (fst v)) -> (forall node, node_total m node <= u64_max) ->
  nodes_ok (compute_staked_nodes decode_vote m) (node_total m).
Proof.
  intros Hall Hmax. change (node_total m) with (fun node => 0 + list_total (map_to_list m) node).
  apply (count_nodes_ok _ ∅ (fun _ => 0)); [|intros node; cbn; by rewrite lookup_empty|done|done].
  intros [k v] Hp%elem_of_map_to_list. by apply (Hall k).
Qed.

(** ** Vote accounts and delegations

    [w] is what a delegation counts in the epoch, [D] the delegations. *)
Section Weights.
Context (w : Delegation -> Z).
Implicit Types (D : gmap Pubkey Delegation) (va : VoteAccounts.t).

Definition delegated D (voter : Pubkey) : Z :=
  wsum (fun _ d => if bool_decide (voter_pubkey d = voter) then w d else 0) D.
Definition total D : Z := wsum (fun _ d => w d) D.

Definition weights_ok D : Prop :=
  (forall k d, D !! k = Some d -> 0 <= w d) /\ total D <= u64_max.

Record accounts_ok D va : Prop := {
  sums_ok : forall k (n : Z) (a : AccountSharedData), accounts va !! k = Some (n, a) -> n = delegated D k;
  cache_ok : forall nodes, VoteAccounts.staked_nodes va = Some nodes ->
    nodes_ok nodes (node_total (accounts va)) }.

Lemma weights_ok_delete D k : weights_ok D -> weights_ok (delete k D).
Proof.
  intros [Hw Ht]. split.
  - intros j d [_ Hj]%lookup_delete_Some. by apply (Hw j).
  - unfold total in *. rewrite wsum_delete. destruct (D !! k) as [d|] eqn:E; cbn; [|lia].
    specialize (Hw k d E). lia.
Qed.

Lemma delegated_range D voter : weights_ok D -> 0 <= delegated D voter <= u64_max.
Proof.
  intros [Hw Ht]. unfold total in Ht. split.
  - apply wsum_nonneg. intros k d Hk. specialize (Hw k d Hk). by case_bool_decide.
  - etrans; [|exact Ht]. apply wsum_le. intros k d Hk. specialize (Hw k d Hk).
    by case_bool_decide.
Qed.

Lemma delegated_delete D k d voter :
  D !! k = Some d ->
  delegated (delete k D) voter = delegated D voter - if bool_decide (voter_pubkey d = voter) then w d else 0.
Proof. intros E. unfold delegated. rewrite wsum_delete, E. done. Qed.

Lemma delegated_insert D k d voter :
  D !! k = None ->
  delegated (<[k := d]> D) voter = delegated D voter + if bool_decide (voter_pubkey d = voter) then w d else 0.
Proof. intros E. unfold delegated. rewrite wsum_insert_new by done. lia. Qed.

(** The accounts hold no more than was delegated. *)
Lemma accounts_total D (m : VoteAccountsHashMap) :
  weights_ok D -> (forall k n a, m !! k = Some (n, a) -> n = delegated D k) ->
  wsum (fun _ v => fst v) m <= u64_max.
Proof.
  intros [Hw Ht] Hs. etrans; [|exact Ht].
  replace (wsum (fun _ v => fst v) m) with (wsum (fun k (_ : Z * AccountSharedData) => delegated D k) m)
    by (apply wsum_ext; intros k [n a] Hk; symmetry; by apply (Hs k n a)).
  unfold wsum at 1, delegated, wsum. rewrite lsum_swap.
  apply lsum_le. intros [j d] Hj%elem_of_map_to_list. cbn.
  specialize (Hw j d Hj).
  destruct (decide (voter_pubkey d ∈ (map_to_list m).*1)) as [Hin|Hout].
  - transitivity (lsum (fun x => if bool_decide (voter_pubkey d = x) then w d else 0)
                    (map_to_list m).*1).
    { rewrite lsum_fmap. done. }
    rewrite (lsum_single (voter_pubkey d)); [by rewrite bool_decide_true| |done|].
    + apply NoDup_fst_map_to_list.
    + intros x _ Hx. by rewrite bool_decide_false.
  - rewrite lsum_zero; [done|]. intros [x v] Hx. cbn. rewrite bool_decide_false; [done|].
    intros <-. apply Hout. by apply (list_elem_of_fmap_2 fst _ (voter_pubkey d, v)).
Qed.

Lemma account_stake_range D va k n a :
  weights_ok D -> accounts_ok D va -> accounts va !! k = Some (n, a) -> is_u64 n.
Proof. intros Hw [Hs _] Hk. rewrite (Hs k n a Hk). by apply delegated_range. Qed.

Lemma node_total_range D va node :
  weights_ok D -> accounts_ok D va -> 0 <= node_total (accounts va) node <= u64_max.
Proof.
  intros Hw Hok.
  assert (Hr : forall k v, accounts va !! k = Some v -> 0 <= fst v).
  { intros k [n a] Hk. by apply (account_stake_range D va k n a). }
  split.
  - apply wsum_nonneg. intros k v Hk. specialize (Hr k v Hk). by case_bool_decide.
  - etrans; [|apply (accounts_total D (accounts va) Hw), Hok]. apply wsum_le.
    intros k v Hk. specialize (Hr k v Hk). by case_bool_decide.
Qed.

Lemma node_total_insert (m : VoteAccountsHashMap) k n a node :
  node_total (<[k := (n, a)]> m) node
  = node_total m node - from_option (fun v => share (fst v) (snd v) node) 0 (m !! k) + share n a node.
Proof. unfold node_total. by rewrite wsum_insert. Qed.

Lemma node_total_delete (m : VoteAccountsHashMap) k node :
  node_total (delete k m) node
  = node_total m node - from_option (fun v => share (fst v) (snd v) node) 0 (m !! k).
Proof. unfold node_total. by rewrite wsum_delete. Qed.

(** Replacing the accounts and moving the validator's sum along. *)
Definition cached va (m : VoteAccountsHashMap) : Prop :=
  forall nodes, VoteAccounts.staked_nodes va = Some nodes -> nodes_ok nodes (node_total m).

Lemma add_step va m m' n a :
  cached va m -> 0 <= n ->
  (forall node, 0 <= node_total m node /\ node_total m' node <= u64_max) ->
  (forall node, node_total m' node = node_total m node + share n a node) ->
  let va' := add_node_stake decode_vote (with_accounts va m') n a in
  accounts va' = m' /\ cached va' m'.
Proof.
  intros Hc Hn Hr Heq. cbn zeta.
  destruct (VoteAccounts.staked_nodes va) as [nodes|] eqn:E.
  - destruct (add_node_stake_ok (with_accounts va m') nodes n a (node_total m)) as (nodes' & -> & Hok);
      [done|by apply Hc|done| |].
    { intros node. rewrite <- Heq. apply Hr. }
    split; [done|]. intros ? [= <-]. eapply nodes_ok_ext; [|exact Hok]. intros node. by rewrite Heq.
  - unfold add_node_stake, cached. cbn. rewrite E. cbn. by rewrite E.
Qed.

Lemma sub_step va m m' n a :
  cached va m -> 0 <= n ->
  (forall node, 0 <= node_total m' node) ->
  (forall node, node_total m' node = node_total m node - share n a node) ->
  exists va', sub_node_stake decode_vote (with_accounts va m') n a = Ok va' /\
    accounts va' = m' /\ cached va' m'.
Proof.
  intros Hc Hn Hr Heq. destruct (VoteAccounts.staked_nodes va) as [nodes|] eqn:E.
  - destruct (sub_node_stake_ok (with_accounts va m') nodes n a (node_total m)) as (nodes' & -> & Hok);
      [done|by apply Hc|done| |].
    { intros node. specialize (Hr node). rewrite Heq in Hr. lia. }
    eexists. split; [done|]. split; [done|]. intros ? [= <-].
    eapply nodes_ok_ext; [|exact Hok]. intros node. by rewrite Heq.
  - unfold sub_node_stake, cached. cbn. rewrite E. eexists. split; [done|]. cbn. by rewrite E.
Qed.

Lemma accounts_ok_intro D va :
  (forall k (n : Z) (a : AccountSharedData), accounts va !! k = Some (n, a) -> n = delegated D k) ->
  cached va (accounts va) -> accounts_ok D va.
Proof. done. Qed.

(** ** The operations on vote accounts *)
Lemma node_total_pos D m node :
  weights_ok D -> (forall k n a, m !! k = Some (n, a) -> n = delegated D k) ->
  0 <= node_total m node <= u64_max.
Proof.
  intros Hw Hs.
  apply (node_total_range D {| accounts := m; VoteAccounts.staked_nodes := None |} node Hw).
  by apply accounts_ok_intro.
Qed.

Lemma remove_ok D va k :
  weights_ok D -> accounts_ok D va ->
  exists va', VoteAccounts_remove decode_vote va k = Ok (accounts va !! k, va') /\
    accounts va' = delete k (accounts va) /\ accounts_ok D va'.
Proof.
  intros Hw Hok. pose proof Hok as [Hs Hc].
  assert (Hs' : forall j n a, delete k (accounts va) !! j = Some (n, a) -> n = delegated D j).
  { intros j n a [_ Hj]%lookup_delete_Some. by apply (Hs j n a). }
  unfold VoteAccounts_remove. destruct (accounts va !! k) as [[n a]|] eqn:E.
  - destruct (sub_step va (accounts va) (delete k (accounts va)) n a) as (va' & -> & Ha & Hc').
    + exact Hc.
    + eapply account_stake_range; eauto.
    + intros node. by apply (node_total_pos D).
    + intros node. by rewrite node_total_delete, E.
    + eexists. split; [done|]. split; [done|]. apply accounts_ok_intro; by rewrite Ha.
  - eexists. split; [done|]. split; [done|]. apply accounts_ok_intro; [done|].
    cbn. rewrite delete_id by done. exact Hc.
Qed.

Lemma insert_ok D va k n a :
  weights_ok D -> accounts_ok D va -> accounts va !! k = None -> n = delegated D k ->
  exists va', VoteAccounts_insert decode_vote va k (n, a) = Ok va' /\
    accounts va' = <[k := (n, a)]> (accounts va) /\ accounts_ok D va'.
Proof.
  intros Hw [Hs Hc] E Hn. unfold VoteAccounts_insert. cbn.
  set (m' := <[k := (n, a)]> (accounts va)).
  assert (Hs' : forall j n a, m' !! j = Some (n, a) -> n = delegated D j).
  { intros j x y [[-> [= <- <-]]|[_ Hj]]%lookup_insert_Some; [done|by apply (Hs j x y)]. }
  assert (Hcomm : with_accounts (add_node_stake decode_vote va n a)
                    (<[k := (n, a)]> (accounts (add_node_stake decode_vote va n a)))
                  = add_node_stake decode_vote (with_accounts va m') n a).
  { unfold add_node_stake, m'. destruct va as [ac [nodes|]]; cbn; [|done].
    destruct (negb (n =? 0)); [|done]. by destruct (node_of a). }
  destruct (add_step va (accounts va) m' n a) as [Ha Hc'].
  - exact Hc.
  - rewrite Hn. by apply delegated_range.
  - intros node. split; [by apply (node_total_pos D)|by apply (node_total_pos D)].
  - intros node. unfold m'. rewrite node_total_insert, E. cbn. lia.
  - assert (Hsame : accounts (add_node_stake decode_vote va n a) = accounts va).
    { unfold add_node_stake. by repeat case_match. }
    rewrite Hsame in Hcomm |- *. rewrite E, Hcomm. eexists. split; [done|]. split; [done|].
    apply accounts_ok_intro; by rewrite Ha.
Qed.

Lemma sub_stake_ok D va k d :
  weights_ok D -> accounts_ok D va -> D !! k = Some d ->
  exists va', sub_stake decode_vote va (voter_pubkey d) (w d) = Ok va' /\
    accounts_ok (delete k D) va' /\ dom (accounts va') = dom (accounts va).
Proof.
  intros Hw [Hs Hc] Hd. pose proof (weights_ok_delete D k Hw) as Hw'.
  unfold sub_stake. set (v := voter_pubkey d).
  destruct (accounts va !! v) as [[n a]|] eqn:E; cycle 1.
  { eexists. split; [done|]. split; [|done]. apply accounts_ok_intro; [|exact Hc].
    intros j x y Hj. rewrite (delegated_delete D k d) by done.
    rewrite bool_decide_false; [rewrite Z.sub_0_r; by apply (Hs j x y)|]. unfold v in E. congruence. }
  assert (Hn : n - w d = delegated (delete k D) v).
  { rewrite (delegated_delete D k d), bool_decide_true by done. by rewrite (Hs v n a E). }
  pose proof (delegated_range (delete k D) v Hw'). pose proof (proj1 Hw k d Hd).
  assert (Hs' : forall j x y, (<[v := (n - w d, a)]> (accounts va)) !! j = Some (x, y) ->
    x = delegated (delete k D) j).
  { intros j x y [[<- [= <- <-]]|[Hne Hj]]%lookup_insert_Some; [done|].
    rewrite (delegated_delete D k d), bool_decide_false, Z.sub_0_r by done. by apply (Hs j x y). }
  unfold checked_sub. rewrite (proj2 (Z.leb_le _ _)) by lia. cbn.
  destruct (sub_step va (accounts va) (<[v := (n - w d, a)]> (accounts va)) (w d) a)
    as (va' & -> & Ha & Hc').
  - exact Hc.
  - done.
  - intros node. by apply (node_total_pos (delete k D)).
  - intros node. rewrite node_total_insert, E. cbn. unfold share. case_bool_decide; lia.
  - eexists. split; [done|]. split; [apply accounts_ok_intro; by rewrite Ha|].
    rewrite Ha, dom_insert_lookup_L; [done|]. by eexists.
Qed.

Lemma add_stake_ok D va k d :
  weights_ok (<[k := d]> D) -> accounts_ok D va -> D !! k = None ->
  accounts_ok (<[k := d]> D) (add_stake decode_vote va (voter_pubkey d) (w d)) /\
  dom (accounts (add_stake decode_vote va (voter_pubkey d) (w d))) = dom (accounts va).
Proof.
  intros Hw [Hs Hc] Hd.
  assert (HwD : weights_ok D).
  { rewrite <- (delete_insert_id D k d) by done. by apply weights_ok_delete. }
  unfold add_stake. set (v := voter_pubkey d).
  destruct (accounts va !! v) as [[n a]|] eqn:E; cycle 1.
  { split; [|done]. apply accounts_ok_intro; [|exact Hc].
    intros j x y Hj. unfold v in E. rewrite delegated_insert, bool_decide_false by (done || congruence).
    rewrite Z.add_0_r. by apply (Hs j x y). }
  pose proof (proj1 Hw k d (lookup_insert_eq _ _ _)).
  assert (Hn : n + w d = delegated (<[k := d]> D) v).
  { rewrite delegated_insert, bool_decide_true by done. by rewrite (Hs v n a E). }
  pose proof (delegated_range _ v Hw). pose proof (delegated_range _ v HwD).
  unfold wrapping_add. rewrite wrap_small by lia.
  assert (Hs' : forall j x y, (<[v := (n + w d, a)]> (accounts va)) !! j = Some (x, y) ->
    x = delegated (<[k := d]> D) j).
  { intros j x y [[<- [= <- <-]]|[Hne Hj]]%lookup_insert_Some; [done|].
    rewrite delegated_insert, bool_decide_false, Z.add_0_r by done. by apply (Hs j x y). }
  destruct (add_step va (accounts va) (<[v := (n + w d, a)]> (accounts va)) (w d) a) as [Ha Hc'].
  - exact Hc.
  - done.
  - intros node. split; [by apply (node_total_pos D)|by apply (node_total_pos (<[k := d]> D))].
  - intros node. rewrite node_total_insert, E. cbn. unfold share. case_bool_decide; lia.
  - split; [apply accounts_ok_intro; by rewrite Ha|].
    rewrite Ha, dom_insert_lookup_L; [done|]. by eexists.
Qed.

(** Adding nothing. *)
Lemma add_stake_zero D va voter :
  weights_ok D -> accounts_ok D va -> add_stake decode_vote va voter 0 = va.
Proof.
  intros Hw Hok. unfold add_stake. destruct (accounts va !! voter) as [[n a]|] eqn:E; [|done].
  pose proof (account_stake_range _ _ _ _ _ Hw Hok E). unfold wrapping_add.
  rewrite Z.add_0_r, wrap_small by done.
  rewrite insert_id by done. destruct va as [m [nodes|]]; done.
Qed.

Lemma accounts_ok_ext D D' va :
  (forall v, delegated D v = delegated D' v) -> accounts_ok D va -> accounts_ok D' va.
Proof.
  intros E [Hs Hc]. apply accounts_ok_intro; [|exact Hc]. intros k n a Hk. rewrite <- E. eauto.
Qed.

Lemma delegated_replace D k d d0 voter :
  D !! k = Some d0 -> voter_pubkey d = voter_pubkey d0 -> w d = w d0 ->
  delegated (<[k := d]> D) voter = delegated D voter.
Proof. intros E Hv Hd. unfold delegated. rewrite wsum_insert, E. cbn. rewrite Hv, Hd. lia. Qed.

Lemma delegated_insert_zero D k d voter :
  w d = 0 -> D !! k = None -> delegated (<[k := d]> D) voter = delegated D voter.
Proof. intros Hd E. rewrite delegated_insert, Hd by done. case_bool_decide; lia. Qed.

Lemma delegated_delete_zero D k voter :
  (forall d, D !! k = Some d -> w d = 0) -> delegated (delete k D) voter = delegated D voter.
Proof.
  intros Hz. unfold delegated. rewrite wsum_delete. destruct (D !! k) as [d|]; cbn; [|lia].
  rewrite (Hz d eq_refl). case_bool_decide; lia.
Qed.
End Weights.

(** ** The cache as a whole *)
Definition eff (s : Stakes) (d : Delegation) : Z :=
  Delegation_stake d (epoch s) (Some (stake_history s)).

Record stakes_ok (s : Stakes) : Prop := {
  delegations_u64 : forall k d, stake_delegations s !! k = Some d -> is_u64 (stake d);
  delegations_total : total (eff s) (stake_delegations s) <= u64_max;
  accounts_exact : accounts_ok (eff s) (stake_delegations s) (vote_accounts s) }.

Lemma Delegation_stake_nonneg d e h : is_u64 (stake d) -> 0 <= Delegation_stake d e h.
Proof. intros Hd. apply (delegation_status d e h Hd). Qed.

Lemma stakes_weights s : stakes_ok s -> weights_ok (eff s) (stake_delegations s).
Proof.
  intros [Hu Ht _]. split; [|done]. intros k d Hk. apply Delegation_stake_nonneg. by apply (Hu k).
Qed.

Lemma calculate_stake_wrap s voter e h :
  calculate_stake s voter e h
  = wrap u64_max (delegated (fun d => Delegation_stake d e h) (stake_delegations s) voter).
Proof. unfold calculate_stake. rewrite sum_u64_wrap, lsum_fmap. done. Qed.

Lemma calculate_stake_exact s voter :
  stakes_ok s ->
  calculate_stake s voter (epoch s) (Some (stake_history s))
  = delegated (eff s) (stake_delegations s) voter.
Proof.
  intros Hok. rewrite calculate_stake_wrap. apply wrap_small.
  apply (delegated_range (eff s)), stakes_weights, Hok.
Qed.

Context (vote_state_size_of : nat).
Context (decode_stake : list Z -> option StakeState.t).

(** When storing an account keeps the cache exact: the stake of all
    delegations stays within 64 bits, and the delegation is kept exactly when
    it is counted. *)
Definition store_allowed (s : Stakes) (k : Pubkey) (account : AccountSharedData)
    (remove_delegation_on_inactive : bool) : Prop :=
  owner account = stake_program_id ->
  (forall d, delegation_from decode_stake account = Some d ->
    is_u64 (stake d) /\ total (eff s) (<[k := d]> (stake_delegations s)) <= u64_max /\
    (remove_delegation_on_inactive = true -> lamports account = 0 -> eff s d = 0)) /\
  (remove_delegation_on_inactive = false -> delegation_from decode_stake account = None ->
   lamports account <> 0 -> forall d, stake_delegations s !! k = Some d -> eff s d = 0).

Lemma store_vote_ok s k account :
  stakes_ok s ->
  exists s', store_vote decode_vote vote_state_size_of s k account = Ok s' /\ stakes_ok s'.
Proof.
  intros Hok. pose proof (stakes_weights s Hok) as Hw. pose proof Hok as [Hu Ht Ha].
  unfold store_vote.
  destruct (remove_ok (eff s) _ _ k Hw Ha) as (va & -> & Hacc & Hva). cbn.
  destruct (_ && _); [|eexists; split; [done|]; by split].
  set (n := match accounts (vote_accounts s) !! k with Some (n, _) => n | None => _ end).
  assert (Hn : n = delegated (eff s) (stake_delegations s) k).
  { unfold n. destruct (accounts (vote_accounts s) !! k) as [[x a]|] eqn:E.
    - by apply (sums_ok _ _ _ Ha k x a).
    - by apply calculate_stake_exact. }
  destruct (insert_ok (eff s) _ va k n account Hw Hva) as (va' & -> & _ & Hva');
    [rewrite Hacc; apply lookup_delete_eq|done|].
  eexists. split; [done|]. by split.
Qed.

(** The delegations the adjusted sums stand for. *)
Definition counted (s : Stakes) (k : Pubkey) (account : AccountSharedData) : gmap Pubkey Delegation :=
  match delegation_from decode_stake account with
  | Some d => if negb (lamports account =? 0) then <[k := d]> (stake_delegations s)
              else delete k (stake_delegations s)
  | None => delete k (stake_delegations s)
  end.

Lemma weights_ok_insert s k d :
  stakes_ok s -> is_u64 (stake d) -> total (eff s) (<[k := d]> (stake_delegations s)) <= u64_max ->
  weights_ok (eff s) (<[k := d]> (stake_delegations s)).
Proof.
  intros Hok Hd Ht. split; [|done]. intros j x [[-> <-]|[_ Hj]]%lookup_insert_Some.
  - by apply Delegation_stake_nonneg.
  - by apply (proj1 (stakes_weights s Hok) j).
Qed.

Lemma adjust_stake_ok s k account :
  stakes_ok s ->
  (forall d, delegation_from decode_stake account = Some d ->
    is_u64 (stake d) /\ total (eff s) (<[k := d]> (stake_delegations s)) <= u64_max) ->
  let old_stake := (fun d => (voter_pubkey d, eff s d)) <$> stake_delegations s !! k in
  let new_stake :=
    (fun d => (voter_pubkey d, if negb (lamports account =? 0) then eff s d else 0))
      <$> delegation_from decode_stake account in
  exists va, adjust_stake decode_vote (vote_accounts s) old_stake new_stake = Ok va /\
    accounts_ok (eff s) (counted s k account) va.
Proof.
  intros Hok Hnew. pose proof (stakes_weights s Hok) as Hw. pose proof Hok as [Hu Ht Ha].
  cbn zeta. unfold adjust_stake, counted. set (D := stake_delegations s) in *.
  pose proof (weights_ok_delete _ _ k Hw) as Hw1. case_bool_decide as Hne.
  - assert (exists va, match (fun d => (voter_pubkey d, eff s d)) <$> D !! k with
        | Some (voter, n) => sub_stake decode_vote (vote_accounts s) voter n
        | None => Ok (vote_accounts s)
        end = Ok va /\ accounts_ok (eff s) (delete k D) va) as (va & -> & Hva).
    { destruct (D !! k) as [d|] eqn:E; cbn.
      - destruct (sub_stake_ok (eff s) D _ k d Hw Ha E) as (va & -> & Hva & _). eauto.
      - eexists. split; [done|]. by rewrite delete_id. }
    cbn. eexists. split; [done|].
    destruct (delegation_from decode_stake account) as [d|]; [|done]. cbn.
    destruct (Hnew d eq_refl) as [Hd Htot]. destruct (negb _).
    + rewrite <- insert_delete_eq. apply add_stake_ok; [|done|apply lookup_delete_eq].
      rewrite insert_delete_eq. by apply weights_ok_insert.
    + by rewrite (add_stake_zero (eff s) (delete k D)).
  - eexists. split; [done|].
    destruct (delegation_from decode_stake account) as [d|], (D !! k) as [d0|] eqn:E;
      cbn in Hne; simplify_eq; [|by rewrite delete_id].
    destruct (negb _); eapply accounts_ok_ext; try exact Ha; intros v.
    + symmetry. by apply (delegated_replace _ _ _ _ d0).
    + symmetry. apply delegated_delete_zero. intros d1 [= <-]%(eq_trans (eq_sym E)). done.
Qed.

Lemma counted_weights s k account :
  stakes_ok s ->
  (forall d, delegation_from decode_stake account = Some d ->
    is_u64 (stake d) /\ total (eff s) (<[k := d]> (stake_delegations s)) <= u64_max) ->
  weights_ok (eff s) (counted s k account).
Proof.
  intros Hok Hnew. pose proof (weights_ok_delete _ _ k (stakes_weights s Hok)) as Hw.
  unfold counted. destruct (delegation_from decode_stake account) as [d|]; [|done].
  destruct (Hnew d eq_refl). destruct (negb _); [|done]. by apply weights_ok_insert.
Qed.

(** A cache whose delegations are replaced by others that count the same. *)
Lemma stakes_ok_intro s va D D' :
  (forall k d, D' !! k = Some d -> is_u64 (stake d)) ->
  weights_ok (eff s) D' -> accounts_ok (eff s) D va ->
  (forall v, delegated (eff s) D v = delegated (eff s) D' v) ->
  stakes_ok (with_delegations (with_vote_accounts s va) D').
Proof.
  intros Hu [_ Ht] Ha Heq. split; cbn; [done|done|]. eapply accounts_ok_ext; [exact Heq|done].
Qed.

Lemma store_stake_ok s k account flag :
  stakes_ok s -> owner account = stake_program_id -> store_allowed s k account flag ->
  exists s', store_stake decode_vote decode_stake s k account flag = Ok s' /\ stakes_ok s'.
Proof.
  intros Hok Hown Hal. destruct (Hal Hown) as [Hnew Hold].
  assert (Hnew' : forall d, delegation_from decode_stake account = Some d ->
    is_u64 (stake d) /\ total (eff s) (<[k := d]> (stake_delegations s)) <= u64_max).
  { intros d Hd. destruct (Hnew d Hd) as (? & ? & _). done. }
  destruct (adjust_stake_ok s k account Hok Hnew') as (va & E & Hva).
  unfold store_stake. unfold eff in E. cbn zeta in E |- *. rewrite E. cbn. clear E.
  pose proof (stakes_weights s Hok) as Hw. pose proof Hok as [Hu Ht Ha].
  set (D := stake_delegations s) in *.
  assert (Hdel : forall j d, delete k D !! j = Some d -> is_u64 (stake d)).
  { intros j d [_ Hj]%lookup_delete_Some. by apply (Hu j). }
  assert (Hins : forall d, delegation_from decode_stake account = Some d ->
    forall j x, <[k := d]> D !! j = Some x -> is_u64 (stake x)).
  { intros d Hd j x [[-> <-]|[_ Hj]]%lookup_insert_Some; [by apply Hnew'|by apply (Hu j)]. }
  unfold counted in Hva. fold D in Hva.
  destruct (delegation_from decode_stake account) as [d|] eqn:Ed.
  - destruct (Hnew d eq_refl) as (Hd & Htot & Hz).
    pose proof (weights_ok_insert s k d Hok Hd Htot) as Hwi. fold D in Hwi.
    destruct (Z.eqb_spec (lamports account) 0) as [El|El]; cbn in Hva; destruct flag; cbn;
      (eexists; split; [done|]).
    + eapply stakes_ok_intro; [by eapply Hins|done|exact Hva|]. intros v.
      rewrite <- insert_delete_eq. symmetry. apply delegated_insert_zero; [by apply Hz|].
      apply lookup_delete_eq.
    + eapply stakes_ok_intro; [done|by apply weights_ok_delete|exact Hva|done].
    + eapply stakes_ok_intro; [by eapply Hins|done|exact Hva|done].
    + eapply stakes_ok_intro; [by eapply Hins|done|exact Hva|done].
  - destruct flag; cbn.
    { eexists. split; [done|]. eapply stakes_ok_intro; [done|by apply weights_ok_delete|exact Hva|done]. }
    destruct (Z.eqb_spec (lamports account) 0) as [El|El]; (eexists; split; [done|]).
    + eapply stakes_ok_intro; [done|by apply weights_ok_delete|exact Hva|done].
    + change (with_vote_accounts s va) with (with_delegations (with_vote_accounts s va) D).
      eapply stakes_ok_intro; [done|done|exact Hva|]. intros v. apply delegated_delete_zero.
      by apply Hold.
Qed.

Lemma store_ok s k account flag :
  stakes_ok s -> store_allowed s k account flag ->
  exists s', store decode_vote vote_state_size_of decode_stake s k account flag = Ok s' /\
    stakes_ok s'.
Proof.
  intros Hok Hal. unfold store. case_bool_decide; [by apply store_vote_ok|].
  case_bool_decide; [by apply store_stake_ok|]. eauto.
Qed.
End Cache.
