(* ===== verification/StakesTheorems.v ===== *)
(** * Theorems about the cache of stakes

    - [epoch_change_equivalent]: the epoch change by groups of delegations
      computes what the former pass over all of them did;
    - [stakes_cache_exact]: in every reachable cache the updated sums are the
      recomputed ones, and storing an account does not panic;
    - [emptied_stake_stays_counted]: an emptied account with a delegation in it
      is what the hypothesis excludes; after it the next update panics;
    - [epoch_stakes_by_node]: the snapshot of an epoch divides the stake among
      validators without loss. *)

From stdpp Require Import base gmap list fin_maps strings relations.
From Stdlib Require Import ZArith Lia SpecFloat.
From S2P Require Import Prelude Sdk Runtime KeyedAccount MapOrder Codec VoteState VoteInstruction VoteTheorems StakeState StakeProofs StakeInstruction StakeSample StakesCache StakesProofs.

(** ** Totals of activation *)
Definition status_nonneg (e : StakeHistoryEntry) : Prop :=
  0 <= effective e /\ 0 <= activating e /\ 0 <= deactivating e.

Definition status_sum (l : list StakeHistoryEntry) : StakeHistoryEntry :=
  {| effective := Z.min u64_max (lsum effective l);
     activating := Z.min u64_max (lsum activating l);
     deactivating := Z.min u64_max (lsum deactivating l) |}.

Lemma reduce_status_sum l :
  (forall x, x ∈ l -> status_nonneg x) -> reduce_status l = status_sum l.
Proof.
  unfold reduce_status. induction l as [|x l IH] using rev_ind; intros Hl; [done|].
  rewrite foldl_app, IH by set_solver. cbn. unfold StakeHistoryEntry_add, status_sum, saturating_add.
  assert (Hx : status_nonneg x) by set_solver. destruct Hx as (? & ? & ?).
  assert (Hs : forall g, (forall y, y ∈ l -> 0 <= g y) -> 0 <= lsum g l) by (intros; by apply lsum_nonneg).
  assert (0 <= lsum effective l) by (apply Hs; intros y Hy; apply Hl; set_solver).
  assert (0 <= lsum activating l) by (apply Hs; intros y Hy; apply Hl; set_solver).
  assert (0 <= lsum deactivating l) by (apply Hs; intros y Hy; apply Hl; set_solver).
  rewrite !lsum_app. cbn. f_equal; lia.
Qed.

Lemma delegation_status_nonneg d e h :
  is_u64 (stake d) -> status_nonneg (stake_activating_and_deactivating d e h).
Proof. intros Hd. pose proof (delegation_status d e h Hd). unfold status_nonneg. cbn zeta in *. lia. Qed.

Lemma new_stake_history_entry_reduce e ds h :
  new_stake_history_entry e ds h
  = reduce_status ((fun d => stake_activating_and_deactivating d e h) <$> ds).
Proof.
  unfold new_stake_history_entry, reduce_status. generalize StakeHistoryEntry_default.
  induction ds as [|d ds IH]; intros acc; cbn; [done|]. apply IH.
Qed.

(** ** Delegations in groups *)
Lemma group_sum f l :
  wsum (fun _ ds => lsum f ds) (foldl group_delegation ∅ l) = lsum f l.
Proof.
  induction l as [|d l IH] using rev_ind; [done|].
  rewrite foldl_app. cbn. unfold group_delegation at 1. rewrite wsum_insert, IH, !lsum_app. cbn.
  destruct (_ !! voter_pubkey d); cbn; lia.
Qed.

Lemma group_lookup l v :
  default [] (foldl group_delegation ∅ l !! v) = filter (fun d => voter_pubkey d = v) l.
Proof.
  induction l as [|d l IH] using rev_ind; [cbn; by rewrite lookup_empty|].
  rewrite foldl_app, filter_app, filter_cons, filter_nil. cbn [foldl].
  unfold group_delegation at 1. case_decide as Hv.
  - subst v. rewrite lookup_insert_eq. cbn. by rewrite IH.
  - by rewrite lookup_insert_ne, IH, app_nil_r.
Qed.

Lemma group_in l v ds d : foldl group_delegation ∅ l !! v = Some ds -> d ∈ ds -> d ∈ l.
Proof.
  intros E Hd. pose proof (group_lookup l v) as Hg. rewrite E in Hg. cbn in Hg. subst ds.
  by apply list_elem_of_filter in Hd as [_ ?].
Qed.

Lemma lsum_filter {A} (P : A -> Prop) `{forall x, Decision (P x)} (f : A -> Z) l :
  lsum f (filter P l) = lsum (fun x => if bool_decide (P x) then f x else 0) l.
Proof.
  induction l as [|x l IH]; [done|]. rewrite filter_cons. cbn.
  case_decide; [rewrite bool_decide_true by done|rewrite bool_decide_false by done]; cbn; lia.
Qed.

(** The sums of sums. *)
Lemma grouped_status l e h :
  (forall d, d ∈ l -> is_u64 (stake d)) ->
  let st d := stake_activating_and_deactivating d e h in
  reduce_status ((fun g => reduce_status (st <$> snd g))
                   <$> map_to_list (foldl group_delegation ∅ l))
  = reduce_status (st <$> l).
Proof.
  intros Hu st. set (g := foldl group_delegation ∅ l).
  assert (Hg : forall p, p ∈ map_to_list g -> forall x, x ∈ st <$> snd p -> status_nonneg x).
  { intros [v ds] Hp%elem_of_map_to_list x (d & -> & Hd)%list_elem_of_fmap.
    apply delegation_status_nonneg, Hu. by eapply group_in. }
  assert (Hnn : forall f, (forall x, status_nonneg x -> 0 <= f x) ->
    forall p, p ∈ map_to_list g -> 0 <= lsum f (st <$> snd p)).
  { intros f Hf p Hp. apply lsum_nonneg. intros x Hx. apply Hf. by apply (Hg p). }
  assert (Hin : (fun p : Pubkey * list Delegation => reduce_status (st <$> snd p)) <$> map_to_list g
    = (fun p => status_sum (st <$> snd p)) <$> map_to_list g).
  { apply list_fmap_ext. intros i p Hp. apply reduce_status_sum, Hg.
    by apply list_elem_of_lookup_2 in Hp. }
  rewrite Hin. rewrite !reduce_status_sum; cycle 1.
  { intros x (d & -> & Hd)%list_elem_of_fmap. by apply delegation_status_nonneg, Hu. }
  { intros x (p & -> & Hp)%list_elem_of_fmap. unfold status_nonneg, status_sum. cbn.
    pose proof (Hnn effective ltac:(intros ? []; done) p Hp).
    pose proof (Hnn activating ltac:(intros ? (? & ? & ?); done) p Hp).
    pose proof (Hnn deactivating ltac:(intros ? (? & ? & ?); done) p Hp). unfold_max. lia. }
  assert (Hmin : forall f, (forall x, status_nonneg x -> 0 <= f x) ->
    Z.min u64_max (lsum (fun p => Z.min u64_max (lsum f (st <$> snd p))) (map_to_list g))
    = Z.min u64_max (lsum f (st <$> l))).
  { intros f Hf. rewrite (lsum_fmap st f l), <- (group_sum (fun d => f (st d)) l). fold g.
    unfold wsum. pose proof (Hnn f Hf) as Hp. revert Hp.
    generalize (map_to_list g). intros ps Hp. induction ps as [|p ps IH]; [done|]. cbn.
    rewrite <- (lsum_fmap st f). specialize (IH ltac:(set_solver)).
    assert (0 <= lsum f (st <$> snd p)) by (apply Hp; set_solver).
    assert (0 <= lsum (fun p => lsum f (st <$> snd p)) ps) by (apply lsum_nonneg; set_solver).
    assert (0 <= lsum (fun p => Z.min u64_max (lsum f (st <$> snd p))) ps).
    { apply lsum_nonneg. intros q Hq. specialize (Hp q ltac:(set_solver)). unfold_max. lia. }
    replace (lsum (fun p => lsum (fun d => f (st d)) (snd p)) ps)
      with (lsum (fun p => lsum f (st <$> snd p)) ps) in * by (apply lsum_ext; intros; apply lsum_fmap).
    lia. }
  unfold status_sum at 1. rewrite !lsum_fmap. unfold status_sum. cbn.
  f_equal; apply Hmin; intros x (? & ? & ?); done.
Qed.

Lemma grouped_status' m e h :
  (forall k d, m !! k = Some d -> is_u64 (stake d)) ->
  reduce_status
    ((fun g => reduce_status
       ((fun d => stake_activating_and_deactivating d e h) <$> snd g))
       <$> map_to_list (group_delegations m))
  = reduce_status ((fun d => stake_activating_and_deactivating d e h) <$> (map_to_list m).*2).
Proof.
  intros Hu. apply grouped_status.
  intros d ([k x] & -> & Hk%elem_of_map_to_list)%list_elem_of_fmap. by apply (Hu k).
Qed.

(** What a group adds up to is what the pass over all delegations finds. *)
Lemma grouped_stake s v e h :
  match group_delegations (stake_delegations s) !! v with
  | Some ds => sum_u64 ((fun d => Delegation_stake d e h) <$> ds)
  | None => 0
  end = calculate_stake s v e h.
Proof.
  rewrite calculate_stake_wrap. unfold delegated, wsum.
  transitivity (sum_u64 ((fun d => Delegation_stake d e h)
    <$> filter (fun d => voter_pubkey d = v) (map_to_list (stake_delegations s)).*2)).
  { rewrite <- group_lookup. unfold group_delegations. by destruct (_ !! v). }
  rewrite sum_u64_wrap, lsum_fmap, lsum_filter, lsum_fmap. done.
Qed.

(** the faster change of epochs is equivalent to the one it replaces.
    When the bank enters a different epoch, adding up the delegations by
    vote account (activate_epoch) gives the same cache, history entry
    included, as the pass over all delegations for the history and for
    each vote account (clone_with_epoch). *)
Theorem epoch_change_equivalent s next_epoch :
  epoch s <> next_epoch ->
  (forall k d, stake_delegations s !! k = Some d -> is_u64 (stake d)) ->
  activate_epoch s next_epoch = clone_with_epoch s next_epoch.
Proof.
  intros He Hu. unfold activate_epoch, clone_with_epoch. cbn zeta.
  rewrite (proj2 (Z.eqb_neq _ _)) by done.
  rewrite new_stake_history_entry_reduce, grouped_status' by done.
  set (h := StakeHistory.add _ _ _). f_equal. f_equal. apply map_eq. intros v.
  rewrite !map_lookup_imap.
  destruct (VoteAccounts.vote_accounts (vote_accounts s) !! v) as [[n a]|]; [|done].
  cbn -[group_delegations calculate_stake]. do 2 f_equal. apply grouped_stake.
Qed.

(** ** Reachable caches *)
Definition Stakes_default : Stakes :=
  {| vote_accounts := {| VoteAccounts.vote_accounts := ∅; VoteAccounts.staked_nodes := None |};
     stake_delegations := ∅; unused := 0; epoch := 0; stake_history := [] |}.

Section Reachable.
Context (decode_vote : list Z -> option VoteStateVersions).
Context (vote_state_size_of : nat).
Context (decode_stake : list Z -> option StakeState.t).

Inductive stakes_step (s : Stakes) : Stakes -> Prop :=
| Step_store k account flag s' :
    store_allowed decode_stake s k account flag ->
    store decode_vote vote_state_size_of decode_stake s k account flag = Ok s' ->
    stakes_step s s'
| Step_activate e :
    total (eff (activate_epoch s e)) (stake_delegations s) <= u64_max ->
    stakes_step s (activate_epoch s e)
| Step_staked_nodes :
    stakes_step s (with_vote_accounts s (snd (staked_nodes decode_vote (vote_accounts s)))).

Lemma activate_ok s e :
  stakes_ok decode_vote s -> total (eff (activate_epoch s e)) (stake_delegations s) <= u64_max ->
  stakes_ok decode_vote (activate_epoch s e).
Proof.
  intros [Hu _ _] Ht. split; [done|done|]. apply accounts_ok_intro; [|done].
  intros k n a Hk. unfold activate_epoch in Hk. cbn [vote_accounts VoteAccounts.vote_accounts] in Hk.
  rewrite map_lookup_imap in Hk.
  destruct (VoteAccounts.vote_accounts (vote_accounts s) !! k) as [[m b]|]; [|done].
  cbn -[group_delegations StakeHistory.add] in Hk. simplify_eq.
  rewrite grouped_stake, calculate_stake_wrap. apply wrap_small.
  apply (delegated_range (eff (activate_epoch s e))). split; [|done].
  intros j d Hj. apply Delegation_stake_nonneg. by apply (Hu j).
Qed.

Lemma staked_nodes_ok s :
  stakes_ok decode_vote s ->
  nodes_ok (fst (staked_nodes decode_vote (vote_accounts s)))
    (node_total decode_vote (VoteAccounts.vote_accounts (vote_accounts s))) /\
  stakes_ok decode_vote (with_vote_accounts s (snd (staked_nodes decode_vote (vote_accounts s)))).
Proof.
  intros Hok. pose proof (stakes_weights _ s Hok) as Hw. pose proof Hok as [Hu Ht Ha].
  unfold staked_nodes. destruct (VoteAccounts.staked_nodes (vote_accounts s)) as [nodes|] eqn:E.
  { split; [by apply Ha|]. by split. }
  cbn. assert (nodes_ok (compute_staked_nodes decode_vote (VoteAccounts.vote_accounts (vote_accounts s)))
    (node_total decode_vote (VoteAccounts.vote_accounts (vote_accounts s)))) as Hn.
  { apply compute_staked_nodes_ok.
    - intros k [n a] Hk. eapply account_stake_range; eauto.
    - intros node. by eapply node_total_range. }
  split; [done|]. split; [done|done|]. apply accounts_ok_intro; [apply Ha|]. by intros ? [= <-].
Qed.

Lemma stakes_step_ok s s' : stakes_ok decode_vote s -> stakes_step s s' -> stakes_ok decode_vote s'.
Proof.
  intros Hok [k account flag s1 Hal Hst|e Ht|].
  - destruct (store_ok decode_vote vote_state_size_of decode_stake s k account flag Hok Hal)
      as (s2 & E & Hok2). rewrite Hst in E. by simplify_eq.
  - by apply activate_ok.
  - by apply staked_nodes_ok.
Qed.

Lemma reachable_ok s : rtc stakes_step Stakes_default s -> stakes_ok decode_vote s.
Proof.
  apply rtc_ind_r; [|intros x y _ Hxy Hx; by eapply stakes_step_ok].
  split; cbn; [done|done|]. by split; cbn.
Qed.

(** C14: The cached stakes are exact. In every cache that the bank reaches by
    storing accounts, changing epochs and asking for the staked
    validators, each vote account carries the stake that a pass over all
    delegations computes for it, the sums by validator are those computed
    afresh from the vote accounts, and storing another account does not
    panic. Stored accounts keep the total stake within 64 bits, and their
    delegation counts exactly if it is kept. *)
Theorem stakes_cache_exact s :
  rtc stakes_step Stakes_default s ->
  (forall k n a, VoteAccounts.vote_accounts (vote_accounts s) !! k = Some (n, a) ->
    n = calculate_stake s k (epoch s) (Some (stake_history s))) /\
  fst (staked_nodes decode_vote (vote_accounts s))
    = compute_staked_nodes decode_vote (VoteAccounts.vote_accounts (vote_accounts s)) /\
  (forall k account flag, store_allowed decode_stake s k account flag ->
    is_ok (store decode_vote vote_state_size_of decode_stake s k account flag) = true).
Proof.
  intros Hok%reachable_ok. split_and!.
  - intros k n a Hk. rewrite (calculate_stake_exact decode_vote) by done.
    by apply (sums_ok _ _ _ _ (accounts_exact _ _ Hok) k n a).
  - apply map_eq. intros node. rewrite (proj1 (staked_nodes_ok s Hok)).
    rewrite (compute_staked_nodes_ok decode_vote); [done|..].
    + intros k [n a] Hk. eapply account_stake_range; eauto using stakes_weights, accounts_exact.
    + intros x. eapply node_total_range; eauto using stakes_weights, accounts_exact.
  - intros k account flag Hal.
    destruct (store_ok decode_vote vote_state_size_of decode_stake s k account flag Hok Hal)
      as (s' & -> & _). done.
Qed.
End Reachable.

(** ** The snapshot of an epoch *)
Section Snapshot.
Context (decode_vote : list Z -> option VoteStateVersions) (leader_schedule_epoch : Epoch).
Abbreviation entry := (Pubkey * (Z * AccountSharedData))%type.

(** The validator and the voter an account counts for. *)
Definition assigned (v : Z * AccountSharedData) : option (Pubkey * Pubkey) :=
  vs ← vote_state decode_vote (snd v);
  if 0 <? fst v then
    voter ← AuthorizedVoters_get (authorized_voters vs) leader_schedule_epoch;
    Some (node_pubkey vs, voter)
  else None.

Definition of_node (node : Pubkey) (p : entry) : Prop := fst <$> assigned (snd p) = Some node.
#[local] Instance of_node_dec node p : Decision (of_node node p).
Proof. unfold of_node. apply _. Defined.

Lemma parse_vote_account_assigned nodes voters k v :
  parse_vote_account decode_vote leader_schedule_epoch (nodes, voters) (k, v) =
  match assigned v with
  | Some (node, voter) =>
      let nva := default NodeVoteAccounts_default (nodes !! node) in
      (<[node := {| node_vote_accounts := node_vote_accounts nva ++ [k];
                    node_total_stake := wrapping_add u64_max (node_total_stake nva) (fst v) |}]> nodes,
       <[k := voter]> voters)
  | None => (nodes, voters)
  end.
Proof.
  destruct v as [n a]. unfold parse_vote_account, assigned. cbn.
  destruct (vote_state decode_vote a) as [vs|]; [|done]. cbn. destruct (0 <? n); [|done].
  by destruct (AuthorizedVoters_get _ _).
Qed.

Lemma parse_list l :
  NoDup l.*1 ->
  let '(nodes, voters) :=
    foldl (parse_vote_account decode_vote leader_schedule_epoch) (∅, ∅) l in
  (forall node, default NodeVoteAccounts_default (nodes !! node) =
    {| node_vote_accounts := (filter (of_node node) l).*1;
       node_total_stake := wrap u64_max (lsum (fun p => fst (snd p)) (filter (of_node node) l)) |}) /\
  (forall k voter, voters !! k = Some voter <->
    exists v node, (k, v) ∈ l /\ assigned v = Some (node, voter)).
Proof.
  induction l as [|[k v] l IH] using rev_ind; intros Hd; cbn.
  { split; [done|]. intros k voter. rewrite lookup_empty. split; [done|]. set_solver. }
  rewrite fmap_app in Hd. apply NoDup_app in Hd as (Hd & Hnot & _). specialize (IH Hd).
  rewrite foldl_app. cbn [foldl].
  destruct (foldl _ (∅, ∅) l) as [nodes voters]. destruct IH as [IHn IHv].
  rewrite parse_vote_account_assigned.
  destruct (assigned v) as [[node voter]|] eqn:E.
  - split.
    + intros x. rewrite filter_app, filter_cons, filter_nil.
      destruct (decide (node = x)) as [<-|Hx].
      * rewrite decide_True by (unfold of_node; cbn; by rewrite E). rewrite lookup_insert_eq, IHn.
        rewrite fmap_app, lsum_app. cbn. f_equal. unfold wrapping_add, wrap.
        rewrite Zplus_mod_idemp_l. f_equal. lia.
      * rewrite decide_False by (unfold of_node; cbn; rewrite E; cbn; congruence).
        by rewrite lookup_insert_ne, app_nil_r, IHn.
    + intros j u. rewrite lookup_insert_Some, IHv. split.
      * intros [[-> <-]|[Hj (w & nd & Hw & Ew)]]; [exists v, node|exists w, nd]; set_solver.
      * intros (w & nd & Hw & Ew).
        apply elem_of_app in Hw as [Hw|[= -> ->]%list_elem_of_singleton].
        -- right. split; [|eauto]. intros ->. apply (Hnot j); [|set_solver].
           by apply (list_elem_of_fmap_2 fst _ (j, w)).
        -- left. by simplify_eq.
  - split.
    + intros x. rewrite filter_app, filter_cons, filter_nil, decide_False, app_nil_r;
        [apply IHn|]. unfold of_node. cbn. by rewrite E.
    + intros j u. rewrite IHv. split; [intros (w & nd & Hw & Ew); exists w, nd; set_solver|].
      intros (w & nd & Hw & Ew). apply elem_of_app in Hw as [Hw|[= -> ->]%list_elem_of_singleton];
        [eauto|congruence].
Qed.

(** the snapshot of an epoch divides its stake.  Its total is the stake of all
    vote accounts; the total of a validator is the stake of the accounts listed
    for it; the accounts listed for a validator are, each once, the staked ones
    of readable state with that identity and an authorized voter, who is the one
    recorded. *)
Theorem epoch_stakes_by_node s :
  stakes_ok decode_vote s ->
  let es := EpochStakes_new decode_vote s leader_schedule_epoch in
  let accounts := VoteAccounts.vote_accounts (vote_accounts s) in
  total_stake es = lsum (vote_account_stake es) (map_to_list accounts).*1 /\
  (forall node nva, node_id_to_vote_accounts es !! node = Some nva ->
    node_total_stake nva = lsum (vote_account_stake es) (node_vote_accounts nva) /\
    NoDup (node_vote_accounts nva) /\
    (forall k, k ∈ node_vote_accounts nva <->
      exists v voter, accounts !! k = Some v /\ assigned v = Some (node, voter) /\
        epoch_authorized_voters es !! k = Some voter)).
Proof.
  intros Hok. cbn zeta. set (m := VoteAccounts.vote_accounts (vote_accounts s)).
  assert (Hsum : lsum (fun p => fst (snd p)) (map_to_list m) <= u64_max).
  { apply (accounts_total _ _ m (stakes_weights _ s Hok)), Hok. }
  assert (Hpos : forall p, p ∈ map_to_list m -> 0 <= fst (snd p)).
  { intros [k [n a]] Hk%elem_of_map_to_list.
    eapply (account_stake_range decode_vote); eauto using stakes_weights, accounts_exact. }
  pose proof (parse_list (map_to_list m) (NoDup_fst_map_to_list m)) as Hp.
  unfold EpochStakes_new, parse_epoch_vote_accounts. fold m.
  destruct (foldl _ (∅, ∅) (map_to_list m)) as [nodes voters]. destruct Hp as [Hn Hv].
  cbn [total_stake node_id_to_vote_accounts epoch_authorized_voters].
  match goal with |- context [vote_account_stake ?e] => set (es := e) end.
  assert (Hst : forall l, (forall p, p ∈ l -> p ∈ map_to_list m) ->
    lsum (vote_account_stake es) l.*1 = lsum (fun p => fst (snd p)) l).
  { intros l Hl. rewrite lsum_fmap. apply lsum_ext. intros [k [n a]] Hk.
    apply Hl, elem_of_map_to_list in Hk. unfold vote_account_stake. cbn. fold m. by rewrite Hk. }
  split.
  { rewrite (Hst (map_to_list m)) by done. rewrite sum_u64_wrap, lsum_fmap.
    apply wrap_small. split; [|exact Hsum]. by apply lsum_nonneg. }
  intros node nva E. specialize (Hn node). rewrite E in Hn. cbn in Hn. subst nva. cbn.
  assert (Hsub : forall p, p ∈ filter (of_node node) (map_to_list m) -> p ∈ map_to_list m)
    by (intros p [_ ?]%list_elem_of_filter; done).
  split_and!.
  - rewrite Hst by done. apply wrap_small. split; [apply lsum_nonneg; eauto|].
    etrans; [|exact Hsum]. rewrite lsum_filter. apply lsum_le. intros p Hp.
    specialize (Hpos p Hp). case_bool_decide; lia.
  - eapply sublist_NoDup; [apply (NoDup_fst_map_to_list m)|].
    apply fmap_sublist, sublist_filter.
  - intros k. rewrite list_elem_of_fmap. split.
    + intros ([j v] & -> & [Ho Hj]%list_elem_of_filter). cbn. unfold of_node in Ho. cbn in Ho.
      destruct (assigned v) as [[x voter]|] eqn:Ea; cbn in Ho; simplify_eq.
      exists v, voter. split; [by apply elem_of_map_to_list|]. split; [done|].
      apply Hv. eauto.
    + intros (v & voter & Hk & Ea & _). exists (k, v). split; [done|].
      apply list_elem_of_filter. split; [unfold of_node; cbn; by rewrite Ea|].
      by apply elem_of_map_to_list.
Qed.
End Snapshot.

(** ** A vote account with one delegation *)
Module StakesSample.
Definition decode_vote := VoteSample.decode.
Definition decode_stake := StakeSample.decode.
Definition size : nat := size_of VoteSample.encode (VoteSample.k 0).
Definition voter : Pubkey := VoteSample.k 1.
Definition staker : Pubkey := VoteSample.k 20.
Definition vote_acct : AccountSharedData :=
  VoteSample.account vote_program_id 1000 VoteSample.vote_data.
Definition staked : Stake :=
  {| delegation := Delegation_new voter 900 u64_max DEFAULT_WARMUP_COOLDOWN_RATE;
     credits_observed := 0 |}.
Definition stake_acct (l : Z) (st : StakeState.t) : AccountSharedData :=
  StakeSample.account stake_program_id l (StakeSample.bytes_of st).
Definition delegated_acct (l : Z) : AccountSharedData :=
  stake_acct l (StakeState.Stake StakeSample.meta staked).

Abbreviation run := (store decode_vote size decode_stake).
Definition s1 : Stakes := value_or Stakes_default (run Stakes_default voter vote_acct true).
Definition s2 : Stakes := value_or s1 (run s1 staker (delegated_acct 1000) true).
Definition s3 : Stakes :=
  with_vote_accounts s2 (snd (staked_nodes decode_vote (vote_accounts s2))).
Definition s4 : Stakes := activate_epoch s3 1.

Lemma allowed_vote s k flag : store_allowed decode_stake s k vote_acct flag.
Proof. intros H. vm_compute in H. discriminate. Qed.

Lemma reached : rtc (stakes_step decode_vote size decode_stake) Stakes_default s4.
Proof.
  apply (rtc_l _ _ s1).
  { apply (Step_store _ _ _ _ voter vote_acct true); [apply allowed_vote|].
    apply is_ok_value. by vm_compute. }
  apply (rtc_l _ _ s2).
  { apply (Step_store _ _ _ _ staker (delegated_acct 1000) true); cycle 1.
    { apply is_ok_value. by vm_compute. }
    intros _. split; [|done]. intros d Hd. vm_compute in Hd. injection Hd as <-.
    split; [by vm_compute|]. split; [by vm_compute|]. intros _ H. vm_compute in H. discriminate. }
  apply (rtc_l _ _ s3); [apply Step_staked_nodes|].
  apply rtc_once, Step_activate. by vm_compute.
Qed.

Lemma stakes_cache_exact_witness :
  VoteAccounts.vote_accounts (vote_accounts s4) !! voter = Some (900, vote_acct) /\
  900 = calculate_stake s4 voter (epoch s4) (Some (stake_history s4)) /\
  VoteAccounts.staked_nodes (vote_accounts s3) = Some {[VoteSample.k 2 := 900]}.
Proof.
  assert (VoteAccounts.vote_accounts (vote_accounts s4) !! voter = Some (900, vote_acct)) as H
    by (by vm_compute).
  split; [exact H|]. split; [|by vm_compute].
  exact (proj1 (stakes_cache_exact decode_vote size decode_stake s4 reached) voter 900 vote_acct H).
Defined.

Lemma epoch_change_equivalent_witness :
  activate_epoch s3 1 = clone_with_epoch s3 1 /\
  VoteAccounts.vote_accounts (vote_accounts (clone_with_epoch s3 1)) !! voter = Some (900, vote_acct).
Proof.
  split; [|by vm_compute]. apply (epoch_change_equivalent s3 1); [by vm_compute|].
  intros k d Hk. change (stake_delegations s3) with (stake_delegations s2) in Hk.
  replace (stake_delegations s2) with ({[staker := delegation staked]} : gmap Pubkey Delegation)
    in Hk by (by vm_compute).
  apply lookup_singleton_Some in Hk as [_ <-]. by vm_compute.
Defined.

Lemma epoch_stakes_by_node_witness :
  let es := EpochStakes_new decode_vote s4 5 in
  node_id_to_vote_accounts es !! VoteSample.k 2
    = Some {| node_vote_accounts := [voter]; node_total_stake := 900 |} /\
  900 = lsum (vote_account_stake es) [voter] /\ total_stake es = 900.
Proof.
  cbn zeta. split; [by vm_compute|]. split; [|by vm_compute].
  apply (proj2 (epoch_stakes_by_node decode_vote 5 s4
    (reachable_ok decode_vote size decode_stake s4 reached)) (VoteSample.k 2)
    {| node_vote_accounts := [voter]; node_total_stake := 900 |}). by vm_compute.
Defined.

(** an emptied stake account stays in the cache.  A stake account stored with
    no lamports but with its delegation still in the data is not removed (with
    the feature [stakes_remove_delegation_if_inactive]), contrary to the comment
    in [store]: its voter loses the stake, the delegation is still counted, and
    storing the account again panics. *)
Example emptied_stake_stays_counted :
  let s5 := value_or s2 (run s2 staker (delegated_acct 0) true) in
  run s2 staker (delegated_acct 0) true = Ok s5 /\
  stake_delegations s5 !! staker = Some (delegation staked) /\
  VoteAccounts.vote_accounts (vote_accounts s5) !! voter = Some (0, vote_acct) /\
  calculate_stake s5 voter (epoch s5) (Some (stake_history s5)) = 900 /\
  run s5 staker (stake_acct 500 StakeState.Uninitialized) true = Panic.
Proof. vm_compute. repeat split. Qed.
End StakesSample.
