(* ===== verification/TokenState.v ===== *)
(** * SPL token: packed account state

    Models [src/solana-program-library/token/program/src/state.rs]: the three
    account types of the token program, their byte layout, and the proof that
    each one satisfies the contract of the [Pack] trait. *)

From stdpp Require Import base gmap list fin_maps.
From Stdlib Require Import ZArith Lia.
From S2P Require Import Prelude Sdk.

Definition MIN_SIGNERS : nat := 1.
Definition MAX_SIGNERS : nat := 11.

(** ** Data *)
Record Mint := {
  mint_authority : option Pubkey;
  supply : Z;
  decimals : Z;
  mint_is_initialized : bool;
  freeze_authority : option Pubkey;
}.

Inductive AccountState := Uninitialized | Initialized | Frozen.

#[global] Instance AccountState_eq_dec : EqDecision AccountState.
Proof. solve_decision. Defined.

Record Account := {
  a_mint : Pubkey;
  a_owner : Pubkey;
  amount : Z;
  delegate : option Pubkey;
  state : AccountState;
  native_reserve : option Z;
  delegated_amount : Z;
  close_authority : option Pubkey;
}.

Record Multisig := {
  m_required : Z;
  n_valid : Z;
  ms_is_initialized : bool;
  signers : list Pubkey;
}.

Definition is_frozen (a : Account) : bool := bool_decide (state a = Frozen).
Definition is_native (a : Account) : bool := bool_decide (is_Some (native_reserve a)).

(** ** Helpers for the optional fields *)
Definition pack_coption_key (src : option Pubkey) (dst : list Z) : list Z :=
  match src with
  | Some k => [1; 0; 0; 0] ++ k
  | None => [0; 0; 0; 0] ++ drop 4 dst
  end.

Definition unpack_coption_key (src : list Z) : program_result (option Pubkey) :=
  let '(tag, body) := split_at 4 src in
  match tag with
  | [0; 0; 0; 0] => Ok None
  | [1; 0; 0; 0] => Ok (Some body)
  | _ => Err InvalidAccountData
  end.

Definition pack_coption_u64 (src : option Z) (dst : list Z) : list Z :=
  match src with
  | Some n => [1; 0; 0; 0] ++ to_le_bytes 8 n
  | None => [0; 0; 0; 0] ++ drop 4 dst
  end.

Definition unpack_coption_u64 (src : list Z) : program_result (option Z) :=
  let '(tag, body) := split_at 4 src in
  match tag with
  | [0; 0; 0; 0] => Ok None
  | [1; 0; 0; 0] => Ok (Some (from_le_bytes body))
  | _ => Err InvalidAccountData
  end.

Definition unpack_bool (src : list Z) : program_result bool :=
  match src with
  | [0] => Ok false
  | [1] => Ok true
  | _ => Err InvalidAccountData
  end.

Definition AccountState_try_from (b : Z) : program_result AccountState :=
  match b with
  | 0 => Ok Uninitialized
  | 1 => Ok Initialized
  | 2 => Ok Frozen
  | _ => Err InvalidAccountData
  end.

Definition AccountState_as_u8 (s : AccountState) : Z :=
  match s with Uninitialized => 0 | Initialized => 1 | Frozen => 2 end.

(** ** Mint *)
Definition Mint_unpack_from_slice (src : list Z) : program_result Mint :=
  panic_unless (Nat.leb 82 (length src)) ;;
  let '(ma, r) := split_at 36 (take 82 src) in
  let '(su, r) := split_at 8 r in
  let '(de, r) := split_at 1 r in
  let '(ini, fa) := split_at 1 r in
  mint_authority ← unpack_coption_key ma;
  is_initialized ← unpack_bool ini;
  freeze_authority ← unpack_coption_key fa;
  Ok {| mint_authority := mint_authority; supply := from_le_bytes su;
        decimals := nth 0 de 0; mint_is_initialized := is_initialized;
        freeze_authority := freeze_authority |}.

Definition Mint_pack_into_slice (m : Mint) (dst : list Z) : list Z :=
  let ma := take 36 dst in
  let fa := take 36 (drop 46 dst) in
  pack_coption_key (mint_authority m) ma ++
  to_le_bytes 8 (supply m) ++ [decimals m] ++
  [Z.b2z (mint_is_initialized m)] ++
  pack_coption_key (freeze_authority m) fa ++ drop 82 dst.

#[global] Instance Mint_Pack : Pack Mint := {
  LEN := 82;
  is_initialized := mint_is_initialized;
  pack_into_slice := Mint_pack_into_slice;
  unpack_from_slice := Mint_unpack_from_slice;
}.

(** ** Token account *)
Definition Account_unpack_from_slice (src : list Z) : program_result Account :=
  panic_unless (Nat.leb 165 (length src)) ;;
  let '(mint, r) := split_at 32 (take 165 src) in
  let '(own, r) := split_at 32 r in
  let '(amt, r) := split_at 8 r in
  let '(del, r) := split_at 36 r in
  let '(sta, r) := split_at 1 r in
  let '(nat_, r) := split_at 12 r in
  let '(dam, clo) := split_at 8 r in
  delegate ← unpack_coption_key del;
  state ← AccountState_try_from (nth 0 sta 0);
  native_reserve ← unpack_coption_u64 nat_;
  close_authority ← unpack_coption_key clo;
  Ok {| a_mint := mint; a_owner := own; amount := from_le_bytes amt;
        delegate := delegate; state := state; native_reserve := native_reserve;
        delegated_amount := from_le_bytes dam;
        close_authority := close_authority |}.

Definition Account_pack_into_slice (a : Account) (dst : list Z) : list Z :=
  let del := take 36 (drop 72 dst) in
  let nat_ := take 12 (drop 109 dst) in
  let clo := take 36 (drop 129 dst) in
  a_mint a ++ a_owner a ++ to_le_bytes 8 (amount a) ++
  pack_coption_key (delegate a) del ++ [AccountState_as_u8 (state a)] ++
  pack_coption_u64 (native_reserve a) nat_ ++
  to_le_bytes 8 (delegated_amount a) ++
  pack_coption_key (close_authority a) clo ++ drop 165 dst.

#[global] Instance Account_Pack : Pack Account := {
  LEN := 165;
  is_initialized := fun a => negb (bool_decide (state a = Uninitialized));
  pack_into_slice := Account_pack_into_slice;
  unpack_from_slice := Account_unpack_from_slice;
}.

(** ** Multisig *)
Fixpoint chunks32 (n : nat) (l : list Z) : list Pubkey :=
  match n with
  | O => []
  | S n => take 32 l :: chunks32 n (drop 32 l)
  end.

Definition Multisig_unpack_from_slice (src : list Z) : program_result Multisig :=
  panic_unless (Nat.leb 355 (length src)) ;;
  let '(m, r) := split_at 1 (take 355 src) in
  let '(n, r) := split_at 1 r in
  let '(ini, signers_flat) := split_at 1 r in
  is_initialized ← unpack_bool ini;
  Ok {| m_required := nth 0 m 0; n_valid := nth 0 n 0;
        ms_is_initialized := is_initialized;
        signers := chunks32 MAX_SIGNERS signers_flat |}.

Definition Multisig_pack_into_slice (x : Multisig) (dst : list Z) : list Z :=
  [m_required x] ++ [n_valid x] ++ [Z.b2z (ms_is_initialized x)] ++
  concat (signers x) ++ drop 355 dst.

#[global] Instance Multisig_Pack : Pack Multisig := {
  LEN := 355;
  is_initialized := ms_is_initialized;
  pack_into_slice := Multisig_pack_into_slice;
  unpack_from_slice := Multisig_unpack_from_slice;
}.

(** ** Well-formed states *)
Definition wf_okey (o : option Pubkey) : Prop :=
  match o with Some k => wf_key k | None => True end.
Definition wf_ou64 (o : option Z) : Prop :=
  match o with Some n => is_u64 n | None => True end.

Record wf_mint (m : Mint) : Prop := {
  wfm_authority : wf_okey (mint_authority m);
  wfm_supply : is_u64 (supply m);
  wfm_decimals : is_u8 (decimals m);
  wfm_freeze : wf_okey (freeze_authority m);
}.

Record wf_account (a : Account) : Prop := {
  wfa_mint : wf_key (a_mint a);
  wfa_owner : wf_key (a_owner a);
  wfa_amount : is_u64 (amount a);
  wfa_delegate : wf_okey (delegate a);
  wfa_native : wf_ou64 (native_reserve a);
  wfa_delegated : is_u64 (delegated_amount a);
  wfa_close : wf_okey (close_authority a);
}.

Record wf_multisig (x : Multisig) : Prop := {
  wfs_m : is_u8 (m_required x);
  wfs_n : is_u8 (n_valid x);
  wfs_len : length (signers x) = MAX_SIGNERS;
  wfs_keys : Forall wf_key (signers x);
}.

(** ** Lemmas on the fields *)
Section Fields.
Implicit Types (l dst : list Z) (k : Pubkey).

Lemma length_pack_coption_key o dst :
  length dst = 36%nat -> wf_okey o -> length (pack_coption_key o dst) = 36%nat.
Proof. intros Hl Ho. destruct o as [k|]; cbn; [by destruct Ho as [-> _]|rewrite length_drop; lia]. Qed.

Lemma length_pack_coption_u64 o dst :
  length dst = 12%nat -> length (pack_coption_u64 o dst) = 12%nat.
Proof. intros Hl. destruct o; cbn; rewrite ?length_drop, ?length_to_le_bytes; lia. Qed.

Lemma unpack_pack_coption_key o dst :
  wf_okey o -> unpack_coption_key (pack_coption_key o dst) = Ok o.
Proof. by destruct o. Qed.

Lemma unpack_pack_coption_u64 o dst :
  wf_ou64 o -> unpack_coption_u64 (pack_coption_u64 o dst) = Ok o.
Proof.
  destruct o as [n|]; [intros Hn|done].
  change (unpack_coption_u64 (pack_coption_u64 (Some n) dst))
    with (Ok (E := ProgramError) (Some (from_le_bytes (to_le_bytes 8 n)))).
  by rewrite u64_le_roundtrip.
Qed.

Lemma unpack_bool_b2z b : unpack_bool [Z.b2z b] = Ok b.
Proof. by destruct b. Qed.

Lemma AccountState_roundtrip s : AccountState_try_from (AccountState_as_u8 s) = Ok s.
Proof. by destruct s. Qed.

Lemma unpack_coption_key_wf src o :
  length src = 36%nat -> bytes src -> unpack_coption_key src = Ok o -> wf_okey o.
Proof.
  intros Hl Hb. unfold unpack_coption_key, split_at.
  repeat (case_match; try discriminate); intros [= <-]; cbn; auto.
  split; [rewrite length_drop; lia|by apply bytes_drop].
Qed.

Lemma from_le_bytes_u64 l : length l = 8%nat -> bytes l -> is_u64 (from_le_bytes l).
Proof.
  intros Hl Hb. pose proof (from_le_bytes_range l Hb) as Hr. rewrite Hl in Hr.
  unfold_max. change (256 ^ Z.of_nat 8) with 18446744073709551616 in Hr. lia.
Qed.

Lemma unpack_coption_u64_wf src o :
  length src = 12%nat -> bytes src -> unpack_coption_u64 src = Ok o -> wf_ou64 o.
Proof.
  intros Hl Hb. unfold unpack_coption_u64, split_at.
  repeat (case_match; try discriminate); intros [= <-]; cbn; auto.
  apply from_le_bytes_u64; [rewrite length_drop; lia|by apply bytes_drop].
Qed.

Lemma bytes_nth l n : bytes l -> is_u8 (nth n l 0).
Proof.
  intros Hb. unfold_max. destruct (Nat.lt_ge_cases n (length l)) as [Hn|Hn].
  - unfold bytes in Hb. rewrite Forall_forall in Hb.
    specialize (Hb (nth n l 0)). rewrite list_elem_of_In in Hb.
    pose proof (Hb (nth_In l 0 Hn)). lia.
  - rewrite nth_overflow by done. lia.
Qed.

Lemma chunks32_concat (ks : list Pubkey) l :
  Forall wf_key ks -> chunks32 (length ks) (concat ks ++ l) = ks.
Proof.
  induction 1 as [|k ks [Hk _] _ IH]; cbn; [done|].
  rewrite <- app_assoc, take_app_exact, drop_app_exact by done. by rewrite IH.
Qed.

Lemma length_concat_keys (ks : list Pubkey) :
  Forall wf_key ks -> length (concat ks) = (32 * length ks)%nat.
Proof. induction 1 as [|k ks [Hk _] _ IH]; cbn; [done|]. rewrite length_app. lia. Qed.

Lemma length_chunks32 n l : length (chunks32 n l) = n.
Proof. revert l. induction n; intros; cbn; auto. Qed.

Lemma chunks32_wf n l :
  bytes l -> length l = (32 * n)%nat -> Forall wf_key (chunks32 n l).
Proof.
  revert l. induction n as [|n IH]; intros l Hb Hl; cbn; constructor.
  - split; [rewrite length_take; lia|by apply bytes_take].
  - apply IH; [by apply bytes_drop|rewrite length_drop; lia].
Qed.
End Fields.

(** ** The [Pack] contract

    [cut] cuts a concatenation of fields back into the fields, given their
    lengths. *)
Lemma split_at_app {A} n (l l' : list A) :
  length l = n -> split_at n (l ++ l') = (l, l').
Proof. intros <-. unfold split_at. by rewrite take_app_length, drop_app_length. Qed.

Ltac len := autorewrite with rust; cbn [length]; lia.
Ltac byt := repeat first [assumption | apply bytes_take | apply bytes_drop].
Ltac cut := rewrite split_at_app by (assumption || len || done).

Lemma bytes_tag b : is_u8 b -> bytes [b; 0; 0; 0].
Proof. unfold_max. repeat constructor; lia. Qed.

Lemma bytes_pack_coption_key o dst :
  bytes dst -> wf_okey o -> bytes (pack_coption_key o dst).
Proof.
  intros Hd Ho. destruct o as [k|]; apply bytes_app; try (apply bytes_tag; done).
  - apply Ho.
  - byt.
Qed.

Lemma bytes_pack_coption_u64 o dst :
  bytes dst -> bytes (pack_coption_u64 o dst).
Proof.
  intros Hd. destruct o as [k|]; apply bytes_app; try (apply bytes_tag; done).
  - apply to_le_bytes_bytes.
  - byt.
Qed.

Lemma bytes_singleton b : is_u8 b -> bytes [b].
Proof. unfold_max. repeat constructor; lia. Qed.

Lemma is_u8_b2z b : is_u8 (Z.b2z b).
Proof. unfold_max. destruct b; cbn; lia. Qed.

#[local] Hint Resolve bytes_pack_coption_key bytes_pack_coption_u64
  bytes_singleton is_u8_b2z : rust.

Lemma Mint_pack_length m dst :
  length dst = 82%nat -> wf_mint m -> length (Mint_pack_into_slice m dst) = 82%nat.
Proof.
  intros Hl [Ha Hs Hd Hf]. unfold Mint_pack_into_slice.
  rewrite !length_app, !length_pack_coption_key by (len || assumption). len.
Qed.

Lemma Mint_pack_bytes m dst :
  bytes dst -> wf_mint m -> bytes (Mint_pack_into_slice m dst).
Proof.
  intros Hb [Ha Hs Hd Hf]. unfold Mint_pack_into_slice.
  repeat apply bytes_app; auto with rust.
Qed.

Lemma Mint_unpack_pack m dst :
  length dst = 82%nat -> wf_mint m ->
  Mint_unpack_from_slice (Mint_pack_into_slice m dst) = Ok m.
Proof.
  intros Hl [Ha Hs Hd Hf]. unfold Mint_unpack_from_slice, Mint_pack_into_slice.
  set (f1 := pack_coption_key (mint_authority m) _).
  set (f5 := pack_coption_key (freeze_authority m) _).
  assert (length f1 = 36%nat) as H1 by (apply length_pack_coption_key; [cbn; len|done]).
  assert (length f5 = 36%nat) as H5 by (apply length_pack_coption_key; [cbn; len|done]).
  rewrite (drop_ge dst) by lia. rewrite app_nil_r, take_ge by len.
  replace (Nat.leb 82 _) with true by (symmetry; apply Nat.leb_le; len).
  cbn [panic_unless mbind result_bind]. do 4 cut.
  unfold f1, f5. rewrite !unpack_pack_coption_key, unpack_bool_b2z by done. cbn.
  rewrite u64_le_roundtrip by done. by destruct m.
Qed.

Lemma Mint_unpack_wf src m :
  length src = 82%nat -> bytes src -> Mint_unpack_from_slice src = Ok m -> wf_mint m.
Proof.
  intros Hl Hb. unfold Mint_unpack_from_slice, split_at. intros H. inv_ok.
  split; cbn.
  - eapply unpack_coption_key_wf; [| |eassumption]; [len|byt].
  - apply from_le_bytes_u64; [len|byt].
  - apply bytes_nth. byt.
  - eapply unpack_coption_key_wf; [| |eassumption]; [len|byt].
Qed.

#[global] Instance Mint_PackOk : PackOk Mint := {|
  wf_state := wf_mint;
  pack_length := Mint_pack_length;
  pack_bytes := Mint_pack_bytes;
  unpack_pack_slice := Mint_unpack_pack;
  unpack_wf := Mint_unpack_wf;
|}.

Lemma Account_pack_length a dst :
  length dst = 165%nat -> wf_account a ->
  length (Account_pack_into_slice a dst) = 165%nat.
Proof.
  intros Hl [[Hm _] [Ho _] Ham Hd Hn Hda Hc].
  unfold Account_pack_into_slice.
  rewrite !length_app, !length_pack_coption_key, length_pack_coption_u64
    by (len || assumption).
  rewrite Hm, Ho. len.
Qed.

Lemma AccountState_as_u8_range s : is_u8 (AccountState_as_u8 s).
Proof. unfold_max. destruct s; cbn; lia. Qed.

Lemma Account_pack_bytes a dst :
  bytes dst -> wf_account a -> bytes (Account_pack_into_slice a dst).
Proof.
  intros Hb [[_ Hm] [_ Ho] Ham Hd Hn Hda Hc]. unfold Account_pack_into_slice.
  pose proof (AccountState_as_u8_range (state a)).
  repeat apply bytes_app; auto 6 with rust.
Qed.

Lemma Account_unpack_pack a dst :
  length dst = 165%nat -> wf_account a ->
  Account_unpack_from_slice (Account_pack_into_slice a dst) = Ok a.
Proof.
  intros Hl [[Hm _] [Ho _] Ham Hd Hn Hda Hc].
  unfold Account_unpack_from_slice, Account_pack_into_slice.
  set (f4 := pack_coption_key (delegate a) _).
  set (f6 := pack_coption_u64 (native_reserve a) _).
  set (f8 := pack_coption_key (close_authority a) _).
  assert (length f4 = 36%nat) as H4 by (apply length_pack_coption_key; [len|done]).
  assert (length f6 = 12%nat) as H6 by (apply length_pack_coption_u64; len).
  assert (length f8 = 36%nat) as H8 by (apply length_pack_coption_key; [len|done]).
  rewrite (drop_ge dst) by lia. rewrite app_nil_r, take_ge by len.
  replace (Nat.leb 165 _) with true by (symmetry; apply Nat.leb_le; len).
  cbn [panic_unless mbind result_bind]. do 7 cut.
  unfold f4, f6, f8.
  rewrite !unpack_pack_coption_key, unpack_pack_coption_u64 by done. cbn.
  rewrite AccountState_roundtrip. cbn. rewrite !u64_le_roundtrip by done.
  by destruct a.
Qed.

Lemma Account_unpack_wf src a :
  length src = 165%nat -> bytes src ->
  Account_unpack_from_slice src = Ok a -> wf_account a.
Proof.
  intros Hl Hb. unfold Account_unpack_from_slice, split_at. intros H. inv_ok.
  split; cbn; try (split; [len|byt]);
    try (apply from_le_bytes_u64; [len|byt]).
  - eapply unpack_coption_key_wf; [| |eassumption]; [len|byt].
  - eapply unpack_coption_u64_wf; [| |eassumption]; [len|byt].
  - eapply unpack_coption_key_wf; [| |eassumption]; [len|byt].
Qed.

#[global] Instance Account_PackOk : PackOk Account := {|
  wf_state := wf_account;
  pack_length := Account_pack_length;
  pack_bytes := Account_pack_bytes;
  unpack_pack_slice := Account_unpack_pack;
  unpack_wf := Account_unpack_wf;
|}.

Lemma Multisig_pack_length x dst :
  length dst = 355%nat -> wf_multisig x ->
  length (Multisig_pack_into_slice x dst) = 355%nat.
Proof.
  intros Hl [Hm Hn Hs Hk]. unfold Multisig_pack_into_slice.
  rewrite !length_app, length_concat_keys, Hs by done. unfold MAX_SIGNERS. len.
Qed.

Lemma Multisig_pack_bytes x dst :
  bytes dst -> wf_multisig x -> bytes (Multisig_pack_into_slice x dst).
Proof.
  intros Hb [Hm Hn _ Hk]. unfold Multisig_pack_into_slice.
  repeat apply bytes_app; auto with rust.
  induction Hk as [|k ks [_ Hk] _ IH]; cbn; [constructor|by apply bytes_app].
Qed.

Lemma Multisig_unpack_pack x dst :
  length dst = 355%nat -> wf_multisig x ->
  Multisig_unpack_from_slice (Multisig_pack_into_slice x dst) = Ok x.
Proof.
  intros Hl Hx. pose proof (Multisig_pack_length x dst Hl Hx) as Hlen.
  destruct Hx as [Hm Hn Hs Hk].
  unfold Multisig_unpack_from_slice. rewrite take_ge, Hlen by lia.
  unfold Multisig_pack_into_slice. cbn [Nat.leb panic_unless mbind result_bind].
  do 3 cut. rewrite unpack_bool_b2z. cbn [mbind result_bind].
  rewrite <- Hs, chunks32_concat by done. by destruct x.
Qed.

Lemma Multisig_unpack_wf src x :
  length src = 355%nat -> bytes src ->
  Multisig_unpack_from_slice src = Ok x -> wf_multisig x.
Proof.
  intros Hl Hb. unfold Multisig_unpack_from_slice, split_at. intros H.
  with_strategy opaque [chunks32] inv_ok. split; cbn [m_required n_valid signers].
  - apply bytes_nth. byt.
  - apply bytes_nth. byt.
  - apply length_chunks32.
  - apply chunks32_wf; [byt|]. unfold MAX_SIGNERS. len.
Qed.

#[global] Instance Multisig_PackOk : PackOk Multisig := {|
  wf_state := wf_multisig;
  pack_length := Multisig_pack_length;
  pack_bytes := Multisig_pack_bytes;
  unpack_pack_slice := Multisig_unpack_pack;
  unpack_wf := Multisig_unpack_wf;
|}.

(** ** Round trips through account data *)
(** Packing an initialized token account into its 165 bytes and unpacking
    it gives the account back. *)
Theorem account_roundtrip (a : Account) dst :
  length dst = LEN Account -> wf_account a -> state a <> Uninitialized ->
  exists d, pack a dst = Ok d /\ length d = LEN Account /\ unpack d = Ok a.
Proof.
  intros Hl Hw Hs. eexists. split; [by apply pack_Ok|]. split; [by apply Account_pack_length|].
  rewrite unpack_pack by done. cbn. by destruct (state a).
Qed.

(** Packing an initialized mint or multisig into its bytes and unpacking
    it gives it back. *)
Theorem mint_multisig_roundtrip (m : Mint) (x : Multisig) dst dst' :
  length dst = LEN Mint -> wf_mint m -> mint_is_initialized m = true ->
  length dst' = LEN Multisig -> wf_multisig x -> ms_is_initialized x = true ->
  (exists d, pack m dst = Ok d /\ unpack d = Ok m) /\
  (exists d, pack x dst' = Ok d /\ unpack d = Ok x).
Proof.
  intros Hl Hm Hi Hl' Hx Hi'. split; eexists; (split; [by apply pack_Ok|]).
  - rewrite unpack_pack by done. cbn. by rewrite Hi.
  - rewrite unpack_pack by done. cbn. by rewrite Hi'.
Qed.

Module StateSample.
Definition k (n : Z) : Pubkey := n :: replicate 31 5.
Definition a : Account :=
  {| a_mint := k 1; a_owner := k 2; amount := 1000000; delegate := Some (k 3);
     state := Frozen; native_reserve := None; delegated_amount := 77;
     close_authority := Some (k 4) |}.
Definition m : Mint :=
  {| mint_authority := Some (k 5); supply := u64_max; decimals := 9;
     mint_is_initialized := true; freeze_authority := None |}.
Definition x : Multisig :=
  {| m_required := 1; n_valid := 2; ms_is_initialized := true;
     signers := [k 6; k 7] ++ replicate 9 default_key |}.

Lemma wf_k n : 0 <= n <= 255 -> wf_key (k n).
Proof. intros Hn. split; [done|]. repeat constructor; lia. Qed.

Lemma account_roundtrip_witness :
  exists d, pack a (replicate 165 0) = Ok d /\ length d = LEN Account /\ unpack d = Ok a.
Proof.
  apply (account_roundtrip a (replicate 165 0)); [reflexivity| |discriminate].
  split; cbn; try (apply wf_k; lia); unfold_max; done || lia.
Defined.

Lemma mint_multisig_roundtrip_witness :
  (exists d, pack m (replicate 82 0) = Ok d /\ unpack d = Ok m) /\
  (exists d, pack x (replicate 355 0) = Ok d /\ unpack d = Ok x).
Proof.
  apply (mint_multisig_roundtrip m x); try reflexivity.
  - split; cbn; try (apply wf_k; lia); unfold_max; done || lia.
  - split; cbn; try (unfold_max; lia); [done|].
    repeat constructor; try apply wf_k; cbn; lia.
Defined.
End StateSample.
