(* ===== verification/TokenInstruction.v ===== *)
(** * SPL token: errors and the instruction codec

    Models [src/solana-program-library/token/program/src/error.rs] and the
    wire format of [instruction.rs] ([TokenInstruction::unpack]/[pack]). *)

From stdpp Require Import base gmap list fin_maps.
From Stdlib Require Import ZArith Lia.
From S2P Require Import Prelude Sdk TokenState.

Module TokenError.
Inductive t : Type :=
| NotRentExempt | InsufficientFunds | InvalidMint | MintMismatch | OwnerMismatch
| FixedSupply | AlreadyInUse | InvalidNumberOfProvidedSigners
| InvalidNumberOfRequiredSigners | UninitializedState | NativeNotSupported
| NonNativeHasBalance | InvalidInstruction | InvalidState | Overflow
| AuthorityTypeNotSupported | MintCannotFreeze | AccountFrozen
| MintDecimalsMismatch | NonNativeNotSupported.

Definition discriminant (e : t) : Z :=
  match e with
  | NotRentExempt => 0 | InsufficientFunds => 1 | InvalidMint => 2
  | MintMismatch => 3 | OwnerMismatch => 4 | FixedSupply => 5
  | AlreadyInUse => 6 | InvalidNumberOfProvidedSigners => 7
  | InvalidNumberOfRequiredSigners => 8 | UninitializedState => 9
  | NativeNotSupported => 10 | NonNativeHasBalance => 11
  | InvalidInstruction => 12 | InvalidState => 13 | Overflow => 14
  | AuthorityTypeNotSupported => 15 | MintCannotFreeze => 16
  | AccountFrozen => 17 | MintDecimalsMismatch => 18
  | NonNativeNotSupported => 19
  end.

(** [impl From<TokenError> for ProgramError]. *)
Definition into (e : t) : ProgramError := Custom (discriminant e).
End TokenError.

Inductive AuthorityType := MintTokens | FreezeAccount | AccountOwner | CloseAccount.

Definition AuthorityType_into (a : AuthorityType) : Z :=
  match a with
  | MintTokens => 0 | FreezeAccount => 1 | AccountOwner => 2 | CloseAccount => 3
  end.

Definition AuthorityType_from (index : Z) : program_result AuthorityType :=
  match index with
  | 0 => Ok MintTokens
  | 1 => Ok FreezeAccount
  | 2 => Ok AccountOwner
  | 3 => Ok CloseAccount
  | _ => Err (TokenError.into TokenError.InvalidInstruction)
  end.

Module TokenInstruction.
Inductive t : Type :=
| InitializeMint (decimals : Z) (mint_authority : Pubkey)
    (freeze_authority : option Pubkey)
| InitializeAccount
| InitializeMultisig (m : Z)
| Transfer (amount : Z)
| Approve (amount : Z)
| Revoke
| SetAuthority (authority_type : AuthorityType) (new_authority : option Pubkey)
| MintTo (amount : Z)
| Burn (amount : Z)
| CloseAccount
| FreezeAccount
| ThawAccount
| TransferChecked (amount decimals : Z)
| ApproveChecked (amount decimals : Z)
| MintToChecked (amount decimals : Z)
| BurnChecked (amount decimals : Z)
| InitializeAccount2 (owner : Pubkey)
| SyncNative
| InitializeAccount3 (owner : Pubkey)
| InitializeMultisig2 (m : Z)
| InitializeMint2 (decimals : Z) (mint_authority : Pubkey)
    (freeze_authority : option Pubkey).

Definition invalid : ProgramError := TokenError.into TokenError.InvalidInstruction.

Definition split_first (l : list Z) : program_result (Z * list Z) :=
  match l with b :: rest => Ok (b, rest) | [] => Err invalid end.

Definition unpack_pubkey (input : list Z) : program_result (Pubkey * list Z) :=
  if Nat.leb 32 (length input) then Ok (split_at 32 input) else Err invalid.

Definition unpack_pubkey_option (input : list Z)
  : program_result (option Pubkey * list Z) :=
  match input with
  | 0 :: rest => Ok (None, rest)
  | 1 :: rest =>
      if Nat.leb 32 (length rest)
      then let '(k, rest) := split_at 32 rest in Ok (Some k, rest)
      else Err invalid
  | _ => Err invalid
  end.

Definition pack_pubkey_option (value : option Pubkey) : list Z :=
  match value with Some k => 1 :: k | None => [0] end.

(** [rest.get(..8).and_then(..).map(u64::from_le_bytes).ok_or(..)] *)
Definition unpack_amount (rest : list Z) : program_result Z :=
  if Nat.leb 8 (length rest) then Ok (from_le_bytes (take 8 rest)) else Err invalid.

(** The checked variants use [split_at(8)], which panics on a short slice. *)
Definition unpack_amount_decimals (rest : list Z) : program_result (Z * Z) :=
  panic_unless (Nat.leb 8 (length rest)) ;;
  let '(amount, rest) := split_at 8 rest in
  '(decimals, _) ← split_first rest;
  Ok (from_le_bytes amount, decimals).

Definition unpack_mint (mk : Z -> Pubkey -> option Pubkey -> t) (rest : list Z)
  : program_result t :=
  '(decimals, rest) ← split_first rest;
  '(mint_authority, rest) ← unpack_pubkey rest;
  '(freeze_authority, _) ← unpack_pubkey_option rest;
  Ok (mk decimals mint_authority freeze_authority).

Definition unpack (input : list Z) : program_result t :=
  '(tag, rest) ← split_first input;
  match tag with
  | 0 => unpack_mint InitializeMint rest
  | 1 => Ok InitializeAccount
  | 2 => '(m, _) ← split_first rest; Ok (InitializeMultisig m)
  | 3 => Transfer <$> unpack_amount rest
  | 4 => Approve <$> unpack_amount rest
  | 7 => MintTo <$> unpack_amount rest
  | 8 => Burn <$> unpack_amount rest
  | 5 => Ok Revoke
  | 6 =>
      '(ty, rest) ← split_first rest;
      authority_type ← AuthorityType_from ty;
      '(new_authority, _) ← unpack_pubkey_option rest;
      Ok (SetAuthority authority_type new_authority)
  | 9 => Ok CloseAccount
  | 10 => Ok FreezeAccount
  | 11 => Ok ThawAccount
  | 12 => '(amount, decimals) ← unpack_amount_decimals rest;
          Ok (TransferChecked amount decimals)
  | 13 => '(amount, decimals) ← unpack_amount_decimals rest;
          Ok (ApproveChecked amount decimals)
  | 14 => '(amount, decimals) ← unpack_amount_decimals rest;
          Ok (MintToChecked amount decimals)
  | 15 => '(amount, decimals) ← unpack_amount_decimals rest;
          Ok (BurnChecked amount decimals)
  | 16 => '(owner, _) ← unpack_pubkey rest; Ok (InitializeAccount2 owner)
  | 17 => Ok SyncNative
  | 18 => '(owner, _) ← unpack_pubkey rest; Ok (InitializeAccount3 owner)
  | 19 => '(m, _) ← split_first rest; Ok (InitializeMultisig2 m)
  | 20 => unpack_mint InitializeMint2 rest
  | _ => Err invalid
  end.

Definition pack (i : t) : list Z :=
  match i with
  | InitializeMint d ma fa => 0 :: d :: ma ++ pack_pubkey_option fa
  | InitializeAccount => [1]
  | InitializeMultisig m => [2; m]
  | Transfer amount => 3 :: to_le_bytes 8 amount
  | Approve amount => 4 :: to_le_bytes 8 amount
  | MintTo amount => 7 :: to_le_bytes 8 amount
  | Burn amount => 8 :: to_le_bytes 8 amount
  | Revoke => [5]
  | SetAuthority ty na => 6 :: AuthorityType_into ty :: pack_pubkey_option na
  | CloseAccount => [9]
  | FreezeAccount => [10]
  | ThawAccount => [11]
  | TransferChecked amount d => 12 :: to_le_bytes 8 amount ++ [d]
  | ApproveChecked amount d => 13 :: to_le_bytes 8 amount ++ [d]
  | MintToChecked amount d => 14 :: to_le_bytes 8 amount ++ [d]
  | BurnChecked amount d => 15 :: to_le_bytes 8 amount ++ [d]
  | InitializeAccount2 owner => 16 :: owner
  | SyncNative => [17]
  | InitializeAccount3 owner => 18 :: owner
  | InitializeMultisig2 m => [19; m]
  | InitializeMint2 d ma fa => 20 :: d :: ma ++ pack_pubkey_option fa
  end.

(** Field ranges of an instruction value. *)
Definition wf (i : t) : Prop :=
  match i with
  | InitializeMint d ma fa | InitializeMint2 d ma fa =>
      is_u8 d /\ wf_key ma /\ wf_okey fa
  | InitializeMultisig m | InitializeMultisig2 m => is_u8 m
  | Transfer n | Approve n | MintTo n | Burn n => is_u64 n
  | SetAuthority _ na => wf_okey na
  | TransferChecked n d | ApproveChecked n d | MintToChecked n d
  | BurnChecked n d => is_u64 n /\ is_u8 d
  | InitializeAccount2 k | InitializeAccount3 k => wf_key k
  | _ => True
  end.

Section Codec.
Implicit Types (rest : list Z) (k : Pubkey).

Lemma unpack_pubkey_app k rest : wf_key k -> unpack_pubkey (k ++ rest) = Ok (k, rest).
Proof.
  intros [Hk _]. unfold unpack_pubkey. rewrite split_at_app by done.
  rewrite length_app, Hk. done.
Qed.

Lemma unpack_pubkey_exact k : wf_key k -> unpack_pubkey k = Ok (k, []).
Proof. intros Hk. rewrite <- (app_nil_r k) at 1. by apply unpack_pubkey_app. Qed.

Lemma unpack_pubkey_option_pack o :
  wf_okey o -> unpack_pubkey_option (pack_pubkey_option o) = Ok (o, []).
Proof.
  destruct o as [k|]; [intros [Hk _]|done]. cbn [pack_pubkey_option unpack_pubkey_option].
  rewrite Hk. cbn [Nat.leb]. rewrite <- (app_nil_r k) at 1.
  by rewrite split_at_app.
Qed.

Lemma unpack_amount_le n rest :
  is_u64 n -> unpack_amount (to_le_bytes 8 n ++ rest) = Ok n.
Proof.
  intros Hn. unfold unpack_amount.
  rewrite take_app_exact, u64_le_roundtrip by (done || apply length_to_le_bytes).
  by rewrite length_app, length_to_le_bytes.
Qed.

Lemma unpack_amount_decimals_le n d rest :
  is_u64 n -> unpack_amount_decimals (to_le_bytes 8 n ++ d :: rest) = Ok (n, d).
Proof.
  intros Hn. unfold unpack_amount_decimals.
  rewrite length_app, length_to_le_bytes. cbn [Nat.leb Nat.add panic_unless mbind result_bind].
  rewrite split_at_app by apply length_to_le_bytes. cbn.
  by rewrite u64_le_roundtrip.
Qed.

Lemma unpack_mint_pack mk d k o :
  wf_key k -> wf_okey o ->
  unpack_mint mk (d :: k ++ pack_pubkey_option o) = Ok (mk d k o).
Proof.
  intros Hk Ho. unfold unpack_mint. cbn [split_first mbind result_bind].
  rewrite unpack_pubkey_app by done. cbn [mbind result_bind].
  by rewrite unpack_pubkey_option_pack.
Qed.

Lemma AuthorityType_roundtrip ty : AuthorityType_from (AuthorityType_into ty) = Ok ty.
Proof. by destruct ty. Qed.

Lemma unpack_pack_wf i : wf i -> unpack (pack i) = Ok i.
Proof.
  unfold unpack. destruct i; cbn [pack wf]; intros Hwf; destruct_and?;
    cbn [split_first mbind result_bind];
    rewrite ?unpack_mint_pack, ?unpack_pubkey_exact, ?unpack_amount_decimals_le
      by done; try done;
    try (rewrite <- (app_nil_r (to_le_bytes _ _)), unpack_amount_le by done; done).
  rewrite AuthorityType_roundtrip. cbn [mbind result_bind].
  by rewrite unpack_pubkey_option_pack.
Qed.

Lemma split_first_wf input b rest :
  bytes input -> split_first input = Ok (b, rest) -> is_u8 b /\ bytes rest.
Proof.
  intros Hb. destruct input; [done|]. inversion Hb; subst. intros [= <- <-].
  unfold_max. split; [lia|done].
Qed.

Lemma unpack_pubkey_wf input k rest :
  bytes input -> unpack_pubkey input = Ok (k, rest) -> wf_key k /\ bytes rest.
Proof.
  intros Hb. unfold unpack_pubkey, split_at.
  destruct (Nat.leb_spec 32 (length input)); [|done]. intros [= <- <-].
  split; [split|]; [rewrite length_take; lia|by apply bytes_take|by apply bytes_drop].
Qed.

Lemma unpack_pubkey_option_wf input o rest :
  bytes input -> unpack_pubkey_option input = Ok (o, rest) -> wf_okey o.
Proof.
  intros Hb. unfold unpack_pubkey_option, split_at.
  repeat (case_match; try discriminate); intros [= <- <-]; cbn; auto.
  inversion Hb; subst.
  match goal with H : Nat.leb 32 _ = true |- _ => apply Nat.leb_le in H end.
  split; [rewrite length_take; lia|by apply bytes_take].
Qed.

Lemma unpack_amount_wf rest n :
  bytes rest -> unpack_amount rest = Ok n -> is_u64 n.
Proof.
  intros Hb. unfold unpack_amount. destruct (Nat.leb_spec 8 (length rest)); [|done].
  intros [= <-]. apply from_le_bytes_u64; [rewrite length_take; lia|by apply bytes_take].
Qed.

Lemma unpack_amount_decimals_wf rest n d :
  bytes rest -> unpack_amount_decimals rest = Ok (n, d) -> is_u64 n /\ is_u8 d.
Proof.
  intros Hb. unfold unpack_amount_decimals. intros H. inv_ok.
  match goal with H : Nat.leb 8 _ = true |- _ => apply Nat.leb_le in H end.
  unfold split_at in H. inv_ok. destruct (drop 8 rest) as [|b r] eqn:Ed; [done|].
  cbn in *. inv_ok.
  split; [apply from_le_bytes_u64; [rewrite length_take; lia|by apply bytes_take]|].
  pose proof (bytes_drop 8 rest Hb) as Hd. rewrite Ed in Hd. inversion Hd; subst.
  unfold_max. lia.
Qed.

Lemma unpack_mint_wf mk rest i :
  bytes rest -> unpack_mint mk rest = Ok i ->
  exists d k o, i = mk d k o /\ is_u8 d /\ wf_key k /\ wf_okey o.
Proof.
  intros Hb. unfold unpack_mint. destruct rest as [|d rest]; [done|].
  inversion Hb; subst. cbn [split_first mbind result_bind]. intros H. inv_ok.
  apply unpack_pubkey_wf in Hr as [? ?]; [|done].
  apply unpack_pubkey_option_wf in Hr0; [|done].
  do 3 eexists. split; [reflexivity|]. unfold_max. auto with lia.
Qed.

(** Every instruction decoded from bytes has its fields in range. *)
Lemma unpack_instruction_wf input i :
  bytes input -> unpack input = Ok i -> wf i.
Proof.
  intros Hb. unfold unpack. destruct input as [|tag rest]; [done|].
  inversion Hb as [|? ? Htag Hrest]; subst. cbn [split_first mbind result_bind].
  intros H.
  repeat (case_match; try discriminate H);
    try (injection H as <-; exact I);
    try (apply unpack_mint_wf in H as (? & ? & ? & -> & ? & ? & ?); [|done]; cbn; tauto);
    try (destruct (unpack_amount rest) eqn:E; [|done|done]; injection H as <-;
         eapply unpack_amount_wf; eassumption);
    inv_ok;
    try (         lazymatch goal with
         | Hd : unpack_amount_decimals _ = Ok _ |- _ =>
             apply unpack_amount_decimals_wf in Hd; [done|done]
         | Hd : unpack_pubkey _ = Ok _ |- _ =>
             apply unpack_pubkey_wf in Hd; [apply Hd|done]
         end).
  - by apply split_first_wf in Hr as [? ?].
  - apply split_first_wf in Hr as [? ?]; [|done].
    apply unpack_pubkey_option_wf in Hr1; done.
  - by apply split_first_wf in Hr as [? ?].
Qed.

Lemma unpack_amount_decimals_panic rest :
  unpack_amount_decimals rest = Panic <-> (length rest < 8)%nat.
Proof.
  unfold unpack_amount_decimals.
  destruct (Nat.leb_spec 8 (length rest)); cbn; split; try done; try lia.
  destruct (drop 8 rest); done.
Qed.

Lemma unpack_no_panic tag rest :
  ~ 12 <= tag <= 15 -> unpack (tag :: rest) <> Panic.
Proof.
  intros Ht. unfold unpack, unpack_mint, unpack_pubkey, unpack_pubkey_option,
    unpack_amount, split_first, AuthorityType_from, split_at.
  cbn [mbind result_bind].
  repeat (case_match; cbn [mbind result_bind fmap result_fmap]; try done); lia.
Qed.

(** Unpacking instruction bytes panics exactly on the checked variants
    (tags 12 to 15) with fewer than eight bytes of payload; every other
    input gives an instruction or an error. *)
Theorem unpack_panic_iff input :
  unpack input = Panic <->
  exists tag rest, input = tag :: rest /\ 12 <= tag <= 15 /\ (length rest < 8)%nat.
Proof.
  split.
  - destruct input as [|tag rest]; [done|]. intros H.
    destruct (decide (12 <= tag <= 15)) as [Ht|Ht];
      [|by apply (unpack_no_panic tag rest) in Ht].
    exists tag, rest. split_and!; [done|lia|lia|].
    apply unpack_amount_decimals_panic. revert H. unfold unpack.
    cbn [split_first mbind result_bind].
    assert (tag = 12 \/ tag = 13 \/ tag = 14 \/ tag = 15) as [-> | [-> | [-> | ->]]]
      by lia; destruct (unpack_amount_decimals rest) as [[]| |]; done.
  - intros (tag & rest & -> & Ht & Hl). unfold unpack.
    cbn [split_first mbind result_bind].
    apply unpack_amount_decimals_panic in Hl.
    assert (tag = 12 \/ tag = 13 \/ tag = 14 \/ tag = 15) as [-> | [-> | [-> | ->]]]
      by lia; by rewrite Hl.
Qed.

Lemma pack_pubkey_option_bytes ok : wf_okey ok -> bytes (pack_pubkey_option ok).
Proof. destruct ok as [k|]; cbn; intros Hk; repeat constructor; try lia. apply Hk. Qed.

(** Every token instruction with fields in range packs to bytes that
    unpack to it. *)
Theorem instruction_roundtrip i :
  wf i -> bytes (pack i) /\ unpack (pack i) = Ok i.
Proof.
  intros Hwf. split; [|by apply unpack_pack_wf].
  destruct i; cbn in Hwf |- *;
    repeat match goal with
    | H : _ /\ _ |- _ => destruct H
    | H : wf_key _ |- _ => destruct H
    | ty : AuthorityType |- _ => destruct ty
    end;
    repeat first [ apply to_le_bytes_bytes | apply Forall_nil_2
                 | apply pack_pubkey_option_bytes | apply bytes_app
                 | apply Forall_cons_2 ];
    try done; unfold u8_max in *; cbn in *; lia.
Qed.
End Codec.
End TokenInstruction.

Lemma instruction_roundtrip_witness :
  bytes (TokenInstruction.pack
           (TokenInstruction.InitializeMint 9 (replicate 32 4) (Some (replicate 32 255)))) /\
  TokenInstruction.unpack (TokenInstruction.pack
     (TokenInstruction.InitializeMint 9 (replicate 32 4) (Some (replicate 32 255)))) =
  Ok (TokenInstruction.InitializeMint 9 (replicate 32 4) (Some (replicate 32 255))).
Proof.
  apply (TokenInstruction.instruction_roundtrip
    (TokenInstruction.InitializeMint 9 (replicate 32 4) (Some (replicate 32 255)))).
  cbn. unfold_max. split; [lia|]. split; (split; [done|]); repeat constructor; lia.
Defined.
