(* ===== verification/TokenProcessor.v ===== *)
(** * SPL token: the instruction processor

    Models [src/solana-program-library/token/program/src/processor.rs]: every
    handler as a state transformer on the account store, with the order of its
    guards, and the dispatcher [process].  Lamports and data are read and
    written through the store, so that accounts passed twice alias. *)

From stdpp Require Import base gmap list fin_maps strings.
From Stdlib Require Import ZArith Lia.
From S2P Require Import Prelude Sdk TokenState TokenInstruction.

Definition native_mint_id : Pubkey :=
  Eval vm_compute in declare_id "So11111111111111111111111111111111111111112".

Definition is_valid_signer_index (index : Z) : bool :=
  (Z.of_nat MIN_SIGNERS <=? index) && (index <=? Z.of_nat MAX_SIGNERS).

(** [TokenError::X.into()] *)
Definition terr (e : TokenError.t) : ProgramError := TokenError.into e.

(** ** Field updates of the mutable locals *)
Definition with_amount (a : Account) (n : Z) : Account :=
  {| a_mint := a_mint a; a_owner := a_owner a; amount := n;
     delegate := delegate a; state := state a;
     native_reserve := native_reserve a; delegated_amount := delegated_amount a;
     close_authority := close_authority a |}.
Definition with_delegate (a : Account) (d : option Pubkey) (n : Z) : Account :=
  {| a_mint := a_mint a; a_owner := a_owner a; amount := amount a;
     delegate := d; state := state a;
     native_reserve := native_reserve a; delegated_amount := n;
     close_authority := close_authority a |}.
Definition with_state (a : Account) (s : AccountState) : Account :=
  {| a_mint := a_mint a; a_owner := a_owner a; amount := amount a;
     delegate := delegate a; state := s;
     native_reserve := native_reserve a; delegated_amount := delegated_amount a;
     close_authority := close_authority a |}.
Definition with_owner (a : Account) (k : Pubkey) : Account :=
  {| a_mint := a_mint a; a_owner := k; amount := amount a;
     delegate := delegate a; state := state a;
     native_reserve := native_reserve a; delegated_amount := delegated_amount a;
     close_authority := close_authority a |}.
Definition with_close_authority (a : Account) (k : option Pubkey) : Account :=
  {| a_mint := a_mint a; a_owner := a_owner a; amount := amount a;
     delegate := delegate a; state := state a;
     native_reserve := native_reserve a; delegated_amount := delegated_amount a;
     close_authority := k |}.
Definition with_supply (m : Mint) (n : Z) : Mint :=
  {| mint_authority := mint_authority m; supply := n; decimals := decimals m;
     mint_is_initialized := mint_is_initialized m;
     freeze_authority := freeze_authority m |}.
Definition with_mint_authority (m : Mint) (k : option Pubkey) : Mint :=
  {| mint_authority := k; supply := supply m; decimals := decimals m;
     mint_is_initialized := mint_is_initialized m;
     freeze_authority := freeze_authority m |}.
Definition with_freeze_authority (m : Mint) (k : option Pubkey) : Mint :=
  {| mint_authority := mint_authority m; supply := supply m;
     decimals := decimals m; mint_is_initialized := mint_is_initialized m;
     freeze_authority := k |}.

Section Processor.
(** Sysvar access goes through [bincode] and a system call, neither of which
    is in the repository. *)
Context (deserialize_rent : list Z -> option Rent).
Context (rent_get : program_result Rent).

Definition rent_from_account_info (st : store) (i : AccountInfo)
  : program_result Rent :=
  if negb (bool_decide (key i = rent_sysvar_id)) then Err InvalidArgument
  else ok_or (deserialize_rent (data (acct st (key i)))) InvalidArgument.

(** The rent configuration, and the rest of the account iterator. *)
Definition read_rent (st : store) (rent_sysvar_account : bool)
    (it : list AccountInfo) : program_result (Rent * list AccountInfo) :=
  if rent_sysvar_account then
    '(i, it) ← next_account_info it;
    rent ← rent_from_account_info st i;
    Ok (rent, it)
  else
    rent ← rent_get;
    Ok (rent, it).

(** [T::unpack(&info.data.borrow())] and [T::pack(x, &mut info.data.borrow_mut())]. *)
Definition load {T} `{Pack T} (st : store) (i : AccountInfo) : program_result T :=
  unpack (data (acct st (key i))).
Definition load_unchecked {T} `{Pack T} (st : store) (i : AccountInfo)
  : program_result T := unpack_unchecked (data (acct st (key i))).
Definition save {T} `{Pack T} (x : T) (i : AccountInfo) (st : store)
  : program_result store :=
  d ← pack x (data (acct st (key i)));
  Ok (set_data st (key i) d).

(** *** [validate_owner] *)
Definition match_position (signer : AccountInfo) (position : nat) (k : Pubkey)
    (acc : list bool * Z) : program_result (list bool * Z) :=
  let '(matched, num_signers) := acc in
  if bool_decide (k = key signer) && negb (nth position matched false) then
    fail_if (negb (is_signer signer)) MissingRequiredSignature ;;
    Ok (<[position := true]> matched, wrapping_add u8_max num_signers 1)
  else Ok acc.

Fixpoint match_positions (signer : AccountInfo) (position : nat)
    (keys : list Pubkey) (acc : list bool * Z)
  : program_result (list bool * Z) :=
  match keys with
  | [] => Ok acc
  | k :: keys =>
      acc ← match_position signer position k acc;
      match_positions signer (S position) keys acc
  end.

Fixpoint match_signers (multisig : Multisig) (infos : list AccountInfo)
    (acc : list bool * Z) : program_result (list bool * Z) :=
  match infos with
  | [] => Ok acc
  | signer :: infos =>
      panic_unless (n_valid multisig <=? Z.of_nat (length (signers multisig))) ;;
      acc ← match_positions signer 0
              (take (Z.to_nat (n_valid multisig)) (signers multisig)) acc;
      match_signers multisig infos acc
  end.

Definition validate_owner (program_id expected_owner : Pubkey) (st : store)
    (owner_account_info : AccountInfo) (infos : list AccountInfo)
  : program_result unit :=
  fail_if (negb (bool_decide (expected_owner = key owner_account_info)))
    (terr TokenError.OwnerMismatch) ;;
  if bool_decide (program_id = owner (acct st (key owner_account_info)))
     && (data_len st owner_account_info =? get_packed_len Multisig)
  then
    multisig ← load st owner_account_info;
    '(_, num_signers) ← match_signers multisig infos (replicate MAX_SIGNERS false, 0);
    fail_if (num_signers <? m_required multisig) MissingRequiredSignature
  else fail_if (negb (is_signer owner_account_info)) MissingRequiredSignature.

(** *** Initialization *)
Definition _process_initialize_mint (accounts : list AccountInfo) (dec : Z)
    (authority : Pubkey) (freeze : option Pubkey)
    (rent_sysvar_account : bool) (st : store) : program_result store :=
  '(mint_info, it) ← next_account_info accounts;
  let mint_data_len := data_len st mint_info in
  '(rent, _) ← read_rent st rent_sysvar_account it;
  mint ← load_unchecked (T := Mint) st mint_info;
  fail_if (mint_is_initialized mint) (terr TokenError.AlreadyInUse) ;;
  fail_if (negb (is_exempt rent (lamports (acct st (key mint_info))) mint_data_len))
    (terr TokenError.NotRentExempt) ;;
  save {| mint_authority := Some authority; supply := supply mint;
          decimals := dec; mint_is_initialized := true;
          freeze_authority := freeze |} mint_info st.

Definition process_initialize_mint accounts dec authority freeze st :=
  _process_initialize_mint accounts dec authority freeze true st.
Definition process_initialize_mint2 accounts dec authority freeze st :=
  _process_initialize_mint accounts dec authority freeze false st.

Definition _process_initialize_account (accounts : list AccountInfo)
    (own : option Pubkey) (rent_sysvar_account : bool) (st : store)
  : program_result store :=
  '(new_account_info, it) ← next_account_info accounts;
  '(mint_info, it) ← next_account_info it;
  '(own, it) ← match own with
               | Some k => Ok (k, it)
               | None => '(i, it) ← next_account_info it; Ok (key i, it)
               end;
  let len := data_len st new_account_info in
  '(rent, _) ← read_rent st rent_sysvar_account it;
  account ← load_unchecked (T := Account) st new_account_info;
  fail_if (is_initialized account) (terr TokenError.AlreadyInUse) ;;
  fail_if (negb (is_exempt rent (lamports (acct st (key new_account_info))) len))
    (terr TokenError.NotRentExempt) ;;
  (if negb (bool_decide (key mint_info = native_mint_id)) then
     map_err (fun _ => terr TokenError.InvalidMint) (load (T := Mint) st mint_info) ;;
     Ok tt
   else Ok tt) ;;
  '(reserve, amt) ←
    (if bool_decide (key mint_info = native_mint_id) then
       let rent_exempt_reserve := minimum_balance rent len in
       amt ← ok_or (checked_sub (lamports (acct st (key new_account_info)))
                      rent_exempt_reserve) (terr TokenError.Overflow);
       Ok (Some rent_exempt_reserve, amt)
     else Ok (None, 0));
  save {| a_mint := key mint_info; a_owner := own; amount := amt;
          delegate := None; state := Initialized; native_reserve := reserve;
          delegated_amount := 0;
          close_authority := close_authority account |} new_account_info st.

Definition process_initialize_account accounts st :=
  _process_initialize_account accounts None true st.
Definition process_initialize_account2 accounts own st :=
  _process_initialize_account accounts (Some own) true st.
Definition process_initialize_account3 accounts own st :=
  _process_initialize_account accounts (Some own) false st.

(** [multisig.signers[i] = *signer_info.key], panicking out of range. *)
Fixpoint fill_signers (i : nat) (infos : list AccountInfo) (ks : list Pubkey)
  : program_result (list Pubkey) :=
  match infos with
  | [] => Ok ks
  | info :: infos =>
      panic_unless (Nat.ltb i (length ks)) ;;
      fill_signers (S i) infos (<[i := key info]> ks)
  end.

Definition _process_initialize_multisig (accounts : list AccountInfo) (m : Z)
    (rent_sysvar_account : bool) (st : store) : program_result store :=
  '(multisig_info, it) ← next_account_info accounts;
  let len := data_len st multisig_info in
  '(rent, signer_infos) ← read_rent st rent_sysvar_account it;
  multisig ← load_unchecked (T := Multisig) st multisig_info;
  fail_if (ms_is_initialized multisig) (terr TokenError.AlreadyInUse) ;;
  fail_if (negb (is_exempt rent (lamports (acct st (key multisig_info))) len))
    (terr TokenError.NotRentExempt) ;;
  let n := wrap u8_max (Z.of_nat (length signer_infos)) in
  fail_if (negb (is_valid_signer_index n))
    (terr TokenError.InvalidNumberOfProvidedSigners) ;;
  fail_if (negb (is_valid_signer_index m))
    (terr TokenError.InvalidNumberOfRequiredSigners) ;;
  ks ← fill_signers 0 signer_infos (signers multisig);
  save {| m_required := m; n_valid := n; ms_is_initialized := true;
          signers := ks |} multisig_info st.

Definition process_initialize_multisig accounts m st :=
  _process_initialize_multisig accounts m true st.
Definition process_initialize_multisig2 accounts m st :=
  _process_initialize_multisig accounts m false st.

(** *** Token movements *)

(** [if let Some(d) = expected_decimals { Some((next_account_info(it)?, d)) }] *)
Definition next_expected_mint (expected_decimals : option Z)
    (it : list AccountInfo)
  : program_result (option (AccountInfo * Z) * list AccountInfo) :=
  match expected_decimals with
  | Some d => '(i, it) ← next_account_info it; Ok (Some (i, d), it)
  | None => Ok (None, it)
  end.

Definition check_expected_mint (st : store) (source_account : Account)
    (expected_mint_info : option (AccountInfo * Z)) : program_result unit :=
  match expected_mint_info with
  | Some (mint_info, expected_decimals) =>
      fail_if (negb (bool_decide (a_mint source_account = key mint_info)))
        (terr TokenError.MintMismatch) ;;
      mint ← load (T := Mint) st mint_info;
      fail_if (negb (expected_decimals =? decimals mint))
        (terr TokenError.MintDecimalsMismatch)
  | None => Ok tt
  end.

(** The [match source_account.delegate] of a transfer or burn: checks the
    authority and, when [spend], charges the delegate's allowance. *)
Definition authorize_spend (program_id : Pubkey) (st : store)
    (source_account : Account) (authority_info : AccountInfo)
    (infos : list AccountInfo) (amt : Z) (spend : bool)
  : program_result Account :=
  match delegate source_account with
  | Some d =>
      if bool_decide (key authority_info = d) then
        validate_owner program_id d st authority_info infos ;;
        fail_if (delegated_amount source_account <? amt)
          (terr TokenError.InsufficientFunds) ;;
        if spend then
          n ← ok_or (checked_sub (delegated_amount source_account) amt)
                (terr TokenError.Overflow);
          Ok (with_delegate source_account
                (if n =? 0 then None else delegate source_account) n)
        else Ok source_account
      else
        validate_owner program_id (a_owner source_account) st authority_info infos ;;
        Ok source_account
  | None =>
      validate_owner program_id (a_owner source_account) st authority_info infos ;;
      Ok source_account
  end.

(** The lamports of a native transfer follow the tokens. *)
Definition move_native_lamports (source dest : Pubkey) (amt : Z) (st : store)
  : program_result store :=
  l ← ok_or (checked_sub (lamports (acct st source)) amt)
        (terr TokenError.Overflow);
  let st := set_lamports st source l in
  l ← ok_or (checked_add u64_max (lamports (acct st dest)) amt)
        (terr TokenError.Overflow);
  Ok (set_lamports st dest l).

Definition process_transfer (program_id : Pubkey) (accounts : list AccountInfo)
    (amt : Z) (expected_decimals : option Z) (st : store)
  : program_result store :=
  '(source_account_info, it) ← next_account_info accounts;
  '(expected_mint_info, it) ← next_expected_mint expected_decimals it;
  '(dest_account_info, it) ← next_account_info it;
  '(authority_info, infos) ← next_account_info it;
  source_account ← load (T := Account) st source_account_info;
  dest_account ← load (T := Account) st dest_account_info;
  fail_if (is_frozen source_account || is_frozen dest_account)
    (terr TokenError.AccountFrozen) ;;
  fail_if (amount source_account <? amt) (terr TokenError.InsufficientFunds) ;;
  fail_if (negb (bool_decide (a_mint source_account = a_mint dest_account)))
    (terr TokenError.MintMismatch) ;;
  check_expected_mint st source_account expected_mint_info ;;
  let self_transfer :=
    bool_decide (key source_account_info = key dest_account_info) in
  source_account ← authorize_spend program_id st source_account authority_info
                     infos amt (negb self_transfer);
  if self_transfer then Ok st
  else
    n ← ok_or (checked_sub (amount source_account) amt) (terr TokenError.Overflow);
    let source_account := with_amount source_account n in
    n ← ok_or (checked_add u64_max (amount dest_account) amt)
          (terr TokenError.Overflow);
    let dest_account := with_amount dest_account n in
    st ← (if is_native source_account
          then move_native_lamports (key source_account_info)
                 (key dest_account_info) amt st
          else Ok st);
    st ← save source_account source_account_info st;
    save dest_account dest_account_info st.

Definition process_approve (program_id : Pubkey) (accounts : list AccountInfo)
    (amt : Z) (expected_decimals : option Z) (st : store)
  : program_result store :=
  '(source_account_info, it) ← next_account_info accounts;
  '(expected_mint_info, it) ← next_expected_mint expected_decimals it;
  '(delegate_info, it) ← next_account_info it;
  '(owner_info, infos) ← next_account_info it;
  source_account ← load (T := Account) st source_account_info;
  fail_if (is_frozen source_account) (terr TokenError.AccountFrozen) ;;
  check_expected_mint st source_account expected_mint_info ;;
  validate_owner program_id (a_owner source_account) st owner_info infos ;;
  save (with_delegate source_account (Some (key delegate_info)) amt)
    source_account_info st.

Definition process_revoke (program_id : Pubkey) (accounts : list AccountInfo)
    (st : store) : program_result store :=
  '(source_account_info, it) ← next_account_info accounts;
  source_account ← load (T := Account) st source_account_info;
  '(owner_info, infos) ← next_account_info it;
  fail_if (is_frozen source_account) (terr TokenError.AccountFrozen) ;;
  validate_owner program_id (a_owner source_account) st owner_info infos ;;
  save (with_delegate source_account None 0) source_account_info st.

(** *** Authorities *)
Definition set_account_authority (program_id : Pubkey) (st : store)
    (authority_info : AccountInfo) (infos : list AccountInfo)
    (authority_type : AuthorityType) (new_authority : option Pubkey)
    (account : Account) : program_result Account :=
  match authority_type with
  | AccountOwner =>
      validate_owner program_id (a_owner account) st authority_info infos ;;
      new_owner ← ok_or new_authority (terr TokenError.InvalidInstruction);
      let account := with_delegate (with_owner account new_owner) None 0 in
      Ok (if is_native account then with_close_authority account None
          else account)
  | CloseAccount =>
      validate_owner program_id
        (default (a_owner account) (close_authority account)) st
        authority_info infos ;;
      Ok (with_close_authority account new_authority)
  | _ => Err (terr TokenError.AuthorityTypeNotSupported)
  end.

Definition set_mint_authority (program_id : Pubkey) (st : store)
    (authority_info : AccountInfo) (infos : list AccountInfo)
    (authority_type : AuthorityType) (new_authority : option Pubkey)
    (mint : Mint) : program_result Mint :=
  match authority_type with
  | MintTokens =>
      k ← ok_or (mint_authority mint) (terr TokenError.FixedSupply);
      validate_owner program_id k st authority_info infos ;;
      Ok (with_mint_authority mint new_authority)
  | FreezeAccount =>
      k ← ok_or (freeze_authority mint) (terr TokenError.MintCannotFreeze);
      validate_owner program_id k st authority_info infos ;;
      Ok (with_freeze_authority mint new_authority)
  | _ => Err (terr TokenError.AuthorityTypeNotSupported)
  end.

Definition process_set_authority (program_id : Pubkey)
    (accounts : list AccountInfo) (authority_type : AuthorityType)
    (new_authority : option Pubkey) (st : store) : program_result store :=
  '(account_info, it) ← next_account_info accounts;
  '(authority_info, infos) ← next_account_info it;
  if data_len st account_info =? get_packed_len Account then
    account ← load (T := Account) st account_info;
    fail_if (is_frozen account) (terr TokenError.AccountFrozen) ;;
    account ← set_account_authority program_id st authority_info infos
                authority_type new_authority account;
    save account account_info st
  else if data_len st account_info =? get_packed_len Mint then
    mint ← load (T := Mint) st account_info;
    mint ← set_mint_authority program_id st authority_info infos
             authority_type new_authority mint;
    save mint account_info st
  else Err InvalidArgument.

(** *** Supply *)
Definition check_decimals (expected_decimals : option Z) (mint : Mint)
  : program_result unit :=
  match expected_decimals with
  | Some d => fail_if (negb (d =? decimals mint)) (terr TokenError.MintDecimalsMismatch)
  | None => Ok tt
  end.

Definition process_mint_to (program_id : Pubkey) (accounts : list AccountInfo)
    (amt : Z) (expected_decimals : option Z) (st : store)
  : program_result store :=
  '(mint_info, it) ← next_account_info accounts;
  '(dest_account_info, it) ← next_account_info it;
  '(owner_info, infos) ← next_account_info it;
  dest_account ← load (T := Account) st dest_account_info;
  fail_if (is_frozen dest_account) (terr TokenError.AccountFrozen) ;;
  fail_if (is_native dest_account) (terr TokenError.NativeNotSupported) ;;
  fail_if (negb (bool_decide (key mint_info = a_mint dest_account)))
    (terr TokenError.MintMismatch) ;;
  mint ← load (T := Mint) st mint_info;
  check_decimals expected_decimals mint ;;
  match mint_authority mint with
  | Some k => validate_owner program_id k st owner_info infos
  | None => Err (terr TokenError.FixedSupply)
  end ;;
  n ← ok_or (checked_add u64_max (amount dest_account) amt) (terr TokenError.Overflow);
  let dest_account := with_amount dest_account n in
  n ← ok_or (checked_add u64_max (supply mint) amt) (terr TokenError.Overflow);
  let mint := with_supply mint n in
  st ← save dest_account dest_account_info st;
  save mint mint_info st.

Definition process_burn (program_id : Pubkey) (accounts : list AccountInfo)
    (amt : Z) (expected_decimals : option Z) (st : store)
  : program_result store :=
  '(source_account_info, it) ← next_account_info accounts;
  '(mint_info, it) ← next_account_info it;
  '(authority_info, infos) ← next_account_info it;
  source_account ← load (T := Account) st source_account_info;
  mint ← load (T := Mint) st mint_info;
  fail_if (is_frozen source_account) (terr TokenError.AccountFrozen) ;;
  fail_if (is_native source_account) (terr TokenError.NativeNotSupported) ;;
  fail_if (amount source_account <? amt) (terr TokenError.InsufficientFunds) ;;
  fail_if (negb (bool_decide (key mint_info = a_mint source_account)))
    (terr TokenError.MintMismatch) ;;
  check_decimals expected_decimals mint ;;
  source_account ← authorize_spend program_id st source_account authority_info
                     infos amt true;
  n ← ok_or (checked_sub (amount source_account) amt) (terr TokenError.Overflow);
  let source_account := with_amount source_account n in
  n ← ok_or (checked_sub (supply mint) amt) (terr TokenError.Overflow);
  let mint := with_supply mint n in
  st ← save source_account source_account_info st;
  save mint mint_info st.

(** *** Closing, freezing, wrapped lamports *)
Definition process_close_account (program_id : Pubkey)
    (accounts : list AccountInfo) (st : store) : program_result store :=
  '(source_account_info, it) ← next_account_info accounts;
  '(dest_account_info, it) ← next_account_info it;
  '(authority_info, infos) ← next_account_info it;
  source_account ← load (T := Account) st source_account_info;
  fail_if (negb (is_native source_account) && negb (amount source_account =? 0))
    (terr TokenError.NonNativeHasBalance) ;;
  validate_owner program_id
    (default (a_owner source_account) (close_authority source_account)) st
    authority_info infos ;;
  l ← ok_or (checked_add u64_max (lamports (acct st (key dest_account_info)))
               (lamports (acct st (key source_account_info))))
        (terr TokenError.Overflow);
  let st := set_lamports st (key dest_account_info) l in
  let st := set_lamports st (key source_account_info) 0 in
  save (with_amount source_account 0) source_account_info st.

Definition process_toggle_freeze_account (program_id : Pubkey)
    (accounts : list AccountInfo) (freeze : bool) (st : store)
  : program_result store :=
  '(source_account_info, it) ← next_account_info accounts;
  '(mint_info, it) ← next_account_info it;
  '(authority_info, infos) ← next_account_info it;
  source_account ← load (T := Account) st source_account_info;
  fail_if (freeze && is_frozen source_account
           || negb freeze && negb (is_frozen source_account))
    (terr TokenError.InvalidState) ;;
  fail_if (is_native source_account) (terr TokenError.NativeNotSupported) ;;
  fail_if (negb (bool_decide (key mint_info = a_mint source_account)))
    (terr TokenError.MintMismatch) ;;
  mint ← load (T := Mint) st mint_info;
  match freeze_authority mint with
  | Some k => validate_owner program_id k st authority_info infos
  | None => Err (terr TokenError.MintCannotFreeze)
  end ;;
  save (with_state source_account (if freeze then Frozen else Initialized))
    source_account_info st.

Definition process_sync_native (program_id : Pubkey)
    (accounts : list AccountInfo) (st : store) : program_result store :=
  '(native_account_info, _) ← next_account_info accounts;
  fail_if (negb (bool_decide (owner (acct st (key native_account_info)) = program_id)))
    IncorrectProgramId ;;
  native_account ← load (T := Account) st native_account_info;
  match native_reserve native_account with
  | Some rent_exempt_reserve =>
      new_amount ← ok_or (checked_sub (lamports (acct st (key native_account_info)))
                            rent_exempt_reserve) (terr TokenError.Overflow);
      fail_if (new_amount <? amount native_account) (terr TokenError.InvalidState) ;;
      save (with_amount native_account new_amount) native_account_info st
  | None => Err (terr TokenError.NonNativeNotSupported)
  end.

(** *** Dispatch *)
Definition process_instruction (program_id : Pubkey) (accounts : list AccountInfo)
    (instruction : TokenInstruction.t) (st : store) : program_result store :=
  match instruction with
  | TokenInstruction.InitializeMint d ma fa =>
      process_initialize_mint accounts d ma fa st
  | TokenInstruction.InitializeMint2 d ma fa =>
      process_initialize_mint2 accounts d ma fa st
  | TokenInstruction.InitializeAccount => process_initialize_account accounts st
  | TokenInstruction.InitializeAccount2 own =>
      process_initialize_account2 accounts own st
  | TokenInstruction.InitializeAccount3 own =>
      process_initialize_account3 accounts own st
  | TokenInstruction.InitializeMultisig m => process_initialize_multisig accounts m st
  | TokenInstruction.InitializeMultisig2 m =>
      process_initialize_multisig2 accounts m st
  | TokenInstruction.Transfer n => process_transfer program_id accounts n None st
  | TokenInstruction.Approve n => process_approve program_id accounts n None st
  | TokenInstruction.Revoke => process_revoke program_id accounts st
  | TokenInstruction.SetAuthority ty na =>
      process_set_authority program_id accounts ty na st
  | TokenInstruction.MintTo n => process_mint_to program_id accounts n None st
  | TokenInstruction.Burn n => process_burn program_id accounts n None st
  | TokenInstruction.CloseAccount => process_close_account program_id accounts st
  | TokenInstruction.FreezeAccount =>
      process_toggle_freeze_account program_id accounts true st
  | TokenInstruction.ThawAccount =>
      process_toggle_freeze_account program_id accounts false st
  | TokenInstruction.TransferChecked n d =>
      process_transfer program_id accounts n (Some d) st
  | TokenInstruction.ApproveChecked n d =>
      process_approve program_id accounts n (Some d) st
  | TokenInstruction.MintToChecked n d =>
      process_mint_to program_id accounts n (Some d) st
  | TokenInstruction.BurnChecked n d =>
      process_burn program_id accounts n (Some d) st
  | TokenInstruction.SyncNative => process_sync_native program_id accounts st
  end.

Definition process (program_id : Pubkey) (accounts : list AccountInfo)
    (input : list Z) (st : store) : program_result store :=
  instruction ← TokenInstruction.unpack input;
  process_instruction program_id accounts instruction st.
End Processor.
