(* ===== verification/TokenStore.v ===== *)
(** * SPL token: typed accounts in the store

    The token program's view of the account store: an account [has] a token
    account, a mint or a multisig when its data unpacks to it; which accounts
    an update leaves alone ([frame]); and what reading, writing and the
    movement of wrapped lamports do to such a store. *)

From stdpp Require Import base gmap list fin_maps.
From Stdlib Require Import ZArith Lia.
From S2P Require Import Prelude Sdk TokenState TokenInstruction TokenProcessor.

(** Every account holds bytes and a [u64] balance. *)
Definition wf_store (st : store) : Prop :=
  forall k, bytes (data (acct st k)) /\ is_u64 (lamports (acct st k)).

(** The account at [k] unpacks to [x]. *)
Definition has {T} `{Pack T} (st : store) (k : Pubkey) (x : T) : Prop :=
  unpack (data (acct st k)) = Ok x.

(** Ownership never changes and only the accounts of [ks] do. *)
Definition frame (ks : list Pubkey) (st st' : store) : Prop :=
  forall k, owner (acct st' k) = owner (acct st k) /\
            (k ∉ ks -> acct st' k = acct st k).

Definition same_lamports (st st' : store) : Prop :=
  forall k, lamports (acct st' k) = lamports (acct st k).

(** Account changes that leave tokens where they are. *)
Definition same_holding (a a' : Account) : Prop :=
  a_mint a' = a_mint a /\ amount a' = amount a /\
  native_reserve a' = native_reserve a.

Definition native_part (a : Account) (n : Z) : Z := if is_native a then n else 0.

Lemma wf_store_empty : wf_store ∅.
Proof.
  intros k. unfold acct. rewrite lookup_empty. cbn.
  split; [constructor|unfold_max; lia].
Qed.

Lemma wf_store_insert st k ac :
  wf_store st -> bytes (data ac) -> is_u64 (lamports ac) -> wf_store (<[k:=ac]> st).
Proof.
  intros Hst Hd Hl j. unfold acct. rewrite lookup_insert.
  case_decide; [done|]. apply Hst.
Qed.

(** ** Reading and writing typed accounts *)
Section Typed.
Context {T : Type} `{PackOk T}.
Implicit Types (x : T) (st : store).

Lemma load_has st i x : load (T := T) st i = Ok x <-> has st (key i) x.
Proof. done. Qed.

Lemma has_wf st k x : wf_store st -> has st k x -> wf_state x.
Proof.
  intros Hst Hx. apply unpack_Ok in Hx as (Hl & Hx & _).
  eapply unpack_wf; [done| |done]. apply Hst.
Qed.

Lemma has_length st k x : has st k x -> length (data (acct st k)) = LEN T.
Proof. intros Hx. apply unpack_Ok in Hx. tauto. Qed.

Lemma has_initialized st k x : has st k x -> is_initialized x = true.
Proof. intros Hx. apply unpack_Ok in Hx. tauto. Qed.

Lemma has_inj st k x y : has st k x -> has st k y -> x = y.
Proof. unfold has. congruence. Qed.

Lemma save_Ok x i st st' :
  save x i st = Ok st' -> wf_state x -> is_initialized x = true ->
  exists d, st' = set_data st (key i) d /\ unpack d = Ok x /\
    length (data (acct st (key i))) = LEN T /\
    (bytes (data (acct st (key i))) -> bytes d).
Proof.
  unfold save. intros Hs Hx Hi. inv_ok. apply pack_Ok in Hr as [Hl ->].
  eexists. split; [reflexivity|]. split; [|split; [done|]].
  - by rewrite unpack_pack, Hi.
  - intros Hb. by apply pack_bytes.
Qed.

Lemma save_has x i st st' :
  wf_store st -> save x i st = Ok st' -> wf_state x -> is_initialized x = true ->
  wf_store st' /\ has st' (key i) x /\ frame [key i] st st' /\
  same_lamports st st' /\ length (data (acct st (key i))) = LEN T.
Proof.
  intros Hst Hs Hx Hi. apply save_Ok in Hs as (d & -> & Hd & Hl & Hb); [|done..].
  split_and!.
  - intros k. rewrite data_set_data, lamports_set_data. pose proof (Hst k) as [? ?].
    case_decide; subst; auto.
  - unfold has. by rewrite data_set_data, decide_True.
  - intros k. rewrite owner_set_data. split; [done|]. intros Hk.
    rewrite acct_set_data, decide_False by set_solver. done.
  - intros k. apply lamports_set_data.
  - done.
Qed.
End Typed.

Lemma has_wf_account st k (a : Account) : wf_store st -> has st k a -> wf_account a.
Proof. intros Hst H. pose proof (has_wf st k _ Hst H) as Hw. exact Hw. Qed.

(** Rewriting fields other than the state keeps an account initialized. *)
Lemma has_initialized_account st k (a a' : Account) :
  has st k a -> state a' = state a -> is_initialized a' = true.
Proof. intros Ha Hs. apply has_initialized in Ha. cbn in *. by rewrite Hs. Qed.

Lemma has_initialized_mint st k (m m' : Mint) :
  has st k m -> mint_is_initialized m' = mint_is_initialized m ->
  is_initialized m' = true.
Proof. intros Hm Hs. apply has_initialized in Hm. cbn in *. by rewrite Hs. Qed.

Lemma has_wf_mint st k (m : Mint) : wf_store st -> has st k m -> wf_mint m.
Proof. intros Hst H. pose proof (has_wf st k _ Hst H) as Hw. exact Hw. Qed.

Lemma has_wf_multisig st k (x : Multisig) : wf_store st -> has st k x -> wf_multisig x.
Proof. intros Hst H. pose proof (has_wf st k _ Hst H) as Hw. exact Hw. Qed.

Lemma next_account_info_Ok it i rest :
  next_account_info it = Ok (i, rest) <-> it = i :: rest.
Proof. destruct it; cbn; split; congruence. Qed.

(** Run a handler backwards: its steps, with the accounts it named. *)
Ltac inv_run :=
  inv_ok;
  repeat match goal with
  | H : next_account_info _ = Ok _ |- _ => apply next_account_info_Ok in H; subst
  | H : load _ _ = Ok _ |- _ => rewrite load_has in H
  end;
  to_prop.

(** ** Framing and the well-formedness of updates *)
Lemma wf_with_amount a n : wf_account a -> is_u64 n -> wf_account (with_amount a n).
Proof. intros [] ?. by split. Qed.

Lemma initialized_with_amount a n :
  is_initialized (with_amount a n) = is_initialized a.
Proof. done. Qed.

Lemma frame_refl ks st : frame ks st st.
Proof. by split. Qed.

Lemma frame_trans ks1 ks2 st1 st2 st3 :
  frame ks1 st1 st2 -> frame ks2 st2 st3 -> frame (ks1 ++ ks2) st1 st3.
Proof.
  intros H1 H2 k. destruct (H1 k) as [Ho1 Hk1], (H2 k) as [Ho2 Hk2].
  split; [congruence|]. intros Hk. rewrite not_elem_of_app in Hk.
  rewrite Hk2, Hk1; tauto.
Qed.

Lemma frame_subset ks ks' st st' :
  frame ks st st' -> ks ⊆ ks' -> frame ks' st st'.
Proof. intros H Hs k. destruct (H k) as [? Hk]. split; [done|]. auto. Qed.

Lemma has_frame {T} `{Pack T} st st' ks k (x : T) :
  frame ks st st' -> k ∉ ks -> has st k x -> has st' k x.
Proof. intros Hf Hk Hx. unfold has. destruct (Hf k) as [_ ->]; done. Qed.

Lemma same_lamports_trans st1 st2 st3 :
  same_lamports st1 st2 -> same_lamports st2 st3 -> same_lamports st1 st3.
Proof. intros H1 H2 k. by rewrite H2. Qed.

Lemma move_native_Ok s d amt st st' :
  s <> d -> wf_store st -> 0 <= amt ->
  move_native_lamports s d amt st = Ok st' ->
  wf_store st' /\ (forall k, data (acct st' k) = data (acct st k)) /\
  frame [s; d] st st' /\
  lamports (acct st' s) = lamports (acct st s) - amt /\
  lamports (acct st' d) = lamports (acct st d) + amt.
Proof.
  intros Hne Hst Hamt H. unfold move_native_lamports in H. inv_ok. inv_checked. subst.
  rewrite lamports_set_lamports, decide_False in * by done.
  assert (forall k, is_u64 (lamports (acct st k))) as Hl by (intros k; apply Hst).
  pose proof (Hl s). pose proof (Hl d).
  split_and!.
  - intros k. rewrite !data_set_lamports, !lamports_set_lamports.
    split; [apply Hst|]. repeat case_decide; subst; try apply Hl; lia.
  - intros k. by rewrite !data_set_lamports.
  - intros k. rewrite !owner_set_lamports. split; [done|]. intros Hk.
    rewrite !acct_set_lamports, !decide_False by set_solver. done.
  - rewrite !lamports_set_lamports, decide_False, decide_True by done. lia.
  - rewrite !lamports_set_lamports, decide_True by done. lia.
Qed.

Lemma move_lamports_Ok a s d amt st st' :
  s <> d -> wf_store st -> 0 <= amt ->
  (if is_native a then move_native_lamports s d amt st else Ok st) = Ok st' ->
  wf_store st' /\ (forall k, data (acct st' k) = data (acct st k)) /\
  frame [s; d] st st' /\
  lamports (acct st' s) = lamports (acct st s) - native_part a amt /\
  lamports (acct st' d) = lamports (acct st d) + native_part a amt.
Proof.
  intros Hne Hst Hamt H. unfold native_part. destruct (is_native a).
  - by apply move_native_Ok.
  - inv_ok. rewrite Z.sub_0_r, Z.add_0_r. auto using frame_refl.
Qed.

(** Two typed accounts of the same step are written one after the other. *)
Lemma save_two {T U} `{PackOk T} `{PackOk U} (x : T) (y : U) i j st st1 st' :
  key i <> key j -> wf_store st -> 
  save x i st = Ok st1 -> wf_state x -> is_initialized x = true ->
  save y j st1 = Ok st' -> wf_state y -> is_initialized y = true ->
  wf_store st' /\ has st' (key i) x /\ has st' (key j) y /\
  frame [key i; key j] st st' /\ same_lamports st st'.
Proof.
  intros Hne Hst Hi Hx Hxi Hj Hy Hyi.
  apply save_has in Hi as (Hst1 & Hhx & Hf1 & Hl1 & _); [|done..].
  apply save_has in Hj as (Hst2 & Hhy & Hf2 & Hl2 & _); [|done..].
  split_and!; try done.
  - eapply has_frame; [exact Hf2|set_solver|done].
  - exact (frame_trans _ _ _ _ _ Hf1 Hf2).
  - by eapply same_lamports_trans.
Qed.

Definition wf_infos (accounts : list AccountInfo) : Prop :=
  Forall (fun i => wf_key (key i)) accounts.

Lemma wf_with_delegate a d n :
  wf_account a -> wf_okey d -> is_u64 n -> wf_account (with_delegate a d n).
Proof. intros [] ? ?. by split. Qed.

Lemma wf_with_supply m n : wf_mint m -> is_u64 n -> wf_mint (with_supply m n).
Proof. intros [] ?. by split. Qed.

(** Accounts of different packed types are different accounts. *)
Lemma has_account_mint_ne st k k' (a : Account) (m : Mint) :
  has st k a -> has st k' m -> k <> k'.
Proof. intros Ha%has_length Hm%has_length ->. cbn in *. congruence. Qed.

Lemma minimum_balance_nonneg r len : 0 <= minimum_balance r len.
Proof.
  apply F64.to_u64_range.
Qed.
