(* ===== verification/TokenAuthority.v ===== *)
(** * SPL token: authorities and multisignatures

    What [validate_owner] accepts.  The processor marks the signer positions
    of a multisig one account at a time; [approvals] counts them in one line,
    and the two agree. *)

From stdpp Require Import base gmap list fin_maps.
From Stdlib Require Import ZArith Lia.
From S2P Require Import Prelude Sdk TokenState TokenInstruction TokenProcessor TokenStore.

(** The positions of [ks] whose key is in [seen], as the marks the processor
    keeps and as a count. *)
Definition marks (seen ks : list Pubkey) : list bool :=
  (fun k => bool_decide (k ∈ seen)) <$> ks.
Definition count (seen ks : list Pubkey) : nat :=
  length (filter (.∈ seen) ks).

Definition valid_keys (ms : Multisig) : list Pubkey :=
  take (Z.to_nat (n_valid ms)) (signers ms).
Definition signer_keys (infos : list AccountInfo) : list Pubkey :=
  key <$> filter (fun i => is_signer i = true) infos.

(** Signer positions of [ms] whose key signed. *)
Definition approvals (ms : Multisig) (infos : list AccountInfo) : nat :=
  count (signer_keys infos) (valid_keys ms).

Lemma count_cons seen k ks :
  count seen (k :: ks) = ((if bool_decide (k ∈ seen) then 1 else 0) + count seen ks)%nat.
Proof. unfold count. rewrite filter_cons. case_bool_decide; by case_decide. Qed.

Lemma count_app seen ks1 ks2 :
  count seen (ks1 ++ ks2) = (count seen ks1 + count seen ks2)%nat.
Proof. unfold count. by rewrite filter_app, length_app. Qed.

Lemma count_le seen ks : (count seen ks <= length ks)%nat.
Proof. apply length_filter. Qed.

Lemma count_mono seen seen' ks :
  (forall k, k ∈ ks -> k ∈ seen -> k ∈ seen') -> (count seen ks <= count seen' ks)%nat.
Proof.
  induction ks as [|k ks IH]; intros H; [done|]. rewrite !count_cons.
  assert (count seen ks <= count seen' ks)%nat by (apply IH; set_solver).
  repeat case_bool_decide; try lia. set_solver.
Qed.

(** [signer] may mark [k] now: it is the key, not yet marked. *)
Definition hits (signer : AccountInfo) (seen ks : list Pubkey) : Prop :=
  key signer ∈ ks /\ key signer ∉ seen.
#[global] Instance hits_dec signer seen ks : Decision (hits signer seen ks) := _.

Lemma match_position_spec signer seen pre k post tail :
  (length pre + S (length post) <= 11)%nat ->
  let seen' := key signer :: seen in
  match_position signer (length pre) k
    (marks seen' pre ++ marks seen (k :: post) ++ tail,
     Z.of_nat (count seen' pre + count seen (k :: post))) =
  if decide (k = key signer /\ k ∉ seen) then
    if is_signer signer
    then Ok (marks seen' (pre ++ [k]) ++ marks seen post ++ tail,
             Z.of_nat (count seen' (pre ++ [k]) + count seen post))
    else Err MissingRequiredSignature
  else Ok (marks seen' (pre ++ [k]) ++ marks seen post ++ tail,
           Z.of_nat (count seen' (pre ++ [k]) + count seen post)).
Proof.
  intros Hlen seen'. unfold match_position.
  assert (length (marks seen' pre) = length pre) as Hl by apply length_fmap.
  rewrite app_nth2, Hl, Nat.sub_diag by lia. cbn [marks fmap list_fmap app nth].
  rewrite count_app, !count_cons. change (count _ []) with 0%nat.
  unfold marks. rewrite fmap_app, <- app_assoc. cbn [fmap list_fmap app].
  fold (marks seen' pre) (marks seen post).
  destruct (decide (k = key signer)) as [E|E];
    [|rewrite decide_False, bool_decide_false by tauto; cbn [andb]].
  - rewrite (bool_decide_true (k = key signer)) by done.
    rewrite (bool_decide_true (k ∈ seen')) by (subst k seen'; apply list_elem_of_here).
    destruct (decide (k ∈ seen)) as [Hs|Hs].
    + rewrite bool_decide_true, decide_False by tauto. cbn. do 3 f_equal. lia.
    + rewrite bool_decide_false, decide_True by tauto. cbn [andb negb].
      destruct (is_signer signer); [|done]. cbn [negb fail_if mbind result_bind].
      rewrite insert_app_r_alt, Hl, Nat.sub_diag by lia. cbn [insert list_insert].
      pose proof (count_le seen' pre). pose proof (count_le seen post).
      unfold wrapping_add, wrap. rewrite Z.mod_small by (unfold_max; lia).
      do 2 f_equal. lia.
  - assert (bool_decide (k ∈ seen') = bool_decide (k ∈ seen)) as ->.
    { apply bool_decide_ext. subst seen'. rewrite elem_of_cons. tauto. }
    do 3 f_equal. lia.
Qed.

Lemma match_positions_spec signer seen pre post tail :
  (length (pre ++ post) <= 11)%nat ->
  let seen' := key signer :: seen in
  match_positions signer (length pre) post
    (marks seen' pre ++ marks seen post ++ tail,
     Z.of_nat (count seen' pre + count seen post)) =
  if is_signer signer || negb (bool_decide (hits signer seen post))
  then Ok (marks seen' (pre ++ post) ++ tail, Z.of_nat (count seen' (pre ++ post)))
  else Err MissingRequiredSignature.
Proof.
  intros Hlen. cbv zeta. revert pre Hlen.
  induction post as [|k post IH]; intros pre Hlen; cbn [match_positions].
  - rewrite bool_decide_false by (unfold hits; set_solver).
    rewrite orb_true_r, app_nil_r, Nat.add_0_r. done.
  - rewrite match_position_spec by (rewrite length_app in Hlen; cbn in *; lia).
    assert (hits signer seen (k :: post) <->
            (k = key signer /\ k ∉ seen) \/ hits signer seen post) as Hhit.
    { unfold hits. set_solver. }
    assert (S (length pre) = length (pre ++ [k])) as HS by (rewrite length_app; cbn; lia).
    assert ((pre ++ [k]) ++ post = pre ++ k :: post) as HA by by rewrite <- app_assoc.
    case_decide as Hk; [destruct (is_signer signer)|];
      cbn [mbind result_bind orb] in *.
    + rewrite HS, IH, HA by (by rewrite HA). done.
    + rewrite bool_decide_true by tauto. done.
    + rewrite HS, IH, HA by (by rewrite HA).
      destruct (is_signer signer); [done|].
      rewrite (bool_decide_ext (hits signer seen (k :: post)) (hits signer seen post))
        by tauto. done.
Qed.

Lemma match_positions_all signer seen ks tail :
  (length ks <= 11)%nat ->
  match_positions signer 0 ks (marks seen ks ++ tail, Z.of_nat (count seen ks)) =
  if is_signer signer || negb (bool_decide (hits signer seen ks))
  then Ok (marks (key signer :: seen) ks ++ tail,
           Z.of_nat (count (key signer :: seen) ks))
  else Err MissingRequiredSignature.
Proof. exact (match_positions_spec signer seen [] ks tail). Qed.

(** Every account that is the first to name a key of [ks], [seen] apart, signed. *)
Definition first_sign (seen ks : list Pubkey) (infos : list AccountInfo) : Prop :=
  forall pre i post, infos = pre ++ i :: post -> key i ∈ ks -> key i ∉ seen ->
    key i ∉ (key <$> pre) -> is_signer i = true.

Lemma first_sign_cons seen ks i infos :
  first_sign seen ks (i :: infos) <->
  (hits i seen ks -> is_signer i = true) /\ first_sign (key i :: seen) ks infos.
Proof.
  unfold first_sign, hits. split.
  - intros H. split; [intros [? ?]; apply (H [] i infos); set_solver|].
    intros pre j post -> Hj Hs Hp. apply (H (i :: pre) j post); [done..| |]; set_solver.
  - intros [Hi H] [|i' pre] j post [= <- ->] Hj Hs Hp; [by apply Hi|].
    apply (H pre j post); set_solver.
Qed.

(** The processor accepts the accounts [infos] just when the first account for
    each valid key signed, and then has marked the keys of all of them. *)
Lemma match_signers_iff ms infos seen tail :
  (length (valid_keys ms) <= 11)%nat -> n_valid ms <= Z.of_nat (length (signers ms)) ->
  let start := (marks seen (valid_keys ms) ++ tail, Z.of_nat (count seen (valid_keys ms))) in
  (forall res, match_signers ms infos start = Ok res ->
     first_sign seen (valid_keys ms) infos) /\
  (first_sign seen (valid_keys ms) infos -> exists seen', (forall k, k ∈ seen' <-> k ∈ seen \/ k ∈ (key <$> infos)) /\
     match_signers ms infos start =
       Ok (marks seen' (valid_keys ms) ++ tail, Z.of_nat (count seen' (valid_keys ms)))).
Proof.
  intros Hlen Hn. cbv zeta. revert seen. induction infos as [|i infos IH]; intros seen.
  - split; [by intros ? ? [] ? ?|]. intros _. exists seen. split; [set_solver|done].
  - pose proof (first_sign_cons seen (valid_keys ms) i infos) as Hc.
    destruct (IH (key i :: seen)) as [IH1 IH2].
    cbn [match_signers]. rewrite (proj2 (Z.leb_le _ _) Hn). cbn [panic_unless mbind result_bind].
    fold (valid_keys ms). rewrite match_positions_all by done.
    destruct (is_signer i) eqn:Es; cbn [orb mbind result_bind].
    + split; [intros res H; apply Hc; split; [done|by eapply IH1]|]. intros [_ H]%Hc.
      destruct (IH2 H) as (seen' & Hs & ->). exists seen'. split; [|done]. set_solver.
    + case_bool_decide as Hh; cbn [negb mbind result_bind]; [split; [done|intros [H _]%Hc; by apply H in Hh]|].
      split; [intros res H; apply Hc; split; [done|by eapply IH1]|]. intros [_ H]%Hc.
      destruct (IH2 H) as (seen' & Hs & ->). exists seen'. split; [|done]. set_solver.
Qed.

Lemma count_ext seen seen' ks :
  (forall k, k ∈ ks -> k ∈ seen <-> k ∈ seen') -> count seen ks = count seen' ks.
Proof. intros H. apply Nat.le_antisymm; apply count_mono; intros k Hk; by apply H. Qed.

(** Then the keys that are named are keys that signed. *)
Lemma first_sign_keys ks infos k :
  first_sign [] ks infos -> k ∈ ks -> k ∈ (key <$> infos) <-> k ∈ signer_keys infos.
Proof.
  intros H Hk. unfold signer_keys. split.
  - intros Hi. apply list_elem_of_split_l in Hi as (l1 & l2 & E & Hn).
    apply fmap_app_inv in E as (pre & rest & -> & Hr & ->).
    destruct rest as [|i post]; [done|]. injection Hr as -> ->.
    apply list_elem_of_fmap_2. apply list_elem_of_filter. split; [|set_solver].
    by apply (H pre i post); [done|done|apply not_elem_of_nil|].
  - intros (i & -> & Hi)%list_elem_of_fmap. apply list_elem_of_fmap_2.
    by apply list_elem_of_filter in Hi as [_ ?].
Qed.

Section ValidateOwner.
Context (pid : Pubkey).
Implicit Types (st : store) (i : AccountInfo) (ms : Multisig) (k : Pubkey).

(** The key is the address of a multisig of the token program. *)
Definition is_multisig st k : Prop :=
  owner (acct st k) = pid /\ length (data (acct st k)) = LEN Multisig.

(** The account [i], presented as authority with the accounts [infos] after it,
    speaks for [k]: it is [k] and signed or, when [k] is a multisig, at least
    [m] of its valid positions name accounts of [infos] that signed, and no
    account that is the first to name a valid key is without a signature. *)
Definition authorized st k i (infos : list AccountInfo) : Prop :=
  key i = k /\
  if decide (is_multisig st k) then
    exists ms, has st k ms /\ (infos = [] \/ n_valid ms <= 11) /\
      first_sign [] (valid_keys ms) infos /\
      m_required ms <= Z.of_nat (approvals ms infos)
  else is_signer i = true.

(** Among [accounts], [k] signed or, when it is a multisig, at least [m] of its
    valid positions did. *)
Definition signed_by (accounts : list AccountInfo) st k : Prop :=
  if decide (is_multisig st k) then
    exists ms, has st k ms /\ m_required ms <= Z.of_nat (approvals ms accounts)
  else exists i, i ∈ accounts /\ key i = k /\ is_signer i = true.

Lemma validate_owner_unfold k st i infos :
  validate_owner pid k st i infos =
    if decide (key i = k) then
      if decide (is_multisig st k) then
        ms ← load (T := Multisig) st i;
        '(_, n) ← match_signers ms infos (replicate MAX_SIGNERS false, 0);
        fail_if (n <? m_required ms) MissingRequiredSignature
      else fail_if (negb (is_signer i)) MissingRequiredSignature
    else Err (terr TokenError.OwnerMismatch).
Proof.
  unfold validate_owner, data_len. destruct (decide (key i = k)) as [<-|Hk].
  - rewrite (bool_decide_true (key i = key i)) by done.
    cbn [negb fail_if mbind result_bind].
    assert (is_multisig st (key i) <-> pid = owner (acct st (key i)) /\
      Z.of_nat (length (data (acct st (key i)))) = get_packed_len Multisig) as Hm.
    { unfold is_multisig, get_packed_len. rewrite Nat2Z.inj_iff. split; intros []; by split. }
    destruct (decide (is_multisig st (key i))) as [H|H].
    + apply Hm in H as [-> ->]. by rewrite bool_decide_true, Z.eqb_refl.
    + replace (bool_decide _ && _) with false; [done|]. symmetry. apply andb_false_iff.
      case_bool_decide; [|by left]. right. apply Z.eqb_neq. intros Hd. by apply H, Hm.
  - rewrite (bool_decide_false (k = key i)) by congruence. done.
Qed.

Lemma initial_marks ms :
  (length (valid_keys ms) <= 11)%nat ->
  (replicate MAX_SIGNERS false, 0) =
    (marks [] (valid_keys ms) ++ replicate (11 - length (valid_keys ms)) false,
     Z.of_nat (count [] (valid_keys ms))).
Proof.
  intros Hlen. generalize dependent (valid_keys ms). intros ks Hlen.
  assert (count [] ks = 0%nat) as ->.
  { clear Hlen. induction ks as [|k ks IH]; [done|].
    rewrite count_cons, IH, bool_decide_false by set_solver. done. }
  assert (marks [] ks = replicate (length ks) false) as ->.
  { clear Hlen. induction ks as [|k ks IH]; [done|]. cbn. by f_equal. }
  f_equal. rewrite <- replicate_add. f_equal. unfold MAX_SIGNERS. lia.
Qed.

Lemma valid_keys_length ms : wf_multisig ms -> (length (valid_keys ms) <= 11)%nat.
Proof.
  intros Hw. unfold valid_keys. rewrite length_take, (wfs_len _ Hw). unfold MAX_SIGNERS. lia.
Qed.

(** The loop over the accounts decides the declarative condition. *)
Lemma match_signers_required ms infos :
  wf_multisig ms ->
  ('(_, n) ← match_signers ms infos (replicate MAX_SIGNERS false, 0);
   fail_if (n <? m_required ms) MissingRequiredSignature) = Ok tt <->
  (infos = [] \/ n_valid ms <= 11) /\ first_sign [] (valid_keys ms) infos /\
  m_required ms <= Z.of_nat (approvals ms infos).
Proof.
  intros Hw. pose proof (valid_keys_length _ Hw) as Hlen.
  assert (length (signers ms) = 11%nat) as Hs11 by exact (wfs_len _ Hw).
  destruct (decide (n_valid ms <= 11)) as [Hn|Hn].
  - rewrite (initial_marks _ Hlen).
    destruct (match_signers_iff ms infos [] (replicate (11 - length (valid_keys ms)) false))
      as [H1 H2]; [done|lia|]. split.
    + intros H. inv_ok. to_prop. pose proof (H1 _ Hr) as Hf. split_and!; [by right|done|].
      destruct (H2 Hf) as (seen & Hseen & E). rewrite E in Hr. injection Hr as _ <-.
      unfold approvals. rewrite <- (count_ext seen); [done|]. intros k Hk.
      rewrite Hseen, <- (first_sign_keys _ _ _ Hf Hk). set_solver.
    + intros (_ & Hf & Hm). destruct (H2 Hf) as (seen & Hseen & ->). cbn [mbind result_bind].
      rewrite (count_ext seen (signer_keys infos)).
      * fold (approvals ms infos). by rewrite (proj2 (Z.ltb_ge _ _)) by lia.
      * intros k Hk. rewrite Hseen, <- (first_sign_keys _ _ _ Hf Hk). set_solver.
  - destruct infos as [|j infos].
    + assert (approvals ms [] = 0%nat) as ->.
      { unfold approvals, signer_keys. cbn. clear. induction (valid_keys ms) as [|k ks IH]; [done|].
        rewrite count_cons, IH, bool_decide_false by set_solver. done. }
      cbn. split.
      * intros H. inv_ok. to_prop. split_and!; [by left|by intros [] ? ?|done].
      * intros (_ & _ & Hm). by rewrite (proj2 (Z.ltb_ge _ _)) by done.
    + cbn [match_signers]. rewrite (proj2 (Z.leb_gt _ _)) by lia. cbn. split; [done|].
      intros [[?|?] _]; [done|lia].
Qed.

(** The ownership check accepts just the accounts that speak for the owner. *)
Lemma validate_owner_iff k st i infos :
  wf_store st -> validate_owner pid k st i infos = Ok tt <-> authorized st k i infos.
Proof.
  intros Hst. rewrite validate_owner_unfold. unfold authorized.
  destruct (decide (key i = k)) as [<-|Hk]; [|by split; [|intros [? _]]].
  destruct (decide (is_multisig st (key i))).
  - destruct (load st i) as [ms| |] eqn:Hl; cbn [mbind result_bind].
    + rewrite load_has in Hl. rewrite match_signers_required by exact (has_wf_multisig _ _ _ Hst Hl).
      split; [intros (? & ? & ?); split; [done|by exists ms]|].
      intros (_ & ms' & Hms & ?). by rewrite (has_inj _ _ _ _ Hl Hms).
    + split; [done|]. intros (_ & ms & Hms & _). apply load_has in Hms. congruence.
    + split; [done|]. intros (_ & ms & Hms & _). apply load_has in Hms. congruence.
  - destruct (is_signer i); cbn; by split; [|intros [_ ?]].
Qed.

Lemma validate_owner_Ok k st i infos u :
  wf_store st -> validate_owner pid k st i infos = Ok u -> authorized st k i infos.
Proof. destruct u. intros Hst. by apply validate_owner_iff. Qed.

Lemma approvals_mono ms infos accounts : infos ⊆ accounts -> (approvals ms infos <= approvals ms accounts)%nat.
Proof.
  intros Hi. apply count_mono. intros k _ (i & -> & Hs)%list_elem_of_fmap.
  apply list_elem_of_filter in Hs as [Hs Hin].
  apply list_elem_of_fmap_2, list_elem_of_filter. auto.
Qed.

(** Who is authorized signed. *)
Lemma authorized_signed accounts st k i infos :
  authorized st k i infos -> (i :: infos) `suffix_of` accounts -> signed_by accounts st k.
Proof.
  intros [Hk H] [pre ->]. unfold signed_by. case_decide.
  - destruct H as (ms & Hms & _ & _ & Hm). exists ms. split; [done|].
    enough (approvals ms infos <= approvals ms (pre ++ i :: infos))%nat by lia.
    apply approvals_mono. set_solver.
  - exists i. split; [set_solver|done].
Qed.
End ValidateOwner.

(** ** A two-of-three multisig *)
Module MultisigSample.
Definition k (n : Z) : Pubkey := n :: replicate 31 9.
Definition pid : Pubkey := k 0.
Definition ms : Multisig :=
  {| m_required := 2; n_valid := 3; ms_is_initialized := true;
     signers := [k 1; k 2; k 3] ++ replicate 8 default_key |}.
Definition ms_account : AccountSharedData :=
  {| lamports := 1; data := Multisig_pack_into_slice ms (replicate 355 0);
     owner := pid; executable := false; rent_epoch := 0 |}.
Definition st : store := <[k 7 := ms_account]> ∅.
Definition i : AccountInfo := {| key := k 7; is_signer := false; is_writable := false |}.
Definition signer (n : Z) : AccountInfo :=
  {| key := k n; is_signer := true; is_writable := false |}.
Definition infos : list AccountInfo := [signer 3; signer 5; signer 1].

Lemma st_wf : wf_store st.
Proof.
  apply wf_store_insert; [apply wf_store_empty| |cbn; unfold_max; lia].
  apply Multisig_pack_bytes; [apply bytes_replicate; lia|].
  split; cbn; try (unfold_max; lia); [done|]. 
  repeat constructor; cbn; lia.
Qed.

Lemma two_of_three : authorized pid st (k 7) i infos.
Proof. apply validate_owner_iff; [apply st_wf|]. vm_compute. reflexivity. Qed.
End MultisigSample.
