(* ===== verification/TokenSpec.v ===== *)
(** * SPL token: the specification of its instructions

    What each instruction of the token program requires and does, on typed
    accounts and mints and without bytes, iterators or error codes: one relation
    per instruction, with its guards, the signatures it needs and its whole
    effect, put together in [token_spec], which is labelled by the instruction.
    The refinement lemma of this file shows that a successful run of the
    processor is a step of the instruction that was sent. *)

From stdpp Require Import base gmap list fin_maps.
From Stdlib Require Import ZArith Lia.
From S2P Require Import Prelude Sdk TokenState TokenInstruction TokenProcessor.
From S2P Require Import TokenStore TokenAuthority.

(** The account list with the mint that the checked instructions name. *)
Definition with_mint (expected_decimals : option Z) (mi : AccountInfo) (rest : list AccountInfo)
  : list AccountInfo :=
  match expected_decimals with Some _ => mi :: rest | None => rest end.

(** The mint has the decimals a checked instruction expects. *)
Definition decimals_match (m : Mint) (expected_decimals : option Z) : Prop :=
  match expected_decimals with Some d => decimals m = d | None => True end.
Definition expects (st : store) (a : Account) (mi : AccountInfo) (expected_decimals : option Z) : Prop :=
  match expected_decimals with
  | Some d => key mi = a_mint a /\ exists m : Mint, has st (key mi) m /\ decimals m = d
  | None => True
  end.

(** [a] after its delegate, if it is [k], has used [amt] of the allowance. *)
Definition charge (a : Account) (k : Pubkey) (amt : Z) : Account :=
  if decide (delegate a = Some k) then
    with_delegate a (if delegated_amount a - amt =? 0 then None else Some k)
      (delegated_amount a - amt)
  else a.

(** [a] after its owner has become [k]. *)
Definition handed_over (a : Account) (k : Pubkey) : Account :=
  let a' := with_delegate (with_owner a k) None 0 in
  if is_native a then with_close_authority a' None else a'.

Section Spec.
Context (deserialize_rent : list Z -> option Rent).
Context (rent_get : program_result Rent).
Context (pid : Pubkey).
Implicit Types (accounts infos : list AccountInfo) (st : store) (a b : Account) (m : Mint).

Abbreviation authorized := (TokenAuthority.authorized pid).

(** ** Who may spend *)

(** [i], with the accounts [infos] after it, may take [amt] tokens from [a]: it
    speaks for the delegate, within the allowance, or for the owner. *)
Definition spends st a i infos (amt : Z) : Prop :=
  if decide (delegate a = Some (key i))
  then authorized st (key i) i infos /\ amt <= delegated_amount a
  else authorized st (a_owner a) i infos.

(** ** Instructions on existing accounts *)
Inductive transferred (n : Z) (ed : option Z) accounts st st' : Prop :=
| Transferred si mi di ai infos a b :
    accounts = si :: with_mint ed mi (di :: ai :: infos) ->
    has st (key si) a -> has st (key di) b ->
    is_frozen a = false -> is_frozen b = false -> n <= amount a -> a_mint a = a_mint b ->
    expects st a mi ed -> spends st a ai infos n ->
    (if decide (key si = key di) then st' = st
     else
       amount b + n <= u64_max /\
       has st' (key si) (with_amount (charge a (key ai) n) (amount a - n)) /\
       has st' (key di) (with_amount b (amount b + n)) /\
       frame [key si; key di] st st' /\
       lamports (acct st' (key si)) = lamports (acct st (key si)) - native_part a n /\
       lamports (acct st' (key di)) = lamports (acct st (key di)) + native_part a n /\
       native_part a n <= lamports (acct st (key si)) /\
       lamports (acct st (key di)) + native_part a n <= u64_max) ->
    transferred n ed accounts st st'.

(** One typed account is rewritten; lamports stay where they are. *)
Definition rewritten {T} `{Pack T} st st' (k : Pubkey) (x x' : T) : Prop :=
  has st k x /\ has st' k x' /\ frame [k] st st' /\ same_lamports st st'.

Inductive approved (n : Z) (ed : option Z) accounts st st' : Prop :=
| Approved si mi di oi infos a :
    accounts = si :: with_mint ed mi (di :: oi :: infos) ->
    is_frozen a = false -> expects st a mi ed -> authorized st (a_owner a) oi infos ->
    rewritten st st' (key si) a (with_delegate a (Some (key di)) n) ->
    approved n ed accounts st st'.

Inductive revoked accounts st st' : Prop :=
| Revoked si oi infos a :
    accounts = si :: oi :: infos ->
    is_frozen a = false -> authorized st (a_owner a) oi infos ->
    rewritten st st' (key si) a (with_delegate a None 0) ->
    revoked accounts st st'.

(** A new owner or close authority of an unfrozen account, or a new mint or
    freeze authority, in place of the one that signed. *)
Inductive authority_set (ty : AuthorityType) (na : option Pubkey) accounts st st' : Prop :=
| Owner_set ki ai infos a k :
    accounts = ki :: ai :: infos -> ty = AccountOwner -> na = Some k ->
    is_frozen a = false -> authorized st (a_owner a) ai infos ->
    rewritten st st' (key ki) a (handed_over a k) ->
    authority_set ty na accounts st st'
| Close_authority_set ki ai infos a :
    accounts = ki :: ai :: infos -> ty = CloseAccount ->
    is_frozen a = false -> authorized st (default (a_owner a) (close_authority a)) ai infos ->
    rewritten st st' (key ki) a (with_close_authority a na) ->
    authority_set ty na accounts st st'
| Mint_authority_set ki ai infos m k :
    accounts = ki :: ai :: infos -> ty = MintTokens ->
    mint_authority m = Some k -> authorized st k ai infos ->
    rewritten st st' (key ki) m (with_mint_authority m na) ->
    authority_set ty na accounts st st'
| Freeze_authority_set ki ai infos m k :
    accounts = ki :: ai :: infos -> ty = FreezeAccount ->
    freeze_authority m = Some k -> authorized st k ai infos ->
    rewritten st st' (key ki) m (with_freeze_authority m na) ->
    authority_set ty na accounts st st'.

Inductive minted_to (n : Z) (ed : option Z) accounts st st' : Prop :=
| Minted_to mi di oi infos m b k :
    accounts = mi :: di :: oi :: infos ->
    has st (key mi) m -> has st (key di) b -> key mi = a_mint b ->
    is_frozen b = false -> is_native b = false -> decimals_match m ed ->
    mint_authority m = Some k -> authorized st k oi infos ->
    amount b + n <= u64_max -> supply m + n <= u64_max ->
    has st' (key mi) (with_supply m (supply m + n)) ->
    has st' (key di) (with_amount b (amount b + n)) ->
    frame [key mi; key di] st st' -> same_lamports st st' ->
    minted_to n ed accounts st st'.

Inductive burned (n : Z) (ed : option Z) accounts st st' : Prop :=
| Burned si mi ai infos a m :
    accounts = si :: mi :: ai :: infos ->
    has st (key si) a -> has st (key mi) m -> key mi = a_mint a ->
    is_frozen a = false -> is_native a = false -> decimals_match m ed ->
    n <= amount a -> n <= supply m -> spends st a ai infos n ->
    has st' (key mi) (with_supply m (supply m - n)) ->
    has st' (key si) (with_amount (charge a (key ai) n) (amount a - n)) ->
    frame [key mi; key si] st st' -> same_lamports st st' ->
    burned n ed accounts st st'.

(** The account is emptied, and its lamports go to the second account. *)
Inductive closed accounts st st' : Prop :=
| Closed si di ai infos a :
    accounts = si :: di :: ai :: infos ->
    has st (key si) a -> is_native a = true \/ amount a = 0 ->
    authorized st (default (a_owner a) (close_authority a)) ai infos ->
    lamports (acct st (key di)) + lamports (acct st (key si)) <= u64_max ->
    has st' (key si) (with_amount a 0) -> lamports (acct st' (key si)) = 0 ->
    (key si <> key di ->
       data (acct st' (key di)) = data (acct st (key di)) /\
       lamports (acct st' (key di)) = lamports (acct st (key di)) + lamports (acct st (key si))) ->
    frame [key si; key di] st st' ->
    closed accounts st st'.

Inductive toggled (freeze : bool) accounts st st' : Prop :=
| Toggled si mi ai infos a m k :
    accounts = si :: mi :: ai :: infos ->
    is_frozen a = negb freeze -> is_native a = false ->
    key mi = a_mint a -> has st (key mi) m ->
    freeze_authority m = Some k -> authorized st k ai infos ->
    rewritten st st' (key si) a (with_state a (if freeze then Frozen else Initialized)) ->
    toggled freeze accounts st st'.

Inductive synced accounts st st' : Prop :=
| Synced ki rest a reserve :
    accounts = ki :: rest -> owner (acct st (key ki)) = pid ->
    native_reserve a = Some reserve -> reserve + amount a <= lamports (acct st (key ki)) ->
    rewritten st st' (key ki) a (with_amount a (lamports (acct st (key ki)) - reserve)) ->
    synced accounts st st'.

(** ** New accounts *)

(** The rent configuration in force, which the rent sysvar holds and the
    runtime hands out. *)
Definition sysvar_rent st : option Rent := deserialize_rent (data (acct st rent_sysvar_id)).
Definition readable_rent st (r : Rent) : Prop := rent_get = Ok r \/ sysvar_rent st = Some r.

(** The configuration an instruction reads: from the sysvar account that follows
    in [it], or from the runtime; [rest] are the accounts after it. *)
Definition reads_rent st (sysvar : bool) (it rest : list AccountInfo) (r : Rent) : Prop :=
  if sysvar then exists ri, it = ri :: rest /\ key ri = rent_sysvar_id /\ sysvar_rent st = Some r
  else it = rest /\ rent_get = Ok r.

(** [k] has room for a [T], holds the uninitialized [x0], pays the rent, and
    becomes [x]. *)
Definition created {T} `{Pack T} st st' (k : Pubkey) (r : Rent) (x0 x : T) : Prop :=
  length (data (acct st k)) = LEN T /\ unpack_from_slice (data (acct st k)) = Ok x0 /\
  is_initialized x0 = false /\ minimum_balance r (get_packed_len T) <= lamports (acct st k) /\
  has st' k x /\ frame [k] st st' /\ same_lamports st st'.

Inductive mint_initialized (d : Z) (ma : Pubkey) (fa : option Pubkey) (sysvar : bool) accounts st st' : Prop :=
| Mint_initialized ki it rest r (m0 : Mint) :
    accounts = ki :: it -> reads_rent st sysvar it rest r ->
    created st st' (key ki) r m0
      {| mint_authority := Some ma; supply := supply m0; decimals := d;
         mint_is_initialized := true; freeze_authority := fa |} ->
    mint_initialized d ma fa sysvar accounts st st'.

(** The owner comes with the instruction, or is the next account. *)
Definition names_owner (own : option Pubkey) (it rest : list AccountInfo) (k : Pubkey) : Prop :=
  match own with
  | Some o => k = o /\ it = rest
  | None => exists oi, it = oi :: rest /\ k = key oi
  end.

(** A wrapped-lamports account starts with what it holds above the reserve; any
    other account names a mint and starts empty. *)
Definition opening st (k mint : Pubkey) (r : Rent) (reserve : option Z) (amt : Z) : Prop :=
  if decide (mint = native_mint_id) then
    reserve = Some (minimum_balance r (get_packed_len Account)) /\
    amt = lamports (acct st k) - minimum_balance r (get_packed_len Account)
  else reserve = None /\ amt = 0 /\ exists m : Mint, has st mint m.

Inductive account_initialized (own : option Pubkey) (sysvar : bool) accounts st st' : Prop :=
| Account_initialized ki mi it1 it2 rest k r (a0 : Account) reserve amt :
    accounts = ki :: mi :: it1 -> names_owner own it1 it2 k -> reads_rent st sysvar it2 rest r ->
    opening st (key ki) (key mi) r reserve amt ->
    created st st' (key ki) r a0
      {| a_mint := key mi; a_owner := k; amount := amt; delegate := None; state := Initialized;
         native_reserve := reserve; delegated_amount := 0; close_authority := close_authority a0 |} ->
    account_initialized own sysvar accounts st st'.

(** [m] of the accounts that follow, between one and eleven, will have to sign. *)
Inductive multisig_initialized (m : Z) (sysvar : bool) accounts st st' : Prop :=
| Multisig_initialized ki it infos r (x0 : Multisig) :
    accounts = ki :: it -> reads_rent st sysvar it infos r ->
    1 <= m <= 11 -> (1 <= length infos <= 11)%nat ->
    created st st' (key ki) r x0
      {| m_required := m; n_valid := Z.of_nat (length infos); ms_is_initialized := true;
         signers := (key <$> infos) ++ drop (length infos) (signers x0) |} ->
    multisig_initialized m sysvar accounts st st'.

(** ** The program *)
Definition token_spec accounts (i : TokenInstruction.t) st st' : Prop :=
  match i with
  | TokenInstruction.InitializeMint d ma fa => mint_initialized d ma fa true accounts st st'
  | TokenInstruction.InitializeMint2 d ma fa => mint_initialized d ma fa false accounts st st'
  | TokenInstruction.InitializeAccount => account_initialized None true accounts st st'
  | TokenInstruction.InitializeAccount2 own => account_initialized (Some own) true accounts st st'
  | TokenInstruction.InitializeAccount3 own => account_initialized (Some own) false accounts st st'
  | TokenInstruction.InitializeMultisig m => multisig_initialized m true accounts st st'
  | TokenInstruction.InitializeMultisig2 m => multisig_initialized m false accounts st st'
  | TokenInstruction.Transfer n => transferred n None accounts st st'
  | TokenInstruction.TransferChecked n d => transferred n (Some d) accounts st st'
  | TokenInstruction.Approve n => approved n None accounts st st'
  | TokenInstruction.ApproveChecked n d => approved n (Some d) accounts st st'
  | TokenInstruction.Revoke => revoked accounts st st'
  | TokenInstruction.SetAuthority ty na => authority_set ty na accounts st st'
  | TokenInstruction.MintTo n => minted_to n None accounts st st'
  | TokenInstruction.MintToChecked n d => minted_to n (Some d) accounts st st'
  | TokenInstruction.Burn n => burned n None accounts st st'
  | TokenInstruction.BurnChecked n d => burned n (Some d) accounts st st'
  | TokenInstruction.CloseAccount => closed accounts st st'
  | TokenInstruction.FreezeAccount => toggled true accounts st st'
  | TokenInstruction.ThawAccount => toggled false accounts st st'
  | TokenInstruction.SyncNative => synced accounts st st'
  end.

(** ** Refinement, handler by handler *)
Lemma next_expected_mint_Ok ed it o rest :
  next_expected_mint ed it = Ok (o, rest) ->
  exists mi, it = with_mint ed mi rest /\
    forall st a u, check_expected_mint st a o = Ok u -> expects st a mi ed.
Proof.
  unfold next_expected_mint. destruct ed as [d|]; intros H; inv_run.
  - eexists. split; [done|]. intros st b u Hc. cbn in Hc. inv_run. split; [done|]. by eexists.
  - exists {| key := default_key; is_signer := false; is_writable := false |}. done.
Qed.

Lemma authorize_spend_Ok st a i infos amt spend a' :
  wf_store st -> authorize_spend pid st a i infos amt spend = Ok a' ->
  spends st a i infos amt /\ a' = if spend then charge a (key i) amt else a.
Proof.
  intros Hst H. unfold authorize_spend in H. unfold spends, charge.
  destruct (delegate a) as [d|] eqn:Ed; [case_if H|]; to_prop; subst; inv_ok;
    match goal with Hv : validate_owner _ _ _ _ _ = Ok _ |- _ =>
      apply validate_owner_Ok in Hv; [|done] end.
  - rewrite !decide_True by done. destruct spend; inv_ok; inv_checked; to_prop; by subst.
  - rewrite !decide_False by congruence. by destruct spend.
  - rewrite !decide_False by congruence. by destruct spend.
Qed.

Lemma wf_charge st a i infos amt :
  wf_account a -> 0 <= amt -> spends st a i infos amt -> wf_account (charge a (key i) amt).
Proof.
  intros Hw Hamt. unfold spends, charge. case_decide as E; [|done]. intros [_ Hle].
  destruct Hw as [? ? ? Hd ? Hda ?]. apply wf_with_delegate; [by split| |lia].
  rewrite E in Hd. by case_match.
Qed.
Lemma charge_holding a k amt : same_holding a (charge a k amt) /\ state (charge a k amt) = state a.
Proof. unfold charge, same_holding. by case_decide. Qed.

Lemma transfer_spec accounts n ed st st' :
  wf_store st -> 0 <= n -> process_transfer pid accounts n ed st = Ok st' ->
  wf_store st' /\ transferred n ed accounts st st'.
Proof.
  intros Hst Hn H. unfold process_transfer in H. inv_run.
  rename a into si, a0 into di, a1 into ai, l2 into infos, x into a, x0 into b, x5 into a',
    Hr3 into Ha, Hr4 into Hb, Hr9 into Hauth.
  apply next_expected_mint_Ok in Hr0 as (mi & -> & Hexp). 
  apply Hexp in Hr8. apply authorize_spend_Ok in Hauth as [Hsp ->]; [|done].
  pose proof (has_wf_account _ _ _ Hst Ha) as Hwa. pose proof (has_wf_account _ _ _ Hst Hb) as Hwb.
  destruct (charge_holding a (key ai) n) as [(Hm & Ham & Hnr) Hs].
  case_if H; to_prop.
  { inv_ok. split; [done|]. eapply Transferred; try done. by rewrite decide_True. }
  cbn [negb] in *. inv_run. inv_checked. subst. rewrite Ham in *.
  pose proof (wfa_amount _ Hwa). pose proof (wfa_amount _ Hwb).
  match goal with Hm' : (if is_native _ then _ else _) = Ok _ |- _ =>
    change (is_native (with_amount ?x _)) with (is_native x) in Hm';
    replace (is_native (charge a (key ai) n)) with (is_native a) in Hm' by (unfold is_native; by rewrite Hnr);
    apply move_lamports_Ok in Hm' as (Hst1 & Hd1 & Hf1 & Hl1 & Hl2); [|done..] end.
  eapply (save_two (T := Account) (U := Account)) in H
    as (Hst2 & Hs1 & Hs2 & Hf2 & Hl); [|exact E|exact Hst1|eassumption|..].
  2: apply wf_with_amount; [by eapply wf_charge|lia].
  2: exact (has_initialized_account _ _ _ _ Ha Hs).
  2: apply wf_with_amount; [done|lia].
  2: by eapply has_initialized_account.
  split; [done|]. eapply Transferred; try done. rewrite decide_False by done.
  pose proof (proj2 (Hst2 (key si))). pose proof (proj2 (Hst2 (key di))). rewrite !Hl in *.
  split_and!; try done; try lia.
  eapply frame_subset; [exact (frame_trans _ _ _ _ _ Hf1 Hf2)|set_solver].
Qed.

(** A handler that rewrites one typed account. *)
Lemma save_rewritten {T} `{PackOk T} st st' i (x x' : T) :
  wf_store st -> has st (key i) x -> save x' i st = Ok st' -> wf_state x' -> is_initialized x' = true ->
  wf_store st' /\ rewritten st st' (key i) x x'.
Proof.
  intros Hst Hx Hs Hw Hi. apply save_has in Hs as (Hst' & Hx' & Hf & Hl & _); [|done..].
  by split.
Qed.

(** [validate_owner] as the signatures of the specification. *)
Ltac owners :=
  repeat match goal with Hv : validate_owner _ _ _ _ _ = Ok _ |- _ =>
    apply validate_owner_Ok in Hv; [|done] end.

Lemma approve_spec accounts n ed st st' :
  wf_store st -> wf_infos accounts -> is_u64 n -> process_approve pid accounts n ed st = Ok st' ->
  wf_store st' /\ approved n ed accounts st st'.
Proof.
  intros Hst Hk Hn H. unfold process_approve in H. inv_run.
  apply next_expected_mint_Ok in Hr0 as (mi & -> & Hexp). apply Hexp in Hr5. owners.
  eapply (save_rewritten (T := Account)) in H as [Hst' Hrw]; [|done|eassumption|..].
  - split; [done|]. by eapply Approved.
  - apply wf_with_delegate; [by eapply has_wf_account| |done].
    apply Forall_cons in Hk as [_ Hk]. destruct ed; cbn in Hk; decompose_Forall_hyps; done.
  - by eapply has_initialized_account.
Qed.

Lemma revoke_spec accounts st st' :
  wf_store st -> process_revoke pid accounts st = Ok st' -> wf_store st' /\ revoked accounts st st'.
Proof.
  intros Hst H. unfold process_revoke in H. inv_run. owners.
  eapply (save_rewritten (T := Account)) in H as [Hst' Hrw]; [|done|eassumption|..].
  - split; [done|]. by eapply Revoked.
  - apply wf_with_delegate; [by eapply has_wf_account|done|unfold_max; lia].
  - by eapply has_initialized_account.
Qed.

Lemma set_account_authority_spec accounts ki ai infos ty na st st' a a' :
  wf_store st -> wf_okey na -> accounts = ki :: ai :: infos -> has st (key ki) a -> is_frozen a = false ->
  set_account_authority pid st ai infos ty na a = Ok a' -> save a' ki st = Ok st' ->
  wf_store st' /\ authority_set ty na accounts st st'.
Proof.
  intros Hst Hna -> Ha Hfr Hs H. pose proof (has_wf_account _ _ _ Hst Ha) as [].
  assert (is_u64 0) by (unfold_max; lia).
  unfold set_account_authority in Hs. destruct ty; inv_ok; owners; subst.
  - change (is_native (with_delegate _ _ _)) with (is_native a) in H.
    fold (handed_over a x0) in H.
    eapply (save_rewritten (T := Account)) in H as [Hst' Hrw]; [|done|exact Ha|..].
    + split; [done|]. by eapply Owner_set.
    + unfold handed_over. destruct (is_native a); by split.
    + eapply has_initialized_account; [exact Ha|]. unfold handed_over. by destruct (is_native a).
  - eapply (save_rewritten (T := Account)) in H as [Hst' Hrw]; [|done|exact Ha|by split|by eapply has_initialized_account].
    split; [done|]. by eapply Close_authority_set.
Qed.

Lemma set_mint_authority_spec accounts ki ai infos ty na st st' m m' :
  wf_store st -> wf_okey na -> accounts = ki :: ai :: infos -> has st (key ki) m ->
  set_mint_authority pid st ai infos ty na m = Ok m' -> save m' ki st = Ok st' ->
  wf_store st' /\ authority_set ty na accounts st st'.
Proof.
  intros Hst Hna -> Hm Hs H. pose proof (has_wf_mint _ _ _ Hst Hm) as [].
  unfold set_mint_authority in Hs. destruct ty; inv_ok; owners;
    (eapply (save_rewritten (T := Mint)) in H as [Hst' Hrw];
      [|done|exact Hm|by split|by eapply has_initialized_mint]); (split; [done|]).
  - by eapply Mint_authority_set.
  - by eapply Freeze_authority_set.
Qed.

Lemma set_authority_spec accounts ty na st st' :
  wf_store st -> wf_okey na -> process_set_authority pid accounts ty na st = Ok st' ->
  wf_store st' /\ authority_set ty na accounts st st'.
Proof.
  intros Hst Hna H. unfold process_set_authority in H. inv_run.
  case_if H; [|case_if H; [|discriminate]]; inv_run.
  - by eapply set_account_authority_spec.
  - by eapply set_mint_authority_spec.
Qed.

Lemma check_decimals_Ok ed m u : check_decimals ed m = Ok u -> decimals_match m ed.
Proof. unfold check_decimals. destruct ed; intros H; inv_ok; to_prop; by subst. Qed.

Lemma mint_to_spec accounts n ed st st' :
  wf_store st -> 0 <= n -> process_mint_to pid accounts n ed st = Ok st' ->
  wf_store st' /\ minted_to n ed accounts st st'.
Proof.
  intros Hst Hn H. unfold process_mint_to in H. inv_run. inv_checked. subst.
  rename a into mi, a0 into di, x into b, x3 into m, Hr2 into Hb, Hr6 into Hm.
  destruct (mint_authority m) as [k|] eqn:Ek; [|discriminate]. owners.
  match goal with Hd : check_decimals _ _ = _ |- _ => apply check_decimals_Ok in Hd end.
  pose proof (has_account_mint_ne _ _ _ _ _ Hb Hm) as Hne.
  pose proof (has_wf_account _ _ _ Hst Hb) as Hwb. pose proof (has_wf_mint _ _ _ Hst Hm) as Hwm.
  pose proof (wfa_amount _ Hwb). pose proof (wfm_supply _ Hwm).
  eapply (save_two (T := Account) (U := Mint)) in H
    as (Hst2 & Hs & Hd & Hf & Hl); [|exact Hne|exact Hst|eassumption|..].
  2: apply wf_with_amount; [done|lia].
  2: by eapply has_initialized_account.
  2: apply wf_with_supply; [done|lia].
  2: by eapply has_initialized_mint.
  split; [done|]. eapply Minted_to; try done. eapply frame_subset; [done|set_solver].
Qed.

Lemma burn_spec accounts n ed st st' :
  wf_store st -> 0 <= n -> process_burn pid accounts n ed st = Ok st' ->
  wf_store st' /\ burned n ed accounts st st'.
Proof.
  intros Hst Hn H. unfold process_burn in H. inv_run. inv_checked. subst.
  match goal with Hs : authorize_spend _ _ _ _ _ _ _ = _ |- _ =>
    apply authorize_spend_Ok in Hs as [Hsp ->]; [|done] end.
  match goal with Hd : check_decimals _ _ = _ |- _ => apply check_decimals_Ok in Hd end.
  rename a into si, a0 into mi, a1 into ai, x into a, x0 into m, Hr2 into Ha, Hr3 into Hm.
  pose proof (has_account_mint_ne _ _ _ _ _ Ha Hm) as Hne.
  pose proof (has_wf_account _ _ _ Hst Ha) as Hwa. pose proof (has_wf_mint _ _ _ Hst Hm) as Hwm.
  pose proof (wfa_amount _ Hwa). pose proof (wfm_supply _ Hwm).
  destruct (charge_holding a (key ai) n) as [(Hmm & Ham & Hnr) Hs]. rewrite Ham in *.
  eapply (save_two (T := Account) (U := Mint)) in H
    as (Hst2 & Hs1 & Hs2 & Hf & Hl); [|exact Hne|exact Hst|eassumption|..].
  2: apply wf_with_amount; [by eapply wf_charge|lia].
  2: exact (has_initialized_account _ _ _ _ Ha Hs).
  2: apply wf_with_supply; [done|lia].
  2: by eapply has_initialized_mint.
  split; [done|]. eapply Burned; try done; try lia. eapply frame_subset; [done|set_solver].
Qed.

Lemma close_spec accounts st st' :
  wf_store st -> process_close_account pid accounts st = Ok st' -> wf_store st' /\ closed accounts st st'.
Proof.
  intros Hst H. unfold process_close_account in H. inv_run. inv_checked. subst. owners.
  rename a into si, a0 into di, x into a, Hr2 into Ha.
  set (st1 := set_lamports _ _ 0) in H.
  assert (wf_store st1 /\ frame [key si; key di] st st1) as [Hst1 Hf1].
  { split; intros k; subst st1; rewrite ?data_set_lamports, ?lamports_set_lamports.
    - destruct (Hst k), (Hst (key si)), (Hst (key di)).
      split; [done|]. repeat case_decide; try done; unfold_max; lia.
    - rewrite !owner_set_lamports. split; [done|]. intros Hk.
      rewrite !acct_set_lamports, !decide_False by set_solver. done. }
  apply (save_has (T := Account)) in H as (Hst2 & Hs & Hf2 & Hl & _); [|done|..].
  2: apply wf_with_amount; [exact (has_wf_account _ _ _ Hst Ha)|unfold_max; lia].
  2: by eapply has_initialized_account.
  split; [done|]. eapply Closed; try done.
  - rewrite Z.eqb_eq in Hr3. tauto.
  - rewrite Hl. subst st1. by rewrite lamports_set_lamports, decide_True.
  - intros Hne. rewrite Hl. destruct (Hf2 (key di)) as [_ ->]; [|set_solver]. subst st1.
    by rewrite !data_set_lamports, !lamports_set_lamports, decide_False, decide_True.
  - eapply frame_subset; [exact (frame_trans _ _ _ _ _ Hf1 Hf2)|set_solver].
Qed.

Lemma toggle_freeze_spec accounts freeze st st' :
  wf_store st -> process_toggle_freeze_account pid accounts freeze st = Ok st' ->
  wf_store st' /\ toggled freeze accounts st st'.
Proof.
  intros Hst H. unfold process_toggle_freeze_account in H. inv_run.
  destruct (freeze_authority _) as [k|] eqn:Ek; [|discriminate]. owners.
  eapply (save_rewritten (T := Account)) in H as [Hst' Hrw]; [|done|eassumption|..].
  - split; [done|]. eapply Toggled; try done. destruct freeze; cbn in *; intuition congruence.
  - assert (wf_account x) as [] by (by eapply has_wf_account). by split.
  - by destruct freeze.
Qed.

Lemma sync_native_spec accounts st st' :
  wf_store st -> process_sync_native pid accounts st = Ok st' -> wf_store st' /\ synced accounts st st'.
Proof.
  intros Hst H. unfold process_sync_native in H. inv_run.
  destruct (native_reserve x0) as [reserve|] eqn:Er; [|discriminate]. inv_run. inv_checked. subst.
  pose proof (has_wf_account _ _ _ Hst Hr1) as Hw.
  pose proof (wfa_native _ Hw) as Hn. rewrite Er in Hn. cbn in Hn.
  pose proof (Hst (key a)) as [_ ?].
  eapply (save_rewritten (T := Account)) in H as [Hst' Hrw]; [|done|eassumption|..].
  - split; [done|]. eapply Synced; try done. lia.
  - apply wf_with_amount; [done|lia].
  - by eapply has_initialized_account.
Qed.

Lemma read_rent_Ok st (b : bool) it r rest :
  read_rent deserialize_rent rent_get st b it = Ok (r, rest) -> reads_rent st b it rest r.
Proof.
  unfold read_rent, rent_from_account_info, reads_rent, sysvar_rent. destruct b; intros H; inv_run; [|done].
  case_if Hr0; [done|]. to_prop. inv_ok. eexists. split; [done|]. split; [done|]. congruence.
Qed.
Lemma reads_readable st (b : bool) it r rest : reads_rent st b it rest r -> readable_rent st r.
Proof. unfold reads_rent, readable_rent. destruct b; [intros (? & _ & _ & ?); by right|intros []; by left]. Qed.

(** A handler that fills an uninitialized account that pays its rent. *)
Lemma save_created {T} `{PackOk T} st st' i r (x0 x : T) :
  wf_store st -> load_unchecked st i = Ok x0 -> is_initialized x0 = false ->
  is_exempt r (lamports (acct st (key i))) (data_len st i) = true ->
  save x i st = Ok st' -> (wf_state x0 -> wf_state x) -> is_initialized x = true ->
  wf_store st' /\ created st st' (key i) r x0 x.
Proof.
  intros Hst Hu Hi He Hs Hw Hx. apply unpack_unchecked_Ok in Hu as [Hlen Hu].
  assert (wf_state x0) by (eapply unpack_wf; [exact Hlen|apply Hst|exact Hu]).
  apply save_has in Hs as (Hst' & Hx' & Hf & Hl & _); [|auto..]. split; [done|].
  unfold is_exempt, data_len in He. rewrite Hlen in He. to_prop. by split_and!.
Qed.

Lemma init_mint_spec accounts d ma fa (b : bool) st st' :
  wf_store st -> is_u8 d -> wf_key ma -> wf_okey fa ->
  _process_initialize_mint deserialize_rent rent_get accounts d ma fa b st = Ok st' ->
  wf_store st' /\ mint_initialized d ma fa b accounts st st'.
Proof.
  intros Hst Hd Hma Hfa H. unfold _process_initialize_mint in H. inv_run. apply read_rent_Ok in Hr0.
  eapply (save_created (T := Mint)) in H as [Hst' Hc]; [|done|eassumption|done|eassumption| |done].
  - split; [done|]. by eapply Mint_initialized.
  - intros []. by split.
Qed.

Lemma opening_Ok st mi ni r x o z :
  wf_store st -> length (data (acct st (key ni))) = LEN Account ->
  (if negb (bool_decide (key mi = native_mint_id))
   then _ ← map_err (fun _ => terr TokenError.InvalidMint) (load (T := Mint) st mi); Ok tt
   else Ok tt) = Ok x ->
  (if bool_decide (key mi = native_mint_id)
   then amt ← ok_or (checked_sub (lamports (acct st (key ni))) (minimum_balance r (data_len st ni)))
                (terr TokenError.Overflow);
        Ok (Some (minimum_balance r (data_len st ni)), amt)
   else Ok (None, 0)) = Ok (o, z) ->
  opening st (key ni) (key mi) r o z /\ is_u64 z /\ wf_ou64 o.
Proof.
  intros Hst Hl Hm H. unfold opening, data_len in *. rewrite Hl in H.
  pose proof (proj2 (Hst (key ni))). pose proof (minimum_balance_nonneg r (Z.of_nat (LEN Account))).
  destruct (decide (key mi = native_mint_id)) as [E|E].
  - rewrite bool_decide_true in H by done. inv_ok. inv_checked. subst.
    split; [done|]. change (Z.of_nat (LEN Account)) with 165 in *. change (Z.of_nat 165) with 165.
    set (mb := minimum_balance r 165) in *. clearbody mb. unfold wf_ou64. lia.
  - rewrite bool_decide_false in * by done. cbn [negb] in Hm. inv_ok.
    split; [eauto|]. split; [unfold_max; lia|exact I].
Qed.

Lemma names_owner_Ok own it k rest :
  match own with
  | Some o => Ok (o, it)
  | None => '(i, it) ← next_account_info it; Ok (key i, it)
  end = Ok (k, rest) -> names_owner own it rest k.
Proof. unfold names_owner. destruct own; intros H; inv_run; [done|]. by eexists. Qed.

Lemma init_account_spec accounts own (b : bool) st st' :
  wf_store st -> wf_infos accounts -> wf_okey own ->
  _process_initialize_account deserialize_rent rent_get accounts own b st = Ok st' ->
  wf_store st' /\ account_initialized own b accounts st st'.
Proof.
  intros Hst Hk Hown H. unfold _process_initialize_account in H. inv_run.
  rename a into ni, a0 into mi, x into a, l1 into k, r into rent.
  apply Forall_cons in Hk as [_ [Hmk Hk]%Forall_cons].
  match goal with Ho : match own with Some _ => _ | None => _ end = Ok _ |- _ => apply names_owner_Ok in Ho; rename Ho into Hno end.
  assert (wf_key k) as Ho.
  { unfold names_owner in Hno. destruct own; [by destruct Hno as [-> _]|].
    destruct Hno as (oi & -> & ->). by apply Forall_cons in Hk as [? _]. }
  apply read_rent_Ok in Hr2. pose proof Hr3 as Hlen. apply unpack_unchecked_Ok in Hlen as [Hlen _].
  eapply opening_Ok in Hr7 as (Hop & Hz & Hres); [|done|exact Hlen|exact Hr6].
  eapply (save_created (T := Account)) in H as [Hst' Hc]; [|done|eassumption| |eassumption| |done].
  - split; [done|]. by eapply Account_initialized.
  - cbn in Hr4 |- *. by destruct (state a).
  - intros []. by split.
Qed.

Lemma fill_signers_Ok i infos ks ks' :
  fill_signers i infos ks = Ok ks' -> (i <= length ks)%nat ->
  ks' = take i ks ++ (key <$> infos) ++ drop (i + length infos) ks /\ (i + length infos <= length ks)%nat.
Proof.
  revert i ks. induction infos as [|info infos IH]; intros i ks H Hi; cbn in H; inv_ok.
  - cbn. rewrite Nat.add_0_r, take_drop. done.
  - apply Nat.ltb_lt in Hr. apply IH in H as [-> Hl]; [|rewrite length_insert; lia].
    rewrite length_insert in Hl. split; [|cbn; lia].
    rewrite drop_insert_lt by lia. rewrite (take_S_r _ _ (key info)) by (by rewrite list_lookup_insert_eq).
    rewrite take_insert_ge by lia.
    replace (i + length (info :: infos))%nat with (S i + length infos)%nat by (cbn; lia).
    by rewrite <- app_assoc.
Qed.

Lemma init_multisig_spec accounts (m : Z) (b : bool) st st' :
  wf_store st -> wf_infos accounts -> is_u8 m ->
  _process_initialize_multisig deserialize_rent rent_get accounts m b st = Ok st' ->
  wf_store st' /\ multisig_initialized m b accounts st st'.
Proof.
  intros Hst Hk Hm H. unfold _process_initialize_multisig in H. inv_run.
  apply Forall_cons in Hk as [_ Hk]. apply read_rent_Ok in Hr0.
  assert (wf_infos l0) as Hks.
  { unfold reads_rent in Hr0. destruct b; [|by destruct Hr0 as [<- _]].
    destruct Hr0 as (? & -> & _). by apply Forall_cons in Hk as [_ ?]. }
  pose proof Hr1 as Hw. apply unpack_unchecked_Ok in Hw as [Hlen Hu].
  apply Multisig_unpack_wf in Hu as Hw; [|exact Hlen|apply Hst]. clear Hu.
  unfold is_valid_signer_index in *. to_prop.
  change (Z.of_nat MIN_SIGNERS) with 1 in *. change (Z.of_nat MAX_SIGNERS) with 11 in *.
  match goal with Hs : fill_signers _ _ _ = _ |- _ => apply fill_signers_Ok in Hs as [-> Hl]; [|lia] end.
  rewrite (wfs_len _ Hw) in Hl. unfold MAX_SIGNERS in Hl. cbn [Nat.add] in Hl.
  assert (wrap u8_max (Z.of_nat (length l0)) = Z.of_nat (length l0)) as En
    by (unfold wrap; apply Z.mod_small; unfold_max; lia). rewrite En in *.
  eapply (save_created (T := Multisig)) in H as [Hst' Hc]; [|done|eassumption|done|eassumption| |done].
  - split; [done|]. eapply Multisig_initialized; [done|exact Hr0|lia|lia|exact Hc].
  - intros _. split; cbn; [done|unfold_max; lia| |].
    + rewrite take_0. cbn [app]. rewrite length_app, length_fmap, length_drop, (wfs_len _ Hw). unfold MAX_SIGNERS. lia.
    + rewrite take_0. cbn [app]. apply Forall_app. split; [by apply Forall_fmap|]. apply Forall_drop, Hw.
Qed.

(** Every successful run of the token program is a step of its specification
    and keeps the store well formed. *)
Lemma process_instruction_spec accounts i st st' :
  wf_store st -> wf_infos accounts -> TokenInstruction.wf i ->
  process_instruction deserialize_rent rent_get pid accounts i st = Ok st' ->
  wf_store st' /\ token_spec accounts i st st'.
Proof.
  intros Hst Hk Hi H. destruct i; cbn in Hi, H |- *; destruct_and?.
  all: first
    [ apply init_mint_spec | apply init_multisig_spec | apply init_account_spec
    | apply transfer_spec | apply approve_spec | apply revoke_spec | apply set_authority_spec
    | apply mint_to_spec | apply burn_spec | apply close_spec | apply toggle_freeze_spec
    | apply sync_native_spec ]; solve [done | lia].
Qed.
End Spec.
