(* ===== verification/TokenEffects.v ===== *)
(** * SPL token: what instructions do to balances and authorities

    What the invariants of the ledger and the programs that call the token
    program need to know of an instruction, drawn from its specification
    ([TokenSpec.token_spec]): [token_effect] forgets which instruction ran and
    keeps what it may do to balances, supplies and authorities; [moved],
    [issued], [retired], [opened] and [founded] are the effects of a call that
    moves, issues or retires tokens or opens an account or a mint. *)

From stdpp Require Import base gmap list fin_maps.
From Stdlib Require Import ZArith Lia.
From S2P Require Import Prelude Sdk TokenState TokenInstruction TokenProcessor.
From S2P Require Import TokenStore TokenAuthority TokenSpec.

Section Effects.
Context (deserialize_rent : list Z -> option Rent).
Context (rent_get : program_result Rent).
Context (pid : Pubkey).

Abbreviation signed_by := (TokenAuthority.signed_by pid).
Abbreviation readable_rent := (TokenSpec.readable_rent deserialize_rent rent_get).
Abbreviation token_spec := (TokenSpec.token_spec deserialize_rent rent_get pid).

(** [amt] tokens may leave [a]: its owner signed, or a delegate within its
    allowance. *)
Definition spend_authorized (accounts : list AccountInfo) (st : store)
    (a : Account) (amt : Z) : Prop :=
  signed_by accounts st (a_owner a) \/
  exists d, delegate a = Some d /\ amt <= delegated_amount a /\
            signed_by accounts st d.

(** The keys that may act for an account or a mint are the same. *)
Definition same_authorities (a a' : Account) : Prop :=
  a_owner a' = a_owner a /\ delegate a' = delegate a /\ close_authority a' = close_authority a.
Definition same_mint_authorities (m m' : Mint) : Prop :=
  mint_authority m' = mint_authority m /\ freeze_authority m' = freeze_authority m.

(** A holder of the right to change them signed. *)
Definition reassigned (accounts : list AccountInfo) (st : store) (a : Account) : Prop :=
  signed_by accounts st (a_owner a) \/
  signed_by accounts st (default (a_owner a) (close_authority a)).
Definition mint_reassigned (accounts : list AccountInfo) (st : store) (m : Mint) : Prop :=
  exists k, (mint_authority m = Some k \/ freeze_authority m = Some k) /\ signed_by accounts st k.

Inductive token_effect (accounts : list AccountInfo) (st st' : store) : Prop :=
| S_noop : st' = st -> token_effect accounts st st'
| S_move s d (a b a' : Account) amt :
    s <> d -> has st s a -> has st d b -> a_mint a = a_mint b ->
    is_frozen a = false -> is_frozen b = false ->
    0 <= amt <= amount a -> amount b + amt <= u64_max ->
    spend_authorized accounts st a amt ->
    same_holding a a' -> state a' = state a ->
    has st' s (with_amount a' (amount a - amt)) ->
    has st' d (with_amount b (amount b + amt)) ->
    frame [s; d] st st' ->
    lamports (acct st' s) = lamports (acct st s) - native_part a amt ->
    lamports (acct st' d) = lamports (acct st d) + native_part a amt ->
    0 <= lamports (acct st' s) -> lamports (acct st' d) <= u64_max ->
    token_effect accounts st st'
| S_account k (a a' : Account) :
    has st k a -> has st' k a' -> same_holding a a' ->
    is_frozen a = false \/ a' = with_state a Initialized ->
    (is_native a = true -> state a' = state a) ->
    frame [k] st st' -> same_lamports st st' ->
    same_authorities a a' \/ reassigned accounts st a ->
    token_effect accounts st st'
| S_mint k (m m' : Mint) :
    has st k m -> has st' k m' -> supply m' = supply m ->
    (mint_authority m = None -> mint_authority m' = None) ->
    frame [k] st st' -> same_lamports st st' ->
    same_mint_authorities m m' \/ mint_reassigned accounts st m ->
    token_effect accounts st st'
| S_mint_to mk d (m : Mint) (b : Account) auth amt :
    has st mk m -> has st d b -> a_mint b = mk ->
    is_frozen b = false -> is_native b = false ->
    mint_authority m = Some auth -> signed_by accounts st auth ->
    0 <= amt -> amount b + amt <= u64_max -> supply m + amt <= u64_max ->
    has st' mk (with_supply m (supply m + amt)) ->
    has st' d (with_amount b (amount b + amt)) ->
    frame [mk; d] st st' -> same_lamports st st' ->
    token_effect accounts st st'
| S_burn mk s (m : Mint) (a a' : Account) amt :
    has st mk m -> has st s a -> a_mint a = mk ->
    is_frozen a = false -> is_native a = false ->
    0 <= amt <= amount a -> amt <= supply m ->
    spend_authorized accounts st a amt ->
    same_holding a a' -> state a' = state a ->
    has st' mk (with_supply m (supply m - amt)) ->
    has st' s (with_amount a' (amount a - amt)) ->
    frame [mk; s] st st' -> same_lamports st st' ->
    token_effect accounts st st'
| S_close s d (a : Account) :
    has st s a -> is_native a = true \/ amount a = 0 ->
    signed_by accounts st (default (a_owner a) (close_authority a)) ->
    has st' s (with_amount a 0) ->
    data (acct st' d) = (if decide (s = d) then data (acct st' d)
                         else data (acct st d)) ->
    frame [s; d] st st' ->
    lamports (acct st' s) = 0 ->
    (s <> d -> lamports (acct st' d) = lamports (acct st d) + lamports (acct st s)) ->
    token_effect accounts st st'
| S_sync k (a : Account) reserve :
    owner (acct st k) = pid -> has st k a -> native_reserve a = Some reserve ->
    amount a <= lamports (acct st k) - reserve ->
    has st' k (with_amount a (lamports (acct st k) - reserve)) ->
    frame [k] st st' -> same_lamports st st' ->
    token_effect accounts st st'
| S_init_account k (a0 a : Account) rent :
    length (data (acct st k)) = LEN Account ->
    unpack_from_slice (data (acct st k)) = Ok a0 -> state a0 = Uninitialized ->
    readable_rent st rent ->
    minimum_balance rent (get_packed_len Account) <= lamports (acct st k) ->
    has st' k a -> state a = Initialized -> delegate a = None ->
    (if decide (a_mint a = native_mint_id)
     then exists reserve, native_reserve a = Some reserve /\
            amount a + reserve = lamports (acct st k) /\ 0 <= reserve
     else native_reserve a = None /\ amount a = 0 /\
          exists m : Mint, has st (a_mint a) m) ->
    frame [k] st st' -> same_lamports st st' ->
    token_effect accounts st st'
| S_init_mint k (m0 m : Mint) rent :
    length (data (acct st k)) = LEN Mint ->
    unpack_from_slice (data (acct st k)) = Ok m0 ->
    mint_is_initialized m0 = false ->
    readable_rent st rent ->
    minimum_balance rent (get_packed_len Mint) <= lamports (acct st k) ->
    has st' k m -> supply m = supply m0 ->
    frame [k] st st' -> same_lamports st st' ->
    token_effect accounts st st'
| S_init_multisig k (x0 x : Multisig) :
    length (data (acct st k)) = LEN Multisig ->
    unpack_from_slice (data (acct st k)) = Ok x0 -> ms_is_initialized x0 = false -> has st' k x ->
    1 <= m_required x <= 11 -> 1 <= n_valid x <= 11 ->
    frame [k] st st' -> same_lamports st st' ->
    token_effect accounts st st'.


(** ** Exact effects of the instructions that move, issue and retire tokens *)
Inductive moved (accounts : list AccountInfo) (s d : Pubkey) (amt : Z) (st st' : store) : Prop :=
| Moved (a b a' : Account) :
    has st s a -> has st d b -> a_mint a = a_mint b ->
    is_frozen a = false -> is_frozen b = false ->
    0 <= amt <= amount a -> amount b + amt <= u64_max ->
    spend_authorized accounts st a amt ->
    same_holding a a' -> state a' = state a -> (delegate a = None -> a' = a) ->
    has st' s (with_amount a' (amount a - amt)) ->
    has st' d (with_amount b (amount b + amt)) ->
    frame [s; d] st st' ->
    lamports (acct st' s) = lamports (acct st s) - native_part a amt ->
    lamports (acct st' d) = lamports (acct st d) + native_part a amt ->
    0 <= lamports (acct st' s) -> lamports (acct st' d) <= u64_max ->
    moved accounts s d amt st st'.

Inductive issued (accounts : list AccountInfo) (mk d : Pubkey) (amt : Z) (st st' : store) : Prop :=
| Issued (m : Mint) (b : Account) auth :
    has st mk m -> has st d b -> a_mint b = mk ->
    is_frozen b = false -> is_native b = false ->
    mint_authority m = Some auth -> signed_by accounts st auth ->
    0 <= amt -> amount b + amt <= u64_max -> supply m + amt <= u64_max ->
    has st' mk (with_supply m (supply m + amt)) ->
    has st' d (with_amount b (amount b + amt)) ->
    frame [mk; d] st st' -> same_lamports st st' ->
    issued accounts mk d amt st st'.

Inductive retired (accounts : list AccountInfo) (mk s : Pubkey) (amt : Z) (st st' : store) : Prop :=
| Retired (m : Mint) (a a' : Account) :
    has st mk m -> has st s a -> a_mint a = mk ->
    is_frozen a = false -> is_native a = false ->
    0 <= amt <= amount a -> amt <= supply m ->
    spend_authorized accounts st a amt ->
    same_holding a a' -> state a' = state a ->
    has st' mk (with_supply m (supply m - amt)) ->
    has st' s (with_amount a' (amount a - amt)) ->
    frame [mk; s] st st' -> same_lamports st st' ->
    retired accounts mk s amt st st'.

(** A new account of [mint] for [own], and a new mint. *)
Inductive opened (k own mint : Pubkey) (st st' : store) : Prop :=
| Opened (a0 a : Account) rent :
    length (data (acct st k)) = LEN Account ->
    unpack_from_slice (data (acct st k)) = Ok a0 -> state a0 = Uninitialized ->
    readable_rent st rent ->
    minimum_balance rent (get_packed_len Account) <= lamports (acct st k) ->
    has st' k a -> state a = Initialized -> delegate a = None ->
    a_owner a = own -> a_mint a = mint -> close_authority a = close_authority a0 ->
    (if decide (a_mint a = native_mint_id)
     then exists reserve, native_reserve a = Some reserve /\
            amount a + reserve = lamports (acct st k) /\ 0 <= reserve
     else native_reserve a = None /\ amount a = 0 /\
          exists m : Mint, has st (a_mint a) m) ->
    frame [k] st st' -> same_lamports st st' ->
    opened k own mint st st'.

Inductive founded (k au : Pubkey) (fa : option Pubkey) (st st' : store) : Prop :=
| Founded (m0 m : Mint) rent :
    length (data (acct st k)) = LEN Mint ->
    unpack_from_slice (data (acct st k)) = Ok m0 ->
    mint_is_initialized m0 = false ->
    readable_rent st rent ->
    minimum_balance rent (get_packed_len Mint) <= lamports (acct st k) ->
    has st' k m -> supply m = supply m0 -> mint_authority m = Some au -> freeze_authority m = fa ->
    frame [k] st st' -> same_lamports st st' ->
    founded k au fa st st'.

(** ** From the specification *)
Lemma spends_authorized accounts st a i infos amt :
  spends pid st a i infos amt -> (i :: infos) `suffix_of` accounts -> spend_authorized accounts st a amt.
Proof.
  unfold spends, spend_authorized. intros H Hs. case_decide as E.
  - destruct H as [Hau Hle]. right. exists (key i). split_and!; [done..|by eapply authorized_signed].
  - left. by eapply authorized_signed.
Qed.

Lemma with_mint_suffix ed mi rest : rest `suffix_of` with_mint ed mi rest.
Proof. destruct ed; cbn; [by apply suffix_cons_r|done]. Qed.
Lemma next_expected_mint_suffix ed it o rest :
  next_expected_mint ed it = Ok (o, rest) -> rest `suffix_of` it.
Proof. intros (mi & -> & _)%next_expected_mint_Ok. apply with_mint_suffix. Qed.

Lemma transferred_moved accounts n ed st st' :
  transferred pid n ed accounts st st' -> 0 <= n ->
  exists si di rest,
    accounts = si :: rest /\ rest !! match ed with Some _ => 1 | None => 0 end%nat = Some di /\
    (key si = key di /\ st' = st \/
     key si <> key di /\ moved accounts (key si) (key di) n st st').
Proof.
  intros [si mi di ai infos a b -> Ha Hb Hfa Hfb Hn Hm _ Hsp H] Hn0.
  exists si, di, (with_mint ed mi (di :: ai :: infos)). split; [done|]. split; [by destruct ed|].
  case_decide as E; [by left|right]. split; [done|].
  destruct H as (Hmax & Hs & Hd & Hf & Hl1 & Hl2 & Hle1 & Hle2).
  destruct (charge_holding a (key ai) n) as [Hh Hst].
  eapply Moved; try done; try lia.
  - eapply spends_authorized; [done|]. apply suffix_cons_r.
    etrans; [|apply with_mint_suffix]. by apply suffix_cons_r.
  - intros Hd0. unfold charge. by rewrite Hd0.
Qed.

Lemma minted_to_issued accounts n ed st st' :
  minted_to pid n ed accounts st st' -> 0 <= n ->
  exists mi di rest, accounts = mi :: di :: rest /\ issued accounts (key mi) (key di) n st st'.
Proof.
  intros [mi di oi infos m b k -> Hm Hb Hk Hfr Hnat _ Hma Hau Hmax Hsup Hm' Hb' Hf Hl] Hn.
  exists mi, di, (oi :: infos). split; [done|]. eapply Issued; try done.
  eapply authorized_signed; [exact Hau|]. by do 2 apply suffix_cons_r.
Qed.

Lemma burned_retired accounts n ed st st' :
  burned pid n ed accounts st st' -> 0 <= n ->
  exists si mi rest, accounts = si :: mi :: rest /\ retired accounts (key mi) (key si) n st st'.
Proof.
  intros [si mi ai infos a m -> Ha Hm Hk Hfr Hnat _ Hn Hsup Hsp Hm' Ha' Hf Hl] Hn0.
  exists si, mi, (ai :: infos). split; [done|].
  destruct (charge_holding a (key ai) n) as [Hh Hst].
  eapply Retired; try done. eapply spends_authorized; [done|]. by do 2 apply suffix_cons_r.
Qed.

Lemma mint_initialized_founded accounts d ma fa sysvar st st' :
  mint_initialized deserialize_rent rent_get d ma fa sysvar accounts st st' ->
  exists i, head accounts = Some i /\ founded (key i) ma fa st st'.
Proof.
  intros [ki it rest r m0 -> Hr%reads_readable (Hl & Hu & Hi & He & Hm & Hf & Hsl)].
  exists ki. split; [done|]. by eapply Founded.
Qed.

Lemma account_initialized_opened accounts own sysvar st st' :
  account_initialized deserialize_rent rent_get own sysvar accounts st st' ->
  exists i j it, accounts = i :: j :: it /\
    exists o, (own = Some o \/ own = None /\ exists oi, head it = Some oi /\ o = key oi) /\
      opened (key i) o (key j) st st'.
Proof.
  intros [ki mi it1 it2 rest k r a0 reserve amt -> Hown Hr%reads_readable Hop
    (Hl & Hu & Hi & He & Ha & Hf & Hsl)].
  exists ki, mi, it1. split; [done|]. exists k. split.
  { unfold names_owner in Hown. destruct own; [destruct Hown as [-> _]; by left|].
    destruct Hown as (oi & -> & ->). right. split; [done|]. by exists oi. }
  eapply Opened; try done; [cbn in Hi; by destruct (state a0)|]. cbn.
  unfold opening in Hop. case_decide; [|done]. destruct Hop as [-> ->].
  eexists. split; [done|]. split; [lia|]. apply minimum_balance_nonneg.
Qed.

(** A rewritten account of which nobody takes tokens. *)
Lemma rewritten_effect accounts st st' k (a a' : Account) :
  rewritten st st' k a a' -> same_holding a a' ->
  is_frozen a = false \/ a' = with_state a Initialized ->
  (is_native a = true -> state a' = state a) ->
  same_authorities a a' \/ reassigned accounts st a ->
  token_effect accounts st st'.
Proof. intros (Ha & Ha' & Hf & Hl) Hh Hfr Hn Hau. by eapply S_account. Qed.
Lemma rewritten_mint_effect accounts st st' k (m m' : Mint) :
  rewritten st st' k m m' -> supply m' = supply m ->
  (mint_authority m = None -> mint_authority m' = None) ->
  same_mint_authorities m m' \/ mint_reassigned accounts st m ->
  token_effect accounts st st'.
Proof. intros (Hm & Hm' & Hf & Hl) Hs Hn Hau. by eapply S_mint. Qed.

Lemma authority_set_effect ty na accounts st st' :
  authority_set pid ty na accounts st st' -> token_effect accounts st st'.
Proof.
  intros [ki ai infos a k -> _ _ Hfr Hau Hrw|ki ai infos a -> _ Hfr Hau Hrw
    |ki ai infos m k -> _ Hk Hau Hrw|ki ai infos m k -> _ Hk Hau Hrw];
    (eapply authorized_signed in Hau; [|apply suffix_cons_r; reflexivity]).
  - eapply rewritten_effect; [exact Hrw| |by left| |by right; left];
      unfold handed_over, same_holding; by destruct (is_native a).
  - eapply rewritten_effect; [exact Hrw|done|by left|done|by right; right].
  - eapply rewritten_mint_effect; [exact Hrw|done|cbn; congruence|right; by exists k; eauto].
  - eapply rewritten_mint_effect; [exact Hrw|done|done|right; by exists k; eauto].
Qed.

Lemma account_spec_effect accounts i st st' :
  match i with
  | TokenInstruction.Approve _ | TokenInstruction.ApproveChecked _ _ | TokenInstruction.Revoke
  | TokenInstruction.FreezeAccount | TokenInstruction.ThawAccount | TokenInstruction.CloseAccount
  | TokenInstruction.SyncNative | TokenInstruction.InitializeMultisig _
  | TokenInstruction.InitializeMultisig2 _ => token_spec accounts i st st'
  | _ => False
  end -> token_effect accounts st st'.
Proof.
  assert (forall n ed, approved pid n ed accounts st st' -> token_effect accounts st st') as Happ.
  { intros n ed [si mi di oi infos a -> Hfr _ Hau Hrw].
    eapply rewritten_effect; [exact Hrw|done|by left|done|]. right; left.
    eapply authorized_signed; [exact Hau|]. apply suffix_cons_r.
    etrans; [|apply with_mint_suffix]. by apply suffix_cons_r. }
  assert (forall freeze, toggled pid freeze accounts st st' -> token_effect accounts st st') as Htog.
  { intros freeze [si mi ai infos a m k -> Hfr Hnat _ _ _ _ Hrw].
    eapply rewritten_effect; [exact Hrw|done| |congruence|by left].
    destruct freeze; [by left|by right]. }
  assert (forall m b, multisig_initialized deserialize_rent rent_get m b accounts st st' ->
    token_effect accounts st st') as Hms.
  { intros m b [ki it infos r x0 -> _ Hm Hl (Hlen & Hu & Hi & _ & Hx & Hf & Hsl)].
    eapply (S_init_multisig _ _ _ _ x0); try done. cbn. lia. }
  destruct i; intros H; try done; eauto.
  - destruct H as [si oi infos a -> Hfr Hau Hrw].
    eapply rewritten_effect; [exact Hrw|done|by left|done|]. right; left.
    eapply authorized_signed; [exact Hau|]. by apply suffix_cons_r.
  - destruct H as [si di ai infos a -> Ha Hz Hau _ Ha' Hl Hd Hf].
    eapply (S_close _ _ _ (key si) (key di)); try done.
    + eapply authorized_signed; [exact Hau|]. by do 2 apply suffix_cons_r.
    + case_decide as E; [done|]. by apply Hd.
    + intros E. by apply Hd.
  - destruct H as [ki rest a reserve -> Ho Hr Hle (Ha & Ha' & Hf & Hsl)].
    eapply S_sync; try done. lia.
Qed.

(** An instruction that meets its specification has one of these effects. *)
Lemma token_spec_effect accounts i st st' :
  token_spec accounts i st st' -> TokenInstruction.wf i -> token_effect accounts st st'.
Proof.
  intros H Hi.
  assert (forall n ed, transferred pid n ed accounts st st' -> 0 <= n -> token_effect accounts st st') as Htr.
  { intros n ed Ht Hn. destruct (transferred_moved _ _ _ _ _ Ht Hn) as (si & di & rest & _ & _ & [[_ ->]|[Hne []]]);
      [by apply S_noop|by eapply S_move]. }
  assert (forall n ed, minted_to pid n ed accounts st st' -> 0 <= n -> token_effect accounts st st') as Hmt.
  { intros n ed Ht Hn. destruct (minted_to_issued _ _ _ _ _ Ht Hn) as (mi & di & rest & _ & []). by eapply S_mint_to. }
  assert (forall n ed, burned pid n ed accounts st st' -> 0 <= n -> token_effect accounts st st') as Hbu.
  { intros n ed Ht Hn. destruct (burned_retired _ _ _ _ _ Ht Hn) as (si & mi & rest & _ & []). by eapply S_burn. }
  assert (forall d ma fa b, mint_initialized deserialize_rent rent_get d ma fa b accounts st st' ->
    token_effect accounts st st') as Him.
  { intros d ma fa b (ki & _ & [])%mint_initialized_founded. by eapply S_init_mint. }
  assert (forall own b, account_initialized deserialize_rent rent_get own b accounts st st' ->
    token_effect accounts st st') as Hia.
  { intros own b (ki & kj & it & _ & o & _ & [])%account_initialized_opened. by eapply S_init_account. }
  pose proof (account_spec_effect accounts i st st') as Hac.
  destruct i; cbn in Hi, H; destruct_and?;
    first [by eapply Him|by eapply Hia|eapply Htr; [exact H|lia]|eapply Hmt; [exact H|lia]
      |eapply Hbu; [exact H|lia]|by eapply authority_set_effect|exact (Hac H)].
Qed.

(** ** The effects of successful runs *)
Lemma transfer_effect accounts amt ed st st' :
  wf_store st -> 0 <= amt ->
  process_transfer pid accounts amt ed st = Ok st' ->
  wf_store st' /\ exists si di rest,
    accounts = si :: rest /\ rest !! match ed with Some _ => 1 | None => 0 end%nat = Some di /\
    (key si = key di /\ st' = st \/
     key si <> key di /\ moved accounts (key si) (key di) amt st st').
Proof. intros Hst Hn [? ?]%transfer_spec; [|done..]. split; [done|]. by apply transferred_moved. Qed.

Lemma mint_to_effect accounts amt ed st st' :
  wf_store st -> 0 <= amt ->
  process_mint_to pid accounts amt ed st = Ok st' ->
  wf_store st' /\ exists mi di rest, accounts = mi :: di :: rest /\
    issued accounts (key mi) (key di) amt st st'.
Proof. intros Hst Hn [? ?]%mint_to_spec; [|done..]. split; [done|]. by eapply minted_to_issued. Qed.

Lemma burn_effect accounts amt ed st st' :
  wf_store st -> 0 <= amt ->
  process_burn pid accounts amt ed st = Ok st' ->
  wf_store st' /\ exists si mi rest, accounts = si :: mi :: rest /\
    retired accounts (key mi) (key si) amt st st'.
Proof. intros Hst Hn [? ?]%burn_spec; [|done..]. split; [done|]. by eapply burned_retired. Qed.

Lemma init_mint_effect accounts d ma fa b st st' :
  wf_store st -> is_u8 d -> wf_key ma -> wf_okey fa ->
  _process_initialize_mint deserialize_rent rent_get accounts d ma fa b st = Ok st' ->
  wf_store st' /\ exists i, head accounts = Some i /\ founded (key i) ma fa st st'.
Proof. intros ? ? ? ? [? ?]%init_mint_spec; [|done..]. split; [done|]. by eapply mint_initialized_founded. Qed.

Lemma init_account_effect accounts own b st st' :
  wf_store st -> wf_infos accounts -> wf_okey own ->
  _process_initialize_account deserialize_rent rent_get accounts own b st = Ok st' ->
  wf_store st' /\ exists i j it, accounts = i :: j :: it /\
    exists o, (own = Some o \/ own = None /\ exists oi, head it = Some oi /\ o = key oi) /\
      opened (key i) o (key j) st st'.
Proof. intros ? ? ? [? ?]%init_account_spec; [|done..]. split; [done|]. by eapply account_initialized_opened. Qed.

Lemma process_instruction_effect accounts i st st' :
  wf_store st -> wf_infos accounts -> TokenInstruction.wf i ->
  process_instruction deserialize_rent rent_get pid accounts i st = Ok st' ->
  wf_store st' /\ token_effect accounts st st'.
Proof.
  intros Hst Hk Hi [Hst' Hs]%process_instruction_spec; [|done..]. split; [done|].
  by eapply token_spec_effect.
Qed.
End Effects.
