(* ===== verification/TokenLedger.v ===== *)
(** * SPL token: what holds of every reachable ledger

    Puts the token program next to the runtime's access policy: a ledger
    evolves by token instructions, by instructions of other programs, and by
    the removal of accounts without lamports.  Proves the invariants that make
    balances meaningful: no more tokens than a mint's supply, wrapped lamports
    backed by lamports, and mints that cannot disappear. *)

From stdpp Require Import base gmap list fin_maps relations.
From Stdlib Require Import ZArith Lia.
From S2P Require Import Prelude Sdk Runtime TokenState TokenInstruction.
From S2P Require Import TokenProcessor TokenStore TokenAuthority TokenSpec TokenEffects.

(** ** The token program only reaches the accounts it is given *)
Section Untouched.
Context (deserialize_rent : list Z -> option Rent).
Context (rent_get : program_result Rent).
Context (pid : Pubkey) (accounts : list AccountInfo).

Lemma untouched_refl st : untouched_outside accounts st st.
Proof. done. Qed.

Lemma untouched_trans st1 st2 st3 :
  untouched_outside accounts st1 st2 -> untouched_outside accounts st2 st3 ->
  untouched_outside accounts st1 st3.
Proof. intros H1 H2 k Hk. by rewrite H2, H1. Qed.

Lemma untouched_save {T} `{Pack T} (x : T) i st st' :
  save x i st = Ok st' -> i ∈ accounts -> untouched_outside accounts st st'.
Proof.
  unfold save. intros Hs Hi k Hk. inv_ok. rewrite acct_set_data, decide_False; [done|].
  intros E. apply Hk. rewrite <- E. by apply list_elem_of_fmap_2.
Qed.

Lemma untouched_set_lamports i st l :
  i ∈ accounts -> untouched_outside accounts st (set_lamports st (key i) l).
Proof.
  intros Hi k Hk. rewrite acct_set_lamports, decide_False; [done|].
  intros E. apply Hk. rewrite <- E. by apply list_elem_of_fmap_2.
Qed.
Lemma move_native_untouched i j amt st st' :
  i ∈ accounts -> j ∈ accounts ->
  move_native_lamports (key i) (key j) amt st = Ok st' ->
  untouched_outside accounts st st'.
Proof.
  unfold move_native_lamports. intros Hi Hj H. inv_ok.
  eapply untouched_trans; by apply untouched_set_lamports.
Qed.

End Untouched.

Ltac untouched :=
  inv_run;
  repeat match goal with
  | H : next_expected_mint _ _ = Ok _ |- _ => apply next_expected_mint_suffix in H as [? ->]
  | H : save _ _ _ = Ok _ |- untouched_outside ?l _ _ =>
      apply (untouched_save l) in H; [|set_solver]
  | H : move_native_lamports _ _ _ _ = _ |- untouched_outside ?l _ _ =>
      apply (move_native_untouched l) in H; [|set_solver..]
  end;
  eauto using untouched_trans, untouched_refl.

Section Handlers.
Context (deserialize_rent : list Z -> option Rent).
Context (rent_get : program_result Rent).
Context (pid : Pubkey).
Implicit Types (accounts : list AccountInfo) (st : store).

Lemma transfer_untouched accounts amt ed st st' :
  process_transfer pid accounts amt ed st = Ok st' -> untouched_outside accounts st st'.
Proof.
  unfold process_transfer. intros H. untouched.
  case_if H; untouched.
  match goal with H : (if _ then _ else _) = _ |- _ => case_if H end; untouched.
Qed.

Lemma process_instruction_untouched accounts i st st' :
  process_instruction deserialize_rent rent_get pid accounts i st = Ok st' ->
  untouched_outside accounts st st'.
Proof.
  intros H. destruct i; cbn in H; try (by eapply transfer_untouched);
    unfold process_initialize_mint, process_initialize_mint2,
      process_initialize_account, process_initialize_account2,
      process_initialize_account3, process_initialize_multisig,
      process_initialize_multisig2, _process_initialize_mint,
      _process_initialize_account, _process_initialize_multisig, process_approve,
      process_revoke, process_set_authority, process_mint_to, process_burn,
      process_close_account, process_toggle_freeze_account, process_sync_native in H;
    untouched.
  - repeat case_if H; untouched.
  - eapply untouched_trans; [|exact H].
    eapply untouched_trans; apply untouched_set_lamports; set_solver.
  - case_match; [untouched|done].
Qed.
End Handlers.

Section Ledger.
Context (pid : Pubkey).

(** Typed views of an account the token program owns. *)
Definition account_of (ac : AccountSharedData) : option Account :=
  if decide (owner ac = pid) then
    match unpack (T := Account) (data ac) with Ok a => Some a | _ => None end
  else None.
Definition mint_of (ac : AccountSharedData) : option Mint :=
  if decide (owner ac = pid) then
    match unpack (T := Mint) (data ac) with Ok m => Some m | _ => None end
  else None.

(** Tokens of mint [m] held in an account, in a ledger, and issued by [m]. *)
Definition holding (m : Pubkey) (ac : AccountSharedData) : Z :=
  match account_of ac with
  | Some a => if decide (a_mint a = m) then amount a else 0
  | None => 0
  end.
Definition total (st : store) (m : Pubkey) : Z := msum (holding m) st.
Definition supply_of (ac : AccountSharedData) : Z :=
  match mint_of ac with Some x => supply x | None => 0 end.
Definition supply_at (st : store) (m : Pubkey) : Z := supply_of (acct st m).

(** Wrapped lamports: the mint identifies them, lamports back them, and they
    are never frozen. *)
Definition native_at (a : Account) (l : Z) : Prop :=
  (is_native a = true <-> a_mint a = native_mint_id) /\
  (is_native a = true -> amount a <= l /\ is_frozen a = false).

Record token_inv (st : store) : Prop := {
  inv_wf : wf_store st;
  inv_supply m : m <> native_mint_id -> total st m <= supply_at st m;
  inv_fresh k (m : Mint) : owner (acct st k) = pid ->
    unpack_unchecked (data (acct st k)) = Ok m -> mint_is_initialized m = false ->
    supply m = 0;
  inv_native k a : account_of (acct st k) = Some a ->
    native_at a (lamports (acct st k));
  inv_funded k m : mint_of (acct st k) = Some m -> 0 < lamports (acct st k);
  inv_unclaimed k (a : Account) : owner (acct st k) = pid ->
    unpack_unchecked (data (acct st k)) = Ok a -> state a = Uninitialized ->
    close_authority a = None;
}.

(** ** The typed views *)
Lemma account_of_Some st k a :
  account_of (acct st k) = Some a <-> owner (acct st k) = pid /\ has st k a.
Proof.
  unfold account_of, has. case_decide; [|intuition congruence].
  destruct (unpack _); intuition congruence.
Qed.

Lemma mint_of_Some st k m :
  mint_of (acct st k) = Some m <-> owner (acct st k) = pid /\ has st k m.
Proof.
  unfold mint_of, has. case_decide; [|intuition congruence].
  destruct (unpack _); intuition congruence.
Qed.

Lemma account_of_length ac a :
  account_of ac = Some a -> length (data ac) = LEN Account.
Proof.
  unfold account_of. case_decide; [|done].
  destruct (unpack _) eqn:E; [|done..]. intros _. by apply unpack_Ok in E as [? _].
Qed.

Lemma mint_of_length ac m : mint_of ac = Some m -> length (data ac) = LEN Mint.
Proof.
  unfold mint_of. case_decide; [|done].
  destruct (unpack _) eqn:E; [|done..]. intros _. by apply unpack_Ok in E as [? _].
Qed.

Lemma holding_account st k (a : Account) m :
  has st k a ->
  holding m (acct st k) =
    if decide (owner (acct st k) = pid /\ a_mint a = m) then amount a else 0.
Proof.
  intros Ha. unfold holding. destruct (account_of _) as [a'|] eqn:E.
  - apply account_of_Some in E as [Ho Ha']. rewrite (has_inj _ _ _ _ Ha Ha').
    repeat case_decide; tauto.
  - rewrite decide_False; [done|]. intros [Ho _].
    assert (account_of (acct st k) = Some a) by (by apply account_of_Some). congruence.
Qed.

Lemma holding_length m ac : length (data ac) <> LEN Account -> holding m ac = 0.
Proof.
  intros Hl. unfold holding. destruct (account_of ac) eqn:E; [|done].
  by apply account_of_length in E.
Qed.

Lemma supply_of_length ac : length (data ac) <> LEN Mint -> supply_of ac = 0.
Proof.
  intros Hl. unfold supply_of. destruct (mint_of ac) eqn:E; [|done].
  by apply mint_of_length in E.
Qed.

Lemma supply_of_mint st k (m : Mint) :
  has st k m ->
  supply_of (acct st k) = if decide (owner (acct st k) = pid) then supply m else 0.
Proof.
  intros Hm. unfold supply_of. destruct (mint_of _) as [m'|] eqn:E.
  - apply mint_of_Some in E as [Ho Hm']. rewrite (has_inj _ _ _ _ Hm Hm').
    by rewrite decide_True.
  - rewrite decide_False; [done|]. intros Ho.
    assert (mint_of (acct st k) = Some m) by (by apply mint_of_Some). congruence.
Qed.

Lemma supply_of_account st k (a : Account) : has st k a -> supply_of (acct st k) = 0.
Proof. intros Ha%has_length. apply supply_of_length. by rewrite Ha. Qed.

Lemma holding_mint st k (x : Mint) m : has st k x -> holding m (acct st k) = 0.
Proof. intros Ha%has_length. apply holding_length. by rewrite Ha. Qed.

Lemma holding_default m : holding m default_account = 0.
Proof. by apply holding_length. Qed.

Lemma holding_nonneg st k m : wf_store st -> 0 <= holding m (acct st k).
Proof.
  intros Hst. unfold holding. destruct (account_of _) as [a|] eqn:E; [|done].
  apply account_of_Some in E as [_ Ha]. case_decide; [|done].
  by destruct (wfa_amount _ (has_wf_account _ _ _ Hst Ha)).
Qed.

Lemma total_nonneg st m : wf_store st -> 0 <= total st m.
Proof.
  intros Hst. unfold total. apply msum_nonneg_lookup. intros k v Hv.
  pose proof (holding_nonneg st k m Hst) as H. unfold acct in H. by rewrite Hv in H.
Qed.

(** ** Conservation *)

(** The runtime accepted the step on behalf of the token program. *)
Definition policy (p : Pubkey) (st st' : store) : Prop :=
  forall k, exists w, PreAccount.allowed p w (acct st k) (acct st' k).

Definition dh (st st' : store) (m k : Pubkey) : Z :=
  holding m (acct st' k) - holding m (acct st k).
Definition ds (st st' : store) (m k : Pubkey) : Z :=
  if decide (k = m) then supply_of (acct st' k) - supply_of (acct st k) else 0.

Lemma ds_sum st st' m ks :
  NoDup ks -> frame ks st st' ->
  supply_at st' m - supply_at st m = foldr (fun k s => ds st st' m k + s) 0 ks.
Proof.
  intros Hks Hf. unfold supply_at. destruct (decide (m ∈ ks)) as [Hm|Hm].
  - clear Hf. induction Hks as [|k ks Hk Hks IH]; [by apply elem_of_nil in Hm|].
    cbn. unfold ds at 1. case_decide as E; subst.
    + enough (foldr (fun k s => ds st st' m k + s) 0 ks = 0) by lia.
      clear -Hk. induction ks as [|j ks IH]; cbn; [done|].
      unfold ds at 1. rewrite decide_False, IH by set_solver. done.
    + rewrite <- IH by set_solver. lia.
  - destruct (Hf m) as [_ ->]; [|done]. rewrite Z.sub_diag. symmetry.
    clear -Hm. induction ks as [|j ks IH]; cbn; [done|].
    unfold ds at 1. rewrite decide_False, IH by set_solver. done.
Qed.

Lemma total_change st st' m ks :
  NoDup ks -> frame ks st st' ->
  total st' m - total st m = foldr (fun k s => dh st st' m k + s) 0 ks.
Proof.
  intros Hks Hf. unfold total.
  rewrite (msum_change (holding m) st st' ks default_account).
  - unfold sum_keys, dh, acct. clear. induction ks as [|k ks IH]; cbn; lia.
  - apply holding_default.
  - done.
  - intros k Hk. destruct (Hf k) as [_ Heq]. unfold acct in Heq. by rewrite Heq.
Qed.

Definition balanced (st st' : store) (m : Pubkey) : Prop :=
  total st' m - total st m = supply_at st' m - supply_at st m.

Lemma balanced_one st st' m k :
  frame [k] st st' -> dh st st' m k = ds st st' m k -> balanced st st' m.
Proof.
  intros Hf H. unfold balanced.
  rewrite (total_change _ _ _ [k]), (ds_sum _ _ _ [k]);
    [cbn; lia|apply NoDup_singleton|done|apply NoDup_singleton|done].
Qed.

Lemma balanced_two st st' m j k :
  j <> k -> frame [j; k] st st' ->
  dh st st' m j + dh st st' m k = ds st st' m j + ds st st' m k ->
  balanced st st' m.
Proof.
  intros Hjk Hf H. unfold balanced.
  assert (NoDup [j; k]).
  { apply NoDup_cons. split; [set_solver|apply NoDup_singleton]. }
  rewrite (total_change _ _ _ [j; k]), (ds_sum _ _ _ [j; k]) by done. cbn. lia.
Qed.

Lemma policy_unowned {T} `{Pack T} st st' k (x y : T) :
  policy pid st st' -> has st k x -> has st' k y -> owner (acct st k) <> pid -> x = y.
Proof.
  intros Hp Hx Hy Ho. destruct (Hp k) as [w Ha].
  destruct (decide (data (acct st k) = data (acct st' k))) as [E|E].
  - unfold has in *. rewrite E in Hx. congruence.
  - apply (PreAccount.allowed_data _ _ _ _ Ha) in E. congruence.
Qed.

Section Delta.
Context (st st' : store) (ks : list Pubkey) (Hf : frame ks st st') (m : Pubkey).

Lemma dh_account k (a a' : Account) :
  has st k a -> has st' k a' -> a_mint a' = a_mint a ->
  dh st st' m k = if decide (owner (acct st k) = pid /\ a_mint a = m)
                  then amount a' - amount a else 0.
Proof.
  intros Ha Ha' Hm. unfold dh.
  rewrite (holding_account _ _ _ _ Ha), (holding_account _ _ _ _ Ha'), Hm.
  destruct (Hf k) as [-> _]. case_decide; lia.
Qed.

Lemma ds_account k (a a' : Account) : has st k a -> has st' k a' -> ds st st' m k = 0.
Proof.
  intros Ha Ha'. unfold ds.
  rewrite (supply_of_account _ _ _ Ha), (supply_of_account _ _ _ Ha').
  by case_decide.
Qed.

Lemma dh_mint k (x x' : Mint) : has st k x -> has st' k x' -> dh st st' m k = 0.
Proof.
  intros Hx Hx'. unfold dh.
  by rewrite (holding_mint _ _ _ _ Hx), (holding_mint _ _ _ _ Hx').
Qed.

Lemma ds_mint k (x x' : Mint) :
  has st k x -> has st' k x' ->
  ds st st' m k = if decide (owner (acct st k) = pid /\ k = m)
                  then supply x' - supply x else 0.
Proof.
  intros Hx Hx'. unfold ds.
  rewrite (supply_of_mint _ _ _ Hx), (supply_of_mint _ _ _ Hx').
  destruct (Hf k) as [-> _]. repeat case_decide; intuition lia.
Qed.

(** Accounts of any other length hold and issue nothing. *)
Lemma delta_other k :
  length (data (acct st k)) = length (data (acct st' k)) ->
  length (data (acct st k)) <> LEN Account ->
  length (data (acct st k)) <> LEN Mint ->
  dh st st' m k = 0 /\ ds st st' m k = 0.
Proof.
  intros Hl Ha Hm. unfold dh, ds.
  rewrite !holding_length, !supply_of_length by congruence. by case_decide.
Qed.
End Delta.

Lemma move_balanced st st' s d (a b a' : Account) amt m :
  policy pid st st' -> s <> d -> has st s a -> has st d b -> a_mint a = a_mint b ->
  same_holding a a' -> has st' s (with_amount a' (amount a - amt)) ->
  has st' d (with_amount b (amount b + amt)) -> frame [s; d] st st' ->
  balanced st st' m.
Proof.
  intros Hp Hne Ha Hb Hm (Hm' & Ham & Hn) Ha' Hb' Hf.
  eapply balanced_two; [done..|].
  rewrite (dh_account _ _ _ Hf _ _ _ _ Ha Ha'), (dh_account _ _ _ Hf _ _ _ _ Hb Hb'),
    (ds_account _ _ _ _ _ _ Ha Ha'), (ds_account _ _ _ _ _ _ Hb Hb') by done.
  cbn. rewrite Hm. destruct (decide (owner (acct st s) = pid)) as [Hs|Hs].
  - destruct (decide (owner (acct st d) = pid)) as [Hd|Hd].
    + repeat case_decide; intuition lia.
    + pose proof (policy_unowned _ _ _ _ _ Hp Hb Hb' Hd) as E%(f_equal amount).
      cbn in E. repeat case_decide; lia.
  - pose proof (policy_unowned _ _ _ _ _ Hp Ha Ha' Hs) as E%(f_equal amount).
    cbn in E. repeat case_decide; lia.
Qed.

Lemma issue_balanced st st' mk k (x : Mint) (a a' : Account) n m :
  policy pid st st' -> has st mk x -> has st k a -> a_mint a = mk ->
  a_mint a' = a_mint a ->
  has st' mk (with_supply x (supply x + n)) ->
  has st' k (with_amount a' (amount a + n)) -> frame [mk; k] st st' ->
  balanced st st' m.
Proof.
  intros Hp Hx Ha Hm Hm' Hx' Ha' Hf. 
  pose proof (has_account_mint_ne _ _ _ _ _ Ha Hx) as Hne.
  eapply balanced_two; [by apply not_eq_sym|done|].
  rewrite (dh_account _ _ _ Hf _ _ _ _ Ha Ha'), (ds_account _ _ _ _ _ _ Ha Ha'),
    (dh_mint _ _ _ _ _ _ Hx Hx'), (ds_mint _ _ _ Hf _ _ _ _ Hx Hx') by done.
  cbn. rewrite Hm. destruct (decide (owner (acct st k) = pid)) as [Hs|Hs].
  - destruct (decide (owner (acct st mk) = pid)) as [Hd|Hd].
    + repeat case_decide; intuition lia.
    + pose proof (policy_unowned _ _ _ _ _ Hp Hx Hx' Hd) as E%(f_equal supply).
      cbn in E. repeat case_decide; lia.
  - pose proof (policy_unowned _ _ _ _ _ Hp Ha Ha' Hs) as E%(f_equal amount).
    cbn in E. repeat case_decide; lia.
Qed.

Lemma view_ext ac ac' :
  owner ac' = owner ac -> data ac' = data ac ->
  account_of ac' = account_of ac /\ mint_of ac' = mint_of ac.
Proof. unfold account_of, mint_of. by intros -> ->. Qed.

Lemma delta_same st st' m k :
  owner (acct st' k) = owner (acct st k) -> data (acct st' k) = data (acct st k) ->
  dh st st' m k = 0 /\ ds st st' m k = 0.
Proof.
  intros Ho Hd. destruct (view_ext _ _ Ho Hd) as [Ha Hm].
  unfold dh, ds, holding, supply_of. rewrite Ha, Hm. split; [|case_decide]; lia.
Qed.

Lemma close_balanced st st' s d (a : Account) m :
  token_inv st -> m <> native_mint_id -> has st s a ->
  is_native a = true \/ amount a = 0 -> has st' s (with_amount a 0) ->
  data (acct st' d) = (if decide (s = d) then data (acct st' d) else data (acct st d)) ->
  frame [s; d] st st' -> balanced st st' m.
Proof.
  intros Hinv Hm Ha Hzero Ha' Hd Hf.
  assert (dh st st' m s = 0) as Hs.
  { clear Hd. rewrite (dh_account _ _ _ Hf _ _ _ _ Ha Ha') by done. case_decide as Ho; [|done].
    destruct Ho as [Ho Hma], Hzero as [Hn|Hz]; [|cbn; lia].
    destruct (inv_native _ Hinv s a) as [[Hmint _] _]; [by apply account_of_Some|].
    apply Hmint in Hn. congruence. }
  pose proof (ds_account _ _ m _ _ _ Ha Ha') as Hs'.
  destruct (decide (s = d)) as [->|Hne].
  - apply (balanced_one _ _ _ d); [eapply frame_subset; [done|set_solver]|]. lia.
  - destruct (delta_same st st' m d) as [H1 H2]; [apply Hf|done|].
    eapply balanced_two; [done..|]. lia.
Qed.

Lemma uninitialized_views st k :
  (forall a : Account, unpack_from_slice (data (acct st k)) = Ok a ->
     length (data (acct st k)) = LEN Account -> state a = Uninitialized) ->
  account_of (acct st k) = None.
Proof.
  intros H. destruct (account_of _) as [a|] eqn:E; [|done]. exfalso.
  apply account_of_Some in E as [_ Ha]. apply unpack_Ok in Ha as (Hl & Hu & Hi).
  specialize (H a Hu Hl). cbn in Hi. by rewrite H in Hi.
Qed.

Lemma init_account_balanced st st' k (a0 a : Account) m :
  m <> native_mint_id -> length (data (acct st k)) = LEN Account ->
  unpack_from_slice (data (acct st k)) = Ok a0 -> state a0 = Uninitialized ->
  has st' k a -> (a_mint a <> native_mint_id -> amount a = 0) ->
  frame [k] st st' -> balanced st st' m.
Proof.
  intros Hm Hl Hu Hs Ha Hz Hf. eapply balanced_one; [done|].
  unfold dh, ds. rewrite (holding_account _ _ _ _ Ha), (supply_of_account _ _ _ Ha),
    (supply_of_length (acct st k)) by by rewrite Hl.
  unfold holding. rewrite uninitialized_views by (intros; congruence).
  repeat case_decide; try done; intuition (subst; auto with lia).
Qed.

Lemma init_mint_balanced st st' k (m0 x : Mint) m :
  token_inv st -> length (data (acct st k)) = LEN Mint ->
  unpack_from_slice (data (acct st k)) = Ok m0 -> mint_is_initialized m0 = false ->
  has st' k x -> supply x = supply m0 -> frame [k] st st' -> balanced st st' m.
Proof.
  intros Hinv Hl Hu Hi Hx Hs Hf. eapply balanced_one; [done|].
  assert (supply_of (acct st k) = 0) as H0.
  { unfold supply_of. destruct (mint_of _) as [y|] eqn:E; [|done].
    apply mint_of_Some in E as [_ Hy]. apply unpack_Ok in Hy as (_ & Hu' & Hi').
    rewrite Hu in Hu'. injection Hu' as <-. cbn in Hi'. congruence. }
  unfold dh, ds. rewrite H0, (holding_mint _ _ _ _ Hx), (supply_of_mint _ _ _ Hx),
    (holding_length m (acct st k)) by by rewrite Hl.
  destruct (Hf k) as [-> _]. repeat case_decide; try done.
  rewrite Hs, (inv_fresh _ Hinv k m0); [done|done| |done].
  by apply unpack_unchecked_Ok.
Qed.

(** Sysvar access, as in the processor. *)
Context (deserialize_rent : list Z -> option Rent).
Context (rent_get : program_result Rent).

(** One step of the ledger. *)
Inductive ledger_step (st st' : store) : Prop :=
| L_token accounts input rent realloc :
    wf_infos accounts -> bytes input ->
    process deserialize_rent rent_get pid accounts input st = Ok st' ->
    verify_instruction pid rent realloc accounts st st' = Ok tt ->
    ledger_step st st'
| L_foreign p accounts rent realloc :
    p <> pid -> wf_store st' -> untouched_outside accounts st st' ->
    verify_instruction p rent realloc accounts st st' = Ok tt ->
    ledger_step st st'
| L_purge k :
    lamports (acct st k) = 0 -> st' = delete k st -> ledger_step st st'.

(** Every token instruction changes a mint's circulating tokens and its
    supply by the same amount. *)
Lemma token_effect_balanced accounts st st' m :
  token_inv st -> policy pid st st' ->
  token_effect deserialize_rent rent_get pid accounts st st' ->
  m <> native_mint_id -> balanced st st' m.
Proof.
  intros Hinv Hp Hstep Hm. destruct Hstep.
  - subst. unfold balanced. lia.
  - by apply (move_balanced _ _ s d a b a' amt).
  - eapply balanced_one; [done|].
    match goal with H1 : has st k a, H2 : same_holding a a' |- _ =>
      destruct H2 as (? & ? & ?) end.
    erewrite dh_account, ds_account by done. case_decide; lia.
  - eapply balanced_one; [done|].
    erewrite dh_mint, ds_mint by done. case_decide; lia.
  - by apply (issue_balanced _ _ mk d m0 b b amt).
  - match goal with H : same_holding a a' |- _ => destruct H as (? & ? & ?) end.
    by apply (issue_balanced _ _ mk s m0 a a' (- amt)).
  - by eapply close_balanced.
  - eapply balanced_one; [done|]. erewrite dh_account, ds_account by done.
    case_decide as Ho; [|done]. destruct (inv_native _ Hinv k a) as [[Hmint _] _];
      [by apply account_of_Some|]. exfalso. destruct Ho as [_ <-].
    apply Hm, Hmint. unfold is_native. by rewrite H1.
  - eapply init_account_balanced; try done. intros Hne.
    rewrite decide_False in * by done. tauto.
  - by eapply init_mint_balanced.
  - match goal with Hx : has st' k x |- _ => apply has_length in Hx end.
    match goal with Hl : length (data (acct st k)) = _ |- _ =>
      destruct (delta_other st st' m k) as [Hh Hs]; [congruence|by rewrite Hl..|] end.
    apply (balanced_one _ _ _ k); [done|lia].
Qed.

(** ** The other invariants under token instructions *)

(** The bytes of an account after a token instruction. *)
Definition written (st st' : store) (k : Pubkey) : Prop :=
  data (acct st' k) = data (acct st k) \/ (exists a : Account, has st' k a) \/
  (exists x : Mint, has st' k x) \/ (exists x : Multisig, has st' k x).

Lemma token_effect_written accounts st st' k :
  token_effect deserialize_rent rent_get pid accounts st st' -> written st st' k.
Proof.
  intros Hstep. unfold written. destruct Hstep; subst; [by left|..];
    match goal with Hf : frame ?ks st st' |- _ =>
      destruct (decide (k ∈ ks)) as [Hin|Hout];
        [|left; by destruct (Hf k) as [_ ->]] end;
    rewrite ?elem_of_cons, ?elem_of_nil in Hin; destruct_or! Hin; subst;
    try done; eauto.
  match goal with Hd : data (acct st' d) = _ |- _ =>
    destruct (decide (s = d)) as [->|]; [eauto|by left] end.
Qed.

Lemma token_effect_owner accounts st st' k :
  token_effect deserialize_rent rent_get pid accounts st st' ->
  owner (acct st' k) = owner (acct st k).
Proof.
  destruct 1; subst; try done;
    match goal with Hf : frame _ _ _ |- _ => apply Hf end.
Qed.

Lemma fresh_written st st' k (m : Mint) :
  token_inv st -> written st st' k -> owner (acct st k) = pid ->
  unpack_unchecked (data (acct st' k)) = Ok m -> mint_is_initialized m = false ->
  supply m = 0.
Proof.
  intros Hinv Hw Ho Hu Hi.
  destruct Hw as [Hd|[[a Ha]|[[x Hx]|[x Hx]]]].
  - rewrite Hd in Hu. by eapply inv_fresh.
  - apply unpack_unchecked_Ok in Hu as [Hl _]. apply has_length in Ha. by rewrite Ha in Hl.
  - apply unpack_unchecked_Ok in Hu as [_ Hu].
    apply unpack_Ok in Hx as (_ & Hu' & Hi'). rewrite Hu in Hu'.
    injection Hu' as <-. cbn in Hi'. congruence.
  - apply unpack_unchecked_Ok in Hu as [Hl _]. apply has_length in Hx. by rewrite Hx in Hl.
Qed.

Lemma unclaimed_written st st' k (a : Account) :
  token_inv st -> written st st' k -> owner (acct st k) = pid ->
  unpack_unchecked (data (acct st' k)) = Ok a -> state a = Uninitialized ->
  close_authority a = None.
Proof.
  intros Hinv Hw Ho Hu Hi.
  destruct Hw as [Hd|[[x Hx]|[[x Hx]|[x Hx]]]].
  - rewrite Hd in Hu. by eapply inv_unclaimed.
  - apply unpack_unchecked_Ok in Hu as [_ Hu].
    apply unpack_Ok in Hx as (_ & Hu' & Hi'). rewrite Hu in Hu'.
    injection Hu' as <-. cbn in Hi'. by rewrite Hi in Hi'.
  - apply unpack_unchecked_Ok in Hu as [Hl _]. apply has_length in Hx. by rewrite Hx in Hl.
  - apply unpack_unchecked_Ok in Hu as [Hl _]. apply has_length in Hx. by rewrite Hx in Hl.
Qed.

Definition native_ok (st : store) (k : Pubkey) : Prop :=
  forall a, account_of (acct st k) = Some a -> native_at a (lamports (acct st k)).

Lemma native_ok_has st k (a : Account) :
  has st k a -> (owner (acct st k) = pid -> native_at a (lamports (acct st k))) ->
  native_ok st k.
Proof.
  intros Ha H a' Ha'. apply account_of_Some in Ha' as [Ho Ha'].
  rewrite (has_inj _ _ _ _ Ha' Ha). auto.
Qed.

Lemma native_ok_other st k :
  length (data (acct st k)) <> LEN Account -> native_ok st k.
Proof. intros Hl a Ha. by apply account_of_length in Ha. Qed.

Lemma native_ok_mint st k (x : Mint) : has st k x -> native_ok st k.
Proof. intros Hl%has_length. apply native_ok_other. by rewrite Hl. Qed.

Lemma native_ok_multisig st k (x : Multisig) : has st k x -> native_ok st k.
Proof. intros Hl%has_length. apply native_ok_other. by rewrite Hl. Qed.

Lemma native_ok_same st st' k :
  native_ok st k -> owner (acct st' k) = owner (acct st k) ->
  data (acct st' k) = data (acct st k) ->
  lamports (acct st k) <= lamports (acct st' k) -> native_ok st' k.
Proof.
  intros H Ho Hd Hl a Ha. destruct (view_ext _ _ Ho Hd) as [Hv _]. rewrite Hv in Ha.
  destruct (H a Ha) as [Hm Hb]. split; [done|]. intros Hn. destruct (Hb Hn). split; [lia|done].
Qed.

Lemma native_at_update (a a' : Account) l l' :
  native_at a l -> a_mint a' = a_mint a -> native_reserve a' = native_reserve a ->
  (is_native a = true -> is_frozen a' = false /\ amount a' <= l') ->
  native_at a' l'.
Proof.
  intros [Hm Hb] Em En H. assert (is_native a' = is_native a) as E
    by (unfold is_native; by rewrite En).
  split; rewrite E; [by rewrite Em|]. intros Hn. specialize (H Hn). tauto.
Qed.

Lemma inv_native_has st k (a : Account) :
  token_inv st -> owner (acct st k) = pid -> has st k a ->
  native_at a (lamports (acct st k)).
Proof. intros Hinv Ho Ha. apply (inv_native _ Hinv). by apply account_of_Some. Qed.

(** Both sides of a transfer stay backed. *)
Lemma move_native accounts st st' s d (a b a' : Account) amt k :
  token_inv st -> policy pid st st' ->
  s <> d -> has st s a -> has st d b -> a_mint a = a_mint b ->
  is_frozen a = false -> is_frozen b = false -> 
  spend_authorized pid accounts st a amt ->
  same_holding a a' -> state a' = state a ->
  has st' s (with_amount a' (amount a - amt)) ->
  has st' d (with_amount b (amount b + amt)) -> frame [s; d] st st' ->
  lamports (acct st' s) = lamports (acct st s) - native_part a amt ->
  lamports (acct st' d) = lamports (acct st d) + native_part a amt ->
  k = s \/ k = d -> native_ok st' k.
Proof.
  intros Hinv Hp Hne Ha Hb Hm Hfa Hfb _ (Hm' & Ham & Hn) Hs Ha' Hb' Hf Hls Hld [-> | ->].
  - eapply native_ok_has; [done|]. destruct (Hf s) as [-> _]. intros Ho.
    eapply native_at_update; [by apply inv_native_has|done|done|].
    intros Hna. destruct (inv_native_has _ _ _ Hinv Ho Ha) as [_ Hba].
    destruct (Hba Hna). unfold native_part in Hls. rewrite Hna in Hls. cbn.
    split; [|lia]. unfold is_frozen in *. cbn. by rewrite Hs.
  - eapply native_ok_has; [done|]. destruct (Hf d) as [-> _]. intros Ho.
    eapply native_at_update; [by apply inv_native_has|done|done|].
    intros Hnb. destruct (inv_native_has _ _ _ Hinv Ho Hb) as [Hmb Hbb].
    destruct (Hbb Hnb). split; [done|]. cbn. rewrite Hld. unfold native_part.
    destruct (decide (owner (acct st s) = pid)) as [Hos|Hos].
    + destruct (inv_native_has _ _ _ Hinv Hos Ha) as [Hma _].
      assert (is_native a = true) as -> by (apply Hma; rewrite Hm; by apply Hmb). lia.
    + pose proof (policy_unowned _ _ _ _ _ Hp Ha Ha' Hos) as E%(f_equal amount).
      cbn in E. replace amt with 0 by lia. destruct (is_native a); lia.
Qed.

(** A token account whose new value keeps its kind of token. *)
Lemma native_ok_update st st' ks k (a a' : Account) :
  token_inv st -> frame ks st st' -> has st k a -> has st' k a' ->
  a_mint a' = a_mint a -> native_reserve a' = native_reserve a ->
  (is_native a = true -> owner (acct st k) = pid ->
   amount a <= lamports (acct st k) -> is_frozen a = false ->
   is_frozen a' = false /\ amount a' <= lamports (acct st' k)) ->
  native_ok st' k.
Proof.
  intros Hinv Hf Ha Ha' Hm Hn H. eapply native_ok_has; [done|].
  destruct (Hf k) as [-> _]. intros Ho.
  pose proof (inv_native_has _ _ _ Hinv Ho Ha) as Hat.
  eapply native_at_update; [done..|]. intros Hna. destruct Hat as [_ Hb].
  destruct (Hb Hna). auto.
Qed.

Lemma init_account_native st st' k (a : Account) :
  wf_store st' -> has st' k a -> state a = Initialized ->
  (if decide (a_mint a = native_mint_id)
   then exists reserve, native_reserve a = Some reserve /\
          amount a + reserve = lamports (acct st k) /\ 0 <= reserve
   else native_reserve a = None /\ amount a = 0 /\
        exists m : Mint, has st (a_mint a) m) ->
  same_lamports st st' -> native_ok st' k.
Proof.
  intros Hst Ha Hs Hopen Hl. eapply native_ok_has; [done|]. intros _.
  unfold native_at, is_native, is_frozen. rewrite Hs, Hl.
  case_decide as E.
  - destruct Hopen as (r & -> & ? & ?). split; [done|]. intros _. split; [lia|done].
  - destruct Hopen as (-> & ? & _). done.
Qed.

Lemma token_effect_native accounts st st' k :
  token_inv st -> policy pid st st' -> wf_store st' ->
  token_effect deserialize_rent rent_get pid accounts st st' -> native_ok st' k.
Proof.
  intros Hinv Hp Hst' Hstep. pose proof (inv_native _ Hinv k) as Hk.
  destruct Hstep; subst; [done|..];
    match goal with Hf : frame ?ks st st' |- _ =>
      destruct (decide (k ∈ ks)) as [Hin|Hout];
        [|destruct (Hf k) as [_ E]; unfold native_ok; by rewrite E] end;
    rewrite ?elem_of_cons, ?elem_of_nil in Hin;
    repeat match goal with H : same_holding _ _ |- _ => destruct H as (? & ? & ?) end.
  - eapply (move_native accounts st st' s d a b a' amt); try done.
    all: intuition.
  - destruct_or! Hin; subst. eapply native_ok_update; [done..|].
    intros Hn _ Hle Hfr. unfold is_frozen in *.
    match goal with Hs : is_native a = true -> _, Hl : same_lamports _ _ |- _ =>
      rewrite Hs, Hl by done end. split; [done|lia].
  - destruct_or! Hin; subst. by eapply native_ok_mint.
  - destruct_or! Hin; subst.
    + by eapply native_ok_mint.
    + eapply native_ok_update; [done..|]. congruence.
  - destruct_or! Hin; subst.
    + by eapply native_ok_mint.
    + eapply (native_ok_update _ _ _ _ a); [done..|]. congruence.
  - destruct (decide (s = d)) as [<-|Hne].
    + destruct_or! Hin; subst; (eapply native_ok_update; [done..|]; cbn; intuition lia).
    + destruct_or! Hin; subst; [eapply native_ok_update; [done..|]; cbn; intuition lia|].
      eapply native_ok_same; [done| |done|].
      * match goal with Hf : frame _ _ _ |- _ => apply Hf end.
      * match goal with Hl : _ -> lamports _ = _ + _ |- _ => rewrite Hl by done end.
        pose proof (proj2 (inv_wf _ Hinv s)). lia.
  - destruct_or! Hin; subst. eapply native_ok_update; [done..|].
    intros Hn _ Hle Hfr. split; [done|]. cbn.
    match goal with Hl : same_lamports _ _, Ha : has st _ a, Hr : _ = Some reserve |- _ =>
      rewrite Hl; pose proof (wfa_native _ (has_wf_account _ _ _ (inv_wf _ Hinv) Ha)) as Hw;
      rewrite Hr in Hw end. cbn in Hw. lia.
  - destruct_or! Hin; subst. by eapply init_account_native.
  - destruct_or! Hin; subst. by eapply native_ok_mint.
  - destruct_or! Hin; subst. by eapply native_ok_multisig.
Qed.

Lemma mint_of_account st k (a : Account) : has st k a -> mint_of (acct st k) = None.
Proof.
  intros Hl%has_length. destruct (mint_of _) eqn:E; [|done].
  apply mint_of_length in E. by rewrite Hl in E.
Qed.

Lemma mint_of_multisig st k (x : Multisig) : has st k x -> mint_of (acct st k) = None.
Proof.
  intros Hl%has_length. destruct (mint_of _) eqn:E; [|done].
  apply mint_of_length in E. by rewrite Hl in E.
Qed.

Definition funded (st : store) (k : Pubkey) : Prop :=
  forall m, mint_of (acct st k) = Some m -> 0 < lamports (acct st k).

Lemma funded_mint st st' ks k (x : Mint) :
  token_inv st -> frame ks st st' -> has st k x ->
  lamports (acct st k) <= lamports (acct st' k) -> funded st' k.
Proof.
  intros Hinv Hf Hx Hl m Hm. apply mint_of_Some in Hm as [Ho _].
  destruct (Hf k) as [Hk _]. rewrite Hk in Ho.
  assert (mint_of (acct st k) = Some x) as Hk' by (by apply mint_of_Some).
  apply (inv_funded _ Hinv) in Hk'. lia.
Qed.

(** The rent in force asks for lamports from a mint. *)
Definition rent_positive (st : store) : Prop := forall r,
  readable_rent deserialize_rent rent_get st r ->
  0 < minimum_balance r (get_packed_len Mint).

Lemma token_effect_funded accounts st st' k :
  rent_positive st -> token_inv st ->
  token_effect deserialize_rent rent_get pid accounts st st' -> funded st' k.
Proof.
  intros Hrent Hinv Hstep. pose proof (inv_funded _ Hinv k) as Hk.
  destruct Hstep; subst; [done|..];
    match goal with Hf : frame ?ks st st' |- _ =>
      destruct (decide (k ∈ ks)) as [Hin|Hout];
        [|destruct (Hf k) as [_ E]; unfold funded; by rewrite E] end;
    rewrite ?elem_of_cons, ?elem_of_nil in Hin;
    destruct_or! Hin; subst;
    try (intros m' Hm'; erewrite mint_of_account in Hm' by done; done);
    try (intros m' Hm'; erewrite mint_of_multisig in Hm' by done; done);
    try (eapply funded_mint; [done..|]; match goal with
         Hl : same_lamports _ _ |- _ => rewrite Hl; lia end).
  - destruct (decide (s = d)) as [<-|Hne].
    { intros m' Hm'. by erewrite mint_of_account in Hm' by done. }
    intros m' Hm'. match goal with Hf : frame _ _ _, Hd : data (acct st' d) = _ |- _ =>
      destruct (Hf d) as [Ho _]; destruct (view_ext _ _ Ho Hd) as [_ Hv] end.
    rewrite Hv in Hm'. apply Hk in Hm'.
    match goal with Hl : _ -> lamports _ = _ + _ |- _ => rewrite Hl by done end.
    pose proof (proj2 (inv_wf _ Hinv s)). lia.
  - intros m' _. match goal with Hl : same_lamports _ _, Hr : readable_rent _ _ _ _ |- _ =>
      rewrite Hl; apply Hrent in Hr end. lia.
Qed.

(** ** Instructions of other programs *)
Lemma zeroed_replicate d : PreAccount.zeroed d -> d = replicate (length d) 0.
Proof. intros Hd. by apply PreAccount.replicate_zeroed. Qed.

Lemma unpack_zeroed_account d a : PreAccount.zeroed d -> unpack (T := Account) d <> Ok a.
Proof.
  intros Hd%zeroed_replicate Hu. apply unpack_Ok in Hu as (Hl & Hu & Hi).
  rewrite Hd, Hl in Hu. vm_compute in Hu. injection Hu as <-. discriminate Hi.
Qed.

Lemma unpack_zeroed_mint d m :
  PreAccount.zeroed d -> unpack_unchecked (T := Mint) d = Ok m ->
  mint_is_initialized m = false /\ supply m = 0.
Proof.
  intros Hd%zeroed_replicate Hu. apply unpack_unchecked_Ok in Hu as (Hl & Hu).
  rewrite Hd, Hl in Hu. vm_compute in Hu. by injection Hu as <-.
Qed.

Lemma unpack_zeroed_unclaimed d (a : Account) :
  PreAccount.zeroed d -> unpack_unchecked d = Ok a -> close_authority a = None.
Proof.
  intros Hd%zeroed_replicate Hu. apply unpack_unchecked_Ok in Hu as (Hl & Hu).
  rewrite Hd, Hl in Hu. vm_compute in Hu. by injection Hu as <-.
Qed.

(** What a program can do to accounts that are not its own: credit them. *)
Record respects (p : Pubkey) (st st' : store) : Prop := {
  re_owner k : owner (acct st k) <> owner (acct st' k) ->
    p = owner (acct st k) /\ PreAccount.zeroed (data (acct st' k));
  re_debit k : lamports (acct st' k) < lamports (acct st k) -> p = owner (acct st k);
  re_data k : data (acct st k) <> data (acct st' k) -> p = owner (acct st k);
}.

Lemma policy_respects p st st' : policy p st st' -> respects p st st'.
Proof. intros Hp. split; intros k; destruct (Hp k) as [w []]; auto. Qed.

(** A program writes to an account of its own. *)
Lemma write_respects p st k d : owner (acct st k) = p -> respects p st (set_data st k d).
Proof.
  intros Ho. split; intros j.
  - by rewrite owner_set_data.
  - rewrite lamports_set_data. lia.
  - rewrite data_set_data. case_decide; by subst.
Qed.

Lemma foreign_views p st st' k :
  p <> pid -> respects p st st' ->
  account_of (acct st' k) = account_of (acct st k) /\
  mint_of (acct st' k) = mint_of (acct st k) /\
  (owner (acct st k) = pid ->
   data (acct st' k) = data (acct st k) /\
   lamports (acct st k) <= lamports (acct st' k)) /\
  (owner (acct st k) <> pid -> owner (acct st' k) = pid ->
   PreAccount.zeroed (data (acct st' k))).
Proof.
  intros Hp Hpol.
  pose proof (re_owner _ _ _ Hpol k) as Ho.
  pose proof (re_data _ _ _ Hpol k) as Hd.
  pose proof (re_debit _ _ _ Hpol k) as Hl.
  destruct (decide (owner (acct st k) = pid)) as [E|E].
  - assert (owner (acct st' k) = owner (acct st k)) as Ho'.
    { destruct (decide (owner (acct st k) = owner (acct st' k))); intuition congruence. }
    assert (data (acct st' k) = data (acct st k)) as Hd'.
    { destruct (decide (data (acct st k) = data (acct st' k))); intuition congruence. }
    destruct (view_ext _ _ Ho' Hd') as [-> ->]. split_and!; try done.
    intros _. split; [done|].
    destruct (decide (lamports (acct st' k) < lamports (acct st k))); [|lia].
    intuition congruence.
  - assert (owner (acct st' k) = pid -> PreAccount.zeroed (data (acct st' k))) as Hz
      by (intros; apply Ho; congruence).
    unfold account_of, mint_of. rewrite !(decide_False (P := owner (acct st k) = pid)) by done.
    case_decide as E'; [|done]. specialize (Hz E'). split_and!; try done.
    + destruct (unpack _) eqn:Hu; try done. by apply unpack_zeroed_account in Hu.
    + destruct (unpack _) as [m| |] eqn:Hu; try done.
      apply unpack_Ok in Hu as (H1 & H2 & Hi).
      destruct (unpack_zeroed_mint _ m Hz) as [Hi' _]; [by apply unpack_unchecked_Ok|].
      cbn in Hi. congruence.
Qed.

Lemma foreign_inv p st st' :
  p <> pid -> wf_store st' -> respects p st st' -> token_inv st -> token_inv st'.
Proof.
  intros Hp Hst' Hpol Hinv.
  assert (forall m k, holding m (acct st' k) = holding m (acct st k)) as Hh.
  { intros m k. unfold holding. by destruct (foreign_views p st st' k) as [-> _]. }
  split.
  - done.
  - intros m Hm. unfold total, supply_at, supply_of.
    destruct (foreign_views p st st' m) as (_ & -> & _); [done..|].
    rewrite (msum_ext_lookup (holding m) st' st default_account);
      [by apply (inv_supply _ Hinv)|apply holding_default|intros k; apply Hh].
  - intros k m Ho Hu Hi. destruct (foreign_views p st st' k) as (_ & _ & Hown & Hz); [done..|].
    destruct (decide (owner (acct st k) = pid)) as [E|E].
    + destruct (Hown E) as [Hd _]. rewrite Hd in Hu. by eapply inv_fresh.
    + by apply (unpack_zeroed_mint _ _ (Hz E Ho)).
  - intros k a. destruct (foreign_views p st st' k) as (-> & _ & Hown & _); [done..|].
    intros Ha. pose proof (inv_native _ Hinv _ _ Ha) as Hn.
    apply account_of_Some in Ha as [Ho _]. destruct (Hown Ho) as [_ Hl].
    destruct Hn as [Hm Hb]. split; [done|]. intros Hna. destruct (Hb Hna). split; [lia|done].
  - intros k m. destruct (foreign_views p st st' k) as (_ & -> & Hown & _); [done..|].
    intros Hm. pose proof (inv_funded _ Hinv _ _ Hm) as Hl.
    apply mint_of_Some in Hm as [Ho _]. destruct (Hown Ho) as [_ Hl']. lia.
  - intros k a Ho Hu Hi. destruct (foreign_views p st st' k) as (_ & _ & Hown & Hz); [done..|].
    destruct (decide (owner (acct st k) = pid)) as [E|E].
    + destruct (Hown E) as [Hd _]. rewrite Hd in Hu. by eapply inv_unclaimed.
    + by apply (unpack_zeroed_unclaimed _ _ (Hz E Ho)).
Qed.

Lemma acct_delete st k j :
  acct (delete k st) j = if decide (k = j) then default_account else acct st j.
Proof. unfold acct. rewrite lookup_delete. by case_decide. Qed.

Lemma purge_inv st k :
  lamports (acct st k) = 0 -> token_inv st -> token_inv (delete k st).
Proof.
  intros Hl Hinv.
  assert (forall j, (data (acct (delete k st) j) = [] /\ lamports (acct (delete k st) j) = 0)
          \/ acct (delete k st) j = acct st j /\ j <> k) as Hj.
  { intros j. rewrite acct_delete. case_decide; subst; [by left|by right]. }
  split.
  - intros j. destruct (Hj j) as [[-> ->]|[-> _]]; [|apply Hinv].
    split; [constructor|unfold_max; lia].
  - intros m Hm. unfold total.
    rewrite (msum_delete_default (holding m) st k default_account) by apply holding_default.
    pose proof (holding_nonneg st k m (inv_wf _ Hinv)) as Hh. unfold acct in Hh.
    pose proof (inv_supply _ Hinv m Hm) as Hs. unfold total in Hs.
    enough (supply_at (delete k st) m = supply_at st m) by lia.
    unfold supply_at. rewrite acct_delete. case_decide; [subst m|done].
    unfold supply_of. destruct (mint_of (acct st k)) as [x|] eqn:E.
    + apply (inv_funded _ Hinv) in E. lia.
    + change (supply_of default_account = 0). by apply supply_of_length.
  - intros j m. destruct (Hj j) as [[-> _]|[-> _]]; [done|apply Hinv].
  - intros j a Ha. destruct (Hj j) as [[Hd _]|[E _]].
    + apply account_of_length in Ha. by rewrite Hd in Ha.
    + rewrite E in *. by apply Hinv.
  - intros j m Hm. destruct (Hj j) as [[Hd _]|[E _]].
    + apply mint_of_length in Hm. by rewrite Hd in Hm.
    + rewrite E in *. by apply (inv_funded _ Hinv) in Hm.
  - intros j a. destruct (Hj j) as [[-> _]|[-> _]]; [done|apply (inv_unclaimed _ Hinv)].
Qed.

(** ** The invariant along ledger steps *)
Lemma token_policy accounts i rent realloc st st' :
  process_instruction deserialize_rent rent_get pid accounts i st = Ok st' ->
  verify_instruction pid rent realloc accounts st st' = Ok tt ->
  policy pid st st'.
Proof.
  intros H Hv k. eapply verify_instruction_allowed; [done|].
  by eapply process_instruction_untouched.
Qed.

Lemma process_Ok_instruction accounts input st st' :
  process deserialize_rent rent_get pid accounts input st = Ok st' -> bytes input ->
  exists i, TokenInstruction.wf i /\
    process_instruction deserialize_rent rent_get pid accounts i st = Ok st'.
Proof.
  unfold process. intros H Hb. inv_ok. eexists. split; [|done].
  by eapply TokenInstruction.unpack_instruction_wf.
Qed.

(** A run of the token program the runtime accepted. *)
Lemma token_run accounts input rent realloc st st' :
  wf_store st -> wf_infos accounts -> bytes input ->
  process deserialize_rent rent_get pid accounts input st = Ok st' ->
  verify_instruction pid rent realloc accounts st st' = Ok tt ->
  wf_store st' /\ policy pid st st' /\
  token_effect deserialize_rent rent_get pid accounts st st'.
Proof.
  intros Hst Hk Hb H Hv.
  destruct (process_Ok_instruction _ _ _ _ H Hb) as (i & Hi & Hrun).
  destruct (process_instruction_effect _ _ _ _ _ _ _ Hst Hk Hi Hrun) as [Hst' Hs].
  split; [done|]. split; [by eapply token_policy|done].
Qed.

Lemma token_effect_inv accounts st st' :
  rent_positive st -> wf_store st' -> policy pid st st' ->
  token_effect deserialize_rent rent_get pid accounts st st' ->
  token_inv st -> token_inv st'.
Proof.
  intros Hrent Hst' Hpol Hstep Hinv. split.
  - done.
  - intros m Hm. pose proof (token_effect_balanced _ _ _ _ Hinv Hpol Hstep Hm) as Hb.
    unfold balanced in Hb. pose proof (inv_supply _ Hinv m Hm). lia.
  - intros k m Ho Hu Hi.
    assert (owner (acct st k) = pid) as Ho'.
    { pose proof (token_effect_owner _ _ _ k Hstep). congruence. }
    eapply fresh_written; try done. by eapply token_effect_written.
  - intros k. by eapply token_effect_native.
  - intros k. by eapply token_effect_funded.
  - intros k a Ho Hu Hi.
    assert (owner (acct st k) = pid) as Ho'.
    { pose proof (token_effect_owner _ _ _ k Hstep). congruence. }
    eapply unclaimed_written; try done. by eapply token_effect_written.
Qed.

Lemma ledger_step_inv st st' :
  rent_positive st -> ledger_step st st' -> token_inv st -> token_inv st'.
Proof.
  intros Hrent Hstep Hinv. destruct Hstep as [accounts input rent realloc Hk Hb H Hv
    | p accounts rent realloc Hp Hst' Hout Hv | k Hl ->].
  - destruct (token_run _ _ _ _ _ _ (inv_wf _ Hinv) Hk Hb H Hv) as (? & ? & ?).
    by eapply token_effect_inv.
  - eapply foreign_inv; try done. apply policy_respects. intros k. by eapply verify_instruction_allowed.
  - by apply purge_inv.
Qed.

(** A ledger before any token account exists. *)
Definition genesis (st : store) : Prop :=
  wf_store st /\ forall k, owner (acct st k) <> pid.

Lemma genesis_inv st : genesis st -> token_inv st.
Proof.
  intros [Hst Ho].
  assert (forall k, account_of (acct st k) = None /\ mint_of (acct st k) = None) as Hv.
  { intros k. unfold account_of, mint_of. by rewrite !decide_False. }
  split.
  - done.
  - intros m _. unfold total, supply_at, supply_of. destruct (Hv m) as [_ ->].
    rewrite (msum_ext_lookup (holding m) st ∅ default_account); [by rewrite msum_empty| |].
    + apply holding_default.
    + intros k. rewrite lookup_empty. change (holding m (acct st k) = holding m default_account).
      rewrite holding_default. unfold holding. by destruct (Hv k) as [-> _].
  - intros k m E. by apply Ho in E.
  - intros k a. by destruct (Hv k) as [-> _].
  - intros k m. by destruct (Hv k) as [_ ->].
  - intros k a E. by apply Ho in E.
Qed.

(** A step while the rent in force is positive. *)
Definition priced_step (st st' : store) : Prop := rent_positive st /\ ledger_step st st'.

Lemma reachable_inv st st' : genesis st -> rtc priced_step st st' -> token_inv st'.
Proof.
  intros Hg Hr. apply genesis_inv in Hg.
  induction Hr as [|st1 st2 st3 [Hrent Hs] _ IH]; [done|]. apply IH. by eapply ledger_step_inv.
Qed.
End Ledger.
