(* ===== verification/TokenTheorems.v ===== *)
(** * SPL token: the guarantees

    The properties of the token program, stated for successful runs of
    [process] and for reachable ledgers, and a small sample ledger on which
    each of them is exercised. *)

From stdpp Require Import base gmap list fin_maps relations strings.
From Stdlib Require Import ZArith Lia SpecFloat.
From S2P Require Import Prelude Sdk Runtime TokenState TokenInstruction.
From S2P Require Import TokenProcessor TokenStore TokenAuthority TokenSpec TokenEffects TokenLedger.

Section Guarantees.
Context (deserialize_rent : list Z -> option Rent).
Context (rent_get : program_result Rent).
Context (pid : Pubkey).
Implicit Types (accounts : list AccountInfo) (st : store) (a : Account).

Abbreviation run := (process deserialize_rent rent_get pid).
Abbreviation step := (ledger_step pid deserialize_rent rent_get).
Abbreviation inv := (token_inv pid).
Abbreviation priced := (priced_step pid deserialize_rent rent_get).
Abbreviation tstep := (token_effect deserialize_rent rent_get pid).
Abbreviation spec := (token_spec deserialize_rent rent_get pid).

(** C1: Every instruction the token program accepts is a step of its
    specification. For well-formed account data and any input bytes, a
    successful run of the entry point decodes the input to an instruction,
    keeps the account data well formed, and meets the specification of
    that very instruction: the accounts it names, its guards (frozen and
    native accounts, matching mints and decimals, funds, overflow, rent,
    accounts not yet in use), the signatures it needs (of the owner, the
    delegate within its allowance, or the authority concerned, for a
    multisig of as many of its keys as it requires), and the whole change
    of the store. *)
Theorem process_refines accounts input st st' :
  wf_store st -> wf_infos accounts -> bytes input ->
  run accounts input st = Ok st' ->
  wf_store st' /\ exists i, TokenInstruction.unpack input = Ok i /\ spec accounts i st st'.
Proof.
  intros Hst Hk Hb H. unfold process in H. inv_ok.
  match goal with Hu : TokenInstruction.unpack _ = Ok ?i |- _ =>
    destruct (process_instruction_spec deserialize_rent rent_get pid accounts i st st') as [Hst' Hs] end;
    [done|done|by eapply TokenInstruction.unpack_instruction_wf|done|]. split; [done|]. by eexists.
Qed.

(** C2: In every ledger state reachable from genesis, by token instructions
    the runtime accepts, by instructions of other programs and by the
    removal of emptied accounts, the tokens held by all accounts of a mint
    never exceed the supply the mint records (wrapped native tokens
    excepted, which have no recorded supply). Throughout, the rent in
    force, in the rent sysvar and from the runtime, asks for a positive
    balance from a mint: a mint that pays no rent could be emptied and
    removed while its tokens remain. *)
Theorem supply_bound st st' m :
  genesis pid st -> rtc priced st st' -> m <> native_mint_id ->
  0 <= total pid st' m <= supply_at pid st' m.
Proof.
  intros Hg Hr Hm. pose proof (reachable_inv _ _ _ _ _ Hg Hr) as Hinv.
  split; [|by apply (inv_supply _ _ Hinv)]. exact (total_nonneg _ _ _ (inv_wf _ _ Hinv)).
Qed.

(** C25: In every ledger state reachable from genesis while the rent in force
    asks for a positive balance from a mint, an account of the native mint
    is marked native, is never frozen, and holds at least as many lamports
    as it reports wrapped tokens. *)
Theorem wrapped_lamports_backed st st' k a :
  genesis pid st -> rtc priced st st' ->
  account_of pid (acct st' k) = Some a -> a_mint a = native_mint_id ->
  is_native a = true /\ is_frozen a = false /\ amount a <= lamports (acct st' k).
Proof.
  intros Hg Hr Ha Hm. pose proof (reachable_inv _ _ _ _ _ Hg Hr) as Hinv.
  destruct (inv_native _ _ Hinv _ _ Ha) as [Hn Hb].
  apply Hn in Hm. destruct (Hb Hm). auto.
Qed.

(** C3: In every ledger state reachable from genesis while the rent in force
    asks for a positive balance from a mint, an accepted token instruction
    changes the total held by the accounts of a mint, other than the
    native one, by exactly the change of the supply the mint records:
    transfers conserve tokens, and mint and burn move holdings and supply
    together. *)
Theorem tokens_conserved accounts input rent realloc st0 st st' m :
  genesis pid st0 -> rtc priced st0 st -> wf_infos accounts -> bytes input ->
  run accounts input st = Ok st' ->
  verify_instruction pid rent realloc accounts st st' = Ok tt ->
  m <> native_mint_id ->
  total pid st' m - total pid st m = supply_at pid st' m - supply_at pid st m.
Proof.
  intros Hg Hr Hk Hb H Hv Hm. pose proof (reachable_inv _ _ _ _ _ Hg Hr) as Hinv.
  destruct (token_run _ _ _ _ _ _ _ _ _ (inv_wf _ _ Hinv) Hk Hb H Hv) as (_ & Hp & Hs).
  exact (token_effect_balanced _ _ _ _ _ _ _ Hinv Hp Hs Hm).
Qed.

Lemma has_not_fresh st k a (a0 : Account) :
  has st k a -> unpack_from_slice (data (acct st k)) = Ok a0 ->
  state a0 = Uninitialized -> False.
Proof.
  intros Ha Hu Hs. apply unpack_Ok in Ha as (_ & Hu' & Hi).
  rewrite Hu in Hu'. injection Hu' as <-. cbn in Hi. by rewrite Hs in Hi.
Qed.

(** A frozen account keeps its tokens: an instruction leaves it as it is or
    thaws it. *)
Lemma frozen_token_step accounts st st' k a :
  inv st -> tstep accounts st st' -> account_of pid (acct st k) = Some a ->
  is_frozen a = true ->
  has st' k a \/ has st' k (with_state a Initialized).
Proof.
  intros Hinv Hs Ha Hfr. pose proof (inv_native _ _ Hinv _ _ Ha) as [_ Hnat].
  apply account_of_Some in Ha as [Ho Ha].
  assert (is_native a = false) as Hnn.
  { destruct (is_native a); [|done]. destruct (Hnat eq_refl). congruence. }
  assert (forall b : Account, has st k b -> b = a) as Hinj
    by (intros b Hb; by eapply has_inj).
  assert (forall x : Mint, ~ has st k x) as Hnm
    by (intros x Hx; by apply (has_account_mint_ne _ _ _ _ _ Ha Hx)).
  assert (amount a = 0 -> with_amount a 0 = a) as Hwa by (intros <-; by destruct a).
  destruct Hs; subst st' || idtac; [by left|..];
    match goal with Hf : frame ?ks st st' |- _ =>
      destruct (decide (k ∈ ks)) as [Hin|Hout];
        [|left; destruct (Hf k) as [_ E]; unfold has; by rewrite E] end;
    rewrite ?elem_of_cons, ?elem_of_nil in Hin; destruct_or! Hin; subst k;
    repeat match goal with Hb : has st _ ?b |- _ =>
      assert_fails (unify b a); apply Hinj in Hb; subst b end;
    try congruence; try (by exfalso; eapply Hnm).
  - right. match goal with Hor : _ \/ a' = _ |- _ => destruct Hor as [|<-] end;
      congruence.
  - left. rewrite <- Hwa by intuition congruence. done.
  - left. match goal with Hd : data (acct st' d) = _ |- _ =>
      destruct (decide (s = d)) as [->|]; [|unfold has; by rewrite Hd] end.
    match goal with Hb : has st d a0 |- _ => apply Hinj in Hb; subst a0 end.
    rewrite <- Hwa by intuition congruence. done.
  - unfold is_native in Hnn.
    match goal with Hr : native_reserve a = Some _ |- _ => by rewrite Hr in Hnn end.
  - exfalso. eapply has_not_fresh; [exact Ha|done..].
  - apply has_length in Ha. match goal with Hl : length _ = LEN _ |- _ => by rewrite Ha in Hl end.
  - apply has_length in Ha. match goal with Hl : length _ = LEN _ |- _ => by rewrite Ha in Hl end.
Qed.

(** A step of the ledger leaves a funded frozen token account exactly as
    it was or thaws it; its balance, owner, delegate and close authority
    cannot change while it is frozen. *)
Theorem frozen_account_keeps_tokens st st' k a :
  inv st -> step st st' -> account_of pid (acct st k) = Some a ->
  is_frozen a = true -> 0 < lamports (acct st k) ->
  account_of pid (acct st' k) = Some a \/
  account_of pid (acct st' k) = Some (with_state a Initialized).
Proof.
  intros Hinv Hs Ha Hfr Hl.
  destruct Hs as [accounts input rent realloc Hk Hb H Hv
    | p accounts rent realloc Hp Hst' Hout Hv | j Hj ->].
  - destruct (token_run _ _ _ _ _ _ _ _ _ (inv_wf _ _ Hinv) Hk Hb H Hv) as (_ & _ & Hs).
    rewrite !account_of_Some, (token_effect_owner _ _ _ _ _ _ _ Hs).
    pose proof Ha as [Ho _]%account_of_Some.
    destruct (frozen_token_step _ _ _ _ _ Hinv Hs Ha Hfr); auto.
  - left. destruct (foreign_views pid deserialize_rent p st st' k) as [-> _]; [done| |done].
    apply policy_respects. intros j. by eapply verify_instruction_allowed.
  - left. rewrite acct_delete, decide_False; [done|]. intros ->. lia.
Qed.

Lemma spend_token_step accounts st st' k a a' :
  tstep accounts st st' -> has st k a -> has st' k a' -> amount a' < amount a ->
  spend_authorized pid accounts st a (amount a - amount a') \/
  is_native a = true /\ amount a' = 0 /\
  signed_by pid accounts st (default (a_owner a) (close_authority a)).
Proof.
  intros Hs Ha Ha' Hlt.
  assert (forall b : Account, has st k b -> b = a) as Hinj
    by (intros b Hx; by eapply has_inj).
  assert (forall b : Account, has st' k b -> b = a') as Hinj'
    by (intros b Hx; by eapply has_inj).
  assert (forall x : Mint, ~ has st k x) as Hnm
    by (intros x Hx; by apply (has_account_mint_ne _ _ _ _ _ Ha Hx)).
  assert (data (acct st' k) <> data (acct st k)) as Hne.
  { intros E. unfold has in Ha, Ha'. rewrite E in Ha'. assert (a = a') by congruence.
    subst. lia. }
  destruct Hs; [by subst|..];
    match goal with Hf : frame ?ks st st' |- _ =>
      destruct (decide (k ∈ ks)) as [Hin|Hout];
        [|destruct (Hf k) as [_ E]; destruct Hne; by rewrite E] end;
    rewrite ?elem_of_cons, ?elem_of_nil in Hin; destruct_or! Hin; subst k;
    repeat match goal with
    | Hx : has st _ ?b |- _ => assert_fails (unify b a); apply Hinj in Hx; subst b
    | Hx : has st' _ ?b |- _ =>
        assert_fails (unify b a'); apply Hinj' in Hx; subst a'; cbn in Hlt |- * end;
    try (by exfalso; eapply Hnm); try lia.
  1, 3: left; by replace (amount a - (amount a - amt)) with amt by lia.
  - unfold same_holding in *. lia.
  - right. intuition lia.
  - destruct (decide (s = d)) as [->|]; [|done].
    match goal with Hb : has st d a0 |- _ => apply Hinj in Hb; subst a0 end.
    match goal with Hb : has st' d _ |- _ => apply Hinj' in Hb; subst a' end.
    cbn in *. right. intuition lia.
  - exfalso. eapply has_not_fresh; [exact Ha|done..].
  - apply has_length in Ha. match goal with Hl : length _ = LEN _ |- _ => by rewrite Ha in Hl end.
  - apply has_length in Ha. match goal with Hl : length _ = LEN _ |- _ => by rewrite Ha in Hl end.
Qed.

(** C4: When an accepted instruction lowers an account's token amount, the
    owner (directly or through a multisig) signed, or the delegate signed
    and the decrease is within its allowance; the only other case is
    closing a native account, signed by its close authority or owner. *)
Theorem spending_is_authorized accounts input st st' k a a' :
  wf_store st -> wf_infos accounts -> bytes input ->
  run accounts input st = Ok st' ->
  has st k a -> has st' k a' -> amount a' < amount a ->
  spend_authorized pid accounts st a (amount a - amount a') \/
  is_native a = true /\ amount a' = 0 /\
  signed_by pid accounts st (default (a_owner a) (close_authority a)).
Proof.
  intros Hst Hk Hb H.
  destruct (process_Ok_instruction _ _ _ _ _ _ _ H Hb) as (i & Hi & Hrun).
  destruct (process_instruction_effect _ _ _ _ _ _ _ Hst Hk Hi Hrun) as [_ Hs].
  by eapply spend_token_step.
Qed.

Lemma fixed_token_step accounts st st' k (m : Mint) :
  tstep accounts st st' -> has st k m -> mint_authority m = None ->
  exists m' : Mint, has st' k m' /\ mint_authority m' = None /\ supply m' <= supply m.
Proof.
  intros Hs Hm Hauth.
  assert (forall x : Mint, has st k x -> x = m) as Hinj
    by (intros b Hx; by eapply has_inj).
  assert (forall a : Account, ~ has st k a) as Hna
    by (intros x Hx; by apply (has_account_mint_ne _ _ _ _ _ Hx Hm)).
  assert (data (acct st' k) = data (acct st k) ->
          exists m' : Mint, has st' k m' /\ mint_authority m' = None /\
                            supply m' <= supply m) as Hsame.
  { intros E. exists m. unfold has in *. rewrite E. auto with lia. }
  pose proof (has_length _ _ _ Hm) as Hlen.
  destruct Hs; [by subst; apply Hsame|..];
    match goal with Hf : frame ?ks st st' |- _ =>
      destruct (decide (k ∈ ks)) as [Hin|Hout];
        [|destruct (Hf k) as [_ E]; apply Hsame; by rewrite E] end;
    rewrite ?elem_of_cons, ?elem_of_nil in Hin; destruct_or! Hin; subst k;
    repeat match goal with
    | Hx : has st _ ?b |- _ => assert_fails (unify b m); apply Hinj in Hx; subst b end;
    try (by exfalso; eapply Hna); try congruence.
  - eexists. split; [done|]. split; [auto|lia].
  - eexists. split; [done|]. split; [done|cbn; lia].
  - match goal with Hd : data (acct st' d) = _ |- _ =>
      destruct (decide (s = d)) as [->|]; [by exfalso; eapply Hna|auto] end.
  - match goal with Hl : length _ = LEN _ |- _ => by rewrite Hlen in Hl end.
  - apply unpack_Ok in Hm as (_ & Hu & Hi). cbn in Hi. congruence.
  - match goal with Hl : length _ = LEN Multisig |- _ => by rewrite Hlen in Hl end.
Qed.

(** Once a mint has no mint authority it stays a mint without mint
    authority for ever, and its supply never grows. *)
Theorem fixed_supply_never_grows st st' k (m : Mint) :
  inv st -> rtc priced st st' ->
  mint_of pid (acct st k) = Some m -> mint_authority m = None ->
  exists m', mint_of pid (acct st' k) = Some m' /\ mint_authority m' = None /\
             supply m' <= supply m.
Proof.
  intros Hinv Hr. revert m Hinv.
  induction Hr as [st|st1 st2 st3 [Hrent Hs] _ IH]; intros m Hinv Hm Hauth.
  { exists m. auto with lia. }
  pose proof (ledger_step_inv _ _ _ _ _ Hrent Hs Hinv) as Hinv2.
  assert (exists m', mint_of pid (acct st2 k) = Some m' /\ mint_authority m' = None /\
             supply m' <= supply m) as (m2 & Hm2 & Ha2 & Hle).
  { pose proof Hm as [Ho Hhas]%mint_of_Some.
    destruct Hs as [accounts input rent realloc Hk Hb H Hv
      | p accounts rent realloc Hp Hst' Hout Hv | j Hj ->].
    - destruct (token_run _ _ _ _ _ _ _ _ _ (inv_wf _ _ Hinv) Hk Hb H Hv) as (_ & _ & Hs).
      destruct (fixed_token_step _ _ _ _ _ Hs Hhas Hauth) as (m' & Hm' & ? & ?).
      exists m'. rewrite mint_of_Some, (token_effect_owner _ _ _ _ _ _ _ Hs). auto.
    - destruct (foreign_views pid deserialize_rent p st1 st2 k) as (_ & -> & _); [done| |].
      + apply policy_respects. intros j. by eapply verify_instruction_allowed.
      + exists m. auto with lia.
    - apply (inv_funded _ _ Hinv) in Hm as Hl. exists m.
      rewrite acct_delete, decide_False; [auto with lia|]. intros ->. lia. }
  destruct (IH m2 Hinv2 Hm2 Ha2) as (m3 & ? & ? & ?). exists m3. auto with lia.
Qed.

Lemma save_succeeds {T} `{PackOk T} (x : T) i st :
  length (data (acct st (key i))) = LEN T -> wf_state x ->
  exists st', save x i st = Ok st' /\
    forall k, length (data (acct st' k)) = length (data (acct st k)).
Proof.
  intros Hl Hw. unfold save, pack. rewrite (proj2 (Nat.eqb_eq _ _) Hl).
  cbn [negb mbind result_bind]. eexists. split; [done|]. intros k.
  rewrite data_set_data. case_decide as E; [|done]. subst. by rewrite pack_length.
Qed.

Lemma authorize_spend_succeeds st a i infos n spend :
  wf_store st -> spends pid st a i infos n ->
  authorize_spend pid st a i infos n spend = Ok (if spend then charge a (key i) n else a).
Proof.
  intros Hst H. unfold spends in H. unfold authorize_spend, charge.
  destruct (decide (delegate a = Some (key i))) as [E|E].
  - destruct H as [Hv%validate_owner_iff Hle]; [|done]. rewrite E, bool_decide_true by done.
    rewrite Hv. cbn [mbind result_bind]. rewrite (proj2 (Z.ltb_ge _ _)) by done. cbn [fail_if mbind result_bind].
    destruct spend; [|done]. by rewrite (proj2 (checked_sub_Some _ _ _) (conj eq_refl Hle)).
  - apply validate_owner_iff in H; [|done]. destruct (delegate a) as [d|].
    + rewrite bool_decide_false by congruence. rewrite H. by destruct spend.
    + rewrite H. by destruct spend.
Qed.

Lemma move_lamports_succeeds a s d n st :
  s <> d -> native_part a n <= lamports (acct st s) -> lamports (acct st d) + native_part a n <= u64_max ->
  exists st', (if is_native a then move_native_lamports s d n st else Ok st) = Ok st' /\
    forall k, data (acct st' k) = data (acct st k).
Proof.
  intros Hne Hs Hd. unfold native_part in *. destruct (is_native a); [|by eexists].
  unfold move_native_lamports. rewrite (proj2 (checked_sub_Some _ _ _) (conj eq_refl Hs)).
  cbn [ok_or mbind result_bind]. rewrite lamports_set_lamports, decide_False by done.
  rewrite (proj2 (checked_add_Some _ _ _ _) (conj eq_refl Hd)). cbn [ok_or mbind result_bind].
  eexists. split; [done|]. intros k. by rewrite !data_set_lamports.
Qed.

Lemma two_saves_succeed (a b : Account) i j st st1 :
  (forall k, data (acct st1 k) = data (acct st k)) -> wf_account a -> wf_account b ->
  length (data (acct st (key i))) = LEN Account -> length (data (acct st (key j))) = LEN Account ->
  exists st', (st2 ← save a i st1; save b j st2) = Ok st'.
Proof.
  intros Hd Ha Hb Hi Hj.
  destruct (save_succeeds (T := Account) a i st1) as (st2 & Hs2 & Hl); [by rewrite Hd|done|].
  destruct (save_succeeds (T := Account) b j st2) as (st3 & Hs3 & _); [by rewrite Hl, Hd|done|].
  exists st3. rewrite Hs2. exact Hs3.
Qed.

(** C33: When a transfer is accepted. For well-formed account data, the packed
    transfer of n tokens succeeds if and only if both accounts are token
    accounts, neither is frozen, they have the same mint, the source holds
    n tokens, the authority speaks for the delegate within its allowance
    or for the owner (for a multisig, through its keys), and, unless the
    two accounts are the same, the destination has room for n tokens and,
    for wrapped lamports, the lamports that move with them. *)
Theorem transfer_accepted si di ai infos n st :
  wf_store st -> is_u64 n ->
  (exists st', run (si :: di :: ai :: infos) (TokenInstruction.pack (TokenInstruction.Transfer n)) st
     = Ok st') <->
  exists a b, has st (key si) a /\ has st (key di) b /\
    is_frozen a = false /\ is_frozen b = false /\ n <= amount a /\ a_mint a = a_mint b /\
    spends pid st a ai infos n /\
    (key si = key di \/
     amount b + n <= u64_max /\ native_part a n <= lamports (acct st (key si)) /\
     lamports (acct st (key di)) + native_part a n <= u64_max).
Proof.
  intros Hst Hn. unfold process.
  rewrite TokenInstruction.unpack_pack_wf by done. cbn [mbind result_bind process_instruction]. split.
  - intros [st' H]. apply (transfer_spec deserialize_rent) in H as [_ Ht]; [|done|lia].
    destruct Ht as [si' mi di' ai' infos' a b [= <- <- <- <-] Ha Hb Hfa Hfb Hle Hm _ Hsp H].
    exists a, b. split_and!; try done. case_decide; [by left|right]. tauto.
  - intros (a & b & Ha & Hb & Hfa & Hfb & Hle & Hm & Hsp & H).
    pose proof (has_wf_account _ _ _ Hst Ha) as Hwa. pose proof (has_wf_account _ _ _ Hst Hb) as Hwb.
    pose proof (wfa_amount _ Hwa). pose proof (wfa_amount _ Hwb).
    pose proof (has_length _ _ _ Ha) as Hla. pose proof (has_length _ _ _ Hb) as Hlb.
    apply load_has in Ha, Hb. unfold process_transfer. cbn [next_account_info next_expected_mint mbind result_bind].
    rewrite Ha, Hb. cbn [mbind result_bind]. rewrite Hfa, Hfb. cbn [orb fail_if mbind result_bind].
    rewrite (proj2 (Z.ltb_ge _ _)) by lia. cbn [fail_if mbind result_bind].
    rewrite (bool_decide_true (a_mint a = a_mint b)) by done.
    cbn [negb fail_if mbind result_bind check_expected_mint].
    rewrite (authorize_spend_succeeds _ _ _ _ _ _ Hst Hsp). cbn [mbind result_bind].
    case_bool_decide as E; [by eexists|]. cbn [negb]. destruct H as [?|(Hmax & Hs & Hd)]; [done|].
    destruct (charge_holding a (key ai) n) as [(_ & Ham & Hnr) _]. rewrite Ham.
    rewrite (proj2 (checked_sub_Some _ _ _) (conj eq_refl Hle)).
    rewrite (proj2 (checked_add_Some _ _ _ _) (conj eq_refl Hmax)). cbn [ok_or mbind result_bind].
    change (is_native (with_amount ?x _)) with (is_native x).
    replace (is_native (charge a (key ai) n)) with (is_native a) by (unfold is_native; by rewrite Hnr).
    destruct (move_lamports_succeeds a (key si) (key di) n st) as (st1 & -> & Hd1); [done..|].
    cbn [mbind result_bind]. eapply two_saves_succeed; [exact Hd1|..]; try done.
    + apply wf_with_amount; [by eapply wf_charge; [|lia|]|lia].
    + apply wf_with_amount; [done|lia].
Qed.
End Guarantees.

(** ** A sample ledger

    A mint, two token accounts and a wrapped-lamports account, from their
    system accounts to minting, transfer, freezing and a fixed supply. *)
Module Sample.
Definition token_id : Pubkey :=
  Eval vm_compute in declare_id "TokenkegQfeZyiNwAJbNbGKPFXCWuBvf9Ss623VQ5DA".
Definition k (n : Z) : Pubkey := n :: replicate 31 7.
Definition rent : program_result Rent := Ok Rent_default.

(** The bits of a double. *)
Definition f64_of_bits (z : Z) : F64.f64 :=
  let s := Z.testbit z 63 in
  let e := (z / 2 ^ 52) mod 2 ^ 11 in
  let m := z mod 2 ^ 52 in
  if e =? 0 then if m =? 0 then S754_zero s else S754_finite s (Z.to_pos m) (-1074)
  else if e =? 2047 then if m =? 0 then S754_infinity s else S754_nan
  else S754_finite s (Z.to_pos (2 ^ 52 + m)) (e - 1075).

(** The stored form of a rent configuration: a [u64], a double and a [u8]. *)
Definition decode_rent (d : list Z) : option Rent :=
  if Nat.ltb (length d) 17 then None
  else Some {| lamports_per_byte_year := from_le_bytes (take 8 d);
               exemption_threshold := f64_of_bits (from_le_bytes (take 8 (drop 8 d)));
               burn_percent := nth 16 d 0 |}.
Definition rent_account : AccountSharedData :=
  {| lamports := 1; data := to_le_bytes 8 3480 ++ to_le_bytes 8 (2 ^ 62) ++ [50];
     owner := system_program_id; executable := false; rent_epoch := 0 |}.

Definition blank (own : Pubkey) (len : nat) : AccountSharedData :=
  {| lamports := 3000000; data := replicate len 0; owner := own;
     executable := false; rent_epoch := 0 |}.
Definition system (own : Pubkey) : store :=
  <[rent_sysvar_id := rent_account]> (<[k 1 := blank own 82]> (<[k 2 := blank own 165]>
    (<[k 3 := blank own 165]> (<[k 5 := blank own 165]> ∅)))).
Definition st0 : store := system system_program_id.
Definition st1 : store := system token_id.

(** Writable account, and the signing authority [k 4]. *)
Definition w (n : Z) : AccountInfo := {| key := k n; is_signer := false; is_writable := true |}.
Definition auth : AccountInfo := {| key := k 4; is_signer := true; is_writable := false |}.
Definition native : AccountInfo :=
  {| key := native_mint_id; is_signer := false; is_writable := false |}.

Definition next (accounts : list AccountInfo) (i : TokenInstruction.t) (st : store) : store :=
  match process decode_rent rent token_id accounts (TokenInstruction.pack i) st with
  | Ok st' => st'
  | _ => st
  end.
Definition accepted (accounts : list AccountInfo) (i : TokenInstruction.t) (st : store) : bool :=
  bool_decide (bytes (TokenInstruction.pack i)) &&
  bool_decide (Forall (fun j => length (key j) = 32%nat /\ bytes (key j)) accounts) &&
  match process decode_rent rent token_id accounts (TokenInstruction.pack i) st with
  | Ok st' =>
      match verify_instruction token_id Rent_default false accounts st st' with
      | Ok _ => true
      | _ => false
      end
  | _ => false
  end.

Lemma accepted_spec accounts i st :
  accepted accounts i st = true ->
  wf_infos accounts /\ bytes (TokenInstruction.pack i) /\
  process decode_rent rent token_id accounts (TokenInstruction.pack i) st
    = Ok (next accounts i st) /\
  verify_instruction token_id Rent_default false accounts st (next accounts i st) = Ok tt.
Proof.
  unfold accepted, next. intros H. to_prop. split; [done|]. split; [done|].
  destruct (process _ _ _ _ _ _) as [st'| |]; [|done..]. split; [done|].
  by destruct (verify_instruction _ _ _ _ _ _) as [[]| |].
Qed.

Lemma accepted_step accounts i st st' :
  accepted accounts i st = true -> next accounts i st = st' ->
  ledger_step token_id decode_rent rent st st'.
Proof. intros (? & ? & ? & ?)%accepted_spec <-. by eapply L_token. Qed.

Definition rent_info : AccountInfo :=
  {| key := rent_sysvar_id; is_signer := false; is_writable := false |}.
Definition a_init_mint := TokenInstruction.InitializeMint 2 (k 4) (Some (k 4)).
Definition st2 : store := Eval vm_compute in next [w 1; rent_info] a_init_mint st1.
Definition a_init_account := TokenInstruction.InitializeAccount3 (k 4).
Definition st3 : store := Eval vm_compute in next [w 2; w 1] a_init_account st2.
Definition st4 : store := Eval vm_compute in next [w 3; w 1] a_init_account st3.
Definition st5 : store := Eval vm_compute in
  next [w 1; w 2; auth] (TokenInstruction.MintTo 10) st4.
Definition st6 : store := Eval vm_compute in next [w 5; native] a_init_account st5.

Definition a_transfer := TokenInstruction.Transfer 3.
Definition st7 : store := Eval vm_compute in next [w 2; w 3; auth] a_transfer st6.
Definition st8 : store := Eval vm_compute in
  next [w 3; w 1; auth] TokenInstruction.FreezeAccount st7.
Definition a_fix := TokenInstruction.SetAuthority MintTokens None.
Definition st9 : store := Eval vm_compute in next [w 1; auth] a_fix st8.

Lemma acct_system own j :
  acct (system own) j =
    if decide (j = rent_sysvar_id) then rent_account
    else if decide (j ∈ [k 1; k 2; k 3; k 5])
    then blank own (if decide (j = k 1) then 82 else 165) else default_account.
Proof.
  unfold acct, system. rewrite !lookup_insert, lookup_empty. unfold k.
  repeat case_decide; subst; try done; set_solver.
Qed.

Lemma wf_system own : wf_store (system own).
Proof.
  intros j. rewrite acct_system.
  case_decide; [split; [repeat constructor; vm_compute; discriminate|cbn; unfold_max; lia]|].
  case_decide; cbn [data lamports blank default_account].
  - split; [apply bytes_replicate; lia|unfold_max; lia].
  - split; [constructor|unfold_max; lia].
Qed.

Lemma genesis0 : genesis token_id st0.
Proof.
  split; [apply wf_system|]. intros j. unfold st0. rewrite acct_system.
  by repeat case_decide.
Qed.

Lemma assign_step : ledger_step token_id decode_rent rent st0 st1.
Proof.
  apply (L_foreign _ _ _ _ _ system_program_id [w 1; w 2; w 3; w 5] Rent_default false).
  - done.
  - apply wf_system.
  - intros j Hj. unfold st0, st1. rewrite !acct_system. case_decide; [done|]. by rewrite !(decide_False (P := j ∈ _)).
  - vm_compute. reflexivity.
Qed.

Lemma rent_ok st : sysvar_rent decode_rent st = Some Rent_default -> rent_positive decode_rent rent st.
Proof. intros E r [[= <-]|Hr]; [vm_compute; reflexivity|]. rewrite E in Hr. injection Hr as <-. vm_compute. reflexivity. Qed.

Ltac priced := split; [apply rent_ok; vm_compute; reflexivity|].
Ltac run_next st accounts i :=
  eapply (rtc_l _ _ st);
    [priced; apply (accepted_step accounts i); [vm_compute; reflexivity|vm_cast_no_check (eq_refl st)]|].

Lemma path6 : rtc (priced_step token_id decode_rent rent) st0 st6.
Proof.
  eapply rtc_l; [priced; apply assign_step|].
  run_next st2 [w 1; rent_info] a_init_mint.
  run_next st3 [w 2; w 1] a_init_account.
  run_next st4 [w 3; w 1] a_init_account.
  run_next st5 [w 1; w 2; auth] (TokenInstruction.MintTo 10).
  run_next st6 [w 5; native] a_init_account.
  apply rtc_refl.
Qed.

Lemma path9 : rtc (priced_step token_id decode_rent rent) st6 st9.
Proof.
  run_next st7 [w 2; w 3; auth] a_transfer.
  run_next st8 [w 3; w 1; auth] TokenInstruction.FreezeAccount.
  run_next st9 [w 1; auth] a_fix.
  apply rtc_refl.
Qed.

Lemma inv6 : token_inv token_id st6.
Proof. exact (reachable_inv _ _ _ _ _ genesis0 path6). Qed.

Lemma inv_after st : rtc (priced_step token_id decode_rent rent) st6 st -> token_inv token_id st.
Proof.
  intros Hr. eapply reachable_inv; [apply genesis0|].
  etrans; [apply path6|done].
Qed.

Lemma run7 :
  wf_infos [w 2; w 3; auth] /\ bytes (TokenInstruction.pack a_transfer) /\
  process decode_rent rent token_id [w 2; w 3; auth] (TokenInstruction.pack a_transfer) st6
    = Ok st7 /\
  verify_instruction token_id Rent_default false [w 2; w 3; auth] st6 st7 = Ok tt.
Proof.
  assert (next [w 2; w 3; auth] a_transfer st6 = st7) as E by (vm_cast_no_check (eq_refl st7)).
  rewrite <- E. apply accepted_spec. vm_compute. reflexivity.
Qed.

Lemma process_refines_witness :
  wf_store st7 /\ exists i, TokenInstruction.unpack (TokenInstruction.pack a_transfer) = Ok i /\
    token_spec decode_rent rent token_id [w 2; w 3; auth] i st6 st7.
Proof.
  destruct run7 as (Hk & Hb & Hr & _).
  exact (process_refines _ _ _ _ _ _ _ (inv_wf _ _ inv6) Hk Hb Hr).
Defined.

Lemma supply_bound_witness :
  0 <= total token_id st6 (k 1) <= supply_at token_id st6 (k 1) /\
  total token_id st6 (k 1) = 10.
Proof.
  split; [|vm_compute; reflexivity].
  exact (supply_bound decode_rent rent token_id st0 st6 (k 1) genesis0 path6
           ltac:(discriminate)).
Defined.

(** The account stored at [j], decoded. *)
Definition decode (st : store) (j : Pubkey) : Account :=
  match unpack (data (acct st j)) with
  | Ok a => a
  | _ => {| a_mint := []; a_owner := []; amount := 0; delegate := None;
            state := Uninitialized; native_reserve := None; delegated_amount := 0;
            close_authority := None |}
  end.
Definition decode_mint (st : store) (j : Pubkey) : Mint :=
  match unpack (data (acct st j)) with
  | Ok m => m
  | _ => {| mint_authority := None; supply := 0; decimals := 0;
            mint_is_initialized := false; freeze_authority := None |}
  end.

Lemma wrapped_lamports_backed_witness :
  is_native (decode st6 (k 5)) = true /\ is_frozen (decode st6 (k 5)) = false /\
  amount (decode st6 (k 5)) <= lamports (acct st6 (k 5)).
Proof.
  apply (wrapped_lamports_backed decode_rent rent token_id st0 st6 (k 5) _
           genesis0 path6); vm_compute; reflexivity.
Defined.

Lemma tokens_conserved_witness :
  total token_id st7 (k 1) - total token_id st6 (k 1)
    = supply_at token_id st7 (k 1) - supply_at token_id st6 (k 1).
Proof.
  destruct run7 as (Hk & Hb & Hr & Hv).
  exact (tokens_conserved _ _ _ _ _ _ _ _ _ _ (k 1) genesis0 path6 Hk Hb Hr Hv ltac:(discriminate)).
Defined.

Lemma frozen_account_keeps_tokens_witness :
  account_of token_id (acct st9 (k 3)) = Some (decode st8 (k 3)) \/
  account_of token_id (acct st9 (k 3)) = Some (with_state (decode st8 (k 3)) Initialized).
Proof.
  apply (frozen_account_keeps_tokens decode_rent rent token_id st8 st9 (k 3)).
  - apply inv_after. run_next st7 [w 2; w 3; auth] a_transfer.
    run_next st8 [w 3; w 1; auth] TokenInstruction.FreezeAccount. apply rtc_refl.
  - apply (accepted_step [w 1; auth] a_fix); [vm_compute; reflexivity|vm_cast_no_check (eq_refl st9)].
  - vm_compute. reflexivity.
  - vm_compute. reflexivity.
  - vm_compute. reflexivity.
Defined.

Lemma spending_is_authorized_witness :
  spend_authorized token_id [w 2; w 3; auth] st6 (decode st6 (k 2))
    (amount (decode st6 (k 2)) - amount (decode st7 (k 2))) \/
  is_native (decode st6 (k 2)) = true /\ amount (decode st7 (k 2)) = 0 /\
  signed_by token_id [w 2; w 3; auth] st6
    (default (a_owner (decode st6 (k 2))) (close_authority (decode st6 (k 2)))).
Proof.
  destruct run7 as (Hk & Hb & Hr & _).
  apply (spending_is_authorized _ _ _ _ _ _ _ (k 2) _ _ (inv_wf _ _ inv6) Hk Hb Hr);
    vm_compute; reflexivity.
Defined.

Definition st10 : store := Eval vm_compute in
  next [w 2; w 1; auth] (TokenInstruction.Burn 2) st9.

Lemma fixed_supply_never_grows_witness :
  exists m', mint_of token_id (acct st10 (k 1)) = Some m' /\ mint_authority m' = None /\
             supply m' <= supply (decode_mint st9 (k 1)).
Proof.
  apply (fixed_supply_never_grows decode_rent rent token_id st9 st10 (k 1)).
  - exact (inv_after _ path9).
  - run_next st10 [w 2; w 1; auth] (TokenInstruction.Burn 2). apply rtc_refl.
  - vm_compute. reflexivity.
  - vm_compute. reflexivity.
Defined.

Lemma transfer_accepted_witness :
  (exists st', process decode_rent rent token_id [w 2; w 3; auth]
     (TokenInstruction.pack (TokenInstruction.Transfer 4)) st6 = Ok st') <->
  exists a b, has st6 (k 2) a /\ has st6 (k 3) b /\
    is_frozen a = false /\ is_frozen b = false /\ 4 <= amount a /\ a_mint a = a_mint b /\
    spends token_id st6 a auth [] 4 /\
    (k 2 = k 3 \/
     amount b + 4 <= u64_max /\ native_part a 4 <= lamports (acct st6 (k 2)) /\
     lamports (acct st6 (k 3)) + native_part a 4 <= u64_max).
Proof.
  apply (transfer_accepted decode_rent rent token_id (w 2) (w 3) auth [] 4 st6 (inv_wf _ _ inv6)).
  split; vm_compute; discriminate.
Defined.
End Sample.
