(* ===== verification/TokenGuard.v ===== *)
(** * Token accounts under the authority of a program

    What other programs can rely on: an account whose owner is an address that
    signs only for its program, without delegate or close authority, keeps its
    tokens, and a mint with such an authority issues none, under every token
    instruction that is not signed for the address. *)

From stdpp Require Import base gmap list fin_maps.
From Stdlib Require Import ZArith Lia.
From S2P Require Import Prelude Sdk TokenState TokenInstruction TokenProcessor TokenStore TokenAuthority TokenSpec TokenEffects.

Section Guard.
Context (deserialize_rent : list Z -> option Rent) (rent_get : program_result Rent).
Context (pid : Pubkey).
Implicit Types (st : store) (k au mint : Pubkey) (accounts : list AccountInfo).

(** The account [k] holds at least [n] tokens of [mint], under [au] alone. *)
Record guards st k au mint (n : Z) (a : Account) : Prop := {
  gd_held : owner (acct st k) = pid;
  gd_has : has st k a;
  gd_owner : a_owner a = au;
  gd_mint : a_mint a = mint;
  gd_delegate : delegate a = None;
  gd_close : close_authority a = None;
  gd_amount : n <= amount a;
}.
Definition guarded st k au mint n : Prop := exists a, guards st k au mint n a.

(** The mint [k] has issued at most [n] tokens, under [au] alone. *)
Record issues st k au (n : Z) (m : Mint) : Prop := {
  is_held : owner (acct st k) = pid;
  is_has : has st k m;
  is_authority : mint_authority m = Some au;
  is_freeze : freeze_authority m = None;
  is_supply : supply m <= n;
}.
Definition minted st k au n : Prop := exists m, issues st k au n m.

Lemma guarded_le st k au mint n n' : guarded st k au mint n -> n' <= n -> guarded st k au mint n'.
Proof. intros [a []] Hn. exists a. split; try done. lia. Qed.
Lemma minted_le st k au n n' : minted st k au n -> n <= n' -> minted st k au n'.
Proof. intros [m []] Hn. exists m. split; try done. lia. Qed.

Lemma guarded_same st st' k au mint n :
  owner (acct st' k) = owner (acct st k) -> data (acct st' k) = data (acct st k) ->
  guarded st k au mint n -> guarded st' k au mint n.
Proof. intros Ho Hd [a []]. exists a. split; try done; [congruence|]. unfold has. by rewrite Hd. Qed.
Lemma minted_same st st' k au n :
  owner (acct st' k) = owner (acct st k) -> data (acct st' k) = data (acct st k) ->
  minted st k au n -> minted st' k au n.
Proof. intros Ho Hd [m []]. exists m. split; try done; [congruence|]. unfold has. by rewrite Hd. Qed.

Lemma guarded_frame ks st st' k au mint n :
  frame ks st st' -> k ∉ ks -> guarded st k au mint n -> guarded st' k au mint n.
Proof. intros Hf Hk. destruct (Hf k) as [Ho E]. apply guarded_same; [done|by rewrite E]. Qed.
Lemma minted_frame ks st st' k au n :
  frame ks st st' -> k ∉ ks -> minted st k au n -> minted st' k au n.
Proof. intros Hf Hk. destruct (Hf k) as [Ho E]. apply minted_same; [done|by rewrite E]. Qed.

(** An account that is rewritten with the same authorities. *)
Lemma guarded_written ks st st' k au mint n n' (a a' : Account) :
  frame ks st st' -> guards st k au mint n a -> has st' k a' -> same_authorities a a' ->
  a_mint a' = a_mint a -> n' <= amount a' -> guarded st' k au mint n'.
Proof.
  intros Hf [] Ha' (Ho & Hd & Hc) Hm Hn. exists a'. split; try done; try congruence.
  by rewrite (proj1 (Hf k)).
Qed.
Lemma minted_written ks st st' k au n n' (m m' : Mint) :
  frame ks st st' -> issues st k au n m -> has st' k m' -> same_mint_authorities m m' ->
  supply m' <= n' -> minted st' k au n'.
Proof.
  intros Hf [] Hm' [Ha Hz] Hn. exists m'. split; try done; try congruence.
  by rewrite (proj1 (Hf k)).
Qed.

Lemma not_in_1 {A} (x y : A) : x <> y -> x ∉ [y].
Proof. intros Hn H. apply list_elem_of_singleton in H. done. Qed.
Lemma not_in_2 {A} (x y z : A) : x <> y -> x <> z -> x ∉ [y; z].
Proof. intros Hy Hz H. apply elem_of_cons in H as [?|H]; [done|]. by apply list_elem_of_singleton in H. Qed.

(** ** Transfers, issues and burns *)
Section Moves.
Context (accounts : list AccountInfo) (st st' : store) (s d : Pubkey) (n : Z).

Lemma guarded_moved k au mint x :
  moved pid accounts s d n st st' -> s <> d -> k <> s -> guarded st k au mint x ->
  guarded st' k au mint (if decide (k = d) then x + n else x).
Proof.
  intros [a b a' Ha Hb Hm _ _ Hn _ _ _ _ _ _ Hd Hf _ _ _ _] Hne Hk [g Hg].
  case_decide as E; [subst k|eapply guarded_frame; [exact Hf|by apply not_in_2|by exists g]].
  pose proof (has_inj _ _ _ _ (gd_has _ _ _ _ _ _ Hg) Hb) as ->.
  eapply guarded_written; [exact Hf|exact Hg|exact Hd|done|done|]. cbn. destruct Hg. lia.
Qed.

Lemma guarded_spent k au mint x :
  moved pid accounts s d n st st' -> k = s -> guarded st k au mint x -> guarded st' k au mint (x - n).
Proof.
  intros [a b a' Ha _ _ _ _ Hn _ _ (Hm & Ham & _) _ Hnone Hs _ Hf _ _ _ _] -> [g Hg].
  pose proof (has_inj _ _ _ _ (gd_has _ _ _ _ _ _ Hg) Ha) as ->.
  rewrite (Hnone (gd_delegate _ _ _ _ _ _ Hg)) in *.
  eapply guarded_written; [exact Hf|exact Hg|exact Hs|done|done|]. cbn. destruct Hg. lia.
Qed.

Lemma minted_moved k au x :
  moved pid accounts s d n st st' -> minted st k au x -> minted st' k au x.
Proof.
  intros [a b a' Ha Hb _ _ _ _ _ _ _ _ _ _ _ Hf _ _ _ _] [m Hm].
  eapply minted_frame; [exact Hf| |by exists m]. pose proof (is_has _ _ _ _ _ Hm) as Hk.
  apply not_in_2; intros ->; [by apply (has_account_mint_ne _ _ _ _ _ Ha Hk)|].
  by apply (has_account_mint_ne _ _ _ _ _ Hb Hk).
Qed.

Lemma guarded_issued k au mint x :
  issued pid accounts s d n st st' -> guarded st k au mint x -> guarded st' k au mint x.
Proof.
  intros [m b au' Hm Hb _ _ _ _ _ Hn _ _ _ Hd Hf _] [g Hg].
  destruct (decide (k = d)) as [->|Hk].
  - pose proof (has_inj _ _ _ _ (gd_has _ _ _ _ _ _ Hg) Hb) as ->.
    eapply guarded_written; [exact Hf|exact Hg|exact Hd|done|done|]. cbn. destruct Hg. lia.
  - eapply guarded_frame; [exact Hf| |by exists g]. apply not_in_2; [|done].
    intros ->. by apply (has_account_mint_ne _ _ _ _ _ (gd_has _ _ _ _ _ _ Hg) Hm).
Qed.

Lemma minted_issued k au x :
  issued pid accounts s d n st st' -> minted st k au x ->
  minted st' k au (if decide (k = s) then x + n else x).
Proof.
  intros [m b au' Hm Hb _ _ _ _ _ Hn _ _ Hs _ Hf _] [g Hg].
  case_decide as E; [subst k|].
  - pose proof (has_inj _ _ _ _ (is_has _ _ _ _ _ Hg) Hm) as ->.
    eapply minted_written; [exact Hf|exact Hg|exact Hs|done|]. cbn. destruct Hg. lia.
  - eapply minted_frame; [exact Hf| |by exists g]. apply not_in_2; [done|].
    intros ->. by apply (has_account_mint_ne _ _ _ _ _ Hb (is_has _ _ _ _ _ Hg)).
Qed.
End Moves.

Lemma guarded_retired accounts st st' mk s n k au mint x :
  retired pid accounts mk s n st st' -> k <> s -> guarded st k au mint x -> guarded st' k au mint x.
Proof.
  intros [m a a' Hm Ha _ _ _ _ _ _ _ _ _ _ Hf _] Hk [g Hg].
  eapply guarded_frame; [exact Hf| |by exists g]. apply not_in_2; [|done].
  intros ->. by apply (has_account_mint_ne _ _ _ _ _ (gd_has _ _ _ _ _ _ Hg) Hm).
Qed.

Lemma minted_retired accounts st st' mk s n k au x :
  retired pid accounts mk s n st st' -> minted st k au x ->
  minted st' k au (if decide (k = mk) then x - n else x).
Proof.
  intros [m a a' Hm Ha _ _ _ _ _ _ _ _ Hs _ Hf _] [g Hg].
  case_decide as E; [subst k|].
  - pose proof (has_inj _ _ _ _ (is_has _ _ _ _ _ Hg) Hm) as ->.
    eapply minted_written; [exact Hf|exact Hg|exact Hs|done|]. cbn. destruct Hg. lia.
  - eapply minted_frame; [exact Hf| |by exists g]. apply not_in_2; [done|].
    intros ->. by apply (has_account_mint_ne _ _ _ _ _ Ha (is_has _ _ _ _ _ Hg)).
Qed.

(** ** New accounts and mints *)
Lemma opened_elsewhere k own mint st st' j (a : Account) :
  opened deserialize_rent rent_get k own mint st st' -> has st j a -> j <> k.
Proof.
  intros [a0 a1 r _ Hu Hi] Ha ->. apply unpack_Ok in Ha as (_ & Hu' & Hi').
  rewrite Hu in Hu'. injection Hu' as ->. cbn in Hi'. by rewrite Hi in Hi'.
Qed.
Lemma founded_elsewhere k au fa st st' j (m : Mint) :
  founded deserialize_rent rent_get k au fa st st' -> has st j m -> j <> k.
Proof.
  intros [m0 m1 r _ Hu Hi] Hm ->. apply unpack_Ok in Hm as (_ & Hu' & Hi').
  rewrite Hu in Hu'. injection Hu' as ->. cbn in Hi'. congruence.
Qed.

Lemma guarded_opened k own mk st st' j au mint x :
  opened deserialize_rent rent_get k own mk st st' -> guarded st j au mint x -> guarded st' j au mint x.
Proof.
  intros Ho [g Hg]. pose proof (opened_elsewhere _ _ _ _ _ _ _ Ho (gd_has _ _ _ _ _ _ Hg)).
  destruct Ho. by eapply guarded_frame; [|apply not_in_1|by exists g].
Qed.
Lemma minted_opened k own mk st st' j au x :
  opened deserialize_rent rent_get k own mk st st' -> minted st j au x -> minted st' j au x.
Proof.
  intros [a0 a r Hl] [g Hg]. eapply minted_frame; [done| |by exists g]. apply not_in_1. intros ->.
  pose proof (has_length _ _ _ (is_has _ _ _ _ _ Hg)) as Hl'. by rewrite Hl in Hl'.
Qed.
Lemma guarded_founded k o fa st st' j au mint x :
  founded deserialize_rent rent_get k o fa st st' -> guarded st j au mint x -> guarded st' j au mint x.
Proof.
  intros [a0 a r Hl] [g Hg]. eapply guarded_frame; [done| |by exists g]. apply not_in_1. intros ->.
  pose proof (has_length _ _ _ (gd_has _ _ _ _ _ _ Hg)) as Hl'. by rewrite Hl in Hl'.
Qed.
Lemma minted_founded k o fa st st' j au x :
  founded deserialize_rent rent_get k o fa st st' -> minted st j au x -> minted st' j au x.
Proof.
  intros Ho [g Hg]. pose proof (founded_elsewhere _ _ _ _ _ _ _ Ho (is_has _ _ _ _ _ Hg)).
  destruct Ho. by eapply minted_frame; [|apply not_in_1|by exists g].
Qed.

Lemma guarded_fresh k own mint st st' :
  opened deserialize_rent rent_get k own mint st st' -> wf_store st' -> owner (acct st k) = pid ->
  (forall a : Account, unpack_unchecked (data (acct st k)) = Ok a -> state a = Uninitialized ->
     close_authority a = None) ->
  guarded st' k own mint 0.
Proof.
  intros [a0 a r Hl Hu Hi _ _ Ha _ Hd Ho Hm Hc _ Hf _] Hst' Hk Hun. exists a. split; try done.
  - by rewrite (proj1 (Hf k)).
  - rewrite Hc. apply Hun; [|done]. apply unpack_unchecked_Ok. done.
  - apply (wfa_amount _ (has_wf_account _ _ _ Hst' Ha)).
Qed.
Lemma minted_fresh k au st st' :
  founded deserialize_rent rent_get k au None st st' -> owner (acct st k) = pid ->
  (forall m : Mint, unpack_unchecked (data (acct st k)) = Ok m -> mint_is_initialized m = false ->
     supply m = 0) ->
  minted st' k au 0.
Proof.
  intros [m0 m r Hl Hu Hi _ _ Hm Hs Ha Hz Hf _] Hk Hfresh. exists m. split; try done.
  - by rewrite (proj1 (Hf k)).
  - rewrite Hs, (Hfresh m0); [done| |done]. apply unpack_unchecked_Ok. done.
Qed.

(** ** Instructions that are not signed for the authority *)

(** Only an account that signed can act for a key that is no multisig. *)
Lemma signed_plain accounts st k :
  signed_by pid accounts st k -> owner (acct st k) <> pid ->
  exists i, i ∈ accounts /\ key i = k /\ is_signer i = true.
Proof. intros Hs Ho. unfold signed_by in Hs. rewrite decide_False in Hs; [done|]. by intros [? _]. Qed.

Section Unsigned.
Context (accounts : list AccountInfo) (st st' : store) (au : Pubkey).
Context (Hno : ~ signed_by pid accounts st au).
Context (Hstep : token_effect deserialize_rent rent_get pid accounts st st').

Section Account.
Context (k mint : Pubkey) (x : Z) (g : Account) (Hg : guards st k au mint x g).

Lemma unspent s (a : Account) amt : has st s a -> spend_authorized pid accounts st a amt -> k <> s.
Proof.
  intros Ha Hau ->. pose proof (has_inj _ _ _ _ (gd_has _ _ _ _ _ _ Hg) Ha) as ->.
  destruct Hg as [_ _ Ho _ Hdel _ _].
  destruct Hau as [Hs|(e & He & _)]; [by rewrite Ho in Hs|congruence].
Qed.

Lemma unclosed s (a : Account) :
  has st s a -> signed_by pid accounts st (default (a_owner a) (close_authority a)) -> k <> s.
Proof.
  intros Ha Hau ->. pose proof (has_inj _ _ _ _ (gd_has _ _ _ _ _ _ Hg) Ha) as ->.
  destruct Hg as [_ _ Ho _ _ Hc _]. rewrite Hc in Hau. cbn in Hau. by rewrite Ho in Hau.
Qed.

Lemma not_mint mk (m : Mint) : has st mk m -> k <> mk.
Proof. intros Hm ->. by apply (has_account_mint_ne _ _ _ _ _ (gd_has _ _ _ _ _ _ Hg) Hm). Qed.

Lemma kept ks : frame ks st st' -> k ∉ ks -> guarded st' k au mint x.
Proof. intros Hf Hk. eapply guarded_frame; [done..|by exists g]. Qed.

(** At [d] tokens may have arrived; the rest of the frame is elsewhere. *)
Lemma kept_or_gained ks d (b : Account) n :
  frame ks st st' -> has st d b -> has st' d (with_amount b n) -> amount b <= n ->
  (k <> d -> k ∉ ks) -> guarded st' k au mint x.
Proof.
  intros Hf Hb Hd Hn Hks. destruct (decide (k = d)) as [->|Hk]; [|by eapply kept; [|apply Hks]].
  pose proof (has_inj _ _ _ _ (gd_has _ _ _ _ _ _ Hg) Hb) as ->.
  eapply guarded_written; [exact Hf|exact Hg|exact Hd|done|done|]. cbn. destruct Hg. lia.
Qed.
End Account.

Lemma guarded_unsigned k mint x : guarded st k au mint x -> guarded st' k au mint x.
Proof.
  intros [g Hg]. pose proof (gd_has _ _ _ _ _ _ Hg) as Hk. pose proof (has_length _ _ _ Hk) as Hl.
  destruct Hstep as [->|s d a b a' amt Hne Ha Hb Hm _ _ Hamt _ Hau _ _ _ Hd Hf _ _ _ _
    |k' a a' Ha Ha' (Hm & Ham & _) _ _ Hf _ Hau|k' m m' Hm _ _ _ Hf _ _
    |mk d m b auth amt Hm Hb _ _ _ _ _ Hamt _ _ _ Hd Hf _
    |mk s m a a' amt Hm Ha _ _ _ _ _ Hau _ _ _ _ Hf _
    |s d a Ha _ Hau _ Hd Hf _ _|k' a reserve _ Ha _ Hle Ha' Hf _
    |k' a0 a rent _ Hu Hi _ _ _ _ _ _ Hf _|k' m0 m rent Hlen _ _ _ _ _ _ Hf _|k' x0' x' Hlen _ _ _ _ _ Hf _].
  - by exists g.
  - eapply kept_or_gained; [exact Hg|exact Hf|exact Hb|exact Hd|lia|].
    intros Hkd. apply not_in_2; [by eapply unspent|done].
  - destruct (decide (k = k')) as [->|Hkk]; [|by eapply kept; [exact Hg|exact Hf|apply not_in_1]].
    pose proof (has_inj _ _ _ _ Hk Ha) as ->. destruct Hau as [Hs|[Hs|Hs]].
    + eapply guarded_written; [exact Hf|exact Hg|exact Ha'|done|done|]. destruct Hg. lia.
    + destruct Hg as [_ _ Ho _ _ _ _]. by rewrite Ho in Hs.
    + by destruct (unclosed _ _ _ _ Hg _ _ Ha Hs).
  - eapply kept; [exact Hg|exact Hf|]. apply not_in_1. by eapply not_mint.
  - eapply kept_or_gained; [exact Hg|exact Hf|exact Hb|exact Hd|lia|].
    intros Hkd. apply not_in_2; [by eapply not_mint|done].
  - eapply kept; [exact Hg|exact Hf|]. apply not_in_2; [by eapply not_mint|by eapply unspent].
  - pose proof (unclosed _ _ _ _ Hg _ _ Ha Hau) as Hks. destruct (decide (k = d)) as [->|Hkd].
    + eapply guarded_same; [apply Hf| |by exists g]. by rewrite decide_False in Hd.
    + eapply kept; [exact Hg|exact Hf|by apply not_in_2].
  - by eapply kept_or_gained; [exact Hg|exact Hf|exact Ha|exact Ha'|lia|apply not_in_1].
  - eapply kept; [exact Hg|exact Hf|]. apply not_in_1. intros ->.
    apply unpack_Ok in Hk as (_ & Hu' & Hi'). rewrite Hu in Hu'. injection Hu' as ->. cbn in Hi'.
    by rewrite Hi in Hi'.
  - eapply kept; [exact Hg|exact Hf|]. apply not_in_1. intros ->. by rewrite Hlen in Hl.
  - eapply kept; [exact Hg|exact Hf|]. apply not_in_1. intros ->. by rewrite Hlen in Hl.
Qed.

Lemma minted_unsigned k x : minted st k au x -> minted st' k au x.
Proof.
  intros [g Hg]. pose proof (is_has _ _ _ _ _ Hg) as Hk. pose proof (has_length _ _ _ Hk) as Hl.
  assert (forall j (a : Account), has st j a -> k <> j) as Hacc.
  { intros j a Ha ->. by apply (has_account_mint_ne _ _ _ _ _ Ha Hk). }
  assert (forall ks, frame ks st st' -> k ∉ ks -> minted st' k au x) as Hkept.
  { intros ks Hf Hks. eapply minted_frame; [done..|by exists g]. }
  destruct Hstep as [->|s d a b a' amt _ Ha Hb _ _ _ _ _ _ _ _ _ _ Hf _ _ _ _
    |k' a a' Ha _ _ _ _ Hf _ _|k' m m' Hm Hm' Hs _ Hf _ Hau
    |mk d m b auth amt Hm Hb _ _ _ Hauth Hsig _ _ _ _ _ Hf _
    |mk s m a a' amt Hm Ha _ _ _ Hamt Hle _ _ _ Hm' _ Hf _
    |s d a Ha _ _ _ Hd Hf _ _|k' a reserve _ Ha _ _ _ Hf _
    |k' a0 a rent Hlen _ _ _ _ _ _ _ _ Hf _|k' m0 m rent _ Hu Hi _ _ _ _ Hf _|k' x0' x' Hlen _ _ _ _ _ Hf _].
  - by exists g.
  - eapply Hkept; [exact Hf|apply not_in_2; by eapply Hacc].
  - eapply Hkept; [exact Hf|apply not_in_1; by eapply Hacc].
  - destruct (decide (k = k')) as [->|Hkk]; [|by eapply Hkept; [exact Hf|apply not_in_1]].
    pose proof (has_inj _ _ _ _ Hk Hm) as ->. destruct Hau as [Hsame|(j & Hj & Hsig)].
    + eapply minted_written; [exact Hf|exact Hg|exact Hm'|done|]. destruct Hg. lia.
    + destruct Hg as [_ _ Ha Hz _]. destruct Hj as [Hj|Hj]; [|congruence].
      rewrite Ha in Hj. injection Hj as ->. done.
  - destruct (decide (k = mk)) as [->|Hkk].
    + pose proof (has_inj _ _ _ _ Hk Hm) as ->. destruct Hg as [_ _ Ha _ _].
      rewrite Ha in Hauth. injection Hauth as ->. done.
    + eapply Hkept; [exact Hf|apply not_in_2; [done|by eapply Hacc]].
  - destruct (decide (k = mk)) as [->|Hkk].
    + pose proof (has_inj _ _ _ _ Hk Hm) as ->.
      eapply minted_written; [exact Hf|exact Hg|exact Hm'|done|]. cbn. destruct Hg. lia.
    + eapply Hkept; [exact Hf|apply not_in_2; [done|by eapply Hacc]].
  - destruct (decide (k = d)) as [->|Hkd].
    + eapply minted_same; [apply Hf| |by exists g]. rewrite decide_False in Hd; [done|].
      intros <-. by eapply Hacc.
    + eapply Hkept; [exact Hf|apply not_in_2; [by eapply Hacc|done]].
  - eapply Hkept; [exact Hf|apply not_in_1; by eapply Hacc].
  - eapply Hkept; [exact Hf|]. apply not_in_1. intros ->. by rewrite Hlen in Hl.
  - eapply Hkept; [exact Hf|]. apply not_in_1. intros ->.
    apply unpack_Ok in Hk as (_ & Hu' & Hi'). rewrite Hu in Hu'. injection Hu' as ->. cbn in Hi'.
    congruence.
  - eapply Hkept; [exact Hf|]. apply not_in_1. intros ->. by rewrite Hlen in Hl.
Qed.
End Unsigned.
End Guard.
