(* ===== verification/ProgramAddress.v ===== *)
(** * Program addresses and signed invocations

    Models the addresses programs derive for themselves
    ([src/testnet/sdk/program/src/pubkey.rs], [create_program_address] and
    [find_program_address]) and the invocation of a program on the account
    store with such addresses as signers: [invoke_signed] of [program.rs], which
    is a system call ([call] in [src/testnet/programs/bpf_loader/src/syscalls.rs]).
    The hash function and the test for points of the curve come from crates that
    are not in the repository and are parameters; the borrow checks of the account
    cells and the copying between the memories of the two programs are left out.

    An invocation hands the accounts of the instruction to the program, with the
    privileges the instruction asks for, and stands only if these privileges are
    held by the caller and the runtime's account checks pass
    ([Runtime.verify_instruction]); a failed invocation ends the caller with its
    error. *)

From stdpp Require Import base gmap list fin_maps.
From Stdlib Require Import ZArith Lia.
From S2P Require Import Prelude Sdk Runtime KeyedAccount Message SystemProgram.

Definition MAX_SEEDS : nat := 16.

(** A program's error as the runtime reports it. *)
Definition returned (e : ProgramError) : InstructionError.t :=
  InstructionError_from (ProgramError_to_u64 e).

Section Address.
Context (hashv : list (list Z) -> Hash).
Context (bytes_are_curve_point : Hash -> bool).

(** The hasher takes the seeds one after the other. *)
Definition create_program_address (seeds : list (list Z)) (program_id : Pubkey)
  : result PubkeyError.t Pubkey :=
  fail_if (Nat.ltb MAX_SEEDS (length seeds)) PubkeyError.MaxSeedLengthExceeded ;;
  fail_if (existsb (fun s => Nat.ltb MAX_SEED_LEN (length s)) seeds)
    PubkeyError.MaxSeedLengthExceeded ;;
  let hash := hashv (seeds ++ [program_id; PDA_MARKER]) in
  fail_if (bytes_are_curve_point hash) PubkeyError.InvalidSeeds ;;
  panic_unless (Nat.eqb (length hash) 32) ;;
  Ok hash.

(** The loop over bump seeds, from [bump_seed] downwards. *)
Fixpoint find_bump (n : nat) (seeds : list (list Z)) (program_id : Pubkey) (bump_seed : Z)
  : result unit (Pubkey * Z) :=
  match n with
  | O => Err tt
  | S n =>
      match create_program_address (seeds ++ [[bump_seed]]) program_id with
      | Ok address => Ok (address, bump_seed)
      | Err PubkeyError.InvalidSeeds => find_bump n seeds program_id (bump_seed - 1)
      | Err _ => Err tt
      | Panic => Panic
      end
  end.

Definition try_find_program_address (seeds : list (list Z)) (program_id : Pubkey)
  : result unit (Pubkey * Z) := find_bump 255 seeds program_id 255.

Definition find_program_address {E} (seeds : list (list Z)) (program_id : Pubkey)
  : result E (Pubkey * Z) :=
  match try_find_program_address seeds program_id with Ok x => Ok x | _ => Panic end.

(** A bump seed that was found derives the address. *)
Lemma find_bump_derives n seeds pid b a bump :
  find_bump n seeds pid b = Ok (a, bump) ->
  create_program_address (seeds ++ [[bump]]) pid = Ok a /\ b - Z.of_nat n < bump <= b.
Proof.
  revert b. induction n as [|n IH]; intros b H; [done|]. cbn [find_bump] in H.
  destruct (create_program_address (seeds ++ [[b]]) pid) as [a'|[]|] eqn:E; try done.
  - inv_ok. split; [done|lia].
  - apply IH in H as [? ?]. split; [done|lia].
Qed.

Lemma find_program_address_derives {E} seeds pid a bump :
  find_program_address (E := E) seeds pid = Ok (a, bump) ->
  create_program_address (seeds ++ [[bump]]) pid = Ok a /\ 0 < bump <= 255.
Proof.
  unfold find_program_address, try_find_program_address.
  destruct (find_bump 255 seeds pid 255) as [[a' b']| |] eqn:E'; intros H; inv_ok.
  apply find_bump_derives in E' as [? ?]. split; [done|lia].
Qed.

(** ** Invocation *)

(** The account an instruction names, as the invoked program gets it: found
    among the accounts passed, with the privileges that the instruction's
    entries for its address ask for, if the caller holds them. *)
Definition callee_info (infos : list AccountInfo) (signers : list Pubkey)
    (metas : list AccountMeta) (x : AccountMeta) : instruction_result AccountInfo :=
  '(_, i) ← ok_or (list_find (fun i => key i = pubkey x) infos) InstructionError.MissingAccount;
  fail_if (meta_is_writable x && negb (is_writable i)) InstructionError.PrivilegeEscalation ;;
  fail_if (meta_is_signer x && negb (is_signer i || bool_decide (pubkey x ∈ signers)))
    InstructionError.PrivilegeEscalation ;;
  Ok {| key := pubkey x;
        is_signer := existsb (fun y => bool_decide (pubkey y = pubkey x) && meta_is_signer y) metas;
        is_writable := existsb (fun y => bool_decide (pubkey y = pubkey x) && meta_is_writable y) metas |}.

(** [process] is the entry point of the invoked program, [program_id] the
    caller. *)
Definition invoke_signed (rent : Rent) (realloc : bool)
    (process : list AccountInfo -> list Z -> store -> program_result store)
    (caller : Pubkey) (ix : Instruction) (infos : list AccountInfo)
    (signers_seeds : list (list (list Z))) (st : store) : instruction_result store :=
  signers ← map_result (fun s => map_err (fun _ => InstructionError.ProgramFailedToComplete)
                               (create_program_address s caller))
              signers_seeds;
  callee ← map_result (callee_info infos signers (ix_accounts ix)) (ix_accounts ix);
  _ ← ok_or (list_find (fun i => key i = program_id ix) infos) InstructionError.MissingAccount;
  st' ← map_err returned (process callee (ix_data ix) st);
  verify_instruction (program_id ix) rent realloc callee st st' ;;
  Ok st'.
End Address.
