(* ===== verification/TokenClient.v ===== *)
(** * Calling the token program

    Models the constructors of instructions in
    [src/solana-program-library/token/program/src/instruction.rs] that other
    programs of the repository use, and an invocation of the token program
    ([TokenProcessor.process]) with the addresses its caller derives as signers. *)

From stdpp Require Import base gmap list fin_maps strings.
From Stdlib Require Import ZArith Lia.
From S2P Require Import Prelude Sdk Runtime KeyedAccount Message SystemProgram.
From S2P Require Import TokenState TokenInstruction TokenProcessor ProgramAddress.

(** [spl_token::id()] *)
Definition spl_token_id : Pubkey :=
  Eval vm_compute in declare_id "TokenkegQfeZyiNwAJbNbGKPFXCWuBvf9Ss623VQ5DA".

(** ** Instructions of the token program *)
Definition check_program_account (spl_token_program_id : Pubkey) : program_result unit :=
  fail_if (negb (bool_decide (spl_token_program_id = spl_token_id))) IncorrectProgramId.

(** [AccountMeta::new(k, false)] and [AccountMeta::new_readonly(k, false)] *)
Definition writable_meta (k : Pubkey) : AccountMeta :=
  {| pubkey := k; meta_is_signer := false; meta_is_writable := true |}.
Definition readonly_meta (k : Pubkey) : AccountMeta :=
  {| pubkey := k; meta_is_signer := false; meta_is_writable := false |}.

(** The accounts of a transfer, a mint or a burn: two writable ones and the
    authority, which signs unless other signers are given. *)
Definition authority_metas (k1 k2 authority : Pubkey) (signers : list Pubkey) : list AccountMeta :=
  [writable_meta k1; writable_meta k2;
   {| pubkey := authority; meta_is_signer := bool_decide (signers = []); meta_is_writable := false |}] ++
  ((fun s => {| pubkey := s; meta_is_signer := true; meta_is_writable := false |}) <$> signers).

Definition token_instruction (token_program_id k1 k2 authority : Pubkey) (signers : list Pubkey)
    (i : TokenInstruction.t) : program_result Instruction :=
  check_program_account token_program_id ;;
  Ok {| program_id := token_program_id;
        ix_accounts := authority_metas k1 k2 authority signers;
        ix_data := TokenInstruction.pack i |}.

Definition transfer (token_program_id source destination authority : Pubkey)
    (signers : list Pubkey) (amount : Z) : program_result Instruction :=
  token_instruction token_program_id source destination authority signers
    (TokenInstruction.Transfer amount).
Definition mint_to (token_program_id mint account owner : Pubkey) (signers : list Pubkey)
    (amount : Z) : program_result Instruction :=
  token_instruction token_program_id mint account owner signers (TokenInstruction.MintTo amount).
Definition burn (token_program_id account mint authority : Pubkey) (signers : list Pubkey)
    (amount : Z) : program_result Instruction :=
  token_instruction token_program_id account mint authority signers (TokenInstruction.Burn amount).

Definition initialize_mint (token_program_id mint mint_authority : Pubkey)
    (freeze_authority : option Pubkey) (decimals : Z) : program_result Instruction :=
  check_program_account token_program_id ;;
  Ok {| program_id := token_program_id;
        ix_accounts := [writable_meta mint; readonly_meta rent_sysvar_id];
        ix_data := TokenInstruction.pack
                     (TokenInstruction.InitializeMint decimals mint_authority freeze_authority) |}.
Definition initialize_account (token_program_id account mint owner : Pubkey)
  : program_result Instruction :=
  check_program_account token_program_id ;;
  Ok {| program_id := token_program_id;
        ix_accounts := [writable_meta account; readonly_meta mint; readonly_meta owner;
                        readonly_meta rent_sysvar_id];
        ix_data := TokenInstruction.pack TokenInstruction.InitializeAccount |}.

(** An invocation of the token program by [caller], which signs with the
    addresses it derives from the seeds. *)
Definition call_token (hashv : list (list Z) -> Hash) (bytes_are_curve_point : Hash -> bool)
    (deserialize_rent : list Z -> option Rent) (rent_get : program_result Rent)
    (rent : Rent) (realloc : bool) (caller : Pubkey) (ix : Instruction) (infos : list AccountInfo)
    (signers_seeds : list (list (list Z))) (st : store) : instruction_result store :=
  invoke_signed hashv bytes_are_curve_point rent realloc
    (process deserialize_rent rent_get (program_id ix)) caller ix infos signers_seeds st.
