(* ===== verification/TokenCalls.v ===== *)
(** * What an accepted call of the token program does

    For a program that calls the token program ([TokenClient.call_token]): the
    call is a run of the token program that the runtime accepts, hence a step of
    the token ledger ([TokenLedger.ledger_step]), and it is signed only by
    accounts that signed the transaction or by addresses the caller derives. *)

From stdpp Require Import base gmap list fin_maps relations strings.
From Stdlib Require Import ZArith Lia.
From S2P Require Import Prelude Sdk Runtime KeyedAccount Message SystemProgram.
From S2P Require Import TokenState TokenInstruction TokenProcessor TokenStore TokenAuthority TokenSpec TokenEffects TokenLedger.
From S2P Require Import ProgramAddress TokenClient.

Section Calls.
Context (hashv : list (list Z) -> Hash).
Context (bytes_are_curve_point : Hash -> bool).
Context (deserialize_rent : list Z -> option Rent) (rent_get : program_result Rent).
Context (rent : Rent) (realloc : bool).
Context (caller : Pubkey).
Implicit Types (st : store) (infos callee : list AccountInfo) (seeds : list (list (list Z))).

Abbreviation step := (ledger_step spl_token_id deserialize_rent rent_get).
Abbreviation call :=
  (call_token hashv bytes_are_curve_point deserialize_rent rent_get rent realloc caller).

(** [k] signed the transaction, or is an address the caller derives. *)
Definition vouched infos seeds (k : Pubkey) : Prop :=
  (exists i, i ∈ infos /\ key i = k /\ is_signer i = true) \/
  exists s, s ∈ seeds /\ create_program_address hashv bytes_are_curve_point s caller = Ok k.

(** The accounts the token program gets: those named, each with a signature
    only if it is vouched for. *)
Definition handed infos seeds (metas : list AccountMeta) callee : Prop :=
  Forall2 (fun x i => key i = pubkey x /\ (meta_is_signer x = true -> is_signer i = true)) metas callee /\
  wf_infos callee /\ forall i, i ∈ callee -> is_signer i = true -> vouched infos seeds (key i).

Lemma callee_info_Ok infos signers metas x i :
  callee_info infos signers metas x = Ok i ->
  key i = pubkey x /\
  is_signer i = existsb (fun y => bool_decide (pubkey y = pubkey x) && meta_is_signer y) metas /\
  exists j, j ∈ infos /\ key j = pubkey x /\
    (meta_is_signer x = true -> is_signer j = true \/ pubkey x ∈ signers).
Proof.
  unfold callee_info. intros H. inv_ok. split; [done|]. split; [done|].
  match goal with Hf : list_find _ _ = Some _ |- _ =>
    apply list_find_Some in Hf as (Hl & Hk & _) end.
  eexists. split; [by eapply list_elem_of_lookup_2|]. split; [done|]. intros Hs.
  match goal with Hg : meta_is_signer x && _ = false |- _ => rewrite Hs in Hg; cbn in Hg end.
  to_prop. intuition (to_prop; auto).
Qed.

Lemma derived_signers seeds signers k :
  map_result (fun s => map_err (fun _ => InstructionError.ProgramFailedToComplete)
    (create_program_address hashv bytes_are_curve_point s caller)) seeds = Ok signers ->
  k ∈ signers -> exists s, s ∈ seeds /\ create_program_address hashv bytes_are_curve_point s caller = Ok k.
Proof.
  rewrite map_result_Ok. intros HF [i Hi]%list_elem_of_lookup_1.
  eapply Forall2_lookup_r in HF as (s & Hs & Hk); [|exact Hi].
  exists s. split; [by eapply list_elem_of_lookup_2|]. by inv_ok.
Qed.

Lemma named_infos infos signers metas xs callee :
  Forall2 (fun x i => callee_info infos signers metas x = Ok i) xs callee ->
  (forall x, x ∈ xs -> x ∈ metas) -> wf_infos infos ->
  Forall2 (fun x i => key i = pubkey x /\ (meta_is_signer x = true -> is_signer i = true)) xs callee /\
  wf_infos callee.
Proof.
  intros HF Hin Hk. induction HF as [|x i xs callee Hi _ IH]; [by split; constructor|].
  destruct IH as [IH1 IH2]; [intros y Hy; apply Hin; by right|].
  apply callee_info_Ok in Hi as (Hki & Hs & j & Hj & Hkj & _).
  split; constructor; try done.
  - split; [done|]. intros Hx. rewrite Hs. apply existsb_exists. exists x.
    split; [apply list_elem_of_In, Hin; by left|]. by rewrite Hx, bool_decide_eq_true_2.
  - rewrite Hki, <- Hkj. exact (proj1 (Forall_forall _ _) Hk j Hj).
Qed.

(** An accepted call is a run of the token program that the runtime accepts. *)
Lemma call_token_run ix infos seeds st st' :
  call ix infos seeds st = Ok st' -> wf_infos infos ->
  exists callee, handed infos seeds (ix_accounts ix) callee /\
    TokenProcessor.process deserialize_rent rent_get (program_id ix) callee (ix_data ix) st = Ok st' /\
    verify_instruction (program_id ix) rent realloc callee st st' = Ok tt.
Proof.
  unfold call_token, invoke_signed. intros H Hk. inv_ok.
  match goal with Hs : map_result _ seeds = Ok ?s, Hc : map_result _ (ix_accounts ix) = Ok ?c,
    Hv : verify_instruction _ _ _ _ _ _ = Ok ?u |- _ =>
    destruct u; exists c; rewrite map_result_Ok in Hc; rename Hs into Hder, Hc into Hcal end.
  destruct (named_infos _ _ _ _ _ Hcal) as [Hn Hw]; [done..|].
  split; [|done]. split_and!; [done..|]. intros i [n Hi]%list_elem_of_lookup_1 Hs.
  pose proof (Forall2_lookup_r _ _ _ _ _ Hcal Hi) as (y & _ & (Hky & Hsy & _)%callee_info_Ok).
  rewrite Hsy in Hs. apply existsb_exists in Hs as (z & Hz & Hyz). to_prop.
  apply list_elem_of_In, list_elem_of_lookup_1 in Hz as [n' Hz].
  destruct (Forall2_lookup_l _ _ _ _ _ Hcal Hz) as (w & _ & (_ & _ & j & Hj & Hkj & Hv)%callee_info_Ok).
  destruct Hv as [Hv|Hv]; [done|left; exists j; split_and!; [done|congruence|done]|right].
  eapply derived_signers; [exact Hder|congruence].
Qed.

Lemma call_token_step ix infos seeds st st' :
  call ix infos seeds st = Ok st' -> wf_infos infos -> program_id ix = spl_token_id ->
  bytes (ix_data ix) -> step st st'.
Proof.
  intros H Hk Hp Hb. apply call_token_run in H as (callee & (_ & Hw & _) & Hr & Hv); [|done].
  rewrite Hp in *. by apply (L_token _ _ _ _ _ _ _ _ _ Hw Hb Hr Hv).
Qed.

Lemma process_pack pid callee i st st' :
  TokenProcessor.process deserialize_rent rent_get pid callee (TokenInstruction.pack i) st = Ok st' ->
  TokenInstruction.wf i ->
  process_instruction deserialize_rent rent_get pid callee i st = Ok st'.
Proof. intros H Hi. unfold TokenProcessor.process in H. by rewrite TokenInstruction.unpack_pack_wf in H. Qed.

(** The accounts of a transfer, a mint or a burn. *)
Lemma handed_authority infos seeds k1 k2 au callee :
  handed infos seeds (authority_metas k1 k2 au []) callee ->
  vouched infos seeds au /\
  exists i1 i2 i3, callee = [i1; i2; i3] /\ key i1 = k1 /\ key i2 = k2 /\ key i3 = au.
Proof.
  intros (HF & _ & Hv). unfold authority_metas in HF. cbn in HF.
  apply Forall2_cons_inv_l in HF as (i1 & ? & [? _] & HF & ->).
  apply Forall2_cons_inv_l in HF as (i2 & ? & [? _] & HF & ->).
  apply Forall2_cons_inv_l in HF as (i3 & ? & [Hk Hs] & HF & ->).
  apply Forall2_nil_inv_l in HF as ->. cbn in *. split; [|by exists i1, i2, i3].
  rewrite <- Hk. apply Hv; [do 2 right; by left|by apply Hs].
Qed.

Lemma token_instruction_Ok tp k1 k2 au signers i ix :
  token_instruction tp k1 k2 au signers i = Ok ix ->
  tp = spl_token_id /\
  ix = {| program_id := spl_token_id; ix_accounts := authority_metas k1 k2 au signers;
          ix_data := TokenInstruction.pack i |}.
Proof. unfold token_instruction, check_program_account. intros H. inv_ok. by to_prop; subst. Qed.
End Calls.
