(* ===== verification/SwapMath.v ===== *)
(** * Arithmetic of the swap program

    Models [src/solana-program-library/libraries/math/src]: ceiling division
    ([checked_ceil_div.rs]) and [PreciseNumber] ([precise_number.rs]), decimal
    numbers with twelve fractional digits over 256-bit integers, with the square
    root by Newton's method.  The 256-bit integers come from the [uint] crate,
    whose checked operations fail on overflow and whose [as_u128] panics.

    Functions that return [Option] in the source are [opt] here: [Err tt] for
    [None], [Panic] for a panic. *)

From stdpp Require Import base list.
From Stdlib Require Import ZArith Lia.
From S2P Require Import Prelude.

Abbreviation opt := (result unit).

(** [o?] in a function that returns [Option] *)
Definition try_ {A} (o : option A) : opt A := ok_or o tt.

Lemma try_Ok {A} (o : option A) a : try_ o = Ok a <-> o = Some a.
Proof. apply ok_or_Ok. Qed.

Definition u256_max : Z := 2 ^ 256 - 1.
Abbreviation is_u256 z := (0 <= z <= u256_max).

Definition checked_rem (a b : Z) : option Z := if b =? 0 then None else Some (a mod b).

(** [U256::as_u128] *)
Definition as_u128 (v : Z) : opt Z := if v <=? u128_max then Ok v else Panic.

(** ** Ceiling division, the quotient and the divisor adjusted to it

    One definition for [u128] and [U256], of which [max] is the largest value. *)
Definition checked_ceil_div (max self rhs : Z) : option (Z * Z) :=
  quotient ← checked_div self rhs;
  if quotient =? 0 then None
  else
    remainder ← checked_rem self rhs;
    if 0 <? remainder then
      quotient ← checked_add max quotient 1;
      rhs ← checked_div self quotient;
      remainder ← checked_rem self quotient;
      rhs ← (if 0 <? remainder then checked_add max rhs 1 else Some rhs);
      Some (quotient, rhs)
    else Some (quotient, rhs).

(** ** Precise numbers *)
Record PreciseNumber := { value : Z }.

Module PreciseNumber.
Definition ONE : Z := 1000000000000.
Definition rounding_correction : Z := ONE / 2.
Definition precision : Z := 100.
Definition zero : PreciseNumber := {| value := 0 |}.
Definition MAX_APPROXIMATION_ITERATIONS : nat := 100.

Definition new (v : Z) : opt PreciseNumber :=
  v ← try_ (checked_mul u256_max v ONE);
  Ok {| value := v |}.

Definition to_imprecise (self : PreciseNumber) : opt Z :=
  v ← try_ (checked_add u256_max (value self) rounding_correction);
  v ← try_ (checked_div v ONE);
  as_u128 v.

(** The absolute difference, and whether it is negative. *)
Definition unsigned_sub (self rhs : PreciseNumber) : PreciseNumber * bool :=
  match checked_sub (value self) (value rhs) with
  | None => ({| value := value rhs - value self |}, true)
  | Some v => ({| value := v |}, false)
  end.

Definition almost_eq (self rhs : PreciseNumber) (precision : Z) : bool :=
  value (fst (unsigned_sub self rhs)) <? precision.

Definition less_than (self rhs : PreciseNumber) : bool := value self <? value rhs.
Definition greater_than (self rhs : PreciseNumber) : bool := value rhs <? value self.

Definition floor (self : PreciseNumber) : opt PreciseNumber :=
  v ← try_ (checked_div (value self) ONE);
  v ← try_ (checked_mul u256_max v ONE);
  Ok {| value := v |}.

Definition ceiling (self : PreciseNumber) : opt PreciseNumber :=
  d ← try_ (checked_sub ONE 1);
  v ← try_ (checked_add u256_max (value self) d);
  v ← try_ (checked_div v ONE);
  v ← try_ (checked_mul u256_max v ONE);
  Ok {| value := v |}.

Definition checked_div (self rhs : PreciseNumber) : opt PreciseNumber :=
  if value rhs =? 0 then Err tt
  else
    match checked_mul u256_max (value self) ONE with
    | Some v =>
        v ← try_ (checked_add u256_max v rounding_correction);
        v ← try_ (checked_div v (value rhs));
        Ok {| value := v |}
    | None =>
        v ← try_ (checked_add u256_max (value self) rounding_correction);
        v ← try_ (checked_div v (value rhs));
        v ← try_ (checked_mul u256_max v ONE);
        Ok {| value := v |}
    end.

Definition checked_mul (self rhs : PreciseNumber) : opt PreciseNumber :=
  match checked_mul u256_max (value self) (value rhs) with
  | Some v =>
      v ← try_ (checked_add u256_max v rounding_correction);
      v ← try_ (Prelude.checked_div v ONE);
      Ok {| value := v |}
  | None =>
      if value rhs <=? value self then
        v ← try_ (Prelude.checked_div (value self) ONE);
        v ← try_ (Prelude.checked_mul u256_max v (value rhs));
        Ok {| value := v |}
      else
        v ← try_ (Prelude.checked_div (value rhs) ONE);
        v ← try_ (Prelude.checked_mul u256_max v (value self));
        Ok {| value := v |}
  end.

Definition checked_add (self rhs : PreciseNumber) : opt PreciseNumber :=
  v ← try_ (checked_add u256_max (value self) (value rhs));
  Ok {| value := v |}.

Definition checked_sub (self rhs : PreciseNumber) : opt PreciseNumber :=
  v ← try_ (checked_sub (value self) (value rhs));
  Ok {| value := v |}.

(** The loop of [checked_pow]; an exponent below [2 ^ n] needs [n] turns. *)
Fixpoint pow_loop (fuel : nat) (result squared_base : PreciseNumber) (current_exponent : Z)
  : opt PreciseNumber :=
  if current_exponent =? 0 then Ok result
  else match fuel with
  | O => Ok result
  | S fuel =>
      squared_base ← checked_mul squared_base squared_base;
      result ← (if negb (current_exponent mod 2 =? 0) then checked_mul result squared_base
                else Ok result);
      pow_loop fuel result squared_base (current_exponent / 2)
  end.

Definition checked_pow (self : PreciseNumber) (exponent : Z) : opt PreciseNumber :=
  let result := if exponent mod 2 =? 0 then {| value := ONE |} else self in
  pow_loop 128 result self (exponent / 2).

(** One turn: [((n - 1) * x + A / (x ^ (n - 1))) / n] *)
Definition newton_step (self root root_minus_one : PreciseNumber) (root_minus_one_whole : Z)
    (guess : PreciseNumber) : opt PreciseNumber :=
  first_term ← checked_mul root_minus_one guess;
  second_term ←
    match checked_pow guess root_minus_one_whole with
    | Ok num => checked_div self num
    | Err _ => new 0
    | Panic => Panic
    end;
  s ← checked_add first_term second_term;
  checked_div s root.

Fixpoint newton_loop (iterations : nat) (self root root_minus_one : PreciseNumber)
    (root_minus_one_whole : Z) (guess last_guess : PreciseNumber) : opt PreciseNumber :=
  match iterations with
  | O => Ok guess
  | S iterations =>
      guess ← newton_step self root root_minus_one root_minus_one_whole guess;
      if almost_eq last_guess guess precision then Ok guess
      else newton_loop iterations self root root_minus_one root_minus_one_whole guess guess
  end.

Definition newtonian_root_approximation (self root guess : PreciseNumber) (iterations : nat)
  : opt PreciseNumber :=
  if value self =? 0 then Ok zero
  else if value root =? 0 then Err tt
  else
    one ← new 1;
    root_minus_one ← checked_sub root one;
    root_minus_one_whole ← to_imprecise root_minus_one;
    newton_loop iterations self root root_minus_one root_minus_one_whole guess guess.

Definition minimum_sqrt_base : PreciseNumber := {| value := 0 |}.
Definition maximum_sqrt_base : PreciseNumber := {| value := u128_max * ONE |}.

Definition sqrt (self : PreciseNumber) : opt PreciseNumber :=
  if less_than self minimum_sqrt_base || greater_than self maximum_sqrt_base then Err tt
  else
    two ← new 2;
    one ← new 1;
    s ← checked_add self one;
    guess ← checked_div s two;
    newtonian_root_approximation self two guess MAX_APPROXIMATION_ITERATIONS.
End PreciseNumber.
