(* ===== verification/SwapCurve.v ===== *)
(** * Swap program: fees and curves

    Models [src/solana-program-library/token-swap/program/src/curve]: the fees
    of a pool ([fees.rs]), the four price curves ([constant_product.rs],
    [constant_price.rs], [stable.rs], [offset.rs]) behind the trait of
    [calculator.rs], and the swap with fees of [base.rs].  A trait object of the
    source is an element of [Calculator]; its methods dispatch on it. *)

From stdpp Require Import base list.
From Stdlib Require Import ZArith Lia.
From S2P Require Import Prelude SwapMath.

(** ** Errors *)
Module SwapError.
Inductive t :=
| AlreadyInUse | InvalidProgramAddress | InvalidOwner | InvalidOutputOwner | ExpectedMint
| ExpectedAccount | EmptySupply | InvalidSupply | InvalidDelegate | InvalidInput
| IncorrectSwapAccount | IncorrectPoolMint | InvalidOutput | CalculationFailure
| InvalidInstruction | RepeatedMint | ExceededSlippage | InvalidCloseAuthority
| InvalidFreezeAuthority | IncorrectFeeAccount | ZeroTradingTokens | FeeCalculationFailure
| ConversionFailure | InvalidFee | IncorrectTokenProgramId | UnsupportedCurveType
| InvalidCurve | UnsupportedCurveOperation.

(** [e as u32] *)
Definition discriminant (e : t) : Z :=
  match e with
  | AlreadyInUse => 0 | InvalidProgramAddress => 1 | InvalidOwner => 2
  | InvalidOutputOwner => 3 | ExpectedMint => 4 | ExpectedAccount => 5 | EmptySupply => 6
  | InvalidSupply => 7 | InvalidDelegate => 8 | InvalidInput => 9
  | IncorrectSwapAccount => 10 | IncorrectPoolMint => 11 | InvalidOutput => 12
  | CalculationFailure => 13 | InvalidInstruction => 14 | RepeatedMint => 15
  | ExceededSlippage => 16 | InvalidCloseAuthority => 17 | InvalidFreezeAuthority => 18
  | IncorrectFeeAccount => 19 | ZeroTradingTokens => 20 | FeeCalculationFailure => 21
  | ConversionFailure => 22 | InvalidFee => 23 | IncorrectTokenProgramId => 24
  | UnsupportedCurveType => 25 | InvalidCurve => 26 | UnsupportedCurveOperation => 27
  end.
End SwapError.

Inductive TradeDirection := AtoB | BtoA.
Inductive RoundDirection := Floor | Ceiling.

Record SwapWithoutFeesResult := {
  source_amount_swapped : Z;
  destination_amount_swapped : Z;
}.

Record TradingTokenResult := {
  token_a_amount : Z;
  token_b_amount : Z;
}.

Definition INITIAL_SWAP_POOL_AMOUNT : Z := 1000000000.

Definition map_zero_to_none (x : Z) : option Z := if x =? 0 then None else Some x.

(** ** Fees *)
Record Fees := {
  trade_fee_numerator : Z;
  trade_fee_denominator : Z;
  owner_trade_fee_numerator : Z;
  owner_trade_fee_denominator : Z;
  owner_withdraw_fee_numerator : Z;
  owner_withdraw_fee_denominator : Z;
  host_fee_numerator : Z;
  host_fee_denominator : Z;
}.

Definition calculate_fee (token_amount fee_numerator fee_denominator : Z) : option Z :=
  if (fee_numerator =? 0) || (token_amount =? 0) then Some 0
  else
    fee ← checked_mul u128_max token_amount fee_numerator;
    fee ← checked_div fee fee_denominator;
    if fee =? 0 then Some 1 else Some fee.

Definition validate_fraction (numerator denominator : Z) : result SwapError.t unit :=
  if (denominator =? 0) && (numerator =? 0) then Ok tt
  else if denominator <=? numerator then Err SwapError.InvalidFee
  else Ok tt.

Definition owner_withdraw_fee (f : Fees) (pool_tokens : Z) : option Z :=
  calculate_fee pool_tokens (owner_withdraw_fee_numerator f) (owner_withdraw_fee_denominator f).
Definition trading_fee (f : Fees) (trading_tokens : Z) : option Z :=
  calculate_fee trading_tokens (trade_fee_numerator f) (trade_fee_denominator f).
Definition owner_trading_fee (f : Fees) (trading_tokens : Z) : option Z :=
  calculate_fee trading_tokens (owner_trade_fee_numerator f) (owner_trade_fee_denominator f).
Definition host_fee (f : Fees) (owner_fee : Z) : option Z :=
  calculate_fee owner_fee (host_fee_numerator f) (host_fee_denominator f).

Definition Fees_validate (f : Fees) : result SwapError.t unit :=
  validate_fraction (trade_fee_numerator f) (trade_fee_denominator f) ;;
  validate_fraction (owner_trade_fee_numerator f) (owner_trade_fee_denominator f) ;;
  validate_fraction (owner_withdraw_fee_numerator f) (owner_withdraw_fee_denominator f) ;;
  validate_fraction (host_fee_numerator f) (host_fee_denominator f).

(** ** The constant product curve *)
Module ConstantProduct.
Definition swap (source_amount swap_source_amount swap_destination_amount : Z)
  : option SwapWithoutFeesResult :=
  invariant ← checked_mul u128_max swap_source_amount swap_destination_amount;
  new_swap_source_amount ← checked_add u128_max swap_source_amount source_amount;
  '(new_swap_destination_amount, new_swap_source_amount) ←
    checked_ceil_div u128_max invariant new_swap_source_amount;
  source_amount_swapped ← checked_sub new_swap_source_amount swap_source_amount;
  d ← checked_sub swap_destination_amount new_swap_destination_amount;
  destination_amount_swapped ← map_zero_to_none d;
  Some {| source_amount_swapped := source_amount_swapped;
          destination_amount_swapped := destination_amount_swapped |}.

(** The share of one trading token.  The increment of the source cannot
    overflow: the amount is at most the product divided by a supply that
    leaves a remainder, so the supply is not one. *)
Definition round_up (product pool_token_supply amount : Z) : option Z :=
  remainder ← checked_rem product pool_token_supply;
  Some (if (0 <? remainder) && (0 <? amount) then wrapping_add u128_max amount 1 else amount).

Definition pool_tokens_to_trading_tokens (pool_tokens pool_token_supply swap_token_a_amount
    swap_token_b_amount : Z) (round_direction : RoundDirection) : option TradingTokenResult :=
  pa ← checked_mul u128_max pool_tokens swap_token_a_amount;
  token_a_amount ← checked_div pa pool_token_supply;
  pb ← checked_mul u128_max pool_tokens swap_token_b_amount;
  token_b_amount ← checked_div pb pool_token_supply;
  '(token_a_amount, token_b_amount) ←
    match round_direction with
    | Floor => Some (token_a_amount, token_b_amount)
    | Ceiling =>
        a ← round_up pa pool_token_supply token_a_amount;
        b ← round_up pb pool_token_supply token_b_amount;
        Some (a, b)
    end;
  Some {| token_a_amount := token_a_amount; token_b_amount := token_b_amount |}.

Definition round_pool_tokens (round_direction : RoundDirection) (n : PreciseNumber) : opt Z :=
  n ← match round_direction with
      | Floor => PreciseNumber.floor n
      | Ceiling => PreciseNumber.ceiling n
      end;
  PreciseNumber.to_imprecise n.

Definition deposit_single_token_type (source_amount swap_token_a_amount swap_token_b_amount
    pool_supply : Z) (trade_direction : TradeDirection) (round_direction : RoundDirection)
  : opt Z :=
  let swap_source_amount :=
    match trade_direction with AtoB => swap_token_a_amount | BtoA => swap_token_b_amount end in
  swap_source_amount ← PreciseNumber.new swap_source_amount;
  source_amount ← PreciseNumber.new source_amount;
  ratio ← PreciseNumber.checked_div source_amount swap_source_amount;
  one ← PreciseNumber.new 1;
  base ← PreciseNumber.checked_add one ratio;
  r ← PreciseNumber.sqrt base;
  root ← PreciseNumber.checked_sub r one;
  pool_supply ← PreciseNumber.new pool_supply;
  pool_tokens ← PreciseNumber.checked_mul pool_supply root;
  round_pool_tokens round_direction pool_tokens.

Definition withdraw_single_token_type_exact_out (source_amount swap_token_a_amount
    swap_token_b_amount pool_supply : Z) (trade_direction : TradeDirection)
    (round_direction : RoundDirection) : opt Z :=
  let swap_source_amount :=
    match trade_direction with AtoB => swap_token_a_amount | BtoA => swap_token_b_amount end in
  swap_source_amount ← PreciseNumber.new swap_source_amount;
  source_amount ← PreciseNumber.new source_amount;
  ratio ← PreciseNumber.checked_div source_amount swap_source_amount;
  one ← PreciseNumber.new 1;
  base ← PreciseNumber.checked_sub one ratio;
  r ← PreciseNumber.sqrt base;
  root ← PreciseNumber.checked_sub one r;
  pool_supply ← PreciseNumber.new pool_supply;
  pool_tokens ← PreciseNumber.checked_mul pool_supply root;
  round_pool_tokens round_direction pool_tokens.

Definition normalized_value (swap_token_a_amount swap_token_b_amount : Z) : opt PreciseNumber :=
  a ← PreciseNumber.new swap_token_a_amount;
  b ← PreciseNumber.new swap_token_b_amount;
  p ← PreciseNumber.checked_mul a b;
  PreciseNumber.sqrt p.
End ConstantProduct.

(** ** The constant price curve *)
Module ConstantPrice.
Definition trading_tokens_to_pool_tokens (token_b_price source_amount swap_token_a_amount
    swap_token_b_amount pool_supply : Z) (trade_direction : TradeDirection)
    (round_direction : RoundDirection) : opt Z :=
  given_value ←
    match trade_direction with
    | AtoB => Ok source_amount
    | BtoA => try_ (checked_mul u256_max source_amount token_b_price)
    end;
  v ← try_ (checked_mul u256_max swap_token_b_amount token_b_price);
  total_value ← try_ (checked_add u256_max v swap_token_a_amount);
  match round_direction with
  | Floor =>
      p ← try_ (checked_mul u256_max pool_supply given_value);
      q ← try_ (checked_div p total_value);
      as_u128 q
  | Ceiling =>
      p ← try_ (checked_mul u256_max pool_supply given_value);
      '(q, _) ← try_ (checked_ceil_div u256_max p total_value);
      as_u128 q
  end.

Definition swap_without_fees (token_b_price source_amount : Z) (trade_direction : TradeDirection)
  : option SwapWithoutFeesResult :=
  '(s, d) ←
    match trade_direction with
    | BtoA => d ← checked_mul u128_max source_amount token_b_price; Some (source_amount, d)
    | AtoB =>
        d ← checked_div source_amount token_b_price;
        remainder ← checked_rem source_amount token_b_price;
        s ← (if 0 <? remainder then checked_sub source_amount remainder else Some source_amount);
        Some (s, d)
    end;
  s ← map_zero_to_none s;
  d ← map_zero_to_none d;
  Some {| source_amount_swapped := s; destination_amount_swapped := d |}.

Definition normalized_value (token_b_price swap_token_a_amount swap_token_b_amount : Z)
  : opt PreciseNumber :=
  swap_token_b_value ← try_ (checked_mul u128_max swap_token_b_amount token_b_price);
  v ← (if saturating_sub u128_max u64_max <? saturating_sub swap_token_b_value u64_max then
         h ← try_ (checked_div swap_token_b_value 2);
         a ← try_ (checked_div swap_token_a_amount 2);
         try_ (checked_add u128_max h a)
       else
         s ← try_ (checked_add u128_max swap_token_a_amount swap_token_b_value);
         try_ (checked_div s 2));
  PreciseNumber.new v.

Definition pool_tokens_to_trading_tokens (token_b_price pool_tokens pool_token_supply
    swap_token_a_amount swap_token_b_amount : Z) (round_direction : RoundDirection)
  : opt TradingTokenResult :=
  n ← normalized_value token_b_price swap_token_a_amount swap_token_b_amount;
  total_value ← PreciseNumber.to_imprecise n;
  '(a, b) ←
    match round_direction with
    | Floor =>
        p ← try_ (checked_mul u128_max pool_tokens total_value);
        a ← try_ (checked_div p pool_token_supply);
        v ← try_ (checked_div p token_b_price);
        b ← try_ (checked_div v pool_token_supply);
        Ok (a, b)
    | Ceiling =>
        p ← try_ (checked_mul u128_max pool_tokens total_value);
        '(a, _) ← try_ (checked_ceil_div u128_max p pool_token_supply);
        '(v, _) ← try_ (checked_ceil_div u128_max p token_b_price);
        '(b, _) ← try_ (checked_ceil_div u128_max v pool_token_supply);
        Ok (a, b)
    end;
  Ok {| token_a_amount := a; token_b_amount := b |}.
End ConstantPrice.

(** ** The stable curve *)
Module Stable.
Definition N_COINS : Z := 2.
Definition N_COINS_SQUARED : Z := 4.
Definition ITERATIONS : nat := 32.

Definition compute_a (amp : Z) : option Z := checked_mul u64_max amp N_COINS.

(** [for _ in 1..b], with the result so far. *)
Fixpoint power_loop (n : nat) (a result : Z) : option Z :=
  match n with
  | O => Some result
  | S n => result ← checked_mul u256_max result a; power_loop n a result
  end.
Definition checked_u8_power (a b : Z) : option Z := power_loop (Z.to_nat (b - 1)) a a.

Fixpoint mul_loop (n : nat) (a result : Z) : option Z :=
  match n with
  | O => Some result
  | S n => result ← checked_add u256_max result a; mul_loop n a result
  end.
Definition checked_u8_mul (a b : Z) : option Z := mul_loop (Z.to_nat (b - 1)) a a.

Definition calculate_step (initial_d leverage sum_x d_product : Z) : option Z :=
  leverage_mul ← checked_mul u256_max leverage sum_x;
  d_p_mul ← checked_u8_mul d_product N_COINS;
  l ← checked_add u256_max leverage_mul d_p_mul;
  l_val ← checked_mul u256_max l initial_d;
  leverage_minus_one ← checked_sub leverage 1;
  leverage_sub ← checked_mul u256_max initial_d leverage_minus_one;
  n ← checked_add u8_max N_COINS 1;
  n_coins_sum ← checked_u8_mul d_product n;
  r_val ← checked_add u256_max leverage_sub n_coins_sum;
  checked_div l_val r_val.

Fixpoint d_loop (iterations : nat) (leverage sum_x amount_a_times_coins amount_b_times_coins d : Z)
  : option Z :=
  match iterations with
  | O => Some d
  | S iterations =>
      p ← checked_mul u256_max d d;
      d_product ← checked_div p amount_a_times_coins;
      p ← checked_mul u256_max d_product d;
      d_product ← checked_div p amount_b_times_coins;
      d' ← calculate_step d leverage sum_x d_product;
      if d' =? d then Some d'
      else d_loop iterations leverage sum_x amount_a_times_coins amount_b_times_coins d'
  end.

(** [u128::try_from(d).ok()] *)
Definition try_u128 (d : Z) : option Z := if d <=? u128_max then Some d else None.

Definition compute_d (leverage amount_a amount_b : Z) : option Z :=
  a ← checked_u8_mul amount_a N_COINS;
  amount_a_times_coins ← checked_add u256_max a 1;
  b ← checked_u8_mul amount_b N_COINS;
  amount_b_times_coins ← checked_add u256_max b 1;
  sum_x ← checked_add u128_max amount_a amount_b;
  if sum_x =? 0 then Some 0
  else
    d ← d_loop ITERATIONS leverage sum_x amount_a_times_coins amount_b_times_coins sum_x;
    try_u128 d.

Fixpoint y_loop (iterations : nat) (b c d_val y : Z) : option Z :=
  match iterations with
  | O => Some y
  | S iterations =>
      y2 ← checked_u8_power y 2;
      num ← checked_add u256_max y2 c;
      dy ← checked_u8_mul y 2;
      den ← checked_add u256_max dy b;
      den ← checked_sub den d_val;
      y' ← checked_div num den;
      if y' =? y then Some y' else y_loop iterations b c d_val y'
  end.

Definition compute_new_destination_amount (leverage new_source_amount d_val : Z) : option Z :=
  n ← checked_add u8_max N_COINS 1;
  d3 ← checked_u8_power d_val n;
  x4 ← checked_u8_mul new_source_amount N_COINS_SQUARED;
  den ← checked_mul u256_max x4 leverage;
  c ← checked_div d3 den;
  q ← checked_div d_val leverage;
  b ← checked_add u256_max new_source_amount q;
  y ← y_loop ITERATIONS b c d_val d_val;
  try_u128 y.

Definition swap_without_fees (amp source_amount swap_source_amount swap_destination_amount : Z)
  : option SwapWithoutFeesResult :=
  leverage ← compute_a amp;
  new_source_amount ← checked_add u128_max swap_source_amount source_amount;
  d ← compute_d leverage swap_source_amount swap_destination_amount;
  new_destination_amount ← compute_new_destination_amount leverage new_source_amount d;
  amount_swapped ← checked_sub swap_destination_amount new_destination_amount;
  Some {| source_amount_swapped := source_amount;
          destination_amount_swapped := amount_swapped |}.

(** The amounts of the token traded and of the other one. *)
Definition sides (trade_direction : TradeDirection) (a b : Z) : Z * Z :=
  match trade_direction with AtoB => (a, b) | BtoA => (b, a) end.

Definition deposit_single_token_type (amp source_amount swap_token_a_amount swap_token_b_amount
    pool_supply : Z) (trade_direction : TradeDirection) : opt Z :=
  if source_amount =? 0 then Ok 0
  else
    leverage ← try_ (compute_a amp);
    d0 ← try_ (compute_d leverage swap_token_a_amount swap_token_b_amount);
    d0 ← PreciseNumber.new d0;
    let '(deposit_token_amount, other_token_amount) :=
      sides trade_direction swap_token_a_amount swap_token_b_amount in
    updated ← try_ (checked_add u128_max deposit_token_amount source_amount);
    d1 ← try_ (compute_d leverage updated other_token_amount);
    d1 ← PreciseNumber.new d1;
    diff ← PreciseNumber.checked_sub d1 d0;
    s ← PreciseNumber.new pool_supply;
    p ← PreciseNumber.checked_mul diff s;
    final_amount ← PreciseNumber.checked_div p d0;
    n ← PreciseNumber.floor final_amount;
    PreciseNumber.to_imprecise n.

Definition withdraw_single_token_type_exact_out (amp source_amount swap_token_a_amount
    swap_token_b_amount pool_supply : Z) (trade_direction : TradeDirection) : opt Z :=
  if source_amount =? 0 then Ok 0
  else
    leverage ← try_ (compute_a amp);
    d0 ← try_ (compute_d leverage swap_token_a_amount swap_token_b_amount);
    d0 ← PreciseNumber.new d0;
    let '(withdraw_token_amount, other_token_amount) :=
      sides trade_direction swap_token_a_amount swap_token_b_amount in
    updated ← try_ (checked_sub withdraw_token_amount source_amount);
    d1 ← try_ (compute_d leverage updated other_token_amount);
    d1 ← PreciseNumber.new d1;
    diff ← PreciseNumber.checked_sub d0 d1;
    s ← PreciseNumber.new pool_supply;
    p ← PreciseNumber.checked_mul diff s;
    final_amount ← PreciseNumber.checked_div p d0;
    n ← PreciseNumber.ceiling final_amount;
    PreciseNumber.to_imprecise n.

Definition normalized_value (amp swap_token_a_amount swap_token_b_amount : Z) : opt PreciseNumber :=
  leverage ← try_ (compute_a amp);
  d ← try_ (compute_d leverage swap_token_a_amount swap_token_b_amount);
  PreciseNumber.new d.
End Stable.

(** ** Curves behind the trait [CurveCalculator] *)
Inductive Calculator :=
| ConstantProductCurve
| ConstantPriceCurve (token_b_price : Z)
| StableCurve (amp : Z)
| OffsetCurve (token_b_offset : Z).

Module Calculator.
Definition swap_without_fees (c : Calculator) (source_amount swap_source_amount
    swap_destination_amount : Z) (trade_direction : TradeDirection)
  : option SwapWithoutFeesResult :=
  match c with
  | ConstantProductCurve =>
      ConstantProduct.swap source_amount swap_source_amount swap_destination_amount
  | ConstantPriceCurve token_b_price =>
      ConstantPrice.swap_without_fees token_b_price source_amount trade_direction
  | StableCurve amp =>
      Stable.swap_without_fees amp source_amount swap_source_amount swap_destination_amount
  | OffsetCurve token_b_offset =>
      swap_source_amount ←
        match trade_direction with
        | AtoB => Some swap_source_amount
        | BtoA => checked_add u128_max swap_source_amount token_b_offset
        end;
      swap_destination_amount ←
        match trade_direction with
        | AtoB => checked_add u128_max swap_destination_amount token_b_offset
        | BtoA => Some swap_destination_amount
        end;
      ConstantProduct.swap source_amount swap_source_amount swap_destination_amount
  end.

Definition new_pool_supply (c : Calculator) : Z := INITIAL_SWAP_POOL_AMOUNT.

(** The stable curve repeats the code of the constant product curve. *)
Definition pool_tokens_to_trading_tokens (c : Calculator) (pool_tokens pool_token_supply
    swap_token_a_amount swap_token_b_amount : Z) (round_direction : RoundDirection)
  : opt TradingTokenResult :=
  match c with
  | ConstantProductCurve | StableCurve _ =>
      try_ (ConstantProduct.pool_tokens_to_trading_tokens pool_tokens pool_token_supply
              swap_token_a_amount swap_token_b_amount round_direction)
  | ConstantPriceCurve token_b_price =>
      ConstantPrice.pool_tokens_to_trading_tokens token_b_price pool_tokens pool_token_supply
        swap_token_a_amount swap_token_b_amount round_direction
  | OffsetCurve token_b_offset =>
      b ← try_ (checked_add u128_max swap_token_b_amount token_b_offset);
      try_ (ConstantProduct.pool_tokens_to_trading_tokens pool_tokens pool_token_supply
              swap_token_a_amount b round_direction)
  end.

Definition deposit_single_token_type (c : Calculator) (source_amount swap_token_a_amount
    swap_token_b_amount pool_supply : Z) (trade_direction : TradeDirection) : opt Z :=
  match c with
  | ConstantProductCurve =>
      ConstantProduct.deposit_single_token_type source_amount swap_token_a_amount
        swap_token_b_amount pool_supply trade_direction Floor
  | ConstantPriceCurve token_b_price =>
      ConstantPrice.trading_tokens_to_pool_tokens token_b_price source_amount
        swap_token_a_amount swap_token_b_amount pool_supply trade_direction Floor
  | StableCurve amp =>
      Stable.deposit_single_token_type amp source_amount swap_token_a_amount
        swap_token_b_amount pool_supply trade_direction
  | OffsetCurve token_b_offset =>
      b ← try_ (checked_add u128_max swap_token_b_amount token_b_offset);
      ConstantProduct.deposit_single_token_type source_amount swap_token_a_amount b
        pool_supply trade_direction Floor
  end.

Definition withdraw_single_token_type_exact_out (c : Calculator) (source_amount
    swap_token_a_amount swap_token_b_amount pool_supply : Z) (trade_direction : TradeDirection)
  : opt Z :=
  match c with
  | ConstantProductCurve =>
      ConstantProduct.withdraw_single_token_type_exact_out source_amount swap_token_a_amount
        swap_token_b_amount pool_supply trade_direction Ceiling
  | ConstantPriceCurve token_b_price =>
      ConstantPrice.trading_tokens_to_pool_tokens token_b_price source_amount
        swap_token_a_amount swap_token_b_amount pool_supply trade_direction Ceiling
  | StableCurve amp =>
      Stable.withdraw_single_token_type_exact_out amp source_amount swap_token_a_amount
        swap_token_b_amount pool_supply trade_direction
  | OffsetCurve token_b_offset =>
      b ← try_ (checked_add u128_max swap_token_b_amount token_b_offset);
      ConstantProduct.withdraw_single_token_type_exact_out source_amount swap_token_a_amount b
        pool_supply trade_direction Ceiling
  end.

Definition validate (c : Calculator) : result SwapError.t unit :=
  match c with
  | ConstantProductCurve | StableCurve _ => Ok tt
  | ConstantPriceCurve token_b_price => fail_if (token_b_price =? 0) SwapError.InvalidCurve
  | OffsetCurve token_b_offset => fail_if (token_b_offset =? 0) SwapError.InvalidCurve
  end.

Definition validate_supply (c : Calculator) (token_a_amount token_b_amount : Z)
  : result SwapError.t unit :=
  match c with
  | ConstantProductCurve | StableCurve _ =>
      fail_if (token_a_amount =? 0) SwapError.EmptySupply ;;
      fail_if (token_b_amount =? 0) SwapError.EmptySupply
  | ConstantPriceCurve _ | OffsetCurve _ => fail_if (token_a_amount =? 0) SwapError.EmptySupply
  end.

Definition allows_deposits (c : Calculator) : bool :=
  match c with OffsetCurve _ => false | _ => true end.

Definition normalized_value (c : Calculator) (swap_token_a_amount swap_token_b_amount : Z)
  : opt PreciseNumber :=
  match c with
  | ConstantProductCurve =>
      ConstantProduct.normalized_value swap_token_a_amount swap_token_b_amount
  | ConstantPriceCurve token_b_price =>
      ConstantPrice.normalized_value token_b_price swap_token_a_amount swap_token_b_amount
  | StableCurve amp => Stable.normalized_value amp swap_token_a_amount swap_token_b_amount
  | OffsetCurve token_b_offset =>
      b ← try_ (checked_add u128_max swap_token_b_amount token_b_offset);
      ConstantProduct.normalized_value swap_token_a_amount b
  end.
End Calculator.

(** ** Swapping with fees *)
Inductive CurveType := ConstantProduct_ | ConstantPrice_ | Stable_ | Offset_.

Record SwapCurve := {
  curve_type : CurveType;
  calculator : Calculator;
}.

Record SwapResult := {
  new_swap_source_amount : Z;
  new_swap_destination_amount : Z;
  total_source_swapped : Z;
  total_destination_swapped : Z;
  trade_fee : Z;
  owner_fee : Z;
}.

Module SwapCurve.
Definition swap (s : SwapCurve) (source_amount swap_source_amount swap_destination_amount : Z)
    (trade_direction : TradeDirection) (fees : Fees) : option SwapResult :=
  trade_fee ← trading_fee fees source_amount;
  owner_fee ← owner_trading_fee fees source_amount;
  total_fees ← checked_add u128_max trade_fee owner_fee;
  source_amount_less_fees ← checked_sub source_amount total_fees;
  r ← Calculator.swap_without_fees (calculator s) source_amount_less_fees swap_source_amount
        swap_destination_amount trade_direction;
  src ← checked_add u128_max (source_amount_swapped r) total_fees;
  new_source ← checked_add u128_max swap_source_amount src;
  new_destination ← checked_sub swap_destination_amount (destination_amount_swapped r);
  Some {| new_swap_source_amount := new_source;
          new_swap_destination_amount := new_destination;
          total_source_swapped := src;
          total_destination_swapped := destination_amount_swapped r;
          trade_fee := trade_fee;
          owner_fee := owner_fee |}.

(** The trading fee is due on half of the amount. *)
Definition deduct_half_fee (fees : Fees) (source_amount : Z) : option Z :=
  half ← checked_div source_amount 2;
  trade_fee ← trading_fee fees (Z.max 1 half);
  checked_sub source_amount trade_fee.

Definition deposit_single_token_type (s : SwapCurve) (source_amount swap_token_a_amount
    swap_token_b_amount pool_supply : Z) (trade_direction : TradeDirection) (fees : Fees)
  : opt Z :=
  if source_amount =? 0 then Ok 0
  else
    source_amount ← try_ (deduct_half_fee fees source_amount);
    Calculator.deposit_single_token_type (calculator s) source_amount swap_token_a_amount
      swap_token_b_amount pool_supply trade_direction.

Definition withdraw_single_token_type_exact_out (s : SwapCurve) (source_amount
    swap_token_a_amount swap_token_b_amount pool_supply : Z) (trade_direction : TradeDirection)
    (fees : Fees) : opt Z :=
  if source_amount =? 0 then Ok 0
  else
    source_amount ← try_ (deduct_half_fee fees source_amount);
    Calculator.withdraw_single_token_type_exact_out (calculator s) source_amount
      swap_token_a_amount swap_token_b_amount pool_supply trade_direction.
End SwapCurve.
