(* ===== verification/SwapCurveProofs.v ===== *)
(** * Swap program: what the curves guarantee

    The arithmetic of the pool: what ceiling division returns, that swaps never
    lower the value of a pool, and how the two tokens of a deposit or withdrawal
    are rounded. *)

From stdpp Require Import base list.
From Stdlib Require Import ZArith Lia.
From S2P Require Import Prelude SwapMath SwapCurve.

(** Steps of functions in the option monad. *)
Ltac inv_some :=
  repeat match goal with
  | H : (_ ≫= _) = Some _ |- _ =>
      let x := fresh "x" in let H1 := fresh "Hs" in
      apply bind_Some in H as (x & H1 & H); cbv beta in H
  | H : match ?x with pair _ _ => _ end = Some _ |- _ =>
      is_var x; destruct x as [? ?]; cbv beta iota in H
  | H : Some _ = Some _ |- _ => injection H as H; try subst
  | H : None = Some _ |- _ => discriminate H
  | H : (_, _) = (_, _) |- _ => injection H as H; try subst
  end.

Lemma checked_rem_Some a b c : checked_rem a b = Some c <-> c = a mod b /\ b <> 0.
Proof. unfold checked_rem. case_match; to_prop; naive_solver. Qed.

Lemma map_zero_to_none_Some a c : map_zero_to_none a = Some c <-> c = a /\ a <> 0.
Proof. unfold map_zero_to_none. case_match; to_prop; naive_solver. Qed.

Ltac inv_math :=
  repeat match goal with H : try_ _ = Ok _ |- _ => apply try_Ok in H end;
  inv_some; inv_checked;
  repeat match goal with
  | H : checked_rem _ _ = Some _ |- _ => apply checked_rem_Some in H as [H ?]
  | H : map_zero_to_none _ = Some _ |- _ => apply map_zero_to_none_Some in H as [H ?]
  end.

(** ** Ceiling division *)

(** The quotient [q] is the least number whose product with the divisor
    reaches the dividend, and the divisor returned is the least one that
    reaches it with [q]. *)
Definition least_factor (n d q : Z) : Prop := n <= q * d /\ (q - 1) * d < n.

Lemma least_factor_bound n d q p : 0 < d -> least_factor n d q -> n <= p * d -> q <= p.
Proof. unfold least_factor. nia. Qed.

Lemma div_up_least n d : 0 < d -> n mod d > 0 -> least_factor n d (n / d + 1).
Proof.
  intros Hd Hr. unfold least_factor. pose proof (Z.div_mod n d).
  pose proof (Z.mod_pos_bound n d Hd). nia.
Qed.

Lemma div_exact_least n d : 0 < d -> n mod d = 0 -> 0 < n -> least_factor n d (n / d).
Proof. intros Hd Hr Hn. unfold least_factor. pose proof (Z.div_mod n d). nia. Qed.

Lemma checked_ceil_div_spec max n d q r :
  0 <= n -> 0 < d -> checked_ceil_div max n d = Some (q, r) ->
  d <= n /\ least_factor n d q /\ least_factor n q r /\ 0 < q.
Proof.
  intros Hn Hd H. unfold checked_ceil_div in H. inv_math.
  case_match; [done|]; to_prop.
  assert (d <= n) as Hdn.
  { destruct (Z_lt_le_dec n d); [|done]. subst. by rewrite Z.div_small in * by lia. }
  assert (0 < n / d) by (apply Z.div_str_pos; lia). inv_math. subst.
  case_match; to_prop; inv_math; subst.
  - assert (least_factor n d (n / d + 1)) by (apply div_up_least; lia).
    split_and!; try done; try lia. case_match; to_prop; inv_math; subst.
    + apply div_up_least; lia.
    + apply div_exact_least; [lia| |lia].
      pose proof (Z.mod_pos_bound n (n / d + 1)). lia.
  - pose proof (Z.mod_pos_bound n r Hd). pose proof (Z.div_mod n r).
    split_and!; try done; [apply div_exact_least; lia|unfold least_factor; nia].
Qed.

(** ** Swaps *)
Lemma product_swap_spec source x y r :
  is_u128 source -> is_u128 x -> is_u128 y ->
  ConstantProduct.swap source x y = Some r ->
  let s := source_amount_swapped r in
  let d := destination_amount_swapped r in
  0 <= s <= source /\ 0 < d < y /\
  x * y <= (x + s) * (y - d) /\
  (x + source) * (y - (d + 1)) < x * y /\ (x + (s - 1)) * (y - d) < x * y.
Proof.
  intros Hs Hx Hy H. unfold ConstantProduct.swap in H. inv_math. subst.
  cbn [source_amount_swapped destination_amount_swapped]. cbv zeta.
  match goal with Hc : checked_ceil_div _ _ _ = Some _ |- _ =>
    apply checked_ceil_div_spec in Hc as (Hle & [Hq1 Hq2] & [Hp1 Hp2] & Hq) end; [nia|nia|].
  destruct (Z.eq_dec (x + source) 0) as [E|]; [|lia]. exfalso.
  unfold checked_ceil_div, checked_div in *. rewrite E in *. discriminate.
Qed.

(** What the reserves [a] and [b] of a pool are worth: swaps move along, or
    above, a level of this function.  The stable curve only approximates its
    level curves and is not covered. *)
Definition reserve_value (c : Calculator) (a b : Z) : option Z :=
  match c with
  | ConstantProductCurve => Some (a * b)
  | ConstantPriceCurve p => Some (a + p * b)
  | OffsetCurve o => Some (a * (b + o))
  | StableCurve _ => None
  end.

(** The reserves of the two tokens, from those of the source and destination. *)
Definition by_token {A} (d : TradeDirection) (source destination : A) : A * A :=
  match d with AtoB => (source, destination) | BtoA => (destination, source) end.

Definition wf_calculator (c : Calculator) : Prop :=
  match c with
  | ConstantProductCurve => True
  | ConstantPriceCurve p => is_u64 p
  | StableCurve amp => is_u64 amp
  | OffsetCurve o => is_u64 o
  end.

Record wf_fees (f : Fees) : Prop := {
  wff_trade : is_u64 (trade_fee_numerator f) /\ is_u64 (trade_fee_denominator f);
  wff_owner_trade : is_u64 (owner_trade_fee_numerator f) /\ is_u64 (owner_trade_fee_denominator f);
  wff_owner_withdraw :
    is_u64 (owner_withdraw_fee_numerator f) /\ is_u64 (owner_withdraw_fee_denominator f);
  wff_host : is_u64 (host_fee_numerator f) /\ is_u64 (host_fee_denominator f);
}.

Lemma calculate_fee_nonneg amount n d fee :
  0 <= amount -> 0 <= n -> 0 <= d -> calculate_fee amount n d = Some fee -> 0 <= fee.
Proof.
  intros ? ? ? H. unfold calculate_fee in H. case_match; [by inv_some|]. inv_math. subst.
  assert (0 <= amount * n / d) by (apply Z.div_pos; nia).
  case_match; inv_some; lia.
Qed.

(** A fee of a valid fraction is part of the amount, and nothing is only
    charged for nothing. *)
Lemma calculate_fee_bounds amount n d fee :
  0 <= amount -> 0 <= n -> validate_fraction n d = Ok tt ->
  calculate_fee amount n d = Some fee ->
  0 <= fee <= amount /\ (fee = 0 <-> amount = 0 \/ n = 0).
Proof.
  intros Ha Hn Hv H. unfold calculate_fee, validate_fraction in *.
  case_match eqn:E; to_prop; [inv_some; intuition lia|]. inv_math. subst.
  assert (n < d) by (repeat case_match; to_prop; inv_ok; lia).
  assert (amount * n / d <= amount) by (apply Z.div_le_upper_bound; nia).
  assert (0 <= amount * n / d) by (apply Z.div_pos; nia).
  case_match; to_prop; inv_some; lia.
Qed.

Lemma swap_without_fees_spec c source x y dir r :
  wf_calculator c -> is_u128 source -> is_u64 x -> is_u64 y ->
  Calculator.swap_without_fees c source x y dir = Some r ->
  0 <= source_amount_swapped r <= source /\ 0 <= destination_amount_swapped r /\
  forall v, uncurry (reserve_value c) (by_token dir x y) = Some v ->
  exists v', uncurry (reserve_value c)
    (by_token dir (x + source_amount_swapped r) (y - destination_amount_swapped r)) = Some v' /\
    v <= v'.
Proof.
  intros Hc Hs Hx Hy H. destruct c as [|p|amp|o]; cbn [Calculator.swap_without_fees] in H.
  - apply product_swap_spec in H as (? & ? & Hv & _); [|unfold_max; lia..].
    split_and!; try lia. intros v Hval.
    destruct dir; cbn in *; injection Hval as <-; (eexists; split; [done|]); nia.
  - unfold ConstantPrice.swap_without_fees in H. destruct dir; inv_math; subst; cbn in *.
    + pose proof (Z.mod_pos_bound source p). pose proof (Z.div_mod source p).
      assert (0 <= source / p) by (apply Z.div_pos; lia).
      case_match; inv_math; to_prop; subst; (split_and!; [lia..|]);
        intros v [= <-]; (eexists; split; [done|]); nia.
    + split_and!; [lia..|nia|]. intros v [= <-]. eexists; split; [done|]. nia.
  - unfold Stable.swap_without_fees in H. inv_math. subst. cbn in *.
    split_and!; [lia..|]. intros v Hv. by destruct dir.
  - cbn in Hc. assert (exists x' y', ConstantProduct.swap source x' y' = Some r /\
      is_u128 x' /\ is_u128 y' /\
      match dir with AtoB => x' = x /\ y' = y + o | BtoA => x' = x + o /\ y' = y end)
      as (x' & y' & Hsw & Hx' & Hy' & E).
    { destruct dir; inv_math; subst; (do 2 eexists; split; [exact H|]); unfold_max; lia. }
    apply product_swap_spec in Hsw as (? & ? & Hv & _); [|done..].
    split_and!; try lia. intros v Hval.
    destruct dir; destruct E as [-> ->]; cbn in *; injection Hval as <-;
      (eexists; split; [done|]); nia.
Qed.

Lemma swap_spec s amount x y dir fees r :
  wf_calculator (calculator s) -> wf_fees fees -> is_u64 amount -> is_u64 x -> is_u64 y ->
  SwapCurve.swap s amount x y dir fees = Some r ->
  0 <= total_source_swapped r <= amount /\ 0 <= total_destination_swapped r <= y /\
  new_swap_source_amount r = x + total_source_swapped r /\
  new_swap_destination_amount r = y - total_destination_swapped r /\
  0 <= trade_fee r /\ 0 <= owner_fee r /\
  trade_fee r + owner_fee r <= total_source_swapped r /\
  forall v, uncurry (reserve_value (calculator s)) (by_token dir x y) = Some v ->
  exists v', uncurry (reserve_value (calculator s))
    (by_token dir (x + (total_source_swapped r - trade_fee r - owner_fee r))
       (y - total_destination_swapped r)) = Some v' /\ v <= v'.
Proof.
  intros Hc [[Hf1 Hf2] [Hf3 Hf4] _ _] Ha Hx Hy H. unfold SwapCurve.swap in H. inv_math. subst.
  unfold trading_fee, owner_trading_fee in *.
  repeat match goal with Hf : calculate_fee _ _ _ = Some _ |- _ =>
    apply calculate_fee_nonneg in Hf; [|lia..] end.
  match goal with Hf : Calculator.swap_without_fees _ _ _ _ _ = Some ?r |- _ =>
    apply swap_without_fees_spec in Hf as (? & ? & Hv); [|done|unfold_max; lia|done..] end.
  cbn. split_and!; try lia. intros v Hval. destruct (Hv v Hval) as (v' & Hv' & ?).
  exists v'. split; [|done]. rewrite <- Hv'. do 2 f_equal. lia.
Qed.

(** More reserves are worth at least as much. *)
Lemma reserve_value_mono c a b a' b' v :
  wf_calculator c -> 0 <= a <= a' -> 0 <= b <= b' -> reserve_value c a b = Some v ->
  exists v', reserve_value c a' b' = Some v' /\ v <= v'.
Proof.
  intros Hc Ha Hb H. destruct c; cbn in *; inv_some; (eexists; split; [done|]); nia.
Qed.

(** ** Shares *)
Lemma share_floor n supply a b r :
  ConstantProduct.pool_tokens_to_trading_tokens n supply a b Floor = Some r ->
  supply <> 0 /\ token_a_amount r = n * a / supply /\ token_b_amount r = n * b / supply.
Proof. unfold ConstantProduct.pool_tokens_to_trading_tokens. intros H. inv_math. by subst. Qed.

Lemma round_up_spec product supply amount :
  0 <= product <= u128_max -> 0 < supply -> amount = product / supply ->
  exists k, ConstantProduct.round_up product supply amount = Some k /\
    (k = 0 \/ least_factor product supply k) /\ 0 <= k.
Proof.
  intros Hp Hs ->. unfold ConstantProduct.round_up, checked_rem.
  rewrite (proj2 (Z.eqb_neq _ _)) by lia. cbn [mbind option_bind].
  eexists. split; [done|].
  pose proof (Z.mod_pos_bound product supply Hs). pose proof (Z.div_mod product supply).
  assert (0 <= product / supply) by (apply Z.div_pos; lia).
  case_match; to_prop.
  - unfold wrapping_add. rewrite wrap_small by nia. unfold least_factor. nia.
  - destruct (Z.eq_dec (product / supply) 0); [lia|]. unfold least_factor. nia.
Qed.

(** The amounts taken for a deposit reach the share of the depositor, or are
    zero (and then refused). *)
Lemma share_ceiling n supply a b r :
  0 <= n -> 0 < supply -> 0 <= a -> 0 <= b ->
  ConstantProduct.pool_tokens_to_trading_tokens n supply a b Ceiling = Some r ->
  (token_a_amount r = 0 \/ least_factor (n * a) supply (token_a_amount r)) /\
  (token_b_amount r = 0 \/ least_factor (n * b) supply (token_b_amount r)) /\
  0 <= token_a_amount r /\ 0 <= token_b_amount r.
Proof.
  unfold ConstantProduct.pool_tokens_to_trading_tokens. intros Hn Hsup Ha Hb H. inv_math. subst.
  destruct (round_up_spec (n * a) supply _ ltac:(nia) ltac:(done) eq_refl) as (k & Hk & ? & ?).
  destruct (round_up_spec (n * b) supply _ ltac:(nia) ltac:(done) eq_refl) as (k' & Hk' & ? & ?).
  cbn. by simplify_eq.
Qed.
