(* ===== verification/SwapRange.v ===== *)
(** * Swap program: the curves compute unsigned numbers

    The source computes with unsigned integers.  On unsigned arguments the
    functions of [SwapCurve] that price shares return unsigned results, so the
    amounts the processor hands to the token program are amounts. *)

From stdpp Require Import base list.
From Stdlib Require Import ZArith Lia.
From S2P Require Import Prelude SwapMath SwapCurve SwapCurveProofs.

Create HintDb unsigned.
#[export] Hint Extern 1 (0 <= _ / _) => apply Z.div_pos : unsigned.
#[export] Hint Extern 1 (0 <= _ * _) => apply Z.mul_nonneg_nonneg : unsigned.
#[export] Hint Extern 1 (0 <= _ + _) => apply Z.add_nonneg_nonneg : unsigned.
#[export] Hint Extern 1 (0 <= _ - _) => lia : unsigned.
#[export] Hint Extern 1 (0 <= Stable.N_COINS) => discriminate : unsigned.
#[export] Hint Extern 2 (_ <= _) => lia : unsigned.
#[export] Hint Extern 2 (_ < _) => lia : unsigned.

(** Unsigned division: a quotient exists only for a divisor other than zero. *)
Lemma checked_div_nonneg a b c : checked_div a b = Some c -> 0 <= a -> 0 <= b -> 0 <= c.
Proof. intros [-> ?]%checked_div_Some ? ?. apply Z.div_pos; lia. Qed.

Ltac unsigned :=
  repeat match goal with
  | H : checked_div ?a ?b = Some ?c |- _ =>
      assert (0 <= c) by (apply (checked_div_nonneg _ _ _ H); auto 6 with unsigned); clear H
  | H : checked_mul _ _ _ = Some ?c |- _ => apply checked_mul_Some in H as [H ?];
      assert (0 <= c) by (rewrite H; auto 6 with unsigned); clear H
  | H : checked_add _ _ _ = Some ?c |- _ => apply checked_add_Some in H as [H ?];
      assert (0 <= c) by lia; clear H
  | H : checked_sub _ _ = Some ?c |- _ => apply checked_sub_Some in H as [H ?];
      assert (0 <= c) by lia; clear H
  end.

(** ** Precise numbers *)
Section Precise.
Import PreciseNumber.
Implicit Types a b c : PreciseNumber.

Lemma new_unsigned v c : 0 <= v -> new v = Ok c -> 0 <= value c.
Proof.
  intros Hv H. unfold new in H. inv_ok. inv_math. subst. by apply Z.mul_nonneg_nonneg.
Qed.

Lemma to_imprecise_unsigned a n : 0 <= value a -> to_imprecise a = Ok n -> 0 <= n.
Proof.
  intros Ha H. unfold to_imprecise, as_u128 in H. inv_ok. inv_math. case_if H; inv_ok. subst.
  apply Z.div_pos; [|done]. assert (0 <= rounding_correction) by done. lia.
Qed.

Lemma round_unsigned d a n : 0 <= value a -> ConstantProduct.round_pool_tokens d a = Ok n -> 0 <= n.
Proof.
  intros Ha H. unfold ConstantProduct.round_pool_tokens in H. inv_ok.
  eapply to_imprecise_unsigned; [|done]. assert (0 < ONE) by done.
  destruct d; unfold floor, ceiling in *; inv_ok; inv_math; subst; cbn;
    (apply Z.mul_nonneg_nonneg; [apply Z.div_pos; lia|lia]).
Qed.

Lemma mul_unsigned a b c :
  0 <= value a -> 0 <= value b -> PreciseNumber.checked_mul a b = Ok c -> 0 <= value c.
Proof.
  intros Ha Hb H. unfold PreciseNumber.checked_mul in H. assert (0 < ONE) by done.
  assert (0 <= rounding_correction) by done.
  case_match; [inv_ok; inv_math; subst; cbn; apply Z.div_pos; nia|].
  case_if H; inv_ok; inv_math; subst; cbn;
    (apply Z.mul_nonneg_nonneg; [apply Z.div_pos; lia|lia]).
Qed.

Lemma div_unsigned a b c :
  0 <= value a -> 0 <= value b -> PreciseNumber.checked_div a b = Ok c -> 0 <= value c.
Proof.
  intros Ha Hb H. unfold PreciseNumber.checked_div in H. case_if H; [done|]. to_prop.
  assert (0 < ONE) by done. assert (0 <= rounding_correction) by done.
  case_match; inv_ok; inv_math; subst; cbn; repeat apply Z.mul_nonneg_nonneg; try lia;
    apply Z.div_pos; nia.
Qed.

Lemma sub_unsigned a b c : PreciseNumber.checked_sub a b = Ok c -> 0 <= value c.
Proof. intros H. unfold PreciseNumber.checked_sub in H. inv_ok. inv_math. subst. cbn. lia. Qed.
End Precise.

(** ** The stable curve *)
Lemma u8_mul_unsigned n a r x : 0 <= a -> 0 <= r -> Stable.mul_loop n a r = Some x -> 0 <= x.
Proof.
  revert r. induction n as [|n IH]; intros r Ha Hr H; cbn in H; inv_some; [done|].
  unsigned. eapply IH; [done| |done]. lia.
Qed.

Lemma step_unsigned d l s p x :
  0 <= d -> 0 <= l -> 0 <= s -> 0 <= p -> Stable.calculate_step d l s p = Some x -> 0 <= x.
Proof.
  intros Hd Hl Hs Hp H. unfold Stable.calculate_step, Stable.checked_u8_mul in H. inv_some.
  repeat match goal with Hm : Stable.mul_loop _ _ _ = Some _ |- _ =>
    apply u8_mul_unsigned in Hm; [|done..] end.
  unsigned. lia.
Qed.

Lemma d_loop_unsigned n l s a b d x :
  0 <= l -> 0 <= s -> 0 <= a -> 0 <= b -> 0 <= d ->
  Stable.d_loop n l s a b d = Some x -> 0 <= x.
Proof.
  intros Hl Hs Ha Hb. revert d. induction n as [|n IH]; intros d Hd H; cbn in H; inv_some; [done|].
  unsigned. match goal with Hst : Stable.calculate_step _ _ _ _ = Some _ |- _ =>
    apply step_unsigned in Hst; [|lia..] end.
  case_match; inv_some; [done|eapply IH; [|done]; lia].
Qed.

Lemma compute_d_unsigned l a b d :
  0 <= l -> 0 <= a -> 0 <= b -> Stable.compute_d l a b = Some d -> 0 <= d.
Proof.
  intros Hl Ha Hb H. unfold Stable.compute_d, Stable.checked_u8_mul, Stable.try_u128 in H. inv_some.
  repeat match goal with Hm : Stable.mul_loop _ _ _ = Some _ |- _ =>
    apply u8_mul_unsigned in Hm; [|done..] end.
  unsigned. case_match; inv_some; [done|].
  match goal with Hd : Stable.d_loop _ _ _ _ _ _ = Some _ |- _ =>
    apply d_loop_unsigned in Hd; [|lia..] end.
  case_match; by inv_some.
Qed.

(** ** Shares *)
Lemma ceil_div_unsigned max n d q r :
  0 <= n -> 0 <= d -> checked_ceil_div max n d = Some (q, r) -> 0 <= q.
Proof.
  intros Hn Hd H. destruct (Z.eq_dec d 0) as [->|]; [done|].
  apply checked_ceil_div_spec in H; lia.
Qed.

Lemma constant_price_shares p n a b s d x :
  0 <= p -> 0 <= n -> 0 <= a -> 0 <= b -> 0 <= s ->
  ConstantPrice.trading_tokens_to_pool_tokens p n a b s d Ceiling = Ok x -> 0 <= x.
Proof.
  intros Hp Hn Ha Hb Hs H. unfold ConstantPrice.trading_tokens_to_pool_tokens, as_u128 in H. inv_ok.
  case_if H; inv_ok. match goal with Hg : match d with _ => _ end = Ok ?g |- _ =>
    assert (0 <= g) by (destruct d; inv_ok; [done|inv_math; subst; nia]); clear Hg end.
  repeat match goal with Ht : try_ _ = Ok _ |- _ => apply try_Ok in Ht end.
  unsigned. eapply ceil_div_unsigned; [| |done]; lia.
Qed.

Lemma stable_shares amp n a b s d x :
  0 <= amp -> 0 <= n -> 0 <= a -> 0 <= b -> 0 <= s ->
  Stable.withdraw_single_token_type_exact_out amp n a b s d = Ok x -> 0 <= x.
Proof.
  intros Hp Hn Ha Hb Hs H. unfold Stable.withdraw_single_token_type_exact_out, Stable.compute_a in H.
  case_if H; inv_ok; [done|].
  match type of H with match ?q with pair _ _ => _ end = _ => destruct q end. inv_ok.
  repeat match goal with Ht : try_ _ = Ok _ |- _ => apply try_Ok in Ht end.
  unsigned. eapply (round_unsigned Ceiling); [|unfold ConstantProduct.round_pool_tokens;
    match goal with Hc : PreciseNumber.ceiling _ = Ok _ |- _ => rewrite Hc end; exact H].
  assert (forall v y, PreciseNumber.new v = Ok y -> 0 <= v -> 0 <= value y) as Hnew
    by (intros; by eapply new_unsigned).
  match goal with Hd : PreciseNumber.checked_div ?u ?v = Ok _ |- _ =>
    apply (div_unsigned u v) in Hd; [done| |] end.
  - eapply mul_unsigned; [by eapply sub_unsigned| |done]. by eapply Hnew.
  - eapply Hnew; [done|]. eapply compute_d_unsigned; [| | |eassumption]; done.
Qed.

Lemma withdraw_single_unsigned c n a b s d x :
  wf_calculator c -> 0 <= n -> 0 <= a -> 0 <= b -> 0 <= s ->
  Calculator.withdraw_single_token_type_exact_out c n a b s d = Ok x -> 0 <= x.
Proof.
  intros Hc Hn Ha Hb Hs H.
  assert (forall b', ConstantProduct.withdraw_single_token_type_exact_out n a b' s d Ceiling = Ok x ->
    0 <= x) as Hcp.
  { intros b' Hw. unfold ConstantProduct.withdraw_single_token_type_exact_out in Hw. inv_ok.
    eapply round_unsigned; [|done]. eapply mul_unsigned; [| |done].
    - by eapply new_unsigned; [|done].
    - by eapply sub_unsigned. }
  destruct c as [|p|amp|o]; cbn in H, Hc; [by eapply Hcp| | |inv_ok; by eapply Hcp].
  - eapply constant_price_shares; [| | | | |done]; lia.
  - eapply stable_shares; [| | | | |done]; lia.
Qed.

Lemma product_shares_unsigned n s a b dir x :
  0 <= n -> 0 <= s -> 0 <= a -> 0 <= b ->
  ConstantProduct.pool_tokens_to_trading_tokens n s a b dir = Some x ->
  0 <= token_a_amount x /\ 0 <= token_b_amount x.
Proof.
  intros Hn Hs Ha Hb H. destruct dir.
  - apply share_floor in H as (? & -> & ->). split; apply Z.div_pos; nia.
  - destruct (Z.eq_dec s 0) as [->|].
    + unfold ConstantProduct.pool_tokens_to_trading_tokens in H. inv_some. done.
    + apply share_ceiling in H; lia.
Qed.

Lemma normalized_unsigned p a b x :
  0 <= p -> 0 <= a -> 0 <= b -> ConstantPrice.normalized_value p a b = Ok x -> 0 <= value x.
Proof.
  intros Hp Ha Hb H. unfold ConstantPrice.normalized_value in H. inv_ok.
  eapply new_unsigned; [|done]. case_match; inv_ok;
    repeat match goal with Ht : try_ _ = Ok _ |- _ => apply try_Ok in Ht end; unsigned; lia.
Qed.

Lemma trading_tokens_unsigned c n s a b dir x :
  wf_calculator c -> 0 <= n -> 0 <= s -> 0 <= a -> 0 <= b ->
  Calculator.pool_tokens_to_trading_tokens c n s a b dir = Ok x ->
  0 <= token_a_amount x /\ 0 <= token_b_amount x.
Proof.
  intros Hc Hn Hs Ha Hb H. destruct c as [|p|amp|o]; cbn in H, Hc.
  1, 3: apply try_Ok in H; by eapply product_shares_unsigned in H.
  - unfold ConstantPrice.pool_tokens_to_trading_tokens in H. inv_ok.
    eapply normalized_unsigned in Hr; [|lia..].
    match goal with Ht : PreciseNumber.to_imprecise _ = Ok _ |- _ =>
      apply to_imprecise_unsigned in Ht; [|done] end.
    destruct dir; inv_ok; repeat match goal with Ht : try_ _ = Ok _ |- _ => apply try_Ok in Ht end;
      unsigned; [done|]. cbn.
    repeat match goal with Hq : checked_ceil_div _ _ _ = Some _ |- _ =>
      apply ceil_div_unsigned in Hq; [|lia..] end. done.
  - inv_ok. apply try_Ok in Hr, H. unsigned. by eapply product_shares_unsigned in H.
Qed.
