(* ===== verification/SwapSqrt.v ===== *)
(** * Swap program: the square root of precise numbers

    [PreciseNumber.sqrt] runs at most a hundred turns of Newton's method in
    rounded arithmetic.  One turn is exactly Heron's step on integers, so the
    iteration stays above the integer square root, and it stops within one
    unit (of [10^-12]) of it well before the turns are used up. *)

From stdpp Require Import base list.
From Stdlib Require Import ZArith Lia.
From S2P Require Import Prelude SwapMath SwapCurveProofs.
Import PreciseNumber.

(** The exponent of [pow_loop] is used up after as many turns as it has bits. *)
Lemma pow_loop_enough fuel fuel' result base e :
  0 <= e < 2 ^ Z.of_nat fuel -> (fuel <= fuel')%nat ->
  pow_loop fuel' result base e = pow_loop fuel result base e.
Proof.
  revert fuel' result base e. induction fuel as [|fuel IH]; intros fuel' result base e He Hf.
  - cbn in He. replace e with 0 by lia. by destruct fuel'.
  - destruct fuel' as [|fuel']; [lia|]. cbn [pow_loop]. case_match; [done|].
    rewrite Nat2Z.inj_succ, Z.pow_succ_r in He by lia.
    destruct (checked_mul base base) as [b| |]; cbn [mbind result_bind]; [|done..].
    destruct (if negb _ then _ else _); cbn [mbind result_bind]; [|done..]. apply IH; [|lia].
    split; [apply Z.div_pos; lia|apply Z.div_lt_upper_bound; lia].
Qed.

Definition heron (n g : Z) : Z := (g + n / g) / 2.

Section Heron.
Context (n : Z) (Hn : 0 < n).
Let r := Z.sqrt n.

Lemma sqrt_bounds : r * r <= n <= r * r + 2 * r /\ 0 <= r.
Proof.
  subst r. pose proof (Z.sqrt_spec n ltac:(lia)) as H. cbv zeta in H.
  pose proof (Z.sqrt_nonneg n). lia.
Qed.

Lemma heron_lower g : 0 < g -> r <= heron n g.
Proof.
  intros Hg. pose proof sqrt_bounds. unfold heron.
  pose proof (Z.square_nonneg (r - g)).
  assert (2 * r - g <= n / g) by (apply Z.div_le_lower_bound; lia).
  apply Z.div_le_lower_bound; lia.
Qed.

Lemma heron_upper g : r <= g -> 0 < g -> 2 * g * (heron n g - r) <= (g - r) * (g - r) + 2 * r.
Proof.
  intros Hrg Hg. pose proof sqrt_bounds. unfold heron.
  pose proof (Z.mul_div_le (g + n / g) 2). pose proof (Z.mul_div_le n g). nia.
Qed.

(** The distance to the root is halved, and squared once it is small. *)
Lemma heron_half g : r <= g -> 0 < g -> 2 * (heron n g - r - 2) <= g - r - 2.
Proof.
  intros Hrg Hg. pose proof (heron_upper g Hrg Hg). pose proof (heron_lower g Hg).
  pose proof sqrt_bounds. nia.
Qed.

Lemma heron_square g e : r <= g -> 100 <= r -> 2 <= e ->
  (g - r - 2) * 2 ^ e <= r -> 100 <= g - heron n g ->
  (heron n g - r - 2) * 2 ^ (2 * e + 1) <= r.
Proof.
  intros Hrg Hr He Hd Hg.
  pose proof (heron_upper g Hrg ltac:(lia)). pose proof (heron_lower g ltac:(lia)).
  assert (4 <= 2 ^ e) by (change 4 with (2 ^ 2); apply Z.pow_le_mono_r; lia).
  replace (2 * e + 1) with (e + e + 1) by lia. rewrite !Z.pow_add_r by lia.
  set (p := 2 ^ e) in *. set (x := g - r - 2) in *. set (y := heron n g - r - 2) in *.
  assert (2 * r * y <= x * x).
  { assert (2 * g * (y + 2) <= (x + 2) * (x + 2) + 2 * r) by (subst x y; nia).
    assert (4 * x <= r) by nia. nia. }
  assert (0 <= x) by lia.
  assert (x * p * (x * p) <= r * r) by (apply Z.square_le_mono_nonneg; nia).
  pose proof (Z.mul_le_mono_nonneg_r (2 * r * y) (x * x) (p * p) ltac:(nia) ltac:(done)).
  apply (Z.mul_le_mono_pos_l _ _ r); lia.
Qed.

Lemma heron_close g : 5000 <= r -> r <= g -> g - heron n g < 100 -> heron n g <= r + 1.
Proof.
  intros Hr Hrg Hd. pose proof (heron_upper g Hrg ltac:(lia)).
  pose proof (heron_lower g ltac:(lia)). pose proof (heron_half g Hrg ltac:(lia)).
  set (d := heron n g - r) in *. set (k := g - heron n g) in *.
  assert (g = r + d + k) as E by (subst d k; lia).
  assert (2 * r * d + d * d <= k * k + 2 * r) by (rewrite E in *; nia).
  assert (- 2 <= k) by lia. assert (k * k <= 9801) by nia.
  destruct (Z_le_gt_dec d 1); [lia|]. nia.
Qed.
End Heron.

(** ** Operations that do not overflow *)
Abbreviation num z := {| value := z |}.

Lemma rounding_pos : 0 <= rounding_correction.
Proof. done. Qed.

Lemma add_fits a b : a + b <= u256_max -> PreciseNumber.checked_add (num a) (num b) = Ok (num (a + b)).
Proof.
  intros H. unfold PreciseNumber.checked_add. cbn [value].
  by rewrite (proj2 (checked_add_Some u256_max a b _) (conj eq_refl H)).
Qed.

Lemma mul_fits a b : a * b + rounding_correction <= u256_max ->
  PreciseNumber.checked_mul (num a) (num b) = Ok (num ((a * b + rounding_correction) / ONE)).
Proof.
  intros H. unfold PreciseNumber.checked_mul. cbn [value].
  assert (a * b <= u256_max) as Hm by (pose proof rounding_pos; lia).
  rewrite (proj2 (checked_mul_Some u256_max a b _) (conj eq_refl Hm)).
  by rewrite (proj2 (checked_add_Some u256_max _ _ _) (conj eq_refl H)).
Qed.

Lemma div_fits a b : b <> 0 -> a * ONE + rounding_correction <= u256_max ->
  PreciseNumber.checked_div (num a) (num b) = Ok (num ((a * ONE + rounding_correction) / b)).
Proof.
  intros Hb H. unfold PreciseNumber.checked_div. cbn [value].
  rewrite (proj2 (Z.eqb_neq b 0) Hb).
  assert (a * ONE <= u256_max) as Hm by (pose proof rounding_pos; lia).
  rewrite (proj2 (checked_mul_Some u256_max a ONE _) (conj eq_refl Hm)).
  rewrite (proj2 (checked_add_Some u256_max _ _ _) (conj eq_refl H)). cbn [try_ ok_or mbind result_bind].
  unfold Prelude.checked_div. by rewrite (proj2 (Z.eqb_neq b 0) Hb).
Qed.

(** The rounding correction disappears in a division by a multiple of one. *)
Lemma div_one_round a : (a * ONE + rounding_correction) / ONE = a.
Proof.
  rewrite Z.div_add_l by done. change (rounding_correction / ONE) with 0. lia.
Qed.

Section Sqrt.
Context (v : Z) (Hv : 0 < v <= u128_max * ONE).
Let n := v * ONE + rounding_correction.
Let r := Z.sqrt n.

Abbreviation loop k g := (newton_loop k (num v) (num (2 * ONE)) (num ONE) 1 (num g) (num g)).

Lemma n_range : 0 < n <= 2 ^ 209 /\ rounding_correction <= n.
Proof.
  assert (u128_max * ONE * ONE + rounding_correction <= 2 ^ 209) by (vm_compute; done).
  subst n. pose proof rounding_pos. assert (0 < ONE) by done. nia.
Qed.

Lemma root_range : 700000 <= r < 2 ^ 105.
Proof.
  pose proof n_range as [[? ?] ?]. subst r. split.
  - apply Z.sqrt_le_square; [lia..|]. etrans; [|done]. vm_compute; done.
  - apply Z.sqrt_lt_square; [lia..|]. eapply Z.le_lt_trans; [done|]. vm_compute; done.
Qed.

Lemma newton_step_heron g :
  0 < g <= 2 ^ 170 -> newton_step (num v) (num (2 * ONE)) (num ONE) 1 (num g) = Ok (num (heron n g)).
Proof.
  intros Hg. pose proof n_range as [[? ?] ?]. pose proof rounding_pos.
  assert (2 ^ 209 * ONE + 2 ^ 170 * ONE + rounding_correction <= u256_max) by (vm_compute; done).
  assert (0 <= n / g <= n) as Hq.
  { split; [apply Z.div_pos; lia|]. apply Z.div_le_upper_bound; nia. }
  assert (1 <= ONE) by done. assert (0 < 2 ^ 209) by (vm_compute; done).
  assert (ONE * g <= ONE * 2 ^ 170) by (apply Z.mul_le_mono_nonneg_l; lia).
  assert (n / g * ONE <= 2 ^ 209 * ONE) by (apply Z.mul_le_mono_nonneg_r; lia).
  unfold newton_step. rewrite mul_fits by nia.
  rewrite (Z.mul_comm ONE), div_one_round. cbn [mbind result_bind].
  unfold checked_pow. change (1 mod 2 =? 0) with false. change (1 / 2) with 0.
  cbn [pow_loop Z.eqb]. rewrite div_fits by (try fold n; nia).
  cbn [mbind result_bind]. fold n.
  rewrite add_fits by nia. cbn [mbind result_bind]. rewrite div_fits by nia.
  do 2 f_equal. rewrite (Z.mul_comm 2), <- Z.div_div, div_one_round by done. done.
Qed.

Lemma heron_facts g : r <= g ->
  r <= heron n g /\ 2 * (heron n g - r - 2) <= g - r - 2 /\
  (g - heron n g < 100 -> heron n g <= r + 1).
Proof.
  intros Hg. pose proof root_range. pose proof n_range as [[Hn ?] ?]. assert (0 < g) as Hg0 by lia.
  split_and!.
  - exact (heron_lower n Hn g Hg0).
  - exact (heron_half n Hn g Hg Hg0).
  - apply (heron_close n Hn g); [|exact Hg]. change (5000 <= r). lia.
Qed.

(** The loop returns the integer root or its successor. *)
Definition converges (k : nat) (g : Z) : Prop :=
  exists g', loop k g = Ok (num g') /\ r <= g' <= r + 1.

Lemma newton_loop_step k g :
  r <= g <= 2 ^ 170 -> (100 <= g - heron n g -> converges k (heron n g)) -> converges (S k) g.
Proof.
  intros Hg Hk. pose proof root_range. destruct (heron_facts g) as (Hlow & Hh & Hclose); [lia|].
  unfold converges in *. cbn [newton_loop].
  rewrite newton_step_heron by lia. cbn [mbind result_bind].
  unfold almost_eq, unsigned_sub. cbn [value].
  destruct (Z_lt_le_dec (g - heron n g) 100) as [Hd|Hd].
  - replace (_ <? precision) with true; [eauto|]. symmetry. apply Z.ltb_lt.
    unfold Prelude.checked_sub, precision. destruct (Z.leb_spec (heron n g) g); cbn; lia.
  - replace (_ <? precision) with false; [auto|]. symmetry. apply Z.ltb_ge.
    unfold Prelude.checked_sub, precision. destruct (Z.leb_spec (heron n g) g); cbn; lia.
Qed.

(** [within e k]: from a distance of [r / 2 ^ e], [k] turns are enough. *)
Definition within (e : Z) (k : nat) : Prop :=
  forall g, r <= g <= 2 ^ 170 -> (g - r - 2) * 2 ^ e <= r -> converges k g.

Lemma heron_stays g : r <= g <= 2 ^ 170 -> 100 <= g - heron n g -> r <= heron n g <= 2 ^ 170.
Proof.
  intros Hg Hd. destruct (heron_facts g); lia.
Qed.

Lemma within_half e k : 0 <= e -> within (e + 1) k -> within e (S k).
Proof.
  intros He Hk g Hg Hd. destruct (heron_facts g) as (_ & H2 & _); [lia|].
  apply newton_loop_step; [done|]. intros Hh. apply Hk; [by apply heron_stays|].
  rewrite Z.pow_add_r by lia. assert (0 < 2 ^ e) by (apply Z.pow_pos_nonneg; lia). nia.
Qed.

Lemma within_square e k : 2 <= e -> within (2 * e + 1) k -> within e (S k).
Proof.
  intros He Hk g Hg Hd. pose proof root_range. pose proof n_range as [[? ?] ?].
  apply newton_loop_step; [done|]. intros Hh. apply Hk; [by apply heron_stays|].
  apply (heron_square n ltac:(done) g e); [exact (proj1 Hg)|change (100 <= r); lia|done..].
Qed.

Lemma within_last : within 191 1.
Proof.
  intros g Hg Hd. pose proof root_range. destruct (heron_facts g) as (Hlow & _); [lia|].
  apply newton_loop_step; [done|]. intros Hh. exfalso.
  assert (2 ^ 105 <= 2 ^ 191) by (apply Z.pow_le_mono_r; lia). nia.
Qed.

Lemma within_one : within 0 9.
Proof.
  do 2 (apply within_half; [done|]; cbn [Z.add Pos.add]).
  do 6 (apply within_square; [done|]; cbn [Z.add Z.mul Pos.add Pos.mul]).
  exact within_last.
Qed.

Lemma far_converges j g :
  r <= g <= 2 ^ 170 -> g - r - 2 <= 2 ^ Z.of_nat j * r -> converges (j + 9) g.
Proof.
  revert g. induction j as [|j IH]; intros g Hg Hd.
  - apply within_one; [done|]. cbn in *. lia.
  - destruct (heron_facts g) as (_ & H2 & _); [lia|].
    apply newton_loop_step; [done|]. intros Hh. apply IH; [by apply heron_stays|].
    rewrite Nat2Z.inj_succ, Z.pow_succ_r in Hd by lia. lia.
Qed.

Lemma guess_near : let g := (v + ONE) / 2 in r <= g <= 2 ^ 170 /\ g - r - 2 <= 2 ^ 91 * r.
Proof.
  cbv zeta. pose proof root_range. pose proof n_range as [[Hn ?] ?].
  assert (r * r <= n <= r * r + 2 * r) as [Hlo Hhi] by exact (proj1 (sqrt_bounds n Hn)).
  assert (v * v <= (v * ONE) * u128_max).
  { rewrite <- Z.mul_assoc, (Z.mul_comm ONE). apply Z.mul_le_mono_nonneg_l; lia. }
  assert (v * ONE <= 3 * (r * r)) by (unfold n in *; pose proof rounding_pos; nia).
  assert (v <= 2 ^ 65 * r) as Hvr.
  { apply Z.square_le_simpl_nonneg; [lia|]. etrans; [done|].
    transitivity (3 * (r * r) * u128_max); [apply Z.mul_le_mono_nonneg_r; [done|lia]|].
    replace (2 ^ 65 * r * (2 ^ 65 * r)) with (r * r * (2 ^ 65 * 2 ^ 65)) by ring.
    rewrite (Z.mul_comm 3), <- Z.mul_assoc. apply Z.mul_le_mono_nonneg_l; [nia|]. vm_compute; done. }
  pose proof (Z.mul_div_le (v + ONE) 2). pose proof (Z.mul_succ_div_gt (v + ONE) 2).
  split; [|unfold ONE in *; lia]. split.
  - assert (2 * r <= v + ONE); [|apply Z.div_le_lower_bound; lia].
    apply Z.nlt_ge. intros Hlt. assert (0 < ONE) by done.
    assert ((v + ONE + 1) * (v + ONE + 1) <= 2 * r * (2 * r)) by (apply Z.square_le_mono_nonneg; lia).
    pose proof (Z.square_nonneg (v - ONE)). assert (2 * rounding_correction = ONE) by done.
    unfold n in *. lia.
  - assert (2 ^ 65 * 2 ^ 105 = 2 ^ 170) by done. unfold ONE in *. nia.
Qed.
End Sqrt.

Lemma sqrt_total v : 0 < v <= u128_max * ONE ->
  exists g, sqrt (num v) = Ok (num g) /\
    Z.sqrt (v * ONE + rounding_correction) <= g <= Z.sqrt (v * ONE + rounding_correction) + 1.
Proof.
  intros Hv. unfold sqrt, less_than, greater_than. cbn [value minimum_sqrt_base maximum_sqrt_base].
  rewrite (proj2 (Z.ltb_ge v 0)), (proj2 (Z.ltb_ge (u128_max * ONE) v)) by lia. cbn [orb].
  change (new 2) with (Ok (E := unit) (num (2 * ONE))). change (new 1) with (Ok (E := unit) (num ONE)).
  cbn [mbind result_bind].
  assert (v + ONE <= u128_max * ONE + ONE) by lia.
  assert ((u128_max * ONE + ONE) * ONE + rounding_correction <= u256_max) by (vm_compute; done).
  assert (0 < ONE) by done. pose proof rounding_pos.
  rewrite add_fits by nia. cbn [mbind result_bind]. rewrite div_fits by nia. cbn [mbind result_bind].
  rewrite (Z.mul_comm 2), <- Z.div_div, div_one_round by done.
  unfold newtonian_root_approximation. cbn [value]. rewrite (proj2 (Z.eqb_neq v 0)) by lia.
  change (2 * ONE =? 0) with false. change (new 1) with (Ok (E := unit) (num ONE)).
  cbn [mbind result_bind]. change (checked_sub (num (2 * ONE)) (num ONE)) with (Ok (E := unit) (num ONE)).
  cbn [mbind result_bind]. change (to_imprecise (num ONE)) with (Ok (E := unit) 1).
  cbn [mbind result_bind]. destruct (guess_near v Hv) as [Hg Hd].
  exact (far_converges v Hv 91 _ Hg Hd).
Qed.

(** The square root of a precise number always returns, within its
    hundred turns, and is accurate: scaled to integers it is the integer
    square root of the (rounded) operand or its successor. *)
Theorem sqrt_accurate v :
  0 <= v <= u128_max * ONE ->
  exists g, sqrt (num v) = Ok (num g) /\ (v = 0 -> g = 0) /\
    (0 < v -> Z.sqrt (v * ONE + ONE / 2) <= g <= Z.sqrt (v * ONE + ONE / 2) + 1).
Proof.
  intros Hv. destruct (Z.eq_dec v 0) as [->|Hv0].
  - exists 0. split_and!; [vm_compute; done|done|lia].
  - destruct (sqrt_total v) as (g & Hs & Hg); [lia|]. exists g. split; [done|]. split; [done|].
    intros _. exact Hg.
Qed.

Lemma sqrt_accurate_witness :
  exists g, sqrt (num (2 * ONE)) = Ok (num g) /\
    Z.sqrt (2 * ONE * ONE + ONE / 2) <= g <= Z.sqrt (2 * ONE * ONE + ONE / 2) + 1.
Proof.
  destruct (sqrt_accurate (2 * ONE) ltac:(vm_compute; split; discriminate)) as (g & H & _ & Hg).
  exists g. split; [exact H|]. apply Hg. done.
Defined.
