(* ===== verification/SwapSingleProofs.v ===== *)
(** * Swap program: deposits and withdrawals of one token

    Depositing one token of a constant product pool is worth as much as swapping
    a part of it and depositing both: a pool with [a] of the token and [s] shares
    that receives [x] may issue [p] shares as long as
    [a * (s + p)^2 <= (a + x) * s^2].  The program computes [p] with a square
    root in decimal numbers; here is how far from this bound it can get, and
    what the fee does to withdrawals. *)

From stdpp Require Import base list.
From Stdlib Require Import ZArith Lia.
From S2P Require Import Prelude SwapMath SwapCurve SwapCurveProofs SwapSqrt.
Import PreciseNumber.

Lemma new_fits a : a * ONE <= u256_max -> new a = Ok (num (a * ONE)).
Proof.
  intros H. unfold new. by rewrite (proj2 (checked_mul_Some u256_max a ONE _) (conj eq_refl H)).
Qed.

Lemma round_floor_fits a :
  0 <= a -> a <= u128_max * ONE ->
  ConstantProduct.round_pool_tokens Floor (num a) = Ok (a / ONE).
Proof.
  intros Ha Hb. unfold ConstantProduct.round_pool_tokens, floor. cbn [value].
  change (Prelude.checked_div a ONE) with (Some (a / ONE)). cbn [try_ ok_or mbind result_bind].
  pose proof (Z.mul_div_le a ONE ltac:(done)).
  assert (u128_max * ONE + rounding_correction <= u256_max) by (vm_compute; done).
  assert (a / ONE * ONE <= u256_max) as Hm by (pose proof rounding_pos; lia).
  rewrite (proj2 (checked_mul_Some u256_max _ ONE _) (conj eq_refl Hm)).
  cbn [try_ ok_or mbind result_bind]. unfold to_imprecise. cbn [value].
  assert (a / ONE * ONE + rounding_correction <= u256_max) as Hs by lia.
  rewrite (proj2 (checked_add_Some u256_max _ _ _) (conj eq_refl Hs)).
  cbn [try_ ok_or mbind result_bind].
  change (Prelude.checked_div ?z ONE) with (Some (z / ONE)). cbn [try_ ok_or mbind result_bind].
  rewrite div_one_round. unfold as_u128.
  assert (a / ONE <= u128_max) by (apply Z.div_le_upper_bound; [done|lia]).
  by rewrite (proj2 (Z.leb_le _ _)).
Qed.

(** The quotient of two whole numbers, to twelve digits. *)
Definition ratio (x a : Z) : Z := (x * ONE * ONE + rounding_correction) / (a * ONE).

Lemma ratio_bounds x a : 0 <= x -> 0 < a ->
  0 <= ratio x a <= x * ONE /\
  ratio x a * a * ONE <= x * ONE * ONE + rounding_correction < (ratio x a + 1) * a * ONE.
Proof.
  intros Hx Ha. unfold ratio. assert (2 * rounding_correction = ONE /\ 0 < ONE) as [Hr H1] by done.
  pose proof (Z.mul_div_le (x * ONE * ONE + rounding_correction) (a * ONE) ltac:(nia)) as Hlo.
  pose proof (Z.mul_succ_div_gt (x * ONE * ONE + rounding_correction) (a * ONE) ltac:(nia)) as Hhi.
  set (q := _ / (a * ONE)) in *.
  assert (0 <= q) by (apply Z.div_pos; nia).
  split_and!; [done| |lia..]. apply Z.nlt_ge. intros Hlt. nia.
Qed.

Lemma whole_fits x : is_u64 x -> new x = Ok (num (x * ONE)).
Proof.
  intros Hx. apply new_fits. assert (u64_max * ONE <= u256_max) by (vm_compute; done).
  assert (0 < ONE) by done. nia.
Qed.

Lemma ratio_fits x a : is_u64 x -> 0 < a ->
  PreciseNumber.checked_div (num (x * ONE)) (num (a * ONE)) = Ok (num (ratio x a)).
Proof.
  intros Hx Ha. assert (0 < ONE) by done. apply div_fits; [nia|].
  assert (u64_max * ONE * ONE + rounding_correction <= u256_max) by (vm_compute; done). nia.
Qed.

Lemma sqrt_bounds_square v : 0 < v <= u128_max * ONE ->
  exists g, sqrt (num v) = Ok (num g) /\
    (g - 1) * (g - 1) <= v * ONE + rounding_correction < (g + 1) * (g + 1) /\ 1 <= g.
Proof.
  intros Hv. destruct (sqrt_total v Hv) as (g & Hg & Hr). exists g. split; [done|].
  pose proof rounding_pos. assert (0 < ONE) by done.
  pose proof (Z.sqrt_spec (v * ONE + rounding_correction) ltac:(nia)) as Hs. cbv zeta in Hs.
  assert (1 <= Z.sqrt (v * ONE + rounding_correction)) by (apply Z.sqrt_le_square; nia).
  nia.
Qed.

(** What the constant product curve computes for a deposit, in integers. *)
Lemma deposit_single_eval x a b s dir :
  is_u64 x -> is_u64 a -> is_u64 b -> is_u64 s ->
  let src := fst (by_token dir a b) in
  0 < src ->
  exists g, ConstantProduct.deposit_single_token_type x a b s dir Floor =
      Ok (s * (g - ONE) / ONE) /\
    ONE <= g /\ src * ((g - 1) * (g - 1)) <= (src + x) * ONE * ONE + (src + 1) * rounding_correction.
Proof.
  cbv zeta. intros Hx Ha Hb Hs Hsrc. unfold ConstantProduct.deposit_single_token_type.
  replace (match dir with AtoB => a | BtoA => b end) with (fst (by_token dir a b)) by (by destruct dir).
  set (src := fst (by_token dir a b)) in *. assert (is_u64 src) by (by destruct dir).
  rewrite !whole_fits by done. cbn [mbind result_bind]. rewrite ratio_fits by done.
  cbn [mbind result_bind]. destruct (ratio_bounds x src) as [Hr [Hlo _]]; [lia..|].
  set (q := ratio x src) in *. rewrite !Z.mul_1_l.
  assert (0 < ONE) by done. pose proof rounding_pos.
  assert (u64_max * ONE + ONE <= u128_max * ONE) by (vm_compute; done).
  assert (u128_max * ONE <= u256_max) by (vm_compute; done).
  rewrite add_fits by nia. cbn [mbind result_bind].
  destruct (sqrt_bounds_square (ONE + q)) as (g & Hg & [Hsq1 Hsq2] & Hg1); [nia|].
  rewrite Hg. cbn [mbind result_bind].
  assert (ONE <= g) as HgO by nia.
  assert (g <= 2 ^ 73) as Hg2.
  { assert ((u64_max * ONE + ONE) * ONE + rounding_correction <= (2 ^ 73 - 1) * (2 ^ 73 - 1))
      by (vm_compute; done).
    assert ((g - 1) * (g - 1) <= (2 ^ 73 - 1) * (2 ^ 73 - 1)) as Hle by nia.
    apply Z.square_le_simpl_nonneg in Hle; [lia|]. vm_compute; done. }
  unfold checked_sub at 1. cbn [value].
  rewrite (proj2 (checked_sub_Some g ONE _) (conj eq_refl HgO)). cbn [try_ ok_or mbind result_bind].
  assert (0 <= s * (g - ONE) <= u64_max * 2 ^ 73) by nia.
  assert (u64_max * 2 ^ 73 * ONE + rounding_correction <= u256_max) by (vm_compute; done).
  assert (u64_max * 2 ^ 73 <= u128_max * ONE) by (vm_compute; done).
  assert (s * ONE * (g - ONE) = s * (g - ONE) * ONE) as E by ring.
  assert (s * (g - ONE) * ONE <= u64_max * 2 ^ 73 * ONE) by (apply Z.mul_le_mono_nonneg_r; lia).
  rewrite mul_fits by lia. cbn [mbind result_bind]. rewrite E, div_one_round, round_floor_fits by lia.
  exists g. split_and!; [done|done|].
  pose proof (Z.mul_le_mono_nonneg_l _ _ src ltac:(lia) Hsq1). lia.
Qed.

Lemma deduct_half_fee_bounds fees x y :
  wf_fees fees -> 0 <= x -> SwapCurve.deduct_half_fee fees x = Some y -> 0 <= y <= x.
Proof.
  intros [[Hf1 Hf2] _ _ _] Hx H. unfold SwapCurve.deduct_half_fee, trading_fee in H. inv_math. subst.
  match goal with Hf : calculate_fee _ _ _ = Some _ |- _ => apply calculate_fee_nonneg in Hf; lia end.
Qed.

(** A deposit of one token into a constant product pool does not dilute
    the other shares beyond rounding: the pool tokens issued exceed the square
    root law by less than about two parts in [10^12] of the supply, whatever
    the fees. *)
Theorem single_deposit_fair c x a b s dir fees p :
  calculator c = ConstantProductCurve -> wf_fees fees ->
  is_u64 x -> is_u64 a -> is_u64 b -> is_u64 s -> 0 < fst (by_token dir a b) ->
  SwapCurve.deposit_single_token_type c x a b s dir fees = Ok p ->
  let src := fst (by_token dir a b) in
  src * (((s + p) * ONE - s) * ((s + p) * ONE - s)) <=
  s * s * ((src + x) * ONE * ONE + (src + 1) * (ONE / 2)).
Proof.
  intros Hc Hf Hx Ha Hb Hs Hsrc H. cbv zeta. set (src := fst (by_token dir a b)) in *.
  assert (exists g, ONE <= g /\ p * ONE <= s * (g - ONE) /\ 0 <= p /\
    src * ((g - 1) * (g - 1)) <= (src + x) * ONE * ONE + (src + 1) * rounding_correction)
    as (g & Hg & Hp & Hp0 & Hle).
  { unfold SwapCurve.deposit_single_token_type in H. rewrite Hc in H. cbn in H.
    case_match; to_prop.
    - inv_ok. exists ONE. split_and!; [done|lia..|]. pose proof rounding_pos.
      assert ((ONE - 1) * (ONE - 1) <= ONE * ONE) by (vm_compute; done). assert (0 < ONE) by done.
      nia.
    - inv_ok. apply try_Ok, deduct_half_fee_bounds in Hr; [|done|lia].
      destruct (deposit_single_eval x0 a b s dir) as (g & Hev & Hg & Hle); try done; [lia|].
      rewrite Hev in H. inv_ok. exists g. split_and!; [done| | |].
      + rewrite Z.mul_comm. by apply Z.mul_div_le.
      + apply Z.div_pos; [nia|done].
      + fold src in Hle. assert (0 < ONE) by done. nia. }
  assert (0 <= (s + p) * ONE - s <= s * (g - 1)) by (assert (1 <= ONE) by done; nia).
  assert (((s + p) * ONE - s) * ((s + p) * ONE - s) <= s * (g - 1) * (s * (g - 1)))
    by (apply Z.square_le_mono_nonneg; lia).
  transitivity (s * s * (src * ((g - 1) * (g - 1)))); [|by apply Z.mul_le_mono_nonneg_l; [nia|]].
  replace (s * s * (src * ((g - 1) * (g - 1)))) with (src * (s * (g - 1) * (s * (g - 1)))) by ring.
  by apply Z.mul_le_mono_nonneg_l; [lia|].
Qed.

Module SingleSample.
Definition curve : SwapCurve :=
  {| curve_type := ConstantProduct_; calculator := ConstantProductCurve |}.
Definition fees (n : Z) : Fees :=
  {| trade_fee_numerator := n; trade_fee_denominator := 100;
     owner_trade_fee_numerator := 0; owner_trade_fee_denominator := 0;
     owner_withdraw_fee_numerator := 0; owner_withdraw_fee_denominator := 0;
     host_fee_numerator := 0; host_fee_denominator := 0 |}.

Lemma wf_sample_fees : wf_fees (fees 1).
Proof. by split. Qed.

Lemma single_deposit_fair_witness :
  let p := 48570455 in
  SwapCurve.deposit_single_token_type curve 100000 1000000 1000000 1000000000 AtoB (fees 1) = Ok p /\
  1000000 * (((1000000000 + p) * ONE - 1000000000) * ((1000000000 + p) * ONE - 1000000000)) <=
  1000000000 * 1000000000 * ((1000000 + 100000) * ONE * ONE + (1000000 + 1) * (ONE / 2)).
Proof.
  cbv zeta. assert (SwapCurve.deposit_single_token_type curve 100000 1000000 1000000 1000000000 AtoB
    (fees 1) = Ok 48570455) as H by (vm_compute; reflexivity).
  split; [exact H|].
  refine (single_deposit_fair curve 100000 1000000 1000000 1000000000 AtoB (fees 1) _
    eq_refl wf_sample_fees _ _ _ _ _ H); vm_compute; split; discriminate || reflexivity.
Defined.

(** The trading fee of a one-sided withdrawal is paid by the pool: the fee
    is taken off the amount for which pool tokens are burned, so that in a pool
    with a fee of one percent a withdrawal of a tenth of a reserve burns fewer
    pool tokens than without any fee, and fewer than leave the value of the
    remaining shares as it was. *)
Example withdrawal_fee_is_a_rebate :
  exists p q,
    SwapCurve.withdraw_single_token_type_exact_out curve 100000 1000000 1000000 1000000000 AtoB
      (fees 0) = Ok q /\
    SwapCurve.withdraw_single_token_type_exact_out curve 100000 1000000 1000000 1000000000 AtoB
      (fees 1) = Ok p /\
    p < q /\
    (1000000 - 100000) * (1000000000 * 1000000000) <
    1000000 * ((1000000000 - p) * (1000000000 - p)).
Proof. do 2 eexists. split; [vm_compute; reflexivity|]. split; [vm_compute; reflexivity|]. done. Qed.
End SingleSample.
