(* ===== verification/SwapState.v ===== *)
(** * Swap program: stored state and instructions

    Models [src/solana-program-library/token-swap/program/src]: the packed state
    of a pool ([state.rs], with the encodings of [curve/fees.rs],
    [curve/base.rs] and of the curves), the instructions and their binary format
    ([instruction.rs]) and the owner's constraints ([constraints.rs]). *)

From stdpp Require Import base gmap list fin_maps.
From Stdlib Require Import ZArith Lia.
From S2P Require Import Prelude Sdk TokenState SwapMath SwapCurve SwapCurveProofs.

#[global] Instance CurveType_eq_dec : EqDecision CurveType.
Proof. solve_decision. Defined.

(** [SwapError::X.into()] *)
Definition serr (e : SwapError.t) : ProgramError := Custom (SwapError.discriminant e).

(** ** Encodings *)
Definition Fees_pack_into_slice (f : Fees) (output : list Z) : list Z :=
  to_le_bytes 8 (trade_fee_numerator f) ++ to_le_bytes 8 (trade_fee_denominator f) ++
  to_le_bytes 8 (owner_trade_fee_numerator f) ++ to_le_bytes 8 (owner_trade_fee_denominator f) ++
  to_le_bytes 8 (owner_withdraw_fee_numerator f) ++
  to_le_bytes 8 (owner_withdraw_fee_denominator f) ++
  to_le_bytes 8 (host_fee_numerator f) ++ to_le_bytes 8 (host_fee_denominator f) ++
  drop 64 output.

Definition Fees_unpack_from_slice (input : list Z) : program_result Fees :=
  panic_unless (Nat.leb 64 (length input)) ;;
  let '(tn, r) := split_at 8 (take 64 input) in
  let '(td, r) := split_at 8 r in
  let '(otn, r) := split_at 8 r in
  let '(otd, r) := split_at 8 r in
  let '(own, r) := split_at 8 r in
  let '(owd, r) := split_at 8 r in
  let '(hn, hd) := split_at 8 r in
  Ok {| trade_fee_numerator := from_le_bytes tn; trade_fee_denominator := from_le_bytes td;
        owner_trade_fee_numerator := from_le_bytes otn;
        owner_trade_fee_denominator := from_le_bytes otd;
        owner_withdraw_fee_numerator := from_le_bytes own;
        owner_withdraw_fee_denominator := from_le_bytes owd;
        host_fee_numerator := from_le_bytes hn; host_fee_denominator := from_le_bytes hd |}.

#[global] Instance Fees_Pack : Pack Fees := {
  LEN := 64;
  is_initialized := fun _ => true;
  pack_into_slice := Fees_pack_into_slice;
  unpack_from_slice := Fees_unpack_from_slice;
}.

Definition CurveType_as_u8 (t : CurveType) : Z :=
  match t with ConstantProduct_ => 0 | ConstantPrice_ => 1 | Stable_ => 2 | Offset_ => 3 end.

Definition CurveType_try_from (b : Z) : program_result CurveType :=
  match b with
  | 0 => Ok ConstantProduct_
  | 1 => Ok ConstantPrice_
  | 2 => Ok Stable_
  | 3 => Ok Offset_
  | _ => Err InvalidAccountData
  end.

(** [DynPack::pack_into_slice] of the four curves *)
Definition Calculator_pack_into_slice (c : Calculator) (output : list Z) : list Z :=
  match c with
  | ConstantProductCurve => output
  | ConstantPriceCurve n | StableCurve n | OffsetCurve n => to_le_bytes 8 n ++ drop 8 output
  end.

Definition Calculator_unpack_from_slice (t : CurveType) (input : list Z)
  : program_result Calculator :=
  match t with
  | ConstantProduct_ => Ok ConstantProductCurve
  | _ =>
      panic_unless (Nat.leb 8 (length input)) ;;
      let n := from_le_bytes (take 8 input) in
      Ok match t with
         | ConstantPrice_ => ConstantPriceCurve n
         | Stable_ => StableCurve n
         | _ => OffsetCurve n
         end
  end.

Definition SwapCurve_pack_into_slice (s : SwapCurve) (output : list Z) : list Z :=
  [CurveType_as_u8 (curve_type s)] ++
  Calculator_pack_into_slice (calculator s) (take 32 (drop 1 output)) ++ drop 33 output.

Definition SwapCurve_unpack_from_slice (input : list Z) : program_result SwapCurve :=
  panic_unless (Nat.leb 33 (length input)) ;;
  let '(t, c) := split_at 1 (take 33 input) in
  curve_type ← CurveType_try_from (nth 0 t 0);
  calculator ← Calculator_unpack_from_slice curve_type c;
  Ok {| curve_type := curve_type; calculator := calculator |}.

#[global] Instance SwapCurve_Pack : Pack SwapCurve := {
  LEN := 33;
  is_initialized := fun _ => true;
  pack_into_slice := SwapCurve_pack_into_slice;
  unpack_from_slice := SwapCurve_unpack_from_slice;
}.

(** ** The state of a pool *)
Record SwapV1 := {
  swap_is_initialized : bool;
  bump_seed : Z;
  token_program_id : Pubkey;
  token_a : Pubkey;
  token_b : Pubkey;
  pool_mint : Pubkey;
  token_a_mint : Pubkey;
  token_b_mint : Pubkey;
  pool_fee_account : Pubkey;
  fees : Fees;
  swap_curve : SwapCurve;
}.

Definition SwapV1_pack_into_slice (s : SwapV1) (output : list Z) : list Z :=
  [Z.b2z (swap_is_initialized s)] ++ [bump_seed s] ++ token_program_id s ++ token_a s ++
  token_b s ++ pool_mint s ++ token_a_mint s ++ token_b_mint s ++ pool_fee_account s ++
  Fees_pack_into_slice (fees s) (take 64 (drop 226 output)) ++
  SwapCurve_pack_into_slice (swap_curve s) (take 33 (drop 290 output)) ++ drop 323 output.

Definition SwapV1_unpack_from_slice (input : list Z) : program_result SwapV1 :=
  panic_unless (Nat.leb 323 (length input)) ;;
  let '(ini, r) := split_at 1 (take 323 input) in
  let '(bump, r) := split_at 1 r in
  let '(tp, r) := split_at 32 r in
  let '(ta, r) := split_at 32 r in
  let '(tb, r) := split_at 32 r in
  let '(pm, r) := split_at 32 r in
  let '(tam, r) := split_at 32 r in
  let '(tbm, r) := split_at 32 r in
  let '(pf, r) := split_at 32 r in
  let '(fe, cu) := split_at 64 r in
  is_initialized ← unpack_bool ini;
  fees ← Fees_unpack_from_slice fe;
  swap_curve ← SwapCurve_unpack_from_slice cu;
  Ok {| swap_is_initialized := is_initialized; bump_seed := nth 0 bump 0;
        token_program_id := tp; token_a := ta; token_b := tb; pool_mint := pm;
        token_a_mint := tam; token_b_mint := tbm; pool_fee_account := pf;
        fees := fees; swap_curve := swap_curve |}.

#[global] Instance SwapV1_Pack : Pack SwapV1 := {
  LEN := 323;
  is_initialized := swap_is_initialized;
  pack_into_slice := SwapV1_pack_into_slice;
  unpack_from_slice := SwapV1_unpack_from_slice;
}.

Module SwapVersion.
Definition LATEST_LEN : nat := 1 + LEN SwapV1.

(** The only version is [SwapV1]. *)
Definition pack (src : SwapV1) (dst : list Z) : program_result (list Z) :=
  match dst with
  | [] => Panic
  | _ :: rest => d ← Sdk.pack src rest; Ok (1 :: d)
  end.

Definition unpack (input : list Z) : program_result SwapV1 :=
  match input with
  | [] => Err InvalidAccountData
  | version :: rest => if version =? 1 then Sdk.unpack rest else Err UninitializedAccount
  end.

Definition is_initialized (input : list Z) : program_result bool :=
  match unpack input with
  | Ok swap => Ok (swap_is_initialized swap)
  | Err _ => Ok false
  | Panic => Panic
  end.
End SwapVersion.

(** ** Instructions *)
Module SwapInstruction.
Inductive t :=
| Initialize (fees : Fees) (swap_curve : SwapCurve)
| Swap (amount_in minimum_amount_out : Z)
| DepositAllTokenTypes (pool_token_amount maximum_token_a_amount maximum_token_b_amount : Z)
| WithdrawAllTokenTypes (pool_token_amount minimum_token_a_amount minimum_token_b_amount : Z)
| DepositSingleTokenTypeExactAmountIn (source_token_amount minimum_pool_token_amount : Z)
| WithdrawSingleTokenTypeExactAmountOut (destination_token_amount maximum_pool_token_amount : Z).

Definition unpack_u64 (input : list Z) : program_result (Z * list Z) :=
  if Nat.leb 8 (length input) then
    let '(amount, rest) := split_at 8 input in
    Ok (from_le_bytes amount, rest)
  else Err (serr SwapError.InvalidInstruction).

Definition unpack (input : list Z) : program_result t :=
  match input with
  | [] => Err (serr SwapError.InvalidInstruction)
  | tag :: rest =>
      match tag with
      | 0 =>
          if Nat.leb (LEN Fees) (length rest) then
            let '(fees, rest) := split_at (LEN Fees) rest in
            fees ← unpack_unchecked (T := Fees) fees;
            swap_curve ← unpack_unchecked (T := SwapCurve) rest;
            Ok (Initialize fees swap_curve)
          else Err (serr SwapError.InvalidInstruction)
      | 1 =>
          '(amount_in, rest) ← unpack_u64 rest;
          '(minimum_amount_out, _) ← unpack_u64 rest;
          Ok (Swap amount_in minimum_amount_out)
      | 2 =>
          '(pool_token_amount, rest) ← unpack_u64 rest;
          '(maximum_token_a_amount, rest) ← unpack_u64 rest;
          '(maximum_token_b_amount, _) ← unpack_u64 rest;
          Ok (DepositAllTokenTypes pool_token_amount maximum_token_a_amount maximum_token_b_amount)
      | 3 =>
          '(pool_token_amount, rest) ← unpack_u64 rest;
          '(minimum_token_a_amount, rest) ← unpack_u64 rest;
          '(minimum_token_b_amount, _) ← unpack_u64 rest;
          Ok (WithdrawAllTokenTypes pool_token_amount minimum_token_a_amount minimum_token_b_amount)
      | 4 =>
          '(source_token_amount, rest) ← unpack_u64 rest;
          '(minimum_pool_token_amount, _) ← unpack_u64 rest;
          Ok (DepositSingleTokenTypeExactAmountIn source_token_amount minimum_pool_token_amount)
      | 5 =>
          '(destination_token_amount, rest) ← unpack_u64 rest;
          '(maximum_pool_token_amount, _) ← unpack_u64 rest;
          Ok (WithdrawSingleTokenTypeExactAmountOut destination_token_amount
                maximum_pool_token_amount)
      | _ => Err (serr SwapError.InvalidInstruction)
      end
  end.

Definition pack (i : t) : list Z :=
  match i with
  | Initialize fees swap_curve =>
      0 :: Fees_pack_into_slice fees (replicate (LEN Fees) 0) ++
      SwapCurve_pack_into_slice swap_curve (replicate (LEN SwapCurve) 0)
  | Swap a b => 1 :: to_le_bytes 8 a ++ to_le_bytes 8 b
  | DepositAllTokenTypes a b c => 2 :: to_le_bytes 8 a ++ to_le_bytes 8 b ++ to_le_bytes 8 c
  | WithdrawAllTokenTypes a b c => 3 :: to_le_bytes 8 a ++ to_le_bytes 8 b ++ to_le_bytes 8 c
  | DepositSingleTokenTypeExactAmountIn a b => 4 :: to_le_bytes 8 a ++ to_le_bytes 8 b
  | WithdrawSingleTokenTypeExactAmountOut a b => 5 :: to_le_bytes 8 a ++ to_le_bytes 8 b
  end.
End SwapInstruction.

(** ** Constraints of the program's owner

    [owner_key] is the parsed key, or nothing if it does not parse. *)
Record SwapConstraints := {
  owner_key : option Pubkey;
  valid_curve_types : list CurveType;
  minimum_fees : Fees;
}.

Definition validate_curve (c : SwapConstraints) (s : SwapCurve) : program_result unit :=
  if existsb (fun x => bool_decide (x = curve_type s)) (valid_curve_types c) then Ok tt
  else Err (serr SwapError.UnsupportedCurveType).

Definition validate_fees (c : SwapConstraints) (f : Fees) : program_result unit :=
  let m := minimum_fees c in
  if (trade_fee_numerator m <=? trade_fee_numerator f)
     && (trade_fee_denominator f =? trade_fee_denominator m)
     && (owner_trade_fee_numerator m <=? owner_trade_fee_numerator f)
     && (owner_trade_fee_denominator f =? owner_trade_fee_denominator m)
     && (owner_withdraw_fee_numerator m <=? owner_withdraw_fee_numerator f)
     && (owner_withdraw_fee_denominator f =? owner_withdraw_fee_denominator m)
     && (host_fee_numerator f =? host_fee_numerator m)
     && (host_fee_denominator f =? host_fee_denominator m)
  then Ok tt else Err (serr SwapError.InvalidFee).

(** ** Round trips *)
Definition wf_curve (s : SwapCurve) : Prop :=
  wf_calculator (calculator s) /\
  curve_type s = match calculator s with
                 | ConstantProductCurve => ConstantProduct_
                 | ConstantPriceCurve _ => ConstantPrice_
                 | StableCurve _ => Stable_
                 | OffsetCurve _ => Offset_
                 end.

Record wf_swap (s : SwapV1) : Prop := {
  wfw_bump : is_u8 (bump_seed s);
  wfw_keys : Forall wf_key [token_program_id s; token_a s; token_b s; pool_mint s;
                            token_a_mint s; token_b_mint s; pool_fee_account s];
  wfw_fees : wf_fees (fees s);
  wfw_curve : wf_curve (swap_curve s);
}.

#[local] Ltac len_true :=
  match goal with |- context [Nat.leb ?n (length ?l)] =>
    replace (Nat.leb n (length l)) with true by (symmetry; apply Nat.leb_le; len) end;
  cbn [panic_unless mbind result_bind].

Lemma Fees_unpack_pack f dst :
  length dst = 64%nat -> wf_fees f -> Fees_unpack_from_slice (Fees_pack_into_slice f dst) = Ok f.
Proof.
  intros Hl [[] [] [] []]. unfold Fees_unpack_from_slice, Fees_pack_into_slice.
  rewrite (drop_ge dst) by lia. rewrite app_nil_r, take_ge by len. len_true.
  do 7 cut. rewrite !u64_le_roundtrip by done. by destruct f.
Qed.

Lemma length_fees_pack f dst : length dst = 64%nat -> length (Fees_pack_into_slice f dst) = 64%nat.
Proof. intros Hl. unfold Fees_pack_into_slice. len. Qed.

Lemma length_calculator_pack c dst :
  length dst = 32%nat -> length (Calculator_pack_into_slice c dst) = 32%nat.
Proof. intros Hl. destruct c; cbn [Calculator_pack_into_slice]; len. Qed.

Lemma length_curve_pack s dst :
  length dst = 33%nat -> length (SwapCurve_pack_into_slice s dst) = 33%nat.
Proof.
  intros Hl. unfold SwapCurve_pack_into_slice. rewrite !length_app, length_calculator_pack by len. len.
Qed.

Lemma Calculator_unpack_pack c dst :
  length dst = 32%nat -> wf_calculator c ->
  Calculator_unpack_from_slice
    match c with ConstantProductCurve => ConstantProduct_ | ConstantPriceCurve _ => ConstantPrice_
                 | StableCurve _ => Stable_ | OffsetCurve _ => Offset_ end
    (Calculator_pack_into_slice c dst) = Ok c.
Proof.
  intros Hl Hc. destruct c; cbn [Calculator_unpack_from_slice Calculator_pack_into_slice]; [done|..];
    len_true; rewrite take_app_exact, u64_le_roundtrip by (done || len); done.
Qed.

Lemma SwapCurve_unpack_pack s dst :
  length dst = 33%nat -> wf_curve s -> SwapCurve_unpack_from_slice (SwapCurve_pack_into_slice s dst) = Ok s.
Proof.
  intros Hl [Hc Ht]. pose proof (length_curve_pack s dst Hl) as Hlen.
  unfold SwapCurve_unpack_from_slice. rewrite Hlen. cbn [Nat.leb panic_unless mbind result_bind].
  rewrite take_ge by lia. unfold SwapCurve_pack_into_slice.
  rewrite (drop_ge dst 33) by lia. rewrite app_nil_r. cut. cbn [nth].
  replace (CurveType_try_from _) with (Ok (E := ProgramError) (curve_type s))
    by (by destruct (curve_type s)). cbn [mbind result_bind].
  rewrite Ht, Calculator_unpack_pack by (done || len). cbn [mbind result_bind].
  rewrite <- Ht. by destruct s.
Qed.

Lemma length_swap_pack s dst :
  length dst = 323%nat -> wf_swap s -> length (SwapV1_pack_into_slice s dst) = 323%nat.
Proof.
  intros Hl [_ Hk _ _]. unfold SwapV1_pack_into_slice.
  repeat (apply Forall_cons in Hk as [[? _] Hk]).
  rewrite !length_app, length_fees_pack, length_curve_pack by len. cbn [length]. len.
Qed.

Lemma SwapV1_unpack_pack s dst :
  length dst = 323%nat -> wf_swap s -> SwapV1_unpack_from_slice (SwapV1_pack_into_slice s dst) = Ok s.
Proof.
  intros Hl Hs. pose proof (length_swap_pack s dst Hl Hs) as Hlen. destruct Hs as [Hb Hk Hf Hc].
  unfold SwapV1_unpack_from_slice. rewrite Hlen. cbn [Nat.leb panic_unless mbind result_bind].
  rewrite take_ge by lia. unfold SwapV1_pack_into_slice.
  repeat (apply Forall_cons in Hk as [[? _] Hk]).
  rewrite (drop_ge dst 323) by lia. rewrite app_nil_r. do 9 cut.
  rewrite split_at_app by (apply length_fees_pack; len).
  rewrite unpack_bool_b2z. cbn [mbind result_bind].
  rewrite Fees_unpack_pack, SwapCurve_unpack_pack by (done || len). cbn. by destruct s.
Qed.

(** The state of a pool is read back as it was written, into any account of
    the right size. *)
Lemma swap_state_roundtrip s dst d :
  wf_swap s -> swap_is_initialized s = true -> SwapVersion.pack s dst = Ok d ->
  SwapVersion.unpack d = Ok s.
Proof.
  intros Hs Hi H. unfold SwapVersion.pack, Sdk.pack in H. destruct dst as [|b rest]; [done|].
  destruct (Nat.eqb_spec (length rest) (LEN SwapV1)) as [Hl|]; cbn [negb] in H; [|done].
  cbn [mbind result_bind] in H. inv_ok. cbn [SwapVersion.unpack Z.eqb Pos.eqb].
  unfold Sdk.unpack, unpack_unchecked. cbn [pack_into_slice SwapV1_Pack].
  rewrite length_swap_pack by done. change (negb _) with false.
  cbn [unpack_from_slice SwapV1_Pack]. rewrite SwapV1_unpack_pack by done. cbn. by rewrite Hi.
Qed.

Lemma swap_state_bytes s dst d :
  wf_swap s -> bytes dst -> SwapVersion.pack s dst = Ok d -> bytes d /\ length dst = 324%nat.
Proof.
  intros [Hb Hk _ _] Hd H. unfold SwapVersion.pack, Sdk.pack in H. destruct dst as [|b rest]; [done|].
  destruct (Nat.eqb_spec (length rest) (LEN SwapV1)) as [Hl|]; cbn [negb] in H; [|done].
  cbn [mbind result_bind] in H. inv_ok. apply Forall_cons in Hd as [_ Hd].
  split; [|cbn in *; lia]. apply Forall_cons_2; [lia|].
  repeat (apply Forall_cons in Hk as [[_ ?] Hk]).
  cbn [pack_into_slice SwapV1_Pack]. unfold SwapV1_pack_into_slice, Fees_pack_into_slice,
    SwapCurve_pack_into_slice, bytes in *.
  repeat apply Forall_app_2; try done; try apply to_le_bytes_bytes;
    try (repeat (apply Forall_drop || apply Forall_take); done);
    try (apply Forall_cons_2; [|by apply Forall_nil_2]).
  - by destruct (swap_is_initialized s).
  - unfold_max. lia.
  - destruct (curve_type (swap_curve s)); cbn; lia.
  - destruct (calculator (swap_curve s)); cbn [Calculator_pack_into_slice];
      repeat apply Forall_app_2; try apply to_le_bytes_bytes;
      repeat (apply Forall_drop || apply Forall_take); done.
Qed.

Definition wf_swap_instruction (i : SwapInstruction.t) : Prop :=
  match i with
  | SwapInstruction.Initialize f c => wf_fees f /\ wf_curve c
  | SwapInstruction.Swap a b
  | SwapInstruction.DepositSingleTokenTypeExactAmountIn a b
  | SwapInstruction.WithdrawSingleTokenTypeExactAmountOut a b => is_u64 a /\ is_u64 b
  | SwapInstruction.DepositAllTokenTypes a b c
  | SwapInstruction.WithdrawAllTokenTypes a b c => is_u64 a /\ is_u64 b /\ is_u64 c
  end.

Lemma unpack_u64_app z rest :
  is_u64 z -> SwapInstruction.unpack_u64 (to_le_bytes 8 z ++ rest) = Ok (z, rest).
Proof.
  intros Hz. unfold SwapInstruction.unpack_u64.
  replace (Nat.leb 8 _) with true by (symmetry; apply Nat.leb_le; len).
  cut. by rewrite u64_le_roundtrip.
Qed.

Lemma unpack_u64_last z :
  is_u64 z -> SwapInstruction.unpack_u64 (to_le_bytes 8 z) = Ok (z, []).
Proof. intros Hz. by rewrite <- (app_nil_r (to_le_bytes 8 z)), unpack_u64_app. Qed.

(** Every swap instruction with fields in range packs to bytes that unpack
    to it. *)
Theorem swap_instruction_roundtrip i :
  wf_swap_instruction i -> SwapInstruction.unpack (SwapInstruction.pack i) = Ok i.
Proof.
  intros Hi. destruct i as [f c| | | | |]; cbn [SwapInstruction.pack SwapInstruction.unpack];
    cbn [wf_swap_instruction] in Hi; destruct_and? Hi;
    repeat (rewrite unpack_u64_app by done; cbn [mbind result_bind]);
    try (rewrite unpack_u64_last by done; done).
  pose proof (length_fees_pack f (replicate 64 0) eq_refl) as Hf.
  pose proof (length_curve_pack c (replicate 33 0) eq_refl) as Hc.
  cbn [LEN Fees_Pack SwapCurve_Pack]. rewrite length_app, Hf, Hc.
  cbn [Nat.leb Nat.add]. rewrite split_at_app by done. unfold unpack_unchecked.
  cbn [LEN unpack_from_slice Fees_Pack SwapCurve_Pack]. rewrite Hf, Hc. cbn [Nat.eqb negb].
  rewrite Fees_unpack_pack by done. cbn [mbind result_bind]. by rewrite SwapCurve_unpack_pack.
Qed.

Lemma swap_instruction_roundtrip_witness :
  SwapInstruction.unpack (SwapInstruction.pack (SwapInstruction.Swap 7 5)) =
    Ok (SwapInstruction.Swap 7 5).
Proof. apply swap_instruction_roundtrip. vm_compute. repeat split; discriminate. Defined.
