(* ===== verification/SwapProcessor.v ===== *)
(** * Swap program: the instruction processor

    Models [src/solana-program-library/token-swap/program/src/processor.rs]:
    every handler as a state transformer on the account store, with the order of
    its guards, and the dispatcher.  The tokens are moved by invocations of the
    token program ([TokenProcessor.process]), signed with the address the pool
    derives from its account.  Errors are those the runtime reports. *)

From stdpp Require Import base gmap list fin_maps strings.
From Stdlib Require Import ZArith Lia.
From S2P Require Import Prelude Sdk Runtime KeyedAccount Message SystemProgram.
From S2P Require Import TokenState TokenInstruction TokenProcessor.
From S2P Require Import ProgramAddress TokenClient SwapMath SwapCurve SwapState.

(** [SwapError::X.into()], as the runtime reports it *)
Definition swap_err (e : SwapError.t) : InstructionError.t := returned (serr e).

(** [Option::ok_or] on the result of a curve *)
Definition curve_or {A} (r : opt A) (e : SwapError.t) : instruction_result A :=
  map_err (fun _ => swap_err e) r.

Definition to_u64 (val : Z) : instruction_result Z :=
  if val <=? u64_max then Ok val else Err (swap_err SwapError.ConversionFailure).

Definition next (it : list AccountInfo) : instruction_result (AccountInfo * list AccountInfo) :=
  map_err returned (next_account_info it).

(** [if a != b { return Err(e) }] on keys *)
Definition require_eq (a b : Pubkey) (e : SwapError.t) : instruction_result unit :=
  fail_if (negb (bool_decide (a = b))) (swap_err e).
Definition require_ne (a b : Pubkey) (e : SwapError.t) : instruction_result unit :=
  fail_if (bool_decide (a = b)) (swap_err e).

Section Processor.
Context (hashv : list (list Z) -> Hash).
Context (bytes_are_curve_point : Hash -> bool).
Context (deserialize_rent : list Z -> option Rent) (rent_get : program_result Rent).
Context (rent : Rent) (realloc : bool).
Context (swap_program_id : Pubkey).

Definition unpack_token_account (i : AccountInfo) (token_program_id : Pubkey) (st : store)
  : instruction_result Account :=
  require_eq (owner (acct st (key i))) token_program_id SwapError.IncorrectTokenProgramId ;;
  map_err (fun _ => swap_err SwapError.ExpectedAccount) (unpack (T := Account) (data (acct st (key i)))).

Definition unpack_mint (i : AccountInfo) (token_program_id : Pubkey) (st : store)
  : instruction_result Mint :=
  require_eq (owner (acct st (key i))) token_program_id SwapError.IncorrectTokenProgramId ;;
  map_err (fun _ => swap_err SwapError.ExpectedMint) (unpack (T := Mint) (data (acct st (key i)))).

Definition authority_seeds (swap : Pubkey) (bump_seed : Z) : list (list Z) := [swap; [bump_seed]].

Definition authority_id (my_info : Pubkey) (bump_seed : Z) : instruction_result Pubkey :=
  map_err (fun _ => swap_err SwapError.InvalidProgramAddress)
    (create_program_address hashv bytes_are_curve_point (authority_seeds my_info bump_seed)
       swap_program_id).

(** Invokes the token program with the pool's signature. *)
Definition invoke_token (swap : Pubkey) (bump_seed : Z) (ix : program_result Instruction)
    (infos : list AccountInfo) (st : store) : instruction_result store :=
  ix ← map_err returned ix;
  call_token hashv bytes_are_curve_point deserialize_rent rent_get rent realloc swap_program_id
    ix infos [authority_seeds swap bump_seed] st.

Definition token_burn (swap : Pubkey) (token_program burn_account mint authority : AccountInfo)
    (bump_seed amount : Z) (st : store) : instruction_result store :=
  invoke_token swap bump_seed
    (burn (key token_program) (key burn_account) (key mint) (key authority) [] amount)
    [burn_account; mint; authority; token_program] st.

Definition token_mint_to (swap : Pubkey) (token_program mint destination authority : AccountInfo)
    (bump_seed amount : Z) (st : store) : instruction_result store :=
  invoke_token swap bump_seed
    (mint_to (key token_program) (key mint) (key destination) (key authority) [] amount)
    [mint; destination; authority; token_program] st.

Definition token_transfer (swap : Pubkey) (token_program source destination authority : AccountInfo)
    (bump_seed amount : Z) (st : store) : instruction_result store :=
  invoke_token swap bump_seed
    (transfer (key token_program) (key source) (key destination) (key authority) [] amount)
    [source; destination; authority; token_program] st.

(** An optional account must not be [k]. *)
Definition check_other (k : Pubkey) (o : option AccountInfo) : instruction_result unit :=
  match o with
  | Some i => require_ne k (key i) SwapError.InvalidInput
  | None => Ok tt
  end.

Definition check_accounts (token_swap : SwapV1) (swap_account_info authority_info token_a_info
    token_b_info pool_mint_info token_program_info : AccountInfo)
    (user_token_a_info user_token_b_info pool_fee_account_info : option AccountInfo) (st : store)
  : instruction_result unit :=
  fail_if (negb (bool_decide (owner (acct st (key swap_account_info)) = swap_program_id)))
    (returned IncorrectProgramId) ;;
  authority ← authority_id (key swap_account_info) (bump_seed token_swap);
  require_eq (key authority_info) authority SwapError.InvalidProgramAddress ;;
  require_eq (key token_a_info) (token_a token_swap) SwapError.IncorrectSwapAccount ;;
  require_eq (key token_b_info) (token_b token_swap) SwapError.IncorrectSwapAccount ;;
  require_eq (key pool_mint_info) (pool_mint token_swap) SwapError.IncorrectPoolMint ;;
  require_eq (key token_program_info) (token_program_id token_swap)
    SwapError.IncorrectTokenProgramId ;;
  check_other (key token_a_info) user_token_a_info ;;
  check_other (key token_b_info) user_token_b_info ;;
  match pool_fee_account_info with
  | Some i => require_eq (key i) (pool_fee_account token_swap) SwapError.IncorrectFeeAccount
  | None => Ok tt
  end.

Definition load_swap (i : AccountInfo) (st : store) : instruction_result SwapV1 :=
  map_err returned (SwapVersion.unpack (data (acct st (key i)))).

(** The checks of the owner of the program, where there are any. *)
Definition check_constraints (constraints : option SwapConstraints) (fee_account : Account)
    (fees : Fees) (curve : SwapCurve) : instruction_result unit :=
  match constraints with
  | None => Ok tt
  | Some c =>
      owner_key ← ok_or (owner_key c) (swap_err SwapError.InvalidOwner);
      require_eq (a_owner fee_account) owner_key SwapError.InvalidOwner ;;
      map_err returned (validate_curve c curve) ;;
      map_err returned (validate_fees c fees)
  end.

(** The checks on the token accounts and the mint of a new pool. *)
Definition check_new_pool (authority : Pubkey) (curve : SwapCurve) (pool_mint_key : Pubkey)
    (token_a token_b fee_account destination : Account) (pool_mint : Mint)
  : instruction_result unit :=
  require_eq authority (a_owner token_a) SwapError.InvalidOwner ;;
  require_eq authority (a_owner token_b) SwapError.InvalidOwner ;;
  require_ne authority (a_owner destination) SwapError.InvalidOutputOwner ;;
  require_ne authority (a_owner fee_account) SwapError.InvalidOutputOwner ;;
  fail_if (negb (bool_decide (Some authority = mint_authority pool_mint)))
    (swap_err SwapError.InvalidOwner) ;;
  require_ne (a_mint token_a) (a_mint token_b) SwapError.RepeatedMint ;;
  map_err swap_err (Calculator.validate_supply (calculator curve) (amount token_a) (amount token_b)) ;;
  fail_if (bool_decide (is_Some (delegate token_a))) (swap_err SwapError.InvalidDelegate) ;;
  fail_if (bool_decide (is_Some (delegate token_b))) (swap_err SwapError.InvalidDelegate) ;;
  fail_if (bool_decide (is_Some (close_authority token_a)))
    (swap_err SwapError.InvalidCloseAuthority) ;;
  fail_if (bool_decide (is_Some (close_authority token_b)))
    (swap_err SwapError.InvalidCloseAuthority) ;;
  fail_if (negb (supply pool_mint =? 0)) (swap_err SwapError.InvalidSupply) ;;
  fail_if (bool_decide (is_Some (freeze_authority pool_mint)))
    (swap_err SwapError.InvalidFreezeAuthority) ;;
  require_eq pool_mint_key (a_mint fee_account) SwapError.IncorrectPoolMint.

Definition process_initialize (fees : Fees) (curve : SwapCurve) (accounts : list AccountInfo)
    (constraints : option SwapConstraints) (st : store) : instruction_result store :=
  '(swap_info, it) ← next accounts;
  '(authority_info, it) ← next it;
  '(token_a_info, it) ← next it;
  '(token_b_info, it) ← next it;
  '(pool_mint_info, it) ← next it;
  '(fee_account_info, it) ← next it;
  '(destination_info, it) ← next it;
  '(token_program_info, _) ← next it;
  let token_program_id := key token_program_info in
  initialized ← map_err returned (SwapVersion.is_initialized (data (acct st (key swap_info))));
  fail_if initialized (swap_err SwapError.AlreadyInUse) ;;
  '(swap_authority, bump_seed) ←
    find_program_address hashv bytes_are_curve_point [key swap_info] swap_program_id;
  require_eq (key authority_info) swap_authority SwapError.InvalidProgramAddress ;;
  token_a ← unpack_token_account token_a_info token_program_id st;
  token_b ← unpack_token_account token_b_info token_program_id st;
  fee_account ← unpack_token_account fee_account_info token_program_id st;
  destination ← unpack_token_account destination_info token_program_id st;
  pool_mint ← unpack_mint pool_mint_info token_program_id st;
  check_new_pool (key authority_info) curve (key pool_mint_info) token_a token_b fee_account
    destination pool_mint ;;
  check_constraints constraints fee_account fees curve ;;
  map_err swap_err (Fees_validate fees) ;;
  map_err swap_err (Calculator.validate (calculator curve)) ;;
  initial_amount ← to_u64 (Calculator.new_pool_supply (calculator curve));
  st ← token_mint_to (key swap_info) token_program_info pool_mint_info destination_info
         authority_info bump_seed initial_amount st;
  let obj :=
    {| swap_is_initialized := true; bump_seed := bump_seed; token_program_id := token_program_id;
       SwapState.token_a := key token_a_info; SwapState.token_b := key token_b_info;
       SwapState.pool_mint := key pool_mint_info; token_a_mint := a_mint token_a;
       token_b_mint := a_mint token_b; pool_fee_account := key fee_account_info;
       SwapState.fees := fees; swap_curve := curve |} in
  d ← map_err returned (SwapVersion.pack obj (data (acct st (key swap_info))));
  Ok (set_data st (key swap_info) d).

(** The owner's fee in pool tokens, of which a host account, if one is passed,
    gets its part. *)
Definition mint_fees (token_swap : SwapV1) (swap_info authority_info pool_mint_info
    pool_fee_account_info token_program_info : AccountInfo) (it : list AccountInfo)
    (pool_token_amount : Z) (st : store) : instruction_result store :=
  '(st, pool_token_amount) ←
    match it with
    | [] => Ok (st, pool_token_amount)
    | host_fee_account_info :: _ =>
        host_fee_account ← unpack_token_account host_fee_account_info
                             (token_program_id token_swap) st;
        require_eq (key pool_mint_info) (a_mint host_fee_account) SwapError.IncorrectPoolMint ;;
        host_fee ← ok_or (host_fee (fees token_swap) pool_token_amount)
                     (swap_err SwapError.FeeCalculationFailure);
        if 0 <? host_fee then
          pool_token_amount ← ok_or (checked_sub pool_token_amount host_fee)
                                (swap_err SwapError.FeeCalculationFailure);
          n ← to_u64 host_fee;
          st ← token_mint_to (key swap_info) token_program_info pool_mint_info
                 host_fee_account_info authority_info (bump_seed token_swap) n st;
          Ok (st, pool_token_amount)
        else Ok (st, pool_token_amount)
    end;
  n ← to_u64 pool_token_amount;
  token_mint_to (key swap_info) token_program_info pool_mint_info pool_fee_account_info
    authority_info (bump_seed token_swap) n st.

Definition process_swap (amount_in minimum_amount_out : Z) (accounts : list AccountInfo)
    (st : store) : instruction_result store :=
  '(swap_info, it) ← next accounts;
  '(authority_info, it) ← next it;
  '(user_transfer_authority_info, it) ← next it;
  '(source_info, it) ← next it;
  '(swap_source_info, it) ← next it;
  '(swap_destination_info, it) ← next it;
  '(destination_info, it) ← next it;
  '(pool_mint_info, it) ← next it;
  '(pool_fee_account_info, it) ← next it;
  '(token_program_info, it) ← next it;
  fail_if (negb (bool_decide (owner (acct st (key swap_info)) = swap_program_id)))
    (returned IncorrectProgramId) ;;
  token_swap ← load_swap swap_info st;
  authority ← authority_id (key swap_info) (bump_seed token_swap);
  require_eq (key authority_info) authority SwapError.InvalidProgramAddress ;;
  fail_if (negb (bool_decide (key swap_source_info = token_a token_swap)
                 || bool_decide (key swap_source_info = token_b token_swap)))
    (swap_err SwapError.IncorrectSwapAccount) ;;
  fail_if (negb (bool_decide (key swap_destination_info = token_a token_swap)
                 || bool_decide (key swap_destination_info = token_b token_swap)))
    (swap_err SwapError.IncorrectSwapAccount) ;;
  require_ne (key swap_source_info) (key swap_destination_info) SwapError.InvalidInput ;;
  require_ne (key swap_source_info) (key source_info) SwapError.InvalidInput ;;
  require_ne (key swap_destination_info) (key destination_info) SwapError.InvalidInput ;;
  require_eq (key pool_mint_info) (pool_mint token_swap) SwapError.IncorrectPoolMint ;;
  require_eq (key pool_fee_account_info) (pool_fee_account token_swap)
    SwapError.IncorrectFeeAccount ;;
  require_eq (key token_program_info) (token_program_id token_swap)
    SwapError.IncorrectTokenProgramId ;;
  source_account ← unpack_token_account swap_source_info (token_program_id token_swap) st;
  dest_account ← unpack_token_account swap_destination_info (token_program_id token_swap) st;
  pool_mint ← unpack_mint pool_mint_info (token_program_id token_swap) st;
  let trade_direction :=
    if bool_decide (key swap_source_info = token_a token_swap) then AtoB else BtoA in
  r ← ok_or (SwapCurve.swap (swap_curve token_swap) amount_in (amount source_account)
               (amount dest_account) trade_direction (fees token_swap))
        (swap_err SwapError.ZeroTradingTokens);
  fail_if (total_destination_swapped r <? minimum_amount_out)
    (swap_err SwapError.ExceededSlippage) ;;
  let '(swap_token_a_amount, swap_token_b_amount) :=
    match trade_direction with
    | AtoB => (new_swap_source_amount r, new_swap_destination_amount r)
    | BtoA => (new_swap_destination_amount r, new_swap_source_amount r)
    end in
  n ← to_u64 (total_source_swapped r);
  st ← token_transfer (key swap_info) token_program_info source_info swap_source_info
         user_transfer_authority_info (bump_seed token_swap) n st;
  pool_token_amount ←
    curve_or (SwapCurve.withdraw_single_token_type_exact_out (swap_curve token_swap) (owner_fee r)
                swap_token_a_amount swap_token_b_amount (supply pool_mint) trade_direction
                (fees token_swap))
      SwapError.FeeCalculationFailure;
  st ← (if 0 <? pool_token_amount
        then mint_fees token_swap swap_info authority_info pool_mint_info pool_fee_account_info
               token_program_info it pool_token_amount st
        else Ok st);
  n ← to_u64 (total_destination_swapped r);
  token_transfer (key swap_info) token_program_info swap_destination_info destination_info
    authority_info (bump_seed token_swap) n st.

Definition process_deposit_all_token_types (pool_token_amount maximum_token_a_amount
    maximum_token_b_amount : Z) (accounts : list AccountInfo) (st : store)
  : instruction_result store :=
  '(swap_info, it) ← next accounts;
  '(authority_info, it) ← next it;
  '(user_transfer_authority_info, it) ← next it;
  '(source_a_info, it) ← next it;
  '(source_b_info, it) ← next it;
  '(token_a_info, it) ← next it;
  '(token_b_info, it) ← next it;
  '(pool_mint_info, it) ← next it;
  '(dest_info, it) ← next it;
  '(token_program_info, _) ← next it;
  token_swap ← load_swap swap_info st;
  let c := calculator (swap_curve token_swap) in
  fail_if (negb (Calculator.allows_deposits c)) (swap_err SwapError.UnsupportedCurveOperation) ;;
  check_accounts token_swap swap_info authority_info token_a_info token_b_info pool_mint_info
    token_program_info (Some source_a_info) (Some source_b_info) None st ;;
  token_a ← unpack_token_account token_a_info (token_program_id token_swap) st;
  token_b ← unpack_token_account token_b_info (token_program_id token_swap) st;
  pool_mint ← unpack_mint pool_mint_info (token_program_id token_swap) st;
  let current_pool_mint_supply := supply pool_mint in
  let '(pool_token_amount, pool_mint_supply) :=
    if 0 <? current_pool_mint_supply then (pool_token_amount, current_pool_mint_supply)
    else (Calculator.new_pool_supply c, Calculator.new_pool_supply c) in
  results ← curve_or (Calculator.pool_tokens_to_trading_tokens c pool_token_amount pool_mint_supply
                        (amount token_a) (amount token_b) Ceiling)
              SwapError.ZeroTradingTokens;
  token_a_amount ← to_u64 (token_a_amount results);
  fail_if (maximum_token_a_amount <? token_a_amount) (swap_err SwapError.ExceededSlippage) ;;
  fail_if (token_a_amount =? 0) (swap_err SwapError.ZeroTradingTokens) ;;
  token_b_amount ← to_u64 (token_b_amount results);
  fail_if (maximum_token_b_amount <? token_b_amount) (swap_err SwapError.ExceededSlippage) ;;
  fail_if (token_b_amount =? 0) (swap_err SwapError.ZeroTradingTokens) ;;
  pool_token_amount ← to_u64 pool_token_amount;
  st ← token_transfer (key swap_info) token_program_info source_a_info token_a_info
         user_transfer_authority_info (bump_seed token_swap) token_a_amount st;
  st ← token_transfer (key swap_info) token_program_info source_b_info token_b_info
         user_transfer_authority_info (bump_seed token_swap) token_b_amount st;
  token_mint_to (key swap_info) token_program_info pool_mint_info dest_info authority_info
    (bump_seed token_swap) pool_token_amount st.

(** The fee on a withdrawal of [pool_tokens], which the fee account itself does
    not pay. *)
Definition withdraw_fee_of (token_swap : SwapV1) (pool_fee_account_info source_info : AccountInfo)
    (pool_tokens : Z) : instruction_result Z :=
  if bool_decide (key pool_fee_account_info = key source_info) then Ok 0
  else ok_or (owner_withdraw_fee (fees token_swap) pool_tokens)
         (swap_err SwapError.FeeCalculationFailure).

(** The fee moves to the fee account, if there is one to pay. *)
Definition pay_withdraw_fee (token_swap : SwapV1) (swap_info token_program_info source_info
    pool_fee_account_info user_transfer_authority_info : AccountInfo) (withdraw_fee : Z)
    (st : store) : instruction_result store :=
  if 0 <? withdraw_fee then
    n ← to_u64 withdraw_fee;
    token_transfer (key swap_info) token_program_info source_info pool_fee_account_info
      user_transfer_authority_info (bump_seed token_swap) n st
  else Ok st.

(** What a withdrawal pays out of one reserve. *)
Definition withdraw_amount (result_amount : Z) (reserve : Account) (minimum : Z)
  : instruction_result Z :=
  n ← to_u64 result_amount;
  let n := Z.min (amount reserve) n in
  fail_if (n <? minimum) (swap_err SwapError.ExceededSlippage) ;;
  fail_if ((n =? 0) && negb (amount reserve =? 0)) (swap_err SwapError.ZeroTradingTokens) ;;
  Ok n.

Definition process_withdraw_all_token_types (pool_token_amount minimum_token_a_amount
    minimum_token_b_amount : Z) (accounts : list AccountInfo) (st : store)
  : instruction_result store :=
  '(swap_info, it) ← next accounts;
  '(authority_info, it) ← next it;
  '(user_transfer_authority_info, it) ← next it;
  '(pool_mint_info, it) ← next it;
  '(source_info, it) ← next it;
  '(token_a_info, it) ← next it;
  '(token_b_info, it) ← next it;
  '(dest_token_a_info, it) ← next it;
  '(dest_token_b_info, it) ← next it;
  '(pool_fee_account_info, it) ← next it;
  '(token_program_info, _) ← next it;
  token_swap ← load_swap swap_info st;
  check_accounts token_swap swap_info authority_info token_a_info token_b_info pool_mint_info
    token_program_info (Some dest_token_a_info) (Some dest_token_b_info)
    (Some pool_fee_account_info) st ;;
  token_a ← unpack_token_account token_a_info (token_program_id token_swap) st;
  token_b ← unpack_token_account token_b_info (token_program_id token_swap) st;
  pool_mint ← unpack_mint pool_mint_info (token_program_id token_swap) st;
  withdraw_fee ← withdraw_fee_of token_swap pool_fee_account_info source_info pool_token_amount;
  pool_token_amount ← ok_or (checked_sub pool_token_amount withdraw_fee)
                        (swap_err SwapError.CalculationFailure);
  results ← curve_or (Calculator.pool_tokens_to_trading_tokens (calculator (swap_curve token_swap))
                        pool_token_amount (supply pool_mint) (amount token_a) (amount token_b) Floor)
              SwapError.ZeroTradingTokens;
  token_a_amount ← withdraw_amount (token_a_amount results) token_a minimum_token_a_amount;
  token_b_amount ← withdraw_amount (token_b_amount results) token_b minimum_token_b_amount;
  st ← pay_withdraw_fee token_swap swap_info token_program_info source_info pool_fee_account_info
         user_transfer_authority_info withdraw_fee st;
  n ← to_u64 pool_token_amount;
  st ← token_burn (key swap_info) token_program_info source_info pool_mint_info
         user_transfer_authority_info (bump_seed token_swap) n st;
  st ← (if 0 <? token_a_amount
        then token_transfer (key swap_info) token_program_info token_a_info dest_token_a_info
               authority_info (bump_seed token_swap) token_a_amount st
        else Ok st);
  if 0 <? token_b_amount
  then token_transfer (key swap_info) token_program_info token_b_info dest_token_b_info
         authority_info (bump_seed token_swap) token_b_amount st
  else Ok st.

(** The side of the pool whose mint an account has. *)
Definition direction_of (user : Account) (swap_token_a swap_token_b : Account)
  : instruction_result TradeDirection :=
  if bool_decide (a_mint user = a_mint swap_token_a) then Ok AtoB
  else if bool_decide (a_mint user = a_mint swap_token_b) then Ok BtoA
  else Err (swap_err SwapError.IncorrectSwapAccount).

Definition process_deposit_single_token_type_exact_amount_in (source_token_amount
    minimum_pool_token_amount : Z) (accounts : list AccountInfo) (st : store)
  : instruction_result store :=
  '(swap_info, it) ← next accounts;
  '(authority_info, it) ← next it;
  '(user_transfer_authority_info, it) ← next it;
  '(source_info, it) ← next it;
  '(swap_token_a_info, it) ← next it;
  '(swap_token_b_info, it) ← next it;
  '(pool_mint_info, it) ← next it;
  '(destination_info, it) ← next it;
  '(token_program_info, _) ← next it;
  token_swap ← load_swap swap_info st;
  let c := calculator (swap_curve token_swap) in
  fail_if (negb (Calculator.allows_deposits c)) (swap_err SwapError.UnsupportedCurveOperation) ;;
  source_account ← unpack_token_account source_info (token_program_id token_swap) st;
  swap_token_a ← unpack_token_account swap_token_a_info (token_program_id token_swap) st;
  swap_token_b ← unpack_token_account swap_token_b_info (token_program_id token_swap) st;
  trade_direction ← direction_of source_account swap_token_a swap_token_b;
  let '(source_a_info, source_b_info) :=
    match trade_direction with
    | AtoB => (Some source_info, None)
    | BtoA => (None, Some source_info)
    end in
  check_accounts token_swap swap_info authority_info swap_token_a_info swap_token_b_info
    pool_mint_info token_program_info source_a_info source_b_info None st ;;
  pool_mint ← unpack_mint pool_mint_info (token_program_id token_swap) st;
  pool_token_amount ←
    (if 0 <? supply pool_mint
     then curve_or (SwapCurve.deposit_single_token_type (swap_curve token_swap) source_token_amount
                      (amount swap_token_a) (amount swap_token_b) (supply pool_mint)
                      trade_direction (fees token_swap))
            SwapError.ZeroTradingTokens
     else Ok (Calculator.new_pool_supply c));
  pool_token_amount ← to_u64 pool_token_amount;
  fail_if (pool_token_amount <? minimum_pool_token_amount) (swap_err SwapError.ExceededSlippage) ;;
  fail_if (pool_token_amount =? 0) (swap_err SwapError.ZeroTradingTokens) ;;
  st ← token_transfer (key swap_info) token_program_info source_info
         (match trade_direction with AtoB => swap_token_a_info | BtoA => swap_token_b_info end)
         user_transfer_authority_info (bump_seed token_swap) source_token_amount st;
  token_mint_to (key swap_info) token_program_info pool_mint_info destination_info authority_info
    (bump_seed token_swap) pool_token_amount st.

Definition process_withdraw_single_token_type_exact_amount_out (destination_token_amount
    maximum_pool_token_amount : Z) (accounts : list AccountInfo) (st : store)
  : instruction_result store :=
  '(swap_info, it) ← next accounts;
  '(authority_info, it) ← next it;
  '(user_transfer_authority_info, it) ← next it;
  '(pool_mint_info, it) ← next it;
  '(source_info, it) ← next it;
  '(swap_token_a_info, it) ← next it;
  '(swap_token_b_info, it) ← next it;
  '(destination_info, it) ← next it;
  '(pool_fee_account_info, it) ← next it;
  '(token_program_info, _) ← next it;
  token_swap ← load_swap swap_info st;
  destination_account ← unpack_token_account destination_info (token_program_id token_swap) st;
  swap_token_a ← unpack_token_account swap_token_a_info (token_program_id token_swap) st;
  swap_token_b ← unpack_token_account swap_token_b_info (token_program_id token_swap) st;
  trade_direction ← direction_of destination_account swap_token_a swap_token_b;
  let '(destination_a_info, destination_b_info) :=
    match trade_direction with
    | AtoB => (Some destination_info, None)
    | BtoA => (None, Some destination_info)
    end in
  check_accounts token_swap swap_info authority_info swap_token_a_info swap_token_b_info
    pool_mint_info token_program_info destination_a_info destination_b_info
    (Some pool_fee_account_info) st ;;
  pool_mint ← unpack_mint pool_mint_info (token_program_id token_swap) st;
  burn_pool_token_amount ←
    curve_or (SwapCurve.withdraw_single_token_type_exact_out (swap_curve token_swap)
                destination_token_amount (amount swap_token_a) (amount swap_token_b)
                (supply pool_mint) trade_direction (fees token_swap))
      SwapError.ZeroTradingTokens;
  withdraw_fee ← withdraw_fee_of token_swap pool_fee_account_info source_info
                   burn_pool_token_amount;
  pool_token_amount ← ok_or (checked_add u128_max burn_pool_token_amount withdraw_fee)
                        (swap_err SwapError.CalculationFailure);
  n ← to_u64 pool_token_amount;
  fail_if (maximum_pool_token_amount <? n) (swap_err SwapError.ExceededSlippage) ;;
  fail_if (pool_token_amount =? 0) (swap_err SwapError.ZeroTradingTokens) ;;
  st ← pay_withdraw_fee token_swap swap_info token_program_info source_info pool_fee_account_info
         user_transfer_authority_info withdraw_fee st;
  n ← to_u64 burn_pool_token_amount;
  st ← token_burn (key swap_info) token_program_info source_info pool_mint_info
         user_transfer_authority_info (bump_seed token_swap) n st;
  token_transfer (key swap_info) token_program_info
    (match trade_direction with AtoB => swap_token_a_info | BtoA => swap_token_b_info end)
    destination_info authority_info (bump_seed token_swap) destination_token_amount st.

Definition process_with_constraints (accounts : list AccountInfo) (input : list Z)
    (constraints : option SwapConstraints) (st : store) : instruction_result store :=
  i ← map_err returned (SwapInstruction.unpack input);
  match i with
  | SwapInstruction.Initialize fees swap_curve =>
      process_initialize fees swap_curve accounts constraints st
  | SwapInstruction.Swap amount_in minimum_amount_out =>
      process_swap amount_in minimum_amount_out accounts st
  | SwapInstruction.DepositAllTokenTypes pool_token_amount maximum_token_a_amount
      maximum_token_b_amount =>
      process_deposit_all_token_types pool_token_amount maximum_token_a_amount
        maximum_token_b_amount accounts st
  | SwapInstruction.WithdrawAllTokenTypes pool_token_amount minimum_token_a_amount
      minimum_token_b_amount =>
      process_withdraw_all_token_types pool_token_amount minimum_token_a_amount
        minimum_token_b_amount accounts st
  | SwapInstruction.DepositSingleTokenTypeExactAmountIn source_token_amount
      minimum_pool_token_amount =>
      process_deposit_single_token_type_exact_amount_in source_token_amount
        minimum_pool_token_amount accounts st
  | SwapInstruction.WithdrawSingleTokenTypeExactAmountOut destination_token_amount
      maximum_pool_token_amount =>
      process_withdraw_single_token_type_exact_amount_out destination_token_amount
        maximum_pool_token_amount accounts st
  end.

(** The program built without the feature [production] has no constraints. *)
Definition SWAP_CONSTRAINTS : option SwapConstraints := None.

Definition process (accounts : list AccountInfo) (input : list Z) (st : store)
  : instruction_result store :=
  process_with_constraints accounts input SWAP_CONSTRAINTS st.
End Processor.
