(* ===== verification/SwapPool.v ===== *)
(** * Swap program: the pool and its token program calls

    What an accepted call of the token program by the swap program does: it is a
    step of the token ledger ([TokenLedger.ledger_step]), signed by an account of
    the transaction or by the pool's own address, with the exact effect on the
    accounts named.  On this rests [pool_ok], the invariant of an open pool, and
    how each call changes its reserves and its supply of shares. *)

From stdpp Require Import base gmap list fin_maps relations strings.
From Stdlib Require Import ZArith Lia.
From S2P Require Import Prelude Sdk Runtime KeyedAccount Message SystemProgram.
From S2P Require Import TokenState TokenInstruction TokenProcessor TokenStore TokenAuthority TokenSpec TokenEffects TokenLedger.
From S2P Require Import ProgramAddress TokenClient TokenCalls SwapMath SwapCurve SwapCurveProofs SwapState SwapProcessor.

Section Pool.
Context (hashv : list (list Z) -> Hash).
Context (bytes_are_curve_point : Hash -> bool).
Context (deserialize_rent : list Z -> option Rent) (rent_get : program_result Rent).
Context (rent : Rent) (realloc : bool).
Context (swap_program_id : Pubkey).
Implicit Types (st : store) (accounts infos : list AccountInfo).

Abbreviation step := (ledger_step spl_token_id deserialize_rent rent_get).
Abbreviation authority_of :=
  (authority_id hashv bytes_are_curve_point swap_program_id).
Abbreviation call :=
  (invoke_token hashv bytes_are_curve_point deserialize_rent rent_get rent realloc swap_program_id).

(** [k] signed the transaction, or is the address of the pool. *)
Definition vouched (infos : list AccountInfo) (swap : Pubkey) (bump : Z) (k : Pubkey) : Prop :=
  (exists i, i ∈ infos /\ key i = k /\ is_signer i = true) \/ authority_of swap bump = Ok k.

(** An accepted call: a run of the token program that the runtime accepts. *)
Lemma call_run swap bump tp k1 k2 au i infos st st' :
  call swap bump (token_instruction tp k1 k2 au [] i) infos st = Ok st' -> wf_infos infos ->
  tp = spl_token_id /\ vouched infos swap bump au /\
  exists i1 i2 i3, key i1 = k1 /\ key i2 = k2 /\ key i3 = au /\ wf_infos [i1; i2; i3] /\
    TokenProcessor.process deserialize_rent rent_get spl_token_id [i1; i2; i3]
      (TokenInstruction.pack i) st = Ok st' /\
    verify_instruction spl_token_id rent realloc [i1; i2; i3] st st' = Ok tt.
Proof.
  intros H Hk. unfold invoke_token in H. inv_ok.
  match goal with Ht : token_instruction _ _ _ _ _ _ = Ok _ |- _ =>
    apply token_instruction_Ok in Ht as [-> ->] end.
  apply call_token_run in H as (callee & Hh & Hr & Hv); [|done]. cbn in Hh, Hr, Hv.
  pose proof Hh as (_ & Hw & _). apply handed_authority in Hh as (Hs & i1 & i2 & i3 & -> & ? & ? & ?).
  split_and!; [done| |by exists i1, i2, i3].
  destruct Hs as [Hs|(s & ->%list_elem_of_singleton & Hs)]; [by left|right].
  unfold authority_id. by rewrite Hs.
Qed.

Lemma call_step swap bump tp k1 k2 au i infos st st' :
  call swap bump (token_instruction tp k1 k2 au [] i) infos st = Ok st' ->
  wf_infos infos -> bytes (TokenInstruction.pack i) -> step st st'.
Proof.
  intros H Hk Hb. apply call_run in H as (_ & _ & ? & ? & ? & _ & _ & _ & Hk3 & Hp & Hv); [|done].
  by apply (L_token _ _ _ _ _ _ _ _ _ Hk3 Hb Hp Hv).
Qed.

Lemma call_Ok swap bump tp k1 k2 au i infos st st' :
  call swap bump (token_instruction tp k1 k2 au [] i) infos st = Ok st' ->
  wf_infos infos -> TokenInstruction.wf i ->
  tp = spl_token_id /\ vouched infos swap bump au /\
  exists i1 i2 i3, key i1 = k1 /\ key i2 = k2 /\ key i3 = au /\
    process_instruction deserialize_rent rent_get spl_token_id [i1; i2; i3] i st = Ok st'.
Proof.
  intros H Hk Hi. apply call_run in H as (Ht & Hv & i1 & i2 & i3 & ? & ? & ? & _ & Hp & _); [|done].
  split_and!; [done..|]. exists i1, i2, i3. split_and!; try done.
  unfold TokenProcessor.process in Hp. by rewrite TokenInstruction.unpack_pack_wf in Hp.
Qed.

Lemma pack_amount_bytes b n : 0 <= b <= 255 -> bytes (b :: to_le_bytes 8 n).
Proof. intros Hb. apply Forall_cons_2; [lia|apply to_le_bytes_bytes]. Qed.

(** The calls the processor makes are steps of the token ledger. *)
Section Steps.
Context (swap : Pubkey) (token_program i1 i2 i3 : AccountInfo) (bump n : Z) (st st' : store).
Context (Hk : wf_infos [i1; i2; i3; token_program]).
Abbreviation with_context f :=
  (f hashv bytes_are_curve_point deserialize_rent rent_get rent realloc swap_program_id swap
     token_program i1 i2 i3 bump n st).

Lemma transfer_step : with_context token_transfer = Ok st' -> step st st'.
Proof. intros H. eapply call_step; [exact H|done|by apply pack_amount_bytes]. Qed.
Lemma mint_step : with_context token_mint_to = Ok st' -> step st st'.
Proof. intros H. eapply call_step; [exact H|done|by apply pack_amount_bytes]. Qed.
Lemma burn_step : with_context token_burn = Ok st' -> step st st'.
Proof. intros H. eapply call_step; [exact H|done|by apply pack_amount_bytes]. Qed.
End Steps.

Section Calls.
Context (swap : Pubkey) (token_program : AccountInfo) (bump : Z) (st st' : store).
Context (Hst : wf_store st).
Abbreviation with_context f :=
  (f hashv bytes_are_curve_point deserialize_rent rent_get rent realloc swap_program_id swap
     token_program).

Lemma transfer_call source destination authority n :
  wf_infos [source; destination; authority; token_program] -> is_u64 n ->
  with_context token_transfer source destination authority bump n st = Ok st' ->
  wf_store st' /\
  vouched [source; destination; authority; token_program] swap bump (key authority) /\
  (key source = key destination /\ st' = st \/
   key source <> key destination /\
   exists callee, moved spl_token_id callee (key source) (key destination) n st st').
Proof.
  intros Hk Hn H. unfold token_transfer, transfer in H.
  apply call_Ok in H as (_ & Hv & i1 & i2 & i3 & Hi1 & Hi2 & _ & Hp); [|done..].
  cbn [process_instruction] in Hp.
  apply (transfer_effect deserialize_rent) in Hp as (Hst' & si & di & rest & E & E' & He); [|done|lia].
  injection E as <- <-. injection E' as <-.
  rewrite Hi1, Hi2 in He. naive_solver.
Qed.

Lemma mint_call mint destination authority n :
  wf_infos [mint; destination; authority; token_program] -> is_u64 n ->
  with_context token_mint_to mint destination authority bump n st = Ok st' ->
  wf_store st' /\ key token_program = spl_token_id /\
  exists callee, issued spl_token_id callee (key mint) (key destination) n st st'.
Proof.
  intros Hk Hn H. unfold token_mint_to, mint_to in H.
  apply call_Ok in H as (Htp & _ & i1 & i2 & i3 & Hi1 & Hi2 & _ & Hp); [|done..].
  apply (mint_to_effect deserialize_rent) in Hp as (Hst' & mi & di & rest & [= <- <- <-] & He); [|done|lia].
  rewrite Hi1, Hi2 in He. eauto.
Qed.

Lemma burn_call account mint authority n :
  wf_infos [account; mint; authority; token_program] -> is_u64 n ->
  with_context token_burn account mint authority bump n st = Ok st' ->
  wf_store st' /\
  vouched [account; mint; authority; token_program] swap bump (key authority) /\
  exists callee, retired spl_token_id callee (key mint) (key account) n st st'.
Proof.
  intros Hk Hn H. unfold token_burn, burn in H.
  apply call_Ok in H as (_ & Hv & i1 & i2 & i3 & Hi1 & Hi2 & _ & Hp); [|done..].
  apply (burn_effect deserialize_rent) in Hp as (Hst' & si & mi & rest & [= <- <- <-] & He); [|done|lia].
  rewrite Hi1, Hi2 in He. eauto.
Qed.
End Calls.

(** ** The invariant of an open pool *)
Definition reserve_key (p : SwapV1) (d : TradeDirection) : Pubkey :=
  match d with AtoB => token_a p | BtoA => token_b p end.
Definition reserve_mint (p : SwapV1) (d : TradeDirection) : Pubkey :=
  match d with AtoB => token_a_mint p | BtoA => token_b_mint p end.
Definition opposite (d : TradeDirection) : TradeDirection :=
  match d with AtoB => BtoA | BtoA => AtoB end.

(** The pool at [swap] has the recorded parameters [p], the reserve [r d] on
    each side and the mint [m] of its shares: the reserves and the mint belong
    to the address of the pool alone, and the three mints are different. *)
Record pool_ok (st : store) (swap : Pubkey) (p : SwapV1) (r : TradeDirection -> Account)
    (m : Mint) : Prop := {
  ok_store : wf_store st;
  ok_owned : owner (acct st swap) = swap_program_id;
  ok_state : SwapVersion.unpack (data (acct st swap)) = Ok p;
  ok_program : token_program_id p = spl_token_id;
  ok_curve : wf_calculator (calculator (swap_curve p)) /\
             Calculator.validate (calculator (swap_curve p)) = Ok tt;
  ok_fees : wf_fees (fees p) /\ Fees_validate (fees p) = Ok tt;
  ok_reserve d : has st (reserve_key p d) (r d);
  ok_held d : owner (acct st (reserve_key p d)) = spl_token_id;
  ok_authority d : authority_of swap (bump_seed p) = Ok (a_owner (r d));
  ok_mint d : a_mint (r d) = reserve_mint p d;
  ok_guarded d : delegate (r d) = None /\ close_authority (r d) = None;
  ok_shares : has st (pool_mint p) m;
  ok_shares_held : owner (acct st (pool_mint p)) = spl_token_id;
  ok_shares_authority : mint_authority m = Some (a_owner (r AtoB)) /\ freeze_authority m = None;
  ok_sides : reserve_mint p AtoB <> reserve_mint p BtoA;
  ok_shares_mint d : reserve_mint p d <> pool_mint p;
}.

(** Accounts of other mints than [k] are the same in both stores. *)
Definition other_mints (k : Pubkey) (st st' : store) : Prop :=
  forall j (x : Account), a_mint x <> k -> has st j x <-> has st' j x.

Lemma other_mints_frame ks k st st' :
  frame ks st st' ->
  (forall j (x : Account), j ∈ ks -> has st j x \/ has st' j x -> a_mint x = k) ->
  other_mints k st st'.
Proof.
  intros Hf Hks j x Hx. destruct (decide (j ∈ ks)) as [Hj|Hj].
  - split; intros H; destruct Hx; by eapply Hks; eauto.
  - unfold has. destruct (Hf j) as [_ E]. by rewrite E.
Qed.

Lemma moved_others callee s d n st st' :
  moved spl_token_id callee s d n st st' ->
  exists a, has st s a /\ other_mints (a_mint a) st st'.
Proof.
  intros [a b a' Ha Hb Hm _ _ _ _ _ (Hm' & _ & _) _ _ Ha' Hb' Hf _ _ _ _].
  exists a. split; [done|]. eapply other_mints_frame; [done|]. intros j x Hj Hx.
  rewrite !elem_of_cons, elem_of_nil in Hj.
  destruct_or! Hj; subst j; destruct Hx as [Hx|Hx].
  - by rewrite (has_inj _ _ _ _ Hx Ha).
  - by rewrite (has_inj _ _ _ _ Hx Ha').
  - by rewrite (has_inj _ _ _ _ Hx Hb).
  - by rewrite (has_inj _ _ _ _ Hx Hb').
Qed.

Lemma supply_others mk d st st' (m m' : Mint) (b b' : Account) :
  has st mk m -> has st' mk m' -> has st d b -> has st' d b' -> a_mint b = mk ->
  a_mint b' = mk -> frame [mk; d] st st' -> other_mints mk st st'.
Proof.
  intros Hm Hm' Hb Hb' Hmb Hmb' Hf. eapply other_mints_frame; [done|]. intros j x Hj Hx.
  rewrite !elem_of_cons, elem_of_nil in Hj. destruct_or! Hj; subst j.
  - destruct Hx as [Hx|Hx]; by pose proof (has_account_mint_ne _ _ _ _ _ Hx ltac:(eassumption)).
  - destruct Hx as [Hx|Hx]; [rewrite (has_inj _ _ _ _ Hx Hb)|rewrite (has_inj _ _ _ _ Hx Hb')]; done.
Qed.

Section Changes.
Context (st st' : store) (swap : Pubkey) (p : SwapV1) (r : TradeDirection -> Account) (m : Mint).
Context (Hok : pool_ok st swap p r m).

Lemma swap_length : length (data (acct st swap)) = 324%nat.
Proof.
  pose proof (ok_state _ _ _ _ _ Hok) as H. unfold SwapVersion.unpack in H.
  destruct (data (acct st swap)) as [|v rest]; [done|]. case_match; [|done].
  apply unpack_Ok in H as (Hl & _). cbn in *. by rewrite Hl.
Qed.

Lemma not_swap {T} `{Pack T} k (x : T) : has st k x -> LEN T <> 324%nat -> k <> swap.
Proof. intros Hx%has_length Hn ->. rewrite swap_length in Hx. congruence. Qed.

Definition with_reserve (d : TradeDirection) (n : Z) (e : TradeDirection) : Account :=
  match d, e with
  | AtoB, AtoB | BtoA, BtoA => with_amount (r e) n
  | _, _ => r e
  end.

Lemma pool_changed ks (r' : TradeDirection -> Account) (m' : Mint) :
  wf_store st' -> frame ks st st' -> swap ∉ ks ->
  (forall d, has st' (reserve_key p d) (r' d)) ->
  (forall d, a_owner (r' d) = a_owner (r d) /\ a_mint (r' d) = a_mint (r d) /\
             delegate (r' d) = delegate (r d) /\ close_authority (r' d) = close_authority (r d)) ->
  has st' (pool_mint p) m' -> mint_authority m' = mint_authority m ->
  freeze_authority m' = freeze_authority m ->
  pool_ok st' swap p r' m'.
Proof.
  intros Hst' Hf Hsw Hr Hsame Hm Ha Hfa. destruct Hok. destruct (Hf swap) as [Ho E].
  specialize (E Hsw).
  assert (forall d, a_owner (r' d) = a_owner (r d)) as Hown by (intros d; apply Hsame).
  split; rewrite ?E; try done; intros; rewrite ?Hown, ?Ha, ?Hfa; try done.
  - by rewrite (proj1 (Hf _)).
  - by destruct (Hsame d) as (_ & -> & _).
  - by destruct (Hsame d) as (_ & _ & -> & ->).
  - by rewrite (proj1 (Hf _)).
Qed.

Lemma reserve_sides d e : reserve_mint p d = reserve_mint p e -> d = e.
Proof. pose proof (ok_sides _ _ _ _ _ Hok). destruct d, e; cbn in *; congruence. Qed.

(** A movement of tokens of one side, into or out of its reserve. *)
Lemma reserve_changed ks d n :
  wf_store st' -> frame ks st st' -> other_mints (reserve_mint p d) st st' ->
  (forall j, j ∈ ks -> exists a : Account, has st j a) ->
  has st' (reserve_key p d) (with_amount (r d) n) ->
  pool_ok st' swap p (with_reserve d n) m.
Proof.
  intros Hst' Hf Ho Hks Hd. pose proof (ok_shares _ _ _ _ _ Hok) as Hm.
  eapply pool_changed; try done.
  - intros [a Ha]%Hks. by apply (not_swap _ _ Ha).
  - intros e. pose proof (ok_reserve _ _ _ _ _ Hok e) as He.
    pose proof (ok_mint _ _ _ _ _ Hok e) as Hme. pose proof (ok_sides _ _ _ _ _ Hok).
    destruct d, e; cbn [with_reserve]; try done; apply Ho; try done; cbn in *; congruence.
  - intros e. by destruct d, e.
  - eapply has_frame; [done| |done]. intros [a Ha]%Hks.
    by apply (has_account_mint_ne _ _ _ _ _ Ha Hm).
Qed.

(** A movement of shares. *)
Lemma shares_changed ks (m' : Mint) :
  wf_store st' -> frame ks st st' -> other_mints (pool_mint p) st st' ->
  (forall j, j ∈ ks -> j = pool_mint p \/ exists a : Account, has st j a) ->
  has st' (pool_mint p) m' -> mint_authority m' = mint_authority m ->
  freeze_authority m' = freeze_authority m ->
  pool_ok st' swap p r m'.
Proof.
  intros Hst' Hf Ho Hks Hm. eapply pool_changed; try done.
  - intros [E|[a Ha]]%Hks; [|by apply (not_swap _ _ Ha)].
    by apply (not_swap _ _ (ok_shares _ _ _ _ _ Hok)).
  - intros e. apply Ho; [|apply (ok_reserve _ _ _ _ _ Hok)].
    rewrite (ok_mint _ _ _ _ _ Hok). apply (ok_shares_mint _ _ _ _ _ Hok).
Qed.
End Changes.

(** ** The calls on an open pool *)
Section PoolCalls.
Context (st st' : store) (swap : Pubkey) (p : SwapV1) (r : TradeDirection -> Account) (m : Mint).
Context (Hok : pool_ok st swap p r m).
Context (swap_key : Pubkey) (token_program : AccountInfo) (bump : Z).
Abbreviation with_context f :=
  (f hashv bytes_are_curve_point deserialize_rent rent_get rent realloc swap_program_id swap_key
     token_program).

(** [k] had [n] more tokens of the mint before, or [n] fewer if [n] is negative. *)
Definition paid (k mint : Pubkey) (n : Z) : Prop :=
  exists u u', has st k u /\ has st' k u' /\ a_mint u = mint /\ a_mint u' = mint /\
    amount u' = amount u - n.

Lemma pay_in source destination authority n d :
  wf_infos [source; destination; authority; token_program] -> is_u64 n ->
  key destination = reserve_key p d -> key source <> key destination ->
  with_context token_transfer source destination authority bump n st = Ok st' ->
  pool_ok st' swap p (with_reserve r d (amount (r d) + n)) m /\
  other_mints (reserve_mint p d) st st' /\ amount (r d) + n <= u64_max /\
  vouched [source; destination; authority; token_program] swap_key bump (key authority) /\
  paid (key source) (reserve_mint p d) n.
Proof.
  intros Hk Hn Hd Hne H.
  apply transfer_call in H as (Hst' & Hv & [[]|[_ [callee Hm]]]);
    [done| |apply (ok_store _ _ _ _ _ Hok)|done..].
  pose proof (moved_others _ _ _ _ _ _ Hm) as (a0 & Ha0 & Ho).
  destruct Hm as [a b a' Ha Hb Hm _ _ Hn' Hmax _ (Hm' & _ & _) _ _ Ha' Hb' Hf _ _ _ _].
  rewrite (has_inj _ _ _ _ Ha0 Ha) in Ho. rewrite Hd in *.
  rewrite (has_inj _ _ _ _ Hb (ok_reserve _ _ _ _ _ Hok d)) in *.
  pose proof (ok_mint _ _ _ _ _ Hok d) as Hmd. rewrite Hm, Hmd in *.
  split_and!; try done.
  - eapply reserve_changed; try done. intros j Hj.
    rewrite !elem_of_cons, elem_of_nil in Hj. destruct_or! Hj; subst; eauto.
  - eexists _, _. split_and!; [exact Ha|exact Ha'|congruence|cbn; congruence|done].
Qed.

Lemma pay_out source destination authority n d :
  wf_infos [source; destination; authority; token_program] -> is_u64 n ->
  key source = reserve_key p d -> key source <> key destination ->
  with_context token_transfer source destination authority bump n st = Ok st' ->
  pool_ok st' swap p (with_reserve r d (amount (r d) - n)) m /\
  other_mints (reserve_mint p d) st st' /\ n <= amount (r d) /\
  paid (key destination) (reserve_mint p d) (- n).
Proof.
  intros Hk Hn Hd Hne H.
  apply transfer_call in H as (Hst' & Hv & [[]|[_ [callee Hm]]]);
    [done| |apply (ok_store _ _ _ _ _ Hok)|done..].
  pose proof (moved_others _ _ _ _ _ _ Hm) as (a0 & Ha0 & Ho).
  destruct Hm as [a b a' Ha Hb Hm _ _ Hn' Hmax _ _ _ Hnone Ha' Hb' Hf _ _ _ _].
  rewrite (has_inj _ _ _ _ Ha0 Ha) in Ho. rewrite Hd in *.
  pose proof (has_inj _ _ _ _ Ha (ok_reserve _ _ _ _ _ Hok d)) as ->.
  pose proof (ok_mint _ _ _ _ _ Hok d) as Hmd. rewrite Hmd in *.
  rewrite Hnone in Ha' by apply (ok_guarded _ _ _ _ _ Hok d).
  split_and!; try done; try lia.
  - eapply reserve_changed; try done. intros j Hj.
    rewrite !elem_of_cons, elem_of_nil in Hj. destruct_or! Hj; subst; eauto.
  - eexists _, _. split_and!; [exact Hb|exact Hb'|done|done|cbn; lia].
Qed.

Lemma issue mint destination authority n :
  wf_infos [mint; destination; authority; token_program] -> is_u64 n ->
  key mint = pool_mint p ->
  with_context token_mint_to mint destination authority bump n st = Ok st' ->
  pool_ok st' swap p r (with_supply m (supply m + n)) /\
  other_mints (pool_mint p) st st' /\ paid (key destination) (pool_mint p) (- n).
Proof.
  intros Hk Hn Hd H.
  apply mint_call in H as (Hst' & _ & callee & [x b au Hx Hb Hm _ _ _ _ _ _ _ Hx' Hb' Hf _]);
    [|apply (ok_store _ _ _ _ _ Hok)|done..].
  rewrite Hd in *. pose proof (has_inj _ _ _ _ Hx (ok_shares _ _ _ _ _ Hok)) as ->.
  assert (other_mints (pool_mint p) st st') as Ho by by eapply supply_others.
  split_and!; try done.
  - eapply shares_changed; try done. intros j Hj.
    rewrite !elem_of_cons, elem_of_nil in Hj. destruct_or! Hj; subst; eauto.
  - eexists _, _. split_and!; [exact Hb|exact Hb'|done|done|cbn; lia].
Qed.

Lemma retire account mint authority n :
  wf_infos [account; mint; authority; token_program] -> is_u64 n ->
  key mint = pool_mint p ->
  with_context token_burn account mint authority bump n st = Ok st' ->
  pool_ok st' swap p r (with_supply m (supply m - n)) /\
  other_mints (pool_mint p) st st' /\ n <= supply m /\
  vouched [account; mint; authority; token_program] swap_key bump (key authority) /\
  paid (key account) (pool_mint p) n.
Proof.
  intros Hk Hn Hd H.
  apply burn_call in H as (Hst' & Hv & callee
    & [x a a' Hx Ha Hm _ _ _ Hle _ (Hm' & _ & _) _ Hx' Ha' Hf _]);
    [|apply (ok_store _ _ _ _ _ Hok)|done..].
  rewrite Hd in *. pose proof (has_inj _ _ _ _ Hx (ok_shares _ _ _ _ _ Hok)) as ->.
  assert (other_mints (pool_mint p) st st') as Ho.
  { eapply supply_others; [exact Hx|exact Hx'|exact Ha|exact Ha'|done|cbn; congruence|done]. }
  split_and!; try done.
  - eapply shares_changed; try done. intros j Hj.
    rewrite !elem_of_cons, elem_of_nil in Hj. destruct_or! Hj; subst; eauto.
  - eexists _, _. split_and!; [exact Ha|exact Ha'|done|cbn; congruence|done].
Qed.

(** Shares that change hands, known by what the source holds afterwards. *)
Lemma move_shares source destination authority n (u' : Account) :
  wf_infos [source; destination; authority; token_program] -> is_u64 n ->
  with_context token_transfer source destination authority bump n st = Ok st' ->
  has st' (key source) u' -> a_mint u' = pool_mint p ->
  pool_ok st' swap p r m /\ other_mints (pool_mint p) st st' /\
  (key source <> key destination -> paid (key source) (pool_mint p) n).
Proof.
  intros Hk Hn H Hu Hmu.
  apply transfer_call in H as (Hst' & Hv & [[? ->]|[_ [callee Hm]]]);
    [done| |apply (ok_store _ _ _ _ _ Hok)|done..].
  pose proof (moved_others _ _ _ _ _ _ Hm) as (a0 & Ha0 & Ho).
  destruct Hm as [a b a' Ha Hb Hm _ _ Hn' Hmax _ (Hm' & _ & _) _ _ Ha' Hb' Hf _ _ _ _].
  rewrite (has_inj _ _ _ _ Ha0 Ha) in Ho.
  assert (a_mint a = pool_mint p) as Hp.
  { rewrite <- Hmu, (has_inj _ _ _ _ Hu Ha'). cbn. congruence. }
  rewrite Hp in Ho. pose proof (ok_shares _ _ _ _ _ Hok) as Hs. split_and!; [|done|].
  2: { intros _. eexists _, _. split_and!; [exact Ha|exact Ha'|done|cbn; congruence|done]. }
  assert (forall j, j ∈ [key source; key destination] -> exists x : Account, has st j x) as Hks.
  { intros j Hj. rewrite !elem_of_cons, elem_of_nil in Hj. destruct_or! Hj; subst; eauto. }
  eapply shares_changed; try done; [auto|]. eapply has_frame; [done| |done].
  intros [x Hx]%Hks. by apply (has_account_mint_ne _ _ _ _ _ Hx Hs).
Qed.
End PoolCalls.
End Pool.
