(* ===== verification/SwapSpec.v ===== *)
(** * Swap program: which token instructions it issues

    What every instruction of the swap program may do with tokens, as a plan:
    the list of instructions of the token program it issues, each with the
    accounts it names, the authority that signs it and its amount, in terms of
    the record of the pool, its reserves and its shares ([planned]).
    [swap_acts_through_tokens] shows that an accepted instruction carries out such
    a plan and does nothing else. *)

From stdpp Require Import base gmap list fin_maps relations strings.
From Stdlib Require Import ZArith Lia.
From S2P Require Import Prelude Sdk Runtime KeyedAccount Message SystemProgram.
From S2P Require Import TokenState TokenInstruction TokenProcessor TokenStore TokenAuthority TokenSpec TokenEffects TokenLedger.
From S2P Require Import ProgramAddress TokenClient SwapMath SwapCurve SwapCurveProofs SwapState.
From S2P Require Import SwapProcessor SwapPool.

(** ** The checks of the handlers as facts *)
Lemma next_Ok it i rest : next it = Ok (i, rest) -> it = i :: rest.
Proof. unfold next. intros H. inv_ok. by apply next_account_info_Ok. Qed.
Lemma require_eq_Ok a b e u : require_eq a b e = Ok u -> a = b.
Proof. unfold require_eq. intros H. inv_ok. by to_prop. Qed.
Lemma require_ne_Ok a b e u : require_ne a b e = Ok u -> a <> b.
Proof. unfold require_ne. intros H. inv_ok. by to_prop. Qed.

Lemma to_u64_Ok v n : to_u64 v = Ok n -> n = v /\ v <= u64_max.
Proof. unfold to_u64. intros H. case_if H; inv_ok. by to_prop. Qed.

Lemma unpack_token_account_Ok i tp st a : unpack_token_account i tp st = Ok a -> has st (key i) a.
Proof. unfold unpack_token_account. intros H. inv_ok. done. Qed.
Lemma unpack_mint_Ok i tp st m : unpack_mint i tp st = Ok m -> has st (key i) m.
Proof. unfold unpack_mint. intros H. inv_ok. done. Qed.

Lemma load_swap_Ok i st p : load_swap i st = Ok p -> SwapVersion.unpack (data (acct st (key i))) = Ok p.
Proof. unfold load_swap. intros H. by inv_ok. Qed.

Lemma unpack_account_owner i tp st a :
  unpack_token_account i tp st = Ok a -> has st (key i) a /\ owner (acct st (key i)) = tp.
Proof. unfold unpack_token_account. intros H. inv_ok. by apply require_eq_Ok in Hr. Qed.
Lemma unpack_mint_owner i tp st m :
  unpack_mint i tp st = Ok m -> has st (key i) m /\ owner (acct st (key i)) = tp.
Proof. unfold unpack_mint. intros H. inv_ok. by apply require_eq_Ok in Hr. Qed.

(** The accounts of a handler, and their well-formed keys. *)
Ltac take_accounts :=
  unfold wf_infos in *;
  repeat match goal with
  | H : next _ = Ok (_, _) |- _ => apply next_Ok in H; subst
  | H : Forall _ (_ :: _) |- _ => apply Forall_cons in H as [? H]
  end.
Ltac wf_solve := solve [repeat apply Forall_cons_2; try done; apply Forall_nil_2].

(** The checks of a handler as facts. *)
Ltac inv_guards :=
  inv_ok;
  repeat match goal with
  | H : require_eq _ _ _ = Ok _ |- _ => apply require_eq_Ok in H
  | H : require_ne _ _ _ = Ok _ |- _ => apply require_ne_Ok in H
  | H : to_u64 _ = Ok _ |- _ => apply to_u64_Ok in H as [? H]; subst
  | H : unpack_token_account _ _ _ = Ok _ |- _ => apply unpack_token_account_Ok in H
  | H : unpack_mint _ _ _ = Ok _ |- _ => apply unpack_mint_Ok in H
  | H : load_swap _ _ = Ok _ |- _ => apply load_swap_Ok in H
  | H : curve_or _ _ = Ok _ |- _ => unfold curve_or in H; apply map_err_Ok in H
  end;
  to_prop.

Lemma trade_sides p k k' :
  k = token_a p \/ k = token_b p -> k' = token_a p \/ k' = token_b p -> k <> k' ->
  exists d, (if bool_decide (k = token_a p) then AtoB else BtoA) = d /\
    k = reserve_key p d /\ k' = reserve_key p (opposite d).
Proof. intros. case_bool_decide; eexists; (split; [done|]); cbn; intuition congruence. Qed.

(** The checks on a new pool. *)
Record founded_on (authority mint_key : Pubkey) (c : SwapCurve) (a b fa dst : Account) (m : Mint) : Prop := {
  fo_reserves : a_owner a = authority /\ a_owner b = authority;
  fo_outputs : a_owner dst <> authority /\ a_owner fa <> authority;
  fo_sides : a_mint a <> a_mint b;
  fo_supply : Calculator.validate_supply (calculator c) (amount a) (amount b) = Ok tt;
  fo_delegates : delegate a = None /\ delegate b = None;
  fo_close : close_authority a = None /\ close_authority b = None;
  fo_mint : mint_authority m = Some authority /\ supply m = 0 /\ freeze_authority m = None;
  fo_fee : a_mint fa = mint_key;
}.

Lemma check_new_pool_Ok k c pm a b fa dst m u :
  check_new_pool k c pm a b fa dst m = Ok u -> founded_on k pm c a b fa dst m.
Proof.
  unfold check_new_pool. intros H. inv_guards.
  repeat match goal with Hn : ~ is_Some _ |- _ => apply eq_None_not_Some in Hn end.
  repeat match goal with x : unit |- _ => destruct x end.
  split; split_and?; congruence || done.
Qed.

(** The constraints of the owner of the program on a new pool, if there are any. *)
Definition within_constraints (constraints : option SwapConstraints) (fee_account : Account)
    (f : Fees) (c : SwapCurve) : Prop :=
  forall o, constraints = Some o ->
    owner_key o = Some (a_owner fee_account) /\ validate_curve o c = Ok tt /\ validate_fees o f = Ok tt.

Lemma check_constraints_Ok constraints fa f c u :
  check_constraints constraints fa f c = Ok u -> within_constraints constraints fa f c.
Proof.
  unfold check_constraints. intros H o ->. inv_guards.
  repeat match goal with x : unit |- _ => destruct x end. by split_and!; try congruence.
Qed.

Section Spec.
Context (hashv : list (list Z) -> Hash).
Context (bytes_are_curve_point : Hash -> bool).
Context (deserialize_rent : list Z -> option Rent) (rent_get : program_result Rent).
Context (rent : Rent) (realloc : bool).
Context (swap_program_id : Pubkey).
Implicit Types (st : store) (accounts infos it : list AccountInfo).

Abbreviation step := (ledger_step spl_token_id deserialize_rent rent_get).
Abbreviation with_context f :=
  (f hashv bytes_are_curve_point deserialize_rent rent_get rent realloc swap_program_id).
Abbreviation authority_of := (authority_id hashv bytes_are_curve_point swap_program_id).

(** ** Calls of the token program *)

(** An instruction of the token program with the accounts it is about. *)
Record token_call := Call {
  tc_first : Pubkey; tc_second : Pubkey; tc_authority : Pubkey;
  tc_instruction : TokenInstruction.t;
}.

Definition transfers (source destination authority : Pubkey) (n : Z) : token_call :=
  Call source destination authority (TokenInstruction.Transfer n).
Definition mints (mint destination authority : Pubkey) (n : Z) : token_call :=
  Call mint destination authority (TokenInstruction.MintTo n).
Definition burns (account mint authority : Pubkey) (n : Z) : token_call :=
  Call account mint authority (TokenInstruction.Burn n).

(** The token program accepts the call on these three accounts, the runtime
    accepts what it did, and its authority signed the instruction of the swap
    program or is the address of the pool. *)
Definition performed accounts (swap : Pubkey) (bump : Z) (c : token_call) st st' : Prop :=
  vouched hashv bytes_are_curve_point swap_program_id accounts swap bump (tc_authority c) /\
  exists i1 i2 i3, key i1 = tc_first c /\ key i2 = tc_second c /\ key i3 = tc_authority c /\ wf_infos [i1; i2; i3] /\
    TokenProcessor.process deserialize_rent rent_get spl_token_id [i1; i2; i3]
      (TokenInstruction.pack (tc_instruction c)) st = Ok st' /\
    verify_instruction spl_token_id rent realloc [i1; i2; i3] st st' = Ok tt.

(** The calls in order, and nothing between them. *)
Fixpoint carried_out accounts swap bump (calls : list token_call) st st' : Prop :=
  match calls with
  | [] => st' = st
  | c :: cs => exists st1, performed accounts swap bump c st st1 /\
                 carried_out accounts swap bump cs st1 st'
  end.

Lemma carried_out_app accounts swap bump cs1 cs2 st1 st2 st3 :
  carried_out accounts swap bump cs1 st1 st2 -> carried_out accounts swap bump cs2 st2 st3 ->
  carried_out accounts swap bump (cs1 ++ cs2) st1 st3.
Proof.
  revert st1. induction cs1 as [|c cs IH]; cbn; intros st1; [by intros ->|].
  intros (s & Hc & Hs) H2. exists s. eauto.
Qed.

(** ** The plans *)

(** Of what belongs to the two sides of a trade, that of token A. *)
Definition side {X} (d : TradeDirection) (source destination : X) : X :=
  match d with AtoB => source | BtoA => destination end.

(** The shares of the owner's fee, of which the host account, if there is one,
    gets its part. *)
Inductive fee_plan (p : SwapV1) (pa : Pubkey) (tail : list Pubkey) : Z -> list token_call -> Prop :=
  | no_fee n : n <= 0 -> fee_plan p pa tail n []
  | owner_fee_only n :
      0 < n -> (tail = [] \/ exists h, host_fee (fees p) n = Some h /\ h <= 0) ->
      fee_plan p pa tail n [mints (pool_mint p) (pool_fee_account p) pa n]
  | host_and_owner_fee n host h rest :
      tail = host :: rest -> 0 < h <= n -> host_fee (fees p) n = Some h ->
      fee_plan p pa tail n [mints (pool_mint p) host pa h;
                            mints (pool_mint p) (pool_fee_account p) pa (n - h)].

(** The fee on a withdrawal of [n] shares, which the fee account does not pay. *)
Definition withdrawal_fee (p : SwapV1) (src : Pubkey) (n f : Z) : Prop :=
  if decide (src = pool_fee_account p) then f = 0 else owner_withdraw_fee (fees p) n = Some f.

(** What a withdrawal pays of a reserve: the amount of the curve, but not more
    than there is, and nothing only from an empty reserve. *)
Definition paid_out (reserve : Account) (computed minimum n : Z) : Prop :=
  n = Z.min (amount reserve) computed /\ minimum <= n /\ (n = 0 -> amount reserve = 0).

(** The calls of an instruction on the pool with record [p], address [pa],
    reserves [a] and [b] and mint of shares [m], given the keys of the accounts
    passed: the reserves, the mint of the shares, the fee account and the token
    program are the recorded ones; only the address of the pool moves its reserves
    and issues shares; the user's authority moves and burns the rest; the user's
    account is not the reserve on its side; and the amounts are those of the curve
    and the fees of the pool. *)
Inductive planned (p : SwapV1) (pa : Pubkey) (a b : Account) (m : Mint)
    : SwapInstruction.t -> list Pubkey -> list token_call -> Prop :=
  | P_swap amount_in minimum d swap user src dst tail r f fee_calls :
      SwapCurve.swap (swap_curve p) amount_in (amount (side d a b)) (amount (side d b a)) d (fees p)
        = Some r ->
      minimum <= total_destination_swapped r ->
      SwapCurve.withdraw_single_token_type_exact_out (swap_curve p) (owner_fee r)
        (side d (new_swap_source_amount r) (new_swap_destination_amount r))
        (side d (new_swap_destination_amount r) (new_swap_source_amount r)) (supply m) d (fees p)
        = Ok f ->
      src <> reserve_key p d -> dst <> reserve_key p (opposite d) ->
      fee_plan p pa tail f fee_calls ->
      planned p pa a b m (SwapInstruction.Swap amount_in minimum)
        (swap :: pa :: user :: src :: reserve_key p d :: reserve_key p (opposite d) :: dst ::
         pool_mint p :: pool_fee_account p :: spl_token_id :: tail)
        (transfers src (reserve_key p d) user (total_source_swapped r) :: fee_calls ++
         [transfers (reserve_key p (opposite d)) dst pa (total_destination_swapped r)])
  | P_deposit_all shares maxa maxb swap user sa sb dst tail n s r :
      Calculator.allows_deposits (calculator (swap_curve p)) = true ->
      (if 0 <? supply m then n = shares /\ s = supply m
       else n = Calculator.new_pool_supply (calculator (swap_curve p)) /\ s = n) ->
      Calculator.pool_tokens_to_trading_tokens (calculator (swap_curve p)) n s (amount a) (amount b)
        Ceiling = Ok r ->
      token_a_amount r <= maxa -> token_b_amount r <= maxb ->
      token_a_amount r <> 0 -> token_b_amount r <> 0 ->
      sa <> token_a p -> sb <> token_b p ->
      planned p pa a b m (SwapInstruction.DepositAllTokenTypes shares maxa maxb)
        (swap :: pa :: user :: sa :: sb :: token_a p :: token_b p :: pool_mint p :: dst ::
         spl_token_id :: tail)
        [transfers sa (token_a p) user (token_a_amount r);
         transfers sb (token_b p) user (token_b_amount r);
         mints (pool_mint p) dst pa n]
  | P_withdraw_all shares mina minb swap user src da db tail f r na nb :
      withdrawal_fee p src shares f -> f <= shares ->
      Calculator.pool_tokens_to_trading_tokens (calculator (swap_curve p)) (shares - f) (supply m)
        (amount a) (amount b) Floor = Ok r ->
      paid_out a (token_a_amount r) mina na -> paid_out b (token_b_amount r) minb nb ->
      da <> token_a p -> db <> token_b p ->
      planned p pa a b m (SwapInstruction.WithdrawAllTokenTypes shares mina minb)
        (swap :: pa :: user :: pool_mint p :: src :: token_a p :: token_b p :: da :: db ::
         pool_fee_account p :: spl_token_id :: tail)
        ((if 0 <? f then [transfers src (pool_fee_account p) user f] else []) ++
         [burns src (pool_mint p) user (shares - f)] ++
         (if 0 <? na then [transfers (token_a p) da pa na] else []) ++
         (if 0 <? nb then [transfers (token_b p) db pa nb] else []))
  | P_deposit_single n minimum d swap user src dst tail k :
      Calculator.allows_deposits (calculator (swap_curve p)) = true ->
      (if 0 <? supply m
       then SwapCurve.deposit_single_token_type (swap_curve p) n (amount a) (amount b) (supply m) d
              (fees p) = Ok k
       else k = Calculator.new_pool_supply (calculator (swap_curve p))) ->
      minimum <= k -> k <> 0 -> src <> reserve_key p d ->
      planned p pa a b m (SwapInstruction.DepositSingleTokenTypeExactAmountIn n minimum)
        (swap :: pa :: user :: src :: token_a p :: token_b p :: pool_mint p :: dst ::
         spl_token_id :: tail)
        [transfers src (reserve_key p d) user n; mints (pool_mint p) dst pa k]
  | P_withdraw_single n maximum d swap user src dst tail f k :
      SwapCurve.withdraw_single_token_type_exact_out (swap_curve p) n (amount a) (amount b) (supply m)
        d (fees p) = Ok k ->
      withdrawal_fee p src k f -> k + f <= maximum -> k + f <> 0 -> dst <> reserve_key p d ->
      planned p pa a b m (SwapInstruction.WithdrawSingleTokenTypeExactAmountOut n maximum)
        (swap :: pa :: user :: pool_mint p :: src :: token_a p :: token_b p :: dst ::
         pool_fee_account p :: spl_token_id :: tail)
        ((if 0 <? f then [transfers src (pool_fee_account p) user f] else []) ++
         [burns src (pool_mint p) user k; transfers (reserve_key p d) dst pa n]).

(** An instruction on a pool: its record is read from the account named first,
    which the swap program owns, its reserves and shares are of the recorded token
    program, and a plan for it is carried out. *)
Definition pool_plan accounts (i : SwapInstruction.t) st st' : Prop :=
  exists info rest p pa a b m calls,
    accounts = info :: rest /\ owner (acct st (key info)) = swap_program_id /\
    SwapVersion.unpack (data (acct st (key info))) = Ok p /\
    authority_of (key info) (bump_seed p) = Ok pa /\
    token_program_id p = spl_token_id /\
    has st (token_a p) a /\ has st (token_b p) b /\ has st (pool_mint p) m /\
    Forall (fun k => owner (acct st k) = spl_token_id) [token_a p; token_b p; pool_mint p] /\
    planned p pa a b m i (map key accounts) calls /\
    carried_out accounts (key info) (bump_seed p) calls st st'.

(** The creation of a pool: on accounts of the token program that the address of
    the pool alone controls, the first shares are issued to the destination, and
    the record of these parameters is written into the account named first. *)
Definition pool_founded (constraints : option SwapConstraints) (f : Fees) (c : SwapCurve)
    accounts st st' : Prop :=
  exists swap pa ta tb mint fee dst rest bump a b fa da m st1 d,
    map key accounts = swap :: pa :: ta :: tb :: mint :: fee :: dst :: spl_token_id :: rest /\
    SwapVersion.is_initialized (data (acct st swap)) = Ok false /\
    authority_of swap bump = Ok pa /\
    has st ta a /\ has st tb b /\ has st fee fa /\ has st dst da /\ has st mint m /\
    Forall (fun k => owner (acct st k) = spl_token_id) [ta; tb; fee; dst; mint] /\
    founded_on pa mint c a b fa da m /\ within_constraints constraints fa f c /\
    Fees_validate f = Ok tt /\ Calculator.validate (calculator c) = Ok tt /\
    carried_out accounts swap bump
      [mints mint dst pa (Calculator.new_pool_supply (calculator c))] st st1 /\
    SwapVersion.pack
      {| swap_is_initialized := true; bump_seed := bump; token_program_id := spl_token_id;
         token_a := ta; token_b := tb; pool_mint := mint; token_a_mint := a_mint a;
         token_b_mint := a_mint b; pool_fee_account := fee; fees := f; swap_curve := c |}
      (data (acct st1 swap)) = Ok d /\
    st' = set_data st1 swap d.

(** What an accepted instruction of the swap program does. *)
Definition swap_plan (constraints : option SwapConstraints) accounts (i : SwapInstruction.t) st st' : Prop :=
  match i with
  | SwapInstruction.Initialize f c => pool_founded constraints f c accounts st st'
  | _ => pool_plan accounts i st st'
  end.

(** ** The handlers follow the plans *)
Lemma call_performed accounts swap bump tp k1 k2 au i infos st st' :
  with_context invoke_token swap bump (token_instruction tp k1 k2 au [] i) infos st = Ok st' ->
  wf_infos accounts -> infos ⊆ accounts ->
  tp = spl_token_id /\ performed accounts swap bump (Call k1 k2 au i) st st'.
Proof.
  intros H Hk Hin. apply call_run in H as (Ht & Hv & i1 & i2 & i3 & ? & ? & ? & ? & Hp & Hr);
    [|apply Forall_forall; intros j Hj; exact (proj1 (Forall_forall _ _) Hk j (Hin j Hj))].
  split; [done|]. split; [|by exists i1, i2, i3].
  destruct Hv as [(j & Hj & ? & ?)|Hv]; [left; exists j; auto|by right].
Qed.

Section Calls.
Context (accounts : list AccountInfo) (Hk : wf_infos accounts).
Context (swap : Pubkey) (bump n : Z) (tp i1 i2 i3 : AccountInfo) (st st' : store).
Context (Hin : [i1; i2; i3; tp] ⊆ accounts).
Abbreviation at_call f := (with_context f swap tp i1 i2 i3 bump n st).

Lemma transfer_performed :
  at_call token_transfer = Ok st' -> key tp = spl_token_id /\
  carried_out accounts swap bump [transfers (key i1) (key i2) (key i3) n] st st'.
Proof. intros [? Hp]%(call_performed accounts); [|done..]. split; [done|]. exists st'. by split. Qed.
Lemma mint_performed :
  at_call token_mint_to = Ok st' -> key tp = spl_token_id /\
  carried_out accounts swap bump [mints (key i1) (key i2) (key i3) n] st st'.
Proof. intros [? Hp]%(call_performed accounts); [|done..]. split; [done|]. exists st'. by split. Qed.
Lemma burn_performed :
  at_call token_burn = Ok st' -> key tp = spl_token_id /\
  carried_out accounts swap bump [burns (key i1) (key i2) (key i3) n] st st'.
Proof. intros [? Hp]%(call_performed accounts); [|done..]. split; [done|]. exists st'. by split. Qed.
End Calls.

Ltac in_accounts :=
  intros ? ?; repeat match goal with H : _ ∈ _ :: _ |- _ => apply elem_of_cons in H as [->|H] end;
  try (by match goal with H : _ ∈ [] |- _ => apply elem_of_nil in H end);
  rewrite ?elem_of_cons; tauto.
Ltac take_infos :=
  repeat match goal with H : next _ = Ok (_, _) |- _ => apply next_Ok in H; subst end.

(** The calls of a handler, as plans of one step. *)
Ltac note_calls Hk :=
  repeat match goal with
  | H : with_context token_transfer _ _ _ _ _ _ _ _ = Ok _ |- _ =>
      apply (transfer_performed _ Hk) in H as [? H]; [|in_accounts]
  | H : with_context token_mint_to _ _ _ _ _ _ _ _ = Ok _ |- _ =>
      apply (mint_performed _ Hk) in H as [? H]; [|in_accounts]
  | H : with_context token_burn _ _ _ _ _ _ _ _ = Ok _ |- _ =>
      apply (burn_performed _ Hk) in H as [? H]; [|in_accounts]
  end.

Lemma mint_fees_plan accounts p i1 i2 i3 i4 i5 it n st st' :
  wf_infos accounts -> i1 :: i2 :: i3 :: i4 :: i5 :: it ⊆ accounts ->
  key i3 = pool_mint p -> key i4 = pool_fee_account p -> 0 < n ->
  with_context mint_fees p i1 i2 i3 i4 i5 it n st = Ok st' ->
  exists calls, fee_plan p (key i2) (map key it) n calls /\
    carried_out accounts (key i1) (bump_seed p) calls st st'.
Proof.
  intros Hk Hin Hm Hf Hn H. unfold mint_fees in H.
  assert (forall j, j ∈ [i1; i2; i3; i4; i5] \/ j ∈ it -> j ∈ accounts) as Hin'.
  { intros j Hj. apply Hin. rewrite (elem_of_app [i1; i2; i3; i4; i5] it). exact Hj. }
  destruct it as [|host it]; inv_guards.
  { apply (mint_performed _ Hk) in H as [_ H]; [|intros j Hj; apply Hin'; left; set_solver].
    rewrite Hm, Hf in H. eexists. split; [by apply owner_fee_only; [|left]|done]. }
  match goal with Hc : (if _ then _ else _) = Ok _ |- _ => case_if Hc end; inv_guards; inv_checked; subst.
  - apply (mint_performed _ Hk) in H as [_ H]; [|intros j Hj; apply Hin'; left; set_solver].
    match goal with Hc : with_context token_mint_to _ _ _ _ _ _ _ st = Ok _ |- _ =>
      apply (mint_performed _ Hk) in Hc as [_ Hc]; [|intros j Hj; apply Hin'; set_solver];
      pose proof (carried_out_app _ _ _ _ _ _ _ _ Hc H) as Hr end.
    rewrite Hm, Hf in Hr. eexists. split; [|exact Hr].
    eapply host_and_owner_fee; [done|lia|done].
  - apply (mint_performed _ Hk) in H as [_ H]; [|intros j Hj; apply Hin'; left; set_solver].
    rewrite Hm, Hf in H. eexists. split; [|done]. apply owner_fee_only; [done|right]. eauto.
Qed.

(** The keys the checks fix, in the calls and in the plan. *)
Ltac fix_keys :=
  repeat match goal with
  | H : key ?i = ?k |- _ =>
      lazymatch k with key _ => fail | _ => rewrite H in *; clear H end
  end.
Ltac join_calls :=
  repeat match goal with
  | H1 : carried_out ?a ?s ?b _ ?x ?y, H2 : carried_out ?a ?s ?b _ ?y ?z |- _ =>
      pose proof (carried_out_app _ _ _ _ _ _ _ _ H1 H2); clear H1 H2
  end; cbn [app] in *.

Lemma optional_fees accounts p i1 i2 i3 i4 i5 it n st st' :
  wf_infos accounts -> i1 :: i2 :: i3 :: i4 :: i5 :: it ⊆ accounts ->
  key i3 = pool_mint p -> key i4 = pool_fee_account p ->
  (if 0 <? n then with_context mint_fees p i1 i2 i3 i4 i5 it n st else Ok st) = Ok st' ->
  exists calls, fee_plan p (key i2) (map key it) n calls /\
    carried_out accounts (key i1) (bump_seed p) calls st st'.
Proof.
  intros Hk Hin Hm Hf H. case_if H; to_prop; inv_ok; [by eapply mint_fees_plan|].
  exists []. split; [by apply no_fee|done].
Qed.

(** What a handler reads, with the program it belongs to. *)
Ltac note_reads :=
  repeat match goal with
  | Hu : unpack_token_account _ _ _ = Ok _ |- _ => apply unpack_account_owner in Hu as [? ?]
  | Hu : unpack_mint _ _ _ = Ok _ |- _ => apply unpack_mint_owner in Hu as [? ?]
  end.
(** The facts about the pool that a plan states, but for the plan itself. *)
Ltac split_plan :=
  do 8 eexists; split; [done|]; split_and!; try done;
  try (repeat apply Forall_cons_2; [congruence..|by apply Forall_nil_2]).

Lemma process_swap_plan ain min accounts st st' :
  wf_infos accounts -> with_context process_swap ain min accounts st = Ok st' ->
  pool_plan accounts (SwapInstruction.Swap ain min) st st'.
Proof.
  intros Hk H. unfold process_swap in H. inv_ok. take_infos. note_reads. inv_guards.
  match goal with Hn : key ?ss <> key ?sd, H1 : bool_decide (key ?ss = token_a ?q) = true \/ _,
    H2 : bool_decide (key ?sd = _) = true \/ _ |- _ =>
    destruct (trade_sides q (key ss) (key sd)) as (d & Ed & Hs & Hd); [intuition (to_prop; auto)..|done|] end.
  rewrite Ed in *. clear Ed.
  destruct d; cbn in Hs, Hd; inv_guards;
    match goal with Hc : (if 0 <? _ then _ else _) = Ok _ |- _ =>
      apply (optional_fees _ _ _ _ _ _ _ _ _ _ _ Hk) in Hc as (calls & Hplan & Hc); [|in_accounts|done..] end;
    note_calls Hk; join_calls; unfold pool_plan; cbn [map]; fix_keys; split_plan.
  - eapply (P_swap _ _ _ _ _ _ _ AtoB); cbn; try done; by apply not_eq_sym.
  - eapply (P_swap _ _ _ _ _ _ _ BtoA); cbn; try done; by apply not_eq_sym.
Qed.

(** The checks shared by deposits and withdrawals. *)
Lemma check_accounts_Ok p i1 i2 i3 i4 i5 i6 ua ub fee st u :
  check_accounts hashv bytes_are_curve_point swap_program_id p i1 i2 i3 i4 i5 i6 ua ub fee st = Ok u ->
  key i3 = token_a p /\ key i4 = token_b p /\ key i5 = pool_mint p /\
  (forall i, ua = Some i -> key i3 <> key i) /\ (forall i, ub = Some i -> key i4 <> key i) /\
  owner (acct st (key i1)) = swap_program_id /\ authority_of (key i1) (bump_seed p) = Ok (key i2) /\
  key i6 = token_program_id p /\ (forall i, fee = Some i -> key i = pool_fee_account p).
Proof.
  unfold check_accounts, check_other. intros H. inv_guards. subst.
  split_and!; try done; intros i ->; inv_guards; done.
Qed.

Ltac take_checks :=
  match goal with H : check_accounts _ _ _ _ _ _ _ _ _ _ _ _ _ _ = Ok _ |- _ =>
    apply check_accounts_Ok in H as (? & ? & ? & Hua & Hub & ? & ? & ? & Hfee) end;
  repeat match goal with
  | H : forall i, Some _ = Some i -> _ |- _ => specialize (H _ eq_refl)
  | H : forall i, None = Some i -> _ |- _ => clear H
  end.

Lemma process_deposit_all_plan n maxa maxb accounts st st' :
  wf_infos accounts ->
  with_context process_deposit_all_token_types n maxa maxb accounts st = Ok st' ->
  pool_plan accounts (SwapInstruction.DepositAllTokenTypes n maxa maxb) st st'.
Proof.
  intros Hk H. unfold process_deposit_all_token_types in H. inv_ok. take_infos. note_reads. inv_guards.
  take_checks. match type of H with (let '(_, _) := ?q in _) = _ => destruct q as [k s] eqn:Eq end.
  inv_guards. note_calls Hk. join_calls. unfold pool_plan. cbn [map]. fix_keys. split_plan.
  eapply P_deposit_all; try done; [|by apply not_eq_sym..]. by case_if Eq; simplify_eq.
Qed.

Lemma fee_transfer_plan accounts p i1 i2 i3 i4 i5 n st st' :
  wf_infos accounts -> [i1; i2; i3; i4; i5] ⊆ accounts ->
  with_context pay_withdraw_fee p i1 i2 i3 i4 i5 n st = Ok st' ->
  carried_out accounts (key i1) (bump_seed p)
    (if 0 <? n then [transfers (key i3) (key i4) (key i5) n] else []) st st'.
Proof.
  intros Hk Hin H. unfold pay_withdraw_fee in H. case_if H; inv_guards; [|done].
  by apply (transfer_performed _ Hk) in H as [_ H]; [|set_solver].
Qed.

Lemma withdrawal_fee_Ok p fee src n f :
  withdraw_fee_of p fee src n = Ok f -> key fee = pool_fee_account p -> withdrawal_fee p (key src) n f.
Proof.
  unfold withdraw_fee_of, withdrawal_fee. intros H E. rewrite E in H. case_if H; to_prop; inv_ok.
  - by rewrite decide_True.
  - by rewrite decide_False.
Qed.

Lemma withdraw_amount_paid n r min k : withdraw_amount n r min = Ok k -> paid_out r n min k.
Proof.
  unfold withdraw_amount, paid_out. intros H. inv_guards. split_and!; [done|lia|]. lia.
Qed.

Lemma optional_transfer accounts swap tp i1 i2 i3 bump n st st' :
  wf_infos accounts -> [i1; i2; i3; tp] ⊆ accounts ->
  (if 0 <? n then with_context token_transfer swap tp i1 i2 i3 bump n st else Ok st) = Ok st' ->
  carried_out accounts swap bump
    (if 0 <? n then [transfers (key i1) (key i2) (key i3) n] else []) st st'.
Proof.
  intros Hk Hin H. case_if H; inv_ok; [|done]. by apply (transfer_performed _ Hk) in H as [_ H].
Qed.

Ltac note_optional Hk :=
  repeat match goal with
  | H : with_context pay_withdraw_fee _ _ _ _ _ _ _ _ = Ok _ |- _ =>
      apply (fee_transfer_plan _ _ _ _ _ _ _ _ _ _ Hk) in H; [|in_accounts]
  | H : withdraw_fee_of _ _ _ _ = Ok _ |- _ => apply withdrawal_fee_Ok in H; [|done]
  | H : withdraw_amount _ _ _ = Ok _ |- _ => apply withdraw_amount_paid in H
  | H : (if 0 <? _ then _ else _) = Ok _ |- _ =>
      apply (optional_transfer _ _ _ _ _ _ _ _ _ _ Hk) in H; [|in_accounts]
  end.

Lemma process_withdraw_all_plan n mina minb accounts st st' :
  wf_infos accounts ->
  with_context process_withdraw_all_token_types n mina minb accounts st = Ok st' ->
  pool_plan accounts (SwapInstruction.WithdrawAllTokenTypes n mina minb) st st'.
Proof.
  intros Hk H. unfold process_withdraw_all_token_types in H. inv_ok. take_infos. note_reads. inv_guards.
  take_checks. inv_checked. note_optional Hk. note_calls Hk. join_calls. unfold pool_plan. cbn [map]. fix_keys.
  subst. split_plan. eapply P_withdraw_all; try done; by apply not_eq_sym.
Qed.

Lemma process_deposit_single_plan n min accounts st st' :
  wf_infos accounts ->
  with_context process_deposit_single_token_type_exact_amount_in n min accounts st = Ok st' ->
  pool_plan accounts (SwapInstruction.DepositSingleTokenTypeExactAmountIn n min) st st'.
Proof.
  intros Hk H. unfold process_deposit_single_token_type_exact_amount_in in H. inv_ok. take_infos.
  match goal with d : TradeDirection |- _ => destruct d end; inv_ok; note_reads; inv_guards; take_checks;
    note_calls Hk; join_calls; unfold pool_plan; cbn [map]; fix_keys; split_plan.
  - apply P_deposit_single with (d := AtoB); try done; try by apply not_eq_sym.
    by case_match; inv_guards.
  - apply P_deposit_single with (d := BtoA); try done; try by apply not_eq_sym.
    by case_match; inv_guards.
Qed.

Lemma process_withdraw_single_plan n max accounts st st' :
  wf_infos accounts ->
  with_context process_withdraw_single_token_type_exact_amount_out n max accounts st = Ok st' ->
  pool_plan accounts (SwapInstruction.WithdrawSingleTokenTypeExactAmountOut n max) st st'.
Proof.
  intros Hk H. unfold process_withdraw_single_token_type_exact_amount_out in H. inv_ok. take_infos.
  match goal with d : TradeDirection |- _ => destruct d end; inv_ok; note_reads; inv_guards; take_checks; inv_checked; subst;
    note_optional Hk; note_calls Hk; join_calls; unfold pool_plan; cbn [map]; fix_keys; split_plan.
  - apply P_withdraw_single with (d := AtoB); try done; by apply not_eq_sym.
  - apply P_withdraw_single with (d := BtoA); try done; by apply not_eq_sym.
Qed.

Lemma authority_found {E} swap a bump :
  find_program_address (E := E) hashv bytes_are_curve_point [swap] swap_program_id = Ok (a, bump) ->
  authority_of swap bump = Ok a /\ is_u8 bump.
Proof.
  intros [H Hb]%find_program_address_derives. unfold authority_id, authority_seeds. cbn [app] in H.
  rewrite H. split; [done|]. unfold_max. lia.
Qed.

Lemma process_initialize_plan f c accounts constraints st st' :
  wf_infos accounts ->
  with_context process_initialize f c accounts constraints st = Ok st' ->
  pool_founded constraints f c accounts st st'.
Proof.
  intros Hk H. unfold process_initialize in H. inv_ok. take_infos.
  note_reads.
  repeat match goal with
  | Hu : check_new_pool _ _ _ _ _ _ _ _ = Ok _ |- _ => apply check_new_pool_Ok in Hu
  | Hu : check_constraints _ _ _ _ = Ok _ |- _ => apply check_constraints_Ok in Hu
  | Hu : find_program_address _ _ _ _ = Ok _ |- _ => apply authority_found in Hu as [? _]
  end.
  inv_guards. note_calls Hk. repeat match goal with x : unit |- _ => destruct x end. subst.
  unfold pool_founded. cbn [map]. fix_keys.
  do 16 eexists. split; [done|]. split_and!; try done.
  by repeat apply Forall_cons_2.
Qed.

(** C11: Every instruction the swap program accepts carries out a plan of
    calls of the token program, each accepted by the token program and by
    the runtime and signed by a signer of the instruction or by the
    address of the pool, and changes nothing between or after them. Except
    for the creation of a pool, the account named first belongs to the
    swap program and holds the record of the pool, and the calls are those
    of the instruction on it, in order, and no others, for the amounts
    that the curve and the fees of the pool give on its reserves: a swap
    moves tokens from the user into one recorded reserve, issues the
    shares of the owner's fee to the recorded fee account and a host
    account, and pays at least the minimum out of the other reserve,
    signed by the address of the pool; deposits and withdrawals likewise,
    within the user's limits, and the user's account is never the reserve
    on its side. The creation of a pool is accepted only on an account
    that holds no record, on reserves and a mint of shares that belong to
    the pool's address alone; it issues the first shares and writes the
    record. *)
Theorem swap_acts_through_tokens accounts input constraints st st' :
  wf_infos accounts ->
  with_context process_with_constraints accounts input constraints st = Ok st' ->
  exists i, SwapInstruction.unpack input = Ok i /\ swap_plan constraints accounts i st st'.
Proof.
  intros Hk H. unfold process_with_constraints in H. inv_ok.
  match goal with i : SwapInstruction.t |- _ => exists i; split; [done|]; destruct i end; cbn [swap_plan].
  - by apply process_initialize_plan.
  - by apply process_swap_plan.
  - by apply process_deposit_all_plan.
  - by apply process_withdraw_all_plan.
  - by apply process_deposit_single_plan.
  - by apply process_withdraw_single_plan.
Qed.

(** ** Plans are steps of the token ledger *)
Lemma carried_out_ledger accounts swap bump calls st st' :
  Forall (fun c => bytes (TokenInstruction.pack (tc_instruction c))) calls ->
  carried_out accounts swap bump calls st st' -> rtc step st st'.
Proof.
  intros Hb. revert st. induction Hb as [|c cs Hc _ IH]; intros st; cbn; [by intros ->|].
  intros (st1 & (_ & i1 & i2 & i3 & _ & _ & _ & Hk & Hp & Hv) & Hr). apply rtc_l with st1; [|by apply IH].
  by apply (L_token _ _ _ _ _ _ _ _ _ Hk Hc Hp Hv).
Qed.

Lemma fee_plan_bytes p pa tail n calls :
  fee_plan p pa tail n calls -> Forall (fun c => bytes (TokenInstruction.pack (tc_instruction c))) calls.
Proof.
  intros []; [by apply Forall_nil_2|by apply Forall_singleton, pack_amount_bytes|].
  apply Forall_cons_2; [|apply Forall_singleton]; by apply pack_amount_bytes.
Qed.

(** Across an instruction on a pool the guarantees of the token ledger hold. *)
Lemma pool_plan_ledger accounts i st st' : pool_plan accounts i st st' -> rtc step st st'.
Proof.
  intros (info & rest & p & pa & a & b & m & calls & _ & _ & _ & _ & _ & _ & _ & _ & _ & Hp & Hr).
  eapply carried_out_ledger; [|exact Hr]. destruct Hp; repeat case_match;
    repeat lazymatch goal with
    | |- Forall _ (_ :: _) => apply Forall_cons_2
    | |- Forall _ (_ ++ _) => apply Forall_app_2
    | |- Forall _ [] => apply Forall_nil_2
    end; try (by apply pack_amount_bytes); by eapply fee_plan_bytes.
Qed.
End Spec.
