(* ===== verification/SwapTheorems.v ===== *)
(** * Swap program: the guarantees

    The properties of the instructions of the swap program: an open pool stays
    open; a swap respects the limits of the user, moves exactly the amounts of
    its curve and does not lower the value of the reserves; deposits and
    withdrawals in both tokens do not dilute the shares; and initialization
    opens a pool. *)

From stdpp Require Import base gmap list fin_maps relations strings.
From Stdlib Require Import ZArith Lia.
From S2P Require Import Prelude Sdk Runtime KeyedAccount Message SystemProgram.
From S2P Require Import TokenState TokenInstruction TokenProcessor TokenStore TokenAuthority TokenSpec TokenEffects TokenLedger.
From S2P Require Import ProgramAddress TokenClient SwapMath SwapCurve SwapCurveProofs SwapRange SwapSingleProofs SwapState.
From S2P Require Import SwapProcessor SwapPool SwapSpec.

Section Guarantees.
Context (hashv : list (list Z) -> Hash).
Context (bytes_are_curve_point : Hash -> bool).
Context (deserialize_rent : list Z -> option Rent) (rent_get : program_result Rent).
Context (rent : Rent) (realloc : bool).
Context (swap_program_id : Pubkey).
Implicit Types (st : store) (accounts infos it : list AccountInfo).

Abbreviation with_context f :=
  (f hashv bytes_are_curve_point deserialize_rent rent_get rent realloc swap_program_id).

(** ** Instructions on an open pool *)
Ltac inv_checks :=
  inv_guards; try match goal with H : owner _ = swap_program_id |- _ => clear H end.

Abbreviation pool := (pool_ok hashv bytes_are_curve_point swap_program_id).

(** The reserve of a side, as the handlers read it. *)
Lemma read_reserve st swap p r m k d a :
  pool st swap p r m -> k = reserve_key p d -> has st k a -> a = r d.
Proof. intros Hok -> Ha. by eapply has_inj, (ok_reserve _ _ _ _ _ _ _ _ Hok). Qed.
Lemma read_shares st swap p r m k x : pool st swap p r m -> k = pool_mint p -> has st k x -> x = m.
Proof. intros Hok -> Ha. by eapply has_inj, (ok_shares _ _ _ _ _ _ _ _ Hok). Qed.

Lemma reserve_amount st swap p r m d : pool st swap p r m -> is_u64 (amount (r d)).
Proof.
  intros Hok. eapply wfa_amount, has_wf_account; [by eapply ok_store|].
  by eapply (ok_reserve _ _ _ _ _ _ _ _ Hok d).
Qed.
Lemma supply_range st swap p r m : pool st swap p r m -> is_u64 (supply m).
Proof.
  intros Hok. eapply wfm_supply, has_wf_mint; [by eapply ok_store|]. by eapply ok_shares.
Qed.

(** The owner's fee is minted whole, in one or two parts. *)
Lemma mint_fees_effect swap p r m i1 i2 i3 i4 i5 it n st st' :
  pool st swap p r m -> wf_infos (i1 :: i2 :: i3 :: i4 :: i5 :: it) -> 0 < n ->
  key i3 = pool_mint p -> with_context mint_fees p i1 i2 i3 i4 i5 it n st = Ok st' ->
  pool st' swap p r (with_supply m (supply m + n)) /\ other_mints (pool_mint p) st st'.
Proof.
  intros Hok Hk Hn Hm H. unfold mint_fees in H. take_accounts.
  destruct it as [|host it]; inv_checks; take_accounts.
  { eapply issue in H as (? & ? & _); [done|exact Hok|wf_solve|lia|done]. }
  match goal with Hc : (if _ then _ else _) = Ok _ |- _ => case_if Hc end; inv_checks; inv_checked; subst.
  - match goal with Hc : with_context token_mint_to _ _ _ _ _ _ _ st = Ok _ |- _ =>
      eapply issue in Hc as (Hok1 & Ho1 & _); [|exact Hok|wf_solve|lia|done] end.
    eapply issue in H as (Hok2 & Ho2 & _); [|exact Hok1|wf_solve|lia|done].
    split; [|intros j x Hx; by rewrite (Ho1 j x), (Ho2 j x)].
    revert Hok2. cbn. by match goal with |- context [supply m + ?a + ?b] =>
      replace (supply m + a + b) with (supply m + n) by lia end.
  - eapply issue in H as (? & ? & _); [done|exact Hok|wf_solve|lia|done].
Qed.

Lemma paid_before st st1 st2 k mint other n :
  other_mints other st st1 -> other <> mint -> paid st1 st2 k mint n -> paid st st2 k mint n.
Proof.
  intros Ho Hne (u & u' & Hu & Hu' & Hm & Hm' & Ha). exists u, u'. split_and!; try done.
  apply (Ho k u); [congruence|done].
Qed.
Lemma paid_after st st1 st2 k mint other n :
  other_mints other st1 st2 -> other <> mint -> paid st st1 k mint n -> paid st st2 k mint n.
Proof.
  intros Ho Hne (u & u' & Hu & Hu' & Hm & Hm' & Ha). exists u, u'. split_and!; try done.
  apply (Ho k u'); [congruence|done].
Qed.

(** The calls of a swap: in, the owner's fee in shares, out. *)
Lemma swap_calls st st1 st2 st' swap p r m d n k fee
    swap_key tp bump src ssrc sdst dst user auth bump' :
  pool st swap p r m -> wf_infos [src; ssrc; sdst; dst; user; auth; tp] ->
  is_u64 n -> is_u64 k -> 0 <= fee ->
  key ssrc = reserve_key p d -> key sdst = reserve_key p (opposite d) ->
  key src <> key ssrc -> key sdst <> key dst ->
  with_context token_transfer swap_key tp src ssrc user bump n st = Ok st1 ->
  (forall r, pool st1 swap p r m ->
     pool st2 swap p r (with_supply m (supply m + fee)) /\ other_mints (pool_mint p) st1 st2) ->
  with_context token_transfer swap_key tp sdst dst auth bump' k st2 = Ok st' ->
  exists r', pool st' swap p r' (with_supply m (supply m + fee)) /\
    amount (r' d) = amount (r d) + n /\
    amount (r' (opposite d)) = amount (r (opposite d)) - k /\
    paid st st' (key src) (reserve_mint p d) n /\
    paid st st' (key dst) (reserve_mint p (opposite d)) (- k).
Proof.
  intros Hok Hk Hn Hkk Hfee Hs Hd Hne1 Hne2 H1 H2 H3. take_accounts.
  eapply pay_in in H1 as (Hok1 & Ho1 & _ & _ & Hp1); [|exact Hok|wf_solve|done|exact Hs|done].
  apply H2 in Hok1 as [Hok2 Ho2].
  eapply pay_out in H3 as (Hok3 & Ho3 & _ & Hp3); [|exact Hok2|wf_solve|done|exact Hd|done].
  pose proof (ok_shares_mint _ _ _ _ _ _ _ _ Hok) as Hsh.
  assert (reserve_mint p d <> reserve_mint p (opposite d)) as Hdo.
  { pose proof (ok_sides _ _ _ _ _ _ _ _ Hok). by destruct d; cbn in *. }
  eexists. split; [exact Hok3|]. split; [by destruct d|]. split; [by destruct d|]. split.
  - eapply paid_after; [exact Ho3|done|]. eapply paid_after; [exact Ho2|by apply not_eq_sym|done].
  - eapply paid_before; [exact Ho1|done|]. eapply paid_before; [exact Ho2|by apply not_eq_sym|done].
Qed.

(** The value of the reserves after a swap with fees. *)
Lemma swap_value s amount_in fees d (x y : TradeDirection -> Z) res v :
  wf_calculator (calculator s) -> wf_fees fees -> is_u64 amount_in ->
  is_u64 (x d) -> is_u64 (x (opposite d)) ->
  SwapCurve.swap s amount_in (x d) (x (opposite d)) d fees = Some res ->
  y d = x d + total_source_swapped res ->
  y (opposite d) = x (opposite d) - total_destination_swapped res ->
  reserve_value (calculator s) (x AtoB) (x BtoA) = Some v ->
  exists v', reserve_value (calculator s) (y AtoB) (y BtoA) = Some v' /\ v <= v'.
Proof.
  intros Hc Hf Ha Hx Hy H Es Ed Hv.
  apply swap_spec in H as (? & ? & _ & _ & ? & ? & ? & Hval); [|done..].
  destruct (Hval v) as (v1 & Hv1 & Hle); [by destruct d|].
  assert (exists v', reserve_value (calculator s) (y AtoB) (y BtoA) = Some v' /\ v1 <= v')
    as (v' & ? & ?) by (destruct d; eapply reserve_value_mono; try exact Hv1; try done;
      cbn in *; lia).
  exists v'. split; [done|lia].
Qed.

Lemma swap_fees_issued n p i1 i2 i3 i4 i5 it st st' swap r m :
  (if 0 <? n then with_context mint_fees p i1 i2 i3 i4 i5 it n st else Ok st) = Ok st' ->
  wf_infos (i1 :: i2 :: i3 :: i4 :: i5 :: it) -> key i3 = pool_mint p -> 0 <= n ->
  pool st swap p r m ->
  pool st' swap p r (with_supply m (supply m + n)) /\ other_mints (pool_mint p) st st'.
Proof.
  intros H Hk Hm Hn Hok. case_if H; to_prop; inv_ok; [by eapply mint_fees_effect|]. split; [|done].
  replace (with_supply m (supply m + n)) with m; [done|]. destruct m. unfold with_supply; cbn.
  f_equal. lia.
Qed.

(** Shares are counted in unsigned numbers. *)
Lemma shares_unsigned c f n a b s d x :
  wf_calculator (calculator c) -> wf_fees f -> is_u64 n -> 0 <= a -> 0 <= b -> 0 <= s ->
  SwapCurve.withdraw_single_token_type_exact_out c n a b s d f = Ok x -> 0 <= x.
Proof.
  intros Hc Hf Hn Ha Hb Hs H. unfold SwapCurve.withdraw_single_token_type_exact_out in H.
  case_if H; inv_ok; [done|]. apply try_Ok, deduct_half_fee_bounds in Hr; [|done|lia].
  eapply withdraw_single_unsigned; [exact Hc| | | | |done]; lia.
Qed.

(** The reserves by side of the pool, from the reserves by side of the trade. *)
Lemma by_side (d : TradeDirection) (x y a b : Z) (r : TradeDirection -> Account) :
  (match d with AtoB => (x, y) | BtoA => (y, x) end) = (a, b) ->
  x = amount (r d) -> y = amount (r (opposite d)) -> a = amount (r AtoB) /\ b = amount (r BtoA).
Proof. destruct d; intros [= <- <-]; by cbn. Qed.

Lemma process_swap_effect amount_in minimum_amount_out st st' p r m
    swap authority user src ssrc sdst dst mint fee tp rest :
  let accounts := swap :: authority :: user :: src :: ssrc :: sdst :: dst :: mint :: fee :: tp :: rest in
  pool st (key swap) p r m -> wf_infos accounts -> is_u64 amount_in ->
  with_context process_swap amount_in minimum_amount_out accounts st = Ok st' ->
  exists d r' shares res,
    key ssrc = reserve_key p d /\ key sdst = reserve_key p (opposite d) /\
    SwapCurve.swap (swap_curve p) amount_in (amount (r d)) (amount (r (opposite d))) d (fees p)
      = Some res /\
    minimum_amount_out <= total_destination_swapped res /\
    SwapCurve.withdraw_single_token_type_exact_out (swap_curve p) (owner_fee res)
      (amount (r' AtoB)) (amount (r' BtoA)) (supply m) d (fees p) = Ok shares /\
    pool st' (key swap) p r' (with_supply m (supply m + shares)) /\ 0 <= shares /\
    amount (r' d) = amount (r d) + total_source_swapped res /\
    amount (r' (opposite d)) = amount (r (opposite d)) - total_destination_swapped res /\
    paid st st' (key src) (reserve_mint p d) (total_source_swapped res) /\
    paid st st' (key dst) (reserve_mint p (opposite d)) (- total_destination_swapped res).
Proof.
  intros accounts Hok Hk Hin H. unfold accounts, process_swap in *. clear accounts.
  cbn [next next_account_info map_err mbind result_bind] in H.
  inv_checks.
  match goal with Hl : SwapVersion.unpack _ = Ok ?q |- _ =>
    assert (q = p) as -> by (pose proof (ok_state _ _ _ _ _ _ _ _ Hok); congruence) end.
  destruct (trade_sides p (key ssrc) (key sdst)) as (d & Ed & Hs & Hd);
    [intuition (to_prop; auto)..|done|]. rewrite Ed in *. clear Ed.
  repeat match goal with
  | Ha : has st (key ssrc) ?a |- _ => apply (read_reserve _ _ _ _ _ _ d _ Hok Hs) in Ha; subst a
  | Ha : has st (key sdst) ?a |- _ =>
      apply (read_reserve _ _ _ _ _ _ (opposite d) _ Hok Hd) in Ha; subst a
  | Ha : has st (key mint) ?a, Hm : key mint = _ |- _ =>
      apply (read_shares _ _ _ _ _ _ _ Hok Hm) in Ha; subst a
  end.
  pose proof (reserve_amount _ _ _ _ _ d Hok) as Hxs. pose proof (supply_range _ _ _ _ _ Hok) as Hsm.
  pose proof (reserve_amount _ _ _ _ _ (opposite d) Hok) as Hxd.
  pose proof (ok_curve _ _ _ _ _ _ _ _ Hok) as [Hwc _].
  pose proof (ok_fees _ _ _ _ _ _ _ _ Hok) as [Hwf _].
  match goal with Hsw : SwapCurve.swap _ _ _ _ _ _ = Some _ |- _ =>
    pose proof Hsw as Hsp; apply swap_spec in Hsp as (Hn & Hkk & Hns & Hnd & Htf & Hof & Hft & _); [|done..] end.
  match type of H with match ?q with pair _ _ => _ end = _ => destruct q as [a b] eqn:Eab end.
  inv_checks. take_accounts.
  match goal with Hc : SwapCurve.withdraw_single_token_type_exact_out _ _ _ _ _ _ _ = Ok ?x |- _ =>
    assert (0 <= x) as Hf by (eapply shares_unsigned; [exact Hwc|exact Hwf|..|exact Hc];
      [lia|destruct d; injection Eab as <- <-; lia..]) end.
  match goal with Hin1 : with_context token_transfer _ _ _ _ _ _ _ st = Ok ?s1,
    Hc : (if 0 <? _ then _ else _) = Ok _ |- _ =>
    eapply (swap_calls st) in H as (r' & Hok' & Hrs & Hrd & Hps & Hpd);
      [|exact Hok| | | |exact Hf|exact Hs|exact Hd| | |exact Hin1|
        intros; eapply swap_fees_issued; [exact Hc|wf_solve|done..]];
      [|wf_solve|lia|lia|by apply not_eq_sym|done] end.
  destruct (by_side _ _ _ _ _ r' Eab) as [-> ->]; [lia..|].
  exists d, r'. do 2 eexists. by split_and!.
Qed.

Lemma swap_owner_fee s n x y d f res :
  SwapCurve.swap s n x y d f = Some res -> owner_trading_fee f n = Some (owner_fee res).
Proof. unfold SwapCurve.swap. intros H. by inv_some; subst. Qed.

(** C12: An accepted swap on an open pool takes at most amount_in tokens from
    the user's account and pays at least minimum_amount_out to the user's
    destination: the amounts SwapCurve.swap computes from the two reserves
    and the recorded fees. Exactly these amounts enter and leave the
    reserves; the shares issued are those that withdrawing the owner's fee
    alone from the reserves after the swap costs; the pool stays open; and
    the value of the reserves (the product, the weighted sum or the
    product with the offset of the curve) does not fall. *)
Theorem swap_honours_limits amount_in minimum_amount_out st st' p r m
    swap authority user src ssrc sdst dst mint fee tp rest :
  let accounts := swap :: authority :: user :: src :: ssrc :: sdst :: dst :: mint :: fee :: tp :: rest in
  pool st (key swap) p r m -> wf_infos accounts -> is_u64 amount_in ->
  with_context process_swap amount_in minimum_amount_out accounts st = Ok st' ->
  exists d r' m' res shares,
    let n := total_source_swapped res in let k := total_destination_swapped res in
    key ssrc = reserve_key p d /\ key sdst = reserve_key p (opposite d) /\
    SwapCurve.swap (swap_curve p) amount_in (amount (r d)) (amount (r (opposite d))) d (fees p)
      = Some res /\
    0 <= n <= amount_in /\ minimum_amount_out <= k /\
    amount (r' d) = amount (r d) + n /\
    amount (r' (opposite d)) = amount (r (opposite d)) - k /\
    paid st st' (key src) (reserve_mint p d) n /\
    paid st st' (key dst) (reserve_mint p (opposite d)) (- k) /\
    owner_trading_fee (fees p) amount_in = Some (owner_fee res) /\
    SwapCurve.withdraw_single_token_type_exact_out (swap_curve p) (owner_fee res)
      (amount (r' AtoB)) (amount (r' BtoA)) (supply m) d (fees p) = Ok shares /\
    supply m' = supply m + shares /\ 0 <= shares /\ pool st' (key swap) p r' m' /\
    forall v, reserve_value (calculator (swap_curve p)) (amount (r AtoB)) (amount (r BtoA)) = Some v ->
    exists v', reserve_value (calculator (swap_curve p)) (amount (r' AtoB)) (amount (r' BtoA)) = Some v' /\
      v <= v'.
Proof.
  intros accounts Hok Hk Hin H.
  eapply process_swap_effect in H as (d & r' & f & res & Hs & Hd & Hsw & Hmin & Hsh & Hok' & Hf & Hrs & Hrd
    & Hps & Hpd); [|done..].
  pose proof (reserve_amount _ _ _ _ _ d Hok) as Hxs.
  pose proof (reserve_amount _ _ _ _ _ (opposite d) Hok) as Hxd.
  pose proof (ok_curve _ _ _ _ _ _ _ _ Hok) as [Hwc _].
  pose proof (ok_fees _ _ _ _ _ _ _ _ Hok) as [Hwf _].
  pose proof Hsw as Hsp. apply swap_spec in Hsp as (Hn & _); [|done..].
  exists d, r', (with_supply m (supply m + f)), res, f.
  cbn zeta. split_and!; try done; try lia; [by eapply swap_owner_fee|]. intros v Hv.
  exact (swap_value _ _ _ d (fun e => amount (r e)) (fun e => amount (r' e)) _ _
    Hwc Hwf Hin Hxs Hxd Hsw Hrs Hrd Hv).
Qed.

(** The calls of a deposit in both tokens. *)
Lemma deposit_calls st st1 st2 st' swap p r m na nb n
    swap_key tp bump sa sb ta tb mint dst user auth :
  pool st swap p r m -> wf_infos [sa; sb; ta; tb; mint; dst; user; auth; tp] ->
  is_u64 na -> is_u64 nb -> is_u64 n ->
  key ta = token_a p -> key tb = token_b p -> key mint = pool_mint p ->
  key ta <> key sa -> key tb <> key sb ->
  with_context token_transfer swap_key tp sa ta user bump na st = Ok st1 ->
  with_context token_transfer swap_key tp sb tb user bump nb st1 = Ok st2 ->
  with_context token_mint_to swap_key tp mint dst auth bump n st2 = Ok st' ->
  exists r', pool st' swap p r' (with_supply m (supply m + n)) /\
    amount (r' AtoB) = amount (r AtoB) + na /\ amount (r' BtoA) = amount (r BtoA) + nb /\
    paid st st' (key sa) (token_a_mint p) na /\ paid st st' (key sb) (token_b_mint p) nb /\
    paid st st' (key dst) (pool_mint p) (- n).
Proof.
  intros Hok Hk Hna Hnb Hn Ha Hb Hm Hne1 Hne2 H1 H2 H3. take_accounts.
  eapply (pay_in _ _ _ _ _ _ _ _ _ _ _ _ _ Hok) with (d := AtoB) in H1 as (Hok1 & Ho1 & _ & _ & Hp1);
    [|wf_solve|done|exact Ha|by apply not_eq_sym].
  eapply (pay_in _ _ _ _ _ _ _ _ _ _ _ _ _ Hok1) with (d := BtoA) in H2 as (Hok2 & Ho2 & _ & _ & Hp2);
    [|wf_solve|done|exact Hb|by apply not_eq_sym].
  eapply issue in H3 as (Hok3 & Ho3 & Hp3); [|exact Hok2|wf_solve|done|exact Hm].
  pose proof (ok_shares_mint _ _ _ _ _ _ _ _ Hok AtoB) as Hsa.
  pose proof (ok_shares_mint _ _ _ _ _ _ _ _ Hok BtoA) as Hsb.
  pose proof (ok_sides _ _ _ _ _ _ _ _ Hok) as Hab. cbn in Hsa, Hsb, Hab, Ho1, Ho2, Hp1, Hp2.
  eexists. split; [exact Hok3|]. split_and!; try done.
  - eapply paid_after; [exact Ho3|done|]. eapply paid_after; [exact Ho2|done|done].
  - eapply paid_after; [exact Ho3|done|]. eapply paid_before; [exact Ho1|done|done].
  - eapply paid_before; [exact Ho1|done|]. eapply paid_before; [exact Ho2|done|done].
Qed.

(** Reading the state of a pool. *)
Lemma read_state st swap p q r m :
  pool st swap p r m -> SwapVersion.unpack (data (acct st swap)) = Ok q -> q = p.
Proof. intros Hok H. pose proof (ok_state _ _ _ _ _ _ _ _ Hok). congruence. Qed.

Ltac read_pool Hok :=
  repeat match goal with
  | H : SwapVersion.unpack _ = Ok _ |- _ => apply (read_state _ _ _ _ _ _ Hok) in H; subst
  | H : check_accounts _ _ _ _ _ _ _ _ _ _ _ _ _ _ = Ok _ |- _ =>
      apply check_accounts_Ok in H as (? & ? & ? & ? & ? & _)
  | Hk : key ?i = token_a ?p, Ha : has _ (key ?i) ?a |- _ =>
      apply (read_reserve _ _ _ _ _ _ AtoB _ Hok Hk) in Ha; subst a
  | Hk : key ?i = token_b ?p, Ha : has _ (key ?i) ?a |- _ =>
      apply (read_reserve _ _ _ _ _ _ BtoA _ Hok Hk) in Ha; subst a
  | Hk : key ?i = pool_mint ?p, Ha : has _ (key ?i) ?a |- _ =>
      apply (read_shares _ _ _ _ _ _ _ Hok Hk) in Ha; subst a
  end.

Lemma deposit_all_effect n maxa maxb st st' p r m
    swap authority user sa sb ta tb mint dst tp rest :
  let accounts := swap :: authority :: user :: sa :: sb :: ta :: tb :: mint :: dst :: tp :: rest in
  let c := calculator (swap_curve p) in
  pool st (key swap) p r m -> wf_infos accounts -> is_u64 n ->
  with_context process_deposit_all_token_types n maxa maxb accounts st = Ok st' ->
  exists r' k s res,
    k = (if 0 <? supply m then n else Calculator.new_pool_supply c) /\
    s = (if 0 <? supply m then supply m else Calculator.new_pool_supply c) /\
    Calculator.pool_tokens_to_trading_tokens c k s (amount (r AtoB)) (amount (r BtoA)) Ceiling = Ok res /\
    0 < token_a_amount res <= maxa /\ 0 < token_b_amount res <= maxb /\
    pool st' (key swap) p r' (with_supply m (supply m + k)) /\
    amount (r' AtoB) = amount (r AtoB) + token_a_amount res /\
    amount (r' BtoA) = amount (r BtoA) + token_b_amount res /\
    paid st st' (key sa) (token_a_mint p) (token_a_amount res) /\
    paid st st' (key sb) (token_b_mint p) (token_b_amount res) /\
    paid st st' (key dst) (pool_mint p) (- k).
Proof.
  intros accounts c Hok Hk Hn H. unfold accounts, process_deposit_all_token_types in *. clear accounts.
  cbn [next next_account_info map_err mbind result_bind] in H. inv_checks. read_pool Hok. fold c in H.
  pose proof (supply_range _ _ _ _ _ Hok) as Hs.
  pose proof (reserve_amount _ _ _ _ _ AtoB Hok). pose proof (reserve_amount _ _ _ _ _ BtoA Hok).
  match type of H with (let '(_, _) := ?q in _) = _ =>
    replace q with (if 0 <? supply m then n else Calculator.new_pool_supply c,
                    if 0 <? supply m then supply m else Calculator.new_pool_supply c) in H
      by (by destruct (0 <? supply m)) end.
  set (k := if 0 <? supply m then n else _) in *. set (s := if 0 <? supply m then supply m else _) in *.
  assert (is_u64 k /\ 0 <= s) as [Hku Hsu]
    by (unfold k, s; case_match; [lia|by split; vm_compute]).
  inv_checks. match goal with Hres : Calculator.pool_tokens_to_trading_tokens _ _ _ _ _ _ = Ok _ |- _ =>
    pose proof Hres as Hr'; apply trading_tokens_unsigned in Hr' as [? ?];
      [|apply (ok_curve _ _ _ _ _ _ _ _ Hok)|lia..] end.
  take_accounts.
  match goal with H1 : with_context token_transfer _ _ _ _ _ _ _ st = Ok ?s1,
    H2 : with_context token_transfer _ _ _ _ _ _ _ ?s1 = Ok _ |- _ =>
    eapply (deposit_calls st) in H as (r' & ? & ? & ? & ? & ? & ?);
      [|exact Hok| | | | | | | | | |exact H1|exact H2]; [|wf_solve|lia|lia|lia|by auto..] end.
  exists r', k, s. eexists. split_and!; try done; lia.
Qed.

(** On the constant product and the stable curve the shares are proportional
    to both reserves. *)
Definition proportional (c : Calculator) : Prop :=
  match c with ConstantProductCurve | StableCurve _ => True | _ => False end.

(** C21: An accepted deposit of both tokens takes at most the amounts the user
    allowed, credits the user with the new shares, and does not dilute the
    other shares: on each side the reserve per share does not fall
    (constant product and stable curves), and the pool stays open. *)
Theorem deposit_does_not_dilute pool_token_amount maximum_a maximum_b st st' p r m
    swap authority user sa sb ta tb mint dst tp rest :
  let accounts := swap :: authority :: user :: sa :: sb :: ta :: tb :: mint :: dst :: tp :: rest in
  pool st (key swap) p r m -> wf_infos accounts -> is_u64 pool_token_amount ->
  proportional (calculator (swap_curve p)) -> 0 < supply m ->
  with_context process_deposit_all_token_types pool_token_amount maximum_a maximum_b accounts st = Ok st' ->
  exists r' m' na nb,
    pool st' (key swap) p r' m' /\ supply m' = supply m + pool_token_amount /\
    na <= maximum_a /\ nb <= maximum_b /\
    amount (r' AtoB) = amount (r AtoB) + na /\ amount (r' BtoA) = amount (r BtoA) + nb /\
    paid st st' (key sa) (token_a_mint p) na /\ paid st st' (key sb) (token_b_mint p) nb /\
    paid st st' (key dst) (pool_mint p) (- pool_token_amount) /\
    forall d, amount (r d) * supply m' <= amount (r' d) * supply m.
Proof.
  intros accounts Hok Hk Hn Hc Hs H.
  pose proof (reserve_amount _ _ _ _ _ AtoB Hok) as Ha. pose proof (reserve_amount _ _ _ _ _ BtoA Hok) as Hb.
  eapply deposit_all_effect in H as (r' & k & s & res & -> & -> & Hres & Hna & Hnb & Hok' & Era & Erb
    & Hpa & Hpb & Hpd); [|done..].
  rewrite (proj2 (Z.ltb_lt 0 (supply m)) Hs) in *.
  exists r', (with_supply m (supply m + pool_token_amount)). do 2 eexists.
  split_and!; [exact Hok'|done|apply Hna|apply Hnb|done..|].
  assert (ConstantProduct.pool_tokens_to_trading_tokens pool_token_amount (supply m) (amount (r AtoB))
    (amount (r BtoA)) Ceiling = Some res) as Hcp.
  { destruct (calculator (swap_curve p)); try done; by apply try_Ok in Hres. }
  apply share_ceiling in Hcp as ([|[Hla _]] & [|[Hlb _]] & _); try lia.
  intros []; cbn; nia.
Qed.

Lemma paid_trans st st1 st2 k mint a b :
  paid st st1 k mint a -> paid st1 st2 k mint b -> paid st st2 k mint (a + b).
Proof.
  intros (u & u' & Hu & Hu' & Hm & Hm' & Ha) (v & v' & Hv & Hv' & _ & Hmv & Hb).
  pose proof (has_inj _ _ _ _ Hv Hu') as ->. exists u, v'. split_and!; try done. lia.
Qed.

Lemma other_mints_trans k st1 st2 st3 :
  other_mints k st1 st2 -> other_mints k st2 st3 -> other_mints k st1 st3.
Proof. intros H1 H2 j x Hx. by rewrite (H1 j x), (H2 j x). Qed.

Lemma withdraw_fee_Ok p fee src n f :
  wf_fees (fees p) -> 0 <= n -> withdraw_fee_of p fee src n = Ok f ->
  0 <= f /\ (0 < f -> key src <> key fee).
Proof.
  intros [_ _ [Hw1 Hw2] _] Hn H. unfold withdraw_fee_of, owner_withdraw_fee in H.
  case_if H; to_prop; inv_ok; [lia|]. apply calculate_fee_nonneg in H; [|lia..].
  split; [done|]. intros _ E'. by apply E.
Qed.

(** The fee of a withdrawal is paid and the shares are burned, from one account. *)
Lemma fee_and_burn st st1 st' swap p r m f n i tp src fee mint user bump :
  pool st swap p r m -> wf_infos [i; tp; src; fee; mint; user] ->
  key mint = pool_mint p -> 0 <= f -> (0 < f -> key src <> key fee) -> is_u64 n ->
  with_context pay_withdraw_fee p i tp src fee user f st = Ok st1 ->
  with_context token_burn (key i) tp src mint user bump n st1 = Ok st' ->
  pool st' swap p r (with_supply m (supply m - n)) /\ n <= supply m /\
  other_mints (pool_mint p) st st' /\ paid st st' (key src) (pool_mint p) (f + n).
Proof.
  intros Hok Hk Hm Hf Hne Hn H1 H2. unfold pay_withdraw_fee in H1. take_accounts.
  case_if H1; to_prop; inv_checks.
  - assert (wf_store st1) as Hst1.
    { eapply transfer_call in H1 as [? _]; [done|apply (ok_store _ _ _ _ _ _ _ _ Hok)|wf_solve|lia]. }
    pose proof H2 as Hb. eapply burn_call in Hb as (_ & _ & callee & [x a a' _ Ha Hma]);
      [|done|wf_solve|done].
    eapply move_shares in H1 as (Hok1 & Ho1 & Hp1); [|exact Hok|wf_solve|lia|exact Ha|congruence].
    eapply retire in H2 as (Hok2 & Ho2 & Hle & _ & Hp2); [|exact Hok1|wf_solve|done|done].
    split_and!; try done; [by eapply other_mints_trans|].
    eapply paid_trans; [by apply Hp1, Hne|done].
  - eapply retire in H2 as (Hok2 & Ho2 & Hle & _ & Hp2); [|exact Hok|wf_solve|done|done].
    replace f with 0 by lia. done.
Qed.

(** What is left of a reserve after a payment, which is skipped if nothing is due. *)
Lemma pay_out_opt st st' swap p r m d n i tp src dst au bump :
  pool st swap p r m -> wf_infos [src; dst; au; tp] -> is_u64 n ->
  key src = reserve_key p d -> key src <> key dst ->
  (if 0 <? n then with_context token_transfer i tp src dst au bump n st else Ok st) = Ok st' ->
  exists r', pool st' swap p r' m /\ amount (r' d) = amount (r d) - n /\
    r' (opposite d) = r (opposite d) /\ other_mints (reserve_mint p d) st st' /\
    (0 < n -> paid st st' (key dst) (reserve_mint p d) (- n)).
Proof.
  intros Hok Hk Hn Hs Hne H. case_if H; to_prop; inv_ok.
  - eapply pay_out in H as (Hok' & Ho & _ & Hp); [|exact Hok|done|done|exact Hs|done].
    eexists. split; [exact Hok'|]. by destruct d.
  - exists r. split_and!; try done; lia.
Qed.

(** The calls of a withdrawal of both tokens. *)
Lemma withdraw_calls st st1 st2 st3 st' swap p r m f n na nb
    i tp bump mint src fee user au ta tb da db :
  pool st swap p r m -> wf_infos [i; tp; src; fee; mint; user; au; ta; tb; da; db] ->
  0 <= f -> (0 < f -> key src <> key fee) -> is_u64 n -> is_u64 na -> is_u64 nb ->
  key mint = pool_mint p -> key ta = token_a p -> key tb = token_b p ->
  key ta <> key da -> key tb <> key db ->
  with_context pay_withdraw_fee p i tp src fee user f st = Ok st1 ->
  with_context token_burn (key i) tp src mint user bump n st1 = Ok st2 ->
  (if 0 <? na then with_context token_transfer (key i) tp ta da au bump na st2 else Ok st2) = Ok st3 ->
  (if 0 <? nb then with_context token_transfer (key i) tp tb db au bump nb st3 else Ok st3) = Ok st' ->
  exists r', n <= supply m /\ pool st' swap p r' (with_supply m (supply m - n)) /\
    amount (r' AtoB) = amount (r AtoB) - na /\ amount (r' BtoA) = amount (r BtoA) - nb /\
    paid st st' (key src) (pool_mint p) (f + n) /\
    (0 < na -> paid st st' (key da) (token_a_mint p) (- na)) /\
    (0 < nb -> paid st st' (key db) (token_b_mint p) (- nb)).
Proof.
  intros Hok Hk Hf Hne Hn Hna Hnb Hm Ha Hb Hda Hdb H1 H2 H3 H4. take_accounts.
  eapply fee_and_burn in H2 as (Hok1 & Hle & Ho1 & Hp1);
    [|exact Hok| | | | | |exact H1]; [|wf_solve|done..].
  eapply (pay_out_opt _ _ _ _ _ _ AtoB) in H3 as (r1 & Hok2 & Ea & Eb & Ho2 & Hp2);
    [|exact Hok1|wf_solve|done..].
  eapply (pay_out_opt _ _ _ _ _ _ BtoA) in H4 as (r2 & Hok3 & Eb' & Ea' & Ho3 & Hp3);
    [|exact Hok2|wf_solve|done..].
  pose proof (ok_shares_mint _ _ _ _ _ _ _ _ Hok AtoB) as Hsa.
  pose proof (ok_shares_mint _ _ _ _ _ _ _ _ Hok BtoA) as Hsb.
  pose proof (ok_sides _ _ _ _ _ _ _ _ Hok) as Hab.
  cbn in Hsa, Hsb, Hab, Ho2, Ho3, Hp2, Hp3, Ea', Eb.
  exists r2. rewrite Ea', Eb', Ea, Eb. split_and!; try done.
  - eapply paid_after; [exact Ho3|done|]. by eapply paid_after.
  - intros Hp%Hp2. eapply paid_after; [exact Ho3|done|]. by eapply paid_before; [..|exact Hp].
  - intros Hp%Hp3. eapply paid_before; [exact Ho1|done|]. by eapply paid_before; [..|exact Hp].
Qed.

Lemma withdraw_amount_Ok x a min n :
  withdraw_amount x a min = Ok n -> n = Z.min (amount a) x /\ min <= n <= amount a.
Proof. unfold withdraw_amount. intros H. inv_checks. lia. Qed.

Lemma withdraw_all_effect n mina minb st st' p r m
    swap authority user mint src ta tb da db fee tp rest :
  let accounts := swap :: authority :: user :: mint :: src :: ta :: tb :: da :: db :: fee :: tp :: rest in
  let c := calculator (swap_curve p) in
  pool st (key swap) p r m -> wf_infos accounts -> is_u64 n -> 0 <= mina -> 0 <= minb ->
  with_context process_withdraw_all_token_types n mina minb accounts st = Ok st' ->
  exists r' k res na nb,
    0 <= k <= n /\ k <= supply m /\
    Calculator.pool_tokens_to_trading_tokens c k (supply m) (amount (r AtoB)) (amount (r BtoA)) Floor
      = Ok res /\
    na = Z.min (amount (r AtoB)) (token_a_amount res) /\ mina <= na /\
    nb = Z.min (amount (r BtoA)) (token_b_amount res) /\ minb <= nb /\
    pool st' (key swap) p r' (with_supply m (supply m - k)) /\
    amount (r' AtoB) = amount (r AtoB) - na /\ amount (r' BtoA) = amount (r BtoA) - nb /\
    paid st st' (key src) (pool_mint p) n /\
    (0 < na -> paid st st' (key da) (token_a_mint p) (- na)) /\
    (0 < nb -> paid st st' (key db) (token_b_mint p) (- nb)).
Proof.
  intros accounts c Hok Hk Hn Hmina Hminb H.
  unfold accounts, process_withdraw_all_token_types in *. clear accounts.
  cbn [next next_account_info map_err mbind result_bind] in H. inv_checks. read_pool Hok.
  pose proof (reserve_amount _ _ _ _ _ AtoB Hok). pose proof (reserve_amount _ _ _ _ _ BtoA Hok).
  inv_checked. take_accounts.
  match goal with Hf : withdraw_fee_of _ _ _ _ = Ok _ |- _ =>
    apply withdraw_fee_Ok in Hf as [Hf0 Hfne]; [|apply (ok_fees _ _ _ _ _ _ _ _ Hok)|lia] end.
  repeat match goal with Hw : withdraw_amount _ _ _ = Ok _ |- _ =>
    apply withdraw_amount_Ok in Hw as [? ?] end.
  match goal with H1 : with_context pay_withdraw_fee _ _ _ _ _ _ _ _ = Ok ?s1,
    H2 : with_context token_burn _ _ _ _ _ _ _ ?s1 = Ok ?s2,
    H3 : (if _ then _ else _) = Ok _ |- _ =>
    eapply (withdraw_calls st) in H as (r' & Hle & ? & ? & ? & Hp & ? & ?);
      [|exact Hok| | | | | | | | | | | |exact H1|exact H2|exact H3];
      [|wf_solve|done|done|lia|lia|lia|by auto..] end.
  match goal with
    Hres : Calculator.pool_tokens_to_trading_tokens _ ?k _ _ _ _ = Ok ?res,
    Ha : amount (r' AtoB) = _ - ?na, Hb : amount (r' BtoA) = _ - ?nb |- _ =>
    exists r', k, res, na, nb end.
  split_and!; try done; try lia.
  match type of Hp with paid _ _ _ _ ?x => by replace n with x by lia end.
Qed.

(** C22: An accepted withdrawal of both tokens takes exactly the shares the
    user offered, pays at least the amounts the user asked for, and does
    not dilute the remaining shares: on each side the reserve per share
    does not fall (constant product and stable curves), and the pool stays
    open. *)
Theorem withdrawal_does_not_dilute pool_token_amount minimum_a minimum_b st st' p r m
    swap authority user mint src ta tb da db fee tp rest :
  let accounts := swap :: authority :: user :: mint :: src :: ta :: tb :: da :: db :: fee :: tp :: rest in
  pool st (key swap) p r m -> wf_infos accounts -> is_u64 pool_token_amount ->
  is_u64 minimum_a -> is_u64 minimum_b -> proportional (calculator (swap_curve p)) ->
  with_context process_withdraw_all_token_types pool_token_amount minimum_a minimum_b accounts st
    = Ok st' ->
  exists r' m' na nb,
    pool st' (key swap) p r' m' /\ supply m - pool_token_amount <= supply m' <= supply m /\
    minimum_a <= na /\ minimum_b <= nb /\
    amount (r' AtoB) = amount (r AtoB) - na /\ amount (r' BtoA) = amount (r BtoA) - nb /\
    paid st st' (key src) (pool_mint p) pool_token_amount /\
    (0 < na -> paid st st' (key da) (token_a_mint p) (- na)) /\
    (0 < nb -> paid st st' (key db) (token_b_mint p) (- nb)) /\
    forall d, amount (r d) * supply m' <= amount (r' d) * supply m.
Proof.
  intros accounts Hok Hk Hn Ha Hb Hc H.
  pose proof (reserve_amount _ _ _ _ _ AtoB Hok). pose proof (reserve_amount _ _ _ _ _ BtoA Hok).
  pose proof (supply_range _ _ _ _ _ Hok).
  eapply withdraw_all_effect in H as (r' & k & res & na & nb & Hkn & Hks & Hres & Ena & ? & Enb & ? & Hok'
    & Era & Erb & Hp & Hpa & Hpb); [|done|done|lia..].
  exists r', (with_supply m (supply m - k)), na, nb. cbn [supply with_supply].
  split_and!; try done; try lia.
  assert (ConstantProduct.pool_tokens_to_trading_tokens k (supply m) (amount (r AtoB))
    (amount (r BtoA)) Floor = Some res) as Hcp.
  { destruct (calculator (swap_curve p)); try done; by apply try_Ok in Hres. }
  apply share_floor in Hcp as (Hs & Ea & Eb).
  pose proof (Z.mul_div_le (k * amount (r AtoB)) (supply m) ltac:(lia)).
  pose proof (Z.mul_div_le (k * amount (r BtoA)) (supply m) ltac:(lia)).
  intros []; rewrite ?Era, ?Erb; nia.
Qed.

(** The calls of the one-sided instructions. *)
Lemma deposit_single_calls st st1 st' swap p r m d n k i tp bump src dst mint user au t :
  pool st swap p r m -> wf_infos [tp; src; dst; mint; user; au; t] -> is_u64 n -> is_u64 k ->
  key t = reserve_key p d -> key t <> key src -> key mint = pool_mint p ->
  with_context token_transfer i tp src t user bump n st = Ok st1 ->
  with_context token_mint_to i tp mint dst au bump k st1 = Ok st' ->
  exists r' m', pool st' swap p r' m'.
Proof.
  intros Hok Hk Hn Hkk Ht Hne Hm H1 H2. take_accounts.
  eapply pay_in in H1 as (Hok1 & _); [|exact Hok|wf_solve|done|exact Ht|by apply not_eq_sym].
  eapply issue in H2 as (Hok2 & _); [|exact Hok1|wf_solve|done|done]. eauto.
Qed.

Lemma withdraw_single_calls st st1 st2 st' swap p r m d f n k i tp bump src fee mint user au t dst :
  pool st swap p r m -> wf_infos [i; tp; src; fee; mint; user; au; t; dst] ->
  0 <= f -> (0 < f -> key src <> key fee) -> is_u64 n -> is_u64 k ->
  key t = reserve_key p d -> key t <> key dst -> key mint = pool_mint p ->
  with_context pay_withdraw_fee p i tp src fee user f st = Ok st1 ->
  with_context token_burn (key i) tp src mint user bump n st1 = Ok st2 ->
  with_context token_transfer (key i) tp t dst au bump k st2 = Ok st' ->
  exists r' m', pool st' swap p r' m'.
Proof.
  intros Hok Hk Hf Hfne Hn Hkk Ht Hne Hm H1 H2 H3. take_accounts.
  eapply fee_and_burn in H2 as (Hok1 & _); [|exact Hok| | | | | |exact H1]; [|wf_solve|done..].
  eapply pay_out in H3 as (Hok2 & _); [|exact Hok1|wf_solve|done|exact Ht|done]. eauto.
Qed.

Lemma deposit_single_keeps n min swap rest st st' p r m :
  pool st (key swap) p r m -> wf_infos (swap :: rest) -> is_u64 n -> 0 <= min ->
  with_context process_deposit_single_token_type_exact_amount_in n min (swap :: rest) st = Ok st' ->
  exists r' m', pool st' (key swap) p r' m'.
Proof.
  intros Hok Hk Hn Hmin H. unfold process_deposit_single_token_type_exact_amount_in in H.
  cbn [next next_account_info map_err mbind result_bind] in H. inv_ok. take_accounts. inv_checks.
  match goal with d : TradeDirection |- _ => destruct d end; inv_checks; read_pool Hok;
    match goal with H1 : with_context token_transfer _ _ _ _ _ _ _ st = Ok _ |- _ =>
      eapply (deposit_single_calls st) in H as (r' & m' & Hok'); [by eauto|exact Hok| | | | | | |exact H1] end;
    try wf_solve; try lia; try done; try (by auto).
  - by instantiate (1 := AtoB).
  - by instantiate (1 := BtoA).
Qed.

Lemma burn_amount st swap p r m n d x :
  pool st swap p r m -> is_u64 n ->
  SwapCurve.withdraw_single_token_type_exact_out (swap_curve p) n (amount (r AtoB)) (amount (r BtoA))
    (supply m) d (fees p) = Ok x -> 0 <= x.
Proof.
  intros Hok Hn H. pose proof (reserve_amount _ _ _ _ _ AtoB Hok). pose proof (reserve_amount _ _ _ _ _ BtoA Hok).
  pose proof (supply_range _ _ _ _ _ Hok).
  eapply shares_unsigned; [apply (ok_curve _ _ _ _ _ _ _ _ Hok)|apply (ok_fees _ _ _ _ _ _ _ _ Hok)|..|exact H]; lia.
Qed.

Lemma withdraw_single_keeps n max swap rest st st' p r m :
  pool st (key swap) p r m -> wf_infos (swap :: rest) -> is_u64 n ->
  with_context process_withdraw_single_token_type_exact_amount_out n max (swap :: rest) st = Ok st' ->
  exists r' m', pool st' (key swap) p r' m'.
Proof.
  intros Hok Hk Hn H. unfold process_withdraw_single_token_type_exact_amount_out in H.
  cbn [next next_account_info map_err mbind result_bind] in H. inv_ok. take_accounts. inv_checks.
  match goal with d : TradeDirection |- _ => destruct d end; inv_checks; read_pool Hok;
    (match goal with Hw : SwapCurve.withdraw_single_token_type_exact_out _ _ _ _ _ _ _ = Ok _ |- _ =>
      apply (burn_amount _ _ _ _ _ _ _ _ Hok Hn) in Hw end);
    (match goal with Hf : withdraw_fee_of _ _ _ _ = Ok _ |- _ =>
      apply withdraw_fee_Ok in Hf as [Hf0 Hfne]; [|apply (ok_fees _ _ _ _ _ _ _ _ Hok)|done] end);
    match goal with H1 : with_context pay_withdraw_fee _ _ _ _ _ _ _ _ = Ok ?s1,
      H2 : with_context token_burn _ _ _ _ _ _ _ ?s1 = Ok _ |- _ =>
      eapply (withdraw_single_calls st) in H as (r' & m' & Hok');
        [by eauto|exact Hok| | | | | | | | |exact H1|exact H2] end;
    try wf_solve; try lia; try done; try (by auto).
  - by instantiate (1 := AtoB).
  - by instantiate (1 := BtoA).
Qed.

(** The fields of a decoded instruction are unsigned. *)
Lemma unpack_u64_range l n rest :
  bytes l -> SwapInstruction.unpack_u64 l = Ok (n, rest) -> is_u64 n /\ bytes rest.
Proof.
  intros Hb H. unfold SwapInstruction.unpack_u64, split_at in H. case_if H; inv_ok.
  apply Nat.leb_le in E. split; [apply from_le_bytes_u64|].
  - rewrite length_take. lia.
  - by apply Forall_take.
  - by apply Forall_drop.
Qed.

Lemma unpack_swap_fields input i :
  bytes input -> SwapInstruction.unpack input = Ok i ->
  match i with
  | SwapInstruction.Initialize _ _ => True
  | SwapInstruction.Swap a b
  | SwapInstruction.DepositSingleTokenTypeExactAmountIn a b
  | SwapInstruction.WithdrawSingleTokenTypeExactAmountOut a b => is_u64 a /\ is_u64 b
  | SwapInstruction.DepositAllTokenTypes a b c
  | SwapInstruction.WithdrawAllTokenTypes a b c => is_u64 a /\ is_u64 b /\ is_u64 c
  end.
Proof.
  intros Hb H. destruct input as [|tag rest]; [done|]. apply Forall_cons in Hb as [_ Hb]. fold (bytes rest) in Hb.
  cbn [SwapInstruction.unpack] in H.
  repeat (case_match; try discriminate H); inv_ok; try done;
    repeat match goal with Hu : SwapInstruction.unpack_u64 ?l = Ok _, Hl : bytes ?l |- _ =>
      apply (unpack_u64_range _ _ _ Hl) in Hu as [? ?] end; done.
Qed.

Lemma swap_in_use st swap p r m :
  pool st swap p r m -> SwapVersion.is_initialized (data (acct st swap)) = Ok true.
Proof.
  intros Hok. pose proof (ok_state _ _ _ _ _ _ _ _ Hok) as H. unfold SwapVersion.is_initialized.
  rewrite H. unfold SwapVersion.unpack in H. destruct (data (acct st swap)); [done|].
  case_if H; [|done]. apply unpack_Ok in H as (_ & _ & Hi). cbn in Hi. by rewrite Hi.
Qed.

(** C23: An open pool stays open under every instruction the swap program
    accepts for it: the recorded parameters never change, the reserves and
    the mint of the shares stay under the pool's address alone, without
    delegate, close authority or freeze authority, and a second
    initialization is refused. *)
Theorem pool_stays_open swap rest input constraints st st' p r m :
  pool st (key swap) p r m -> wf_infos (swap :: rest) -> bytes input ->
  with_context process_with_constraints (swap :: rest) input constraints st = Ok st' ->
  exists r' m', pool st' (key swap) p r' m'.
Proof.
  intros Hok Hk Hb H. unfold process_with_constraints in H. inv_ok.
  match goal with Hi : SwapInstruction.unpack _ = Ok _ |- _ => apply (unpack_swap_fields _ _ Hb) in Hi;
    rename Hi into Hi0 end.
  match goal with i : SwapInstruction.t |- _ => destruct i end; destruct_and? Hi0.
  - unfold process_initialize in H. cbn [next next_account_info map_err mbind result_bind] in H.
    inv_ok. take_accounts. pose proof (swap_in_use _ _ _ _ _ Hok). congruence.
  - pose proof H as H'. unfold process_swap in H'.
    cbn [next next_account_info map_err mbind result_bind] in H'. inv_ok. take_accounts.
    eapply process_swap_effect in H as (? & ? & ? & ? & _ & _ & _ & _ & _ & ? & _);
      [by eauto|exact Hok|wf_solve|done].
  - pose proof H as H'. unfold process_deposit_all_token_types in H'.
    cbn [next next_account_info map_err mbind result_bind] in H'. inv_ok.
    take_accounts. eapply deposit_all_effect in H as (? & ? & ? & ? & _ & _ & _ & _ & _ & ? & _);
      [by eauto|exact Hok|wf_solve|done].
  - pose proof H as H'. unfold process_withdraw_all_token_types in H'.
    cbn [next next_account_info map_err mbind result_bind] in H'. inv_ok.
    take_accounts. eapply withdraw_all_effect in H
      as (? & ? & ? & ? & ? & _ & _ & _ & _ & _ & _ & _ & ? & _); [by eauto|exact Hok|wf_solve|lia..].
  - eapply deposit_single_keeps in H; [done|exact Hok|exact Hk|lia..].
  - eapply withdraw_single_keeps in H; [done|exact Hok|exact Hk|lia].
Qed.

(** ** Opening a pool *)
(** Writing the state into the account completes the pool. *)
Lemma pool_written st swap p r m d :
  wf_store st -> owner (acct st swap) = swap_program_id -> wf_swap p -> swap_is_initialized p = true ->
  SwapVersion.pack p (data (acct st swap)) = Ok d ->
  token_program_id p = spl_token_id ->
  Calculator.validate (calculator (swap_curve p)) = Ok tt -> Fees_validate (fees p) = Ok tt ->
  (forall e, has st (reserve_key p e) (r e) /\ owner (acct st (reserve_key p e)) = spl_token_id /\
     authority_id hashv bytes_are_curve_point swap_program_id swap (bump_seed p) = Ok (a_owner (r e)) /\
     a_mint (r e) = reserve_mint p e /\ delegate (r e) = None /\ close_authority (r e) = None /\
     reserve_mint p e <> pool_mint p) ->
  has st (pool_mint p) m -> owner (acct st (pool_mint p)) = spl_token_id ->
  mint_authority m = Some (a_owner (r AtoB)) -> freeze_authority m = None ->
  reserve_mint p AtoB <> reserve_mint p BtoA ->
  pool (set_data st swap d) swap p r m.
Proof.
  intros Hst Ho Hw Hi Hp Ht Hc Hf Hr Hm Hmo Hma Hmf Hs.
  destruct (swap_state_bytes _ _ _ Hw (proj1 (Hst swap)) Hp) as [Hd Hl].
  pose proof Hw as [_ _ Hwf [Hwc _]].
  assert (forall k, length (data (acct st k)) <> 324%nat -> acct (set_data st swap d) k = acct st k) as Hk.
  { intros k Hk. rewrite acct_set_data, decide_False; [done|]. intros ->. done. }
  assert (forall e, acct (set_data st swap d) (reserve_key p e) = acct st (reserve_key p e)) as Hkr.
  { intros e. apply Hk. destruct (Hr e) as [Hh _]. by rewrite (has_length _ _ _ Hh). }
  assert (acct (set_data st swap d) (pool_mint p) = acct st (pool_mint p)) as Hkm.
  { apply Hk. by rewrite (has_length _ _ _ Hm). }
  split; try done; unfold has; try intros e; rewrite ?Hkr, ?Hkm; try done; try apply Hr.
  - rewrite data_set_data, lamports_set_data. case_decide; split; try done; apply Hst.
  - by rewrite owner_set_data.
  - rewrite data_set_data, decide_True by done. by eapply swap_state_roundtrip.
  - by split; apply Hr.
Qed.

(** An accepted initialization opens a pool: the account then records the
    fees, the curve and the accounts passed, the invariant of an open pool
    holds, and the first shares are issued. The mint of the shares is
    assumed to differ from those of the two tokens, which the program does
    not check. *)
Theorem initialize_opens_pool f c constraints st st'
    swap authority ta tb mint fee dst tp rest :
  let accounts := swap :: authority :: ta :: tb :: mint :: fee :: dst :: tp :: rest in
  wf_store st -> wf_infos accounts -> owner (acct st (key swap)) = swap_program_id ->
  wf_fees f -> wf_curve c ->
  (forall a : Account, has st (key ta) a \/ has st (key tb) a -> a_mint a <> key mint) ->
  with_context process_initialize f c accounts constraints st = Ok st' ->
  exists p r m, pool st' (key swap) p r m /\ supply m = Calculator.new_pool_supply (calculator c) /\
    fees p = f /\ swap_curve p = c /\ token_a p = key ta /\ token_b p = key tb /\
    pool_mint p = key mint /\ pool_fee_account p = key fee /\
    paid st st' (key dst) (key mint) (- supply m).
Proof.
  intros accounts Hst Hk Ho Hf Hc Hmints H. unfold accounts, process_initialize in *. clear accounts.
  cbn [next next_account_info map_err mbind result_bind] in H. revert Ho. inv_ok. take_accounts. intros Ho.
  rename x1 into a, x2 into b, x5 into m, x11 into st1, x12 into d, z into bump.
  apply unpack_account_owner in Hr3 as [Ha Hao], Hr4 as [Hb Hbo]. apply unpack_mint_owner in Hr7 as [Hm Hmo].
  apply check_new_pool_Ok in Hr8
    as [[Hoa Hob] _ Hab _ [Hda Hdb] [Hca Hcb] (Hma & Hs & Hfz) _].
  apply require_eq_Ok in Hr2 as <-. apply to_u64_Ok in Hr12 as [-> _].
  apply authority_found in Hr1 as [Hau Hbump]. destruct x8, x9.
  eapply mint_call in Hr13 as (Hst1 & Htp & callee & [m0 w au Hm0 Hw Hwm _ _ _ _ _ _ _ Hm1 Hw1 Hfr _]);
    [|done|wf_solve|done].
  pose proof (has_inj _ _ _ _ Hm0 Hm) as ->.
  assert (other_mints (key mint) st st1) as Hoth by by eapply supply_others.
  pose proof (wfa_mint _ (has_wf_account _ _ _ Hst Ha)). pose proof (wfa_mint _ (has_wf_account _ _ _ Hst Hb)).
  assert (a_mint a <> key mint) as Hna by auto. assert (a_mint b <> key mint) as Hnb by auto.
  pose proof (proj1 (Hoth _ _ Hna) Ha) as Ha1. pose proof (proj1 (Hoth _ _ Hnb) Hb) as Hb1.
  match type of Hr14 with SwapVersion.pack ?q _ = _ => set (p := q) in * end.
  exists p, (fun e => match e with AtoB => a | BtoA => b end),
    (with_supply m (supply m + Calculator.new_pool_supply (calculator c))).
  assert (wf_swap p) as Hwp by (split; [done|by repeat apply Forall_cons_2|done|done]).
  destruct (swap_state_bytes _ _ _ Hwp (proj1 (Hst1 (key swap))) Hr14) as [_ Hlen].
  split_and!; try done; [|cbn; lia|].
  - eapply pool_written; try done.
    + rewrite (proj1 (Hfr _)). done.
    + intros []; cbn; rewrite (proj1 (Hfr _)); split_and!; try done; congruence.
    + cbn. rewrite (proj1 (Hfr _)). congruence.
    + cbn. congruence.
  - exists w, (with_amount w (amount w + Calculator.new_pool_supply (calculator c))).
    split_and!; try done; [|cbn; lia]. unfold has. rewrite data_set_data, decide_False; [done|].
    intros E. apply has_length in Hw1. cbn in Hw1. rewrite E in *. congruence.
Qed.
End Guarantees.
