(* ===== verification/SwapSample.v ===== *)
(** * Swap program: a pool at work

    A pool over the constant product curve, from its initialization to a swap,
    a deposit and a withdrawal, on which the guarantees of [SwapTheorems] are
    exercised. *)

From stdpp Require Import base gmap list fin_maps relations strings.
From Stdlib Require Import ZArith Lia.
From S2P Require Import Prelude Sdk Runtime KeyedAccount Message SystemProgram.
From S2P Require Import TokenState TokenInstruction TokenProcessor TokenStore TokenAuthority TokenSpec TokenEffects TokenLedger.
From S2P Require Import ProgramAddress TokenClient SwapMath SwapCurve SwapCurveProofs SwapState.
From S2P Require Import SwapProcessor SwapPool SwapSpec SwapTheorems.

Module PoolSample.
Definition k (n : Z) : Pubkey := n :: replicate 31 7.
Definition swap_id : Pubkey := k 99.

(** A hash that keeps the first seed apart from plain keys. *)
Definition hashv (l : list (list Z)) : Hash := 250 :: take 31 (default [] (head l)).
Definition never (_ : Hash) : bool := false.
Definition no_sysvar : list Z -> option Rent := fun _ => None.
Definition rent_get : program_result Rent := Ok Rent_default.

Definition pool_authority : Pubkey := 250 :: 1 :: replicate 30 7.
Definition curve : SwapCurve :=
  {| curve_type := ConstantProduct_; calculator := ConstantProductCurve |}.
Definition fees : Fees :=
  {| trade_fee_numerator := 1; trade_fee_denominator := 100;
     owner_trade_fee_numerator := 1; owner_trade_fee_denominator := 1000;
     owner_withdraw_fee_numerator := 1; owner_withdraw_fee_denominator := 100;
     host_fee_numerator := 20; host_fee_denominator := 100 |}.

Definition token (mint own : Pubkey) (n : Z) : Account :=
  {| a_mint := mint; a_owner := own; amount := n; delegate := None; state := Initialized;
     native_reserve := None; delegated_amount := 0; close_authority := None |}.
Definition shares (n : Z) : Mint :=
  {| mint_authority := Some pool_authority; supply := n; decimals := 2;
     mint_is_initialized := true; freeze_authority := None |}.

Definition holding_data {T} `{Pack T} (own : Pubkey) (x : T) : AccountSharedData :=
  {| lamports := 3000000;
     data := match pack x (replicate (LEN T) 0) with Ok d => d | _ => [] end;
     owner := own; executable := false; rent_epoch := 0 |}.
Definition blank (own : Pubkey) (len : nat) : AccountSharedData :=
  {| lamports := 3000000; data := replicate len 0; owner := own;
     executable := false; rent_epoch := 0 |}.

(** The pool's account [k 1], the mint of its shares [k 4], its reserves [k 5]
    and [k 6]; the user's accounts of the two tokens [k 7] and [k 8] and of
    shares [k 9]; the fee account [k 10]. *)
Definition st0 : store := Eval vm_compute in
  <[k 1 := blank swap_id 324]>
  (<[k 4 := holding_data spl_token_id (shares 0)]>
  (<[k 5 := holding_data spl_token_id (token (k 2) pool_authority 1000000)]>
  (<[k 6 := holding_data spl_token_id (token (k 3) pool_authority 2000000)]>
  (<[k 7 := holding_data spl_token_id (token (k 2) (k 20) 100000)]>
  (<[k 8 := holding_data spl_token_id (token (k 3) (k 20) 100000)]>
  (<[k 9 := holding_data spl_token_id (token (k 4) (k 20) 0)]>
  (<[k 10 := holding_data spl_token_id (token (k 4) (k 21) 0)]> ∅))))))).

Definition w (n : Z) : AccountInfo := {| key := k n; is_signer := false; is_writable := true |}.
Definition user : AccountInfo := {| key := k 20; is_signer := true; is_writable := false |}.
Definition authority : AccountInfo :=
  {| key := pool_authority; is_signer := false; is_writable := false |}.
Definition token_program : AccountInfo :=
  {| key := spl_token_id; is_signer := false; is_writable := false |}.

Definition run (accounts : list AccountInfo) (i : SwapInstruction.t) (st : store)
  : instruction_result store :=
  SwapProcessor.process hashv never no_sysvar rent_get Rent_default false swap_id accounts
    (SwapInstruction.pack i) st.
Definition after (r : instruction_result store) : store := match r with Ok st => st | _ => ∅ end.

Definition initialize_accounts := [w 1; authority; w 5; w 6; w 4; w 10; w 9; token_program].
Definition swap_accounts := [w 1; authority; user; w 7; w 5; w 6; w 8; w 4; w 10; token_program].
Definition deposit_accounts := [w 1; authority; user; w 7; w 8; w 5; w 6; w 4; w 9; token_program].
Definition withdraw_accounts :=
  [w 1; authority; user; w 4; w 9; w 5; w 6; w 7; w 8; w 10; token_program].

Definition st1 : store := Eval vm_compute in
  after (run initialize_accounts (SwapInstruction.Initialize fees curve) st0).
Definition st2 : store := Eval vm_compute in after (run swap_accounts (SwapInstruction.Swap 10000 15000) st1).
Definition st3 : store := Eval vm_compute in
  after (run deposit_accounts (SwapInstruction.DepositAllTokenTypes 1000000 2000 3000) st2).
Definition st4 : store := Eval vm_compute in
  after (run withdraw_accounts (SwapInstruction.WithdrawAllTokenTypes 5000000 1 1) st3).

Lemma wf_store_decide st :
  bool_decide (map_Forall (fun _ ac => bytes (data ac) /\ is_u64 (lamports ac)) st) = true -> wf_store st.
Proof.
  intros H%bool_decide_eq_true k0. unfold acct. destruct (st !! k0) as [ac|] eqn:E; cbn; [by eapply H|].
  split; [by apply Forall_nil|done].
Qed.

Lemma wf_infos_decide accounts :
  bool_decide (Forall (fun j => length (key j) = 32%nat /\ bytes (key j)) accounts) = true ->
  wf_infos accounts.
Proof. by intros H%bool_decide_eq_true. Qed.

(** The recorded parameters, and the pool with given reserves and shares. *)
Definition params : SwapV1 :=
  {| swap_is_initialized := true; bump_seed := 255; token_program_id := spl_token_id;
     token_a := k 5; token_b := k 6; pool_mint := k 4; token_a_mint := k 2; token_b_mint := k 3;
     pool_fee_account := k 10; SwapState.fees := fees; swap_curve := curve |}.
Definition reserves (x y : Z) (d : TradeDirection) : Account :=
  match d with AtoB => token (k 2) pool_authority x | BtoA => token (k 3) pool_authority y end.

Lemma wf_pool_fees : wf_fees fees.
Proof. by split. Qed.

Lemma open_pool st x y n :
  wf_store st -> owner (acct st (k 1)) = swap_id ->
  SwapVersion.unpack (data (acct st (k 1))) = Ok params ->
  (forall d, has st (reserve_key params d) (reserves x y d) /\
     owner (acct st (reserve_key params d)) = spl_token_id) ->
  has st (k 4) (shares n) -> owner (acct st (k 4)) = spl_token_id ->
  pool_ok hashv never swap_id st (k 1) params (reserves x y) (shares n).
Proof.
  intros Hst Ho Hp Hr Hm Hmo. split; try done; try (by split; [apply wf_pool_fees|]); try (intros d; apply Hr).
  all: by intros [].
Qed.

Ltac open_sample :=
  apply open_pool; [apply wf_store_decide; vm_compute; reflexivity|vm_compute; reflexivity..|
    intros []; split; vm_compute; reflexivity|vm_compute; reflexivity|vm_compute; reflexivity].

Lemma pool1 : pool_ok hashv never swap_id st1 (k 1) params (reserves 1000000 2000000) (shares 1000000000).
Proof. open_sample. Qed.
Lemma pool2 : pool_ok hashv never swap_id st2 (k 1) params (reserves 1010000 1980414) (shares 1000004456).
Proof. open_sample. Qed.
Lemma pool3 : pool_ok hashv never swap_id st3 (k 1) params (reserves 1011010 1982395) (shares 1001004456).
Proof. open_sample. Qed.

Abbreviation at_sample f := (f hashv never no_sysvar rent_get Rent_default false swap_id).

(** The swap of 10000 tokens: the plan, and the calls it consists of. *)
Lemma swap_acts_through_tokens_witness :
  exists i, SwapInstruction.unpack (SwapInstruction.pack (SwapInstruction.Swap 10000 15000)) = Ok i /\
    at_sample swap_plan None swap_accounts i st1 st2.
Proof.
  apply (at_sample swap_acts_through_tokens swap_accounts (SwapInstruction.pack (SwapInstruction.Swap 10000 15000))
    None); [apply wf_infos_decide; vm_compute; reflexivity|vm_compute; reflexivity].
Defined.

Lemma pool_stays_open_witness :
  exists r' m', pool_ok hashv never swap_id st2 (k 1) params r' m'.
Proof.
  apply (at_sample pool_stays_open (w 1) (drop 1 swap_accounts)
    (SwapInstruction.pack (SwapInstruction.Swap 10000 15000)) None st1 st2 _ _ _ pool1);
    [apply wf_infos_decide; vm_compute; reflexivity| |vm_compute; reflexivity].
  apply (bool_decide_eq_true_1 (bytes _)). vm_compute. reflexivity.
Defined.

Lemma swap_honours_limits_witness :
  exists d r' m' res shares,
    let n := total_source_swapped res in let k' := total_destination_swapped res in
    key (w 5) = reserve_key params d /\ key (w 6) = reserve_key params (opposite d) /\
    SwapCurve.swap curve 10000 (amount (reserves 1000000 2000000 d))
      (amount (reserves 1000000 2000000 (opposite d))) d fees = Some res /\
    0 <= n <= 10000 /\ 15000 <= k' /\
    amount (r' d) = amount (reserves 1000000 2000000 d) + n /\
    amount (r' (opposite d)) = amount (reserves 1000000 2000000 (opposite d)) - k' /\
    paid st1 st2 (k 7) (reserve_mint params d) n /\
    paid st1 st2 (k 8) (reserve_mint params (opposite d)) (- k') /\
    owner_trading_fee fees 10000 = Some (owner_fee res) /\
    SwapCurve.withdraw_single_token_type_exact_out curve (owner_fee res)
      (amount (r' AtoB)) (amount (r' BtoA)) 1000000000 d fees = Ok shares /\
    supply m' = 1000000000 + shares /\ 0 <= shares /\
    pool_ok hashv never swap_id st2 (k 1) params r' m' /\
    forall v, Some (1000000 * 2000000) = Some v ->
    exists v', Some (amount (r' AtoB) * amount (r' BtoA)) = Some v' /\ v <= v'.
Proof.
  apply (at_sample swap_honours_limits 10000 15000 st1 st2 params (reserves 1000000 2000000)
    (shares 1000000000) (w 1) authority user (w 7) (w 5) (w 6) (w 8) (w 4) (w 10) token_program [] pool1);
    [apply wf_infos_decide; vm_compute; reflexivity|done|vm_compute; reflexivity].
Defined.

Lemma deposit_does_not_dilute_witness :
  exists r' m' na nb,
    pool_ok hashv never swap_id st3 (k 1) params r' m' /\ supply m' = 1000004456 + 1000000 /\
    na <= 2000 /\ nb <= 3000 /\
    amount (r' AtoB) = 1010000 + na /\ amount (r' BtoA) = 1980414 + nb /\
    paid st2 st3 (k 7) (k 2) na /\ paid st2 st3 (k 8) (k 3) nb /\ paid st2 st3 (k 9) (k 4) (- 1000000) /\
    forall d, amount (reserves 1010000 1980414 d) * supply m' <= amount (r' d) * 1000004456.
Proof.
  apply (at_sample deposit_does_not_dilute 1000000 2000 3000 st2 st3 params (reserves 1010000 1980414)
    (shares 1000004456) (w 1) authority user (w 7) (w 8) (w 5) (w 6) (w 4) (w 9) token_program [] pool2);
    [apply wf_infos_decide; vm_compute; reflexivity|done|done|done|vm_compute; reflexivity].
Defined.

Lemma withdrawal_does_not_dilute_witness :
  exists r' m' na nb,
    pool_ok hashv never swap_id st4 (k 1) params r' m' /\
    1001004456 - 5000000 <= supply m' <= 1001004456 /\ 1 <= na /\ 1 <= nb /\
    amount (r' AtoB) = 1011010 - na /\ amount (r' BtoA) = 1982395 - nb /\
    paid st3 st4 (k 9) (k 4) 5000000 /\
    (0 < na -> paid st3 st4 (k 7) (k 2) (- na)) /\ (0 < nb -> paid st3 st4 (k 8) (k 3) (- nb)) /\
    forall d, amount (reserves 1011010 1982395 d) * supply m' <= amount (r' d) * 1001004456.
Proof.
  apply (at_sample withdrawal_does_not_dilute 5000000 1 1 st3 st4 params (reserves 1011010 1982395)
    (shares 1001004456) (w 1) authority user (w 4) (w 9) (w 5) (w 6) (w 7) (w 8) (w 10) token_program []
    pool3); [apply wf_infos_decide; vm_compute; reflexivity|done..|vm_compute; reflexivity].
Defined.

Lemma initialize_opens_pool_witness :
  exists p r m, pool_ok hashv never swap_id st1 (k 1) p r m /\ supply m = 1000000000 /\
    SwapState.fees p = fees /\ swap_curve p = curve /\ token_a p = k 5 /\ token_b p = k 6 /\
    pool_mint p = k 4 /\ pool_fee_account p = k 10 /\ paid st0 st1 (k 9) (k 4) (- supply m).
Proof.
  apply (at_sample initialize_opens_pool fees curve None st0 st1 (w 1) authority (w 5) (w 6) (w 4) (w 10)
    (w 9) token_program []).
  - apply wf_store_decide. vm_compute. reflexivity.
  - apply wf_infos_decide. vm_compute. reflexivity.
  - vm_compute. reflexivity.
  - apply wf_pool_fees.
  - done.
  - intros a [Ha|Ha]; vm_compute in Ha; injection Ha as <-; discriminate.
  - vm_compute. reflexivity.
Defined.

(** ** A stable pool that pays for nothing *)
Definition stable : SwapCurve := {| curve_type := Stable_; calculator := StableCurve 1000 |}.
Definition stable0 : store := Eval vm_compute in
  <[k 5 := holding_data spl_token_id (token (k 2) pool_authority 9999)]>
  (<[k 6 := holding_data spl_token_id (token (k 3) pool_authority 1477)]> st0).
Definition stable1 : store := Eval vm_compute in
  after (run initialize_accounts (SwapInstruction.Initialize fees stable) stable0).

(** The tokens in an account. *)
Definition balance (st : store) (j : Pubkey) : option Z :=
  match unpack (T := Account) (data (acct st j)) with Ok a => Some (amount a) | _ => None end.

(** The stable curve rounds against the pool: on reserves of 9999 and
    1477 with amplification 1000 the program accepts a swap of zero tokens
    in and pays one token out of the reserve. *)
Example stable_pool_pays_for_nothing :
  exists st', run swap_accounts (SwapInstruction.Swap 0 1) stable1 = Ok st' /\
    balance stable1 (k 7) = Some 100000 /\ balance st' (k 7) = Some 100000 /\
    balance stable1 (k 8) = Some 100000 /\ balance st' (k 8) = Some 100001 /\
    balance stable1 (k 6) = Some 1477 /\ balance st' (k 6) = Some 1476.
Proof.
  eexists. split; [apply (is_ok_value ∅); vm_compute; reflexivity|]. vm_compute. by split_and!.
Qed.
End PoolSample.
