(* ===== verification/LendingMath.v ===== *)
(** * Token lending: errors and fixed-point arithmetic

    Models [src/solana-program-library/token-lending/program/src]: [error.rs],
    [math/common.rs], [math/decimal.rs] and [math/rate.rs].  A [Decimal] is an
    unsigned integer of 192 bits and a [Rate] one of 128 bits, both in units of
    [WAD]; every operation checks its width.  The integers come from the [uint]
    crate, whose checked operations are those of the machine integers. *)

From stdpp Require Import base list.
From Stdlib Require Import ZArith Lia.
From S2P Require Import Prelude Sdk.

(** ** Errors *)
Module LendingError.
Inductive t : Type :=
| InstructionUnpackError | AlreadyInitialized | NotRentExempt | InvalidMarketAuthority
| InvalidMarketOwner | InvalidAccountOwner | InvalidTokenOwner | InvalidTokenAccount
| InvalidTokenMint | InvalidTokenProgram | InvalidAmount | InvalidConfig | InvalidSigner
| InvalidAccountInput | MathOverflow | TokenInitializeMintFailed | TokenInitializeAccountFailed
| TokenTransferFailed | TokenMintToFailed | TokenBurnFailed | InsufficientLiquidity
| ReserveCollateralDisabled | ReserveStale | WithdrawTooSmall | WithdrawTooLarge
| BorrowTooSmall | BorrowTooLarge | RepayTooSmall | LiquidationTooSmall | ObligationHealthy
| ObligationStale | ObligationReserveLimit | InvalidObligationOwner | ObligationDepositsEmpty
| ObligationBorrowsEmpty | ObligationDepositsZero | ObligationBorrowsZero
| InvalidObligationCollateral | InvalidObligationLiquidity | ObligationCollateralEmpty
| ObligationLiquidityEmpty | NegativeInterestRate | InvalidOracleConfig
| InvalidFlashLoanReceiverProgram | NotEnoughLiquidityAfterFlashLoan.

(** [e as u32] *)
Definition discriminant (e : t) : Z :=
  match e with
  | InstructionUnpackError => 0 | AlreadyInitialized => 1 | NotRentExempt => 2
  | InvalidMarketAuthority => 3 | InvalidMarketOwner => 4 | InvalidAccountOwner => 5
  | InvalidTokenOwner => 6 | InvalidTokenAccount => 7 | InvalidTokenMint => 8
  | InvalidTokenProgram => 9 | InvalidAmount => 10 | InvalidConfig => 11 | InvalidSigner => 12
  | InvalidAccountInput => 13 | MathOverflow => 14 | TokenInitializeMintFailed => 15
  | TokenInitializeAccountFailed => 16 | TokenTransferFailed => 17 | TokenMintToFailed => 18
  | TokenBurnFailed => 19 | InsufficientLiquidity => 20 | ReserveCollateralDisabled => 21
  | ReserveStale => 22 | WithdrawTooSmall => 23 | WithdrawTooLarge => 24 | BorrowTooSmall => 25
  | BorrowTooLarge => 26 | RepayTooSmall => 27 | LiquidationTooSmall => 28
  | ObligationHealthy => 29 | ObligationStale => 30 | ObligationReserveLimit => 31
  | InvalidObligationOwner => 32 | ObligationDepositsEmpty => 33 | ObligationBorrowsEmpty => 34
  | ObligationDepositsZero => 35 | ObligationBorrowsZero => 36
  | InvalidObligationCollateral => 37 | InvalidObligationLiquidity => 38
  | ObligationCollateralEmpty => 39 | ObligationLiquidityEmpty => 40
  | NegativeInterestRate => 41 | InvalidOracleConfig => 42
  | InvalidFlashLoanReceiverProgram => 43 | NotEnoughLiquidityAfterFlashLoan => 44
  end.
End LendingError.

(** [LendingError::X.into()] *)
Definition lerr (e : LendingError.t) : ProgramError := Custom (LendingError.discriminant e).
Definition overflow : ProgramError := lerr LendingError.MathOverflow.

(** ** Scales *)
Definition WAD : Z := 1000000000000000000.
Definition HALF_WAD : Z := 500000000000000000.
Definition PERCENT_SCALER : Z := 10000000000000000.
Definition u192_max : Z := 2 ^ 192 - 1.

(** [10u64.checked_pow(n)]: 10^19 is the largest power that fits. *)
Definition checked_pow10 (n : Z) : option Z := if n <=? 19 then Some (10 ^ n) else None.

Abbreviation Decimal := Z (only parsing).
Abbreviation Rate := Z (only parsing).

(** ** Decimals *)
Module Decimal.
Definition one : Decimal := WAD.
Definition zero : Decimal := 0.
Definition from_percent (percent : Z) : Decimal := percent * PERCENT_SCALER.
Definition to_scaled_val (d : Decimal) : program_result Z :=
  if d <=? u128_max then Ok d else Err overflow.
Definition from_scaled_val (v : Z) : Decimal := v.
Definition to_u64 (v : Z) : program_result Z := if v <=? u64_max then Ok v else Err overflow.

Definition try_round_u64 (d : Decimal) : program_result Z :=
  s ← ok_or (checked_add u192_max HALF_WAD d) overflow;
  q ← ok_or (checked_div s WAD) overflow; to_u64 q.
Definition try_ceil_u64 (d : Decimal) : program_result Z :=
  w ← ok_or (checked_sub WAD 1) overflow;
  s ← ok_or (checked_add u192_max w d) overflow;
  q ← ok_or (checked_div s WAD) overflow; to_u64 q.
Definition try_floor_u64 (d : Decimal) : program_result Z :=
  q ← ok_or (checked_div d WAD) overflow; to_u64 q.

(** [From<u64>] and [From<u128>]; the product fits. *)
Definition from (val : Z) : Decimal := WAD * val.

Definition try_add (a b : Decimal) : program_result Decimal :=
  ok_or (checked_add u192_max a b) overflow.
Definition try_sub (a b : Decimal) : program_result Decimal := ok_or (checked_sub a b) overflow.
Definition try_div_u64 (a rhs : Z) : program_result Decimal := ok_or (checked_div a rhs) overflow.
Definition try_mul_u64 (a rhs : Z) : program_result Decimal :=
  ok_or (checked_mul u192_max a rhs) overflow.

(** By a [Decimal], or by a [Rate], which is converted first. *)
Definition try_div (a rhs : Decimal) : program_result Decimal :=
  p ← ok_or (checked_mul u192_max a WAD) overflow; ok_or (checked_div p rhs) overflow.
Definition try_mul (a rhs : Decimal) : program_result Decimal :=
  p ← ok_or (checked_mul u192_max a rhs) overflow; ok_or (checked_div p WAD) overflow.
End Decimal.

(** ** Rates *)
Module Rate.
Definition one : Rate := WAD.
Definition zero : Rate := 0.
Definition from_percent (percent : Z) : Rate := percent * PERCENT_SCALER.
Definition from_scaled_val (v : Z) : Rate := v.
Definition try_from (d : Decimal) : program_result Rate := Decimal.to_scaled_val d.

Definition try_add (a b : Rate) : program_result Rate := ok_or (checked_add u128_max a b) overflow.
Definition try_sub (a b : Rate) : program_result Rate := ok_or (checked_sub a b) overflow.
Definition try_div_u64 (a rhs : Z) : program_result Rate := ok_or (checked_div a rhs) overflow.
Definition try_div (a rhs : Rate) : program_result Rate :=
  p ← ok_or (checked_mul u128_max a WAD) overflow; ok_or (checked_div p rhs) overflow.
Definition try_mul (a rhs : Rate) : program_result Rate :=
  p ← ok_or (checked_mul u128_max a rhs) overflow; ok_or (checked_div p WAD) overflow.

(** The loop of [try_pow] on a positive exponent: the base is squared once more
    than is needed. *)
Fixpoint pow_loop (exp : positive) (base ret : Rate) : program_result Rate :=
  base ← try_mul base base;
  match exp with
  | xH => Ok ret
  | xO exp | xI exp =>
      ret ← (if Z.odd (Zpos exp) then try_mul ret base else Ok ret);
      pow_loop exp base ret
  end.

Definition try_pow (base : Rate) (exp : Z) : program_result Rate :=
  match exp with
  | Zpos p => pow_loop p base (if Z.odd exp then base else one)
  | _ => Ok one
  end.
End Rate.
