(* ===== verification/LendingState.v ===== *)
(** * Token lending: reserves and obligations

    Models [src/solana-program-library/token-lending/program/src/state]:
    [last_update.rs], [lending_market.rs], [reserve.rs] and [obligation.rs]; the
    operations of each type, with their errors.  The stored format is in
    [LendingPack]. *)

From stdpp Require Import base list.
From Stdlib Require Import ZArith Lia.
From S2P Require Import Prelude Sdk LendingMath.

(** ** Constants of [state/mod.rs] *)
Definition INITIAL_COLLATERAL_RATIO : Z := 1.
Definition INITIAL_COLLATERAL_RATE : Z := INITIAL_COLLATERAL_RATIO * WAD.
Definition PROGRAM_VERSION : Z := 1.
Definition UNINITIALIZED_VERSION : Z := 0.
(** [DEFAULT_TICKS_PER_SECOND / DEFAULT_TICKS_PER_SLOT * SECONDS_PER_DAY * 365] *)
Definition SLOTS_PER_YEAR : Z := 160 / 64 * 86400 * 365.
Definition STALE_AFTER_SLOTS_ELAPSED : Z := 1.
Definition LIQUIDATION_CLOSE_FACTOR : Z := 50.
Definition LIQUIDATION_CLOSE_AMOUNT : Z := 2.
Definition MAX_OBLIGATION_RESERVES : nat := 10.

(** ** When a record was last updated *)
Module LastUpdate.
Record t := { slot : Z; stale : bool }.
Definition new (slot : Z) : t := {| slot := slot; stale := true |}.
Definition slots_elapsed (self : t) (s : Z) : program_result Z :=
  ok_or (checked_sub s (slot self)) overflow.
Definition update_slot (s : Z) : t := {| slot := s; stale := false |}.
Definition mark_stale (self : t) : t := {| slot := slot self; stale := true |}.
(** The elapsed slots are computed only if the record is not marked. *)
Definition is_stale (self : t) (s : Z) : program_result bool :=
  if stale self then Ok true
  else n ← slots_elapsed self s; Ok (STALE_AFTER_SLOTS_ELAPSED <=? n).
End LastUpdate.

(** ** Markets *)
Module LendingMarket.
Record t := {
  version : Z;
  bump_seed : Z;
  owner : Pubkey;
  quote_currency : list Z;
  token_program_id : Pubkey;
  oracle_program_id : Pubkey }.
(** [new] and [init], which set every field. *)
Definition init (bump_seed : Z) (owner : Pubkey) (quote_currency : list Z)
    (token_program_id oracle_program_id : Pubkey) : t :=
  {| version := PROGRAM_VERSION; bump_seed := bump_seed; owner := owner;
     quote_currency := quote_currency; token_program_id := token_program_id;
     oracle_program_id := oracle_program_id |}.
Definition with_owner (self : t) (k : Pubkey) : t :=
  {| version := version self; bump_seed := bump_seed self; owner := k;
     quote_currency := quote_currency self; token_program_id := token_program_id self;
     oracle_program_id := oracle_program_id self |}.
End LendingMarket.

(** ** Fees *)
Inductive FeeCalculation : Type := Exclusive | Inclusive.

Module ReserveFees.
Record t := { borrow_fee_wad : Z; flash_loan_fee_wad : Z; host_fee_percentage : Z }.

Definition calculate_fees (self : t) (amount : Decimal) (fee_wad : Z) (fee_calculation : FeeCalculation)
  : program_result (Z * Z) :=
  let borrow_fee_rate := Rate.from_scaled_val fee_wad in
  let host_fee_rate := Rate.from_percent (host_fee_percentage self) in
  if (Rate.zero <? borrow_fee_rate) && (Decimal.zero <? amount) then
    let need_to_assess_host_fee := Rate.zero <? host_fee_rate in
    let minimum_fee := if need_to_assess_host_fee then 2 else 1 in
    borrow_fee_amount ←
      match fee_calculation with
      | Exclusive => Decimal.try_mul amount borrow_fee_rate
      | Inclusive =>
          d ← Rate.try_add borrow_fee_rate Rate.one;
          rate ← Rate.try_div borrow_fee_rate d;
          Decimal.try_mul amount rate
      end;
    let borrow_fee_decimal := Z.max borrow_fee_amount (Decimal.from minimum_fee) in
    fail_if (amount <=? borrow_fee_decimal) (lerr LendingError.BorrowTooSmall) ;;
    borrow_fee ← Decimal.try_round_u64 borrow_fee_decimal;
    host_fee ←
      (if need_to_assess_host_fee then
         h ← Decimal.try_mul borrow_fee_decimal host_fee_rate;
         n ← Decimal.try_round_u64 h; Ok (Z.max n 1)
       else Ok 0);
    Ok (borrow_fee, host_fee)
  else Ok (0, 0).

Definition calculate_borrow_fees (self : t) (borrow_amount : Decimal) (fee_calculation : FeeCalculation)
  : program_result (Z * Z) :=
  calculate_fees self borrow_amount (borrow_fee_wad self) fee_calculation.
Definition calculate_flash_loan_fees (self : t) (flash_loan_amount : Decimal)
  : program_result (Z * Z) :=
  calculate_fees self flash_loan_amount (flash_loan_fee_wad self) Exclusive.
End ReserveFees.

Module ReserveConfig.
Record t := {
  optimal_utilization_rate : Z;
  loan_to_value_ratio : Z;
  liquidation_bonus : Z;
  liquidation_threshold : Z;
  min_borrow_rate : Z;
  optimal_borrow_rate : Z;
  max_borrow_rate : Z;
  fees : ReserveFees.t }.
End ReserveConfig.

(** ** Liquidity of a reserve *)
Module ReserveLiquidity.
Record t := {
  mint_pubkey : Pubkey;
  mint_decimals : Z;
  supply_pubkey : Pubkey;
  fee_receiver : Pubkey;
  oracle_pubkey : Pubkey;
  available_amount : Z;
  borrowed_amount_wads : Decimal;
  cumulative_borrow_rate_wads : Decimal;
  market_price : Decimal }.

Definition new (mint : Pubkey) (decimals : Z) (supply fee_receiver oracle : Pubkey) (price : Decimal) : t :=
  {| mint_pubkey := mint; mint_decimals := decimals; supply_pubkey := supply;
     fee_receiver := fee_receiver; oracle_pubkey := oracle; available_amount := 0;
     borrowed_amount_wads := Decimal.zero; cumulative_borrow_rate_wads := Decimal.one;
     market_price := price |}.

Definition with_amounts (self : t) (available borrowed rate : Z) : t :=
  {| mint_pubkey := mint_pubkey self; mint_decimals := mint_decimals self;
     supply_pubkey := supply_pubkey self; fee_receiver := fee_receiver self;
     oracle_pubkey := oracle_pubkey self; available_amount := available;
     borrowed_amount_wads := borrowed; cumulative_borrow_rate_wads := rate;
     market_price := market_price self |}.
Definition with_price (self : t) (price : Decimal) : t :=
  {| mint_pubkey := mint_pubkey self; mint_decimals := mint_decimals self;
     supply_pubkey := supply_pubkey self; fee_receiver := fee_receiver self;
     oracle_pubkey := oracle_pubkey self; available_amount := available_amount self;
     borrowed_amount_wads := borrowed_amount_wads self;
     cumulative_borrow_rate_wads := cumulative_borrow_rate_wads self; market_price := price |}.

Definition total_supply (self : t) : program_result Decimal :=
  Decimal.try_add (Decimal.from (available_amount self)) (borrowed_amount_wads self).

Definition deposit (self : t) (liquidity_amount : Z) : program_result t :=
  n ← ok_or (checked_add u64_max (available_amount self) liquidity_amount) overflow;
  Ok (with_amounts self n (borrowed_amount_wads self) (cumulative_borrow_rate_wads self)).

Definition withdraw (self : t) (liquidity_amount : Z) : program_result t :=
  fail_if (available_amount self <? liquidity_amount) (lerr LendingError.InsufficientLiquidity) ;;
  n ← ok_or (checked_sub (available_amount self) liquidity_amount) overflow;
  Ok (with_amounts self n (borrowed_amount_wads self) (cumulative_borrow_rate_wads self)).

Definition borrow (self : t) (borrow_decimal : Decimal) : program_result t :=
  borrow_amount ← Decimal.try_floor_u64 borrow_decimal;
  fail_if (available_amount self <? borrow_amount) (lerr LendingError.InsufficientLiquidity) ;;
  n ← ok_or (checked_sub (available_amount self) borrow_amount) overflow;
  b ← Decimal.try_add (borrowed_amount_wads self) borrow_decimal;
  Ok (with_amounts self n b (cumulative_borrow_rate_wads self)).

Definition repay (self : t) (repay_amount : Z) (settle_amount : Decimal) : program_result t :=
  n ← ok_or (checked_add u64_max (available_amount self) repay_amount) overflow;
  b ← Decimal.try_sub (borrowed_amount_wads self) settle_amount;
  Ok (with_amounts self n b (cumulative_borrow_rate_wads self)).

Definition utilization_rate (self : t) : program_result Rate :=
  total ← total_supply self;
  if total =? Decimal.zero then Ok Rate.zero
  else d ← Decimal.try_div (borrowed_amount_wads self) total; Rate.try_from d.

Definition compound_interest (self : t) (current_borrow_rate : Rate) (slots_elapsed : Z)
  : program_result t :=
  slot_interest_rate ← Rate.try_div_u64 current_borrow_rate SLOTS_PER_YEAR;
  base ← Rate.try_add Rate.one slot_interest_rate;
  compounded_interest_rate ← Rate.try_pow base slots_elapsed;
  r ← Decimal.try_mul (cumulative_borrow_rate_wads self) compounded_interest_rate;
  b ← Decimal.try_mul (borrowed_amount_wads self) compounded_interest_rate;
  Ok (with_amounts self (available_amount self) b r).
End ReserveLiquidity.

(** ** Collateral of a reserve *)
Module CollateralExchangeRate.
Definition decimal_collateral_to_liquidity (self : Rate) (collateral_amount : Decimal)
  : program_result Decimal := Decimal.try_div collateral_amount self.
Definition collateral_to_liquidity (self : Rate) (collateral_amount : Z) : program_result Z :=
  d ← decimal_collateral_to_liquidity self (Decimal.from collateral_amount); Decimal.try_floor_u64 d.
Definition decimal_liquidity_to_collateral (self : Rate) (liquidity_amount : Decimal)
  : program_result Decimal := Decimal.try_mul liquidity_amount self.
Definition liquidity_to_collateral (self : Rate) (liquidity_amount : Z) : program_result Z :=
  d ← decimal_liquidity_to_collateral self (Decimal.from liquidity_amount); Decimal.try_floor_u64 d.
End CollateralExchangeRate.

Module ReserveCollateral.
Record t := { mint_pubkey : Pubkey; mint_total_supply : Z; supply_pubkey : Pubkey }.
Definition new (mint supply : Pubkey) : t :=
  {| mint_pubkey := mint; mint_total_supply := 0; supply_pubkey := supply |}.
Definition with_supply (self : t) (n : Z) : t :=
  {| mint_pubkey := mint_pubkey self; mint_total_supply := n; supply_pubkey := supply_pubkey self |}.
Definition mint (self : t) (collateral_amount : Z) : program_result t :=
  n ← ok_or (checked_add u64_max (mint_total_supply self) collateral_amount) overflow;
  Ok (with_supply self n).
Definition burn (self : t) (collateral_amount : Z) : program_result t :=
  n ← ok_or (checked_sub (mint_total_supply self) collateral_amount) overflow;
  Ok (with_supply self n).
Definition exchange_rate (self : t) (total_liquidity : Decimal) : program_result Rate :=
  if (mint_total_supply self =? 0) || (total_liquidity =? Decimal.zero)
  then Ok (Rate.from_scaled_val INITIAL_COLLATERAL_RATE)
  else d ← Decimal.try_div (Decimal.from (mint_total_supply self)) total_liquidity; Rate.try_from d.
End ReserveCollateral.

(** ** Obligations *)
Module ObligationCollateral.
Record t := { deposit_reserve : Pubkey; deposited_amount : Z; market_value : Decimal }.
Definition new (reserve : Pubkey) : t :=
  {| deposit_reserve := reserve; deposited_amount := 0; market_value := Decimal.zero |}.
Definition with_amount (self : t) (n : Z) : t :=
  {| deposit_reserve := deposit_reserve self; deposited_amount := n; market_value := market_value self |}.
Definition with_value (self : t) (v : Decimal) : t :=
  {| deposit_reserve := deposit_reserve self; deposited_amount := deposited_amount self; market_value := v |}.
Definition deposit (self : t) (collateral_amount : Z) : program_result t :=
  n ← ok_or (checked_add u64_max (deposited_amount self) collateral_amount) overflow;
  Ok (with_amount self n).
Definition withdraw (self : t) (collateral_amount : Z) : program_result t :=
  n ← ok_or (checked_sub (deposited_amount self) collateral_amount) overflow;
  Ok (with_amount self n).
End ObligationCollateral.

Module ObligationLiquidity.
Record t := {
  borrow_reserve : Pubkey;
  cumulative_borrow_rate_wads : Decimal;
  borrowed_amount_wads : Decimal;
  market_value : Decimal }.
Definition new (reserve : Pubkey) : t :=
  {| borrow_reserve := reserve; cumulative_borrow_rate_wads := Decimal.one;
     borrowed_amount_wads := Decimal.zero; market_value := Decimal.zero |}.
Definition with_amounts (self : t) (rate borrowed : Decimal) : t :=
  {| borrow_reserve := borrow_reserve self; cumulative_borrow_rate_wads := rate;
     borrowed_amount_wads := borrowed; market_value := market_value self |}.
Definition with_value (self : t) (v : Decimal) : t :=
  {| borrow_reserve := borrow_reserve self;
     cumulative_borrow_rate_wads := cumulative_borrow_rate_wads self;
     borrowed_amount_wads := borrowed_amount_wads self; market_value := v |}.
Definition repay (self : t) (settle_amount : Decimal) : program_result t :=
  b ← Decimal.try_sub (borrowed_amount_wads self) settle_amount;
  Ok (with_amounts self (cumulative_borrow_rate_wads self) b).
Definition borrow (self : t) (borrow_amount : Decimal) : program_result t :=
  b ← Decimal.try_add (borrowed_amount_wads self) borrow_amount;
  Ok (with_amounts self (cumulative_borrow_rate_wads self) b).
Definition accrue_interest (self : t) (rate : Decimal) : program_result t :=
  match rate ?= cumulative_borrow_rate_wads self with
  | Lt => Err (lerr LendingError.NegativeInterestRate)
  | Eq => Ok self
  | Gt =>
      d ← Decimal.try_div rate (cumulative_borrow_rate_wads self);
      compounded_interest_rate ← Rate.try_from d;
      b ← Decimal.try_mul (borrowed_amount_wads self) compounded_interest_rate;
      Ok (with_amounts self rate b)
  end.
End ObligationLiquidity.

Module Obligation.
Record t := {
  version : Z;
  last_update : LastUpdate.t;
  lending_market : Pubkey;
  owner : Pubkey;
  deposits : list ObligationCollateral.t;
  borrows : list ObligationLiquidity.t;
  deposited_value : Decimal;
  borrowed_value : Decimal;
  allowed_borrow_value : Decimal;
  unhealthy_borrow_value : Decimal }.

(** [init] leaves the values as they are. *)
Definition init (self : t) (current_slot : Z) (market owner : Pubkey) : t :=
  {| version := PROGRAM_VERSION; last_update := LastUpdate.new current_slot;
     lending_market := market; owner := owner; deposits := []; borrows := [];
     deposited_value := deposited_value self; borrowed_value := borrowed_value self;
     allowed_borrow_value := allowed_borrow_value self;
     unhealthy_borrow_value := unhealthy_borrow_value self |}.
Definition with_lists (self : t) (ds : list ObligationCollateral.t) (bs : list ObligationLiquidity.t) : t :=
  {| version := version self; last_update := last_update self; lending_market := lending_market self;
     owner := owner self; deposits := ds; borrows := bs; deposited_value := deposited_value self;
     borrowed_value := borrowed_value self; allowed_borrow_value := allowed_borrow_value self;
     unhealthy_borrow_value := unhealthy_borrow_value self |}.
Definition with_last_update (self : t) (u : LastUpdate.t) : t :=
  {| version := version self; last_update := u; lending_market := lending_market self;
     owner := owner self; deposits := deposits self; borrows := borrows self;
     deposited_value := deposited_value self; borrowed_value := borrowed_value self;
     allowed_borrow_value := allowed_borrow_value self;
     unhealthy_borrow_value := unhealthy_borrow_value self |}.
Definition with_values (self : t) (deposited borrowed allowed unhealthy : Decimal) : t :=
  {| version := version self; last_update := last_update self; lending_market := lending_market self;
     owner := owner self; deposits := deposits self; borrows := borrows self;
     deposited_value := deposited; borrowed_value := borrowed; allowed_borrow_value := allowed;
     unhealthy_borrow_value := unhealthy |}.
Definition mark_stale (self : t) : t := with_last_update self (LastUpdate.mark_stale (last_update self)).

Definition loan_to_value (self : t) : program_result Decimal :=
  Decimal.try_div (borrowed_value self) (deposited_value self).

(** Indexing panics out of range. *)
Definition repay (self : t) (settle_amount : Decimal) (liquidity_index : nat) : program_result t :=
  liquidity ← unwrap (borrows self !! liquidity_index);
  if settle_amount =? ObligationLiquidity.borrowed_amount_wads liquidity
  then Ok (with_lists self (deposits self) (delete liquidity_index (borrows self)))
  else
    liquidity ← ObligationLiquidity.repay liquidity settle_amount;
    Ok (with_lists self (deposits self) (<[liquidity_index := liquidity]> (borrows self))).

Definition withdraw (self : t) (withdraw_amount : Z) (collateral_index : nat) : program_result t :=
  collateral ← unwrap (deposits self !! collateral_index);
  if withdraw_amount =? ObligationCollateral.deposited_amount collateral
  then Ok (with_lists self (delete collateral_index (deposits self)) (borrows self))
  else
    collateral ← ObligationCollateral.withdraw collateral withdraw_amount;
    Ok (with_lists self (<[collateral_index := collateral]> (deposits self)) (borrows self)).

Definition max_withdraw_value (self : t) : program_result Decimal :=
  p ← Decimal.try_mul (borrowed_value self) (deposited_value self);
  required_deposit_value ← Decimal.try_div p (allowed_borrow_value self);
  if deposited_value self <=? required_deposit_value then Ok Decimal.zero
  else Decimal.try_sub (deposited_value self) required_deposit_value.

Definition remaining_borrow_value (self : t) : program_result Decimal :=
  Decimal.try_sub (allowed_borrow_value self) (borrowed_value self).

Definition max_liquidation_amount (self : t) (liquidity : ObligationLiquidity.t) : program_result Decimal :=
  v ← Decimal.try_mul (borrowed_value self) (Rate.from_percent LIQUIDATION_CLOSE_FACTOR);
  let max_liquidation_value := Z.min v (ObligationLiquidity.market_value liquidity) in
  max_liquidation_pct ← Decimal.try_div max_liquidation_value (ObligationLiquidity.market_value liquidity);
  Decimal.try_mul (ObligationLiquidity.borrowed_amount_wads liquidity) max_liquidation_pct.

Definition find_collateral_index_in_deposits (self : t) (reserve : Pubkey) : option nat :=
  fst <$> list_find (fun c => ObligationCollateral.deposit_reserve c = reserve) (deposits self).
Definition find_liquidity_index_in_borrows (self : t) (reserve : Pubkey) : option nat :=
  fst <$> list_find (fun l => ObligationLiquidity.borrow_reserve l = reserve) (borrows self).

Definition find_collateral_in_deposits (self : t) (reserve : Pubkey)
  : program_result (ObligationCollateral.t * nat) :=
  fail_if (bool_decide (deposits self = [])) (lerr LendingError.ObligationDepositsEmpty) ;;
  i ← ok_or (find_collateral_index_in_deposits self reserve)
        (lerr LendingError.InvalidObligationCollateral);
  c ← unwrap (deposits self !! i); Ok (c, i).
Definition find_liquidity_in_borrows (self : t) (reserve : Pubkey)
  : program_result (ObligationLiquidity.t * nat) :=
  fail_if (bool_decide (borrows self = [])) (lerr LendingError.ObligationBorrowsEmpty) ;;
  i ← ok_or (find_liquidity_index_in_borrows self reserve)
        (lerr LendingError.InvalidObligationLiquidity);
  l ← unwrap (borrows self !! i); Ok (l, i).

(** The obligation with the entry, and its index. *)
Definition find_or_add_collateral_to_deposits (self : t) (reserve : Pubkey) : program_result (t * nat) :=
  match find_collateral_index_in_deposits self reserve with
  | Some i => Ok (self, i)
  | None =>
      fail_if (Nat.leb MAX_OBLIGATION_RESERVES (length (deposits self) + length (borrows self)))
        (lerr LendingError.ObligationReserveLimit) ;;
      Ok (with_lists self (deposits self ++ [ObligationCollateral.new reserve]) (borrows self),
          length (deposits self))
  end.
Definition find_or_add_liquidity_to_borrows (self : t) (reserve : Pubkey) : program_result (t * nat) :=
  match find_liquidity_index_in_borrows self reserve with
  | Some i => Ok (self, i)
  | None =>
      fail_if (Nat.leb MAX_OBLIGATION_RESERVES (length (deposits self) + length (borrows self)))
        (lerr LendingError.ObligationReserveLimit) ;;
      Ok (with_lists self (deposits self) (borrows self ++ [ObligationLiquidity.new reserve]),
          length (borrows self))
  end.
End Obligation.

(** ** Reserves *)
Record CalculateBorrowResult := {
  borrow_amount : Decimal; receive_amount : Z; borrow_fee : Z; host_fee : Z }.
Record CalculateRepayResult := { cr_settle_amount : Decimal; cr_repay_amount : Z }.
Record CalculateLiquidationResult := {
  settle_amount : Decimal; repay_amount : Z; withdraw_amount : Z }.

Module Reserve.
Record t := {
  version : Z;
  last_update : LastUpdate.t;
  lending_market : Pubkey;
  liquidity : ReserveLiquidity.t;
  collateral : ReserveCollateral.t;
  config : ReserveConfig.t }.

(** [init] sets every field. *)
Definition init (current_slot : Z) (market : Pubkey) (l : ReserveLiquidity.t) (c : ReserveCollateral.t)
    (cfg : ReserveConfig.t) : t :=
  {| version := PROGRAM_VERSION; last_update := LastUpdate.new current_slot; lending_market := market;
     liquidity := l; collateral := c; config := cfg |}.
Definition with_parts (self : t) (u : LastUpdate.t) (l : ReserveLiquidity.t) (c : ReserveCollateral.t) : t :=
  {| version := version self; last_update := u; lending_market := lending_market self;
     liquidity := l; collateral := c; config := config self |}.
Definition with_liquidity (self : t) (l : ReserveLiquidity.t) : t :=
  with_parts self (last_update self) l (collateral self).
Definition with_last_update (self : t) (u : LastUpdate.t) : t :=
  with_parts self u (liquidity self) (collateral self).
Definition mark_stale (self : t) : t := with_last_update self (LastUpdate.mark_stale (last_update self)).

Definition collateral_exchange_rate (self : t) : program_result Rate :=
  total_liquidity ← ReserveLiquidity.total_supply (liquidity self);
  ReserveCollateral.exchange_rate (collateral self) total_liquidity.

(** The collateral to mint, and the reserve after the deposit. *)
Definition deposit_liquidity (self : t) (liquidity_amount : Z) : program_result (Z * t) :=
  rate ← collateral_exchange_rate self;
  collateral_amount ← CollateralExchangeRate.liquidity_to_collateral rate liquidity_amount;
  l ← ReserveLiquidity.deposit (liquidity self) liquidity_amount;
  c ← ReserveCollateral.mint (collateral self) collateral_amount;
  Ok (collateral_amount, with_parts self (last_update self) l c).

Definition redeem_collateral (self : t) (collateral_amount : Z) : program_result (Z * t) :=
  rate ← collateral_exchange_rate self;
  liquidity_amount ← CollateralExchangeRate.collateral_to_liquidity rate collateral_amount;
  c ← ReserveCollateral.burn (collateral self) collateral_amount;
  l ← ReserveLiquidity.withdraw (liquidity self) liquidity_amount;
  Ok (liquidity_amount, with_parts self (last_update self) l c).

Definition current_borrow_rate (self : t) : program_result Rate :=
  let cfg := config self in
  utilization_rate ← ReserveLiquidity.utilization_rate (liquidity self);
  let optimal := ReserveConfig.optimal_utilization_rate cfg in
  let optimal_utilization_rate := Rate.from_percent optimal in
  if (utilization_rate <? optimal_utilization_rate) || (optimal =? 100) then
    normalized_rate ← Rate.try_div utilization_rate optimal_utilization_rate;
    let min_rate := Rate.from_percent (ReserveConfig.min_borrow_rate cfg) in
    d ← ok_or (checked_sub (ReserveConfig.optimal_borrow_rate cfg) (ReserveConfig.min_borrow_rate cfg))
          overflow;
    r ← Rate.try_mul normalized_rate (Rate.from_percent d);
    Rate.try_add r min_rate
  else
    n ← Rate.try_sub utilization_rate optimal_utilization_rate;
    d ← ok_or (checked_sub 100 optimal) overflow;
    normalized_rate ← Rate.try_div n (Rate.from_percent d);
    let min_rate := Rate.from_percent (ReserveConfig.optimal_borrow_rate cfg) in
    d ← ok_or (checked_sub (ReserveConfig.max_borrow_rate cfg) (ReserveConfig.optimal_borrow_rate cfg))
          overflow;
    r ← Rate.try_mul normalized_rate (Rate.from_percent d);
    Rate.try_add r min_rate.

Definition accrue_interest (self : t) (current_slot : Z) : program_result t :=
  slots_elapsed ← LastUpdate.slots_elapsed (last_update self) current_slot;
  if 0 <? slots_elapsed then
    rate ← current_borrow_rate self;
    l ← ReserveLiquidity.compound_interest (liquidity self) rate slots_elapsed;
    Ok (with_liquidity self l)
  else Ok self.

Definition calculate_borrow (self : t) (amount_to_borrow : Z) (max_borrow_value : Decimal)
  : program_result CalculateBorrowResult :=
  let fees := ReserveConfig.fees (config self) in
  decimals ← ok_or (checked_pow10 (ReserveLiquidity.mint_decimals (liquidity self))) overflow;
  if amount_to_borrow =? u64_max then
    v ← Decimal.try_mul_u64 max_borrow_value decimals;
    q ← Decimal.try_div v (ReserveLiquidity.market_price (liquidity self));
    let borrow_amount := Z.min q (Decimal.from (ReserveLiquidity.available_amount (liquidity self))) in
    '(borrow_fee, host_fee) ← ReserveFees.calculate_borrow_fees fees borrow_amount Inclusive;
    n ← Decimal.try_floor_u64 borrow_amount;
    receive_amount ← ok_or (checked_sub n borrow_fee) overflow;
    Ok {| borrow_amount := borrow_amount; receive_amount := receive_amount;
          borrow_fee := borrow_fee; host_fee := host_fee |}
  else
    let receive_amount := amount_to_borrow in
    '(borrow_fee, host_fee) ←
      ReserveFees.calculate_borrow_fees fees (Decimal.from receive_amount) Exclusive;
    borrow_amount ← Decimal.try_add (Decimal.from receive_amount) (Decimal.from borrow_fee);
    v ← Decimal.try_mul borrow_amount (ReserveLiquidity.market_price (liquidity self));
    borrow_value ← Decimal.try_div_u64 v decimals;
    fail_if (max_borrow_value <? borrow_value) (lerr LendingError.BorrowTooLarge) ;;
    Ok {| borrow_amount := borrow_amount; receive_amount := receive_amount;
          borrow_fee := borrow_fee; host_fee := host_fee |}.

Definition calculate_repay (amount_to_repay : Z) (borrowed_amount : Decimal)
  : program_result CalculateRepayResult :=
  let settle_amount :=
    if amount_to_repay =? u64_max then borrowed_amount
    else Z.min (Decimal.from amount_to_repay) borrowed_amount in
  repay_amount ← Decimal.try_ceil_u64 settle_amount;
  Ok {| cr_settle_amount := settle_amount; cr_repay_amount := repay_amount |}.

(** Debts too small to be liquidated in part. *)
Definition close_out (liquidity : ObligationLiquidity.t) (collateral : ObligationCollateral.t)
    (max_amount : Decimal) (bonus_rate : Rate) : program_result CalculateLiquidationResult :=
  let settle := ObligationLiquidity.borrowed_amount_wads liquidity in
  let deposited := ObligationCollateral.deposited_amount collateral in
  let value := ObligationCollateral.market_value collateral in
  liquidation_value ← Decimal.try_mul (ObligationLiquidity.market_value liquidity) bonus_rate;
  match liquidation_value ?= value with
  | Gt =>
      repay_pct ← Decimal.try_div value liquidation_value;
      m ← Decimal.try_mul max_amount repay_pct;
      n ← Decimal.try_ceil_u64 m;
      Ok {| settle_amount := settle; repay_amount := n; withdraw_amount := deposited |}
  | Eq =>
      n ← Decimal.try_ceil_u64 max_amount;
      Ok {| settle_amount := settle; repay_amount := n; withdraw_amount := deposited |}
  | Lt =>
      withdraw_pct ← Decimal.try_div liquidation_value value;
      n ← Decimal.try_floor_u64 max_amount;
      m ← Decimal.try_mul (Decimal.from deposited) withdraw_pct;
      w ← Decimal.try_floor_u64 m;
      Ok {| settle_amount := settle; repay_amount := n; withdraw_amount := w |}
  end.

Definition liquidate_part (obligation : Obligation.t) (liquidity : ObligationLiquidity.t)
    (collateral : ObligationCollateral.t) (max_amount : Decimal) (bonus_rate : Rate)
  : program_result CalculateLiquidationResult :=
  let deposited := ObligationCollateral.deposited_amount collateral in
  let value := ObligationCollateral.market_value collateral in
  m ← Obligation.max_liquidation_amount obligation liquidity;
  let liquidation_amount := Z.min m max_amount in
  liquidation_pct ← Decimal.try_div liquidation_amount (ObligationLiquidity.borrowed_amount_wads liquidity);
  v ← Decimal.try_mul (ObligationLiquidity.market_value liquidity) liquidation_pct;
  liquidation_value ← Decimal.try_mul v bonus_rate;
  match liquidation_value ?= value with
  | Gt =>
      repay_pct ← Decimal.try_div value liquidation_value;
      settle ← Decimal.try_mul liquidation_amount repay_pct;
      n ← Decimal.try_ceil_u64 settle;
      Ok {| settle_amount := settle; repay_amount := n; withdraw_amount := deposited |}
  | Eq =>
      n ← Decimal.try_ceil_u64 liquidation_amount;
      Ok {| settle_amount := liquidation_amount; repay_amount := n; withdraw_amount := deposited |}
  | Lt =>
      withdraw_pct ← Decimal.try_div liquidation_value value;
      n ← Decimal.try_floor_u64 liquidation_amount;
      m ← Decimal.try_mul (Decimal.from deposited) withdraw_pct;
      w ← Decimal.try_floor_u64 m;
      Ok {| settle_amount := liquidation_amount; repay_amount := n; withdraw_amount := w |}
  end.

Definition calculate_liquidation (self : t) (amount_to_liquidate : Z) (obligation : Obligation.t)
    (liquidity : ObligationLiquidity.t) (collateral : ObligationCollateral.t)
  : program_result CalculateLiquidationResult :=
  bonus_rate ← Rate.try_add (Rate.from_percent (ReserveConfig.liquidation_bonus (config self))) Rate.one;
  let borrowed := ObligationLiquidity.borrowed_amount_wads liquidity in
  let max_amount :=
    if amount_to_liquidate =? u64_max then borrowed
    else Z.min (Decimal.from amount_to_liquidate) borrowed in
  if borrowed <? Decimal.from LIQUIDATION_CLOSE_AMOUNT
  then close_out liquidity collateral max_amount bonus_rate
  else liquidate_part obligation liquidity collateral max_amount bonus_rate.
End Reserve.
