(* ===== verification/LendingPack.v ===== *)
(** * Token lending: the stored format

    Models the [Pack] implementations of
    [src/solana-program-library/token-lending/program/src/state]: the fields of a
    market, a reserve or an obligation at fixed offsets, with padding that is
    left as it is.  Packing a decimal of more than 128 bits, or more entries than
    an obligation has room for, panics ([packable]). *)

From stdpp Require Import base list.
From Stdlib Require Import ZArith Lia.
From S2P Require Import Prelude Sdk TokenState LendingMath LendingState.

(** [array_refs!]: consecutive parts of the given widths. *)
Fixpoint array_refs (ws : list nat) (l : list Z) : list (list Z) :=
  match ws with
  | [] => []
  | w :: ws => take w l :: array_refs ws (drop w l)
  end.

Definition u8_of (l : list Z) : Z := from_le_bytes l.
Definition pack_bool (b : bool) : list Z := [Z.b2z b].
Definition pack_decimal (d : Decimal) : list Z := to_le_bytes 16 d.
Definition unpack_decimal (src : list Z) : Decimal := from_le_bytes src.
(** [expect] on [to_scaled_val] *)
Definition fits (d : Decimal) : bool := d <=? u128_max.

Definition check_version (v : Z) : program_result unit :=
  fail_if (PROGRAM_VERSION <? v) InvalidAccountData.

(** [T::pack], with the panics of [pack_into_slice]. *)
Definition pack_state {T} `{Pack T} (packable : T -> bool) (x : T) (dst : list Z)
  : program_result (list Z) :=
  d ← pack x dst; panic_unless (packable x) ;; Ok d.

(** ** Markets *)
Definition LENDING_MARKET_WIDTHS : list nat := [1; 1; 32; 32; 32; 32]%nat.

Definition LendingMarket_pack_into_slice (m : LendingMarket.t) (dst : list Z) : list Z :=
  concat [to_le_bytes 1 (LendingMarket.version m); to_le_bytes 1 (LendingMarket.bump_seed m);
         LendingMarket.owner m; LendingMarket.quote_currency m; LendingMarket.token_program_id m;
         LendingMarket.oracle_program_id m] ++ drop 130 dst.

Definition LendingMarket_unpack_from_slice (input : list Z) : program_result LendingMarket.t :=
  panic_unless (Nat.leb 258 (length input)) ;;
  match array_refs LENDING_MARKET_WIDTHS input with
  | [version; bump_seed; owner; quote_currency; token_program_id; oracle_program_id] =>
      check_version (u8_of version) ;;
      Ok {| LendingMarket.version := u8_of version; LendingMarket.bump_seed := u8_of bump_seed;
            LendingMarket.owner := owner; LendingMarket.quote_currency := quote_currency;
            LendingMarket.token_program_id := token_program_id;
            LendingMarket.oracle_program_id := oracle_program_id |}
  | _ => Panic
  end.

#[global] Instance LendingMarket_Pack : Pack LendingMarket.t := {
  LEN := 258;
  is_initialized := fun m => negb (LendingMarket.version m =? UNINITIALIZED_VERSION);
  pack_into_slice := LendingMarket_pack_into_slice;
  unpack_from_slice := LendingMarket_unpack_from_slice;
}.

(** ** Reserves *)
Definition RESERVE_WIDTHS : list nat :=
  [1; 8; 1; 32; 32; 1; 32; 32; 32; 8; 16; 16; 16; 32; 8; 32; 1; 1; 1; 1; 1; 1; 1; 8; 8; 1]%nat.

Definition Reserve_fields (r : Reserve.t) : list (list Z) :=
  let l := Reserve.liquidity r in let c := Reserve.collateral r in
  let g := Reserve.config r in let f := ReserveConfig.fees g in
  [to_le_bytes 1 (Reserve.version r); to_le_bytes 8 (LastUpdate.slot (Reserve.last_update r));
   pack_bool (LastUpdate.stale (Reserve.last_update r)); Reserve.lending_market r;
   ReserveLiquidity.mint_pubkey l; to_le_bytes 1 (ReserveLiquidity.mint_decimals l);
   ReserveLiquidity.supply_pubkey l; ReserveLiquidity.fee_receiver l;
   ReserveLiquidity.oracle_pubkey l; to_le_bytes 8 (ReserveLiquidity.available_amount l);
   pack_decimal (ReserveLiquidity.borrowed_amount_wads l);
   pack_decimal (ReserveLiquidity.cumulative_borrow_rate_wads l);
   pack_decimal (ReserveLiquidity.market_price l);
   ReserveCollateral.mint_pubkey c; to_le_bytes 8 (ReserveCollateral.mint_total_supply c);
   ReserveCollateral.supply_pubkey c;
   to_le_bytes 1 (ReserveConfig.optimal_utilization_rate g);
   to_le_bytes 1 (ReserveConfig.loan_to_value_ratio g);
   to_le_bytes 1 (ReserveConfig.liquidation_bonus g);
   to_le_bytes 1 (ReserveConfig.liquidation_threshold g);
   to_le_bytes 1 (ReserveConfig.min_borrow_rate g);
   to_le_bytes 1 (ReserveConfig.optimal_borrow_rate g);
   to_le_bytes 1 (ReserveConfig.max_borrow_rate g);
   to_le_bytes 8 (ReserveFees.borrow_fee_wad f); to_le_bytes 8 (ReserveFees.flash_loan_fee_wad f);
   to_le_bytes 1 (ReserveFees.host_fee_percentage f)].

Definition Reserve_pack_into_slice (r : Reserve.t) (dst : list Z) : list Z :=
  concat (Reserve_fields r) ++ drop 323 dst.

Definition Reserve_packable (r : Reserve.t) : bool :=
  let l := Reserve.liquidity r in
  fits (ReserveLiquidity.borrowed_amount_wads l) &&
  fits (ReserveLiquidity.cumulative_borrow_rate_wads l) && fits (ReserveLiquidity.market_price l).

Definition Reserve_unpack_from_slice (input : list Z) : program_result Reserve.t :=
  panic_unless (Nat.leb 571 (length input)) ;;
  match array_refs RESERVE_WIDTHS input with
  | [version; slot; stale; lending_market; l_mint; l_decimals; l_supply; l_fee_receiver; l_oracle;
     l_available; l_borrowed; l_rate; l_price; c_mint; c_total; c_supply; optimal_utilization;
     ltv; bonus; threshold; min_rate; optimal_rate; max_rate; borrow_fee; flash_fee; host_fee] =>
      check_version (u8_of version) ;;
      stale ← unpack_bool stale;
      Ok {| Reserve.version := u8_of version;
            Reserve.last_update := {| LastUpdate.slot := from_le_bytes slot; LastUpdate.stale := stale |};
            Reserve.lending_market := lending_market;
            Reserve.liquidity :=
              {| ReserveLiquidity.mint_pubkey := l_mint;
                 ReserveLiquidity.mint_decimals := u8_of l_decimals;
                 ReserveLiquidity.supply_pubkey := l_supply;
                 ReserveLiquidity.fee_receiver := l_fee_receiver;
                 ReserveLiquidity.oracle_pubkey := l_oracle;
                 ReserveLiquidity.available_amount := from_le_bytes l_available;
                 ReserveLiquidity.borrowed_amount_wads := unpack_decimal l_borrowed;
                 ReserveLiquidity.cumulative_borrow_rate_wads := unpack_decimal l_rate;
                 ReserveLiquidity.market_price := unpack_decimal l_price |};
            Reserve.collateral :=
              {| ReserveCollateral.mint_pubkey := c_mint;
                 ReserveCollateral.mint_total_supply := from_le_bytes c_total;
                 ReserveCollateral.supply_pubkey := c_supply |};
            Reserve.config :=
              {| ReserveConfig.optimal_utilization_rate := u8_of optimal_utilization;
                 ReserveConfig.loan_to_value_ratio := u8_of ltv;
                 ReserveConfig.liquidation_bonus := u8_of bonus;
                 ReserveConfig.liquidation_threshold := u8_of threshold;
                 ReserveConfig.min_borrow_rate := u8_of min_rate;
                 ReserveConfig.optimal_borrow_rate := u8_of optimal_rate;
                 ReserveConfig.max_borrow_rate := u8_of max_rate;
                 ReserveConfig.fees :=
                   {| ReserveFees.borrow_fee_wad := from_le_bytes borrow_fee;
                      ReserveFees.flash_loan_fee_wad := from_le_bytes flash_fee;
                      ReserveFees.host_fee_percentage := u8_of host_fee |} |} |}
  | _ => Panic
  end.

#[global] Instance Reserve_Pack : Pack Reserve.t := {
  LEN := 571;
  is_initialized := fun r => negb (Reserve.version r =? UNINITIALIZED_VERSION);
  pack_into_slice := Reserve_pack_into_slice;
  unpack_from_slice := Reserve_unpack_from_slice;
}.

(** ** Obligations *)
Definition OBLIGATION_COLLATERAL_LEN : nat := 56.
Definition OBLIGATION_LIQUIDITY_LEN : nat := 80.
Definition OBLIGATION_WIDTHS : list nat := [1; 8; 1; 32; 32; 16; 16; 16; 16; 1; 1; 776]%nat.

Definition COLLATERAL_WIDTHS : list nat := [32; 8; 16]%nat.
Definition LIQUIDITY_WIDTHS : list nat := [32; 16; 16; 16]%nat.

Definition ObligationCollateral_bytes (c : ObligationCollateral.t) : list Z :=
  concat [ObligationCollateral.deposit_reserve c;
         to_le_bytes 8 (ObligationCollateral.deposited_amount c);
         pack_decimal (ObligationCollateral.market_value c)].
Definition ObligationLiquidity_bytes (l : ObligationLiquidity.t) : list Z :=
  concat [ObligationLiquidity.borrow_reserve l;
         pack_decimal (ObligationLiquidity.cumulative_borrow_rate_wads l);
         pack_decimal (ObligationLiquidity.borrowed_amount_wads l);
         pack_decimal (ObligationLiquidity.market_value l)].

Definition ObligationCollateral_of (l : list Z) : option ObligationCollateral.t :=
  match array_refs COLLATERAL_WIDTHS l with
  | [deposit_reserve; deposited_amount; market_value] =>
      Some {| ObligationCollateral.deposit_reserve := deposit_reserve;
              ObligationCollateral.deposited_amount := from_le_bytes deposited_amount;
              ObligationCollateral.market_value := unpack_decimal market_value |}
  | _ => None
  end.
Definition ObligationLiquidity_of (l : list Z) : option ObligationLiquidity.t :=
  match array_refs LIQUIDITY_WIDTHS l with
  | [borrow_reserve; rate; borrowed; market_value] =>
      Some {| ObligationLiquidity.borrow_reserve := borrow_reserve;
              ObligationLiquidity.cumulative_borrow_rate_wads := unpack_decimal rate;
              ObligationLiquidity.borrowed_amount_wads := unpack_decimal borrowed;
              ObligationLiquidity.market_value := unpack_decimal market_value |}
  | _ => None
  end.

(** [n] entries of width [w] one after the other, and what follows; [array_ref!]
    panics beyond the end. *)
Fixpoint unpack_entries {A} (w : nat) (read : list Z -> option A) (n : nat) (l : list Z)
  : program_result (list A * list Z) :=
  match n with
  | O => Ok ([], l)
  | S n =>
      panic_unless (Nat.leb w (length l)) ;;
      x ← unwrap (read (take w l));
      '(xs, rest) ← unpack_entries w read n (drop w l);
      Ok (x :: xs, rest)
  end.

Definition Obligation_data (o : Obligation.t) : list Z :=
  concat (ObligationCollateral_bytes <$> Obligation.deposits o) ++
  concat (ObligationLiquidity_bytes <$> Obligation.borrows o).

Definition Obligation_head (o : Obligation.t) : list (list Z) :=
  [to_le_bytes 1 (Obligation.version o); to_le_bytes 8 (LastUpdate.slot (Obligation.last_update o));
         pack_bool (LastUpdate.stale (Obligation.last_update o)); Obligation.lending_market o;
         Obligation.owner o; pack_decimal (Obligation.deposited_value o);
         pack_decimal (Obligation.borrowed_value o); pack_decimal (Obligation.allowed_borrow_value o);
         pack_decimal (Obligation.unhealthy_borrow_value o);
         to_le_bytes 1 (Z.of_nat (length (Obligation.deposits o)));
         to_le_bytes 1 (Z.of_nat (length (Obligation.borrows o)))].

Definition Obligation_pack_into_slice (o : Obligation.t) (dst : list Z) : list Z :=
  concat (Obligation_head o) ++ Obligation_data o ++ drop (140 + length (Obligation_data o)) dst.

Definition Obligation_packable (o : Obligation.t) : bool :=
  fits (Obligation.deposited_value o) && fits (Obligation.borrowed_value o) &&
  fits (Obligation.allowed_borrow_value o) && fits (Obligation.unhealthy_borrow_value o) &&
  forallb (fun c => fits (ObligationCollateral.market_value c)) (Obligation.deposits o) &&
  forallb (fun l => fits (ObligationLiquidity.cumulative_borrow_rate_wads l) &&
                    fits (ObligationLiquidity.borrowed_amount_wads l) &&
                    fits (ObligationLiquidity.market_value l)) (Obligation.borrows o) &&
  Nat.leb (OBLIGATION_COLLATERAL_LEN * length (Obligation.deposits o) +
           OBLIGATION_LIQUIDITY_LEN * length (Obligation.borrows o)) 776.

Definition Obligation_unpack_from_slice (input : list Z) : program_result Obligation.t :=
  panic_unless (Nat.leb 916 (length input)) ;;
  match array_refs OBLIGATION_WIDTHS input with
  | [version; slot; stale; lending_market; owner; deposited_value; borrowed_value;
     allowed_borrow_value; unhealthy_borrow_value; deposits_len; borrows_len; data_flat] =>
      check_version (u8_of version) ;;
      '(deposits, rest) ← unpack_entries OBLIGATION_COLLATERAL_LEN ObligationCollateral_of
                            (Z.to_nat (u8_of deposits_len)) data_flat;
      '(borrows, _) ← unpack_entries OBLIGATION_LIQUIDITY_LEN ObligationLiquidity_of
                        (Z.to_nat (u8_of borrows_len)) rest;
      stale ← unpack_bool stale;
      Ok {| Obligation.version := u8_of version;
            Obligation.last_update := {| LastUpdate.slot := from_le_bytes slot; LastUpdate.stale := stale |};
            Obligation.lending_market := lending_market; Obligation.owner := owner;
            Obligation.deposits := deposits; Obligation.borrows := borrows;
            Obligation.deposited_value := unpack_decimal deposited_value;
            Obligation.borrowed_value := unpack_decimal borrowed_value;
            Obligation.allowed_borrow_value := unpack_decimal allowed_borrow_value;
            Obligation.unhealthy_borrow_value := unpack_decimal unhealthy_borrow_value |}
  | _ => Panic
  end.

#[global] Instance Obligation_Pack : Pack Obligation.t := {
  LEN := 916;
  is_initialized := fun o => negb (Obligation.version o =? UNINITIALIZED_VERSION);
  pack_into_slice := Obligation_pack_into_slice;
  unpack_from_slice := Obligation_unpack_from_slice;
}.

(** ** Parts of a record *)
Definition part (w : nat) (f : list Z) : Prop := length f = w /\ bytes f.

Section Parts.
Implicit Types (ws : list nat) (fs : list (list Z)) (l : list Z).

Lemma array_refs_join ws fs l :
  Forall2 part ws fs -> array_refs ws (concat fs ++ l) = fs.
Proof.
  induction 1 as [|w f ws fs [Hl _] _ IH]; cbn; [done|].
  rewrite <- app_assoc, take_app_exact, drop_app_exact by done. by rewrite IH.
Qed.

Lemma length_join ws fs : Forall2 part ws fs -> length (concat fs) = sum_list ws.
Proof. induction 1 as [|w f ws fs [Hl _] _ IH]; cbn; [done|]. rewrite length_app. lia. Qed.

Lemma bytes_join ws fs : Forall2 part ws fs -> bytes (concat fs).
Proof. induction 1 as [|w f ws fs [_ Hb] _ IH]; cbn; [constructor|by apply bytes_app]. Qed.

Lemma array_refs_parts ws l :
  bytes l -> (sum_list ws <= length l)%nat -> Forall2 part ws (array_refs ws l).
Proof.
  revert l. induction ws as [|w ws IH]; intros l Hb Hl; constructor.
  - split; [|by apply bytes_take]. cbn in Hl. rewrite length_take. lia.
  - cbn in Hl. apply IH; [by apply bytes_drop|]. rewrite length_drop. lia.
Qed.

Lemma part_key k : wf_key k -> part 32 k.
Proof. done. Qed.
Lemma part_le n z : part n (to_le_bytes n z).
Proof. split; [apply length_to_le_bytes|apply to_le_bytes_bytes]. Qed.
Lemma part_bool b : part 1 (pack_bool b).
Proof. split; [done|]. apply bytes_singleton, is_u8_b2z. Qed.
Lemma part_decimal d : part 16 (pack_decimal d).
Proof. apply part_le. Qed.

Lemma part_range w f : part w f -> 0 <= from_le_bytes f < 256 ^ Z.of_nat w.
Proof. intros [<- Hb]. by apply from_le_bytes_range. Qed.
Lemma part_u8 f : part 1 f -> is_u8 (u8_of f).
Proof. intros Hp%part_range. unfold u8_of. unfold_max. lia. Qed.
Lemma part_u64 f : part 8 f -> is_u64 (from_le_bytes f).
Proof. intros Hp%part_range. unfold_max. lia. Qed.
Lemma part_u128 f : part 16 f -> is_u128 (unpack_decimal f).
Proof. intros Hp%part_range. unfold unpack_decimal. unfold_max. lia. Qed.

Lemma u8_le z : is_u8 z -> u8_of (to_le_bytes 1 z) = z.
Proof. unfold_max. intros. apply from_to_le_bytes. cbn. lia. Qed.
Lemma u128_le z : is_u128 z -> unpack_decimal (pack_decimal z) = z.
Proof. unfold_max. intros. apply from_to_le_bytes. cbn. lia. Qed.
Lemma unpack_pack_bool b : unpack_bool (pack_bool b) = Ok b.
Proof. by destruct b. Qed.
Lemma check_version_Ok v : check_version v = Ok tt <-> v <= 1.
Proof. unfold check_version, fail_if, PROGRAM_VERSION. destruct (Z.ltb_spec 1 v); naive_solver lia. Qed.
End Parts.

Arguments pack_bool : simpl never.
Arguments pack_decimal : simpl never.
Arguments unpack_decimal : simpl never.
Arguments u8_of : simpl never.
Arguments array_refs : simpl never.

#[export] Hint Resolve part_key part_le part_bool part_decimal part_u8 part_u64 part_u128 : rust.
#[export] Hint Rewrite unpack_pack_bool : rust.
#[export] Hint Rewrite u8_le u128_le u64_le_roundtrip using assumption : rust.

(** The parts of a record of well-formed fields. *)
Ltac parts := repeat (apply Forall2_cons_2; [solve [auto with rust]|]); apply Forall2_nil_2; exact I.
(** The parts that a pattern match on [array_refs] names. *)
Ltac name_parts ws l Hb :=
  let H := fresh in
  assert (H : Forall2 part ws (array_refs ws l)) by (apply array_refs_parts; [exact Hb|cbn; lia]);
  revert H; generalize (array_refs ws l); intros ? H; unfold ws in H;
  repeat match goal with
         | H : Forall2 part (_ :: _) _ |- _ =>
             let f := fresh "f" in let fs := fresh "fs" in
             let Hp := fresh "Hp" in let Hf := fresh "Hf" in
             apply Forall2_cons_inv_l in H as (f & fs & Hp & Hf & ->)
         | H : Forall2 part [] _ |- _ => apply Forall2_nil_inv_l in H as ->
         end.

(** ** The contract of a market *)
Record wf_market (m : LendingMarket.t) : Prop := {
  wfm_version : 0 <= LendingMarket.version m <= 1;
  wfm_bump : is_u8 (LendingMarket.bump_seed m);
  wfm_owner : wf_key (LendingMarket.owner m);
  wfm_quote : wf_key (LendingMarket.quote_currency m);
  wfm_token : wf_key (LendingMarket.token_program_id m);
  wfm_oracle : wf_key (LendingMarket.oracle_program_id m);
}.

Lemma market_parts m : wf_market m ->
  Forall2 part LENDING_MARKET_WIDTHS
    [to_le_bytes 1 (LendingMarket.version m); to_le_bytes 1 (LendingMarket.bump_seed m);
     LendingMarket.owner m; LendingMarket.quote_currency m; LendingMarket.token_program_id m;
     LendingMarket.oracle_program_id m].
Proof. intros []. parts. Qed.

Lemma LendingMarket_pack_length m dst :
  length dst = 258%nat -> wf_market m -> length (LendingMarket_pack_into_slice m dst) = 258%nat.
Proof.
  intros Hl Hw. unfold LendingMarket_pack_into_slice.
  rewrite length_app, (length_join _ _ (market_parts m Hw)), length_drop. cbn. lia.
Qed.

Lemma LendingMarket_unpack_pack m dst :
  length dst = 258%nat -> wf_market m ->
  LendingMarket_unpack_from_slice (LendingMarket_pack_into_slice m dst) = Ok m.
Proof.
  intros Hl Hw. unfold LendingMarket_unpack_from_slice.
  rewrite (LendingMarket_pack_length m dst Hl Hw). unfold LendingMarket_pack_into_slice.
  rewrite (array_refs_join _ _ _ (market_parts m Hw)). destruct Hw as [Hv]. cbn.
  rewrite u8_le by (unfold_max; lia). rewrite (proj2 (check_version_Ok _)) by lia.
  rewrite u8_le by done. by destruct m.
Qed.

Lemma LendingMarket_unpack_wf src m :
  length src = 258%nat -> bytes src -> LendingMarket_unpack_from_slice src = Ok m -> wf_market m.
Proof.
  intros Hl Hb. unfold LendingMarket_unpack_from_slice.
  name_parts LENDING_MARKET_WIDTHS src Hb. intros Ho. inv_ok.
  constructor; cbn; auto with rust.
  match goal with H : check_version _ = Ok ?u |- _ => destruct u; apply check_version_Ok in H end.
  pose proof (part_u8 f ltac:(done)). lia.
Qed.

#[global] Instance LendingMarket_PackOk : PackOk LendingMarket.t := {|
  wf_state := wf_market;
  pack_length := LendingMarket_pack_length;
  pack_bytes := fun m dst Hb Hw =>
    bytes_app _ _ (bytes_join _ _ (market_parts m Hw)) (bytes_drop _ _ Hb);
  unpack_pack_slice := LendingMarket_unpack_pack;
  unpack_wf := LendingMarket_unpack_wf;
|}.

(** ** The contract of a reserve *)
Record wf_liquidity (l : ReserveLiquidity.t) : Prop := {
  wfl_mint : wf_key (ReserveLiquidity.mint_pubkey l);
  wfl_decimals : is_u8 (ReserveLiquidity.mint_decimals l);
  wfl_supply : wf_key (ReserveLiquidity.supply_pubkey l);
  wfl_fee : wf_key (ReserveLiquidity.fee_receiver l);
  wfl_oracle : wf_key (ReserveLiquidity.oracle_pubkey l);
  wfl_available : is_u64 (ReserveLiquidity.available_amount l);
  wfl_borrowed : is_u128 (ReserveLiquidity.borrowed_amount_wads l);
  wfl_rate : is_u128 (ReserveLiquidity.cumulative_borrow_rate_wads l);
  wfl_price : is_u128 (ReserveLiquidity.market_price l);
}.
Record wf_config (g : ReserveConfig.t) : Prop := {
  wfg_utilization : is_u8 (ReserveConfig.optimal_utilization_rate g);
  wfg_ltv : is_u8 (ReserveConfig.loan_to_value_ratio g);
  wfg_bonus : is_u8 (ReserveConfig.liquidation_bonus g);
  wfg_threshold : is_u8 (ReserveConfig.liquidation_threshold g);
  wfg_min : is_u8 (ReserveConfig.min_borrow_rate g);
  wfg_optimal : is_u8 (ReserveConfig.optimal_borrow_rate g);
  wfg_max : is_u8 (ReserveConfig.max_borrow_rate g);
  wfg_borrow_fee : is_u64 (ReserveFees.borrow_fee_wad (ReserveConfig.fees g));
  wfg_flash_fee : is_u64 (ReserveFees.flash_loan_fee_wad (ReserveConfig.fees g));
  wfg_host_fee : is_u8 (ReserveFees.host_fee_percentage (ReserveConfig.fees g));
}.
Record wf_collateral (c : ReserveCollateral.t) : Prop := {
  wfc_mint : wf_key (ReserveCollateral.mint_pubkey c);
  wfc_total : is_u64 (ReserveCollateral.mint_total_supply c);
  wfc_supply : wf_key (ReserveCollateral.supply_pubkey c);
}.
Record wf_reserve (r : Reserve.t) : Prop := {
  wfr_version : 0 <= Reserve.version r <= 1;
  wfr_slot : is_u64 (LastUpdate.slot (Reserve.last_update r));
  wfr_market : wf_key (Reserve.lending_market r);
  wfr_liquidity : wf_liquidity (Reserve.liquidity r);
  wfr_collateral : wf_collateral (Reserve.collateral r);
  wfr_config : wf_config (Reserve.config r);
}.

Lemma reserve_parts r : wf_reserve r -> Forall2 part RESERVE_WIDTHS (Reserve_fields r).
Proof. intros [_ _ ? [] [] []]. parts. Qed.

Lemma Reserve_pack_length r dst :
  length dst = 571%nat -> wf_reserve r -> length (Reserve_pack_into_slice r dst) = 571%nat.
Proof.
  intros Hl Hw. unfold Reserve_pack_into_slice.
  rewrite length_app, (length_join _ _ (reserve_parts r Hw)), length_drop. cbn. lia.
Qed.

Lemma Reserve_unpack_pack r dst :
  length dst = 571%nat -> wf_reserve r ->
  Reserve_unpack_from_slice (Reserve_pack_into_slice r dst) = Ok r.
Proof.
  intros Hl Hw. unfold Reserve_unpack_from_slice.
  rewrite (Reserve_pack_length r dst Hl Hw). unfold Reserve_pack_into_slice.
  rewrite (array_refs_join _ _ _ (reserve_parts r Hw)).
  destruct Hw as [Hv ? ? [] [] []], r as [v [] m [] [] [? ? ? ? ? ? ? []]].
  cbn in *.
  rewrite (u8_le v) by (unfold_max; lia). rewrite (proj2 (check_version_Ok _)) by lia.
  cbn. rewrite unpack_pack_bool. cbn. by autorewrite with rust.
Qed.

Lemma Reserve_unpack_wf src r :
  length src = 571%nat -> bytes src -> Reserve_unpack_from_slice src = Ok r -> wf_reserve r.
Proof.
  intros Hl Hb. unfold Reserve_unpack_from_slice.
  name_parts RESERVE_WIDTHS src Hb. intros Ho. inv_ok.
  match goal with H : check_version _ = Ok ?u |- _ => destruct u; apply check_version_Ok in H end.
  constructor; [|cbn; auto with rust|cbn; auto with rust|constructor..]; cbn; auto with rust.
  pose proof (part_u8 f ltac:(done)). lia.
Qed.

#[global] Instance Reserve_PackOk : PackOk Reserve.t := {|
  wf_state := wf_reserve;
  pack_length := Reserve_pack_length;
  pack_bytes := fun r dst Hb Hw =>
    bytes_app _ _ (bytes_join _ _ (reserve_parts r Hw)) (bytes_drop _ _ Hb);
  unpack_pack_slice := Reserve_unpack_pack;
  unpack_wf := Reserve_unpack_wf;
|}.

(** ** Entries of an obligation *)
Lemma array_refs_app ws ws' fs l :
  Forall2 part ws fs -> array_refs (ws ++ ws') (concat fs ++ l) = fs ++ array_refs ws' l.
Proof.
  induction 1 as [|w f ws fs [Hl _] _ IH]; [done|]. cbn [app concat].
  unfold array_refs; fold array_refs.
  rewrite <- app_assoc, take_app_exact, drop_app_exact by done. by rewrite IH.
Qed.

Section Entries.
Context {A : Type} (w : nat) (read : list Z -> option A) (write : A -> list Z) (P : A -> Prop).
Hypothesis write_part : forall x, P x -> part w (write x).
Hypothesis read_write : forall x, P x -> read (write x) = Some x.
Hypothesis read_wf : forall l x, part w l -> read l = Some x -> P x.

Lemma entries_part xs : Forall P xs -> part (w * length xs) (concat (write <$> xs)).
Proof.
  induction 1 as [|x xs Hx _ [Hl Hb]]; [split; [cbn; lia|constructor]|].
  rewrite fmap_cons. cbn [concat length]. destruct (write_part x Hx).
  split; [rewrite length_app; lia|by apply bytes_app].
Qed.

Lemma unpack_entries_join xs rest : Forall P xs ->
  unpack_entries w read (length xs) (concat (write <$> xs) ++ rest) = Ok (xs, rest).
Proof.
  induction 1 as [|x xs Hx _ IH]; [done|]. destruct (write_part x Hx) as [Hl _].
  rewrite fmap_cons. cbn [concat length unpack_entries].
  rewrite <- app_assoc, take_app_exact, drop_app_exact, (read_write x), IH by done.
  rewrite length_app, Hl. by rewrite (proj2 (Nat.leb_le w _)) by lia.
Qed.

Lemma unpack_entries_wf n l xs rest : bytes l -> unpack_entries w read n l = Ok (xs, rest) ->
  Forall P xs /\ length xs = n /\ bytes rest /\ (length l = w * n + length rest)%nat.
Proof.
  revert l xs. induction n as [|n IH]; intros l xs Hb Hu; cbn in Hu; inv_ok.
  - split_and!; auto; cbn; lia.
  - match goal with
    | Hr : (_ <=? _)%nat = true, Hx : read _ = Some _, Hn : unpack_entries _ _ _ _ = Ok _ |- _ =>
        apply Nat.leb_le in Hr; apply IH in Hn as (HF & Hlen & Hbr & Hsum);
          [|by apply bytes_drop]; apply read_wf in Hx
    end; [|split; [rewrite length_take; lia|by apply bytes_take]].
    rewrite length_drop in Hsum.
    split_and!; [by constructor|cbn; lia|done|lia].
Qed.
End Entries.

Record wf_deposit (c : ObligationCollateral.t) : Prop := {
  wfd_reserve : wf_key (ObligationCollateral.deposit_reserve c);
  wfd_amount : is_u64 (ObligationCollateral.deposited_amount c);
  wfd_value : is_u128 (ObligationCollateral.market_value c);
}.
Record wf_borrow (l : ObligationLiquidity.t) : Prop := {
  wfb_reserve : wf_key (ObligationLiquidity.borrow_reserve l);
  wfb_rate : is_u128 (ObligationLiquidity.cumulative_borrow_rate_wads l);
  wfb_amount : is_u128 (ObligationLiquidity.borrowed_amount_wads l);
  wfb_value : is_u128 (ObligationLiquidity.market_value l);
}.

Lemma deposit_parts c : wf_deposit c ->
  Forall2 part COLLATERAL_WIDTHS
    [ObligationCollateral.deposit_reserve c; to_le_bytes 8 (ObligationCollateral.deposited_amount c);
     pack_decimal (ObligationCollateral.market_value c)].
Proof. intros []. parts. Qed.
Lemma borrow_parts l : wf_borrow l ->
  Forall2 part LIQUIDITY_WIDTHS
    [ObligationLiquidity.borrow_reserve l; pack_decimal (ObligationLiquidity.cumulative_borrow_rate_wads l);
     pack_decimal (ObligationLiquidity.borrowed_amount_wads l);
     pack_decimal (ObligationLiquidity.market_value l)].
Proof. intros []. parts. Qed.

Lemma deposit_part c : wf_deposit c -> part OBLIGATION_COLLATERAL_LEN (ObligationCollateral_bytes c).
Proof. intros H%deposit_parts. split; [exact (length_join _ _ H)|exact (bytes_join _ _ H)]. Qed.
Lemma borrow_part l : wf_borrow l -> part OBLIGATION_LIQUIDITY_LEN (ObligationLiquidity_bytes l).
Proof. intros H%borrow_parts. split; [exact (length_join _ _ H)|exact (bytes_join _ _ H)]. Qed.

Lemma array_refs_exact ws fs : Forall2 part ws fs -> array_refs ws (concat fs) = fs.
Proof. intros H. rewrite <- (app_nil_r (concat fs)). by apply array_refs_join. Qed.

Lemma deposit_read c : wf_deposit c ->
  ObligationCollateral_of (ObligationCollateral_bytes c) = Some c.
Proof.
  intros Hw. unfold ObligationCollateral_of, ObligationCollateral_bytes.
  rewrite (array_refs_exact _ _ (deposit_parts c Hw)). destruct Hw, c. cbn in *. by autorewrite with rust.
Qed.
Lemma borrow_read l : wf_borrow l ->
  ObligationLiquidity_of (ObligationLiquidity_bytes l) = Some l.
Proof.
  intros Hw. unfold ObligationLiquidity_of, ObligationLiquidity_bytes.
  rewrite (array_refs_exact _ _ (borrow_parts l Hw)). destruct Hw, l. cbn in *. by autorewrite with rust.
Qed.
Lemma deposit_read_wf f c : part OBLIGATION_COLLATERAL_LEN f ->
  ObligationCollateral_of f = Some c -> wf_deposit c.
Proof.
  intros [Hl Hb]. unfold OBLIGATION_COLLATERAL_LEN in Hl. unfold ObligationCollateral_of.
  name_parts COLLATERAL_WIDTHS f Hb. intros [= <-]. constructor; cbn; auto with rust.
Qed.
Lemma borrow_read_wf f l : part OBLIGATION_LIQUIDITY_LEN f ->
  ObligationLiquidity_of f = Some l -> wf_borrow l.
Proof.
  intros [Hl Hb]. unfold OBLIGATION_LIQUIDITY_LEN in Hl. unfold ObligationLiquidity_of.
  name_parts LIQUIDITY_WIDTHS f Hb. intros [= <-]. constructor; cbn; auto with rust.
Qed.

(** ** The contract of an obligation *)
Record wf_obligation (o : Obligation.t) : Prop := {
  wfo_version : 0 <= Obligation.version o <= 1;
  wfo_slot : is_u64 (LastUpdate.slot (Obligation.last_update o));
  wfo_market : wf_key (Obligation.lending_market o);
  wfo_owner : wf_key (Obligation.owner o);
  wfo_deposits : Forall wf_deposit (Obligation.deposits o);
  wfo_borrows : Forall wf_borrow (Obligation.borrows o);
  wfo_room : (OBLIGATION_COLLATERAL_LEN * length (Obligation.deposits o) +
              OBLIGATION_LIQUIDITY_LEN * length (Obligation.borrows o) <= 776)%nat;
  wfo_deposited : is_u128 (Obligation.deposited_value o);
  wfo_borrowed : is_u128 (Obligation.borrowed_value o);
  wfo_allowed : is_u128 (Obligation.allowed_borrow_value o);
  wfo_unhealthy : is_u128 (Obligation.unhealthy_borrow_value o);
}.

Definition OBLIGATION_HEAD : list nat := [1; 8; 1; 32; 32; 16; 16; 16; 16; 1; 1]%nat.

Lemma obligation_parts o : wf_obligation o -> Forall2 part OBLIGATION_HEAD (Obligation_head o).
Proof. intros []. parts. Qed.

Lemma obligation_data o : wf_obligation o ->
  part (OBLIGATION_COLLATERAL_LEN * length (Obligation.deposits o) +
        OBLIGATION_LIQUIDITY_LEN * length (Obligation.borrows o)) (Obligation_data o).
Proof.
  intros [].
  destruct (entries_part _ _ _ deposit_part (Obligation.deposits o)) as [Hd Hd']; [done|].
  destruct (entries_part _ _ _ borrow_part (Obligation.borrows o)) as [Hb Hb']; [done|].
  split; [unfold Obligation_data; rewrite length_app; lia|by apply bytes_app].
Qed.

Lemma Obligation_pack_length o dst :
  length dst = 916%nat -> wf_obligation o -> length (Obligation_pack_into_slice o dst) = 916%nat.
Proof.
  intros Hl Hw. unfold Obligation_pack_into_slice.
  rewrite !length_app, (length_join _ _ (obligation_parts o Hw)), length_drop.
  destruct (obligation_data o Hw) as [-> _], Hw. change (sum_list OBLIGATION_HEAD) with 140%nat. lia.
Qed.

Lemma Obligation_pack_bytes o dst :
  bytes dst -> wf_obligation o -> bytes (Obligation_pack_into_slice o dst).
Proof.
  intros Hb Hw. apply bytes_app; [exact (bytes_join _ _ (obligation_parts o Hw))|apply bytes_app].
  - apply (obligation_data o Hw).
  - by apply bytes_drop.
Qed.

(** The parts of a packed obligation. *)
Lemma obligation_refs o dst : wf_obligation o ->
  array_refs OBLIGATION_WIDTHS (Obligation_pack_into_slice o dst) =
  Obligation_head o ++
  [Obligation_data o ++ take (776 - length (Obligation_data o)) (drop (140 + length (Obligation_data o)) dst)].
Proof.
  intros Hw. unfold Obligation_pack_into_slice.
  change OBLIGATION_WIDTHS with (OBLIGATION_HEAD ++ [776%nat]).
  rewrite (array_refs_app _ _ _ _ (obligation_parts o Hw)). do 2 f_equal.
  unfold array_refs. rewrite take_app_ge; [done|].
  destruct (obligation_data o Hw) as [-> _], Hw. done.
Qed.

Lemma Obligation_unpack_pack o dst :
  length dst = 916%nat -> wf_obligation o ->
  Obligation_unpack_from_slice (Obligation_pack_into_slice o dst) = Ok o.
Proof.
  intros Hl Hw. unfold Obligation_unpack_from_slice.
  rewrite (Obligation_pack_length o dst Hl Hw), (obligation_refs o dst Hw).
  unfold Obligation_data at 1 2. generalize (take (776 - length (Obligation_data o)) (drop (140 + length (Obligation_data o)) dst)).
  intros rest. destruct Hw as [Hv ? ? ? Hd Hb Hr], o as [v [] ? ? ds bs]. cbn in *.
  rewrite (u8_le v) by (unfold_max; lia). rewrite (proj2 (check_version_Ok _)) by lia. cbn.
  rewrite !u8_le, !Nat2Z.id by (unfold_max; lia). unfold Obligation_data. cbn.
  rewrite <- app_assoc, (unpack_entries_join _ _ _ _ deposit_part deposit_read ds) by done. cbn.
  rewrite (unpack_entries_join _ _ _ _ borrow_part borrow_read bs) by done. cbn.
  rewrite unpack_pack_bool. cbn. by autorewrite with rust.
Qed.

Lemma Obligation_unpack_wf src o :
  length src = 916%nat -> bytes src -> Obligation_unpack_from_slice src = Ok o -> wf_obligation o.
Proof.
  intros Hl Hb. unfold Obligation_unpack_from_slice.
  name_parts OBLIGATION_WIDTHS src Hb. intros Ho. inv_ok.
  match goal with H : check_version _ = Ok ?u |- _ => destruct u; apply check_version_Ok in H end.
  match goal with
  | Hd : unpack_entries _ _ _ ?f = Ok (?ds, ?rest), Hb : unpack_entries _ _ _ ?rest = Ok _,
    Hp : part 776 ?f |- _ =>
      destruct Hp as [Hlen Hby];
      apply (unpack_entries_wf _ _ _ deposit_read_wf) in Hd as (? & ? & Hby' & ?); [|exact Hby];
      apply (unpack_entries_wf _ _ _ borrow_read_wf) in Hb as (? & ? & _ & ?); [|exact Hby']
  end.
  unfold OBLIGATION_COLLATERAL_LEN, OBLIGATION_LIQUIDITY_LEN in *.
  constructor; cbn -[Nat.mul]; auto with rust; [|unfold OBLIGATION_COLLATERAL_LEN, OBLIGATION_LIQUIDITY_LEN; lia].
  pose proof (part_u8 f ltac:(done)). lia.
Qed.

#[global] Instance Obligation_PackOk : PackOk Obligation.t := {|
  wf_state := wf_obligation;
  pack_length := Obligation_pack_length;
  pack_bytes := Obligation_pack_bytes;
  unpack_pack_slice := Obligation_unpack_pack;
  unpack_wf := Obligation_unpack_wf;
|}.

Lemma pack_state_Ok {T} `{PackOk T} packable (x : T) dst d :
  pack_state packable x dst = Ok d <->
  length dst = LEN T /\ packable x = true /\ d = pack_into_slice x dst.
Proof.
  unfold pack_state. split.
  - intros Hp. inv_ok. match goal with H : pack _ _ = Ok _ |- _ => apply pack_Ok in H as [? ->] end. auto.
  - intros (Hl & Hp & ->). rewrite (proj2 (pack_Ok x dst _)) by eauto. cbn. by rewrite Hp.
Qed.
