(* ===== verification/LendingInstructions.v ===== *)
(** * Token lending: instructions

    Models [LendingInstruction] of
    [src/solana-program-library/token-lending/program/src/instruction.rs], its
    [unpack] and [pack], and shows that they are inverse to each other. *)

From stdpp Require Import base list.
From Stdlib Require Import ZArith Lia.
From S2P Require Import Prelude Sdk TokenState LendingMath LendingState LendingPack.

Module LendingInstruction.
Inductive t : Type :=
| InitLendingMarket (owner : Pubkey) (quote_currency : list Z)
| SetLendingMarketOwner (new_owner : Pubkey)
| InitReserve (liquidity_amount : Z) (config : ReserveConfig.t)
| RefreshReserve
| DepositReserveLiquidity (liquidity_amount : Z)
| RedeemReserveCollateral (collateral_amount : Z)
| InitObligation
| RefreshObligation
| DepositObligationCollateral (collateral_amount : Z)
| WithdrawObligationCollateral (collateral_amount : Z)
| BorrowObligationLiquidity (liquidity_amount : Z)
| RepayObligationLiquidity (liquidity_amount : Z)
| LiquidateObligation (liquidity_amount : Z)
| FlashLoan (amount : Z).

Definition malformed : ProgramError := lerr LendingError.InstructionUnpackError.

(** The first [n] bytes, and the rest. *)
Definition split (n : nat) (input : list Z) : program_result (list Z * list Z) :=
  fail_if (Nat.ltb (length input) n) malformed ;; Ok (take n input, drop n input).
Definition unpack_u64 (input : list Z) : program_result (Z * list Z) :=
  '(b, rest) ← split 8 input; Ok (from_le_bytes b, rest).
Definition unpack_u8 (input : list Z) : program_result (Z * list Z) :=
  '(b, rest) ← split 1 input; Ok (from_le_bytes b, rest).
Definition unpack_bytes32 (input : list Z) : program_result (list Z * list Z) := split 32 input.
Definition unpack_pubkey (input : list Z) : program_result (Pubkey * list Z) := split 32 input.

Definition unpack_config (rest : list Z) : program_result (ReserveConfig.t * list Z) :=
  '(optimal_utilization_rate, rest) ← unpack_u8 rest;
  '(loan_to_value_ratio, rest) ← unpack_u8 rest;
  '(liquidation_bonus, rest) ← unpack_u8 rest;
  '(liquidation_threshold, rest) ← unpack_u8 rest;
  '(min_borrow_rate, rest) ← unpack_u8 rest;
  '(optimal_borrow_rate, rest) ← unpack_u8 rest;
  '(max_borrow_rate, rest) ← unpack_u8 rest;
  '(borrow_fee_wad, rest) ← unpack_u64 rest;
  '(flash_loan_fee_wad, rest) ← unpack_u64 rest;
  '(host_fee_percentage, rest) ← unpack_u8 rest;
  Ok ({| ReserveConfig.optimal_utilization_rate := optimal_utilization_rate;
         ReserveConfig.loan_to_value_ratio := loan_to_value_ratio;
         ReserveConfig.liquidation_bonus := liquidation_bonus;
         ReserveConfig.liquidation_threshold := liquidation_threshold;
         ReserveConfig.min_borrow_rate := min_borrow_rate;
         ReserveConfig.optimal_borrow_rate := optimal_borrow_rate;
         ReserveConfig.max_borrow_rate := max_borrow_rate;
         ReserveConfig.fees :=
           {| ReserveFees.borrow_fee_wad := borrow_fee_wad;
              ReserveFees.flash_loan_fee_wad := flash_loan_fee_wad;
              ReserveFees.host_fee_percentage := host_fee_percentage |} |}, rest).

Definition with_amount (f : Z -> t) (rest : list Z) : program_result t :=
  '(amount, _) ← unpack_u64 rest; Ok (f amount).

(** Bytes after the arguments are ignored. *)
Definition unpack (input : list Z) : program_result t :=
  '(tag, rest) ← ok_or (match input with [] => None | tag :: rest => Some (tag, rest) end) malformed;
  match tag with
  | 0 => '(owner, rest) ← unpack_pubkey rest;
         '(quote_currency, _) ← unpack_bytes32 rest; Ok (InitLendingMarket owner quote_currency)
  | 1 => '(new_owner, _) ← unpack_pubkey rest; Ok (SetLendingMarketOwner new_owner)
  | 2 => '(liquidity_amount, rest) ← unpack_u64 rest;
         '(config, _) ← unpack_config rest; Ok (InitReserve liquidity_amount config)
  | 3 => Ok RefreshReserve
  | 4 => with_amount DepositReserveLiquidity rest
  | 5 => with_amount RedeemReserveCollateral rest
  | 6 => Ok InitObligation
  | 7 => Ok RefreshObligation
  | 8 => with_amount DepositObligationCollateral rest
  | 9 => with_amount WithdrawObligationCollateral rest
  | 10 => with_amount BorrowObligationLiquidity rest
  | 11 => with_amount RepayObligationLiquidity rest
  | 12 => with_amount LiquidateObligation rest
  | 13 => with_amount FlashLoan rest
  | _ => Err malformed
  end.

Definition config_bytes (g : ReserveConfig.t) : list Z :=
  let f := ReserveConfig.fees g in
  to_le_bytes 1 (ReserveConfig.optimal_utilization_rate g) ++
  to_le_bytes 1 (ReserveConfig.loan_to_value_ratio g) ++
  to_le_bytes 1 (ReserveConfig.liquidation_bonus g) ++
  to_le_bytes 1 (ReserveConfig.liquidation_threshold g) ++
  to_le_bytes 1 (ReserveConfig.min_borrow_rate g) ++
  to_le_bytes 1 (ReserveConfig.optimal_borrow_rate g) ++
  to_le_bytes 1 (ReserveConfig.max_borrow_rate g) ++
  to_le_bytes 8 (ReserveFees.borrow_fee_wad f) ++ to_le_bytes 8 (ReserveFees.flash_loan_fee_wad f) ++
  to_le_bytes 1 (ReserveFees.host_fee_percentage f).

Definition pack (self : t) : list Z :=
  match self with
  | InitLendingMarket owner quote_currency => 0 :: owner ++ quote_currency
  | SetLendingMarketOwner new_owner => 1 :: new_owner
  | InitReserve liquidity_amount config => 2 :: to_le_bytes 8 liquidity_amount ++ config_bytes config
  | RefreshReserve => [3]
  | DepositReserveLiquidity n => 4 :: to_le_bytes 8 n
  | RedeemReserveCollateral n => 5 :: to_le_bytes 8 n
  | InitObligation => [6]
  | RefreshObligation => [7]
  | DepositObligationCollateral n => 8 :: to_le_bytes 8 n
  | WithdrawObligationCollateral n => 9 :: to_le_bytes 8 n
  | BorrowObligationLiquidity n => 10 :: to_le_bytes 8 n
  | RepayObligationLiquidity n => 11 :: to_le_bytes 8 n
  | LiquidateObligation n => 12 :: to_le_bytes 8 n
  | FlashLoan n => 13 :: to_le_bytes 8 n
  end.

(** Arguments of the widths the format has. *)
Definition wf (i : t) : Prop :=
  match i with
  | InitLendingMarket owner quote_currency => wf_key owner /\ wf_key quote_currency
  | SetLendingMarketOwner new_owner => wf_key new_owner
  | InitReserve n config => is_u64 n /\ wf_config config
  | RefreshReserve | InitObligation | RefreshObligation => True
  | DepositReserveLiquidity n | RedeemReserveCollateral n | DepositObligationCollateral n
  | WithdrawObligationCollateral n | BorrowObligationLiquidity n | RepayObligationLiquidity n
  | LiquidateObligation n | FlashLoan n => is_u64 n
  end.

Lemma split_part n f rest : part n f -> split n (f ++ rest) = Ok (f, rest).
Proof.
  intros [Hl _]. unfold split. rewrite length_app, take_app_exact, drop_app_exact by done.
  by rewrite (proj2 (Nat.ltb_ge _ n)) by lia.
Qed.

Lemma unpack_u64_part n rest : is_u64 n -> unpack_u64 (to_le_bytes 8 n ++ rest) = Ok (n, rest).
Proof.
  intros Hn. unfold unpack_u64. rewrite (split_part 8) by auto with rust. cbn.
  by rewrite u64_le_roundtrip.
Qed.
Lemma unpack_u8_part n rest : is_u8 n -> unpack_u8 (to_le_bytes 1 n ++ rest) = Ok (n, rest).
Proof.
  intros Hn. unfold unpack_u8. rewrite (split_part 1) by auto with rust. cbn.
  pose proof (u8_le n Hn) as E. unfold u8_of in E. by rewrite E.
Qed.
Lemma with_amount_part f n rest : is_u64 n -> with_amount f (to_le_bytes 8 n ++ rest) = Ok (f n).
Proof. intros Hn. unfold with_amount. by rewrite unpack_u64_part. Qed.

Lemma unpack_config_part g rest : wf_config g -> unpack_config (config_bytes g ++ rest) = Ok (g, rest).
Proof.
  intros []. unfold unpack_config, config_bytes. rewrite <- !app_assoc.
  do 7 (rewrite unpack_u8_part by done; cbn [mbind result_bind]).
  do 2 (rewrite unpack_u64_part by done; cbn [mbind result_bind]).
  rewrite unpack_u8_part by done. by destruct g as [? ? ? ? ? ? ? []].
Qed.

(** An instruction packed by a client is unpacked to itself, whatever bytes
    follow it. *)
Theorem lending_instruction_roundtrip i rest : wf i -> unpack (pack i ++ rest) = Ok i.
Proof.
  destruct i; cbn; intros Hw; try done; try by apply with_amount_part.
  - destruct Hw as [Ho Hq]. rewrite <- app_assoc. unfold unpack_pubkey, unpack_bytes32.
    rewrite split_part by done. cbn. by rewrite split_part by done.
  - unfold unpack_pubkey. by rewrite split_part by done.
  - destruct Hw as [Hn Hg]. rewrite <- app_assoc, unpack_u64_part by done. cbn.
    by rewrite unpack_config_part.
Qed.
End LendingInstruction.
