(* ===== verification/LendingOracle.v ===== *)
(** * Token lending: the price oracle

    Models [src/solana-program-library/token-lending/program/src/pyth.rs], the
    accounts of the oracle program as they lie in memory, and the readers of
    [processor.rs]: the quote currency among the attributes of a product and the
    price.  Enumerations of the oracle are compared by their numbers; the buffers
    of the runtime are aligned as the structures need. *)

From stdpp Require Import base gmap list fin_maps strings.
From Stdlib Require Import ZArith Lia.
From S2P Require Import Prelude Sdk LendingMath.

Module Pyth.
Definition MAGIC : Z := 2712847316.
Definition VERSION_2 : Z := 2.
Definition PROD_ATTR_SIZE : Z := 464.
Definition AccountType_Product : Z := 2.
Definition PriceStatus_Trading : Z := 1.
Definition PriceType_Price : Z := 1.

Record Product := { magic : Z; ver : Z; atype : Z; px_acc : list Z; attr : list Z }.
Record Price := { ptype : Z; expo : Z; valid_slot : Z; agg_price : Z; agg_status : Z }.

(** The unsigned integer of [n] bytes at an offset. *)
Definition at_offset (data : list Z) (offset n : nat) : Z := from_le_bytes (take n (drop offset data)).
(** The same bits as a signed integer. *)
Definition to_signed (bits : Z) (z : Z) : Z := if z <? 2 ^ (bits - 1) then z else z - 2 ^ bits.

(** [load]: slicing panics if the account is too small. *)
Definition load_product (data : list Z) : program_result Product :=
  panic_unless (Nat.leb 512 (length data)) ;;
  Ok {| magic := at_offset data 0 4; ver := at_offset data 4 4; atype := at_offset data 8 4;
        px_acc := take 32 (drop 16 data); attr := take 464 (drop 48 data) |}.
Definition load_price (data : list Z) : program_result Price :=
  panic_unless (Nat.leb 3312 (length data)) ;;
  Ok {| ptype := at_offset data 16 4; expo := to_signed 32 (at_offset data 20 4);
        valid_slot := at_offset data 40 8; agg_price := to_signed 64 (at_offset data 208 8);
        agg_status := at_offset data 224 4 |}.
End Pyth.

Definition bad_oracle : ProgramError := lerr LendingError.InvalidOracleConfig.

(** [b"quote_currency"] *)
Definition QUOTE_CURRENCY : list Z :=
  [113; 117; 111; 116; 101; 95; 99; 117; 114; 114; 101; 110; 99; 121].

(** The part of a slice from [start] to [stop]; indexing panics out of range. *)
Definition slice (l : list Z) (start stop : Z) : list Z :=
  take (Z.to_nat (stop - start)) (drop (Z.to_nat start) l).
Definition index (l : list Z) (i : Z) : program_result Z := unwrap (l !! Z.to_nat i).

(** The value that starts at [start], padded to 32 bytes. *)
Definition quote_value (attr : list Z) (start : Z) : program_result (list Z) :=
  length ← index attr start;
  let start := start + 1 in
  let stop := start + length in
  fail_if ((32 <? length) || (Pyth.PROD_ATTR_SIZE <? stop)) bad_oracle ;;
  Ok (slice attr start stop ++ replicate (32 - Z.to_nat length) 0).

(** The loop over the attributes, each a key and a value with their lengths
    before them; an attribute takes at least two bytes. *)
Fixpoint find_quote (fuel : nat) (attr : list Z) (start : Z) : program_result (list Z) :=
  match fuel with
  | O => Panic
  | S fuel =>
      if start <? Pyth.PROD_ATTR_SIZE then
        length ← index attr start;
        let start := start + 1 in
        fail_if ((length =? 14) && (Pyth.PROD_ATTR_SIZE <? start + length)) bad_oracle ;;
        if (length =? 14) && bool_decide (slice attr start (start + length) = QUOTE_CURRENCY)
        then quote_value attr (start + length)
        else
          let start := start + length in
          value ← index attr start;
          find_quote fuel attr (start + (1 + value))
      else Err bad_oracle
  end.

Definition get_pyth_product_quote_currency (p : Pyth.Product) : program_result (list Z) :=
  find_quote 465 (Pyth.attr p) 0.

Section Fuel.
Context (attr : list Z) (Hb : bytes attr).

Lemma index_byte i b : index attr i = Ok b -> 0 <= b < 256.
Proof.
  unfold index. intros H. inv_ok. exact (proj1 (Forall_lookup _ _) Hb _ _ H).
Qed.

(** The fuel is enough: more of it changes nothing. *)
Lemma find_quote_fuel fuel fuel' start :
  0 <= start -> Z.max 0 (Pyth.PROD_ATTR_SIZE - start) < Z.of_nat fuel -> (fuel <= fuel')%nat ->
  find_quote fuel' attr start = find_quote fuel attr start.
Proof.
  revert fuel' start. induction fuel as [|fuel IH]; intros [|fuel'] start Hs Hf Hle; try lia. cbn.
  destruct (Z.ltb_spec start Pyth.PROD_ATTR_SIZE) as [Hlt|_]; [|done].
  destruct (index attr start) as [n| |] eqn:En; [|done..]. cbn.
  apply index_byte in En. destruct (_ && _); [done|]. cbn. destruct (_ && _); [done|].
  destruct (index attr (start + 1 + n)) as [v| |] eqn:Ev; [|done..]. cbn.
  apply index_byte in Ev. apply IH; lia.
Qed.
End Fuel.

(** ** Prices *)
Definition ORACLE_STALE_AFTER_SLOTS_ELAPSED : Z := 5.

Definition get_pyth_price (data : list Z) (slot : Z) : program_result Decimal :=
  p ← Pyth.load_price data;
  fail_if (negb (Pyth.ptype p =? Pyth.PriceType_Price)) bad_oracle ;;
  fail_if (negb (Pyth.agg_status p =? Pyth.PriceStatus_Trading)) bad_oracle ;;
  slots_elapsed ← ok_or (checked_sub slot (Pyth.valid_slot p)) overflow;
  fail_if (ORACLE_STALE_AFTER_SLOTS_ELAPSED <=? slots_elapsed) bad_oracle ;;
  fail_if (Pyth.agg_price p <? 0) bad_oracle ;;
  let price := Pyth.agg_price p in
  if 0 <=? Pyth.expo p then
    zeros ← ok_or (checked_pow10 (Pyth.expo p)) overflow;
    Decimal.try_mul_u64 (Decimal.from price) zeros
  else
    fail_if (Pyth.expo p =? - 2 ^ 31) overflow ;;
    decimals ← ok_or (checked_pow10 (- Pyth.expo p)) overflow;
    Decimal.try_div_u64 (Decimal.from price) decimals.
