(* ===== verification/LendingProcessor.v ===== *)
(** * Token lending: the instruction processor

    Models [src/solana-program-library/token-lending/program/src/processor.rs]:
    every handler as a state transformer on the account store, with the order of
    its guards, and the dispatcher.  Tokens are moved by invocations of the token
    program ([TokenClient.call_token]), signed where the code says so with the
    address the market derives.  The program that receives a flash loan is a
    parameter. *)

From stdpp Require Import base gmap list fin_maps strings.
From Stdlib Require Import ZArith Lia.
From S2P Require Import Prelude Sdk Runtime KeyedAccount Message SystemProgram.
From S2P Require Import TokenState TokenInstruction TokenProcessor ProgramAddress TokenClient.
From S2P Require Import LendingMath LendingState LendingPack LendingInstructions LendingOracle.

(** [impl From<PubkeyError> for ProgramError] *)
Definition ProgramError_from_pubkey (e : PubkeyError.t) : ProgramError :=
  match e with
  | PubkeyError.MaxSeedLengthExceeded => MaxSeedLengthExceeded
  | PubkeyError.InvalidSeeds => InvalidSeeds
  | PubkeyError.IllegalOwner => IllegalOwner
  end.

(** [if a != b { return Err(e) }] and [if a == b { return Err(e) }] on keys *)
Definition require_eq (a b : Pubkey) (e : LendingError.t) : program_result unit :=
  fail_if (negb (bool_decide (a = b))) (lerr e).
Definition require_ne (a b : Pubkey) (e : LendingError.t) : program_result unit :=
  fail_if (bool_decide (a = b)) (lerr e).
Definition require_signer (i : AccountInfo) : program_result unit :=
  fail_if (negb (is_signer i)) (lerr LendingError.InvalidSigner).

Section Processor.
Context (hashv : list (list Z) -> Hash).
Context (bytes_are_curve_point : Hash -> bool).
Context (deserialize_rent : list Z -> option Rent) (rent_get : program_result Rent).
Context (deserialize_clock : list Z -> option Clock).
Context (rent : Rent) (realloc : bool).
(** The program that receives a flash loan, with all it calls. *)
Context (invoke_receiver : Instruction -> list AccountInfo -> store -> program_result store).
Context (lending_program_id : Pubkey).

Definition clock_from_account_info (st : store) (i : AccountInfo) : program_result Clock :=
  if negb (bool_decide (key i = clock_sysvar_id)) then Err InvalidArgument
  else ok_or (deserialize_clock (data (acct st (key i)))) InvalidArgument.

(** The accounts that [Clock::from_account_info(next_account_info(iter)?)?] reads. *)
Definition next_clock (st : store) (it : list AccountInfo) : program_result (Clock * list AccountInfo) :=
  '(i, it) ← next_account_info it;
  clock ← clock_from_account_info st i;
  Ok (clock, it).

(** ** Loading and storing *)
Definition store_state {T} `{Pack T} (packable : T -> bool) (x : T) (i : AccountInfo) (st : store)
  : program_result store :=
  d ← pack_state packable x (data (acct st (key i)));
  Ok (set_data st (key i) d).
Definition store_market (m : LendingMarket.t) (i : AccountInfo) (st : store) : program_result store :=
  store_state (fun _ => true) m i st.
Definition store_reserve (r : Reserve.t) (i : AccountInfo) (st : store) : program_result store :=
  store_state Reserve_packable r i st.
Definition store_obligation (o : Obligation.t) (i : AccountInfo) (st : store) : program_result store :=
  store_state Obligation_packable o i st.

Definition check_owned (i : AccountInfo) (st : store) : program_result unit :=
  require_eq (owner (acct st (key i))) lending_program_id LendingError.InvalidAccountOwner.

Definition assert_rent_exempt (r : Rent) (i : AccountInfo) (st : store) : program_result unit :=
  fail_if (negb (is_exempt r (lamports (acct st (key i))) (data_len st i)))
    (lerr LendingError.NotRentExempt).

Definition assert_uninitialized {T} `{Pack T} (i : AccountInfo) (st : store) : program_result T :=
  account ← load_unchecked st i;
  fail_if (is_initialized account) (lerr LendingError.AlreadyInitialized) ;;
  Ok account.

Definition load_market (i token_program : AccountInfo) (st : store) : program_result LendingMarket.t :=
  m ← load st i;
  check_owned i st ;;
  require_eq (LendingMarket.token_program_id m) (key token_program) LendingError.InvalidTokenProgram ;;
  Ok m.

Definition load_reserve (i market : AccountInfo) (st : store) : program_result Reserve.t :=
  r ← load st i;
  check_owned i st ;;
  require_eq (Reserve.lending_market r) (key market) LendingError.InvalidAccountInput ;;
  Ok r.

Definition load_obligation (i market : AccountInfo) (st : store) : program_result Obligation.t :=
  o ← load st i;
  check_owned i st ;;
  require_eq (Obligation.lending_market o) (key market) LendingError.InvalidAccountInput ;;
  Ok o.

Definition check_owner (o : Obligation.t) (i : AccountInfo) : program_result unit :=
  require_eq (Obligation.owner o) (key i) LendingError.InvalidObligationOwner ;;
  require_signer i.

Definition check_fresh (u : LastUpdate.t) (slot : Z) (e : LendingError.t) : program_result unit :=
  stale ← LastUpdate.is_stale u slot;
  fail_if stale (lerr e).

Definition authority_signer_seeds (market : AccountInfo) (m : LendingMarket.t) : list (list Z) :=
  [key market; [LendingMarket.bump_seed m]].

Definition check_authority (market : AccountInfo) (m : LendingMarket.t) (authority : AccountInfo)
  : program_result unit :=
  k ← map_err ProgramError_from_pubkey
        (create_program_address hashv bytes_are_curve_point (authority_signer_seeds market m)
           lending_program_id);
  require_eq k (key authority) LendingError.InvalidMarketAuthority.

(** ** Calls of the token program *)

(** [invoke] is [invoke_signed] without seeds. *)
Definition invoke_optionally_signed (ix : Instruction) (infos : list AccountInfo)
    (seeds : list (list Z)) (st : store) : instruction_result store :=
  call_token hashv bytes_are_curve_point deserialize_rent rent_get rent realloc lending_program_id
    ix infos (if bool_decide (seeds = []) then [] else [seeds]) st.

(** A call whose failure is reported as [e]; an instruction that cannot be made
    is reported as it is. *)
Definition spl_token_call (ix : program_result Instruction) (infos : list AccountInfo)
    (seeds : list (list Z)) (e : LendingError.t) (st : store) : program_result store :=
  ix ← ix;
  map_err (fun _ => lerr e) (invoke_optionally_signed ix infos seeds st).

Definition spl_token_init_account (account mint own rent_info token_program : AccountInfo) (st : store)
  : program_result store :=
  spl_token_call (initialize_account (key token_program) (key account) (key mint) (key own))
    [account; mint; own; rent_info; token_program] [] LendingError.TokenInitializeAccountFailed st.
Definition spl_token_init_mint (mint rent_info : AccountInfo) (authority : Pubkey) (decimals : Z)
    (token_program : AccountInfo) (st : store) : program_result store :=
  spl_token_call (initialize_mint (key token_program) (key mint) authority None decimals)
    [mint; rent_info; token_program] [] LendingError.TokenInitializeMintFailed st.
Definition spl_token_transfer (source destination : AccountInfo) (amount : Z) (authority : AccountInfo)
    (seeds : list (list Z)) (token_program : AccountInfo) (st : store) : program_result store :=
  spl_token_call
    (transfer (key token_program) (key source) (key destination) (key authority) [] amount)
    [source; destination; authority; token_program] seeds LendingError.TokenTransferFailed st.
Definition spl_token_mint_to (mint destination : AccountInfo) (amount : Z) (authority : AccountInfo)
    (seeds : list (list Z)) (token_program : AccountInfo) (st : store) : program_result store :=
  spl_token_call
    (mint_to (key token_program) (key mint) (key destination) (key authority) [] amount)
    [mint; destination; authority; token_program] seeds LendingError.TokenMintToFailed st.
Definition spl_token_burn (mint source : AccountInfo) (amount : Z) (authority : AccountInfo)
    (seeds : list (list Z)) (token_program : AccountInfo) (st : store) : program_result store :=
  spl_token_call
    (burn (key token_program) (key source) (key mint) (key authority) [] amount)
    [source; mint; authority; token_program] seeds LendingError.TokenBurnFailed st.

(** ** Markets *)
Definition process_init_lending_market (owner : Pubkey) (quote_currency : list Z)
    (accounts : list AccountInfo) (st : store) : program_result store :=
  '(lending_market_info, it) ← next_account_info accounts;
  '(rent_info, it) ← next_account_info it;
  r ← rent_from_account_info deserialize_rent st rent_info;
  '(token_program_id, it) ← next_account_info it;
  '(oracle_program_id, _) ← next_account_info it;
  assert_rent_exempt r lending_market_info st ;;
  _ ← assert_uninitialized (T := LendingMarket.t) lending_market_info st;
  check_owned lending_market_info st ;;
  '(_, bump_seed) ←
    find_program_address hashv bytes_are_curve_point [key lending_market_info] lending_program_id;
  store_market
    (LendingMarket.init bump_seed owner quote_currency (key token_program_id) (key oracle_program_id))
    lending_market_info st.

Definition process_set_lending_market_owner (new_owner : Pubkey) (accounts : list AccountInfo)
    (st : store) : program_result store :=
  '(lending_market_info, it) ← next_account_info accounts;
  '(lending_market_owner_info, _) ← next_account_info it;
  lending_market ← load (T := LendingMarket.t) st lending_market_info;
  check_owned lending_market_info st ;;
  require_eq (LendingMarket.owner lending_market) (key lending_market_owner_info)
    LendingError.InvalidMarketOwner ;;
  require_signer lending_market_owner_info ;;
  store_market (LendingMarket.with_owner lending_market new_owner) lending_market_info st.

(** ** Reserves *)
Definition check_config (config : ReserveConfig.t) : program_result unit :=
  let invalid b := fail_if b (lerr LendingError.InvalidConfig) in
  invalid (100 <? ReserveConfig.optimal_utilization_rate config) ;;
  invalid (100 <=? ReserveConfig.loan_to_value_ratio config) ;;
  invalid (100 <? ReserveConfig.liquidation_bonus config) ;;
  invalid ((ReserveConfig.liquidation_threshold config <=? ReserveConfig.loan_to_value_ratio config) ||
           (100 <? ReserveConfig.liquidation_threshold config)) ;;
  invalid (ReserveConfig.optimal_borrow_rate config <? ReserveConfig.min_borrow_rate config) ;;
  invalid (ReserveConfig.max_borrow_rate config <? ReserveConfig.optimal_borrow_rate config) ;;
  invalid (WAD <=? ReserveFees.borrow_fee_wad (ReserveConfig.fees config)) ;;
  invalid (WAD <=? ReserveFees.flash_loan_fee_wad (ReserveConfig.fees config)) ;;
  invalid (100 <? ReserveFees.host_fee_percentage (ReserveConfig.fees config)).

(** The product and the price account of the oracle, and the price. *)
Definition check_oracle (lending_market : LendingMarket.t) (pyth_product_info pyth_price_info : AccountInfo)
    (slot : Z) (st : store) : program_result Decimal :=
  let oracle := LendingMarket.oracle_program_id lending_market in
  require_eq oracle (owner (acct st (key pyth_product_info))) LendingError.InvalidOracleConfig ;;
  require_eq oracle (owner (acct st (key pyth_price_info))) LendingError.InvalidOracleConfig ;;
  pyth_product ← Pyth.load_product (data (acct st (key pyth_product_info)));
  fail_if (negb (Pyth.magic pyth_product =? Pyth.MAGIC)) bad_oracle ;;
  fail_if (negb (Pyth.ver pyth_product =? Pyth.VERSION_2)) bad_oracle ;;
  fail_if (negb (Pyth.atype pyth_product =? Pyth.AccountType_Product)) bad_oracle ;;
  require_eq (Pyth.px_acc pyth_product) (key pyth_price_info) LendingError.InvalidOracleConfig ;;
  quote_currency ← get_pyth_product_quote_currency pyth_product;
  require_eq (LendingMarket.quote_currency lending_market) quote_currency
    LendingError.InvalidOracleConfig ;;
  get_pyth_price (data (acct st (key pyth_price_info))) slot.

Definition process_init_reserve (liquidity_amount : Z) (config : ReserveConfig.t)
    (accounts : list AccountInfo) (st : store) : program_result store :=
  fail_if (liquidity_amount =? 0) (lerr LendingError.InvalidAmount) ;;
  check_config config ;;
  '(source_liquidity_info, it) ← next_account_info accounts;
  '(destination_collateral_info, it) ← next_account_info it;
  '(reserve_info, it) ← next_account_info it;
  '(reserve_liquidity_mint_info, it) ← next_account_info it;
  '(reserve_liquidity_supply_info, it) ← next_account_info it;
  '(reserve_liquidity_fee_receiver_info, it) ← next_account_info it;
  '(reserve_collateral_mint_info, it) ← next_account_info it;
  '(reserve_collateral_supply_info, it) ← next_account_info it;
  '(pyth_product_info, it) ← next_account_info it;
  '(pyth_price_info, it) ← next_account_info it;
  '(lending_market_info, it) ← next_account_info it;
  '(lending_market_authority_info, it) ← next_account_info it;
  '(lending_market_owner_info, it) ← next_account_info it;
  '(user_transfer_authority_info, it) ← next_account_info it;
  '(clock, it) ← next_clock st it;
  '(rent_info, it) ← next_account_info it;
  r ← rent_from_account_info deserialize_rent st rent_info;
  '(token_program_id, _) ← next_account_info it;
  assert_rent_exempt r reserve_info st ;;
  _ ← assert_uninitialized (T := Reserve.t) reserve_info st;
  check_owned reserve_info st ;;
  require_ne (key reserve_liquidity_supply_info) (key source_liquidity_info)
    LendingError.InvalidAccountInput ;;
  lending_market ← load_market lending_market_info token_program_id st;
  require_eq (LendingMarket.owner lending_market) (key lending_market_owner_info)
    LendingError.InvalidMarketOwner ;;
  require_signer lending_market_owner_info ;;
  market_price ← check_oracle lending_market pyth_product_info pyth_price_info (clock_slot clock) st;
  check_authority lending_market_info lending_market lending_market_authority_info ;;
  mint ← map_err (fun _ => lerr LendingError.InvalidTokenMint)
           (load (T := Mint) st reserve_liquidity_mint_info);
  require_eq (owner (acct st (key reserve_liquidity_mint_info))) (key token_program_id)
    LendingError.InvalidTokenOwner ;;
  let reserve :=
    Reserve.init (clock_slot clock) (key lending_market_info)
      (ReserveLiquidity.new (key reserve_liquidity_mint_info) (decimals mint)
         (key reserve_liquidity_supply_info) (key reserve_liquidity_fee_receiver_info)
         (key pyth_price_info) market_price)
      (ReserveCollateral.new (key reserve_collateral_mint_info) (key reserve_collateral_supply_info))
      config in
  '(collateral_amount, reserve) ← Reserve.deposit_liquidity reserve liquidity_amount;
  st ← store_reserve reserve reserve_info st;
  st ← spl_token_init_account reserve_liquidity_supply_info reserve_liquidity_mint_info
         lending_market_authority_info rent_info token_program_id st;
  st ← spl_token_init_account reserve_liquidity_fee_receiver_info reserve_liquidity_mint_info
         lending_market_authority_info rent_info token_program_id st;
  st ← spl_token_init_mint reserve_collateral_mint_info rent_info (key lending_market_authority_info)
         (decimals mint) token_program_id st;
  st ← spl_token_init_account reserve_collateral_supply_info reserve_collateral_mint_info
         lending_market_authority_info rent_info token_program_id st;
  st ← spl_token_init_account destination_collateral_info reserve_collateral_mint_info
         user_transfer_authority_info rent_info token_program_id st;
  st ← spl_token_transfer source_liquidity_info reserve_liquidity_supply_info liquidity_amount
         user_transfer_authority_info [] token_program_id st;
  spl_token_mint_to reserve_collateral_mint_info destination_collateral_info collateral_amount
    lending_market_authority_info (authority_signer_seeds lending_market_info lending_market)
    token_program_id st.

Definition process_refresh_reserve (accounts : list AccountInfo) (st : store) : program_result store :=
  '(reserve_info, it) ← next_account_info accounts;
  '(reserve_liquidity_oracle_info, it) ← next_account_info it;
  '(clock, _) ← next_clock st it;
  reserve ← load (T := Reserve.t) st reserve_info;
  check_owned reserve_info st ;;
  require_eq (ReserveLiquidity.oracle_pubkey (Reserve.liquidity reserve))
    (key reserve_liquidity_oracle_info) LendingError.InvalidAccountInput ;;
  price ← get_pyth_price (data (acct st (key reserve_liquidity_oracle_info))) (clock_slot clock);
  let reserve :=
    Reserve.with_liquidity reserve (ReserveLiquidity.with_price (Reserve.liquidity reserve) price) in
  reserve ← Reserve.accrue_interest reserve (clock_slot clock);
  store_reserve (Reserve.with_last_update reserve (LastUpdate.update_slot (clock_slot clock)))
    reserve_info st.

Definition process_deposit_reserve_liquidity (liquidity_amount : Z) (accounts : list AccountInfo)
    (st : store) : program_result store :=
  fail_if (liquidity_amount =? 0) (lerr LendingError.InvalidAmount) ;;
  '(source_liquidity_info, it) ← next_account_info accounts;
  '(destination_collateral_info, it) ← next_account_info it;
  '(reserve_info, it) ← next_account_info it;
  '(reserve_liquidity_supply_info, it) ← next_account_info it;
  '(reserve_collateral_mint_info, it) ← next_account_info it;
  '(lending_market_info, it) ← next_account_info it;
  '(lending_market_authority_info, it) ← next_account_info it;
  '(user_transfer_authority_info, it) ← next_account_info it;
  '(clock, it) ← next_clock st it;
  '(token_program_id, _) ← next_account_info it;
  lending_market ← load_market lending_market_info token_program_id st;
  reserve ← load_reserve reserve_info lending_market_info st;
  let liquidity := Reserve.liquidity reserve in let collateral := Reserve.collateral reserve in
  let input := LendingError.InvalidAccountInput in
  require_eq (ReserveLiquidity.supply_pubkey liquidity) (key reserve_liquidity_supply_info) input ;;
  require_eq (ReserveCollateral.mint_pubkey collateral) (key reserve_collateral_mint_info) input ;;
  require_ne (ReserveLiquidity.supply_pubkey liquidity) (key source_liquidity_info) input ;;
  require_ne (ReserveCollateral.supply_pubkey collateral) (key destination_collateral_info) input ;;
  check_fresh (Reserve.last_update reserve) (clock_slot clock) LendingError.ReserveStale ;;
  check_authority lending_market_info lending_market lending_market_authority_info ;;
  '(collateral_amount, reserve) ← Reserve.deposit_liquidity reserve liquidity_amount;
  st ← store_reserve (Reserve.mark_stale reserve) reserve_info st;
  st ← spl_token_transfer source_liquidity_info reserve_liquidity_supply_info liquidity_amount
         user_transfer_authority_info [] token_program_id st;
  spl_token_mint_to reserve_collateral_mint_info destination_collateral_info collateral_amount
    lending_market_authority_info (authority_signer_seeds lending_market_info lending_market)
    token_program_id st.

Definition process_redeem_reserve_collateral (collateral_amount : Z) (accounts : list AccountInfo)
    (st : store) : program_result store :=
  fail_if (collateral_amount =? 0) (lerr LendingError.InvalidAmount) ;;
  '(source_collateral_info, it) ← next_account_info accounts;
  '(destination_liquidity_info, it) ← next_account_info it;
  '(reserve_info, it) ← next_account_info it;
  '(reserve_collateral_mint_info, it) ← next_account_info it;
  '(reserve_liquidity_supply_info, it) ← next_account_info it;
  '(lending_market_info, it) ← next_account_info it;
  '(lending_market_authority_info, it) ← next_account_info it;
  '(user_transfer_authority_info, it) ← next_account_info it;
  '(clock, it) ← next_clock st it;
  '(token_program_id, _) ← next_account_info it;
  lending_market ← load_market lending_market_info token_program_id st;
  reserve ← load_reserve reserve_info lending_market_info st;
  let liquidity := Reserve.liquidity reserve in let collateral := Reserve.collateral reserve in
  let input := LendingError.InvalidAccountInput in
  require_eq (ReserveCollateral.mint_pubkey collateral) (key reserve_collateral_mint_info) input ;;
  require_ne (ReserveCollateral.supply_pubkey collateral) (key source_collateral_info) input ;;
  require_eq (ReserveLiquidity.supply_pubkey liquidity) (key reserve_liquidity_supply_info) input ;;
  require_ne (ReserveLiquidity.supply_pubkey liquidity) (key destination_liquidity_info) input ;;
  check_fresh (Reserve.last_update reserve) (clock_slot clock) LendingError.ReserveStale ;;
  check_authority lending_market_info lending_market lending_market_authority_info ;;
  '(liquidity_amount, reserve) ← Reserve.redeem_collateral reserve collateral_amount;
  st ← store_reserve (Reserve.mark_stale reserve) reserve_info st;
  st ← spl_token_burn reserve_collateral_mint_info source_collateral_info collateral_amount
         user_transfer_authority_info [] token_program_id st;
  spl_token_transfer reserve_liquidity_supply_info destination_liquidity_info liquidity_amount
    lending_market_authority_info (authority_signer_seeds lending_market_info lending_market)
    token_program_id st.

(** ** Obligations *)
Definition process_init_obligation (accounts : list AccountInfo) (st : store) : program_result store :=
  '(obligation_info, it) ← next_account_info accounts;
  '(lending_market_info, it) ← next_account_info it;
  '(obligation_owner_info, it) ← next_account_info it;
  '(clock, it) ← next_clock st it;
  '(rent_info, it) ← next_account_info it;
  r ← rent_from_account_info deserialize_rent st rent_info;
  '(token_program_id, _) ← next_account_info it;
  assert_rent_exempt r obligation_info st ;;
  obligation ← assert_uninitialized (T := Obligation.t) obligation_info st;
  check_owned obligation_info st ;;
  _ ← load_market lending_market_info token_program_id st;
  require_signer obligation_owner_info ;;
  store_obligation
    (Obligation.init obligation (clock_slot clock) (key lending_market_info) (key obligation_owner_info))
    obligation_info st.

(** The reserve of an entry, which must be of the current slot. *)
Definition entry_reserve (expected : Pubkey) (it : list AccountInfo) (slot : Z) (st : store)
  : program_result (Reserve.t * list AccountInfo) :=
  '(reserve_info, it) ← next_account_info it;
  check_owned reserve_info st ;;
  require_eq expected (key reserve_info) LendingError.InvalidAccountInput ;;
  reserve ← load (T := Reserve.t) st reserve_info;
  check_fresh (Reserve.last_update reserve) slot LendingError.ReserveStale ;;
  Ok (reserve, it).

(** What the deposits are worth, what may be borrowed against them, and from
    which debt on they may be liquidated. *)
Record DepositValues := {
  deposited_value : Decimal; allowed_borrow_value : Decimal; unhealthy_borrow_value : Decimal }.

Definition collateral_value (reserve : Reserve.t) (collateral : ObligationCollateral.t)
  : program_result Decimal :=
  decimals ← ok_or (checked_pow10 (ReserveLiquidity.mint_decimals (Reserve.liquidity reserve))) overflow;
  rate ← Reserve.collateral_exchange_rate reserve;
  amount ← CollateralExchangeRate.decimal_collateral_to_liquidity rate
             (Decimal.from (ObligationCollateral.deposited_amount collateral));
  value ← Decimal.try_mul amount (ReserveLiquidity.market_price (Reserve.liquidity reserve));
  Decimal.try_div_u64 value decimals.

Fixpoint refresh_deposits (deposits : list ObligationCollateral.t) (it : list AccountInfo) (slot : Z)
    (st : store) (acc : DepositValues)
  : program_result (list ObligationCollateral.t * list AccountInfo * DepositValues) :=
  match deposits with
  | [] => Ok ([], it, acc)
  | collateral :: deposits =>
      '(reserve, it) ← entry_reserve (ObligationCollateral.deposit_reserve collateral) it slot st;
      market_value ← collateral_value reserve collateral;
      let config := Reserve.config reserve in
      deposited ← Decimal.try_add (deposited_value acc) market_value;
      v ← Decimal.try_mul market_value (Rate.from_percent (ReserveConfig.loan_to_value_ratio config));
      allowed ← Decimal.try_add (allowed_borrow_value acc) v;
      v ← Decimal.try_mul market_value (Rate.from_percent (ReserveConfig.liquidation_threshold config));
      unhealthy ← Decimal.try_add (unhealthy_borrow_value acc) v;
      '(rest, it, acc) ←
        refresh_deposits deposits it slot st
          {| deposited_value := deposited; allowed_borrow_value := allowed;
             unhealthy_borrow_value := unhealthy |};
      Ok (ObligationCollateral.with_value collateral market_value :: rest, it, acc)
  end.

Fixpoint refresh_borrows (borrows : list ObligationLiquidity.t) (it : list AccountInfo) (slot : Z)
    (st : store) (borrowed_value : Decimal)
  : program_result (list ObligationLiquidity.t * list AccountInfo * Decimal) :=
  match borrows with
  | [] => Ok ([], it, borrowed_value)
  | liquidity :: borrows =>
      '(reserve, it) ← entry_reserve (ObligationLiquidity.borrow_reserve liquidity) it slot st;
      let l := Reserve.liquidity reserve in
      liquidity ← ObligationLiquidity.accrue_interest liquidity
                    (ReserveLiquidity.cumulative_borrow_rate_wads l);
      decimals ← ok_or (checked_pow10 (ReserveLiquidity.mint_decimals l)) overflow;
      v ← Decimal.try_mul (ObligationLiquidity.borrowed_amount_wads liquidity)
            (ReserveLiquidity.market_price l);
      market_value ← Decimal.try_div_u64 v decimals;
      borrowed_value ← Decimal.try_add borrowed_value market_value;
      '(rest, it, borrowed_value) ← refresh_borrows borrows it slot st borrowed_value;
      Ok (ObligationLiquidity.with_value liquidity market_value :: rest, it, borrowed_value)
  end.

Definition process_refresh_obligation (accounts : list AccountInfo) (st : store) : program_result store :=
  '(obligation_info, it) ← next_account_info accounts;
  '(clock, it) ← next_clock st it;
  obligation ← load (T := Obligation.t) st obligation_info;
  check_owned obligation_info st ;;
  let slot := clock_slot clock in
  '(deposits, it, values) ←
    refresh_deposits (Obligation.deposits obligation) it slot st
      {| deposited_value := Decimal.zero; allowed_borrow_value := Decimal.zero;
         unhealthy_borrow_value := Decimal.zero |};
  '(borrows, it, borrowed_value) ←
    refresh_borrows (Obligation.borrows obligation) it slot st Decimal.zero;
  fail_if (negb (bool_decide (it = []))) (lerr LendingError.InvalidAccountInput) ;;
  let obligation := Obligation.with_lists obligation deposits borrows in
  let obligation :=
    Obligation.with_values obligation (deposited_value values) borrowed_value
      (allowed_borrow_value values) (unhealthy_borrow_value values) in
  store_obligation (Obligation.with_last_update obligation (LastUpdate.update_slot slot))
    obligation_info st.

(** The entry that [find_or_add_collateral_to_deposits] gives, after a deposit. *)
Definition deposit_collateral (obligation : Obligation.t) (reserve : Pubkey) (n : Z)
  : program_result Obligation.t :=
  '(obligation, i) ← Obligation.find_or_add_collateral_to_deposits obligation reserve;
  c ← unwrap (Obligation.deposits obligation !! i);
  c ← ObligationCollateral.deposit c n;
  Ok (Obligation.with_lists obligation (<[i := c]> (Obligation.deposits obligation))
        (Obligation.borrows obligation)).

Definition process_deposit_obligation_collateral (collateral_amount : Z) (accounts : list AccountInfo)
    (st : store) : program_result store :=
  fail_if (collateral_amount =? 0) (lerr LendingError.InvalidAmount) ;;
  '(source_collateral_info, it) ← next_account_info accounts;
  '(destination_collateral_info, it) ← next_account_info it;
  '(deposit_reserve_info, it) ← next_account_info it;
  '(obligation_info, it) ← next_account_info it;
  '(lending_market_info, it) ← next_account_info it;
  '(obligation_owner_info, it) ← next_account_info it;
  '(user_transfer_authority_info, it) ← next_account_info it;
  '(clock, it) ← next_clock st it;
  '(token_program_id, _) ← next_account_info it;
  _ ← load_market lending_market_info token_program_id st;
  deposit_reserve ← load_reserve deposit_reserve_info lending_market_info st;
  let supply := ReserveCollateral.supply_pubkey (Reserve.collateral deposit_reserve) in
  require_ne supply (key source_collateral_info) LendingError.InvalidAccountInput ;;
  require_eq supply (key destination_collateral_info) LendingError.InvalidAccountInput ;;
  check_fresh (Reserve.last_update deposit_reserve) (clock_slot clock) LendingError.ReserveStale ;;
  fail_if (ReserveConfig.loan_to_value_ratio (Reserve.config deposit_reserve) =? 0)
    (lerr LendingError.ReserveCollateralDisabled) ;;
  obligation ← load_obligation obligation_info lending_market_info st;
  check_owner obligation obligation_owner_info ;;
  obligation ← deposit_collateral obligation (key deposit_reserve_info) collateral_amount;
  st ← store_obligation (Obligation.mark_stale obligation) obligation_info st;
  spl_token_transfer source_collateral_info destination_collateral_info collateral_amount
    user_transfer_authority_info [] token_program_id st.

(** How much of a deposit may be taken out, for a request of [collateral_amount]. *)
Definition withdraw_amount_of (obligation : Obligation.t) (collateral : ObligationCollateral.t)
    (collateral_amount : Z) : program_result Z :=
  let deposited := ObligationCollateral.deposited_amount collateral in
  let value := ObligationCollateral.market_value collateral in
  if bool_decide (Obligation.borrows obligation = []) then
    Ok (if collateral_amount =? u64_max then deposited else Z.min deposited collateral_amount)
  else if Obligation.deposited_value obligation =? Decimal.zero
  then Err (lerr LendingError.ObligationDepositsZero)
  else
    max_withdraw_value ← Obligation.max_withdraw_value obligation;
    fail_if (max_withdraw_value =? Decimal.zero) (lerr LendingError.WithdrawTooLarge) ;;
    withdraw_amount ←
      (if collateral_amount =? u64_max then
         let withdraw_value := Z.min max_withdraw_value value in
         withdraw_pct ← Decimal.try_div withdraw_value value;
         v ← Decimal.try_mul_u64 withdraw_pct deposited;
         n ← Decimal.try_floor_u64 v;
         Ok (Z.min n deposited)
       else
         let withdraw_amount := Z.min collateral_amount deposited in
         withdraw_pct ← Decimal.try_div_u64 (Decimal.from withdraw_amount) deposited;
         withdraw_value ← Decimal.try_mul value withdraw_pct;
         fail_if (max_withdraw_value <? withdraw_value) (lerr LendingError.WithdrawTooLarge) ;;
         Ok withdraw_amount);
    fail_if (withdraw_amount =? 0) (lerr LendingError.WithdrawTooSmall) ;;
    Ok withdraw_amount.

Definition process_withdraw_obligation_collateral (collateral_amount : Z) (accounts : list AccountInfo)
    (st : store) : program_result store :=
  fail_if (collateral_amount =? 0) (lerr LendingError.InvalidAmount) ;;
  '(source_collateral_info, it) ← next_account_info accounts;
  '(destination_collateral_info, it) ← next_account_info it;
  '(withdraw_reserve_info, it) ← next_account_info it;
  '(obligation_info, it) ← next_account_info it;
  '(lending_market_info, it) ← next_account_info it;
  '(lending_market_authority_info, it) ← next_account_info it;
  '(obligation_owner_info, it) ← next_account_info it;
  '(clock, it) ← next_clock st it;
  '(token_program_id, _) ← next_account_info it;
  lending_market ← load_market lending_market_info token_program_id st;
  withdraw_reserve ← load_reserve withdraw_reserve_info lending_market_info st;
  let supply := ReserveCollateral.supply_pubkey (Reserve.collateral withdraw_reserve) in
  require_eq supply (key source_collateral_info) LendingError.InvalidAccountInput ;;
  require_ne supply (key destination_collateral_info) LendingError.InvalidAccountInput ;;
  check_fresh (Reserve.last_update withdraw_reserve) (clock_slot clock) LendingError.ReserveStale ;;
  obligation ← load_obligation obligation_info lending_market_info st;
  check_owner obligation obligation_owner_info ;;
  check_fresh (Obligation.last_update obligation) (clock_slot clock) LendingError.ObligationStale ;;
  '(collateral, collateral_index) ←
    Obligation.find_collateral_in_deposits obligation (key withdraw_reserve_info);
  fail_if (ObligationCollateral.deposited_amount collateral =? 0)
    (lerr LendingError.ObligationCollateralEmpty) ;;
  check_authority lending_market_info lending_market lending_market_authority_info ;;
  withdraw_amount ← withdraw_amount_of obligation collateral collateral_amount;
  obligation ← Obligation.withdraw obligation withdraw_amount collateral_index;
  st ← store_obligation (Obligation.mark_stale obligation) obligation_info st;
  spl_token_transfer source_collateral_info destination_collateral_info withdraw_amount
    lending_market_authority_info (authority_signer_seeds lending_market_info lending_market)
    token_program_id st.

(** The entry that [find_or_add_liquidity_to_borrows] gives, after a borrow. *)
Definition borrow_liquidity (obligation : Obligation.t) (reserve : Pubkey) (amount : Decimal)
  : program_result Obligation.t :=
  '(obligation, i) ← Obligation.find_or_add_liquidity_to_borrows obligation reserve;
  l ← unwrap (Obligation.borrows obligation !! i);
  l ← ObligationLiquidity.borrow l amount;
  Ok (Obligation.with_lists obligation (Obligation.deposits obligation)
        (<[i := l]> (Obligation.borrows obligation))).

(** The fees of a loan: the host's part, and the rest to the reserve's own
    account. *)
Definition pay_fees (source owner_receiver : AccountInfo) (host_receiver : option AccountInfo)
    (fee host_fee : Z) (authority : AccountInfo) (seeds : list (list Z)) (token_program : AccountInfo)
    (st : store) : program_result store :=
  '(owner_fee, st) ←
    match host_receiver with
    | Some host =>
        if 0 <? host_fee then
          owner_fee ← ok_or (checked_sub fee host_fee) overflow;
          st ← spl_token_transfer source host host_fee authority seeds token_program st;
          Ok (owner_fee, st)
        else Ok (fee, st)
    | None => Ok (fee, st)
    end;
  if 0 <? owner_fee
  then spl_token_transfer source owner_receiver owner_fee authority seeds token_program st
  else Ok st.

Definition process_borrow_obligation_liquidity (liquidity_amount : Z) (accounts : list AccountInfo)
    (st : store) : program_result store :=
  fail_if (liquidity_amount =? 0) (lerr LendingError.InvalidAmount) ;;
  '(source_liquidity_info, it) ← next_account_info accounts;
  '(destination_liquidity_info, it) ← next_account_info it;
  '(borrow_reserve_info, it) ← next_account_info it;
  '(borrow_reserve_liquidity_fee_receiver_info, it) ← next_account_info it;
  '(obligation_info, it) ← next_account_info it;
  '(lending_market_info, it) ← next_account_info it;
  '(lending_market_authority_info, it) ← next_account_info it;
  '(obligation_owner_info, it) ← next_account_info it;
  '(clock, it) ← next_clock st it;
  '(token_program_id, it) ← next_account_info it;
  lending_market ← load_market lending_market_info token_program_id st;
  borrow_reserve ← load_reserve borrow_reserve_info lending_market_info st;
  let liquidity := Reserve.liquidity borrow_reserve in
  let input := LendingError.InvalidAccountInput in
  require_eq (ReserveLiquidity.supply_pubkey liquidity) (key source_liquidity_info) input ;;
  require_ne (ReserveLiquidity.supply_pubkey liquidity) (key destination_liquidity_info) input ;;
  require_eq (ReserveLiquidity.fee_receiver liquidity)
    (key borrow_reserve_liquidity_fee_receiver_info) input ;;
  check_fresh (Reserve.last_update borrow_reserve) (clock_slot clock) LendingError.ReserveStale ;;
  obligation ← load_obligation obligation_info lending_market_info st;
  check_owner obligation obligation_owner_info ;;
  check_fresh (Obligation.last_update obligation) (clock_slot clock) LendingError.ObligationStale ;;
  fail_if (bool_decide (Obligation.deposits obligation = []))
    (lerr LendingError.ObligationDepositsEmpty) ;;
  fail_if (Obligation.deposited_value obligation =? Decimal.zero)
    (lerr LendingError.ObligationDepositsZero) ;;
  check_authority lending_market_info lending_market lending_market_authority_info ;;
  remaining_borrow_value ← Obligation.remaining_borrow_value obligation;
  fail_if (remaining_borrow_value =? Decimal.zero) (lerr LendingError.BorrowTooLarge) ;;
  res ← Reserve.calculate_borrow borrow_reserve liquidity_amount remaining_borrow_value;
  fail_if (receive_amount res =? 0) (lerr LendingError.BorrowTooSmall) ;;
  liquidity ← ReserveLiquidity.borrow liquidity (borrow_amount res);
  st ← store_reserve (Reserve.mark_stale (Reserve.with_liquidity borrow_reserve liquidity))
         borrow_reserve_info st;
  obligation ← borrow_liquidity obligation (key borrow_reserve_info) (borrow_amount res);
  st ← store_obligation (Obligation.mark_stale obligation) obligation_info st;
  let seeds := authority_signer_seeds lending_market_info lending_market in
  st ← pay_fees source_liquidity_info borrow_reserve_liquidity_fee_receiver_info (head it)
         (borrow_fee res) (host_fee res) lending_market_authority_info seeds token_program_id st;
  spl_token_transfer source_liquidity_info destination_liquidity_info (receive_amount res)
    lending_market_authority_info seeds token_program_id st.

Definition process_repay_obligation_liquidity (liquidity_amount : Z) (accounts : list AccountInfo)
    (st : store) : program_result store :=
  fail_if (liquidity_amount =? 0) (lerr LendingError.InvalidAmount) ;;
  '(source_liquidity_info, it) ← next_account_info accounts;
  '(destination_liquidity_info, it) ← next_account_info it;
  '(repay_reserve_info, it) ← next_account_info it;
  '(obligation_info, it) ← next_account_info it;
  '(lending_market_info, it) ← next_account_info it;
  '(user_transfer_authority_info, it) ← next_account_info it;
  '(clock, it) ← next_clock st it;
  '(token_program_id, _) ← next_account_info it;
  _ ← load_market lending_market_info token_program_id st;
  repay_reserve ← load_reserve repay_reserve_info lending_market_info st;
  let liquidity := Reserve.liquidity repay_reserve in
  let input := LendingError.InvalidAccountInput in
  require_ne (ReserveLiquidity.supply_pubkey liquidity) (key source_liquidity_info) input ;;
  require_eq (ReserveLiquidity.supply_pubkey liquidity) (key destination_liquidity_info) input ;;
  check_fresh (Reserve.last_update repay_reserve) (clock_slot clock) LendingError.ReserveStale ;;
  obligation ← load_obligation obligation_info lending_market_info st;
  check_fresh (Obligation.last_update obligation) (clock_slot clock) LendingError.ObligationStale ;;
  '(borrow, liquidity_index) ←
    Obligation.find_liquidity_in_borrows obligation (key repay_reserve_info);
  fail_if (ObligationLiquidity.borrowed_amount_wads borrow =? Decimal.zero)
    (lerr LendingError.ObligationLiquidityEmpty) ;;
  res ← Reserve.calculate_repay liquidity_amount (ObligationLiquidity.borrowed_amount_wads borrow);
  fail_if (cr_repay_amount res =? 0) (lerr LendingError.RepayTooSmall) ;;
  liquidity ← ReserveLiquidity.repay liquidity (cr_repay_amount res) (cr_settle_amount res);
  st ← store_reserve (Reserve.mark_stale (Reserve.with_liquidity repay_reserve liquidity))
         repay_reserve_info st;
  obligation ← Obligation.repay obligation (cr_settle_amount res) liquidity_index;
  st ← store_obligation (Obligation.mark_stale obligation) obligation_info st;
  spl_token_transfer source_liquidity_info destination_liquidity_info (cr_repay_amount res)
    user_transfer_authority_info [] token_program_id st.

(** The guards on an obligation that is to be liquidated. *)
Definition check_unhealthy (obligation : Obligation.t) : program_result unit :=
  fail_if (Obligation.deposited_value obligation =? Decimal.zero)
    (lerr LendingError.ObligationDepositsZero) ;;
  fail_if (Obligation.borrowed_value obligation =? Decimal.zero)
    (lerr LendingError.ObligationBorrowsZero) ;;
  fail_if (Obligation.borrowed_value obligation <? Obligation.unhealthy_borrow_value obligation)
    (lerr LendingError.ObligationHealthy).

Definition process_liquidate_obligation (liquidity_amount : Z) (accounts : list AccountInfo)
    (st : store) : program_result store :=
  fail_if (liquidity_amount =? 0) (lerr LendingError.InvalidAmount) ;;
  '(source_liquidity_info, it) ← next_account_info accounts;
  '(destination_collateral_info, it) ← next_account_info it;
  '(repay_reserve_info, it) ← next_account_info it;
  '(repay_reserve_liquidity_supply_info, it) ← next_account_info it;
  '(withdraw_reserve_info, it) ← next_account_info it;
  '(withdraw_reserve_collateral_supply_info, it) ← next_account_info it;
  '(obligation_info, it) ← next_account_info it;
  '(lending_market_info, it) ← next_account_info it;
  '(lending_market_authority_info, it) ← next_account_info it;
  '(user_transfer_authority_info, it) ← next_account_info it;
  '(clock, it) ← next_clock st it;
  '(token_program_id, _) ← next_account_info it;
  lending_market ← load_market lending_market_info token_program_id st;
  repay_reserve ← load_reserve repay_reserve_info lending_market_info st;
  let liquidity := Reserve.liquidity repay_reserve in
  let input := LendingError.InvalidAccountInput in
  require_eq (ReserveLiquidity.supply_pubkey liquidity) (key repay_reserve_liquidity_supply_info) input ;;
  require_ne (ReserveLiquidity.supply_pubkey liquidity) (key source_liquidity_info) input ;;
  require_ne (ReserveCollateral.supply_pubkey (Reserve.collateral repay_reserve))
    (key destination_collateral_info) input ;;
  check_fresh (Reserve.last_update repay_reserve) (clock_slot clock) LendingError.ReserveStale ;;
  withdraw_reserve ← load_reserve withdraw_reserve_info lending_market_info st;
  let supply := ReserveCollateral.supply_pubkey (Reserve.collateral withdraw_reserve) in
  require_eq supply (key withdraw_reserve_collateral_supply_info) input ;;
  require_ne (ReserveLiquidity.supply_pubkey (Reserve.liquidity withdraw_reserve))
    (key source_liquidity_info) input ;;
  require_ne supply (key destination_collateral_info) input ;;
  check_fresh (Reserve.last_update withdraw_reserve) (clock_slot clock) LendingError.ReserveStale ;;
  obligation ← load_obligation obligation_info lending_market_info st;
  check_fresh (Obligation.last_update obligation) (clock_slot clock) LendingError.ObligationStale ;;
  check_unhealthy obligation ;;
  '(borrow, liquidity_index) ←
    Obligation.find_liquidity_in_borrows obligation (key repay_reserve_info);
  fail_if (ObligationLiquidity.market_value borrow =? Decimal.zero)
    (lerr LendingError.ObligationLiquidityEmpty) ;;
  '(collateral, collateral_index) ←
    Obligation.find_collateral_in_deposits obligation (key withdraw_reserve_info);
  fail_if (ObligationCollateral.market_value collateral =? Decimal.zero)
    (lerr LendingError.ObligationCollateralEmpty) ;;
  check_authority lending_market_info lending_market lending_market_authority_info ;;
  res ← Reserve.calculate_liquidation withdraw_reserve liquidity_amount obligation borrow collateral;
  fail_if (repay_amount res =? 0) (lerr LendingError.LiquidationTooSmall) ;;
  fail_if (withdraw_amount res =? 0) (lerr LendingError.LiquidationTooSmall) ;;
  liquidity ← ReserveLiquidity.repay liquidity (repay_amount res) (settle_amount res);
  st ← store_reserve (Reserve.mark_stale (Reserve.with_liquidity repay_reserve liquidity))
         repay_reserve_info st;
  obligation ← Obligation.repay obligation (settle_amount res) liquidity_index;
  obligation ← Obligation.withdraw obligation (withdraw_amount res) collateral_index;
  st ← store_obligation (Obligation.mark_stale obligation) obligation_info st;
  st ← spl_token_transfer source_liquidity_info repay_reserve_liquidity_supply_info (repay_amount res)
         user_transfer_authority_info [] token_program_id st;
  spl_token_transfer withdraw_reserve_collateral_supply_info destination_collateral_info
    (withdraw_amount res) lending_market_authority_info
    (authority_signer_seeds lending_market_info lending_market) token_program_id st.

(** ** Flash loans *)

(** The instruction that hands the loan to its receiver, and the accounts
    passed with it. *)
Definition receive_instruction (receiver destination source token_program : AccountInfo)
    (others : list AccountInfo) (returned_amount_required : Z) : Instruction * list AccountInfo :=
  ({| program_id := key receiver;
      ix_accounts :=
        [writable_meta (key destination); writable_meta (key source); readonly_meta (key token_program)] ++
        ((fun i => {| pubkey := key i; meta_is_signer := is_signer i; meta_is_writable := is_writable i |})
           <$> others);
      ix_data := 0 :: to_le_bytes 8 returned_amount_required |},
   [destination; receiver; source; token_program] ++ others).

Definition process_flash_loan (liquidity_amount : Z) (accounts : list AccountInfo) (st : store)
  : program_result store :=
  fail_if (liquidity_amount =? 0) (lerr LendingError.InvalidAmount) ;;
  '(source_liquidity_info, it) ← next_account_info accounts;
  '(destination_liquidity_info, it) ← next_account_info it;
  '(reserve_info, it) ← next_account_info it;
  '(reserve_liquidity_fee_receiver_info, it) ← next_account_info it;
  '(host_fee_receiver_info, it) ← next_account_info it;
  '(lending_market_info, it) ← next_account_info it;
  '(lending_market_authority_info, it) ← next_account_info it;
  '(token_program_id, it) ← next_account_info it;
  '(flash_loan_receiver_program_id, it) ← next_account_info it;
  require_ne lending_program_id (key flash_loan_receiver_program_id)
    LendingError.InvalidFlashLoanReceiverProgram ;;
  lending_market ← load_market lending_market_info token_program_id st;
  check_authority lending_market_info lending_market lending_market_authority_info ;;
  reserve ← load_reserve reserve_info lending_market_info st;
  let liquidity := Reserve.liquidity reserve in
  require_eq (ReserveLiquidity.supply_pubkey liquidity) (key source_liquidity_info)
    LendingError.InvalidAccountInput ;;
  require_eq (ReserveLiquidity.fee_receiver liquidity) (key reserve_liquidity_fee_receiver_info)
    LendingError.InvalidAccountInput ;;
  let flash_loan_amount :=
    if liquidity_amount =? u64_max then ReserveLiquidity.available_amount liquidity
    else liquidity_amount in
  '(origination_fee, host_fee) ←
    ReserveFees.calculate_flash_loan_fees (ReserveConfig.fees (Reserve.config reserve))
      (Decimal.from flash_loan_amount);
  source ← load (T := Account) st source_liquidity_info;
  expected_balance_after_flash_loan ←
    ok_or (checked_add u64_max (amount source) origination_fee) overflow;
  returned_amount_required ←
    ok_or (checked_add u64_max flash_loan_amount origination_fee) overflow;
  let '(ix, infos) :=
    receive_instruction flash_loan_receiver_program_id destination_liquidity_info source_liquidity_info
      token_program_id it returned_amount_required in
  liquidity ← ReserveLiquidity.borrow liquidity (Decimal.from flash_loan_amount);
  st ← store_reserve (Reserve.with_liquidity reserve liquidity) reserve_info st;
  let seeds := authority_signer_seeds lending_market_info lending_market in
  st ← spl_token_transfer source_liquidity_info destination_liquidity_info flash_loan_amount
         lending_market_authority_info seeds token_program_id st;
  st ← invoke_receiver ix infos st;
  reserve ← load (T := Reserve.t) st reserve_info;
  liquidity ← ReserveLiquidity.repay (Reserve.liquidity reserve) flash_loan_amount
                (Decimal.from flash_loan_amount);
  st ← store_reserve (Reserve.with_liquidity reserve liquidity) reserve_info st;
  source ← load (T := Account) st source_liquidity_info;
  fail_if (amount source <? expected_balance_after_flash_loan)
    (lerr LendingError.NotEnoughLiquidityAfterFlashLoan) ;;
  pay_fees source_liquidity_info reserve_liquidity_fee_receiver_info (Some host_fee_receiver_info)
    origination_fee host_fee lending_market_authority_info seeds token_program_id st.

(** ** The dispatcher *)
Definition process_instruction (accounts : list AccountInfo) (input : list Z) (st : store)
  : program_result store :=
  instruction ← LendingInstruction.unpack input;
  match instruction with
  | LendingInstruction.InitLendingMarket owner quote_currency =>
      process_init_lending_market owner quote_currency accounts st
  | LendingInstruction.SetLendingMarketOwner new_owner =>
      process_set_lending_market_owner new_owner accounts st
  | LendingInstruction.InitReserve n config => process_init_reserve n config accounts st
  | LendingInstruction.RefreshReserve => process_refresh_reserve accounts st
  | LendingInstruction.DepositReserveLiquidity n => process_deposit_reserve_liquidity n accounts st
  | LendingInstruction.RedeemReserveCollateral n => process_redeem_reserve_collateral n accounts st
  | LendingInstruction.InitObligation => process_init_obligation accounts st
  | LendingInstruction.RefreshObligation => process_refresh_obligation accounts st
  | LendingInstruction.DepositObligationCollateral n =>
      process_deposit_obligation_collateral n accounts st
  | LendingInstruction.WithdrawObligationCollateral n =>
      process_withdraw_obligation_collateral n accounts st
  | LendingInstruction.BorrowObligationLiquidity n => process_borrow_obligation_liquidity n accounts st
  | LendingInstruction.RepayObligationLiquidity n => process_repay_obligation_liquidity n accounts st
  | LendingInstruction.LiquidateObligation n => process_liquidate_obligation n accounts st
  | LendingInstruction.FlashLoan n => process_flash_loan n accounts st
  end.
End Processor.
