(* ===== verification/LendingReserve.v ===== *)
(** * Token lending: what a reserve owes its depositors

    Theorems on the arithmetic of [LendingState]: deposits do not dilute the
    holders of collateral, redemption is bounded by the rounding of the exchange
    rate, interest only adds to what a reserve owns, the borrow rate stays within
    the configured limits, and loans and liquidations stay within what the
    obligation allows. *)

From stdpp Require Import base list.
From Stdlib Require Import ZArith Lia.
From S2P Require Import Prelude Sdk LendingMath LendingState LendingPack.

(** ** The fixed-point operations *)
Ltac wads := unfold WAD, HALF_WAD, PERCENT_SCALER in *.

Section Arithmetic.
Implicit Types (a b c : Z).

Lemma try_add_Ok a b c : Decimal.try_add a b = Ok c <-> c = a + b /\ a + b <= u192_max.
Proof. unfold Decimal.try_add. by rewrite ok_or_Ok, checked_add_Some. Qed.
Lemma try_sub_Ok a b c : Decimal.try_sub a b = Ok c <-> c = a - b /\ b <= a.
Proof. unfold Decimal.try_sub. by rewrite ok_or_Ok, checked_sub_Some. Qed.
Lemma try_mul_Ok a b c : Decimal.try_mul a b = Ok c <-> c = a * b / WAD /\ a * b <= u192_max.
Proof.
  unfold Decimal.try_mul. rewrite bind_Ok. setoid_rewrite ok_or_Ok.
  setoid_rewrite checked_mul_Some. setoid_rewrite checked_div_Some. naive_solver.
Qed.
Lemma try_div_Ok a b c :
  Decimal.try_div a b = Ok c <-> c = a * WAD / b /\ b <> 0 /\ a * WAD <= u192_max.
Proof.
  unfold Decimal.try_div. rewrite bind_Ok. setoid_rewrite ok_or_Ok.
  setoid_rewrite checked_mul_Some. setoid_rewrite checked_div_Some. naive_solver.
Qed.
Lemma try_mul_u64_Ok a b c : Decimal.try_mul_u64 a b = Ok c <-> c = a * b /\ a * b <= u192_max.
Proof. unfold Decimal.try_mul_u64. by rewrite ok_or_Ok, checked_mul_Some. Qed.
Lemma try_div_u64_Ok a b c : Decimal.try_div_u64 a b = Ok c <-> c = a / b /\ b <> 0.
Proof. unfold Decimal.try_div_u64. by rewrite ok_or_Ok, checked_div_Some. Qed.
Lemma try_floor_Ok a c : Decimal.try_floor_u64 a = Ok c <-> c = a / WAD /\ a / WAD <= u64_max.
Proof.
  unfold Decimal.try_floor_u64, Decimal.to_u64. rewrite bind_Ok. setoid_rewrite ok_or_Ok.
  setoid_rewrite checked_div_Some. split.
  - intros (q & [-> _] & Hq). case_if Hq; [|done]. to_prop. naive_solver.
  - intros [-> Hc]. exists (a / WAD). split; [done|]. by rewrite (proj2 (Z.leb_le _ _) Hc).
Qed.
Lemma try_ceil_Ok a c :
  Decimal.try_ceil_u64 a = Ok c -> c = (WAD - 1 + a) / WAD /\ c <= u64_max.
Proof.
  unfold Decimal.try_ceil_u64, Decimal.to_u64. intros H. inv_ok. inv_checked. case_if H; [|done].
  inv_ok. to_prop. by subst.
Qed.
Lemma try_round_Ok a c :
  Decimal.try_round_u64 a = Ok c -> c = (HALF_WAD + a) / WAD /\ c <= u64_max.
Proof.
  unfold Decimal.try_round_u64, Decimal.to_u64. intros H. inv_ok. inv_checked. case_if H; [|done].
  inv_ok. to_prop. by subst.
Qed.
Lemma rate_try_from_Ok a c : Rate.try_from a = Ok c <-> c = a /\ a <= u128_max.
Proof.
  unfold Rate.try_from, Decimal.to_scaled_val. split.
  - intros H. case_if H; [|done]. inv_ok. by to_prop.
  - intros [-> Ha]. by rewrite (proj2 (Z.leb_le _ _) Ha).
Qed.
Lemma rate_try_add_Ok a b c : Rate.try_add a b = Ok c <-> c = a + b /\ a + b <= u128_max.
Proof. unfold Rate.try_add. by rewrite ok_or_Ok, checked_add_Some. Qed.
Lemma rate_try_mul_Ok a b c : Rate.try_mul a b = Ok c <-> c = a * b / WAD /\ a * b <= u128_max.
Proof.
  unfold Rate.try_mul. rewrite bind_Ok. setoid_rewrite ok_or_Ok.
  setoid_rewrite checked_mul_Some. setoid_rewrite checked_div_Some. naive_solver.
Qed.
Lemma rate_try_div_Ok a b c :
  Rate.try_div a b = Ok c <-> c = a * WAD / b /\ b <> 0 /\ a * WAD <= u128_max.
Proof.
  unfold Rate.try_div. rewrite bind_Ok. setoid_rewrite ok_or_Ok.
  setoid_rewrite checked_mul_Some. setoid_rewrite checked_div_Some. naive_solver.
Qed.
End Arithmetic.

(** The operations of a run that was accepted. *)
Ltac inv_math :=
  inv_ok;
  repeat match goal with
  | H : Decimal.try_add _ _ = Ok _ |- _ => apply try_add_Ok in H as [H ?]
  | H : Decimal.try_sub _ _ = Ok _ |- _ => apply try_sub_Ok in H as [H ?]
  | H : Decimal.try_mul _ _ = Ok _ |- _ => apply try_mul_Ok in H as [H ?]
  | H : Decimal.try_div _ _ = Ok _ |- _ => apply try_div_Ok in H as (H & ? & ?)
  | H : Decimal.try_mul_u64 _ _ = Ok _ |- _ => apply try_mul_u64_Ok in H as [H ?]
  | H : Decimal.try_div_u64 _ _ = Ok _ |- _ => apply try_div_u64_Ok in H as [H ?]
  | H : Decimal.try_floor_u64 _ = Ok _ |- _ => apply try_floor_Ok in H as [H ?]
  | H : Decimal.try_ceil_u64 _ = Ok _ |- _ => apply try_ceil_Ok in H as [H ?]
  | H : Decimal.try_round_u64 _ = Ok _ |- _ => apply try_round_Ok in H as [H ?]
  | H : Rate.try_from _ = Ok _ |- _ => apply rate_try_from_Ok in H as [H ?]
  | H : Rate.try_add _ _ = Ok _ |- _ => apply rate_try_add_Ok in H as [H ?]
  | H : Rate.try_mul _ _ = Ok _ |- _ => apply rate_try_mul_Ok in H as [H ?]
  | H : Rate.try_div _ _ = Ok _ |- _ => apply rate_try_div_Ok in H as (H & ? & ?)
  end;
  inv_checked; to_prop.

(** ** Shares *)

(** The collateral tokens issued, and what the reserve owns, in units of
    [1 / WAD] tokens: what lies in it and what it has lent. *)
Definition shares (r : Reserve.t) : Z := ReserveCollateral.mint_total_supply (Reserve.collateral r).
Definition owned (r : Reserve.t) : Z :=
  WAD * ReserveLiquidity.available_amount (Reserve.liquidity r) +
  ReserveLiquidity.borrowed_amount_wads (Reserve.liquidity r).

Lemma owned_nonneg r : wf_reserve r -> 0 <= owned r.
Proof. intros [_ _ _ [] _ _]. unfold owned. wads. lia. Qed.
Lemma shares_range r : wf_reserve r -> is_u64 (shares r).
Proof. intros [_ _ _ _ [] _]. done. Qed.

Lemma exchange_rate_Ok r rate :
  Reserve.collateral_exchange_rate r = Ok rate ->
  (shares r = 0 \/ owned r = 0) /\ rate = WAD \/
  shares r <> 0 /\ owned r <> 0 /\ rate = WAD * shares r * WAD / owned r.
Proof.
  unfold Reserve.collateral_exchange_rate, ReserveLiquidity.total_supply, ReserveCollateral.exchange_rate.
  intros H. inv_math. subst. fold (owned r) (shares r) in H. case_if H.
  - left. inv_ok. split; [|done]. to_prop. unfold Decimal.zero in *. intuition (to_prop; auto).
  - right. inv_math. unfold Decimal.zero, Decimal.from in *. subst. done.
Qed.

Lemma floor_mul_floor a b : 0 <= a -> 0 < b -> a / b * b <= a.
Proof. intros. rewrite Z.mul_comm. by apply Z.mul_div_le. Qed.

Lemma deposit_liquidity_Ok r n c r' :
  Reserve.deposit_liquidity r n = Ok (c, r') -> 0 <= n ->
  exists rate, Reserve.collateral_exchange_rate r = Ok rate /\ c = n * rate / WAD /\
    owned r' = owned r + WAD * n /\ shares r' = shares r + c /\
    shares r + c <= u64_max /\ ReserveLiquidity.available_amount (Reserve.liquidity r) + n <= u64_max.
Proof.
  unfold Reserve.deposit_liquidity, CollateralExchangeRate.liquidity_to_collateral,
    CollateralExchangeRate.decimal_liquidity_to_collateral, ReserveLiquidity.deposit, ReserveCollateral.mint.
  intros H Hn. inv_math. subst. eexists. split; [done|]. unfold Decimal.from, owned, shares. cbn.
  split_and!; try done; [|lia]. f_equal. rewrite <- Z.mul_assoc, (Z.mul_comm WAD), Z.div_mul; [done|]. by wads.
Qed.

(** A deposit never dilutes: per share, the reserve owns at least as much after
    it as before. *)
Lemma deposit_dilutes_nobody r n c r' :
  wf_reserve r -> is_u64 n -> Reserve.deposit_liquidity r n = Ok (c, r') -> 0 < shares r ->
  owned r * shares r' <= owned r' * shares r.
Proof.
  intros Hw Hn H Hs. apply deposit_liquidity_Ok in H as (rate & Hr & -> & -> & -> & _); [|lia].
  pose proof (owned_nonneg r Hw). apply exchange_rate_Ok in Hr as [[[?|Ho] ->]|(_ & Ho & ->)]; [lia|rewrite Ho; wads; nia|].
  set (S := shares r) in *. set (L := owned r) in *. set (rate := WAD * S * WAD / L).
  assert (rate * L <= WAD * S * WAD) by (apply floor_mul_floor; wads; nia).
  assert (0 <= rate) by (apply Z.div_pos; wads; nia).
  pose proof (floor_mul_floor (n * rate) WAD ltac:(nia) ltac:(wads; lia)).
  enough (n * rate / WAD * L <= WAD * n * S) by nia.
  assert (n * rate / WAD * WAD * L <= n * rate * L) by nia.
  assert (n * rate * L <= n * (WAD * S * WAD)) by nia.
  apply (Z.mul_le_mono_pos_r _ _ WAD); [by wads|]. nia.
Qed.

Lemma redeem_collateral_Ok r c n r' :
  Reserve.redeem_collateral r c = Ok (n, r') -> 0 <= c ->
  exists rate, Reserve.collateral_exchange_rate r = Ok rate /\ rate <> 0 /\
    n = WAD * c * WAD / rate / WAD /\ owned r' = owned r - WAD * n /\ shares r' = shares r - c /\
    c <= shares r /\ n <= ReserveLiquidity.available_amount (Reserve.liquidity r).
Proof.
  unfold Reserve.redeem_collateral, CollateralExchangeRate.collateral_to_liquidity,
    CollateralExchangeRate.decimal_collateral_to_liquidity, ReserveLiquidity.withdraw, ReserveCollateral.burn.
  intros H Hn. inv_math. subst. eexists. split; [done|]. unfold Decimal.from, owned, shares. cbn.
  split_and!; try done. lia.
Qed.

(** Redemption pays at most the value of the collateral at a rate that is
    rounded down: the excess over the exact value is less than one part in
    [WAD] of what is paid, in shares. *)
Lemma redeem_bounded r c n r' :
  wf_reserve r -> is_u64 c -> Reserve.redeem_collateral r c = Ok (n, r') ->
  WAD * (WAD * n * shares r) <= (WAD * c + n) * owned r.
Proof.
  intros Hw Hc H. pose proof (owned_nonneg r Hw). pose proof (shares_range r Hw).
  apply redeem_collateral_Ok in H as (rate & Hr & Hr0 & En & _ & _ & Hcs & Hav); [|lia].
  apply exchange_rate_Ok in Hr as [[[Hs|Ho] ->]|(Hs & Ho & Hrate)].
  - rewrite Hs in *. assert (c = 0) as -> by lia. subst n. change (WAD * 0 * WAD / WAD / WAD) with 0. lia.
  - assert (n = c) as -> by (subst n; rewrite !Z.div_mul by (by wads); rewrite Z.mul_comm, Z.div_mul by (by wads); done).
    enough (c = 0) as -> by lia. destruct Hw as [_ _ _ [] _ _]. unfold owned in Ho. wads. lia.
  - set (S := shares r) in *. set (L := owned r) in *.
    assert (0 <= rate) by (subst rate; apply Z.div_pos; wads; nia).
    assert (n * rate <= WAD * c).
    { subst n. rewrite Z.div_div by (wads; lia).
      pose proof (floor_mul_floor (WAD * c * WAD) (rate * WAD) ltac:(wads; nia) ltac:(wads; lia)).
      apply (Z.mul_le_mono_pos_r _ _ WAD); [by wads|]. nia. }
    assert (0 <= n) by (subst n; repeat apply Z.div_pos; wads; nia).
    pose proof (Z.mul_succ_div_gt (WAD * S * WAD) L ltac:(lia)) as Hgt. rewrite <- Hrate in Hgt.
    nia.
Qed.

(** Collateral bought by a deposit and redeemed at once does not give more than
    was deposited, as long as what is redeemed is within the precision of the
    rate. *)
Lemma deposit_then_redeem r n c r1 n' r2 :
  wf_reserve r -> wf_reserve r1 -> is_u64 n ->
  Reserve.deposit_liquidity r n = Ok (c, r1) -> Reserve.redeem_collateral r1 c = Ok (n', r2) ->
  0 < shares r -> n' * owned r1 < WAD * WAD * shares r1 -> n' <= n.
Proof.
  intros Hw Hw1 Hn Hd Hr Hs Hp. pose proof (owned_nonneg r Hw) as HL0.
  pose proof Hd as Hd'. apply deposit_liquidity_Ok in Hd' as (rate & Hrate & Ec & EL & ES & Hmax & _); [|lia].
  assert (0 <= rate) as Hr0.
  { apply exchange_rate_Ok in Hrate as [[_ ->]|(_ & ? & ->)]; [by wads|]. apply Z.div_pos; wads; nia. }
  assert (0 <= c) as Hc0 by (subst c; apply Z.div_pos; wads; nia).
  pose proof (redeem_bounded r1 c n' r2 Hw1 ltac:(unfold_max; lia) Hr) as Hb.
  pose proof (deposit_dilutes_nobody r n c r1 Hw Hn Hd Hs) as Hdil.
  rewrite EL, ES in *.
  assert (c * owned r <= WAD * n * shares r) by nia.
  assert (c * (owned r + WAD * n) <= WAD * n * (shares r + c)) by nia.
  assert (WAD * WAD * n' * (shares r + c) < WAD * WAD * (n + 1) * (shares r + c)) by (wads; nia).
  assert (0 < WAD * WAD * (shares r + c)) by (wads; nia).
  nia.
Qed.

(** ** Interest *)
Lemma mul_grows a rate : 0 <= a -> WAD <= rate -> a <= a * rate / WAD.
Proof. intros Ha Hr. apply Z.div_le_lower_bound; [by wads|]. nia. Qed.

(** Rounding each step down, [pow_loop] computes at least [ret] and at most
    [ret] times the power of [base] to the even part of the exponent. *)
Definition even_part (e : Z) : Z := 2 * (e / 2).

Lemma even_part_odd e : 0 < e -> e = even_part e + (if Z.odd e then 1 else 0) /\ 0 <= even_part e.
Proof. intros He. unfold even_part. pose proof (Zmod_odd e). pose proof (Z.div_mod e 2). destruct (Z.odd e); lia. Qed.

(** One squaring of the base, and the product with it if the exponent is odd. *)
Lemma pow_step base ret ret' r e :
  WAD <= base -> 0 <= ret -> 0 < e -> 0 <= r ->
  let sq := base * base / WAD in
  ret' = (if Z.odd e then ret * sq / WAD else ret) ->
  ret' <= r -> r * WAD ^ even_part e <= ret' * sq ^ even_part e ->
  ret <= r /\ r * WAD ^ (2 * e) <= ret * base ^ (2 * e).
Proof.
  intros Hb Hr He Hr0 sq Eret Hle Hpow.
  assert (WAD <= sq) as Hsq by (apply Z.div_le_lower_bound; wads; nia).
  assert (sq * WAD <= base * base) as Hsq' by (apply floor_mul_floor; wads; nia).
  destruct (even_part_odd e He) as [Ee Hp]. set (p := even_part e) in *.
  assert (r * WAD ^ e <= ret * sq ^ e) as Hone.
  { rewrite Ee. destruct (Z.odd e); [|rewrite Z.add_0_r; by subst ret'].
    rewrite !Z.pow_add_r, !Z.pow_1_r by lia.
    pose proof (floor_mul_floor (ret * sq) WAD ltac:(wads; nia) ltac:(by wads)) as Hf. rewrite <- Eret in Hf.
    pose proof (Z.pow_nonneg sq p ltac:(wads; lia)) as Hsp.
    pose proof (Z.mul_le_mono_nonneg_r _ _ (sq ^ p) Hsp Hf).
    pose proof (Z.mul_le_mono_nonneg_r _ _ WAD ltac:(by wads) Hpow). lia. }
  split.
  - etrans; [|exact Hle]. destruct (Z.odd e); subst ret'; [by apply mul_grows|done].
  - assert ((sq * WAD) ^ e <= (base * base) ^ e) as Hm by (apply Z.pow_le_mono_l; wads; lia).
    rewrite !Z.pow_mul_l in Hm. replace (2 * e) with (e + e) by lia. rewrite !Z.pow_add_r by lia.
    pose proof (Z.pow_nonneg WAD e ltac:(by wads)) as HW.
    pose proof (Z.mul_le_mono_nonneg_r _ _ (WAD ^ e) HW Hone).
    pose proof (Z.mul_le_mono_nonneg_l _ _ ret Hr Hm). lia.
Qed.

Definition pow_bounded (exp : positive) : Prop := forall base ret r,
  WAD <= base -> 0 <= ret -> Rate.pow_loop exp base ret = Ok r ->
  ret <= r /\ r * WAD ^ even_part (Zpos exp) <= ret * base ^ even_part (Zpos exp).

Lemma pow_loop_step exp base ret r :
  pow_bounded exp -> WAD <= base -> 0 <= ret ->
  (sq ← Rate.try_mul base base;
   ret ← (if Z.odd (Zpos exp) then Rate.try_mul ret sq else Ok ret);
   Rate.pow_loop exp sq ret) = Ok r ->
  ret <= r /\ r * WAD ^ (2 * Zpos exp) <= ret * base ^ (2 * Zpos exp).
Proof.
  intros IH Hb Hr H. inv_math. rename x into sq, x0 into ret'. subst sq.
  assert (WAD <= base * base / WAD) as Hsq by (apply Z.div_le_lower_bound; wads; nia).
  assert (ret' = if Z.odd (Zpos exp) then ret * (base * base / WAD) / WAD else ret) as E
    by (destruct (Z.odd (Zpos exp)); inv_math; subst; done).
  assert (0 <= ret') by (subst ret'; destruct (Z.odd (Zpos exp)); [apply Z.div_pos; [apply Z.mul_nonneg_nonneg; [done|wads; lia]|by wads]|done]).
  apply IH in H as [Hle Hpow]; [|done..].
  eapply pow_step; [done|done|done|lia|exact E|exact Hle|exact Hpow].
Qed.

Lemma pow_loop_bounds exp : pow_bounded exp.
Proof.
  induction exp as [exp IH|exp IH|]; intros base ret r Hb Hr H; cbn -[Z.odd] in H.
  - replace (even_part _) with (2 * Zpos exp) by (unfold even_part; f_equal; apply (Z.div_unique _ _ _ 1); lia).
    by apply pow_loop_step.
  - replace (even_part _) with (2 * Zpos exp) by (unfold even_part; f_equal; apply (Z.div_unique _ _ _ 0); lia).
    by apply pow_loop_step.
  - inv_math. subst. change (even_part 1) with 0. lia.
Qed.

Lemma try_pow_bounds base n r :
  WAD <= base -> 0 <= n -> Rate.try_pow base n = Ok r ->
  WAD <= r /\ r * WAD ^ n <= WAD * base ^ n.
Proof.
  intros Hb Hn. unfold Rate.try_pow. destruct n as [|p|]; [|intros H|lia].
  - intros [= <-]. unfold Rate.one. lia.
  - apply pow_loop_bounds in H; [|done|destruct (Z.odd _); unfold Rate.one; wads; lia].
    destruct H as [Hle Hpow]. destruct (even_part_odd (Zpos p) ltac:(lia)) as [E He].
    destruct (Z.odd (Zpos p)); unfold Rate.one in *.
    + split; [lia|]. rewrite E, !Z.pow_add_r, !Z.pow_1_r by lia.
      pose proof (Z.mul_le_mono_nonneg_r _ _ WAD ltac:(by wads) Hpow). lia.
    + split; [done|]. by rewrite E, Z.add_0_r.
Qed.

(** Compounding yields at least simple interest, however the steps are rounded. *)
Lemma mul_interest a b : 0 <= a -> 0 <= b -> WAD + a + b <= (WAD + a) * (WAD + b) / WAD.
Proof. intros Ha Hb. apply Z.div_le_lower_bound; [by wads|]. nia. Qed.

Lemma mul_simple x y a b : 0 <= a -> 0 <= b -> WAD + a <= x -> WAD + b <= y -> WAD + (a + b) <= x * y / WAD.
Proof.
  intros Ha Hb Hx Hy. etrans; [|apply (Z.div_le_mono ((WAD + a) * (WAD + b))); [by wads|]].
  - pose proof (mul_interest a b Ha Hb). lia.
  - apply Z.mul_le_mono_nonneg; wads; lia.
Qed.

Lemma pow_loop_simple exp : forall base ret r i j, 0 <= i -> 0 <= j -> WAD + i <= base -> WAD + j <= ret ->
  Rate.pow_loop exp base ret = Ok r -> WAD + (j + even_part (Zpos exp) * i) <= r.
Proof.
  induction exp as [exp IH|exp IH|]; intros base ret r i j Hi Hj Hb Hr H; cbn -[Z.odd] in H.
  3: inv_math; subst; change (even_part 1) with 0; lia.
  all: inv_math; subst; rename x0 into ret';
    match type of H with Rate.pow_loop _ ?sq _ = _ =>
      assert (WAD + (i + i) <= sq) as Hsq by by apply mul_simple end;
    destruct (even_part_odd (Zpos exp) ltac:(lia)) as [E He];
    match goal with |- context [even_part ?e] =>
      replace (even_part e) with (2 * Zpos exp)
        by (unfold even_part; f_equal; pose proof (Z.div_mod e 2); pose proof (Z.mod_pos_bound e 2); lia) end;
    destruct (Z.odd (Zpos exp)); inv_math; subst;
    [apply (IH _ _ _ (i + i) (j + (i + i))) in H; [nia|lia|lia|done|by apply mul_simple; lia]
    |apply (IH _ _ _ (i + i) j) in H; [nia|lia|lia|done|done]].
Qed.

Lemma try_pow_simple i n r :
  0 <= i -> 0 <= n -> Rate.try_pow (WAD + i) n = Ok r -> WAD + n * i <= r.
Proof.
  intros Hi Hn H. unfold Rate.try_pow in H. destruct n as [|p|]; [inv_ok; unfold Rate.one; lia| |lia].
  destruct (even_part_odd (Zpos p) ltac:(lia)) as [E He].
  destruct (Z.odd (Zpos p)); unfold Rate.one in H.
  - apply (pow_loop_simple _ _ _ _ i i) in H; nia.
  - apply (pow_loop_simple _ _ _ _ i 0) in H; nia.
Qed.

(** The configurations that [check_config] lets through. *)
Record valid_config (g : ReserveConfig.t) : Prop := {
  vc_utilization : 0 <= ReserveConfig.optimal_utilization_rate g <= 100;
  vc_ltv : 0 <= ReserveConfig.loan_to_value_ratio g < ReserveConfig.liquidation_threshold g;
  vc_threshold : ReserveConfig.liquidation_threshold g <= 100;
  vc_bonus : 0 <= ReserveConfig.liquidation_bonus g <= 100;
  vc_min : 0 <= ReserveConfig.min_borrow_rate g <= ReserveConfig.optimal_borrow_rate g;
  vc_max : ReserveConfig.optimal_borrow_rate g <= ReserveConfig.max_borrow_rate g <= u8_max;
  vc_borrow_fee : 0 <= ReserveFees.borrow_fee_wad (ReserveConfig.fees g) < WAD;
  vc_flash_fee : 0 <= ReserveFees.flash_loan_fee_wad (ReserveConfig.fees g) < WAD;
  vc_host_fee : 0 <= ReserveFees.host_fee_percentage (ReserveConfig.fees g) <= 100;
}.

Lemma div_le_one a b : 0 <= a <= b -> 0 < b -> 0 <= a * WAD / b <= WAD.
Proof.
  intros Ha Hb. split; [apply Z.div_pos; wads; nia|]. apply Z.div_le_upper_bound; wads; nia.
Qed.

(** What a reserve has lent. *)
Definition lent (r : Reserve.t) : Z := ReserveLiquidity.borrowed_amount_wads (Reserve.liquidity r).
Definition index_of (r : Reserve.t) : Z :=
  ReserveLiquidity.cumulative_borrow_rate_wads (Reserve.liquidity r).

(** The part of the reserve that is lent. *)
Definition utilization (r : Reserve.t) : Z :=
  let total := WAD * ReserveLiquidity.available_amount (Reserve.liquidity r) + lent r in
  if total =? 0 then 0 else lent r * WAD / total.

Lemma utilization_Ok r : wf_reserve r ->
  ReserveLiquidity.utilization_rate (Reserve.liquidity r) = Ok (utilization r) /\ 0 <= utilization r <= WAD.
Proof.
  unfold utilization, lent. intros [_ _ _ [] _ _]. unfold ReserveLiquidity.utilization_rate, ReserveLiquidity.total_supply, Decimal.from.
  set (l := Reserve.liquidity r) in *. set (a := ReserveLiquidity.available_amount l) in *.
  set (b := ReserveLiquidity.borrowed_amount_wads l) in *.
  assert (Decimal.try_add (WAD * a) b = Ok (WAD * a + b)) as ->
    by (apply try_add_Ok; unfold u192_max; wads; unfold_max; lia). cbn.
  unfold Decimal.zero. destruct (Z.eqb_spec (WAD * a + b) 0) as [E|E]; [split; [done|wads; lia]|].
  assert (0 <= b * WAD / (WAD * a + b) <= WAD) as Hu by (apply div_le_one; wads; lia).
  split; [|done].
  assert (Decimal.try_div b (WAD * a + b) = Ok (b * WAD / (WAD * a + b))) as ->
    by (apply try_div_Ok; unfold u192_max; wads; unfold_max; lia). cbn.
  apply rate_try_from_Ok. wads. unfold_max. lia.
Qed.

(** The point of a line between two configured rates that is [n] of the way. *)
Definition rate_between (lo hi n : Z) : Z := Rate.from_percent lo + n * Rate.from_percent (hi - lo) / WAD.

Lemma interpolated n lo hi : 0 <= n <= WAD -> 0 <= lo <= hi -> hi <= u8_max ->
  (d ← ok_or (checked_sub hi lo) overflow;
   r ← Rate.try_mul n (Rate.from_percent d);
   Rate.try_add r (Rate.from_percent lo)) = Ok (rate_between lo hi n) /\
  Rate.from_percent lo <= rate_between lo hi n <= Rate.from_percent hi.
Proof.
  intros Hn Hlo Hhi. unfold checked_sub, rate_between. rewrite (proj2 (Z.leb_le lo hi)) by lia. cbn.
  assert (Rate.try_mul n (Rate.from_percent (hi - lo)) = Ok (n * Rate.from_percent (hi - lo) / WAD)) as ->
    by (apply rate_try_mul_Ok; unfold Rate.from_percent; wads; unfold_max; nia). cbn.
  assert (0 <= n * Rate.from_percent (hi - lo) / WAD <= Rate.from_percent (hi - lo)) as Hr.
  { unfold Rate.from_percent. split; [apply Z.div_pos; wads; nia|]. apply Z.div_le_upper_bound; wads; nia. }
  split; [apply rate_try_add_Ok|]; unfold Rate.from_percent in *; wads; unfold_max; lia.
Qed.

(** The configured curve: from the minimum rate of an idle reserve it rises to
    the optimal rate at the optimal utilization, and from there to the maximum
    rate of a reserve that is lent whole. *)
Definition curve_rate (g : ReserveConfig.t) (u : Z) : Z :=
  let o := Rate.from_percent (ReserveConfig.optimal_utilization_rate g) in
  if (u <? o) || (ReserveConfig.optimal_utilization_rate g =? 100)
  then rate_between (ReserveConfig.min_borrow_rate g) (ReserveConfig.optimal_borrow_rate g) (u * WAD / o)
  else rate_between (ReserveConfig.optimal_borrow_rate g) (ReserveConfig.max_borrow_rate g)
         ((u - o) * WAD / Rate.from_percent (100 - ReserveConfig.optimal_utilization_rate g)).

(** Whatever part of a reserve is lent, the borrow rate is that of the curve,
    between the configured minimum and maximum. *)
Lemma borrow_rate_within_config r : wf_reserve r -> valid_config (Reserve.config r) ->
  let rate := curve_rate (Reserve.config r) (utilization r) in
  Reserve.current_borrow_rate r = Ok rate /\
  Rate.from_percent (ReserveConfig.min_borrow_rate (Reserve.config r)) <= rate
  <= Rate.from_percent (ReserveConfig.max_borrow_rate (Reserve.config r)).
Proof.
  intros Hw []. destruct (utilization_Ok r Hw) as (Hu & Hu1). unfold Reserve.current_borrow_rate, curve_rate.
  rewrite Hu. set (u := utilization r) in *. cbn -[checked_sub].
  set (g := Reserve.config r) in *. set (o := ReserveConfig.optimal_utilization_rate g) in *.
  destruct ((u <? Rate.from_percent o) || (o =? 100)) eqn:E.
  - assert (u <= Rate.from_percent o /\ 0 < Rate.from_percent o) as [Huo Ho].
    { unfold Rate.from_percent in *. to_prop. destruct E; to_prop; wads; lia. }
    assert (Rate.try_div u (Rate.from_percent o) = Ok (u * WAD / Rate.from_percent o)) as ->
      by (apply rate_try_div_Ok; split_and!; [done|lia|wads; unfold_max; lia]). cbn -[checked_sub].
    destruct (interpolated (u * WAD / Rate.from_percent o) (ReserveConfig.min_borrow_rate g)
      (ReserveConfig.optimal_borrow_rate g)) as [Hrate Hb]; [apply div_le_one; lia|done|lia|].
    split; [exact Hrate|]. unfold Rate.from_percent in *. wads. lia.
  - to_prop. assert (Rate.try_sub u (Rate.from_percent o) = Ok (u - Rate.from_percent o)) as ->
      by (unfold Rate.try_sub; rewrite ok_or_Ok; by apply checked_sub_Some). cbn -[checked_sub].
    assert (checked_sub 100 o = Some (100 - o)) as -> by (apply checked_sub_Some; lia). cbn -[checked_sub].
    assert (0 <= u - Rate.from_percent o <= Rate.from_percent (100 - o) /\ 0 < Rate.from_percent (100 - o)) as [Hn Hd]
      by (unfold Rate.from_percent in *; wads; lia).
    assert (Rate.try_div (u - Rate.from_percent o) (Rate.from_percent (100 - o)) =
      Ok ((u - Rate.from_percent o) * WAD / Rate.from_percent (100 - o))) as ->
      by (apply rate_try_div_Ok; split_and!; [done|lia|unfold Rate.from_percent in *; wads; unfold_max; lia]). cbn -[checked_sub].
    destruct (interpolated ((u - Rate.from_percent o) * WAD / Rate.from_percent (100 - o))
      (ReserveConfig.optimal_borrow_rate g) (ReserveConfig.max_borrow_rate g)) as [Hrate Hb];
      [apply div_le_one; lia|lia..|].
    split; [exact Hrate|]. unfold Rate.from_percent in *. wads. lia.
Qed.

Lemma mul_within x c n b : 0 <= x -> 0 <= c -> 0 <= n ->
  c * WAD ^ n <= WAD * b ^ n -> x * c / WAD * WAD ^ n <= x * b ^ n.
Proof.
  intros Hx Hc Hn H. pose proof (floor_mul_floor (x * c) WAD ltac:(nia) ltac:(by wads)) as Hf.
  pose proof (Z.pow_nonneg WAD n ltac:(by wads)) as HW.
  pose proof (Z.mul_le_mono_nonneg_r _ _ (WAD ^ n) HW Hf).
  pose proof (Z.mul_le_mono_nonneg_l _ _ x Hx H).
  apply (Z.mul_le_mono_pos_r _ _ WAD); [by wads|]. lia.
Qed.

(** Interest leaves the tokens and the shares of a reserve as they are; debts
    and the borrow index grow by one factor, between the simple and the
    compounded interest of the elapsed slots at the rate of the curve. *)
Lemma accrue_interest_bounds r slot r' :
  wf_reserve r -> valid_config (Reserve.config r) -> Reserve.accrue_interest r slot = Ok r' ->
  let n := slot - LastUpdate.slot (Reserve.last_update r) in
  let rate := curve_rate (Reserve.config r) (utilization r) / SLOTS_PER_YEAR in
  0 <= n /\ 0 <= rate /\ shares r' = shares r /\
  ReserveLiquidity.available_amount (Reserve.liquidity r') =
  ReserveLiquidity.available_amount (Reserve.liquidity r) /\
  exists factor, WAD + n * rate <= factor /\ factor * WAD ^ n <= WAD * (WAD + rate) ^ n /\
    lent r' = lent r * factor / WAD /\ index_of r' = index_of r * factor / WAD.
Proof.
  intros Hw Hc H n rate. destruct (borrow_rate_within_config r Hw Hc) as [Hrate Hb].
  unfold Reserve.accrue_interest, LastUpdate.slots_elapsed in H.
  inv_math. rename x into n0. subst n0. fold n in H. assert (0 <= n) as Hn by (unfold n; lia).
  assert (0 <= rate) as Hr0.
  { apply Z.div_pos; [|done]. destruct Hc; unfold Rate.from_percent in *; wads; lia. }
  case_if H; to_prop.
  - rewrite Hrate in H. cbn in H. unfold ReserveLiquidity.compound_interest, Rate.try_div_u64 in H. inv_math.
    match goal with Hp : Rate.try_pow _ _ = Ok ?p |- _ => rename p into c, Hp into Hpow end.
    subst. change (Rate.one + _) with (WAD + rate) in Hpow. split_and!; try done; try lia.
    exists c. pose proof (try_pow_simple _ _ _ Hr0 Hn Hpow). apply try_pow_bounds in Hpow as [_ ?]; [|lia..].
    by split_and!.
  - inv_ok. assert (n = 0) as -> by lia. split_and!; try done. exists WAD.
    split_and!; [lia|cbn; lia|by rewrite Z.div_mul by (by wads)..].
Qed.

(** ** Loans *)
Lemma floor_le a b c : 0 < c -> a <= b * c -> a / c <= b.
Proof. intros Hc H. rewrite <- (Z.div_mul b c) by lia. by apply Z.div_le_mono. Qed.

Lemma calculate_fees_Ok f amount fee_wad k fee host :
  0 <= fee_wad -> 0 <= ReserveFees.host_fee_percentage f <= 100 ->
  ReserveFees.calculate_fees f amount fee_wad k = Ok (fee, host) -> 0 <= host <= fee.
Proof.
  intros Hf Hh H. unfold ReserveFees.calculate_fees in H. case_if H; [|inv_ok; lia].
  inv_ok. match goal with Hx : match k with Exclusive => _ | Inclusive => _ end = Ok ?x |- _ => clear Hx; rename x into e end.
  set (h := Rate.from_percent (ReserveFees.host_fee_percentage f)) in *.
  assert (0 <= h <= WAD) as Hh1 by (unfold h, Rate.from_percent; wads; lia). unfold Rate.zero in *.
  match goal with Hx : (if 0 <? h then _ else _) = Ok _ |- _ => case_if Hx; inv_math end;
    unfold Decimal.from in *.
  - subst. set (d := Z.max e (WAD * 2)) in *.
    assert (d * h / WAD <= d) by (apply floor_le; [by wads|nia]).
    assert ((HALF_WAD + d * h / WAD) / WAD <= (HALF_WAD + d) / WAD) by (apply Z.div_le_mono; wads; lia).
    assert (1 <= (HALF_WAD + d) / WAD) by (apply Z.div_le_lower_bound; wads; lia). lia.
  - subst. split; [done|]. apply Z.div_pos; wads; lia.
Qed.

(** A loan that is granted is worth at most what may still be borrowed, and is
    paid out whole: what the borrower receives and the fee add up to what is
    taken from the reserve, and the host's part is a part of the fee. *)
Lemma calculate_borrow_Ok r n v res :
  wf_reserve r -> valid_config (Reserve.config r) -> is_u64 n -> 0 <= v ->
  0 < ReserveLiquidity.market_price (Reserve.liquidity r) ->
  Reserve.calculate_borrow r n v = Ok res ->
  borrow_amount res / WAD = receive_amount res + borrow_fee res /\
  0 <= receive_amount res /\ 0 <= host_fee res <= borrow_fee res /\
  borrow_amount res * ReserveLiquidity.market_price (Reserve.liquidity r) / WAD
    / 10 ^ ReserveLiquidity.mint_decimals (Reserve.liquidity r) <= v.
Proof.
  intros Hw [] Hn Hv Hprice H. destruct Hw as [_ _ _ [] _ _].
  unfold Reserve.calculate_borrow, checked_pow10, ReserveFees.calculate_borrow_fees in H. inv_ok.
  set (price := ReserveLiquidity.market_price (Reserve.liquidity r)) in *.
  set (d := ReserveLiquidity.mint_decimals (Reserve.liquidity r)) in *.
  match goal with Hd : (if _ then _ else _) = Some _ |- _ => case_if Hd; [|done] end. inv_ok.
  pose proof (Z.pow_pos_nonneg 10 d ltac:(lia) ltac:(lia)) as Hp.
  case_if H; inv_ok;
    match goal with Hfee : ReserveFees.calculate_fees _ _ _ _ = Ok _ |- _ =>
      apply calculate_fees_Ok in Hfee; [|lia..] end; inv_math; subst; cbn [borrow_amount receive_amount borrow_fee host_fee].
  - split_and!; try lia. apply floor_le; [done|].
    assert (v * 10 ^ d * WAD / price * price <= v * 10 ^ d * WAD) by (apply floor_mul_floor; wads; nia).
    apply floor_le; [by wads|]. etrans; [|done]. apply Z.mul_le_mono_nonneg_r; [lia|]. apply Z.le_min_l.
  - unfold Decimal.from in *. split_and!; try lia.
    replace (WAD * n + WAD * _) with ((n + z) * WAD) by lia. apply Z.div_mul. by wads.
Qed.

(** ** Liquidation *)
Section Liquidation.
Context (r : Reserve.t) (o : Obligation.t) (l : ObligationLiquidity.t) (c : ObligationCollateral.t).
Context (Hl : wf_borrow l) (Hc : wf_deposit c) (Ho : 0 <= Obligation.borrowed_value o).
Context (Hbonus : 0 <= ReserveConfig.liquidation_bonus (Reserve.config r) <= 100).
Context (Hlv : 0 < ObligationLiquidity.market_value l) (Hcv : 0 < ObligationCollateral.market_value c).
Abbreviation debt := (ObligationLiquidity.borrowed_amount_wads l).
Abbreviation debt_value := (ObligationLiquidity.market_value l).
Abbreviation deposit := (ObligationCollateral.deposited_amount c).
Abbreviation value := (ObligationCollateral.market_value c).

(** With its bonus the liquidator gets collateral worth [lv], if there is so
    much, for at most [bonus] times the value of the debt. *)
Definition seized (w lv bonus : Z) : Prop :=
  0 <= w <= deposit /\ w * value <= deposit * lv /\ lv * WAD <= debt_value * bonus.

Lemma seized_all lv bonus : value <= lv -> lv * WAD <= debt_value * bonus -> seized deposit lv bonus.
Proof. intros. destruct Hc. split_and!; try lia. nia. Qed.

Lemma seized_part lv bonus : 0 <= lv < value -> lv * WAD <= debt_value * bonus ->
  seized (WAD * deposit * (lv * WAD / value) / WAD / WAD) lv bonus.
Proof.
  intros Hlt Hb. destruct Hc. set (pct := lv * WAD / value).
  assert (0 <= pct <= WAD) as Hpct by (apply div_le_one; lia).
  rewrite <- Z.mul_assoc, (Z.mul_comm WAD), Z.div_mul by (by wads).
  pose proof (floor_mul_floor (deposit * pct) WAD ltac:(nia) ltac:(by wads)) as Hf.
  assert (0 <= deposit * pct / WAD) by (apply Z.div_pos; wads; nia).
  assert (pct * value <= lv * WAD) by (apply floor_mul_floor; wads; nia).
  split_and!; [done|apply floor_le; wads; nia| |done].
  apply (Z.mul_le_mono_pos_r _ _ WAD); [by wads|]. nia.
Qed.

(** The collateral seized against the part [s] of the debt that is settled, up to
    the rounding of [s] and of the share of the debt. *)
Definition paid_for (w s bonus : Z) : Prop :=
  w * value * debt * (WAD * WAD) <= deposit * debt_value * bonus * ((s + 1) * WAD + debt).

Lemma paid_for_exactly w lv s bonus :
  0 <= s -> 0 <= bonus -> w * value <= deposit * lv -> lv * (WAD * debt) <= debt_value * s * bonus ->
  paid_for w s bonus.
Proof.
  intros Hs Hb Hw Hlvb. destruct Hc, Hl. unfold paid_for.
  assert (w * value * (WAD * debt) <= deposit * (debt_value * s * bonus)) as H1.
  { etrans; [apply Z.mul_le_mono_nonneg_r; [wads; lia|exact Hw]|]. rewrite <- Z.mul_assoc.
    apply Z.mul_le_mono_nonneg_l; lia. }
  pose proof (Z.mul_le_mono_nonneg_r _ _ WAD ltac:(by wads) H1) as H2.
  assert (0 <= deposit * debt_value * bonus) as H3 by (repeat apply Z.mul_nonneg_nonneg; lia).
  pose proof (Z.mul_le_mono_nonneg_l (s * WAD) ((s + 1) * WAD + debt) _ H3 ltac:(wads; lia)). lia.
Qed.

Lemma paid_for_less lv liq s bonus :
  0 < liq <= debt -> 0 <= s -> 0 <= bonus -> 0 <= lv -> lv * (WAD * debt) <= debt_value * liq * bonus ->
  value * WAD * liq <= lv * ((s + 1) * WAD + liq) -> paid_for deposit s bonus.
Proof.
  intros Hliq Hs Hb Hlv0 H1 H2. destruct Hc, Hl. unfold paid_for. set (T := (s + 1) * WAD + liq) in *.
  assert (0 <= T) as HT by (unfold T; wads; lia).
  pose proof (Z.mul_le_mono_nonneg_r _ _ (WAD * debt) ltac:(wads; lia) H2) as H3.
  pose proof (Z.mul_le_mono_nonneg_r _ _ T HT H1) as H4.
  assert (value * debt * (WAD * WAD) <= debt_value * bonus * T) as H5
    by (apply (Z.mul_le_mono_pos_r _ _ liq); lia).
  pose proof (Z.mul_le_mono_nonneg_l _ _ deposit ltac:(lia) H5) as H6.
  assert (0 <= deposit * debt_value * bonus) as H7 by (repeat apply Z.mul_nonneg_nonneg; lia).
  pose proof (Z.mul_le_mono_nonneg_l T ((s + 1) * WAD + debt) _ H7 ltac:(unfold T; lia)). lia.
Qed.

Lemma close_out_Ok m bonus res :
  WAD <= bonus -> 0 <= m <= debt -> Reserve.close_out l c m bonus = Ok res ->
  settle_amount res = debt /\ (exists lv, seized (withdraw_amount res) lv bonus).
Proof.
  intros Hb Hm H. unfold Reserve.close_out in H. inv_math. subst x.
  set (lv := debt_value * bonus / WAD) in *.
  assert (lv * WAD <= debt_value * bonus) as Hlvb by (apply floor_mul_floor; wads; nia).
  assert (0 <= lv) by (apply Z.div_pos; wads; nia).
  destruct (Z.compare_spec lv value); inv_math; subst; cbn; (split; [done|]); exists lv;
    [apply seized_all|apply seized_part|apply seized_all]; lia.
Qed.

Lemma rounded_down a : a - WAD < a / WAD * WAD <= a.
Proof. pose proof (Z.div_mod a WAD ltac:(by wads)). pose proof (Z.mod_pos_bound a WAD ltac:(by wads)). lia. Qed.
Lemma rounded_up a : a <= (WAD - 1 + a) / WAD * WAD < a + WAD.
Proof. pose proof (rounded_down (WAD - 1 + a)). lia. Qed.

(** The close factor: what may be settled is worth half of all debts. *)
Lemma close_factor most :
  Obligation.max_liquidation_amount o l = Ok most ->
  0 <= most <= debt /\ forall s, 0 <= s <= most -> 2 * (s * debt_value) <= debt * Obligation.borrowed_value o.
Proof.
  unfold Obligation.max_liquidation_amount, Rate.from_percent, LIQUIDATION_CLOSE_FACTOR. intros H. inv_math.
  destruct Hl. subst. set (v := Obligation.borrowed_value o * _ / WAD) in *.
  assert (0 <= v) as Hv0 by (apply Z.div_pos; wads; lia).
  assert (2 * v <= Obligation.borrowed_value o) as Hv.
  { pose proof (rounded_down (Obligation.borrowed_value o * (50 * PERCENT_SCALER))). unfold v. wads. lia. }
  set (pct := Z.min v debt_value * WAD / debt_value).
  assert (0 <= pct <= WAD) as Hpct by (apply div_le_one; lia).
  assert (pct * debt_value <= Z.min v debt_value * WAD) by (apply floor_mul_floor; wads; nia).
  pose proof (rounded_down (debt * pct)) as Hf. set (most := debt * pct / WAD) in *.
  assert (0 <= most) by (apply Z.div_pos; wads; nia). split; [split; [done|apply floor_le; wads; nia]|].
  intros s Hs. assert (most * debt_value <= debt * v); cycle 1.
  { pose proof (Z.mul_le_mono_nonneg_r s most debt_value ltac:(lia) ltac:(lia)).
    pose proof (Z.mul_le_mono_nonneg_l _ _ debt ltac:(lia) Hv). lia. }
  apply (Z.mul_le_mono_pos_r _ _ WAD); [by wads|].
  pose proof (Z.mul_le_mono_nonneg_r _ _ debt_value ltac:(lia) (proj2 Hf)).
  assert (pct * debt_value <= v * WAD) as Hpv by (wads; lia).
  pose proof (Z.mul_le_mono_nonneg_l _ _ debt ltac:(lia) Hpv). lia.
Qed.

(** The value to seize for the part [liq] of the debt. *)
Lemma liquidation_share liq bonus :
  0 <= liq -> 0 < debt -> 0 <= bonus ->
  debt_value * (liq * WAD / debt) / WAD * bonus / WAD * (WAD * debt) <= debt_value * liq * bonus.
Proof.
  intros Hliq Hd Hb. set (pct := liq * WAD / debt). set (v := debt_value * pct / WAD).
  assert (pct * debt <= liq * WAD) as H1 by (apply floor_mul_floor; wads; nia).
  pose proof (proj2 (rounded_down (debt_value * pct))) as H2. fold v in H2.
  pose proof (proj2 (rounded_down (v * bonus))) as H3.
  apply (Z.mul_le_mono_pos_r _ _ WAD); [by wads|].
  pose proof (Z.mul_le_mono_nonneg_r _ _ (WAD * debt) ltac:(wads; lia) H3).
  pose proof (Z.mul_le_mono_nonneg_r _ _ (bonus * debt) ltac:(nia) H2).
  pose proof (Z.mul_le_mono_nonneg_l _ _ (debt_value * bonus) ltac:(nia) H1). lia.
Qed.

(** Of a larger debt, at most half of the value of all debts is settled, and no
    more than asked for. *)
Lemma liquidate_part_Ok m bonus res :
  WAD <= bonus -> 0 <= m <= debt -> 0 < debt -> Reserve.liquidate_part o l c m bonus = Ok res ->
  0 <= settle_amount res <= m /\
  2 * (settle_amount res * debt_value) <= debt * Obligation.borrowed_value o /\
  settle_amount res - WAD < repay_amount res * WAD < settle_amount res + WAD /\
  (exists lv, seized (withdraw_amount res) lv bonus) /\
  paid_for (withdraw_amount res) (settle_amount res) bonus.
Proof.
  intros Hb Hm Hd H. unfold Reserve.liquidate_part in H. inv_ok.
  match goal with Hx : Obligation.max_liquidation_amount _ _ = Ok ?x |- _ =>
    apply close_factor in Hx as [Hx Hhalf]; rename x into most end. inv_math. subst.
  set (liq := Z.min most m) in *. set (lpct := liq * WAD / debt) in *.
  set (lval := debt_value * lpct / WAD) in *. set (lv := lval * bonus / WAD) in *.
  assert (0 <= lpct <= WAD) as Hlp by (apply div_le_one; lia).
  assert (0 <= lval <= debt_value) as Hlval by (split; [apply Z.div_pos; wads; nia|apply floor_le; wads; nia]).
  assert (0 <= lv) as Hlv0 by (apply Z.div_pos; wads; nia).
  assert (lv * WAD <= debt_value * bonus) as Hlvb by (pose proof (rounded_down (lval * bonus)); nia).
  assert (lv * (WAD * debt) <= debt_value * liq * bonus) as Hshare by (apply liquidation_share; wads; lia).
  destruct (Z.compare_spec lv value); inv_math; subst; cbn.
  - pose proof (rounded_up liq). assert (seized deposit lv bonus) as Hs by (apply seized_all; lia).
    split_and!; try lia; [apply Hhalf; lia|by exists lv|]. by eapply paid_for_exactly; [lia|lia|apply Hs|].
  - pose proof (rounded_down liq). pose proof (seized_part lv bonus ltac:(lia) Hlvb) as Hs.
    split_and!; try lia; [apply Hhalf; lia|by exists lv|]. by eapply paid_for_exactly; [lia|lia|apply Hs|].
  - set (rp := value * WAD / lv) in *. assert (0 <= rp <= WAD) as Hrp by (apply div_le_one; lia).
    set (s := liq * rp / WAD) in *.
    assert (0 <= s <= liq) by (split; [apply Z.div_pos; wads; nia|apply floor_le; wads; nia]).
    pose proof (rounded_up s). split_and!; try lia; [apply Hhalf; lia|exists lv; apply seized_all; lia|].
    apply (paid_for_less lv liq); try lia; [assert (liq <> 0); [|lia]|].
    + intros E. rewrite E, Z.mul_0_r in Hshare. assert (0 < lv * (WAD * debt)) by (apply Z.mul_pos_pos; wads; lia). lia.
    + pose proof (rounded_down (liq * rp)). fold s in H3.
      pose proof (Z.div_mod (value * WAD) lv ltac:(lia)). pose proof (Z.mod_pos_bound (value * WAD) lv ltac:(lia)).
      fold rp in H4. nia.
Qed.

(** What a liquidation may take: never more than the debt and the deposit; of a
    debt of two tokens or more at most what was offered and half of the value of
    all debts, rounded to whole tokens; and for the whole collateral taken at
    most the debt's value with the bonus. *)
Lemma liquidation_bounds n res :
  is_u64 n -> Reserve.calculate_liquidation r n o l c = Ok res ->
  let bonus := Rate.from_percent (ReserveConfig.liquidation_bonus (Reserve.config r)) + WAD in
  0 <= settle_amount res <= debt /\ 0 <= withdraw_amount res <= deposit /\
  withdraw_amount res * value * WAD <= deposit * (debt_value * bonus) /\
  (2 * WAD <= debt ->
     (n <> u64_max -> settle_amount res <= n * WAD) /\
     2 * (settle_amount res * debt_value) <= debt * Obligation.borrowed_value o /\
     settle_amount res - WAD < repay_amount res * WAD < settle_amount res + WAD /\
     paid_for (withdraw_amount res) (settle_amount res) bonus).
Proof.
  intros Hn H bonus. destruct Hl, Hc. unfold Reserve.calculate_liquidation in H. inv_math. unfold Rate.one in *.
  match goal with Hx : ?x = _ + WAD |- _ => fold bonus in Hx; subst x end.
  assert (WAD <= bonus) as Hb by (unfold bonus, Rate.from_percent; wads; lia).
  unfold Decimal.from, LIQUIDATION_CLOSE_AMOUNT in H.
  set (m := if n =? u64_max then debt else Z.min (WAD * n) debt) in *.
  assert (0 <= m <= debt /\ (n <> u64_max -> m <= n * WAD)) as [Hm Hmn]
    by (unfold m; destruct (Z.eqb_spec n u64_max); wads; lia).
  case_if H; to_prop.
  - apply close_out_Ok in H as (-> & lv & Hw & Hv & Hlb); [|done..].
    split_and!; try lia. nia.
  - apply liquidate_part_Ok in H as (Hs & Hhalf & Hr & (lv & Hw & Hv & Hlb) & Hp); [|done..|wads; lia].
    split_and!; try done; try lia; [nia|]. intros _. by split_and!; try lia.
Qed.
End Liquidation.
