(* ===== verification/LendingTheorems.v ===== *)
(** * Token lending: what lenders, borrowers and liquidators can rely on

    The properties of reserves and obligations in terms of the program's own
    checks, and the sample reserve that shows that their premises can hold.
    The last theorem is about a defect: a new debt is charged the interest of
    the time before it was taken. *)

From stdpp Require Import base list.
From Stdlib Require Import ZArith Lia.
From S2P Require Import Prelude Sdk LendingMath LendingState LendingPack LendingReserve LendingProcessor.

Lemma checked_config g : wf_config g -> check_config g = Ok tt -> valid_config g.
Proof.
  intros [] H. unfold check_config in H. inv_ok. to_prop. split; lia.
Qed.

(** C18: Shares keep their worth. A deposit into a reserve that has issued
    shares leaves at least as much owned per share as there was before;
    and whoever redeems the shares of a deposit at once gets no more than
    was deposited, as long as what is redeemed is too small for the
    rounding of the exchange rate to matter. *)
Theorem lending_shares_keep_worth r n c r1 :
  wf_reserve r -> is_u64 n -> Reserve.deposit_liquidity r n = Ok (c, r1) -> 0 < shares r ->
  owned r * shares r1 <= owned r1 * shares r /\
  forall n' r2, wf_reserve r1 -> Reserve.redeem_collateral r1 c = Ok (n', r2) ->
    n' * owned r1 < WAD * WAD * shares r1 -> n' <= n.
Proof.
  intros Hr Hn Hd Hs. split; [by eapply deposit_dilutes_nobody|].
  intros n' r2 Hr1 Hred Hp. exact (deposit_then_redeem _ _ _ _ _ _ Hr Hr1 Hn Hd Hred Hs Hp).
Qed.

(** C36: Interest follows the configured curve. With a configuration that the
    program accepts, interest is charged at the rate per year that the
    curve gives for the part of the reserve that is lent (curve_rate: from
    the minimum rate up to the optimal rate at the optimal utilization,
    then up to the maximum rate), which lies between the configured
    minimum and maximum. The debts and the cumulative rate grow by one and
    the same factor, at least the simple and at most the compounded
    interest of that rate per slot over the slots that passed; shares and
    available liquidity stay the same. *)
Theorem interest_within_config r slot r' :
  wf_reserve r -> check_config (Reserve.config r) = Ok tt -> Reserve.accrue_interest r slot = Ok r' ->
  let g := Reserve.config r in
  let rate := curve_rate g (utilization r) in
  let per_slot := rate / SLOTS_PER_YEAR in
  let n := slot - LastUpdate.slot (Reserve.last_update r) in
  Rate.from_percent (ReserveConfig.min_borrow_rate g) <= rate
  <= Rate.from_percent (ReserveConfig.max_borrow_rate g) /\
  shares r' = shares r /\
  ReserveLiquidity.available_amount (Reserve.liquidity r') =
  ReserveLiquidity.available_amount (Reserve.liquidity r) /\
  0 <= n /\ exists factor,
    WAD + n * per_slot <= factor /\ factor * WAD ^ n <= WAD * (WAD + per_slot) ^ n /\
    lent r' = lent r * factor / WAD /\ index_of r' = index_of r * factor / WAD.
Proof.
  intros Hr Hc H g rate per_slot n. apply checked_config in Hc; [|apply Hr].
  destruct (accrue_interest_bounds _ _ _ Hr Hc H) as (? & _ & ? & ? & ?).
  split_and!; try done; by apply borrow_rate_within_config.
Qed.

(** C20: Loans stay within what the collateral allows. A loan that is granted,
    at the price the reserve records, brings the debts of the obligation
    to at most what may be borrowed against its deposits; what the
    borrower receives and the fee add up to what is taken from the
    reserve, and the host's part is a part of the fee. *)
Theorem loans_within_limits r o n v res :
  wf_reserve r -> check_config (Reserve.config r) = Ok tt -> is_u64 n ->
  0 < ReserveLiquidity.market_price (Reserve.liquidity r) ->
  Obligation.remaining_borrow_value o = Ok v -> Reserve.calculate_borrow r n v = Ok res ->
  Obligation.borrowed_value o +
    borrow_amount res * ReserveLiquidity.market_price (Reserve.liquidity r) / WAD
    / 10 ^ ReserveLiquidity.mint_decimals (Reserve.liquidity r) <= Obligation.allowed_borrow_value o /\
  borrow_amount res / WAD = receive_amount res + borrow_fee res /\
  0 <= receive_amount res /\ 0 <= host_fee res <= borrow_fee res.
Proof.
  intros Hr Hc Hn Hp Hv H. unfold Obligation.remaining_borrow_value in Hv. inv_math.
  apply checked_config in Hc; [|apply Hr].
  apply calculate_borrow_Ok in H as (? & ? & ? & ?); try done; [|lia]. split_and!; try done; lia.
Qed.

(** C19: Liquidation is bounded. Of a debt with its collateral, a liquidator
    settles at most the debt and takes at most the deposit, worth at most
    the value of the debt with the configured bonus. Of a debt of two
    tokens or more no more is settled than was asked for, and no more than
    is worth half of all debts of the obligation; what is settled is paid
    for up to the rounding to whole tokens, and the part of the deposit
    taken for it is worth at most the settled part of the debt with the
    bonus, up to the rounding in the eighteenth decimal of the settled
    amount and of its share of the debt. *)
Theorem liquidation_within_limits r o l c n res :
  wf_borrow l -> wf_deposit c -> wf_obligation o -> wf_reserve r ->
  check_config (Reserve.config r) = Ok tt -> is_u64 n ->
  0 < ObligationLiquidity.market_value l -> 0 < ObligationCollateral.market_value c ->
  Reserve.calculate_liquidation r n o l c = Ok res ->
  let debt := ObligationLiquidity.borrowed_amount_wads l in
  let debt_value := ObligationLiquidity.market_value l in
  let deposit := ObligationCollateral.deposited_amount c in
  let value := ObligationCollateral.market_value c in
  let bonus := Rate.from_percent (ReserveConfig.liquidation_bonus (Reserve.config r)) + WAD in
  0 <= settle_amount res <= debt /\ 0 <= withdraw_amount res <= deposit /\
  withdraw_amount res * value * WAD <= deposit * (debt_value * bonus) /\
  (2 * WAD <= debt ->
     (n <> u64_max -> settle_amount res <= n * WAD) /\
     2 * (settle_amount res * debt_value) <= debt * Obligation.borrowed_value o /\
     settle_amount res - WAD < repay_amount res * WAD < settle_amount res + WAD /\
     withdraw_amount res * value * debt * (WAD * WAD) <=
       deposit * debt_value * bonus * ((settle_amount res + 1) * WAD + debt)).
Proof.
  intros Hl Hc Ho Hr Hg Hn Hlv Hcv H. apply checked_config in Hg; [|apply Hr].
  eapply liquidation_bounds; try done; [destruct Ho; lia|apply Hg].
Qed.

(** C37: The stored formats lose nothing: a market, reserve or obligation that
    the program stores, which it does only while it is initialized, is
    read back as it was, whatever the account held before. *)
Theorem lending_records_roundtrip :
  (forall (m : LendingMarket.t) dst d, wf_market m -> is_initialized m = true ->
     pack_state (fun _ => true) m dst = Ok d -> unpack d = Ok m) /\
  (forall (r : Reserve.t) dst d, wf_reserve r -> is_initialized r = true ->
     pack_state Reserve_packable r dst = Ok d -> unpack d = Ok r) /\
  (forall (o : Obligation.t) dst d, wf_obligation o -> is_initialized o = true ->
     pack_state Obligation_packable o dst = Ok d -> unpack d = Ok o).
Proof.
  split_and!; intros x dst d Hw Hi (Hl & _ & ->)%pack_state_Ok.
  all: apply unpack_Ok; split_and!; [by apply pack_length|by apply unpack_pack_slice|done].
Qed.

(** C38: A new debt is charged the interest of the past. The entry that a
    first borrow from a reserve adds starts from a cumulative rate of one
    and not from the reserve's: brought up to the reserve's rate, the debt
    is the loan times all interest the reserve has accrued since it was
    opened. *)
Theorem new_debt_charged_past_interest o k d o' :
  Obligation.find_liquidity_index_in_borrows o k = None ->
  borrow_liquidity o k d = Ok o' ->
  exists l, Obligation.borrows o' = Obligation.borrows o ++ [l] /\
    ObligationLiquidity.borrow_reserve l = k /\ ObligationLiquidity.borrowed_amount_wads l = d /\
    forall rate l', WAD < rate -> ObligationLiquidity.accrue_interest l rate = Ok l' ->
      ObligationLiquidity.borrowed_amount_wads l' = d * rate / WAD.
Proof.
  intros Hf H. unfold borrow_liquidity, Obligation.find_or_add_liquidity_to_borrows, ObligationLiquidity.borrow in H.
  rewrite Hf in H. inv_math. cbn in *.
  match goal with Hl : (_ !! _) = Some _ |- _ => rewrite list_lookup_middle in Hl by done; injection Hl as <- end.
  eexists. split; [by rewrite insert_app_r_alt, Nat.sub_diag by done|]. cbn in *. unfold Decimal.zero in *. split_and!; [done|lia|].
  intros rate l' Hrate Ha. unfold ObligationLiquidity.accrue_interest in Ha. cbn in Ha.
  rewrite (proj2 (Z.compare_gt_iff _ _)) in Ha by done. inv_math. subst. cbn. unfold Decimal.one, Decimal.zero in *.
  by rewrite Z.div_mul by (by wads).
Qed.

(** ** A sample reserve *)
Module LendingSample.
Definition key_of (n : Z) : Pubkey := n :: replicate 31 0.

(** Half of a thousand tokens is lent; six hundred shares were issued. *)
Definition config : ReserveConfig.t :=
  {| ReserveConfig.optimal_utilization_rate := 80; ReserveConfig.loan_to_value_ratio := 50;
     ReserveConfig.liquidation_bonus := 5; ReserveConfig.liquidation_threshold := 55;
     ReserveConfig.min_borrow_rate := 0; ReserveConfig.optimal_borrow_rate := 4;
     ReserveConfig.max_borrow_rate := 30;
     ReserveConfig.fees :=
       {| ReserveFees.borrow_fee_wad := 10 ^ 16; ReserveFees.flash_loan_fee_wad := 3 * 10 ^ 15;
          ReserveFees.host_fee_percentage := 20 |} |}.
Definition reserve : Reserve.t :=
  {| Reserve.version := 1;
     Reserve.last_update := {| LastUpdate.slot := 1000; LastUpdate.stale := false |};
     Reserve.lending_market := key_of 1;
     Reserve.liquidity :=
       {| ReserveLiquidity.mint_pubkey := key_of 2; ReserveLiquidity.mint_decimals := 0;
          ReserveLiquidity.supply_pubkey := key_of 3; ReserveLiquidity.fee_receiver := key_of 4;
          ReserveLiquidity.oracle_pubkey := key_of 5; ReserveLiquidity.available_amount := 500;
          ReserveLiquidity.borrowed_amount_wads := 500 * WAD;
          ReserveLiquidity.cumulative_borrow_rate_wads := 2 * WAD;
          ReserveLiquidity.market_price := 3 * WAD |};
     Reserve.collateral :=
       {| ReserveCollateral.mint_pubkey := key_of 6; ReserveCollateral.mint_total_supply := 600;
          ReserveCollateral.supply_pubkey := key_of 7 |};
     Reserve.config := config |}.
Definition deposit : ObligationCollateral.t :=
  {| ObligationCollateral.deposit_reserve := key_of 8; ObligationCollateral.deposited_amount := 100;
     ObligationCollateral.market_value := 1000 * WAD |}.
Definition debt : ObligationLiquidity.t :=
  {| ObligationLiquidity.borrow_reserve := key_of 9;
     ObligationLiquidity.cumulative_borrow_rate_wads := WAD;
     ObligationLiquidity.borrowed_amount_wads := 200 * WAD;
     ObligationLiquidity.market_value := 600 * WAD |}.
Definition obligation : Obligation.t :=
  {| Obligation.version := 1;
     Obligation.last_update := {| LastUpdate.slot := 1000; LastUpdate.stale := false |};
     Obligation.lending_market := key_of 1; Obligation.owner := key_of 10;
     Obligation.deposits := [deposit]; Obligation.borrows := [debt];
     Obligation.deposited_value := 1000 * WAD; Obligation.borrowed_value := 600 * WAD;
     Obligation.allowed_borrow_value := 900 * WAD; Obligation.unhealthy_borrow_value := 550 * WAD |}.
Definition market : LendingMarket.t :=
  LendingMarket.init 254 (key_of 10) (key_of 11) (key_of 12) (key_of 13).

Ltac in_range :=
  repeat match goal with
  | |- wf_key _ => split; [reflexivity|]
  | |- bytes _ => unfold key_of; repeat constructor; lia
  | |- Forall _ _ => constructor
  | |- _ /\ _ => split
  end; try (vm_compute; congruence).

Lemma reserve_wf : wf_reserve reserve.
Proof. repeat (constructor || in_range). Qed.
Lemma obligation_wf : wf_obligation obligation.
Proof. repeat (constructor || in_range). Qed.
Lemma market_wf : wf_market market.
Proof. repeat (constructor || in_range). Qed.

Definition deposited : Reserve.t :=
  Reserve.with_parts reserve (Reserve.last_update reserve)
    (ReserveLiquidity.with_amounts (Reserve.liquidity reserve) 600 (500 * WAD) (2 * WAD))
    (ReserveCollateral.with_supply (Reserve.collateral reserve) 660).
Lemma deposited_wf : wf_reserve deposited.
Proof. repeat (constructor || in_range). Qed.

Lemma lending_shares_keep_worth_witness :
  Reserve.deposit_liquidity reserve 100 = Ok (60, deposited) /\
  owned reserve * shares deposited <= owned deposited * shares reserve /\
  exists n' r2, Reserve.redeem_collateral deposited 60 = Ok (n', r2) /\ n' <= 100.
Proof.
  destruct (lending_shares_keep_worth reserve 100 60 deposited reserve_wf ltac:(by unfold_max)
    ltac:(reflexivity) ltac:(reflexivity)) as [Hworth Hredeem].
  split_and!; [reflexivity|exact Hworth|]. do 2 eexists. split; [vm_compute; reflexivity|].
  eapply Hredeem; [exact deposited_wf|vm_compute; reflexivity|vm_compute; reflexivity].
Defined.

(** Half of the reserve is lent, five eighths of the optimal utilization: the
    rate is two and a half per cent. *)
Lemma interest_within_config_witness :
  exists r', Reserve.accrue_interest reserve 1010 = Ok r' /\
    curve_rate config (utilization reserve) = 25 * WAD / 1000 /\
    exists factor, WAD + 10 * (25 * WAD / 1000 / SLOTS_PER_YEAR) <= factor /\
      lent r' = 500 * WAD * factor / WAD.
Proof.
  eexists. split; [vm_compute; reflexivity|]. split; [vm_compute; reflexivity|].
  match goal with |- context [lent ?r] =>
    destruct (interest_within_config reserve 1010 r reserve_wf ltac:(reflexivity) ltac:(vm_compute; reflexivity))
      as (_ & _ & _ & _ & factor & Hlo & _ & Hl & _) end.
  exists factor. split; [exact Hlo|exact Hl].
Defined.

(** A loan of 90 tokens, for which the collateral is just enough. *)
Lemma loans_within_limits_witness :
  exists res, Reserve.calculate_borrow reserve 90 (300 * WAD) = Ok res /\
    borrow_amount res / WAD = receive_amount res + borrow_fee res.
Proof.
  eexists. split; [vm_compute; reflexivity|].
  match goal with |- borrow_amount ?res / _ = _ =>
    destruct (loans_within_limits reserve obligation 90 (300 * WAD) res reserve_wf ltac:(reflexivity)
      ltac:(by unfold_max) ltac:(reflexivity) ltac:(vm_compute; reflexivity) ltac:(vm_compute; reflexivity))
      as (_ & H & _) end. exact H.
Defined.

(** Of a debt of 200 tokens half is settled, for 31 of 100 shares of the deposit:
    300 of its value of 1000, and a bonus of five per cent. *)
Lemma liquidation_within_limits_witness :
  exists res, Reserve.calculate_liquidation reserve 150 obligation debt deposit = Ok res /\
    settle_amount res = 100 * WAD /\ withdraw_amount res = 31 /\
    withdraw_amount res * (1000 * WAD) * (200 * WAD) * (WAD * WAD) <=
      100 * (600 * WAD) * (105 * WAD / 100) * ((settle_amount res + 1) * WAD + 200 * WAD).
Proof.
  eexists. split; [vm_compute; reflexivity|]. do 2 (split; [vm_compute; reflexivity|]).
  match goal with |- withdraw_amount ?res * _ * _ * _ <= _ =>
    destruct (liquidation_within_limits reserve obligation debt deposit 150 res
      (Forall_inv (wfo_borrows _ obligation_wf)) (Forall_inv (wfo_deposits _ obligation_wf))
      obligation_wf reserve_wf ltac:(reflexivity) ltac:(by unfold_max) ltac:(reflexivity) ltac:(reflexivity)
      ltac:(vm_compute; reflexivity)) as (_ & _ & _ & H) end.
  apply H. vm_compute. congruence.
Defined.

Lemma lending_records_roundtrip_witness :
  exists d, pack_state Obligation_packable obligation (replicate 916 7) = Ok d /\ unpack d = Ok obligation.
Proof.
  eexists. split; [vm_compute; reflexivity|].
  apply (proj2 (proj2 lending_records_roundtrip) obligation (replicate 916 7)); [apply obligation_wf|reflexivity|].
  vm_compute. reflexivity.
Defined.

(** A loan from a reserve that has doubled its debts since it was opened: the
    hundred tokens are two hundred at the next refresh. *)
Lemma new_debt_charged_past_interest_witness :
  exists o', borrow_liquidity obligation (key_of 14) (100 * WAD) = Ok o' /\
    forall l l', Obligation.borrows o' !! 1%nat = Some l ->
      ObligationLiquidity.accrue_interest l
        (ReserveLiquidity.cumulative_borrow_rate_wads (Reserve.liquidity reserve)) = Ok l' ->
      ObligationLiquidity.borrowed_amount_wads l' = 200 * WAD.
Proof.
  eexists. split; [vm_compute; reflexivity|].
  match goal with |- forall l l', Obligation.borrows ?o' !! _ = _ -> _ =>
    destruct (new_debt_charged_past_interest obligation (key_of 14) (100 * WAD) o'
      ltac:(vm_compute; reflexivity) ltac:(vm_compute; reflexivity)) as (l0 & E & _ & _ & H) end.
  intros l l' Hl Ha. rewrite E in Hl. injection Hl as <-. apply H in Ha; [|reflexivity]. rewrite Ha. reflexivity.
Defined.
End LendingSample.
