(* ===== verification/ForkChoice.v ===== *)
(** * Fork choice by the heaviest subtree

    Models [src/testnet/core/src] [heaviest_subtree_fork_choice.rs] and
    [tree_diff.rs].  A validator keeps the tree of blocks above its root.  Every
    node stores the stake whose latest vote is for it, the stake of its subtree,
    and the best block to build on within the subtree.  Votes, new blocks, new
    roots and blocks found to be duplicates update these figures along the
    ancestors of the blocks concerned.

    Panics ([unwrap], [expect], [assert!]) are the outcome [Panic]; no operation
    returns an error.  A loop that follows parents or children takes the number
    of nodes as fuel; running out of it is [Panic] as well, and the theorems of
    [ForkChoiceTheorems] show that it does not happen.  The time of the last root
    and the log are left out: they do not influence the choice. *)

From stdpp Require Import base gmap list fin_maps strings.
From Stdlib Require Import ZArith Lia.
From S2P Require Import Prelude Sdk MapOrder Epochs StakesCache.

Abbreviation Slot := Z (only parsing).
Abbreviation SlotHashKey := (Slot * Hash)%type.

Definition Hash_default : Hash := replicate 32 0.
Definition SlotHashKey_default : SlotHashKey := (0, Hash_default).

(** [assert!] *)
Definition assert_ (c : bool) : result Empty_set unit := panic_unless c.

(** ** Updates *)
Module UpdateLabel.
Inductive t : Type :=
| Aggregate
| Add
| MarkValid (s : Slot)
| MarkInvalid (s : Slot)
| Subtract.

(** [derive(Ord)]: by variant, then by field *)
Definition rank (l : t) : Z * Z :=
  match l with
  | Aggregate => (0, 0)
  | Add => (1, 0)
  | MarkValid s => (2, s)
  | MarkInvalid s => (3, s)
  | Subtract => (4, 0)
  end.
Lemma rank_inj x y : rank x = rank y -> x = y.
Proof. destruct x, y; cbn; congruence. Qed.

#[global] Instance t_ordered : Ordered t := ordered_via rank rank_inj.
#[global] Instance t_eq_dec : EqDecision t.
Proof. solve_decision. Defined.
Definition unrank (p : Z * Z) : t :=
  match p with
  | (0, _) => Aggregate
  | (1, _) => Add
  | (2, s) => MarkValid s
  | (3, s) => MarkInvalid s
  | _ => Subtract
  end.
#[global] Program Instance t_countable : Countable t := inj_countable' rank unrank _.
Next Obligation. by intros []. Qed.
End UpdateLabel.

Module UpdateOperation.
Inductive t : Type :=
| Add (stake : Z)
| MarkValid (s : Slot)
| MarkInvalid (s : Slot)
| Subtract (stake : Z)
| Aggregate.

#[global] Instance t_eq_dec : EqDecision t.
Proof. solve_decision. Defined.

Definition update_stake (self : t) (new_stake : Z) : result Empty_set t :=
  match self with
  | Add stake => Ok (Add (wrapping_add u64_max stake new_stake))
  | Subtract stake => Ok (Subtract (wrapping_add u64_max stake new_stake))
  | Aggregate | MarkValid _ | MarkInvalid _ => Panic
  end.
End UpdateOperation.

Abbreviation UpdateOperations := (gmap (SlotHashKey * UpdateLabel.t) UpdateOperation.t).

(** ** Nodes *)
Module ForkInfo.
Record t := {
  stake_voted_at : Z;
  stake_voted_subtree : Z;
  best_slot : SlotHashKey;
  parent : option SlotHashKey;
  children : list SlotHashKey;
  latest_invalid_ancestor : option Slot;
  is_duplicate_confirmed : bool }.

Definition is_unconfirmed_duplicate (self : t) (my_slot : Slot) : bool :=
  match latest_invalid_ancestor self with Some ancestor => ancestor =? my_slot | None => false end.

Definition is_candidate (self : t) : bool :=
  match latest_invalid_ancestor self with None => true | Some _ => false end.

Definition with_validity (self : t) (latest : option Slot) (confirmed : bool) : t :=
  {| stake_voted_at := stake_voted_at self; stake_voted_subtree := stake_voted_subtree self;
     best_slot := best_slot self; parent := parent self; children := children self;
     latest_invalid_ancestor := latest; is_duplicate_confirmed := confirmed |}.
Definition with_stakes (self : t) (voted_at subtree : Z) : t :=
  {| stake_voted_at := voted_at; stake_voted_subtree := subtree;
     best_slot := best_slot self; parent := parent self; children := children self;
     latest_invalid_ancestor := latest_invalid_ancestor self;
     is_duplicate_confirmed := is_duplicate_confirmed self |}.
Definition with_best_slot (self : t) (best : SlotHashKey) : t :=
  {| stake_voted_at := stake_voted_at self; stake_voted_subtree := stake_voted_subtree self;
     best_slot := best; parent := parent self; children := children self;
     latest_invalid_ancestor := latest_invalid_ancestor self;
     is_duplicate_confirmed := is_duplicate_confirmed self |}.
Definition with_parent (self : t) (p : option SlotHashKey) : t :=
  {| stake_voted_at := stake_voted_at self; stake_voted_subtree := stake_voted_subtree self;
     best_slot := best_slot self; parent := p; children := children self;
     latest_invalid_ancestor := latest_invalid_ancestor self;
     is_duplicate_confirmed := is_duplicate_confirmed self |}.
Definition push_child (self : t) (c : SlotHashKey) : t :=
  {| stake_voted_at := stake_voted_at self; stake_voted_subtree := stake_voted_subtree self;
     best_slot := best_slot self; parent := parent self; children := children self ++ [c];
     latest_invalid_ancestor := latest_invalid_ancestor self;
     is_duplicate_confirmed := is_duplicate_confirmed self |}.

Definition set_duplicate_confirmed (self : t) : t := with_validity self None true.

Definition update_with_newly_valid_ancestor (self : t) (newly_valid_ancestor : Slot) : t :=
  match latest_invalid_ancestor self with
  | Some latest =>
      if latest <=? newly_valid_ancestor
      then with_validity self None (is_duplicate_confirmed self) else self
  | None => self
  end.

Definition update_with_newly_invalid_ancestor (self : t) (newly_invalid_ancestor : Slot)
  : result Empty_set t :=
  assert_ (negb (is_duplicate_confirmed self));;
  let newer :=
    match latest_invalid_ancestor self with
    | Some latest => latest <? newly_invalid_ancestor
    | None => true
    end in
  Ok (if newer
      then with_validity self (Some newly_invalid_ancestor) (is_duplicate_confirmed self)
      else self).
End ForkInfo.

Record HeaviestSubtreeForkChoice := {
  fork_infos : gmap SlotHashKey ForkInfo.t;
  latest_votes : gmap Pubkey SlotHashKey;
  root : SlotHashKey }.

Definition with_infos (self : HeaviestSubtreeForkChoice) (m : gmap SlotHashKey ForkInfo.t)
  : HeaviestSubtreeForkChoice :=
  {| fork_infos := m; latest_votes := latest_votes self; root := root self |}.

(** What the constructor reads of a bank. *)
Record BankView := {
  bank_slot : Slot;
  bank_hash : Hash;
  bank_parent_slot : Slot;
  bank_parent_hash : Hash;
  bank_is_frozen : bool }.

Module HeaviestSubtree.
Implicit Type self : HeaviestSubtreeForkChoice.
Implicit Type infos : gmap SlotHashKey ForkInfo.t.

(** ** Queries *)
Definition contains_block self (key : SlotHashKey) : bool :=
  match fork_infos self !! key with Some _ => true | None => false end.
Definition best_slot self (key : SlotHashKey) : option SlotHashKey :=
  ForkInfo.best_slot <$> fork_infos self !! key.
Definition best_overall_slot self : result Empty_set SlotHashKey :=
  unwrap (best_slot self (root self)).
Definition stake_voted_subtree self (key : SlotHashKey) : option Z :=
  ForkInfo.stake_voted_subtree <$> fork_infos self !! key.
Definition stake_voted_at self (key : SlotHashKey) : option Z :=
  ForkInfo.stake_voted_at <$> fork_infos self !! key.
Definition latest_invalid_ancestor self (key : SlotHashKey) : option Slot :=
  fork_infos self !! key ≫= ForkInfo.latest_invalid_ancestor.
Definition is_duplicate_confirmed self (key : SlotHashKey) : option bool :=
  ForkInfo.is_duplicate_confirmed <$> fork_infos self !! key.
Definition is_unconfirmed_duplicate self (key : SlotHashKey) : option bool :=
  (fun fi => ForkInfo.is_unconfirmed_duplicate fi (fst key)) <$> fork_infos self !! key.
Definition is_candidate self (key : SlotHashKey) : option bool :=
  ForkInfo.is_candidate <$> fork_infos self !! key.
Definition parent self (key : SlotHashKey) : option SlotHashKey :=
  fork_infos self !! key ≫= ForkInfo.parent.
Definition children self (key : SlotHashKey) : option (list SlotHashKey) :=
  ForkInfo.children <$> fork_infos self !! key.

Definition max_by_weight self (slot1 slot2 : SlotHashKey) : result Empty_set comparison :=
  weight1 ← unwrap (stake_voted_subtree self slot1);
  weight2 ← unwrap (stake_voted_subtree self slot2);
  Ok (if weight1 =? weight2 then CompOpp (compare slot1 slot2) else weight1 ?= weight2).

Definition all_slots_stake_voted_subtree self : list (SlotHashKey * Z) :=
  (fun p => (fst p, ForkInfo.stake_voted_subtree (snd p))) <$> map_to_list (fork_infos self).

(** [AncestorIterator]: the parents of a block, the nearest first *)
Fixpoint ancestors_fuel (fuel : nat) infos (current_slot_hash_key : SlotHashKey)
  : list SlotHashKey :=
  match fuel with
  | O => []
  | S fuel =>
      match infos !! current_slot_hash_key ≫= ForkInfo.parent with
      | Some p => p :: ancestors_fuel fuel infos p
      | None => []
      end
  end.
Definition ancestor_iterator infos (start_slot_hash_key : SlotHashKey) : list SlotHashKey :=
  ancestors_fuel (size infos) infos start_slot_hash_key.

Definition is_strict_ancestor self (maybe_ancestor_key node_key : SlotHashKey) : bool :=
  if bool_decide (maybe_ancestor_key = node_key) then false
  else if fst node_key <? fst maybe_ancestor_key then false
  else bool_decide (maybe_ancestor_key ∈ ancestor_iterator (fork_infos self) node_key).

(** ** Subtrees *)

(** [TreeDiff::subtree_diff]; the end of the vector is the head of the list *)
Fixpoint subtree_diff_loop (fuel : nat) infos (root2 : SlotHashKey)
    (pending_keys : list SlotHashKey) (reachable_set : gset SlotHashKey)
  : result Empty_set (gset SlotHashKey) :=
  match pending_keys with
  | [] => Ok reachable_set
  | current_key :: pending_keys =>
      match fuel with
      | O => Panic
      | S fuel =>
          if bool_decide (current_key = root2)
          then subtree_diff_loop fuel infos root2 pending_keys reachable_set
          else
            cs ← unwrap (ForkInfo.children <$> infos !! current_key);
            subtree_diff_loop fuel infos root2 (reverse cs ++ pending_keys)
              ({[current_key]} ∪ reachable_set)
      end
  end.

Definition subtree_diff infos (root1 root2 : SlotHashKey) : result Empty_set (gset SlotHashKey) :=
  match infos !! root1 with
  | None => Ok ∅
  | Some _ => subtree_diff_loop (size infos) infos root2 [root1] ∅
  end.

(** ** New blocks *)
Definition update_info infos (key : SlotHashKey) (f : ForkInfo.t -> ForkInfo.t)
  : result Empty_set (gmap SlotHashKey ForkInfo.t) :=
  fi ← unwrap (infos !! key); Ok (<[key := f fi]> infos).

(** The loop of [is_best_child]. *)
Fixpoint no_better_child self (maybe_best_child : SlotHashKey) (weight : Z)
    (cs : list SlotHashKey) : result Empty_set bool :=
  match cs with
  | [] => Ok true
  | child :: cs =>
      child_weight ← unwrap (stake_voted_subtree self child);
      candidate ← unwrap (is_candidate self child);
      if negb candidate then no_better_child self maybe_best_child weight cs
      else if (weight <? child_weight)
              || (weight =? child_weight) && bool_decide (lt_key child maybe_best_child)
           then Ok false
           else no_better_child self maybe_best_child weight cs
  end.

Definition is_best_child self (maybe_best_child : SlotHashKey) : result Empty_set bool :=
  weight ← unwrap (stake_voted_subtree self maybe_best_child);
  match parent self maybe_best_child with
  | None => Ok true
  | Some p =>
      cs ← unwrap (children self p);
      no_better_child self maybe_best_child weight cs
  end.

Fixpoint propagate_loop (fuel : nat) infos (ancestor : option SlotHashKey)
    (parent_best leaf : SlotHashKey) : result Empty_set (gmap SlotHashKey ForkInfo.t) :=
  match ancestor with
  | None => Ok infos
  | Some a =>
      match fuel with
      | O => Panic
      | S fuel =>
          fi ← unwrap (infos !! a);
          if bool_decide (ForkInfo.best_slot fi = parent_best)
          then propagate_loop fuel (<[a := ForkInfo.with_best_slot fi leaf]> infos)
                 (ForkInfo.parent fi) parent_best leaf
          else Ok infos
      end
  end.

Definition propagate_new_leaf self (slot_hash_key parent_slot_hash_key : SlotHashKey)
  : result Empty_set HeaviestSubtreeForkChoice :=
  parent_best ← unwrap (best_slot self parent_slot_hash_key);
  best ← is_best_child self slot_hash_key;
  if (best : bool) then
    infos ← propagate_loop (size (fork_infos self)) (fork_infos self)
              (Some parent_slot_hash_key) parent_best slot_hash_key;
    Ok (with_infos self infos)
  else Ok self.

Definition new_leaf (slot_hash_key : SlotHashKey) (parent : option SlotHashKey)
    (parent_latest_invalid_ancestor : option Slot) : ForkInfo.t :=
  {| ForkInfo.stake_voted_at := 0; ForkInfo.stake_voted_subtree := 0;
     ForkInfo.best_slot := slot_hash_key; ForkInfo.parent := parent;
     ForkInfo.children := [];
     ForkInfo.latest_invalid_ancestor := parent_latest_invalid_ancestor;
     ForkInfo.is_duplicate_confirmed :=
       match parent with None => true | Some _ => false end |}.

Definition add_new_leaf_slot self (slot_hash_key : SlotHashKey) (parent : option SlotHashKey)
  : result Empty_set HeaviestSubtreeForkChoice :=
  if contains_block self slot_hash_key then Ok self
  else
    let parent_latest_invalid_ancestor := parent ≫= latest_invalid_ancestor self in
    let infos :=
      <[slot_hash_key := new_leaf slot_hash_key parent parent_latest_invalid_ancestor]>
        (fork_infos self) in
    match parent with
    | None => Ok (with_infos self infos)
    | Some p =>
        infos ← update_info infos p (fun fi => ForkInfo.push_child fi slot_hash_key);
        propagate_new_leaf (with_infos self infos) slot_hash_key p
    end.

Definition new (root : SlotHashKey) : result Empty_set HeaviestSubtreeForkChoice :=
  add_new_leaf_slot {| fork_infos := ∅; latest_votes := ∅; root := root |} root None.

Fixpoint add_frozen_banks self (prev_slot : Slot) (frozen_banks : list BankView)
  : result Empty_set HeaviestSubtreeForkChoice :=
  match frozen_banks with
  | [] => Ok self
  | bank :: banks =>
      assert_ (bank_is_frozen bank);;
      if fst (root self) <? bank_slot bank then
        assert_ (prev_slot <? bank_slot bank);;
        assert_ (bool_decide (bank_hash bank <> Hash_default));;
        assert_ (bool_decide (bank_parent_hash bank <> Hash_default));;
        self ← add_new_leaf_slot self (bank_slot bank, bank_hash bank)
                 (Some (bank_parent_slot bank, bank_parent_hash bank));
        add_frozen_banks self (bank_slot bank) banks
      else add_frozen_banks self prev_slot banks
  end.

Definition new_from_frozen_banks (root : SlotHashKey) (frozen_banks : list BankView)
  : result Empty_set HeaviestSubtreeForkChoice :=
  self ← new root; add_frozen_banks self (fst root) frozen_banks.

(** ** Aggregation *)

(** What the loop over the children of a node carries. *)
Record Aggregation := {
  ag_stake_voted_subtree : Z;
  ag_best_slot_hash_key : SlotHashKey;
  ag_is_duplicate_confirmed : bool;
  ag_best_child_stake_voted_subtree : Z;
  ag_best_child_slot_key : SlotHashKey }.

Definition aggregate_child (slot_hash_key : SlotHashKey) (acc : Aggregation)
    (child_key : SlotHashKey) (child_fork_info : ForkInfo.t) : Aggregation :=
  let child_stake := ForkInfo.stake_voted_subtree child_fork_info in
  let subtree := wrapping_add u64_max (ag_stake_voted_subtree acc) child_stake in
  let confirmed :=
    ag_is_duplicate_confirmed acc || ForkInfo.is_duplicate_confirmed child_fork_info in
  if ForkInfo.is_candidate child_fork_info
     && (bool_decide (ag_best_child_slot_key acc = slot_hash_key)
         || (ag_best_child_stake_voted_subtree acc <? child_stake)
         || (child_stake =? ag_best_child_stake_voted_subtree acc)
            && bool_decide (lt_key child_key (ag_best_child_slot_key acc)))
  then {| ag_stake_voted_subtree := subtree;
          ag_best_slot_hash_key := ForkInfo.best_slot child_fork_info;
          ag_is_duplicate_confirmed := confirmed;
          ag_best_child_stake_voted_subtree := child_stake;
          ag_best_child_slot_key := child_key |}
  else {| ag_stake_voted_subtree := subtree;
          ag_best_slot_hash_key := ag_best_slot_hash_key acc;
          ag_is_duplicate_confirmed := confirmed;
          ag_best_child_stake_voted_subtree := ag_best_child_stake_voted_subtree acc;
          ag_best_child_slot_key := ag_best_child_slot_key acc |}.

Fixpoint aggregate_children infos (slot_hash_key : SlotHashKey) (acc : Aggregation)
    (cs : list SlotHashKey) : result Empty_set Aggregation :=
  match cs with
  | [] => Ok acc
  | child_key :: cs =>
      child_fork_info ← unwrap (infos !! child_key);
      aggregate_children infos slot_hash_key
        (aggregate_child slot_hash_key acc child_key child_fork_info) cs
  end.

Definition aggregate_slot infos (slot_hash_key : SlotHashKey)
  : result Empty_set (gmap SlotHashKey ForkInfo.t) :=
  match infos !! slot_hash_key with
  | None => Ok infos
  | Some fork_info =>
      acc ← aggregate_children infos slot_hash_key
              {| ag_stake_voted_subtree := ForkInfo.stake_voted_at fork_info;
                 ag_best_slot_hash_key := slot_hash_key;
                 ag_is_duplicate_confirmed := false;
                 ag_best_child_stake_voted_subtree := 0;
                 ag_best_child_slot_key := slot_hash_key |} (ForkInfo.children fork_info);
      let fork_info :=
        if ag_is_duplicate_confirmed acc then ForkInfo.set_duplicate_confirmed fork_info
        else fork_info in
      let fork_info :=
        ForkInfo.with_stakes fork_info (ForkInfo.stake_voted_at fork_info)
          (ag_stake_voted_subtree acc) in
      Ok (<[slot_hash_key := ForkInfo.with_best_slot fork_info (ag_best_slot_hash_key acc)]> infos)
  end.

(** [if let Some(fork_info) = self.fork_infos.get_mut(key) { .. }] *)
Definition mark_fork_valid infos (fork_to_modify_key : SlotHashKey) (valid_slot : Slot)
  : gmap SlotHashKey ForkInfo.t :=
  match infos !! fork_to_modify_key with
  | Some fi =>
      let fi := ForkInfo.update_with_newly_valid_ancestor fi valid_slot in
      <[fork_to_modify_key :=
          if fst fork_to_modify_key =? valid_slot
          then ForkInfo.with_validity fi (ForkInfo.latest_invalid_ancestor fi) true else fi]> infos
  | None => infos
  end.

Definition mark_fork_invalid infos (fork_to_modify_key : SlotHashKey) (invalid_slot : Slot)
  : result Empty_set (gmap SlotHashKey ForkInfo.t) :=
  match infos !! fork_to_modify_key with
  | Some fi =>
      fi ← ForkInfo.update_with_newly_invalid_ancestor fi invalid_slot;
      Ok (<[fork_to_modify_key := fi]> infos)
  | None => Ok infos
  end.

Definition add_slot_stake infos (slot_hash_key : SlotHashKey) (stake : Z)
  : gmap SlotHashKey ForkInfo.t :=
  match infos !! slot_hash_key with
  | Some fi =>
      <[slot_hash_key :=
          ForkInfo.with_stakes fi (wrapping_add u64_max (ForkInfo.stake_voted_at fi) stake)
            (wrapping_add u64_max (ForkInfo.stake_voted_subtree fi) stake)]> infos
  | None => infos
  end.

Definition subtract_slot_stake infos (slot_hash_key : SlotHashKey) (stake : Z)
  : gmap SlotHashKey ForkInfo.t :=
  match infos !! slot_hash_key with
  | Some fi =>
      <[slot_hash_key :=
          ForkInfo.with_stakes fi (wrapping_sub u64_max (ForkInfo.stake_voted_at fi) stake)
            (wrapping_sub u64_max (ForkInfo.stake_voted_subtree fi) stake)]> infos
  | None => infos
  end.

Definition process_operation infos (key : SlotHashKey) (operation : UpdateOperation.t)
  : result Empty_set (gmap SlotHashKey ForkInfo.t) :=
  match operation with
  | UpdateOperation.MarkValid valid_slot => Ok (mark_fork_valid infos key valid_slot)
  | UpdateOperation.MarkInvalid invalid_slot => mark_fork_invalid infos key invalid_slot
  | UpdateOperation.Aggregate => aggregate_slot infos key
  | UpdateOperation.Add stake => Ok (add_slot_stake infos key stake)
  | UpdateOperation.Subtract stake => Ok (subtract_slot_stake infos key stake)
  end.

Fixpoint process_operations infos
    (l : list (SlotHashKey * UpdateLabel.t * UpdateOperation.t))
  : result Empty_set (gmap SlotHashKey ForkInfo.t) :=
  match l with
  | [] => Ok infos
  | (key, _, operation) :: l =>
      infos ← process_operation infos key operation; process_operations infos l
  end.

(** [update_operations.into_iter().rev()]: from the greatest key down *)
Definition process_update_operations self (update_operations : UpdateOperations)
  : result Empty_set HeaviestSubtreeForkChoice :=
  infos ← process_operations (fork_infos self) (reverse (sorted_entries update_operations));
  Ok (with_infos self infos).

(** ** Scheduling updates *)
Definition do_insert_aggregate_operation (update_operations : UpdateOperations)
    (modify_fork_validity : option UpdateOperation.t) (slot_hash_key : SlotHashKey)
  : UpdateOperations * bool :=
  let aggregate_label := (slot_hash_key, UpdateLabel.Aggregate) in
  match update_operations !! aggregate_label with
  | Some _ => (update_operations, false)
  | None =>
      let ops :=
        match modify_fork_validity with
        | Some (UpdateOperation.MarkValid slot) =>
            <[(slot_hash_key, UpdateLabel.MarkValid slot) := UpdateOperation.MarkValid slot]>
              update_operations
        | Some (UpdateOperation.MarkInvalid slot) =>
            <[(slot_hash_key, UpdateLabel.MarkInvalid slot) := UpdateOperation.MarkInvalid slot]>
              update_operations
        | _ => update_operations
        end in
      (<[aggregate_label := UpdateOperation.Aggregate]> ops, true)
  end.

Fixpoint insert_across (update_operations : UpdateOperations)
    (modify_fork_validity : option UpdateOperation.t) (l : list SlotHashKey) : UpdateOperations :=
  match l with
  | [] => update_operations
  | parent_slot_hash_key :: l =>
      let '(ops, inserted) :=
        do_insert_aggregate_operation update_operations modify_fork_validity
          parent_slot_hash_key in
      if inserted then insert_across ops modify_fork_validity l else ops
  end.

Definition do_insert_aggregate_operations_across_ancestors infos
    (update_operations : UpdateOperations) (modify_fork_validity : option UpdateOperation.t)
    (slot_hash_key : SlotHashKey) : UpdateOperations :=
  insert_across update_operations modify_fork_validity (ancestor_iterator infos slot_hash_key).

Definition insert_aggregate_operations infos (update_operations : UpdateOperations)
    (slot_hash_key : SlotHashKey) : UpdateOperations :=
  do_insert_aggregate_operations_across_ancestors infos update_operations None slot_hash_key.

(** ** Votes *)
Definition stake_update (epoch_stakes : gmap Epoch EpochStakes) (epoch_schedule : EpochSchedule)
    (pubkey : Pubkey) (slot : Slot) : Z :=
  match epoch_stakes !! EpochSchedule.get_epoch epoch_schedule slot with
  | Some es => vote_account_stake es pubkey
  | None => 0
  end.

(** [.entry(key).and_modify(|update| update.update_stake(stake)).or_insert(operation)] *)
Definition enter_stake (ops : UpdateOperations) (key : SlotHashKey * UpdateLabel.t)
    (operation : UpdateOperation.t) (stake : Z) : result Empty_set UpdateOperations :=
  match ops !! key with
  | Some update =>
      update ← UpdateOperation.update_stake update stake; Ok (<[key := update]> ops)
  | None => Ok (<[key := operation]> ops)
  end.

(** A vote that is not newer than the latest one of its validator; of two
    versions of a slot the smaller hash counts as newer. *)
Definition is_outdated (latest : option SlotHashKey) (new_vote : SlotHashKey) : bool :=
  match latest with
  | Some (latest_slot, latest_hash) =>
      (fst new_vote <? latest_slot)
      || (fst new_vote =? latest_slot) && bool_decide (le_key latest_hash (snd new_vote))
  | None => false
  end.

Section Votes.
Context (epoch_stakes : gmap Epoch EpochStakes) (epoch_schedule : EpochSchedule).

(** Taking back the stake of the previous vote. *)
Definition subtract_old_vote infos (ops : UpdateOperations) (pubkey : Pubkey)
    (old new_vote : SlotHashKey) : result Empty_set UpdateOperations :=
  assert_ (if fst new_vote =? fst old then bool_decide (lt_key (snd new_vote) (snd old))
                else fst old <? fst new_vote);;
  let stake := stake_update epoch_stakes epoch_schedule pubkey (fst old) in
  if 0 <? stake then
    ops ← enter_stake ops (old, UpdateLabel.Subtract) (UpdateOperation.Subtract stake) stake;
    Ok (insert_aggregate_operations infos ops old)
  else Ok ops.

Fixpoint generate_loop (root_slot : Slot) infos
    (pubkey_votes : list (Pubkey * SlotHashKey)) (latest : gmap Pubkey SlotHashKey)
    (ops : UpdateOperations) (observed_pubkeys : gmap Pubkey Slot)
  : result Empty_set (gmap Pubkey SlotHashKey * UpdateOperations) :=
  match pubkey_votes with
  | [] => Ok (latest, ops)
  | (pubkey, new_vote) :: votes =>
      if fst new_vote <? root_slot
      then generate_loop root_slot infos votes latest ops observed_pubkeys
      else
        assert_ (match observed_pubkeys !! pubkey with Some _ => false | None => true end);;
        let observed_pubkeys := <[pubkey := fst new_vote]> observed_pubkeys in
        if is_outdated (latest !! pubkey) new_vote
        then generate_loop root_slot infos votes latest ops observed_pubkeys
        else
          ops ← match latest !! pubkey with
                | Some old => subtract_old_vote infos ops pubkey old new_vote
                | None => Ok ops
                end;
          let latest := <[pubkey := new_vote]> latest in
          let stake := stake_update epoch_stakes epoch_schedule pubkey (fst new_vote) in
          ops ← enter_stake ops (new_vote, UpdateLabel.Add) (UpdateOperation.Add stake) stake;
          let ops := insert_aggregate_operations infos ops new_vote in
          generate_loop root_slot infos votes latest ops observed_pubkeys
  end.

Definition generate_update_operations self (pubkey_votes : list (Pubkey * SlotHashKey))
  : result Empty_set (HeaviestSubtreeForkChoice * UpdateOperations) :=
  '(latest, ops) ←
    generate_loop (fst (root self)) (fork_infos self) pubkey_votes (latest_votes self) ∅ ∅;
  Ok ({| fork_infos := fork_infos self; latest_votes := latest; root := root self |}, ops).

Definition add_votes self (pubkey_votes : list (Pubkey * SlotHashKey))
  : result Empty_set (SlotHashKey * HeaviestSubtreeForkChoice) :=
  '(self, update_operations_batch) ← generate_update_operations self pubkey_votes;
  self ← process_update_operations self update_operations_batch;
  best ← best_overall_slot self;
  Ok (best, self).

(** ** Changes of the tree *)
Fixpoint add_leaves self (l : list (SlotHashKey * SlotHashKey))
  : result Empty_set HeaviestSubtreeForkChoice :=
  match l with
  | [] => Ok self
  | (key, parent) :: l => self ← add_new_leaf_slot self key (Some parent); add_leaves self l
  end.

Definition merge self (other : HeaviestSubtreeForkChoice) (merge_leaf : SlotHashKey)
  : result Empty_set HeaviestSubtreeForkChoice :=
  assert_ (contains_block self merge_leaf);;
  let other_slots_nodes :=
    (fun p => (fst p, default merge_leaf (ForkInfo.parent (snd p))))
      <$> sorted_entries (fork_infos other) in
  self ← add_leaves self other_slots_nodes;
  '(_, self) ← add_votes self (map_to_list (latest_votes other));
  Ok self.
End Votes.

(** [remove(..).expect(..)] of every key of a set *)
Fixpoint remove_keys infos (l : list SlotHashKey)
  : result Empty_set (gmap SlotHashKey ForkInfo.t) :=
  match l with
  | [] => Ok infos
  | key :: l => _ ← unwrap (infos !! key); remove_keys (delete key infos) l
  end.

Definition set_root self (new_root : SlotHashKey) : result Empty_set HeaviestSubtreeForkChoice :=
  remove_set ← subtree_diff (fork_infos self) (root self) new_root;
  infos ← remove_keys (fork_infos self) (elements remove_set);
  infos ← update_info infos new_root (fun fi => ForkInfo.with_parent fi None);
  Ok {| fork_infos := infos; latest_votes := latest_votes self; root := new_root |}.

Definition add_root_parent self (root_parent : SlotHashKey)
  : result Empty_set HeaviestSubtreeForkChoice :=
  assert_ (fst root_parent <? fst (root self));;
  assert_ (negb (contains_block self root_parent));;
  root_info ← unwrap (fork_infos self !! root self);
  let infos := <[root self := ForkInfo.with_parent root_info (Some root_parent)]>
                 (fork_infos self) in
  let root_parent_info :=
    {| ForkInfo.stake_voted_at := 0;
       ForkInfo.stake_voted_subtree := ForkInfo.stake_voted_subtree root_info;
       ForkInfo.best_slot := ForkInfo.best_slot root_info;
       ForkInfo.children := [root self];
       ForkInfo.parent := None;
       ForkInfo.latest_invalid_ancestor := None;
       ForkInfo.is_duplicate_confirmed := ForkInfo.is_duplicate_confirmed root_info |} in
  Ok {| fork_infos := <[root_parent := root_parent_info]> infos;
        latest_votes := latest_votes self; root := root_parent |}.

(** ** Duplicate blocks *)
Definition mark_all (ops : UpdateOperations) (operation : UpdateOperation.t)
    (l : list SlotHashKey) : UpdateOperations :=
  foldl (fun ops key => fst (do_insert_aggregate_operation ops (Some operation) key)) ops l.

Definition mark_fork_invalid_candidate self (invalid_slot_hash_key : SlotHashKey)
  : result Empty_set HeaviestSubtreeForkChoice :=
  match fork_infos self !! invalid_slot_hash_key with
  | None => Ok self
  | Some fork_info =>
      assert_ (negb (ForkInfo.is_duplicate_confirmed fork_info));;
      subtree ← subtree_diff (fork_infos self) invalid_slot_hash_key SlotHashKey_default;
      let ops := mark_all ∅ (UpdateOperation.MarkInvalid (fst invalid_slot_hash_key))
                   (elements subtree) in
      let ops := insert_aggregate_operations (fork_infos self) ops invalid_slot_hash_key in
      process_update_operations self ops
  end.

Fixpoint unconfirmed self (l : list SlotHashKey) : result Empty_set (list SlotHashKey) :=
  match l with
  | [] => Ok []
  | key :: l =>
      confirmed ← unwrap (is_duplicate_confirmed self key);
      rest ← unconfirmed self l;
      Ok (if negb confirmed then key :: rest else rest)
  end.

Definition mark_fork_valid_candidate self (valid_slot_hash_key : SlotHashKey)
  : result Empty_set (list SlotHashKey * HeaviestSubtreeForkChoice) :=
  newly_duplicate_confirmed_ancestors ←
    unconfirmed self
      (valid_slot_hash_key :: ancestor_iterator (fork_infos self) valid_slot_hash_key);
  subtree ← subtree_diff (fork_infos self) valid_slot_hash_key SlotHashKey_default;
  let ops := mark_all ∅ (UpdateOperation.MarkValid (fst valid_slot_hash_key))
               (elements subtree) in
  let ops := insert_aggregate_operations (fork_infos self) ops valid_slot_hash_key in
  self ← process_update_operations self ops;
  Ok (newly_duplicate_confirmed_ancestors, self).

(** The best block above the last vote of the validator itself, of which the
    tower tells the block and whether it is missing from the ledger. *)
Definition heaviest_slot_on_same_voted_fork self (last_voted_slot_hash : option SlotHashKey)
    (is_stray_last_vote : bool) : result Empty_set (option SlotHashKey) :=
  match last_voted_slot_hash with
  | None => Ok None
  | Some last_voted =>
      match best_slot self last_voted with
      | None => if is_stray_last_vote then Ok None else Panic
      | Some best => Ok (if bool_decide (best = last_voted) then None else Some best)
      end
  end.
End HeaviestSubtree.
