(* ===== verification/ForkChoiceTree.v ===== *)
(** * The tree of fork choice

    Parents, ancestors and subtrees of [ForkChoice]: the well-formedness of the
    tree ([tree_ok]), the ancestors the iterator visits, the nodes that
    [subtree_diff] reaches, and that the fuel suffices for both. *)

From stdpp Require Import base gmap list fin_maps strings relations.
From Stdlib Require Import ZArith Lia.
From S2P Require Import Prelude Sdk MapOrder Epochs StakesCache ForkChoice.
Import HeaviestSubtree.

Abbreviation tree := (gmap SlotHashKey ForkInfo.t).
Implicit Types (infos : tree) (k p c a : SlotHashKey).

(** An absent node reads as an isolated leaf. *)
Definition info infos k : ForkInfo.t :=
  default (new_leaf k None None) (infos !! k).

Definition parent_rel infos p c : Prop := ForkInfo.parent (info infos c) = Some p.
(** [a] is [k] or one of its ancestors *)
Definition in_subtree infos : SlotHashKey -> SlotHashKey -> Prop := rtc (parent_rel infos).

Record tree_ok infos (root : SlotHashKey) : Prop := {
  root_in : is_Some (infos !! root);
  root_parent : ForkInfo.parent (info infos root) = None;
  orphan_root : forall k, is_Some (infos !! k) -> ForkInfo.parent (info infos k) = None -> k = root;
  parent_child : forall p c, parent_rel infos p c -> c ∈ ForkInfo.children (info infos p);
  child_parent : forall p c, c ∈ ForkInfo.children (info infos p) -> parent_rel infos p c;
  parent_in : forall p c, parent_rel infos p c -> is_Some (infos !! p);
  parent_lt : forall p c, parent_rel infos p c -> fst p < fst c;
  children_nodup : forall k, NoDup (ForkInfo.children (info infos k)) }.

Section Info.
Lemma info_lookup infos k fi : infos !! k = Some fi -> info infos k = fi.
Proof. intros E. unfold info. by rewrite E. Qed.

Lemma lookup_info infos k : is_Some (infos !! k) -> infos !! k = Some (info infos k).
Proof. intros [fi E]. by rewrite (info_lookup _ _ _ E). Qed.

Lemma info_absent infos k : infos !! k = None -> info infos k = new_leaf k None None.
Proof. intros E. unfold info. by rewrite E. Qed.

Lemma info_insert infos k k' fi :
  info (<[k := fi]> infos) k' = if decide (k = k') then fi else info infos k'.
Proof. unfold info. rewrite lookup_insert. by case_decide. Qed.

Lemma info_insert_eq infos k fi : info (<[k := fi]> infos) k = fi.
Proof. rewrite info_insert. by rewrite decide_True. Qed.

Lemma info_insert_ne infos k k' fi : k <> k' -> info (<[k := fi]> infos) k' = info infos k'.
Proof. intros Hne. rewrite info_insert. by rewrite decide_False. Qed.

(** A node with a parent is in the tree. *)
Lemma child_in infos p c : parent_rel infos p c -> is_Some (infos !! c).
Proof.
  unfold parent_rel, info. destruct (infos !! c) as [fi|] eqn:E; cbn; [by eexists|done].
Qed.

Lemma parent_bind infos k : infos !! k ≫= ForkInfo.parent = ForkInfo.parent (info infos k).
Proof. unfold info. by destruct (infos !! k). Qed.
End Info.

(** ** Paths *)
Section Paths.
Context (infos : tree) (root : SlotHashKey) (Hok : tree_ok infos root).

Lemma in_subtree_le a k : in_subtree infos a k -> a = k \/ fst a < fst k.
Proof.
  induction 1 as [|a b k Hab _ IH]; [by left|]. apply (parent_lt _ _ Hok) in Hab.
  right. destruct IH as [->|?]; lia.
Qed.

Lemma in_subtree_antisym a k : in_subtree infos a k -> in_subtree infos k a -> a = k.
Proof.
  intros H1 H2. destruct (in_subtree_le _ _ H1) as [?|?], (in_subtree_le _ _ H2) as [?|?];
    (done || lia).
Qed.

(** The ancestors of a node form a chain. *)
Lemma parent_rel_fun p p' c : parent_rel infos p c -> parent_rel infos p' c -> p = p'.
Proof. unfold parent_rel. congruence. Qed.

Lemma in_subtree_inv_r a k :
  in_subtree infos a k -> a = k \/ exists p, parent_rel infos p k /\ in_subtree infos a p.
Proof. intros [->|(p & H1 & H2)]%rtc_inv_r; [by left|right; eauto]. Qed.

Lemma in_subtree_chain a b k :
  in_subtree infos a k -> in_subtree infos b k -> in_subtree infos a b \/ in_subtree infos b a.
Proof.
  intros Ha. revert k Ha b.
  apply (rtc_ind_r (fun k => forall b, in_subtree infos b k ->
    in_subtree infos a b \/ in_subtree infos b a)); [by right|].
  intros k k' Ha Hk IH b Hb. apply in_subtree_inv_r in Hb as [->|(p & Hp & Hb)].
  - left. eapply rtc_r; eauto.
  - rewrite (parent_rel_fun _ _ _ Hp Hk) in Hb. by apply IH.
Qed.

(** Below [k] is below exactly one of its children. *)
Lemma below_child k v :
  in_subtree infos k v -> k <> v ->
  exists c, c ∈ ForkInfo.children (info infos k) /\ in_subtree infos c v.
Proof.
  intros [->|(c & H1 & H2)]%rtc_inv Hne; [done|]. exists c. split; [|done].
  by apply (parent_child _ _ Hok).
Qed.

Lemma below_child_unique k v c c' :
  c ∈ ForkInfo.children (info infos k) -> c' ∈ ForkInfo.children (info infos k) ->
  in_subtree infos c v -> in_subtree infos c' v -> c = c'.
Proof.
  intros Hc Hc' H1 H2. apply (child_parent _ _ Hok) in Hc, Hc'.
  assert (Hno : forall x y, parent_rel infos k x -> parent_rel infos k y ->
    in_subtree infos x y -> x = y).
  { intros x y Hx Hy [->|(p & Hp & Hin)]%in_subtree_inv_r; [done|].
    rewrite (parent_rel_fun _ _ _ Hp Hy) in Hin.
    apply in_subtree_le in Hin. apply (parent_lt _ _ Hok) in Hx. destruct Hin as [->|?]; lia. }
  destruct (in_subtree_chain _ _ _ H1 H2); [|symmetry]; eauto.
Qed.

Lemma child_not_above k c : c ∈ ForkInfo.children (info infos k) -> ~ in_subtree infos c k.
Proof.
  intros Hc%(child_parent _ _ Hok)%(parent_lt _ _ Hok) Hin.
  apply in_subtree_le in Hin as [->|?]; lia.
Qed.

Lemma in_subtree_in a k : in_subtree infos a k -> is_Some (infos !! k) -> is_Some (infos !! a).
Proof.
  intros Ha Hk. apply rtc_inv in Ha as [->|(b & Hb & _)]; [done|]. by apply (parent_in _ _ Hok) in Hb.
Qed.

Lemma in_subtree_absent a k : in_subtree infos a k -> infos !! k = None -> a = k.
Proof.
  intros [->|(p & Hp & _)]%in_subtree_inv_r E; [done|].
  apply child_in in Hp. rewrite E in Hp. by destruct Hp.
Qed.

(** ** Measures: the nodes below and above a slot *)
Definition below (s : Slot) : nat := size (filter (fun k => fst k < s) (dom infos : gset SlotHashKey)).
Definition above (s : Slot) : nat := size (filter (fun k => s < fst k) (dom infos : gset SlotHashKey)).

Lemma below_lt p c : parent_rel infos p c -> (below (fst p) < below (fst c))%nat.
Proof.
  intros Hp. pose proof (parent_lt _ _ Hok _ _ Hp). unfold below, above. apply subset_size.
  pose proof (parent_in _ _ Hok _ _ Hp) as Hin. apply elem_of_dom in Hin.
  split; [intros x; rewrite !elem_of_filter; intros [? ?]; split; [lia|done]|].
  intros Hs. specialize (Hs p). rewrite !elem_of_filter in Hs. destruct (Hs (conj H Hin)). lia.
Qed.

Lemma above_lt p c : parent_rel infos p c -> (above (fst c) < above (fst p))%nat.
Proof.
  intros Hp. pose proof (parent_lt _ _ Hok _ _ Hp). unfold below, above. apply subset_size.
  pose proof (child_in _ _ _ Hp) as Hin. apply elem_of_dom in Hin.
  split; [intros x; rewrite !elem_of_filter; intros [? ?]; split; [lia|done]|].
  intros Hs. specialize (Hs c). rewrite !elem_of_filter in Hs. destruct (Hs (conj H Hin)). lia.
Qed.

Lemma below_size k : is_Some (infos !! k) -> (below (fst k) < size infos)%nat.
Proof.
  intros Hk%elem_of_dom. unfold below. rewrite <- (size_dom (D := gset SlotHashKey) infos).
  apply subset_size. split; [intros x [_ ?]%elem_of_filter; done|].
  intros Hs. specialize (Hs k Hk). rewrite elem_of_filter in Hs. lia.
Qed.

Lemma above_size k : is_Some (infos !! k) -> (above (fst k) < size infos)%nat.
Proof.
  intros Hk%elem_of_dom. unfold above. rewrite <- (size_dom (D := gset SlotHashKey) infos).
  apply subset_size. split; [intros x [_ ?]%elem_of_filter; done|].
  intros Hs. specialize (Hs k Hk). rewrite elem_of_filter in Hs. lia.
Qed.

(** Induction from the leaves to the root, and from the root down. *)
Lemma tree_ind_up (P : SlotHashKey -> Prop) :
  (forall k, (forall c, c ∈ ForkInfo.children (info infos k) -> P c) -> P k) -> forall k, P k.
Proof.
  intros Hstep k. remember (above (fst k)) as n eqn:En. revert k En.
  induction (lt_wf n) as [n _ IH]. intros k ->. apply Hstep. intros c Hc.
  apply (IH (above (fst c))); [|done]. by apply above_lt, (child_parent _ _ Hok).
Qed.

(** ** Ancestors *)
Lemma ancestors_sound n k a :
  a ∈ ancestors_fuel n infos k -> a <> k /\ in_subtree infos a k.
Proof.
  revert k. induction n as [|n IH]; intros k; cbn; [set_solver|].
  rewrite parent_bind. destruct (ForkInfo.parent (info infos k)) as [p|] eqn:Ep; [|set_solver].
  assert (Hp : parent_rel infos p k) by done. pose proof (parent_lt _ _ Hok _ _ Hp).
  intros [->|Ha]%elem_of_cons.
  - split; [|by apply rtc_once]. intros ->. lia.
  - apply IH in Ha as [_ Ha]. split; [|eapply rtc_r; eauto].
    intros ->. apply in_subtree_le in Ha as [->|?]; lia.
Qed.

Lemma ancestors_complete n k a :
  (below (fst k) <= n)%nat -> a <> k -> in_subtree infos a k -> a ∈ ancestors_fuel n infos k.
Proof.
  revert k. induction n as [|n IH]; intros k Hn Hne [->|(p & Hp & Ha)]%in_subtree_inv_r; try done.
  - apply below_lt in Hp. lia.
  - cbn. rewrite parent_bind. pose proof Hp as Hp'. unfold parent_rel in Hp'. rewrite Hp'.
    apply elem_of_cons. destruct (decide (a = p)) as [->|]; [by left|right].
    apply IH; [|done|done]. apply below_lt in Hp. lia.
Qed.

Lemma ancestors_spec k a :
  a ∈ ancestor_iterator infos k <-> a <> k /\ in_subtree infos a k.
Proof.
  split; [apply ancestors_sound|]. intros [Hne Ha]. apply ancestors_complete; [|done|done].
  apply in_subtree_inv_r in Ha as [->|(p & Hp & _)]; [done|].
  pose proof (below_size k (child_in _ _ _ Hp)). lia.
Qed.

(** With enough fuel the iterator goes from a parent on as from its start. *)
Lemma ancestors_fuel_more n m k :
  (below (fst k) <= n)%nat -> (below (fst k) <= m)%nat ->
  ancestors_fuel n infos k = ancestors_fuel m infos k.
Proof.
  revert m k. induction n as [|n IH]; intros [|m] k Hn Hm; cbn; try done; rewrite parent_bind;
    destruct (ForkInfo.parent (info infos k)) as [p|] eqn:Ep; try done;
    assert (Hp : parent_rel infos p k) by done; apply below_lt in Hp; try lia.
  f_equal. apply IH; lia.
Qed.

Lemma ancestors_cons k p :
  parent_rel infos p k -> ancestor_iterator infos k = p :: ancestor_iterator infos p.
Proof.
  intros Hp. unfold ancestor_iterator.
  pose proof (below_size k (child_in _ _ _ Hp)). pose proof (below_lt _ _ Hp).
  destruct (size infos) as [|n] eqn:E; [lia|].
  assert (ancestors_fuel (S n) infos k = p :: ancestors_fuel n infos p) as ->
    by (cbn; rewrite parent_bind; unfold parent_rel in Hp; by rewrite Hp).
  f_equal.   apply ancestors_fuel_more; lia.
Qed.

Lemma ancestors_nil k : ForkInfo.parent (info infos k) = None -> ancestor_iterator infos k = [].
Proof.
  intros Hp. unfold ancestor_iterator. destruct (size infos); [done|].
  cbn. by rewrite parent_bind, Hp.
Qed.
End Paths.

(** ** The nodes [subtree_diff] reaches *)
Section SubtreeDiff.
Context (infos : tree) (root : SlotHashKey) (Hok : tree_ok infos root).
Context (root1 root2 : SlotHashKey).

(** [seen]: the keys taken from the stack *)
Record diff_inv (seen pending : list SlotHashKey) : Prop := {
  di_nodup : NoDup (seen ++ pending);
  di_below : forall k, k ∈ seen ++ pending -> in_subtree infos root1 k /\ is_Some (infos !! k);
  di_closed : forall k c, k ∈ seen -> k <> root2 -> c ∈ ForkInfo.children (info infos k) ->
    c ∈ seen ++ pending;
  di_root : root1 ∈ seen ++ pending;
  di_parent : forall k, k ∈ seen ++ pending -> k <> root1 ->
    exists p, p ∈ seen /\ p <> root2 /\ parent_rel infos p k }.

Definition reached_of (seen : list SlotHashKey) : gset SlotHashKey :=
  list_to_set (filter (fun k => k <> root2) seen).

Lemma diff_inv_skip seen pending :
  diff_inv seen (root2 :: pending) -> diff_inv (root2 :: seen) pending.
Proof.
  intros [Hd Hb Hc Hr Hp].
  assert (Hperm : seen ++ (root2 :: pending) ≡ₚ (root2 :: seen) ++ pending) by solve_Permutation.
  split.
  - by rewrite <- Hperm.
  - intros k Hk. rewrite <- Hperm in Hk. by apply Hb.
  - intros k c Hk Hne Hcc. rewrite <- Hperm. eapply Hc; eauto. set_solver.
  - by rewrite <- Hperm.
  - intros k Hk Hne. rewrite <- Hperm in Hk. destruct (Hp k Hk Hne) as (p & ? & ? & ?).
    exists p. set_solver.
Qed.

Lemma diff_inv_expand seen cur pending :
  cur <> root2 -> diff_inv seen (cur :: pending) ->
  diff_inv (cur :: seen) (reverse (ForkInfo.children (info infos cur)) ++ pending).
Proof.
  intros Hne [Hd Hb Hc Hr Hp]. set (cs := ForkInfo.children (info infos cur)).
  assert (Hperm : ((cur :: seen) ++ (reverse cs ++ pending)) ≡ₚ cs ++ (seen ++ (cur :: pending))).
  { rewrite (reverse_Permutation cs). solve_Permutation. }
  assert (Hcur : (cur ∉ seen) /\ in_subtree infos root1 cur).
  { split; [|apply Hb; set_solver]. apply NoDup_app in Hd as (_ & Hd & _). set_solver. }
  assert (Hfresh : forall c, c ∈ cs -> c ∉ seen ++ cur :: pending).
  { intros c Hcc Hin. apply (child_parent _ _ Hok) in Hcc.
    destruct (Hp c Hin) as (p & Hps & _ & Hpc).
    - intros ->. apply (parent_lt _ _ Hok) in Hcc.
      destruct (in_subtree_le infos root Hok _ _ (proj2 Hcur)) as [?|?]; subst; lia.
    - rewrite (parent_rel_fun infos _ _ _ Hpc Hcc) in Hps. by apply (proj1 Hcur). }
  split.
  - rewrite Hperm. apply NoDup_app. split; [apply (children_nodup _ _ Hok)|]. done.
  - intros k. rewrite Hperm. intros [Hk|Hk]%elem_of_app; [|by apply Hb].
    apply (child_parent _ _ Hok) in Hk. split; [|by eapply child_in].
    eapply rtc_r; [apply (proj2 Hcur)|done].
  - intros k c Hk Hk2 Hcc. rewrite Hperm. apply elem_of_app.
    apply elem_of_cons in Hk as [->|Hk]; [by left|right; eauto].
  - rewrite Hperm. set_solver.
  - intros k. rewrite Hperm. intros [Hk|Hk]%elem_of_app Hkr.
    + exists cur. split; [set_solver|]. split; [done|]. by apply (child_parent _ _ Hok).
    + destruct (Hp k Hk Hkr) as (p & ? & ? & ?). exists p. set_solver.
Qed.

Lemma diff_inv_length seen pending :
  diff_inv seen pending -> (length seen + length pending <= size infos)%nat.
Proof.
  intros [Hd Hb _ _ _]. rewrite <- length_app, <- (size_dom (D := gset SlotHashKey) infos).
  rewrite <- (size_list_to_set (C := gset SlotHashKey)) by done. apply subseteq_size.
  intros k Hk. apply elem_of_list_to_set in Hk. apply elem_of_dom. by apply Hb.
Qed.

Lemma subtree_diff_loop_run fuel seen pending :
  diff_inv seen pending -> (size infos <= fuel + length seen)%nat ->
  exists seen', diff_inv seen' [] /\
    subtree_diff_loop fuel infos root2 pending (reached_of seen) = Ok (reached_of seen').
Proof.
  revert seen pending. induction fuel as [|fuel IH]; intros seen [|cur pending] Hinv Hf;
    try (by exists seen).
  { apply diff_inv_length in Hinv. cbn in *. lia. }
  cbn [subtree_diff_loop]. case_bool_decide as Hcur.
  - subst cur. destruct (IH (root2 :: seen) pending) as (seen' & Hi & E);
      [by apply diff_inv_skip|cbn; lia|].
    exists seen'. split; [done|]. rewrite <- E. f_equal. unfold reached_of.
    rewrite filter_cons_False by naive_solver. done.
  - destruct (di_below _ _ Hinv cur) as [_ Hin]; [set_solver|].
    rewrite (lookup_info _ _ Hin). cbn.
    destruct (IH (cur :: seen) (reverse (ForkInfo.children (info infos cur)) ++ pending))
      as (seen' & Hi & E); [by apply diff_inv_expand|cbn; lia|].
    exists seen'. split; [done|]. rewrite <- E. f_equal. unfold reached_of.
    rewrite filter_cons_True by done. done.
Qed.

Lemma diff_inv_start : is_Some (infos !! root1) -> diff_inv [] [root1].
Proof.
  intros Hin. split; cbn; try set_solver.
  apply NoDup_singleton.
Qed.

(** The nodes below [root1] that are not below [root2], when that is itself
    below [root1]. *)
Lemma subtree_diff_spec :
  exists R, subtree_diff infos root1 root2 = Ok R /\
    forall k, k ∈ R <->
      is_Some (infos !! k) /\ in_subtree infos root1 k /\
      ~ (in_subtree infos root1 root2 /\ in_subtree infos root2 k).
Proof.
  unfold subtree_diff. destruct (infos !! root1) as [fi|] eqn:E1; cycle 1.
  { exists ∅. split; [done|]. intros k. split; [set_solver|]. intros (Hk & Hr & _).
    apply (in_subtree_in infos root Hok) in Hr; [|done]. rewrite E1 in Hr. by destruct Hr. }
  destruct (subtree_diff_loop_run (size infos) [] [root1]) as (seen & Hinv & Hrun);
    [apply diff_inv_start; by eexists|cbn; lia|].
  eexists. split; [exact Hrun|]. intros k. unfold reached_of.
  rewrite elem_of_list_to_set, list_elem_of_filter.
  destruct Hinv as [_ Hb Hc Hr Hp]. rewrite app_nil_r in *. split.
  - intros [Hne Hk]. split_and!; [by apply Hb|by apply Hb|]. intros [H12 H2k].
    revert k H2k Hne Hk. apply (rtc_ind_r (fun k => k <> root2 -> k ∈ seen -> False)); [done|].
    intros p k H2p Hpk IH Hne Hk. destruct (Hp k) as (p' & Hp1 & Hp2 & Hp3).
    + done.
    + intros ->. apply (in_subtree_le infos root Hok) in H12.
      apply (in_subtree_le infos root Hok) in H2p. apply (parent_lt _ _ Hok) in Hpk.
      destruct H12 as [?|?], H2p as [?|?]; subst; lia.
    + rewrite (parent_rel_fun infos _ _ _ Hp3 Hpk) in *. by apply IH.
  - intros (_ & H1k & Hno). enough (k ∈ seen) as Hk.
    { split; [|done]. intros ->. apply Hno. split; [done|apply rtc_refl]. }
    revert k H1k Hno. apply (rtc_ind_r (fun k =>
      ~ (in_subtree infos root1 root2 /\ in_subtree infos root2 k) -> k ∈ seen)); [done|].
    intros p k H1p Hpk IH Hno. assert (Hps : p ∈ seen).
    { apply IH. intros [H12 H2p]. apply Hno. split; [done|]. by eapply rtc_r. }
    apply (Hc p); [done| |by apply (parent_child _ _ Hok)].
    intros ->. apply Hno. split; [done|by apply rtc_once].
Qed.
End SubtreeDiff.
