(* ===== verification/ForkChoiceAggregate.v ===== *)
(** * Aggregation in fork choice

    What one call of [aggregate_slot] computes ([aggregate_slot_spec]), and
    that processing a batch of updates from the greatest key down leaves every
    node aggregated ([process_operations_spec]). *)

From stdpp Require Import base gmap list fin_maps strings relations sorting.
From Stdlib Require Import ZArith Lia.
From S2P Require Import Prelude Sdk MapOrder Epochs StakesCache ForkChoice ForkChoiceTree.
Import HeaviestSubtree.

Implicit Types (infos : tree) (k p c a : SlotHashKey).

(** ** The choice among children *)
Definition weight infos c : Z := ForkInfo.stake_voted_subtree (info infos c).
Definition cand infos c : bool := ForkInfo.is_candidate (info infos c).
Definition conf infos c : bool := ForkInfo.is_duplicate_confirmed (info infos c).
Definition best infos c : SlotHashKey := ForkInfo.best_slot (info infos c).
Definition kids infos c : list SlotHashKey := ForkInfo.children (info infos c).
Definition voted infos c : Z := ForkInfo.stake_voted_at (info infos c).
Definition latest infos c : option Slot := ForkInfo.latest_invalid_ancestor (info infos c).

(** Heavier, or as heavy and of a smaller key. *)
Definition beats infos c d : Prop :=
  weight infos d < weight infos c \/ weight infos d = weight infos c /\ lt_key c d.

Definition chosen infos (cs : list SlotHashKey) c : Prop :=
  c ∈ cs /\ cand infos c = true /\
  forall d, d ∈ cs -> cand infos d = true -> d = c \/ beats infos c d.

Definition best_of infos k b : Prop :=
  (exists c, chosen infos (kids infos k) c /\ b = best infos c) \/
  (forall c, c ∈ kids infos k -> cand infos c = false) /\ b = k.

(** What a node stores agrees with what its children store. *)
Record local_ok infos k : Prop := {
  local_stake : weight infos k = wrap u64_max (voted infos k + lsum (weight infos) (kids infos k));
  local_best : cand infos k = true -> best_of infos k (best infos k) }.

Lemma beats_trans infos a c d : beats infos a c -> beats infos c d -> beats infos a d.
Proof.
  unfold beats. intros [?|[? H1]] [?|[? H2]]; try (left; lia).
  right. split; [lia|]. by eapply lt_key_trans.
Qed.

Lemma beats_irrefl infos c : ~ beats infos c c.
Proof. intros [?|[_ H]]; [lia|]. by apply lt_key_irrefl in H. Qed.

Lemma chosen_unique infos cs c d : chosen infos cs c -> chosen infos cs d -> c = d.
Proof.
  intros (Hc & Hc1 & Hc2) (Hd & Hd1 & Hd2).
  destruct (Hc2 d Hd Hd1) as [?|H1]; [done|]. destruct (Hd2 c Hc Hc1) as [?|H2]; [done|].
  destruct (beats_irrefl infos c). by eapply beats_trans.
Qed.

Lemma best_of_unique infos k b b' : best_of infos k b -> best_of infos k b' -> b = b'.
Proof.
  intros [(c & Hc & ->)|[Hn ->]] [(d & Hd & ->)|[Hm ->]]; [|..|done].
  - by rewrite (chosen_unique _ _ _ _ Hc Hd).
  - destruct Hc as (Hc & Hc1 & _). rewrite (Hm c Hc) in Hc1. done.
  - destruct Hd as (Hd & Hd1 & _). rewrite (Hn d Hd) in Hd1. done.
Qed.

(** ** The loop over the children *)
Definition aggregate_fold infos k (acc : Aggregation) (cs : list SlotHashKey) : Aggregation :=
  foldl (fun acc c => aggregate_child k acc c (info infos c)) acc cs.

Lemma aggregate_children_fold infos k acc cs :
  (forall c, c ∈ cs -> is_Some (infos !! c)) ->
  aggregate_children infos k acc cs = Ok (aggregate_fold infos k acc cs).
Proof.
  revert acc. induction cs as [|c cs IH]; intros acc Hcs; cbn; [done|].
  rewrite (lookup_info infos c) by (apply Hcs; set_solver). cbn. apply IH. set_solver.
Qed.

Record agg_inv infos k (v : Z) (cs : list SlotHashKey) (acc : Aggregation) : Prop := {
  ai_stake : ag_stake_voted_subtree acc = wrap u64_max (v + lsum (weight infos) cs);
  ai_conf : ag_is_duplicate_confirmed acc = existsb (conf infos) cs;
  ai_best :
    (forall c, c ∈ cs -> cand infos c = false) /\ ag_best_child_slot_key acc = k /\
      ag_best_slot_hash_key acc = k \/
    chosen infos cs (ag_best_child_slot_key acc) /\
      ag_best_child_stake_voted_subtree acc = weight infos (ag_best_child_slot_key acc) /\
      ag_best_slot_hash_key acc = best infos (ag_best_child_slot_key acc) }.

Lemma chosen_snoc_new infos cs c :
  cand infos c = true -> (forall d, d ∈ cs -> cand infos d = true -> beats infos c d) ->
  chosen infos (cs ++ [c]) c.
Proof.
  intros Hc Hb. split; [set_solver|]. split; [done|].
  intros d [Hd|Hd]%elem_of_app Hcd; [right; auto|left; set_solver].
Qed.

Lemma chosen_snoc_old infos cs b c :
  chosen infos cs b -> (cand infos c = true -> c = b \/ beats infos b c) ->
  chosen infos (cs ++ [c]) b.
Proof.
  intros (Hb & Hb1 & Hb2) Hc. split; [set_solver|]. split; [done|].
  intros d [Hd| ->%list_elem_of_singleton]%elem_of_app Hcd; auto.
Qed.

Lemma agg_step infos k v cs acc c :
  k ∉ cs ++ [c] -> agg_inv infos k v cs acc ->
  agg_inv infos k v (cs ++ [c]) (aggregate_child k acc c (info infos c)).
Proof.
  intros Hk [Hs Hconf Hb]. unfold aggregate_child.
  fold (weight infos c) (conf infos c) (cand infos c) (best infos c).
  assert (Hs' : wrapping_add u64_max (ag_stake_voted_subtree acc) (weight infos c)
    = wrap u64_max (v + lsum (weight infos) (cs ++ [c]))).
  { rewrite Hs, lsum_app. cbn. unfold wrapping_add, wrap. rewrite Zplus_mod_idemp_l. f_equal. lia. }
  assert (Hc' : ag_is_duplicate_confirmed acc || conf infos c = existsb (conf infos) (cs ++ [c])).
  { rewrite Hconf, existsb_app. cbn. by rewrite orb_false_r. }
  destruct (cand infos c) eqn:Ec; cbn [andb]; cycle 1.
  { split; cbn; [done|done|]. destruct Hb as [(Hn & ? & ?)|(Hch & ? & ?)].
    - left. split; [|done]. intros d [?| ->%list_elem_of_singleton]%elem_of_app; auto.
    - right. split; [|done]. apply chosen_snoc_old; [done|]. congruence. }
  destruct Hb as [(Hn & Hbk & Hbs)|(Hch & Hw & Hbs)].
  { rewrite bool_decide_true by done. cbn. split; cbn; [done|done|]. right. split; [|done].
    apply chosen_snoc_new; [done|]. intros d Hd Hcd. rewrite (Hn d Hd) in Hcd. done. }
  set (b := ag_best_child_slot_key acc) in *.
  assert (Hbk : b <> k). { intros E. apply Hk. rewrite <- E. destruct Hch as [? _]. set_solver. }
  rewrite bool_decide_false by done. rewrite Hw. cbn [orb].
  destruct ((weight infos b <? weight infos c)
    || (weight infos c =? weight infos b) && bool_decide (lt_key c b)) eqn:Ecmp.
  - split; cbn; [done|done|]. right. split; [|done].
    assert (Hcb : beats infos c b).
    { apply orb_true_iff in Ecmp as [H1|H1]; to_prop; [by left|right]. split; [lia|].
      naive_solver. }
    apply chosen_snoc_new; [done|]. intros d Hd Hcd. destruct Hch as (_ & _ & Hall).
    destruct (Hall d Hd Hcd) as [->|?]; [done|]. by eapply beats_trans.
  - split; cbn; [done|done|]. right. split; [|done]. apply chosen_snoc_old; [done|]. intros _.
    apply orb_false_iff in Ecmp as [H1%Z.ltb_ge H2]. unfold beats.
    destruct (lt_key_trichotomy b c) as [?|[?|Hlt]]; [|by left|].
    + right. destruct (Z.eq_dec (weight infos c) (weight infos b)); [by right|left; lia].
    + right. left. rewrite (bool_decide_true (lt_key c b)) in H2 by done.
      rewrite andb_true_r in H2. apply Z.eqb_neq in H2. lia.
Qed.

Lemma aggregate_fold_inv infos k v cs acc :
  k ∉ cs -> agg_inv infos k v [] acc -> agg_inv infos k v cs (aggregate_fold infos k acc cs).
Proof.
  intros Hk Hacc. unfold aggregate_fold. induction cs as [|c cs IH] using rev_ind; [done|].
  rewrite foldl_app. cbn. apply agg_step; [done|]. apply IH. set_solver.
Qed.

(** ** One aggregation *)
Record aggregated infos k (fi : ForkInfo.t) : Prop := {
  ag_parent : ForkInfo.parent fi = ForkInfo.parent (info infos k);
  ag_children : ForkInfo.children fi = kids infos k;
  ag_voted : ForkInfo.stake_voted_at fi = voted infos k;
  ag_subtree : ForkInfo.stake_voted_subtree fi
    = wrap u64_max (voted infos k + lsum (weight infos) (kids infos k));
  ag_best : best_of infos k (ForkInfo.best_slot fi);
  ag_validity : (ForkInfo.latest_invalid_ancestor fi, ForkInfo.is_duplicate_confirmed fi)
    = if existsb (conf infos) (kids infos k) then (None, true)
      else (latest infos k, conf infos k) }.

Lemma aggregate_slot_spec infos root k :
  tree_ok infos root -> is_Some (infos !! k) -> is_u64 (voted infos k) ->
  exists fi, aggregate_slot infos k = Ok (<[k := fi]> infos) /\ aggregated infos k fi.
Proof.
  intros Hok Hk Hv. unfold aggregate_slot. rewrite (lookup_info infos k Hk).
  fold (voted infos k) (kids infos k).
  assert (Hcs : forall c, c ∈ kids infos k -> parent_rel infos k c)
    by (intros c; apply (child_parent _ _ Hok)).
  assert (Hnot : k ∉ kids infos k).
  { intros H%Hcs%(parent_lt _ _ Hok). lia. }
  rewrite aggregate_children_fold by (intros c Hc; by eapply child_in, Hcs). cbn.
  set (acc := aggregate_fold _ _ _ _).
  assert (Hinv : agg_inv infos k (voted infos k) (kids infos k) acc).
  { apply aggregate_fold_inv; [done|]. split; cbn; [|done|].
    - rewrite Z.add_0_r. by rewrite wrap_small.
    - left. split; [set_solver|done]. }
  clearbody acc. destruct Hinv as [Hs Hc Hb]. rewrite Hc.
  eexists. split; [reflexivity|].
  assert (Hbest : best_of infos k (ag_best_slot_hash_key acc)).
  { destruct Hb as [(? & _ & ?)|(? & _ & ?)]; [by right|left; eauto]. }
  destruct (existsb (conf infos) (kids infos k)) eqn:Ex; split; cbn; try done.
  all: by rewrite Ex.
Qed.

(** ** Trees of the same shape *)
Record same_shape infos infos' : Prop := {
  sh_in : forall k, is_Some (infos' !! k) <-> is_Some (infos !! k);
  sh_parent : forall k, ForkInfo.parent (info infos' k) = ForkInfo.parent (info infos k);
  sh_kids : forall k, kids infos' k = kids infos k }.

Lemma same_shape_refl infos : same_shape infos infos.
Proof. done. Qed.

Lemma same_shape_trans i1 i2 i3 : same_shape i1 i2 -> same_shape i2 i3 -> same_shape i1 i3.
Proof.
  intros [H1 H2 H3] [G1 G2 G3]. split; intros k; [by rewrite G1|by rewrite G2|by rewrite G3].
Qed.

Lemma same_shape_rel infos infos' p c : same_shape infos infos' ->
  parent_rel infos' p c <-> parent_rel infos p c.
Proof. intros [_ H _]. unfold parent_rel. by rewrite H. Qed.

Lemma same_shape_in_subtree infos infos' a k : same_shape infos infos' ->
  in_subtree infos' a k <-> in_subtree infos a k.
Proof.
  intros Hs. split; apply rtc_subrel; intros x y Hxy; by apply (same_shape_rel infos infos').
Qed.

Lemma same_shape_tree_ok infos infos' root : same_shape infos infos' ->
  tree_ok infos root -> tree_ok infos' root.
Proof.
  intros Hs [H1 H2 H3 H4 H5 H6 H7 H8]. pose proof Hs as [G1 G2 G3]. unfold kids in G3. split.
  - by apply G1.
  - by rewrite G2.
  - intros k Hk%G1. rewrite G2. auto.
  - intros p c Hp%(same_shape_rel _ _ _ _ Hs). rewrite G3. auto.
  - intros p c. rewrite G3. intros Hc. apply (same_shape_rel _ _ _ _ Hs). auto.
  - intros p c Hp%(same_shape_rel _ _ _ _ Hs). apply G1. eauto.
  - intros p c Hp%(same_shape_rel _ _ _ _ Hs). eauto.
  - intros k. rewrite G3. auto.
Qed.

Lemma same_shape_insert infos k fi :
  is_Some (infos !! k) -> ForkInfo.parent fi = ForkInfo.parent (info infos k) ->
  ForkInfo.children fi = kids infos k -> same_shape infos (<[k := fi]> infos).
Proof.
  intros Hk Hp Hc. split; intros j; unfold kids in *; rewrite ?info_insert.
  - destruct (decide (k = j)) as [->|]; [rewrite lookup_insert_eq; naive_solver|].
    by rewrite lookup_insert_ne.
  - case_decide as E; [by rewrite <- E|done].
  - case_decide as E; [by rewrite <- E|done].
Qed.

(** ** Local agreement after a change elsewhere *)
Lemma best_of_frame infos infos' k b :
  kids infos' k = kids infos k ->
  (forall c, c ∈ kids infos k -> info infos' c = info infos c) ->
  best_of infos k b -> best_of infos' k b.
Proof.
  intros Hk Hc. unfold best_of, chosen, beats, cand, weight, best. rewrite Hk.
  intros [(c & (H1 & H2 & H3) & ->)|[Hn ->]].
  - left. exists c. rewrite !(Hc c) by done. split; [|done]. split; [done|]. split; [done|].
    intros d Hd. rewrite (Hc d) by done. auto.
  - right. split; [|done]. intros c Hcc. rewrite (Hc c) by done. auto.
Qed.

Lemma local_ok_frame infos infos' k :
  info infos' k = info infos k ->
  (forall c, c ∈ kids infos k -> info infos' c = info infos c) ->
  local_ok infos k -> local_ok infos' k.
Proof.
  intros Hk Hc [Hs Hb]. assert (Hkids : kids infos' k = kids infos k) by (unfold kids; by rewrite Hk).
  split.
  - unfold weight at 1, voted. rewrite Hk, Hkids. fold (weight infos k) (voted infos k).
    rewrite Hs. do 2 f_equal. apply lsum_ext. intros c Hcc. unfold weight. by rewrite Hc.
  - unfold cand, best. rewrite Hk. intros Hcand. apply (best_of_frame infos); auto.
Qed.

Lemma local_ok_absent infos k : infos !! k = None -> local_ok infos k.
Proof.
  intros E. unfold kids. split; unfold weight, voted, kids, best; rewrite (info_absent _ _ E); cbn.
  - done.
  - intros _. right. unfold kids. rewrite (info_absent _ _ E). cbn. set_solver.
Qed.

(** ** Processing a batch *)
Lemma slot_lt_key k k' : fst k < fst k' -> lt_key k k'.
Proof.
  intros Hlt. destruct k as [s h], k' as [s' h']. apply lt_key_pair. left.
  unfold lt_key. cbn. by apply Z.compare_lt_iff.
Qed.

Abbreviation entry := (SlotHashKey * UpdateLabel.t * UpdateOperation.t)%type.
Implicit Types (l : list entry) (op : UpdateOperation.t).

Definition labelled (e : entry) : Prop :=
  match snd e with
  | UpdateOperation.Add _ => snd (fst e) = UpdateLabel.Add
  | UpdateOperation.MarkValid s => snd (fst e) = UpdateLabel.MarkValid s
  | UpdateOperation.MarkInvalid s => snd (fst e) = UpdateLabel.MarkInvalid s
  | UpdateOperation.Subtract _ => snd (fst e) = UpdateLabel.Subtract
  | UpdateOperation.Aggregate => snd (fst e) = UpdateLabel.Aggregate
  end.

Definition is_mark op : bool :=
  match op with UpdateOperation.MarkValid _ | UpdateOperation.MarkInvalid _ => true | _ => false end.

(** Whether the batch aggregates a node, and marks it. *)
Definition sched l k : Prop := (k, UpdateLabel.Aggregate, UpdateOperation.Aggregate) ∈ l.
Definition mark_pending l k : Prop := exists e, e ∈ l /\ fst (fst e) = k /\ is_mark (snd e) = true.

(** The stake a batch adds to the votes for a node. *)
Definition delta op : Z :=
  match op with UpdateOperation.Add s => s | UpdateOperation.Subtract s => - s | _ => 0 end.
Definition pend l k : Z := lsum (fun e => if bool_decide (fst (fst e) = k) then delta (snd e) else 0) l.

(** What marking does to [latest_invalid_ancestor] and
    [is_duplicate_confirmed]. *)
Definition marked (o : option UpdateOperation.t) k (v : option Slot * bool) : option Slot * bool :=
  match o with
  | Some (UpdateOperation.MarkValid s) =>
      (match fst v with Some i => if i <=? s then None else Some i | None => None end,
       snd v || (fst k =? s))
  | Some (UpdateOperation.MarkInvalid s) =>
      (match fst v with Some i => if i <? s then Some s else Some i | None => Some s end, snd v)
  | _ => v
  end.

Definition validity infos k : option Slot * bool := (latest infos k, conf infos k).

Definition key_gt (e e' : entry) : Prop := lt_key (fst e') (fst e).

Section Process.
Context (infos0 : tree) (root : SlotHashKey) (Hok0 : tree_ok infos0 root).
(** Marks by node, and the validity the batch leads to. *)
Context (mk : SlotHashKey -> option UpdateOperation.t).
Context (V : SlotHashKey -> option Slot * bool).
(** The votes for each node afterwards. *)
Context (T : SlotHashKey -> Z).

Record batch_ok l : Prop := {
  b_sorted : StronglySorted key_gt l;
  b_labelled : forall e, e ∈ l -> labelled e;
  b_closed : forall e a, e ∈ l -> a <> fst (fst e) -> in_subtree infos0 a (fst (fst e)) -> sched l a;
  b_marks : forall e, e ∈ l -> is_mark (snd e) = true ->
    sched l (fst (fst e)) /\ mk (fst (fst e)) = Some (snd e);
  (** confirmed blocks are not marked invalid *)
  b_unconfirmed : forall k s, mk k = Some (UpdateOperation.MarkInvalid s) -> conf infos0 k = false;
  b_valid : forall k, is_Some (infos0 !! k) -> sched l k ->
    V k = if existsb (fun c => snd (V c)) (kids infos0 k) then (None, true)
          else marked (mk k) k (validity infos0 k) }.

Record batch_inv infos l : Prop := {
  i_shape : same_shape infos0 infos;
  i_local : forall k, ~ sched l k -> local_ok infos k;
  i_voted : forall k, is_u64 (voted infos k) /\
    (is_Some (infos0 !! k) -> wrap u64_max (voted infos k + pend l k) = T k);
  i_marked : forall k, is_Some (infos0 !! k) ->
    (mark_pending l k -> validity infos k = validity infos0 k) /\
    (~ mark_pending l k -> sched l k -> validity infos k = marked (mk k) k (validity infos0 k)) /\
    (~ sched l k -> validity infos k = V k);
  i_best : forall k, in_subtree infos0 k (best infos k) }.

Lemma sched_cons e l k : sched (e :: l) k <-> e = (k, UpdateLabel.Aggregate, UpdateOperation.Aggregate) \/ sched l k.
Proof. unfold sched. rewrite elem_of_cons. naive_solver. Qed.

Lemma mark_pending_cons e l k :
  mark_pending (e :: l) k <-> fst (fst e) = k /\ is_mark (snd e) = true \/ mark_pending l k.
Proof. unfold mark_pending. set_solver. Qed.

(** Entries that remain are of smaller keys. *)
Lemma rest_lt e l e' : StronglySorted key_gt (e :: l) -> e' ∈ l -> lt_key (fst e') (fst e).
Proof.
  intros H Hin. inversion H as [|? ? _ Hall]; subst. rewrite Forall_forall in Hall. by apply Hall.
Qed.

(** Once a node is at the head for aggregation, its marks are done, and so
    are the aggregations of its children. *)
Lemma head_aggregate k l :
  StronglySorted key_gt ((k, UpdateLabel.Aggregate, UpdateOperation.Aggregate) :: l) ->
  (forall e, e ∈ l -> labelled e) ->
  ~ mark_pending l k /\ ~ sched l k /\ (forall c, c ∈ kids infos0 k -> ~ sched l c /\ ~ mark_pending l c).
Proof.
  intros Hs Hlab. split_and!.
  - intros (e & He & <- & Hm). pose proof (rest_lt _ _ _ Hs He) as Hlt. specialize (Hlab e He).
    destruct e as [[j lab] op]. cbn in *. apply lt_key_pair in Hlt as [Hlt|[_ Hlt]].
    + by apply lt_key_irrefl in Hlt.
    + unfold labelled in Hlab. cbn in Hlab. destruct op; try done; rewrite Hlab in Hlt; done.
  - intros Hin. pose proof (rest_lt _ _ _ Hs Hin) as Hlt. by apply lt_key_irrefl in Hlt.
  - intros c Hc%(child_parent _ _ Hok0)%(parent_lt _ _ Hok0)%slot_lt_key.
    assert (Hno : forall e, e ∈ l -> fst (fst e) <> c).
    { intros [[j lab] op] He <-. pose proof (rest_lt _ _ _ Hs He) as Hlt. cbn in *.
      apply lt_key_pair in Hlt as [Hlt|[-> _]]; [exact (lt_key_asym _ _ Hlt Hc)|by apply lt_key_irrefl in Hc]. }
    split; [intros Hin; by apply (Hno _ Hin)|]. intros (e & He & E & _). by apply (Hno e).
Qed.

(** Changing node [j], whose parent is still to be aggregated. *)
Lemma locals_after infos l e j fi :
  batch_ok (e :: l) -> batch_inv infos (e :: l) -> fst (fst e) = j ->
  same_shape infos0 (<[j := fi]> infos) ->
  (~ sched l j -> local_ok (<[j := fi]> infos) j) ->
  forall k, ~ sched l k -> local_ok (<[j := fi]> infos) k.
Proof.
  intros Hb Hi Hj Hsh Hloc k Hk. destruct (decide (k = j)) as [->|Hne]; [auto|].
  apply (local_ok_frame infos).
  - by rewrite info_insert_ne.
  - intros c Hc. rewrite info_insert_ne; [done|]. intros ->. apply Hk.
    rewrite (sh_kids _ _ (i_shape _ _ Hi)) in Hc. apply (child_parent _ _ Hok0) in Hc.
    assert (Hin : sched (e :: l) k).
    { apply (b_closed _ Hb e); [set_solver|by rewrite Hj|rewrite Hj; by apply rtc_once]. }
    apply sched_cons in Hin as [->|?]; done.
  - apply (i_local _ _ Hi). rewrite sched_cons. intros [->|?]; done.
Qed.

Lemma label_above_aggregate e : labelled e -> is_mark (snd e) = true ->
  lt_key UpdateLabel.Aggregate (snd (fst e)).
Proof.
  destruct e as [[j lab] op]. unfold labelled. cbn. destruct op; cbn; intros -> ?; done.
Qed.

Lemma batch_ok_tail e l : batch_ok (e :: l) -> batch_ok l.
Proof.
  intros [Hs Hlab Hcl Hm Hu Hv].
  assert (Hlow : forall e' k, e' ∈ l -> lt_key (k, UpdateLabel.Aggregate) (fst e') ->
    sched (e :: l) k -> sched l k).
  { intros e' k He Hlt [->|?]%sched_cons; [|done]. pose proof (rest_lt _ _ _ Hs He) as Hgt.
    destruct (lt_key_asym _ _ Hlt Hgt). }
  split.
  - by inversion Hs.
  - intros e' He. apply Hlab. set_solver.
  - intros e' a He Hne Ha. apply (Hlow e' a He).
    + destruct e' as [[j lab] op]. cbn in *. apply lt_key_pair. left. apply slot_lt_key.
      destruct (in_subtree_le infos0 root Hok0 _ _ Ha); [done|lia].
    + apply (Hcl e'); set_solver.
  - intros e' He Hmk. destruct (Hm e' ltac:(set_solver) Hmk) as [Hsc Hmk'].
    split; [|done]. apply (Hlow e'); [done| |done].
    pose proof (label_above_aggregate e' (Hlab e' ltac:(set_solver)) Hmk).
    destruct e' as [[j lab] op]. apply lt_key_pair. right. done.
  - done.
  - intros k Hk Hsc. apply Hv; [done|]. apply sched_cons. by right.
Qed.

Lemma pend_cons e l k :
  pend (e :: l) k = (if bool_decide (fst (fst e) = k) then delta (snd e) else 0) + pend l k.
Proof. done. Qed.
#[local] Arguments pend : simpl never.

Lemma step_absent infos e l :
  infos0 !! fst (fst e) = None -> batch_inv infos (e :: l) -> batch_inv infos l.
Proof.
  intros Ha [Hsh Hloc Hvo Hm Hb].
  assert (Hne : forall k, is_Some (infos0 !! k) -> fst (fst e) <> k).
  { intros k Hk <-. rewrite Ha in Hk. by destruct Hk. }
  split; [done| | | |done].
  - intros k Hk. destruct (decide (e = (k, UpdateLabel.Aggregate, UpdateOperation.Aggregate))) as [->|].
    + apply local_ok_absent. cbn in Ha. destruct (infos !! k) eqn:E; [|done].
      assert (is_Some (infos0 !! k)) as Hin by (apply (sh_in _ _ Hsh); by eexists).
      rewrite Ha in Hin. by destruct Hin.
    + apply Hloc. rewrite sched_cons. naive_solver.
  - intros k. destruct (Hvo k) as [? Hv]. split; [done|]. intros Hk. specialize (Hv Hk).
    rewrite pend_cons, bool_decide_false in Hv by auto. exact Hv.
  - intros k Hk. destruct (Hm k Hk) as (H1 & H2 & H3). specialize (Hne k Hk).
    rewrite mark_pending_cons, sched_cons in *. split_and!.
    + intros ?. apply H1. by right.
    + intros ? ?. apply H2; [naive_solver|by right].
    + intros ?. apply H3. intros [->|?]; done.
Qed.

(** Replacing the node an operation is for. *)
Lemma step_change infos e l fi :
  let j := fst (fst e) in
  batch_ok (e :: l) -> batch_inv infos (e :: l) -> is_Some (infos0 !! j) ->
  ForkInfo.parent fi = ForkInfo.parent (info infos j) ->
  ForkInfo.children fi = kids infos j ->
  is_u64 (ForkInfo.stake_voted_at fi) ->
  wrap u64_max (ForkInfo.stake_voted_at fi + pend l j)
    = wrap u64_max (voted infos j + pend (e :: l) j) ->
  in_subtree infos0 j (ForkInfo.best_slot fi) ->
  (~ sched l j -> local_ok (<[j := fi]> infos) j) ->
  (let v := (ForkInfo.latest_invalid_ancestor fi, ForkInfo.is_duplicate_confirmed fi) in
   (mark_pending l j -> v = validity infos0 j) /\
   (~ mark_pending l j -> sched l j -> v = marked (mk j) j (validity infos0 j)) /\
   (~ sched l j -> v = V j)) ->
  batch_inv (<[j := fi]> infos) l.
Proof.
  intros j Hb Hi Hj Hp Hc Hu Hv Hbest Hloc Hval. pose proof Hi as [Hsh _ Hvo Hm Hbi].
  assert (Hin : is_Some (infos !! j)) by (by apply (sh_in _ _ Hsh)).
  assert (Hsh' : same_shape infos0 (<[j := fi]> infos)).
  { eapply same_shape_trans; [exact Hsh|]. by apply same_shape_insert. }
  split; [done|by eapply locals_after| | |].
  - intros k. unfold voted. rewrite info_insert. case_decide as E.
    + subst k. split; [done|]. intros _. rewrite Hv. by apply Hvo.
    + destruct (Hvo k) as [? H]. split; [done|]. intros Hk. rewrite <- (H Hk).
      by rewrite pend_cons, bool_decide_false.
  - intros k Hk. unfold validity at 1 3 5, latest, conf. rewrite info_insert. case_decide as E.
    + subst k. exact Hval.
    + destruct (Hm k Hk) as (H1 & H2 & H3). rewrite mark_pending_cons, sched_cons in *.
      split_and!.
      * intros ?. apply H1. by right.
      * intros ? ?. apply H2; [naive_solver|by right].
      * intros ?. apply H3. intros [->|?]; done.
  - intros k. unfold best. rewrite info_insert. case_decide as E; [by subst k|apply Hbi].
Qed.

Lemma kids_irrefl infos k : same_shape infos0 infos -> k ∉ kids infos k.
Proof.
  intros Hsh Hk. rewrite (sh_kids _ _ Hsh) in Hk.
  apply (child_parent _ _ Hok0) in Hk. apply (parent_lt _ _ Hok0) in Hk. lia.
Qed.

(** Votes for a node count in its subtree too. *)
Lemma step_stake infos j lab op l d :
  batch_ok ((j, lab, op) :: l) -> batch_inv infos ((j, lab, op) :: l) -> is_Some (infos0 !! j) ->
  is_mark op = false -> op <> UpdateOperation.Aggregate -> delta op = d ->
  batch_inv (<[j := ForkInfo.with_stakes (info infos j) (wrap u64_max (voted infos j + d))
                      (wrap u64_max (weight infos j + d))]> infos) l.
Proof.
  intros Hb Hi Hj Hnm Hna Hd. pose proof Hi as [Hsh Hloc Hvo Hm Hbi].
  assert (Hsc : sched ((j, lab, op) :: l) j <-> sched l j).
  { rewrite sched_cons. naive_solver. }
  apply (step_change infos (j, lab, op) l); cbn; try done.
  - apply wrap_range. done.
  - rewrite pend_cons, bool_decide_true by done. cbn. rewrite Hd. unfold wrap.
    rewrite Zplus_mod_idemp_l. f_equal. lia.
  - intros Hns. rewrite <- Hsc in Hns. destruct (Hloc j Hns) as [Hs Hbest].
    set (infos' := <[j := _]> infos).
    assert (Hkids : forall c, c ∈ kids infos j -> info infos' c = info infos c).
    { intros c Hc. apply info_insert_ne. intros ->. by apply (kids_irrefl infos c). }
    assert (Hk : kids infos' j = kids infos j) by (unfold kids, infos'; by rewrite info_insert_eq).
    split.
    + rewrite Hk. unfold weight at 1, voted, infos'. rewrite info_insert_eq. cbn.
      rewrite (lsum_ext _ (weight infos)) by (intros c Hc; unfold weight; by rewrite Hkids).
      rewrite Hs. unfold wrap. rewrite !Zplus_mod_idemp_l. f_equal. unfold voted. lia.
    + unfold cand, best, infos'. rewrite info_insert_eq. cbn. intros Hc.
      apply (best_of_frame infos); [done|done|]. by apply Hbest.
  - destruct (Hm j Hj) as (H1 & H2 & H3). rewrite Hsc, mark_pending_cons in *. cbn in *.
    rewrite Hnm in *. split_and!; [intros; apply H1; by right|intros; apply H2; naive_solver|done].
Qed.

Lemma step_mark infos j lab op l fi :
  batch_ok ((j, lab, op) :: l) -> batch_inv infos ((j, lab, op) :: l) -> is_Some (infos0 !! j) ->
  is_mark op = true ->
  fi = ForkInfo.with_validity (info infos j) (fst (marked (Some op) j (validity infos j)))
         (snd (marked (Some op) j (validity infos j))) ->
  batch_inv (<[j := fi]> infos) l.
Proof.
  intros Hb Hi Hj Hmk ->. pose proof Hi as [Hsh Hloc Hvo Hm Hbi].
  destruct (b_marks _ Hb (j, lab, op)) as [Hsc Hop]; [set_solver|done|]. cbn in Hsc, Hop.
  assert (Hsl : sched l j). { apply sched_cons in Hsc as [E|?]; [simplify_eq; done|done]. }
  assert (Hdone : ~ mark_pending l j).
  { intros (e & He & Ej & Hme).
    destruct (b_marks _ Hb e) as [_ Hop']; [set_solver|done|]. rewrite Ej, Hop in Hop'.
    pose proof (b_labelled _ Hb e ltac:(set_solver)) as L1.
    pose proof (b_labelled _ Hb (j, lab, op) ltac:(set_solver)) as L2.
    destruct e as [[j' lab'] op']. cbn in *. subst j'. injection Hop' as <-.
    pose proof (rest_lt _ _ _ (b_sorted _ Hb) He) as Hlt. cbn in Hlt.
    unfold labelled in L1, L2. cbn in *. destruct op; try done; rewrite L1, L2 in Hlt;
      by apply lt_key_irrefl in Hlt. }
  assert (Hv : validity infos j = validity infos0 j).
  { apply (Hm j Hj). apply mark_pending_cons. by left. }
  remember (marked (Some op) j (validity infos j)) as m eqn:Em.
  apply (step_change infos (j, lab, op) l); cbn; try done.
  - apply Hvo.
  - rewrite pend_cons, bool_decide_true by done. destruct op; try done.
  - split_and!; [done| |done]. intros _ _. rewrite Hop, <- Hv, <- Em. by destruct m.
Qed.

Lemma step_aggregate infos j l :
  batch_ok ((j, UpdateLabel.Aggregate, UpdateOperation.Aggregate) :: l) ->
  batch_inv infos ((j, UpdateLabel.Aggregate, UpdateOperation.Aggregate) :: l) ->
  is_Some (infos0 !! j) ->
  exists infos', aggregate_slot infos j = Ok infos' /\ batch_inv infos' l.
Proof.
  intros Hb Hi Hj. pose proof Hi as [Hsh Hloc Hvo Hm Hbi].
  pose proof (same_shape_tree_ok _ _ _ Hsh Hok0) as Hok.
  destruct (aggregate_slot_spec infos root j Hok) as (fi & E & [Hp Hc Ha Hs Hbest Hval]);
    [by apply (sh_in _ _ Hsh)|apply Hvo|].
  destruct (head_aggregate j l (b_sorted _ Hb)) as (Hmp & Hns & Hcs);
    [intros e He; apply (b_labelled _ Hb); set_solver|].
  assert (Hconf : existsb (conf infos) (kids infos j) = existsb (fun c => snd (V c)) (kids infos0 j)).
  { rewrite (sh_kids _ _ Hsh). apply eq_true_iff_eq. rewrite !existsb_exists.
    assert (Hch : forall c, c ∈ kids infos0 j -> conf infos c = snd (V c)).
    { intros c Hcc. destruct (Hcs c Hcc) as [Hn1 Hn2].
      assert (Hin : is_Some (infos0 !! c)) by (by eapply child_in, (child_parent _ _ Hok0)).
      destruct (Hm c Hin) as (_ & _ & H3). rewrite sched_cons in H3.
      rewrite <- H3; [done|]. intros [E'|?]; [|done]. simplify_eq.
      by apply (kids_irrefl infos0 c) in Hcc. }
    split; intros (c & Hin & Hcc); exists c; (split; [done|]);
      apply list_elem_of_In in Hin; by rewrite ?(Hch c Hin) in *. }
  exists (<[j := fi]> infos). split; [done|].
  apply (step_change infos (j, UpdateLabel.Aggregate, UpdateOperation.Aggregate) l); cbn; try done.
  - rewrite Ha. apply Hvo.
  - rewrite pend_cons, bool_decide_true by done. cbn. by rewrite Ha.
  - destruct Hbest as [(c & (Hcc & _) & ->)|[_ ->]]; [|apply rtc_refl].
    rewrite (sh_kids _ _ Hsh) in Hcc. eapply rtc_l; [|apply Hbi].
    by apply (child_parent _ _ Hok0).
  - intros _. assert (Hkids : forall c, c ∈ kids infos j -> info (<[j := fi]> infos) c = info infos c).
    { intros c Hcc. apply info_insert_ne. intros ->. by apply (kids_irrefl infos c). }
    split.
    + unfold weight at 1, voted, kids. rewrite info_insert_eq, Hs, Hc, Ha.
      do 2 f_equal. apply lsum_ext. intros c Hcc. unfold weight. by rewrite Hkids.
    + unfold best. rewrite info_insert_eq. intros _. apply (best_of_frame infos); [|done|done].
      unfold kids. by rewrite info_insert_eq.
  - split_and!; [done|done|]. intros _. rewrite Hval, Hconf.
    rewrite (b_valid _ Hb j Hj) by (apply sched_cons; by left).
    destruct (existsb (fun c => snd (V c)) (kids infos0 j)); [done|]. fold (validity infos j).
    apply (Hm j Hj); [|apply sched_cons; by left]. rewrite mark_pending_cons. naive_solver.
Qed.

Lemma process_operation_absent infos j op : infos !! j = None -> process_operation infos j op = Ok infos.
Proof.
  intros E. destruct op; cbn; unfold add_slot_stake, mark_fork_valid, mark_fork_invalid,
    subtract_slot_stake, aggregate_slot; by rewrite E.
Qed.

Lemma process_step infos e l :
  batch_ok (e :: l) -> batch_inv infos (e :: l) ->
  exists infos', process_operation infos (fst (fst e)) (snd e) = Ok infos' /\ batch_inv infos' l.
Proof.
  intros Hb Hi. destruct e as [[j lab] op]. cbn [fst snd].
  pose proof (i_shape _ _ Hi) as Hsh. pose proof (b_labelled _ Hb (j, lab, op) ltac:(set_solver)) as L.
  destruct (infos0 !! j) as [fi0|] eqn:E0; cycle 1.
  { exists infos. split; [|by apply (step_absent infos (j, lab, op))]. apply process_operation_absent.
    destruct (infos !! j) eqn:E; [|done]. assert (is_Some (infos0 !! j)) as Hin
      by (apply (sh_in _ _ Hsh); by eexists). rewrite E0 in Hin. by destruct Hin. }
  assert (Hj : is_Some (infos0 !! j)) by (by eexists).
  assert (Hl : infos !! j = Some (info infos j)) by (by apply lookup_info, (sh_in _ _ Hsh)).
  destruct op as [s|s|s|s|]; cbn [process_operation].
  - unfold add_slot_stake. rewrite Hl. eexists. split; [reflexivity|].
    by apply (step_stake infos j lab (UpdateOperation.Add s)).
  - unfold mark_fork_valid. rewrite Hl. eexists. split; [reflexivity|].
    apply (step_mark infos j lab (UpdateOperation.MarkValid s)); try done.
    unfold ForkInfo.update_with_newly_valid_ancestor, validity, latest, conf. cbn.
    destruct (info infos j) as [? ? ? ? ? [i|] cf]; cbn; [destruct (i <=? s)|];
      destruct (fst j =? s); unfold ForkInfo.with_validity; cbn; by rewrite ?orb_true_r, ?orb_false_r.
  - unfold mark_fork_invalid. rewrite Hl.
    destruct (b_marks _ Hb (j, lab, UpdateOperation.MarkInvalid s)) as [_ Hop]; [set_solver|done|].
    cbn in Hop. pose proof (b_unconfirmed _ Hb j s Hop) as Hu.
    assert (Hv : validity infos j = validity infos0 j).
    { apply (i_marked _ _ Hi j Hj). apply mark_pending_cons. by left. }
    assert (Hcf : ForkInfo.is_duplicate_confirmed (info infos j) = false).
    { injection Hv as _ Hc2. unfold conf in *. by rewrite Hc2. }
    unfold ForkInfo.update_with_newly_invalid_ancestor. rewrite Hcf. cbn.
    eexists. split; [reflexivity|].
    apply (step_mark infos j lab (UpdateOperation.MarkInvalid s)); try done.
    unfold validity, latest, conf. cbn.
    destruct (info infos j) as [? ? ? ? ? [i|] cf]; cbn in *; [destruct (i <? s)|]; by subst cf.
  - unfold subtract_slot_stake. rewrite Hl. eexists. split; [reflexivity|].
    by apply (step_stake infos j lab (UpdateOperation.Subtract s)).
  - unfold labelled in L. cbn in L. subst lab. by apply step_aggregate.
Qed.

Lemma process_operations_spec infos l :
  batch_ok l -> batch_inv infos l ->
  exists infos', process_operations infos l = Ok infos' /\ batch_inv infos' [].
Proof.
  revert infos. induction l as [|[[j lab] op] l IH]; intros infos Hb Hi; [by eexists|].
  destruct (process_step infos (j, lab, op) l Hb Hi) as (infos1 & E & Hi1).
  cbn in E |- *. rewrite E. cbn. apply IH; [by eapply batch_ok_tail|done].
Qed.
End Process.
