(* ===== verification/ForkChoiceProofs.v ===== *)
(** * Fork choice keeps its figures up to date

    The invariant [fc_ok]: the tree is well formed, every node agrees with its
    children, the stake voted for a node is that of the latest votes, and the
    marks of invalid and confirmed blocks are consistent.  Each operation of
    [ForkChoice] succeeds and preserves it. *)

From stdpp Require Import base gmap list fin_maps strings relations sorting.
From Stdlib Require Import ZArith Lia.
From S2P Require Import Prelude Sdk MapOrder Epochs StakesCache ForkChoice ForkChoiceTree ForkChoiceAggregate.
Import HeaviestSubtree.

Implicit Types (infos : tree) (k p c a : SlotHashKey) (ops : UpdateOperations).

(** ** The invariant *)
Section Invariant.
(** The stake of a validator for votes in a slot. *)
Context (weigh : Pubkey -> Slot -> Z).

Definition voted_for (votes : gmap Pubkey SlotHashKey) k : Z :=
  wsum (fun pk v => if bool_decide (v = k) then weigh pk (fst v) else 0) votes.

Lemma voted_for_none votes k :
  (forall pk, votes !! pk <> Some k) -> voted_for votes k = 0.
Proof.
  intros Hn. unfold voted_for. rewrite (wsum_ext _ (fun _ _ => 0)).
  - apply lsum_zero. by intros [].
  - intros pk v E. rewrite bool_decide_false; [done|]. intros ->. by apply (Hn pk).
Qed.

Record validity_ok infos : Prop := {
  v_slot : forall k i, latest infos k = Some i -> i <= fst k;
  v_down : forall p c i, parent_rel infos p c -> latest infos p = Some i ->
    exists i', latest infos c = Some i' /\ i <= i';
  v_up : forall p c, parent_rel infos p c -> conf infos c = true -> conf infos p = true;
  v_cand : forall k, conf infos k = true -> latest infos k = None }.

Record fc_ok (s : HeaviestSubtreeForkChoice) : Prop := {
  fc_tree : tree_ok (fork_infos s) (root s);
  fc_local : forall k, local_ok (fork_infos s) k;
  fc_best : forall k, in_subtree (fork_infos s) k (best (fork_infos s) k);
  fc_votes : forall k, is_Some (fork_infos s !! k) ->
    voted (fork_infos s) k = wrap u64_max (voted_for (latest_votes s) k);
  fc_valid : validity_ok (fork_infos s) }.

Lemma voted_u64 s k : fc_ok s -> is_u64 (voted (fork_infos s) k).
Proof.
  intros H. destruct (fork_infos s !! k) as [fi|] eqn:E.
  - rewrite (fc_votes _ H) by (by eexists). by apply wrap_range.
  - unfold voted. rewrite (info_absent _ _ E). done.
Qed.
End Invariant.

(** ** Batches as maps *)
Definition agg ops k : Prop :=
  ops !! (k, UpdateLabel.Aggregate) = Some UpdateOperation.Aggregate.
#[global] Instance agg_dec ops k : Decision (agg ops k).
Proof. unfold agg. apply _. Defined.
Definition pending ops k : Z :=
  wsum (fun key op => if bool_decide (fst key = k) then delta op else 0) ops.

Record ops_ok infos (mk : SlotHashKey -> option UpdateOperation.t) ops : Prop := {
  o_labelled : forall key op, ops !! key = Some op -> labelled (key, op);
  o_closed : forall key op a, ops !! key = Some op -> a <> fst key ->
    in_subtree infos a (fst key) -> agg ops a;
  o_marks : forall key op, ops !! key = Some op -> is_mark op = true ->
    agg ops (fst key) /\ mk (fst key) = Some op;
  o_marked : forall k op, mk k = Some op -> is_mark op = true /\ exists lab, ops !! (k, lab) = Some op }.

Lemma elem_of_entries ops (e : entry) :
  e ∈ reverse (sorted_entries ops) <-> ops !! fst e = Some (snd e).
Proof.
  rewrite elem_of_reverse, sorted_entries_Permutation. destruct e as [key op].
  by rewrite elem_of_map_to_list.
Qed.

Lemma pend_entries ops k : pend (reverse (sorted_entries ops)) k = pending ops k.
Proof.
  unfold pend, pending, wsum. apply lsum_Permutation.
  rewrite reverse_Permutation. apply sorted_entries_Permutation.
Qed.

Lemma sched_entries ops k : sched (reverse (sorted_entries ops)) k <-> agg ops k.
Proof. unfold sched. by rewrite elem_of_entries. Qed.

Record processed infos ops (V : SlotHashKey -> option Slot * bool) infos' : Prop := {
  pr_shape : same_shape infos infos';
  pr_local : forall k, local_ok infos' k;
  pr_best : forall k, in_subtree infos' k (best infos' k);
  pr_voted : forall k, is_Some (infos !! k) ->
    voted infos' k = wrap u64_max (voted infos k + pending ops k);
  pr_valid : forall k, is_Some (infos !! k) -> validity infos' k = V k }.

Lemma process_batch weigh s ops mk V :
  fc_ok weigh s -> ops_ok (fork_infos s) mk ops ->
  (forall k i, mk k = Some (UpdateOperation.MarkInvalid i) -> conf (fork_infos s) k = false) ->
  (forall k, is_Some (fork_infos s !! k) ->
    V k = if decide (agg ops k) then
            if existsb (fun c => snd (V c)) (kids (fork_infos s) k) then (None, true)
            else marked (mk k) k (validity (fork_infos s) k)
          else validity (fork_infos s) k) ->
  exists infos', process_update_operations s ops = Ok (with_infos s infos') /\
    processed (fork_infos s) ops V infos'.
Proof.
  intros Hs [Hlab Hcl Hmk Hmkd] Hun HV. pose proof (fc_tree _ _ Hs) as Hok.
  set (l := reverse (sorted_entries ops)).
  assert (Hl : forall e, e ∈ l <-> ops !! fst e = Some (snd e)) by apply elem_of_entries.
  assert (Hsc : forall k, sched l k <-> agg ops k) by apply sched_entries.
  assert (Hb : batch_ok (fork_infos s) mk V l).
  { split.
    - apply reverse_sorted_entries.
    - intros [key op] He. apply Hlab. by apply (Hl (key, op)).
    - intros [key op] a He Hne Ha. apply Hsc. apply (Hcl key op); try done. by apply (Hl (key, op)).
    - intros [key op] He Hm. rewrite Hsc. apply (Hmk key op); [by apply (Hl (key, op))|done].
    - done.
    - intros k Hk Hag%Hsc. rewrite (HV k Hk). by rewrite decide_True. }
  set (T k := wrap u64_max (voted (fork_infos s) k + pending ops k)).
  assert (Hi : batch_inv (fork_infos s) mk V T (fork_infos s) l).
  { split; [apply same_shape_refl|intros; apply (fc_local _ _ Hs)| | |apply (fc_best _ _ Hs)].
    - intros k. split; [by eapply voted_u64|]. intros _. unfold T. by rewrite <- pend_entries.
    - intros k Hk. split; [done|]. split.
      + intros Hnm _. destruct (mk k) as [op|] eqn:E; [|done]. destruct Hnm.
        destruct (Hmkd k op E) as (Hm & lab & Ho). exists (k, lab, op). by rewrite Hl.
      + intros Hns. rewrite (HV k Hk). rewrite decide_False; [done|]. by rewrite <- Hsc. }
  destruct (process_operations_spec (fork_infos s) (root s) Hok mk V T (fork_infos s) l Hb Hi)
    as (infos' & E & [Hsh Hloc Hvo Hm Hbi]).
  exists infos'. unfold process_update_operations. fold l. rewrite E. split; [done|].
  assert (Hnil : forall k, ~ sched [] k) by (intros k; unfold sched; set_solver).
  split; [done|auto| | |].
  - intros k. by apply (same_shape_in_subtree _ _ _ _ Hsh).
  - intros k Hk. destruct (Hvo k) as [Hu Hv]. specialize (Hv Hk). cbn in Hv.
    unfold pend in Hv. cbn in Hv. rewrite Z.add_0_r, wrap_small in Hv by done. exact Hv.
  - intros k Hk. by apply (Hm k Hk).
Qed.

(** A batch without marks leaves the validity of blocks as it is. *)
Lemma no_marks_valid infos root ops k :
  tree_ok infos root -> validity_ok infos -> is_Some (infos !! k) ->
  validity infos k = if decide (agg ops k) then
      if existsb (fun c => snd (validity infos c)) (kids infos k) then (None, true)
      else marked None k (validity infos k)
    else validity infos k.
Proof.
  intros Hok Hv Hk. case_decide; [|done]. destruct (existsb _ _) eqn:E; [|done].
  apply existsb_exists in E as (c & Hc & Hcc). apply list_elem_of_In in Hc. cbn in Hcc.
  apply (child_parent _ _ Hok) in Hc. pose proof (v_up _ Hv _ _ Hc Hcc) as Hcf.
  unfold validity. by rewrite Hcf, (v_cand _ Hv _ Hcf).
Qed.

Lemma validity_ok_same infos infos' :
  same_shape infos infos' -> (forall k, is_Some (infos !! k) -> validity infos' k = validity infos k) ->
  validity_ok infos -> validity_ok infos'.
Proof.
  intros Hsh Hv [H1 H2 H3 H4].
  assert (He : forall k, latest infos' k = latest infos k /\ conf infos' k = conf infos k).
  { intros k. destruct (infos !! k) as [fi|] eqn:E.
    - specialize (Hv k ltac:(by eexists)). by injection Hv.
    - assert (infos' !! k = None) as E'.
      { destruct (infos' !! k) eqn:E'; [|done]. assert (is_Some (infos !! k)) as Hin
          by (apply (sh_in _ _ Hsh); by eexists). rewrite E in Hin. by destruct Hin. }
      unfold latest, conf. by rewrite (info_absent _ _ E), (info_absent _ _ E'). }
  split.
  - intros k i. rewrite (proj1 (He k)). apply H1.
  - intros p c i Hp%(same_shape_rel _ _ _ _ Hsh). rewrite (proj1 (He p)), (proj1 (He c)). eauto.
  - intros p c Hp%(same_shape_rel _ _ _ _ Hsh). rewrite (proj2 (He p)), (proj2 (He c)). eauto.
  - intros k. rewrite (proj1 (He k)), (proj2 (He k)). apply H4.
Qed.

(** ** Scheduling ancestors *)
Lemma do_insert_none ops k :
  (forall op, ops !! (k, UpdateLabel.Aggregate) = Some op -> op = UpdateOperation.Aggregate) ->
  (agg ops k /\ do_insert_aggregate_operation ops None k = (ops, false)) \/
  (ops !! (k, UpdateLabel.Aggregate) = None /\
   do_insert_aggregate_operation ops None k
     = (<[(k, UpdateLabel.Aggregate) := UpdateOperation.Aggregate]> ops, true)).
Proof.
  intros Hl. unfold do_insert_aggregate_operation, agg.
  destruct (ops !! (k, UpdateLabel.Aggregate)) as [op|] eqn:E; [left|right; done].
  by rewrite (Hl op eq_refl).
Qed.

Definition agg_typed ops : Prop :=
  forall k op, ops !! (k, UpdateLabel.Aggregate) = Some op -> op = UpdateOperation.Aggregate.

(** What inserting the ancestors of [k] makes of a batch. *)
Record ancestors_added infos k ops ops' : Prop := {
  aa_agg : forall a, agg ops' a <-> agg ops a \/ a <> k /\ in_subtree infos a k;
  aa_other : forall a lab, lab <> UpdateLabel.Aggregate -> ops' !! (a, lab) = ops !! (a, lab);
  aa_typed : agg_typed ops' }.

Lemma insert_across_spec infos root k ops :
  tree_ok infos root -> agg_typed ops ->
  (forall a, a <> k -> in_subtree infos a k -> agg ops a ->
    forall b, b <> a -> in_subtree infos b a -> agg ops b) ->
  ancestors_added infos k ops (insert_across ops None (ancestor_iterator infos k)).
Proof.
  intros Hok. remember (ancestor_iterator infos k) as l eqn:El. revert k ops El.
  induction l as [|p l IH]; intros k ops El Hty Hcl; cbn.
  { split; [|done|done]. intros a. split; [by left|]. intros [?|Ha]; [done|].
    apply (ancestors_spec infos root Hok) in Ha. rewrite <- El in Ha. set_solver. }
  destruct (ForkInfo.parent (info infos k)) as [p'|] eqn:Ep; cycle 1.
  { rewrite ancestors_nil in El by done. done. }
  rewrite (ancestors_cons infos root Hok k p' Ep) in El. injection El as <- ->.
  assert (Hp : parent_rel infos p k) by done. pose proof (parent_lt _ _ Hok _ _ Hp) as Hlt.
  assert (Hpk : p <> k) by (intros ->; lia).
  assert (Hanc : forall a, a <> k /\ in_subtree infos a k <-> a = p \/ a <> p /\ in_subtree infos a p).
  { intros a. split.
    - intros [Hne [->|(q & Hq & Ha)]%in_subtree_inv_r]; [done|].
      rewrite (parent_rel_fun infos _ _ _ Hq Hp) in Ha. destruct (decide (a = p)); auto.
    - assert (forall b, in_subtree infos b p -> b <> k /\ in_subtree infos b k) as Hup.
      { intros b Hb. split; [|by eapply rtc_r]. intros ->.
        destruct (in_subtree_le infos root Hok _ _ Hb); [done|lia]. }
      intros [->|[_ Ha]]; apply Hup; [apply rtc_refl|done]. }
  destruct (do_insert_none ops p (Hty p)) as [[Hag ->]|[Hno ->]].
  - split; [|done|done]. intros a. rewrite Hanc. split; [by left|].
    intros [?|[->|[Hne Ha]]]; [done|done|]. by apply (Hcl p Hpk (rtc_once _ _ Hp) Hag).
  - set (ops1 := <[(p, UpdateLabel.Aggregate) := UpdateOperation.Aggregate]> ops).
    assert (Hag1 : forall a, agg ops1 a <-> agg ops a \/ a = p).
    { intros a. unfold agg, ops1. rewrite lookup_insert_Some. split.
      - intros [[[= ->] _]|[_ ?]]; auto.
      - intros [Ha| ->]; [|by left]. right. split; [|done]. intros [= ->]. congruence. }
    destruct (IH p ops1) as [G1 G2 G3]; [done| | |].
    + intros a op. unfold ops1. rewrite lookup_insert_Some. intros [[_ <-]|[_ ?]]; [done|by eapply Hty].
    + intros a Hne Ha [Hag| ->]%Hag1 b Hnb Hb; [|done]. apply Hag1. left.
      apply (Hcl a); try done; apply Hanc; auto.
    + split; [|intros a lab Hlab; rewrite G2 by done; apply lookup_insert_ne; congruence|done].
      intros a. rewrite G1, Hag1, Hanc. tauto.
Qed.

Lemma pending_insert_across ops l k :
  agg_typed ops -> pending (insert_across ops None l) k = pending ops k.
Proof.
  revert ops. induction l as [|p l IH]; intros ops Hty; cbn; [done|].
  destruct (do_insert_none ops p (Hty p)) as [[Hag ->]|[Hno ->]]; [done|].
  rewrite IH.
  - unfold pending. rewrite wsum_insert, Hno. cbn. case_bool_decide; lia.
  - intros a op. rewrite lookup_insert_Some. intros [[_ <-]|[_ ?]]; [done|by eapply Hty].
Qed.

(** ** Scheduling votes *)

(** Batches of votes: stakes, with the ancestors they concern. *)
Record votes_batch infos ops : Prop := {
  vb_labelled : forall key op, ops !! key = Some op -> labelled (key, op) /\ is_mark op = false;
  vb_closed : forall key op a, ops !! key = Some op -> a <> fst key ->
    in_subtree infos a (fst key) -> agg ops a }.

Lemma votes_batch_typed infos ops : votes_batch infos ops -> agg_typed ops.
Proof.
  intros [Hl _] k op E. destruct (Hl _ _ E) as [H1 H2]. unfold labelled in H1. cbn in H1.
  by destruct op.
Qed.

Lemma votes_batch_ok infos ops : votes_batch infos ops -> ops_ok infos (fun _ => None) ops.
Proof.
  intros [Hl Hc]. split; [intros key op E; by apply Hl|done| |done].
  intros key op E Hm. by rewrite (proj2 (Hl _ _ E)) in Hm.
Qed.

Lemma enter_stake_spec ops k lab (con : Z -> UpdateOperation.t) sg stake :
  (forall op, labelled (k, lab, op) -> exists x, op = con x) ->
  (forall x y, UpdateOperation.update_stake (con x) y = Ok (con (wrapping_add u64_max x y))) ->
  (forall x, delta (con x) = sg * x) ->
  (forall key op, ops !! key = Some op -> labelled (key, op)) ->
  exists x, enter_stake ops (k, lab) (con stake) stake = Ok (<[(k, lab) := con x]> ops) /\
    forall j, wrap u64_max (pending (<[(k, lab) := con x]> ops) j)
      = wrap u64_max (pending ops j + if bool_decide (k = j) then sg * stake else 0).
Proof.
  intros Hcon Hupd Hdelta Hlab. unfold enter_stake.
  destruct (ops !! (k, lab)) as [op|] eqn:E.
  - destruct (Hcon op (Hlab _ _ E)) as [x ->]. rewrite Hupd. cbn. eexists. split; [done|].
    intros j. unfold pending. rewrite wsum_insert, E. cbn. rewrite !Hdelta.
    case_bool_decide; [|f_equal; lia]. unfold wrapping_add, wrap.
    set (P := wsum _ ops).
    replace (P - sg * x + sg * ((x + stake) mod (u64_max + 1)))
      with (P + sg * stake + (- (sg * ((x + stake) / (u64_max + 1)))) * (u64_max + 1)).
    + by rewrite Z_mod_plus_full.
    + rewrite (Z.mod_eq (x + stake)) by (unfold_max; lia). ring.
  - exists stake. split; [done|]. intros j. unfold pending. rewrite wsum_insert, E. cbn.
    rewrite Hdelta. case_bool_decide; f_equal; lia.
Qed.

(** Entering a stake for [k] and scheduling its ancestors. *)
Lemma enter_close infos root ops k lab op :
  tree_ok infos root -> votes_batch infos ops -> labelled (k, lab, op) -> is_mark op = false ->
  lab <> UpdateLabel.Aggregate ->
  let ops' := insert_aggregate_operations infos (<[(k, lab) := op]> ops) k in
  votes_batch infos ops' /\
  (forall j, pending ops' j = pending (<[(k, lab) := op]> ops) j).
Proof.
  intros Hok Hb Hl Hm Hna. cbn zeta. pose proof Hb as [Hlab Hcl].
  set (ops1 := <[(k, lab) := op]> ops).
  assert (Hty : agg_typed ops1).
  { intros a x. unfold ops1. rewrite lookup_insert_ne by congruence.
    by apply (votes_batch_typed infos). }
  assert (Hag : forall a, agg ops1 a <-> agg ops a).
  { intros a. unfold agg, ops1. rewrite lookup_insert_ne by congruence. done. }
  unfold insert_aggregate_operations, do_insert_aggregate_operations_across_ancestors.
  split; [|intros j; by apply pending_insert_across].
  destruct (insert_across_spec infos root k ops1 Hok Hty) as [A1 A2 A3].
  { intros a Hne Ha Haa b Hnb Hbb. apply Hag. apply Hag in Haa.
    by apply (Hcl _ _ b Haa). }
  set (ops' := insert_across _ _ _) in *.
  assert (Hup : forall a b, agg ops' a -> b <> a -> in_subtree infos b a -> agg ops' b).
  { intros a b Haa Hne Hbb. apply A1. apply A1 in Haa as [Haa|[Hna' Ha]].
    - left. apply Hag. apply Hag in Haa. by apply (Hcl _ _ b Haa).
    - right. split; [|by etrans].
      intros ->. destruct (in_subtree_antisym infos root Hok _ _ Ha Hbb). done. }
  split.
  - intros [a lab'] x E. destruct (decide (lab' = UpdateLabel.Aggregate)) as [->|Hne].
    { by rewrite (A3 a x E). }
    rewrite A2 in E by done. unfold ops1 in E.
    apply lookup_insert_Some in E as [[[= <- <-] <-]|[_ E]]; [done|]. by apply Hlab.
  - intros [a lab'] x b E Hnb Hbb. cbn in *.
    destruct (decide (lab' = UpdateLabel.Aggregate)) as [->|Hne].
    { rewrite (A3 a x E) in E. by apply (Hup a). }
    rewrite A2 in E by done. unfold ops1 in E.
    apply lookup_insert_Some in E as [[[= <- <-] <-]|[_ E]].
    + apply A1. by right.
    + apply A1. left. apply Hag. by apply (Hcl (a, lab') x).
Qed.

Lemma enter_vote infos root ops k lab con sg stake :
  tree_ok infos root -> votes_batch infos ops ->
  (lab = UpdateLabel.Add /\ con = UpdateOperation.Add /\ sg = 1 \/
   lab = UpdateLabel.Subtract /\ con = UpdateOperation.Subtract /\ sg = -1) ->
  exists ops1, enter_stake ops (k, lab) (con stake) stake = Ok ops1 /\
    let ops' := insert_aggregate_operations infos ops1 k in
    votes_batch infos ops' /\
    forall j, wrap u64_max (pending ops' j)
      = wrap u64_max (pending ops j + if bool_decide (k = j) then sg * stake else 0).
Proof.
  intros Hok Hb Hcase.
  assert (Hx : forall x, labelled (k, lab, con x) /\ is_mark (con x) = false /\
    lab <> UpdateLabel.Aggregate) by (by destruct Hcase as [(-> & -> & _)|(-> & -> & _)]).
  destruct (enter_stake_spec ops k lab con sg stake) as (x & -> & Hp).
  - intros op. unfold labelled. destruct Hcase as [(-> & -> & _)|(-> & -> & _)];
      destruct op; cbn; intros [=]; eauto.
  - by destruct Hcase as [(-> & -> & _)|(-> & -> & _)].
  - destruct Hcase as [(_ & -> & ->)|(_ & -> & ->)]; intros x; cbn; lia.
  - intros key op E. by apply (vb_labelled _ _ Hb).
  - eexists. split; [done|]. destruct (Hx x) as (H1 & H2 & H3).
    destruct (enter_close infos root ops k lab (con x) Hok Hb H1 H2 H3) as [Hb' Hp'].
    split; [done|]. intros j. by rewrite Hp', Hp.
Qed.

(** The latest votes after a new one. *)
Definition record_vote (root_slot : Slot) (votes : gmap Pubkey SlotHashKey)
    (pv : Pubkey * SlotHashKey) : gmap Pubkey SlotHashKey :=
  if (fst (snd pv) <? root_slot) || is_outdated (votes !! fst pv) (snd pv) then votes
  else <[fst pv := snd pv]> votes.

Lemma is_outdated_false old new_vote :
  is_outdated (Some old) new_vote = false ->
  (if fst new_vote =? fst old then bool_decide (lt_key (snd new_vote) (snd old))
   else fst old <? fst new_vote) = true.
Proof.
  destruct old as [s h]. cbn. intros [H1%Z.ltb_ge H2]%orb_false_iff.
  destruct (Z.eqb_spec (fst new_vote) s) as [E|E]; [|apply Z.ltb_lt; lia]. cbn in H2.
  apply bool_decide_eq_false in H2. apply bool_decide_true.
  destruct (lt_key_trichotomy (snd new_vote) h) as [?|[?|?]]; [done|..];
    destruct H2; apply le_key_lt_eq; auto.
Qed.

Lemma wrap_congr (a b c : Z) : wrap u64_max a = wrap u64_max b -> wrap u64_max (a + c) = wrap u64_max (b + c).
Proof. unfold wrap. intros E. by rewrite <- Zplus_mod_idemp_l, E, Zplus_mod_idemp_l. Qed.

Section AddVotes.
Context (weigh : Pubkey -> Slot -> Z) (Hweigh : forall pk slot, 0 <= weigh pk slot).
Context (epoch_stakes : gmap Epoch EpochStakes) (epoch_schedule : EpochSchedule).

(** The stakes used for a vote are those it is weighed by. *)
Definition agrees pk (v : SlotHashKey) : Prop :=
  stake_update epoch_stakes epoch_schedule pk (fst v) = weigh pk (fst v).

Lemma voted_for_insert votes pk v k :
  voted_for weigh (<[pk := v]> votes) k
  = voted_for weigh votes k
    - from_option (fun old => if bool_decide (old = k) then weigh pk (fst old) else 0) 0 (votes !! pk)
    + (if bool_decide (v = k) then weigh pk (fst v) else 0).
Proof. unfold voted_for. by rewrite wsum_insert. Qed.

Lemma subtract_old_vote_spec infos root ops pk old new_vote :
  tree_ok infos root -> votes_batch infos ops -> agrees pk old ->
  is_outdated (Some old) new_vote = false ->
  exists ops', subtract_old_vote epoch_stakes epoch_schedule infos ops pk old new_vote = Ok ops' /\
    votes_batch infos ops' /\
    forall k, wrap u64_max (pending ops' k)
      = wrap u64_max (pending ops k - if bool_decide (old = k) then weigh pk (fst old) else 0).
Proof.
  intros Hok Hb Hag Hout. unfold subtract_old_vote. rewrite (is_outdated_false _ _ Hout). cbn.
  rewrite Hag. destruct (Z.ltb_spec 0 (weigh pk (fst old))) as [Hpos|Hz].
  - destruct (enter_vote infos root ops old UpdateLabel.Subtract UpdateOperation.Subtract (-1)
      (weigh pk (fst old)) Hok Hb) as (ops1 & -> & Hb1 & Hp); [by right|].
    eexists. split; [done|]. split; [done|]. intros k. rewrite Hp. f_equal. case_bool_decide; lia.
  - eexists. split; [done|]. split; [done|]. intros k. pose proof (Hweigh pk (fst old)).
    f_equal. case_bool_decide; lia.
Qed.

Lemma generate_loop_spec infos root root_slot votes : forall latest ops observed,
  tree_ok infos root -> votes_batch infos ops -> NoDup votes.*1 ->
  (forall pk v, (pk, v) ∈ votes -> observed !! pk = None /\ agrees pk v /\
    forall old, latest !! pk = Some old -> agrees pk old) ->
  exists ops', generate_loop epoch_stakes epoch_schedule root_slot infos votes latest ops observed
      = Ok (foldl (record_vote root_slot) latest votes, ops') /\
    votes_batch infos ops' /\
    forall k, wrap u64_max (voted_for weigh (foldl (record_vote root_slot) latest votes) k - pending ops' k)
      = wrap u64_max (voted_for weigh latest k - pending ops k).
Proof.
  induction votes as [|[pk v] votes IH]; intros latest ops observed Hok Hb Hnd Hag.
  { exists ops. done. }
  cbn [generate_loop foldl]. cbn in Hnd. apply NoDup_cons in Hnd as [Hpk Hnd].
  assert (Htail : forall pk' v', (pk', v') ∈ votes -> pk' <> pk).
  { intros pk' v' Hin ->. apply Hpk. by apply (list_elem_of_fmap_2 fst _ (pk, v')). }
  unfold record_vote at 2 4. cbn [fst snd].
  destruct (Z.ltb_spec (fst v) root_slot) as [Hlow|Hlow]; cbn [orb].
  { apply IH; try done. intros pk' v' Hin. apply Hag. set_solver. }
  destruct (Hag pk v) as (Hobs & Hv & Hold); [set_solver|]. rewrite Hobs. cbn.
  destruct (is_outdated (latest !! pk) v) eqn:Hout.
  { apply IH; try done. intros pk' v' Hin. rewrite lookup_insert_ne by (apply not_eq_sym; eauto).
    apply Hag. set_solver. }
  assert (Hsub : exists ops1, match latest !! pk with
      | Some old => subtract_old_vote epoch_stakes epoch_schedule infos ops pk old v
      | None => Ok ops end = Ok ops1 /\ votes_batch infos ops1 /\
    forall k, wrap u64_max (pending ops1 k) = wrap u64_max (pending ops k
      - from_option (fun old => if bool_decide (old = k) then weigh pk (fst old) else 0) 0 (latest !! pk))).
  { destruct (latest !! pk) as [old|] eqn:El.
    - apply subtract_old_vote_spec with root; auto.
    - exists ops. split; [done|]. split; [done|]. intros k. cbn. by rewrite Z.sub_0_r. }
  destruct Hsub as (ops1 & -> & Hb1 & Hp1). cbn. rewrite Hv.
  destruct (enter_vote infos root ops1 v UpdateLabel.Add UpdateOperation.Add 1 (weigh pk (fst v)) Hok Hb1)
    as (ops2 & -> & Hb2 & Hp2); [by left|]. cbn.
  destruct (IH (<[pk := v]> latest) (insert_aggregate_operations infos ops2 v)
    (<[pk := fst v]> observed)) as (ops' & -> & Hb' & Hp'); try done.
  { intros pk' v' Hin. pose proof (Htail _ _ Hin). rewrite !lookup_insert_ne by done.
    apply Hag. set_solver. }
  exists ops'. split; [done|]. split; [done|]. intros k. rewrite Hp', voted_for_insert.
  set (o := from_option _ 0 (latest !! pk)) in *.
  set (n := if bool_decide (v = k) then weigh pk (fst v) else 0).
  assert (Hq : wrap u64_max (pending (insert_aggregate_operations infos ops2 v) k)
    = wrap u64_max (pending ops k - o + n)).
  { rewrite Hp2. replace (if bool_decide (v = k) then 1 * weigh pk (fst v) else 0) with n
      by (unfold n; case_bool_decide; lia). apply wrap_congr. apply Hp1. }
  unfold wrap in *. rewrite <- Zminus_mod_idemp_r, Hq, Zminus_mod_idemp_r. f_equal. lia.
Qed.

Lemma add_votes_ok s votes :
  fc_ok weigh s -> NoDup votes.*1 ->
  (forall pk v, (pk, v) ∈ votes -> agrees pk v /\
    forall old, latest_votes s !! pk = Some old -> agrees pk old) ->
  exists s', add_votes epoch_stakes epoch_schedule s votes = Ok (best (fork_infos s') (root s'), s') /\
    fc_ok weigh s' /\ same_shape (fork_infos s) (fork_infos s') /\ root s' = root s /\
    latest_votes s' = foldl (record_vote (fst (root s))) (latest_votes s) votes /\
    forall k, is_Some (fork_infos s !! k) -> validity (fork_infos s') k = validity (fork_infos s) k.
Proof.
  intros Hs Hnd Hag. pose proof (fc_tree _ _ Hs) as Hok.
  destruct (generate_loop_spec (fork_infos s) (root s) (fst (root s)) votes (latest_votes s) ∅ ∅ Hok)
    as (ops & E & Hb & Hp); [by split|done|..].
  { intros pk v Hin. rewrite lookup_empty. split; [done|]. by apply Hag. }
  set (votes' := foldl _ (latest_votes s) votes) in *.
  set (s1 := {| fork_infos := fork_infos s; latest_votes := votes'; root := root s |}).
  destruct (process_batch weigh s ops (fun _ => None) (validity (fork_infos s)) Hs)
    as (infos' & E2 & [Hsh Hloc Hbest Hvo Hval]).
  { by apply votes_batch_ok. }
  { done. }
  { intros k Hk. apply (no_marks_valid _ (root s)); [done|apply Hs|done]. }
  set (s' := with_infos s1 infos').
  assert (E3 : process_update_operations s1 ops = Ok s').
  { unfold process_update_operations in *. cbn.
    destruct (process_operations (fork_infos s) (reverse (sorted_entries ops))); cbn in *; [|done|done].
    by injection E2 as ->. }
  assert (Hin : is_Some (infos' !! root s)) by apply (sh_in _ _ Hsh), (root_in _ _ Hok).
  exists s'. split_and!; [|split| done|done|done|done]; cbn.
  - unfold add_votes, generate_update_operations. rewrite E. cbn. fold s1. rewrite E3. cbn.
    unfold best_overall_slot, best_slot. cbn. by rewrite (lookup_info _ _ Hin).
  - by eapply same_shape_tree_ok.
  - done.
  - done.
  - intros k Hk. assert (Hk0 : is_Some (fork_infos s !! k)) by (by apply (sh_in _ _ Hsh)).
    rewrite (Hvo k Hk0), (fc_votes _ _ Hs k Hk0). specialize (Hp k).
    unfold pending at 2 in Hp. rewrite wsum_empty, Z.sub_0_r in Hp.
    unfold wrap in *. rewrite Zplus_mod_idemp_l, <- Zplus_mod_idemp_l, <- Hp, Zplus_mod_idemp_l.
    f_equal. lia.
  - eapply validity_ok_same; [done|done|apply Hs].
Qed.
End AddVotes.
