(* ===== verification/ForkChoiceLeaf.v ===== *)
(** * New blocks in fork choice

    [add_new_leaf_slot] inserts a block below its parent and, if it is the best
    child, makes it the best block of the ancestors whose best block was that
    of the parent.  The result satisfies the invariant of [ForkChoiceProofs]
    without any aggregation. *)

From stdpp Require Import base gmap list fin_maps strings relations.
From Stdlib Require Import ZArith Lia.
From S2P Require Import Prelude Sdk MapOrder Epochs StakesCache ForkChoice ForkChoiceTree ForkChoiceAggregate ForkChoiceProofs.
Import HeaviestSubtree.

Implicit Types (infos : tree) (k p c a x : SlotHashKey).

(** ** Following the best block upwards *)

(** The nodes the loop of [propagate_new_leaf] visits from [a] up. *)
Record updated infos (pb : SlotHashKey) a (us : list SlotHashKey) : Prop := {
  u_path : forall x, x ∈ us -> in_subtree infos x a /\ best infos x = pb;
  u_start : best infos a = pb -> a ∈ us;
  u_up : forall x q, x ∈ us -> parent_rel infos q x -> best infos q = pb -> q ∈ us;
  u_down : forall x, x ∈ us -> x <> a -> exists c, c ∈ us /\ parent_rel infos x c }.

Lemma updated_cons infos root pb a q us :
  tree_ok infos root -> parent_rel infos q a -> best infos a = pb ->
  updated infos pb q us -> updated infos pb a (a :: us).
Proof.
  intros Hok Hq Ha [U1 U2 U3 U4]. split.
  - intros x [->|Hx]%elem_of_cons; [split; [apply rtc_refl|done]|].
    destruct (U1 x Hx). split; [by eapply rtc_r|done].
  - set_solver.
  - intros x q' [->|Hx]%elem_of_cons Hq' Hb.
    + rewrite (parent_rel_fun infos _ _ _ Hq' Hq). right. apply U2.
      by rewrite <- (parent_rel_fun infos _ _ _ Hq' Hq).
    + right. eapply U3; eauto.
  - intros x [->|Hx]%elem_of_cons Hne; [done|].
    destruct (decide (x = q)) as [->|Hxq]; [exists a; set_solver|].
    destruct (U4 x Hx Hxq) as (c & ? & ?). exists c. set_solver.
Qed.

Lemma updated_nil infos pb a : best infos a <> pb -> updated infos pb a [].
Proof. intros Hb. split; try set_solver. Qed.

Lemma updated_root infos root pb :
  tree_ok infos root -> best infos root = pb -> updated infos pb root [root].
Proof.
  intros Hok Hb. split; [|set_solver| |set_solver].
  - intros x ->%list_elem_of_singleton. split; [apply rtc_refl|done].
  - intros x q ->%list_elem_of_singleton Hq. unfold parent_rel in Hq.
    rewrite (root_parent _ _ Hok) in Hq. done.
Qed.

Lemma propagate_loop_spec infos root pb leaf : tree_ok infos root ->
  forall fuel a infos',
  (below infos (fst a) < fuel)%nat -> is_Some (infos !! a) ->
  (forall x, in_subtree infos x a -> infos' !! x = infos !! x) ->
  exists us infos2, propagate_loop fuel infos' (Some a) pb leaf = Ok infos2 /\
    updated infos pb a us /\
    forall x, infos2 !! x =
      if decide (x ∈ us) then Some (ForkInfo.with_best_slot (info infos x) leaf) else infos' !! x.
Proof.
  intros Hok. induction fuel as [|fuel IH]; intros a infos' Hf Ha Heq; [lia|].
  cbn [propagate_loop]. rewrite (Heq a (rtc_refl _ a)), (lookup_info _ _ Ha). cbn.
  fold (best infos a). case_bool_decide as Hb; cycle 1.
  { exists [], infos'. split; [done|]. split; [by apply updated_nil|]. intros x.
    rewrite decide_False; [done|]. set_solver. }
  set (infos1 := <[a := ForkInfo.with_best_slot (info infos a) leaf]> infos').
  destruct (ForkInfo.parent (info infos a)) as [q|] eqn:Eq.
  - assert (Hq : parent_rel infos q a) by done.
    destruct (IH q infos1) as (us & infos2 & E & Hu & Hl).
    + pose proof (below_lt infos root Hok _ _ Hq). lia.
    + by apply (parent_in _ _ Hok) in Hq.
    + intros x Hx. unfold infos1. rewrite lookup_insert_ne; [apply Heq; by eapply rtc_r|].
      intros ->. apply (parent_lt _ _ Hok) in Hq.
      destruct (in_subtree_le infos root Hok _ _ Hx) as [->|?]; lia.
    + exists (a :: us), infos2. split; [done|]. split; [by eapply updated_cons|].
      intros x. rewrite Hl. unfold infos1. rewrite lookup_insert.
      destruct (decide (x ∈ us)), (decide (x ∈ a :: us)), (decide (a = x)); subst; try done; set_solver.
  - assert (a = root) as -> by (by apply (orphan_root _ _ Hok)).
    exists [root], infos1. split; [by destruct fuel|]. split; [by apply updated_root|].
    intros x. unfold infos1. rewrite lookup_insert.
    destruct (decide (x ∈ [root])), (decide (root = x)); subst; try done; set_solver.
Qed.

(** ** The best child *)
Lemma no_better_child_spec s x w cs :
  (forall c, c ∈ cs -> is_Some (fork_infos s !! c)) ->
  exists b, no_better_child s x w cs = Ok b /\
    (b = true <-> forall c, c ∈ cs -> cand (fork_infos s) c = true ->
       ~ (w < weight (fork_infos s) c \/ w = weight (fork_infos s) c /\ lt_key c x)).
Proof.
  induction cs as [|c cs IH]; intros Hcs; cbn; [exists true; set_solver|].
  destruct IH as (b & E & Hb); [set_solver|].
  unfold stake_voted_subtree, is_candidate. rewrite (lookup_info _ c) by (apply Hcs; set_solver).
  cbn. fold (cand (fork_infos s) c) (weight (fork_infos s) c).
  destruct (cand (fork_infos s) c) eqn:Ec; cbn.
  - destruct ((w <? weight (fork_infos s) c)
      || (w =? weight (fork_infos s) c) && bool_decide (lt_key c x)) eqn:Ew.
    + exists false. split; [done|]. split; [done|]. intros H. destruct (H c); [set_solver|done|].
      apply orb_true_iff in Ew as [Ew|[E1 E2]%andb_true_iff]; [left; by apply Z.ltb_lt|right].
      split; [by apply Z.eqb_eq|by apply bool_decide_eq_true in E2].
    + exists b. split; [done|]. rewrite Hb. apply orb_false_iff in Ew as [E1%Z.ltb_ge E2].
      split; intros H d; [intros [->|Hd]%elem_of_cons Hcd|intros Hd Hcd; apply H; set_solver].
      * intros [?|[H1 H2]]; [lia|]. rewrite (bool_decide_true _ H2), andb_true_r in E2.
        by apply Z.eqb_neq in E2.
      * by apply H.
  - exists b. split; [done|]. rewrite Hb. split; intros H d.
    + intros [->|Hd]%elem_of_cons Hcd; [congruence|by apply H].
    + intros Hd Hcd. apply H; [set_solver|done].
Qed.

(** ** The tree with the new leaf *)
Section Leaf.
Context (weigh : Pubkey -> Slot -> Z) (s : HeaviestSubtreeForkChoice) (Hs : fc_ok weigh s).
Context (k p : SlotHashKey) (Hk : fork_infos s !! k = None) (Hp : is_Some (fork_infos s !! p)).
Context (Hlt : fst p < fst k).

Abbreviation infos0 := (fork_infos s).
Definition leaf : ForkInfo.t := new_leaf k (Some p) (latest infos0 p).
Definition infos1 : tree :=
  <[p := ForkInfo.push_child (info infos0 p) k]> (<[k := leaf]> infos0).

Lemma leaf_ne : p <> k.
Proof. intros ->. lia. Qed.

Lemma info1 x :
  info infos1 x = if decide (x = p) then ForkInfo.push_child (info infos0 p) k
                  else if decide (x = k) then leaf else info infos0 x.
Proof.
  unfold infos1. rewrite !info_insert.
  destruct (decide (p = x)), (decide (x = p)), (decide (k = x)), (decide (x = k)); congruence.
Qed.

Lemma info1_k : info infos1 k = leaf.
Proof. rewrite info1, decide_False by (apply not_eq_sym, leaf_ne). by rewrite decide_True. Qed.
Lemma info1_p : info infos1 p = ForkInfo.push_child (info infos0 p) k.
Proof. rewrite info1. by rewrite decide_True. Qed.
Lemma info1_other x : x <> p -> x <> k -> info infos1 x = info infos0 x.
Proof. intros. rewrite info1. by rewrite !decide_False. Qed.

(** Everything but the children of [p] is as before, outside [k]. *)
Lemma fields1 x : x <> k ->
  ForkInfo.parent (info infos1 x) = ForkInfo.parent (info infos0 x) /\
  weight infos1 x = weight infos0 x /\ cand infos1 x = cand infos0 x /\
  voted infos1 x = voted infos0 x /\ best infos1 x = best infos0 x /\
  latest infos1 x = latest infos0 x /\ conf infos1 x = conf infos0 x.
Proof.
  intros Hx. unfold weight, cand, voted, best, latest, conf.
  destruct (decide (x = p)) as [->|Hxp]; [by rewrite info1_p|by rewrite info1_other].
Qed.

Lemma kids1 x : kids infos1 x =
  if decide (x = p) then kids infos0 p ++ [k] else if decide (x = k) then [] else kids infos0 x.
Proof. unfold kids. rewrite info1. by repeat case_decide. Qed.

Lemma k_not_kid x : k ∉ kids infos0 x.
Proof.
  intros H%(child_parent _ _ (fc_tree _ _ Hs))%child_in. rewrite Hk in H. by destruct H.
Qed.

Lemma parent_rel1 q c : parent_rel infos1 q c <-> parent_rel infos0 q c /\ c <> k \/ c = k /\ q = p.
Proof.
  unfold parent_rel. destruct (decide (c = k)) as [->|Hc].
  - rewrite info1_k. unfold leaf, new_leaf. cbn. naive_solver.
  - rewrite (proj1 (fields1 c Hc)). naive_solver.
Qed.

Lemma in1 x : is_Some (infos1 !! x) <-> is_Some (infos0 !! x) \/ x = k.
Proof.
  unfold infos1. rewrite !lookup_insert. destruct (decide (p = x)) as [<-|]; [naive_solver|].
  destruct (decide (k = x)) as [<-|]; naive_solver.
Qed.

Lemma tree1 : tree_ok infos1 (root s).
Proof.
  pose proof (fc_tree _ _ Hs) as [H1 H2 H3 H4 H5 H6 H7 H8].
  assert (Hrk : root s <> k) by (intros E; rewrite E, Hk in H1; by destruct H1).
  split.
  - apply in1. by left.
  - rewrite (proj1 (fields1 _ Hrk)). done.
  - intros x Hx Hpar. destruct (decide (x = k)) as [->|Hxk]; [by rewrite info1_k in Hpar|].
    rewrite (proj1 (fields1 x Hxk)) in Hpar. apply in1 in Hx as [Hx|?]; [by apply H3|done].
  - intros q c. rewrite parent_rel1. fold (kids infos1 q). rewrite kids1.
    intros [[Hq Hc]|[-> ->]].
    + case_decide; [subst q; apply elem_of_app; left; by apply H4|]. case_decide; [|by apply H4].
      subst q. apply H6 in Hq. rewrite Hk in Hq. by destruct Hq.
    + rewrite decide_True by done. set_solver.
  - intros q c. fold (kids infos1 q). rewrite kids1, parent_rel1.
    case_decide; [subst q; intros [Hc| ->%list_elem_of_singleton]%elem_of_app; [|by right]|
      case_decide; [set_solver|intros Hc]];
      (left; split; [by apply H5|]); intros ->; by apply k_not_kid in Hc.
  - intros q c. rewrite parent_rel1, in1. intros [[Hq _]|[_ ->]]; left; eauto.
  - intros q c. rewrite parent_rel1. intros [[Hq _]|[-> ->]]; [eauto|done].
  - intros x. fold (kids infos1 x). rewrite kids1. case_decide; [|case_decide; [constructor|apply H8]].
    apply NoDup_app. split; [apply H8|]. split; [|apply NoDup_singleton].
    intros c Hc ->%list_elem_of_singleton. by apply k_not_kid in Hc.
Qed.

Lemma in_subtree1 a x : x <> k -> in_subtree infos1 a x <-> in_subtree infos0 a x.
Proof.
  intros Hx. split.
  - intros H. revert x H Hx.
    apply (rtc_ind_r (fun x => x <> k -> in_subtree infos0 a x)); [intros; apply rtc_refl|].
    intros y z _ Hyz IH Hz. apply parent_rel1 in Hyz as [[Hyz _]|[? _]]; [|done].
    eapply rtc_r; [apply IH|done]. intros ->.
    apply (parent_in _ _ (fc_tree _ _ Hs)) in Hyz. rewrite Hk in Hyz. by destruct Hyz.
  - intros H. revert x H Hx.
    apply (rtc_ind_r (fun x => x <> k -> in_subtree infos1 a x)); [intros; apply rtc_refl|].
    intros y z _ Hyz IH Hz. eapply rtc_r; [apply IH|apply parent_rel1; by left]. intros ->.
    apply (parent_in _ _ (fc_tree _ _ Hs)) in Hyz. rewrite Hk in Hyz. by destruct Hyz.
Qed.

Lemma above_leaf a : in_subtree infos0 a p -> in_subtree infos1 a k.
Proof.
  intros Ha. eapply rtc_r; [apply in_subtree1; [apply leaf_ne|exact Ha]|].
  apply parent_rel1. by right.
Qed.

Lemma chosen1 x c : x <> p -> x <> k ->
  chosen infos0 (kids infos0 x) c -> chosen infos1 (kids infos1 x) c.
Proof.
  intros Hxp Hxk (Hc & Hcc & Hall). rewrite kids1, !decide_False by done.
  assert (Hne : forall d, d ∈ kids infos0 x -> d <> k) by (intros d Hd ->; by apply k_not_kid in Hd).
  destruct (fields1 c (Hne c Hc)) as (_ & Hw & Hca & _).
  split; [done|]. split; [by rewrite Hca|]. intros d Hd.
  destruct (fields1 d (Hne d Hd)) as (_ & Hwd & Hcd & _). rewrite Hcd. intros Hcd'.
  destruct (Hall d Hd Hcd') as [?|Hb]; [by left|right]. unfold beats in *. by rewrite Hw, Hwd.
Qed.

Lemma no_cand1 x : x <> p -> x <> k ->
  (forall c, c ∈ kids infos0 x -> cand infos0 c = false) ->
  forall c, c ∈ kids infos1 x -> cand infos1 c = false.
Proof.
  intros Hxp Hxk Hn c. rewrite kids1, !decide_False by done. intros Hc.
  assert (Hck : c <> k) by (intros ->; by apply k_not_kid in Hc).
  rewrite (proj1 (proj2 (proj2 (fields1 c Hck)))). auto.
Qed.

Lemma weight_range x : is_u64 (weight infos0 x).
Proof. rewrite (local_stake _ _ (fc_local _ _ Hs x)). by apply wrap_range. Qed.

Lemma stake1 x : weight infos1 x = wrap u64_max (voted infos1 x + lsum (weight infos1) (kids infos1 x)).
Proof.
  destruct (decide (x = k)) as [->|Hxk].
  { rewrite kids1, decide_False, decide_True by (done || apply not_eq_sym, leaf_ne).
    unfold weight, voted. rewrite info1_k. done. }
  destruct (fields1 x Hxk) as (_ & -> & _ & -> & _).
  rewrite (local_stake _ _ (fc_local _ _ Hs x)). do 2 f_equal.
  assert (Heq : lsum (weight infos1) (kids infos0 x) = lsum (weight infos0) (kids infos0 x)).
  { apply lsum_ext. intros c Hc. apply fields1. intros ->. by apply k_not_kid in Hc. }
  rewrite kids1. case_decide as E; [subst x|by rewrite decide_False].
  assert (Hw : weight infos1 k = 0) by (unfold weight; by rewrite info1_k).
  rewrite lsum_app, Heq. cbn. rewrite Hw. lia.
Qed.

Lemma validity1 : validity_ok infos1.
Proof.
  pose proof (fc_valid _ _ Hs) as [V1 V2 V3 V4].
  assert (Hlk : latest infos1 k = latest infos0 p) by (unfold latest; by rewrite info1_k).
  assert (Hck : conf infos1 k = false) by (unfold conf; by rewrite info1_k).
  assert (Hl : forall x, x <> k -> latest infos1 x = latest infos0 x /\ conf infos1 x = conf infos0 x)
    by (intros x Hx; by apply fields1).
  assert (Hpk : p <> k) by apply leaf_ne.
  assert (Hqk : forall q c, parent_rel infos0 q c -> q <> k).
  { intros q c Hq ->. apply (parent_in _ _ (fc_tree _ _ Hs)) in Hq. rewrite Hk in Hq.
    by destruct Hq. }
  split.
  - intros x i. destruct (decide (x = k)) as [->|Hx].
    + rewrite Hlk. intros H%V1. lia.
    + rewrite (proj1 (Hl x Hx)). apply V1.
  - intros q c i [[Hq Hc]|[-> ->]]%parent_rel1.
    + rewrite (proj1 (Hl q (Hqk _ _ Hq))), (proj1 (Hl c Hc)). eauto.
    + rewrite Hlk, (proj1 (Hl p Hpk)). intros ->. exists i. split; [done|lia].
  - intros q c [[Hq Hc]|[-> ->]]%parent_rel1; [|congruence].
    rewrite (proj2 (Hl q (Hqk _ _ Hq))), (proj2 (Hl c Hc)). eauto.
  - intros x. destruct (decide (x = k)) as [->|Hx]; [congruence|].
    rewrite (proj1 (Hl x Hx)), (proj2 (Hl x Hx)). apply V4.
Qed.

Context (Hunvoted : forall pk, latest_votes s !! pk <> Some k).

(** The tree with the best blocks [b2]. *)
Lemma leaf_fc_ok infos2 (b2 : SlotHashKey -> SlotHashKey) :
  (forall x, is_Some (infos2 !! x) <-> is_Some (infos1 !! x)) ->
  (forall x, info infos2 x = ForkInfo.with_best_slot (info infos1 x) (b2 x)) ->
  (forall x, cand infos1 x = true ->
    (exists c, chosen infos1 (kids infos1 x) c /\ b2 x = b2 c) \/
    (forall c, c ∈ kids infos1 x -> cand infos1 c = false) /\ b2 x = x) ->
  (forall x, in_subtree infos1 x (b2 x)) ->
  fc_ok weigh (with_infos s infos2).
Proof.
  intros Hin Hinfo Hbest Hsub.
  assert (Hf : forall x, weight infos2 x = weight infos1 x /\ cand infos2 x = cand infos1 x /\
    kids infos2 x = kids infos1 x /\ voted infos2 x = voted infos1 x /\ best infos2 x = b2 x /\
    latest infos2 x = latest infos1 x /\ conf infos2 x = conf infos1 x).
  { intros x. unfold weight, cand, kids, voted, best, latest, conf. by rewrite Hinfo. }
  assert (Hsh : same_shape infos1 infos2).
  { split; [done|intros x; by rewrite Hinfo|intros x; apply Hf]. }
  split; cbn.
  - eapply same_shape_tree_ok; [done|]. apply tree1.
  - intros x. destruct (Hf x) as (Hw & Hc & Hk2 & Hv & Hb & _). split.
    + rewrite Hw, Hk2, Hv, stake1. do 2 f_equal. apply lsum_ext. intros c _. symmetry. apply Hf.
    + rewrite Hc, Hb. intros Hcx. unfold best_of. rewrite Hk2.
      destruct (Hbest x Hcx) as [(c & (H1 & H2 & H3) & E)|[Hn E]].
      * left. exists c. rewrite E. split; [|symmetry; apply Hf]. split; [done|].
        split; [by rewrite (proj1 (proj2 (Hf c)))|]. intros d Hd.
        rewrite (proj1 (proj2 (Hf d))). unfold beats.
        rewrite (proj1 (Hf c)), (proj1 (Hf d)). by apply H3.
      * right. split; [|done]. intros c Hc'. rewrite (proj1 (proj2 (Hf c))). auto.
  - intros x. apply (same_shape_in_subtree _ _ _ _ Hsh). destruct (Hf x) as (_ & _ & _ & _ & -> & _).
    apply Hsub.
  - intros x Hx. destruct (Hf x) as (_ & _ & _ & -> & _). apply Hin, in1 in Hx.
    destruct (decide (x = k)) as [->|Hxk].
    + rewrite (voted_for_none weigh _ _ Hunvoted). unfold voted. rewrite info1_k. done.
    + destruct (fields1 x Hxk) as (_ & _ & _ & -> & _). apply (fc_votes _ _ Hs). naive_solver.
  - eapply validity_ok_same; [exact Hsh| |apply validity1]. intros x _.
    destruct (Hf x) as (_ & _ & _ & _ & _ & Hl & Hc). unfold validity. by rewrite Hl, Hc.
Qed.

Lemma best1_k : best infos1 k = k.
Proof. unfold best. by rewrite info1_k. Qed.

Lemma best1_in x : in_subtree infos1 x (best infos1 x).
Proof.
  destruct (decide (x = k)) as [->|Hx]; [rewrite best1_k; apply rtc_refl|].
  destruct (fields1 x Hx) as (_ & _ & _ & _ & -> & _). apply in_subtree1; [|apply (fc_best _ _ Hs)].
  intros E. pose proof (fc_best _ _ Hs x) as Hb. rewrite E in Hb.
  apply (in_subtree_absent infos0 _ _ Hb) in Hk. done.
Qed.

(** Nodes other than [p] and [k] choose as before. *)
Lemma choice_other x : x <> p -> x <> k -> cand infos1 x = true ->
  (exists c, chosen infos1 (kids infos1 x) c /\ best infos1 x = best infos1 c) \/
  (forall c, c ∈ kids infos1 x -> cand infos1 c = false) /\ best infos1 x = x.
Proof.
  intros Hxp Hxk Hcx. destruct (fields1 x Hxk) as (_ & _ & Hc & _ & Hb & _). rewrite Hb.
  rewrite Hc in Hcx.
  destruct (local_best _ _ (fc_local _ _ Hs x) Hcx) as [(c & Hch & E)|[Hn E]].
  - left. exists c. split; [by apply chosen1|]. rewrite E. symmetry. apply fields1.
    intros ->. destruct Hch as [Hin _]. by apply k_not_kid in Hin.
  - right. split; [by apply no_cand1|done].
Qed.

Lemma kids_p : kids infos1 p = kids infos0 p ++ [k].
Proof. rewrite kids1. by rewrite decide_True. Qed.
Lemma kids_k : kids infos1 k = [].
Proof. rewrite kids1, decide_False by apply not_eq_sym, leaf_ne. by rewrite decide_True. Qed.

Lemma weight_k : weight infos1 k = 0.
Proof. unfold weight. by rewrite info1_k. Qed.
Lemma cand_k : cand infos1 k = cand infos1 p.
Proof. unfold cand. rewrite info1_k, info1_p. done. Qed.

(** The condition [is_best_child] tests. *)
Definition leaf_best : Prop := forall c, c ∈ kids infos1 p -> cand infos1 c = true ->
  ~ (0 < weight infos1 c \/ 0 = weight infos1 c /\ lt_key c k).

Lemma leaf_best_chosen : leaf_best -> cand infos1 p = true -> chosen infos1 (kids infos1 p) k.
Proof.
  intros Hb Hc. split; [rewrite kids_p; set_solver|]. split; [by rewrite cand_k|].
  intros d Hd Hcd. destruct (decide (d = k)) as [->|Hdk]; [by left|right].
  specialize (Hb d Hd Hcd). destruct (fields1 d Hdk) as (_ & Hw & _).
  pose proof (weight_range d). unfold beats. rewrite weight_k, Hw in *.
  right. destruct (lt_key_trichotomy k d) as [?|[?|?]]; [|done|].
  - split; [|done]. destruct (Z.eq_dec (weight infos0 d) 0); [done|]. destruct Hb. left. lia.
  - destruct Hb. destruct (Z.eq_dec (weight infos0 d) 0) as [->|]; [by right|left; lia].
Qed.

Lemma leaf_not_best_choice : ~ leaf_best -> cand infos1 p = true ->
  exists c, chosen infos1 (kids infos1 p) c /\ best infos1 p = best infos1 c.
Proof.
  intros Hnb Hc.
  assert (Hne : forall d, d ∈ kids infos0 p -> d <> k) by (intros d Hd ->; by apply k_not_kid in Hd).
  destruct (fields1 p leaf_ne) as (_ & _ & Hcp & _ & Hbp & _). rewrite Hcp in Hc. rewrite Hbp.
  destruct (local_best _ _ (fc_local _ _ Hs p) Hc) as [(c & (H1 & H2 & H3) & E)|[Hn _]].
  - exists c. destruct (fields1 c (Hne c H1)) as (_ & Hw & Hcc & _ & Hbc & _).
    split; [|by rewrite Hbc]. rewrite kids_p.
    assert (Hold : chosen infos1 (kids infos0 p) c).
    { split; [done|]. split; [by rewrite Hcc|]. intros d Hd.
      destruct (fields1 d (Hne d Hd)) as (_ & Hwd & Hcd & _). rewrite Hcd. intros Hcd'.
      destruct (H3 d Hd Hcd') as [?|?]; [by left|right]. unfold beats in *. by rewrite Hw, Hwd. }
    apply chosen_snoc_old; [done|]. intros _. right.
    destruct (decide (beats infos1 c k)) as [?|Hno]; [done|]. destruct Hnb. intros d Hd Hcd Hwin.
    apply Hno. assert (Hdk : d <> k).
    { intros ->. rewrite weight_k in Hwin. destruct Hwin as [?|[_ Hl]]; [lia|].
      by apply lt_key_irrefl in Hl. }
    assert (Hbd : beats infos1 d k).
    { unfold beats. rewrite weight_k. destruct Hwin as [?|[<- ?]]; auto. }
    rewrite kids_p in Hd. destruct Hold as (_ & _ & Hall). destruct (Hall d) as [->|?];
      [set_solver|done|done|]. by eapply beats_trans.
  - destruct Hnb. intros d Hd Hcd Hwin. rewrite kids_p in Hd.
    apply elem_of_app in Hd as [Hd| ->%list_elem_of_singleton].
    + destruct (fields1 d (Hne d Hd)) as (_ & _ & Hcd' & _). rewrite Hcd', (Hn d Hd) in Hcd. done.
    + rewrite weight_k in Hwin. destruct Hwin as [?|[_ Hl]]; [lia|]. by apply lt_key_irrefl in Hl.
Qed.

(** Without a change of best blocks. *)
Lemma leaf_kept_ok : ~ leaf_best -> fc_ok weigh (with_infos s infos1).
Proof.
  intros Hnb. apply (leaf_fc_ok infos1 (best infos1)); [done| | |apply best1_in].
  - intros x. unfold best. by destruct (info infos1 x).
  - intros x Hcx. destruct (decide (x = p)) as [->|Hxp]; [left; by apply leaf_not_best_choice|].
    destruct (decide (x = k)) as [->|Hxk]; [|by apply choice_other].
    right. rewrite kids_k, best1_k. set_solver.
Qed.

(** With the new leaf as the best block along [us]. *)
Lemma leaf_moved_ok us infos2 :
  leaf_best -> updated infos1 (best infos1 p) p us ->
  (forall x, infos2 !! x =
    if decide (x ∈ us) then Some (ForkInfo.with_best_slot (info infos1 x) k) else infos1 !! x) ->
  fc_ok weigh (with_infos s infos2).
Proof.
  intros Hlb [U1 U2 U3 U4] Hl. set (b2 x := if decide (x ∈ us) then k else best infos1 x).
  pose proof tree1 as Ht.
  assert (Hin : forall x, x ∈ us -> is_Some (infos1 !! x)).
  { intros x Hx. apply (in_subtree_in infos1 _ Ht x p); [by apply U1|]. apply in1. by left. }
  assert (Hpus : p ∈ us) by (by apply U2).
  assert (Hbk : b2 k = k) by (unfold b2; case_decide; [done|apply best1_k]).
  apply (leaf_fc_ok infos2 b2).
  - intros x. rewrite Hl. case_decide; [|done]. split; [auto|by eexists].
  - intros x. unfold info at 1. rewrite Hl. unfold b2. case_decide; [done|]. fold (info infos1 x).
    unfold best. by destruct (info infos1 x).
  - intros x Hcx. destruct (decide (x = p)) as [->|Hxp].
    { left. exists k. split; [by apply leaf_best_chosen|]. rewrite Hbk. unfold b2.
      by rewrite decide_True. }
    destruct (decide (x = k)) as [->|Hxk]; [right; rewrite kids_k; set_solver|].
    destruct (choice_other x Hxp Hxk Hcx) as [(c & Hch & E)|[Hn E]].
    + left. exists c. split; [done|]. unfold b2. destruct Hch as [Hc _].
      destruct (decide (x ∈ us)) as [Hx|Hx], (decide (c ∈ us)) as [Hc'|Hc']; try done.
      * destruct (U4 x Hx Hxp) as (c' & Hc'us & Hpc'). destruct Hc'.
        assert (c = c') as ->; [|done]. apply (below_child_unique infos1 _ Ht x (best infos1 p)).
        -- done.
        -- by apply (parent_child _ _ Ht).
        -- destruct (U1 x Hx) as [_ <-]. rewrite E. apply best1_in.
        -- destruct (U1 c' Hc'us) as [_ <-]. apply best1_in.
      * destruct Hx. apply (U3 c); [done|by apply (child_parent _ _ Ht)|]. rewrite E. by apply U1.
    + right. split; [done|]. unfold b2. rewrite decide_False; [done|]. intros Hx.
      destruct (U1 x Hx) as [Hxp' Hbx]. destruct Hxp.
      apply (in_subtree_antisym infos1 _ Ht); [done|]. rewrite E in Hbx. rewrite Hbx.
      apply best1_in.
  - intros x. unfold b2. case_decide as Hx; [|apply best1_in].
    apply above_leaf, in_subtree1; [apply leaf_ne|]. by apply U1.
Qed.

Lemma add_leaf_ok :
  exists s', add_new_leaf_slot s k (Some p) = Ok s' /\ fc_ok weigh s' /\ root s' = root s /\
    latest_votes s' = latest_votes s /\
    same_shape infos1 (fork_infos s') /\ (forall x, validity (fork_infos s') x = validity infos1 x).
Proof.
  unfold add_new_leaf_slot, contains_block. rewrite Hk. cbn [mbind option_bind].
  assert (latest_invalid_ancestor s p = latest infos0 p) as ->.
  { unfold latest_invalid_ancestor, latest. by rewrite (lookup_info _ _ Hp). }
  unfold update_info. rewrite lookup_insert_ne by apply not_eq_sym, leaf_ne.
  rewrite (lookup_info _ _ Hp). cbn. fold leaf infos1. unfold propagate_new_leaf, best_slot, is_best_child.
  assert (Hp1 : is_Some (infos1 !! p)) by (apply in1; by left).
  assert (Hk1 : is_Some (infos1 !! k)) by (apply in1; by right).
  unfold parent, children, stake_voted_subtree. cbn [fork_infos with_infos].
  rewrite (lookup_info _ _ Hp1), (lookup_info _ _ Hk1). cbn [fmap option_fmap option_map unwrap].
  cbn [mbind result_bind option_bind]. rewrite info1_k. cbn [ForkInfo.parent leaf new_leaf ForkInfo.stake_voted_subtree].
  fold (kids infos1 p) (best infos1 p).
  cbn. rewrite (lookup_info _ _ Hp1). cbn. fold (kids infos1 p).
  destruct (no_better_child_spec (with_infos s infos1) k 0 (kids infos1 p)) as (b & -> & Hb).
  { cbn. intros c Hc. by eapply child_in, (child_parent _ _ tree1). }
  cbn in Hb |- *. fold leaf_best in Hb. destruct b.
  - destruct (propagate_loop_spec infos1 (root s) (best infos1 p) k tree1 (size infos1) p infos1)
      as (us & infos2 & -> & Hu & Hl); [by apply below_size|done|done|]. cbn.
    eexists. split; [done|]. split; [by apply (leaf_moved_ok us); [apply Hb|..]|]. split; [done|].
    split; [done|]. cbn. assert (Hi : forall x, info infos2 x = info infos1 x \/
      info infos2 x = ForkInfo.with_best_slot (info infos1 x) k).
    { intros x. unfold info at 1 3. rewrite Hl. case_decide; auto. }
    split.
    + split; intros x.
      * rewrite Hl. case_decide as Hx; [|done]. split; [|by eexists]. intros _.
        apply (in_subtree_in infos1 _ tree1 x p); [by apply (u_path _ _ _ _ Hu)|done].
      * by destruct (Hi x) as [-> | ->].
      * unfold kids. by destruct (Hi x) as [-> | ->].
    + intros x. unfold validity, latest, conf. by destruct (Hi x) as [-> | ->].
  - eexists. split; [done|]. split; [apply leaf_kept_ok; naive_solver|]. done.
Qed.
End Leaf.
