(* ===== verification/ForkChoiceRoot.v ===== *)
(** * Roots of fork choice

    A new fork choice, a new root and a parent of the root keep [fc_ok]. *)

From stdpp Require Import base gmap list fin_maps strings relations.
From Stdlib Require Import ZArith Lia.
From S2P Require Import Prelude Sdk MapOrder Epochs StakesCache ForkChoice ForkChoiceTree ForkChoiceAggregate ForkChoiceProofs.
Import HeaviestSubtree.

Implicit Types (infos : tree) (k p c a : SlotHashKey).

(** Every node is below the root. *)
Lemma below_root infos root k :
  tree_ok infos root -> is_Some (infos !! k) -> in_subtree infos root k.
Proof.
  intros Hok. remember (below infos (fst k)) as n eqn:En. revert k En.
  induction (lt_wf n) as [n _ IH]. intros k -> Hk.
  destruct (ForkInfo.parent (info infos k)) as [p|] eqn:Ep.
  - apply rtc_r with p; [|done]. apply (IH (below infos (fst p))); [|done|].
    + by apply (below_lt infos root Hok).
    + by apply (parent_in _ _ Hok p k).
  - rewrite (orphan_root _ _ Hok k Hk Ep). apply rtc_refl.
Qed.

Lemma in_subtree_dec infos root a k :
  tree_ok infos root -> in_subtree infos a k \/ ~ in_subtree infos a k.
Proof.
  intros Hok. destruct (decide (a = k)) as [->|Hne]; [left; apply rtc_refl|].
  destruct (decide (a ∈ ancestor_iterator infos k)) as [Ha|Ha];
    rewrite (ancestors_spec infos root Hok) in Ha; naive_solver.
Qed.

(** Whether a node agrees with its children depends on what they store only. *)
Lemma local_ok_same infos infos' k :
  weight infos' k = weight infos k -> cand infos' k = cand infos k ->
  voted infos' k = voted infos k -> best infos' k = best infos k -> kids infos' k = kids infos k ->
  (forall c, c ∈ kids infos k -> weight infos' c = weight infos c /\
    cand infos' c = cand infos c /\ best infos' c = best infos c) ->
  local_ok infos k -> local_ok infos' k.
Proof.
  intros Hw Hc Hv Hb Hkd Hf [L1 L2]. split.
  - rewrite Hw, Hv, Hkd, L1. do 2 f_equal. apply lsum_ext. intros c Hcc. symmetry. by apply Hf.
  - rewrite Hc. intros Hck. unfold best_of. rewrite Hkd, Hb. destruct (L2 Hck) as [(c & Hch & ->)|[Hn ->]].
    + left. destruct Hch as (H1 & H2 & H3). destruct (Hf c H1) as (Ew & Ec & Eb). exists c.
      split; [|done]. split; [done|]. split; [by rewrite Ec|]. intros d Hd.
      destruct (Hf d Hd) as (Ewd & Ecd & _). rewrite Ecd. unfold beats. rewrite Ew, Ewd. by apply H3.
    + right. split; [|done]. intros c Hcc. destruct (Hf c Hcc) as (_ & -> & _). auto.
Qed.

(** ** A new fork choice *)
Section New.
Context (weigh : Pubkey -> Slot -> Z) (r : SlotHashKey).

Lemma new_ok :
  exists s, new r = Ok s /\ fc_ok weigh s /\ root s = r /\ latest_votes s = ∅ /\
    fork_infos s = {[ r := new_leaf r None None ]}.
Proof.
  unfold new, add_new_leaf_slot, contains_block. cbn. rewrite lookup_empty. eexists. split; [done|].
  set (infos := <[r := new_leaf r None None]> (∅ : tree)).
  assert (Hi : forall k, info infos k = new_leaf k None None).
  { intros k. unfold infos. rewrite info_insert. case_decide as E; [by rewrite E|]. done. }
  assert (Hin : forall k, is_Some (infos !! k) -> k = r).
  { intros k. unfold infos. rewrite lookup_insert_is_Some. intros [?|[_ [? ?]]]; [done|].
    by rewrite lookup_empty in *. }
  assert (Hrel : forall p c, ~ parent_rel infos p c) by (intros p c; unfold parent_rel; by rewrite Hi).
  split_and!; [|done|done|done]. split; cbn; fold infos.
  - split; try (intros p c Hp; by apply Hrel in Hp).
    + unfold infos. rewrite lookup_insert_eq. by eexists.
    + by rewrite Hi.
    + intros k Hk _. by apply Hin.
    + intros p c. rewrite Hi. cbn. set_solver.
    + intros k. rewrite Hi. constructor.
  - intros k. split.
    + unfold weight at 1, voted, kids. by rewrite Hi.
    + intros _. right. unfold kids, best. rewrite Hi. cbn. set_solver.
  - intros k. unfold best. rewrite Hi. apply rtc_refl.
  - intros k _. unfold voted, voted_for. rewrite Hi, wsum_empty. done.
  - split; try (intros p c Hp; by apply Hrel in Hp).
    + intros k i. unfold latest. by rewrite Hi.
    + intros p c i Hp. by apply Hrel in Hp.
    + intros k. unfold latest. by rewrite Hi.
Qed.
End New.

(** ** Moving the root up *)
Lemma remove_keys_spec infos l :
  NoDup l -> (forall k, k ∈ l -> is_Some (infos !! k)) ->
  exists infos', remove_keys infos l = Ok infos' /\
    forall k, infos' !! k = if decide (k ∈ l) then None else infos !! k.
Proof.
  revert infos. induction l as [|x l IH]; intros infos Hnd Hin; cbn.
  { exists infos. split; [done|]. intros k. rewrite decide_False by set_solver. done. }
  apply NoDup_cons in Hnd as [Hx Hnd].
  rewrite (lookup_info infos x) by (apply Hin; set_solver). cbn.
  destruct (IH (delete x infos) Hnd) as (infos' & -> & Hl).
  { intros k Hk. rewrite lookup_delete_ne by (intros ->; done). apply Hin. set_solver. }
  exists infos'. split; [done|]. intros k. rewrite Hl. destruct (decide (k = x)) as [->|Hne].
  - rewrite decide_False, decide_True by set_solver. apply lookup_delete_eq.
  - rewrite lookup_delete_ne by done. destruct (decide (k ∈ l)), (decide (k ∈ x :: l)); set_solver.
Qed.

Section SetRoot.
Context (weigh : Pubkey -> Slot -> Z) (s : HeaviestSubtreeForkChoice) (Hs : fc_ok weigh s).
Context (r : SlotHashKey) (Hr : is_Some (fork_infos s !! r)).
Context (infos' : tree).
Abbreviation infos := (fork_infos s).
Context (Hin : forall k, is_Some (infos' !! k) <-> is_Some (infos !! k) /\ in_subtree infos r k).
Context (Hkeep : forall k, k <> r -> is_Some (infos' !! k) -> infos' !! k = infos !! k).
Context (Hroot : infos' !! r = Some (ForkInfo.with_parent (info infos r) None)).
Let Hok : tree_ok infos (root s) := fc_tree _ _ Hs.

Lemma cut_fields k : is_Some (infos' !! k) ->
  weight infos' k = weight infos k /\ cand infos' k = cand infos k /\
  voted infos' k = voted infos k /\ best infos' k = best infos k /\
  latest infos' k = latest infos k /\ conf infos' k = conf infos k /\ kids infos' k = kids infos k.
Proof.
  intros Hk. unfold weight, cand, voted, best, latest, conf, kids.
  destruct (decide (k = r)) as [->|Hne]; [by rewrite (info_lookup _ _ _ Hroot)|].
  unfold info. by rewrite (Hkeep k Hne Hk).
Qed.

Lemma cut_absent k : ~ is_Some (infos' !! k) -> infos' !! k = None.
Proof. apply eq_None_not_Some. Qed.

Lemma cut_root_in : is_Some (infos' !! r).
Proof. rewrite Hroot. by eexists. Qed.

Lemma cut_parent p c :
  parent_rel infos' p c <-> parent_rel infos p c /\ c <> r /\ is_Some (infos' !! c).
Proof.
  unfold parent_rel. split.
  - intros Hp. pose proof (child_in _ _ _ Hp) as Hc.
    assert (Hne : c <> r). { intros ->. by rewrite (info_lookup _ _ _ Hroot) in Hp. }
    split_and!; [|done|done]. revert Hp. unfold info. by rewrite (Hkeep c Hne Hc).
  - intros (Hp & Hne & Hc). unfold info. by rewrite (Hkeep c Hne Hc).
Qed.

Lemma cut_parent_in p c : parent_rel infos' p c -> is_Some (infos' !! p).
Proof.
  intros (Hp & Hne & Hc)%cut_parent. apply Hin in Hc as [_ Hrc]. apply Hin.
  split; [by apply (parent_in _ _ Hok p c)|].
  apply in_subtree_inv_r in Hrc as [?|(q & Hq & Hrq)]; [by destruct Hne|].
  by rewrite (parent_rel_fun infos _ _ _ Hp Hq).
Qed.

(** The children of a kept node are kept. *)
Lemma cut_child p c : is_Some (infos' !! p) -> parent_rel infos p c -> c <> r /\ is_Some (infos' !! c).
Proof.
  intros [_ Hrp]%Hin Hp. pose proof (parent_lt _ _ Hok _ _ Hp). split.
  - intros ->. destruct (in_subtree_le infos _ Hok _ _ Hrp) as [<-|?]; lia.
  - apply Hin. split; [by eapply child_in|by apply rtc_r with p].
Qed.

Lemma cut_in_subtree a k : is_Some (infos' !! a) -> in_subtree infos a k -> in_subtree infos' a k.
Proof.
  intros Ha H. revert Ha. induction H as [|a b k Hab _ IH]; intros Ha; [apply rtc_refl|].
  destruct (cut_child a b Ha Hab) as [Hne Hb]. apply rtc_l with b; [by apply cut_parent|by apply IH].
Qed.

Lemma cut_kids_absent k : ~ is_Some (infos' !! k) -> kids infos' k = [].
Proof. intros Hk%cut_absent. unfold kids. by rewrite (info_absent _ _ Hk). Qed.

Lemma cut_tree : tree_ok infos' r.
Proof.
  split.
  - apply cut_root_in.
  - by rewrite (info_lookup _ _ _ Hroot).
  - intros k Hk Hpk. destruct (decide (k = r)) as [?|Hne]; [done|].
    assert (Hp0 : ForkInfo.parent (info infos k) = None).
    { revert Hpk. unfold info. by rewrite (Hkeep k Hne Hk). }
    apply Hin in Hk as [Hk Hrk]. destruct (in_subtree_inv_r infos r k Hrk) as [?|(q & Hq & _)]; [done|].
    unfold parent_rel in Hq. congruence.
  - intros p c Hpc. pose proof (cut_parent_in _ _ Hpc) as Hp. apply cut_parent in Hpc as (Hpc & _).
    fold (kids infos' p). destruct (cut_fields p Hp) as (_ & _ & _ & _ & _ & _ & ->).
    by apply (parent_child _ _ Hok).
  - intros p c Hc. fold (kids infos' p) in Hc. destruct (decide (is_Some (infos' !! p))) as [Hp|Hp].
    + destruct (cut_fields p Hp) as (_ & _ & _ & _ & _ & _ & E). rewrite E in Hc.
      apply (child_parent _ _ Hok) in Hc. apply cut_parent. split; [done|]. by apply (cut_child p).
    + rewrite (cut_kids_absent p Hp) in Hc. set_solver.
  - apply cut_parent_in.
  - intros p c (Hp & _)%cut_parent. by apply (parent_lt _ _ Hok).
  - intros k. fold (kids infos' k). destruct (decide (is_Some (infos' !! k))) as [Hk|Hk].
    + destruct (cut_fields k Hk) as (_ & _ & _ & _ & _ & _ & ->). apply (children_nodup _ _ Hok).
    + rewrite (cut_kids_absent k Hk). constructor.
Qed.

Lemma cut_local k : local_ok infos' k.
Proof.
  destruct (decide (is_Some (infos' !! k))) as [Hk|Hk]; [|by apply local_ok_absent, cut_absent].
  destruct (cut_fields k Hk) as (Hw & Hc & Hv & Hb & _ & _ & Hkd).
  apply (local_ok_same infos); try done; [|apply (fc_local _ _ Hs)].
  intros c Hcc. apply (child_parent _ _ Hok) in Hcc.
  destruct (cut_fields c) as (? & ? & _ & ? & _); [by apply (cut_child k)|done].
Qed.

Lemma cut_valid : validity_ok infos'.
Proof.
  destruct (fc_valid _ _ Hs) as [V1 V2 V3 V4].
  assert (Hn : forall k, ~ is_Some (infos' !! k) -> latest infos' k = None).
  { intros k Hk%cut_absent. unfold latest. by rewrite (info_absent _ _ Hk). }
  assert (Hf : forall k, is_Some (infos' !! k) ->
    latest infos' k = latest infos k /\ conf infos' k = conf infos k).
  { intros k Hk. by destruct (cut_fields k Hk) as (_ & _ & _ & _ & ? & ? & _). }
  split.
  - intros k i. destruct (decide (is_Some (infos' !! k))) as [Hk|Hk]; [|by rewrite Hn].
    destruct (Hf k Hk) as [-> _]. apply V1.
  - intros p c i Hp. pose proof (cut_parent_in _ _ Hp) as Hpi. pose proof (child_in _ _ _ Hp) as Hci.
    apply cut_parent in Hp as (Hp & _). destruct (Hf p Hpi) as [-> _], (Hf c Hci) as [-> _]. eauto.
  - intros p c Hp. pose proof (cut_parent_in _ _ Hp) as Hpi. pose proof (child_in _ _ _ Hp) as Hci.
    apply cut_parent in Hp as (Hp & _). destruct (Hf p Hpi) as [_ ->], (Hf c Hci) as [_ ->]. eauto.
  - intros k. destruct (decide (is_Some (infos' !! k))) as [Hk|Hk]; [|by rewrite Hn].
    destruct (Hf k Hk) as [-> ->]. apply V4.
Qed.

Lemma cut_ok :
  fc_ok weigh {| fork_infos := infos'; latest_votes := latest_votes s; root := r |}.
Proof.
  split; cbn; [apply cut_tree|apply cut_local| | |apply cut_valid].
  - intros k. destruct (decide (is_Some (infos' !! k))) as [Hk|Hk].
    + destruct (cut_fields k Hk) as (_ & _ & _ & -> & _). apply cut_in_subtree; [done|].
      apply (fc_best _ _ Hs).
    + unfold best. rewrite (info_absent _ _ (cut_absent _ Hk)). apply rtc_refl.
  - intros k Hk. destruct (cut_fields k Hk) as (_ & _ & -> & _). apply (fc_votes _ _ Hs).
    by apply Hin.
Qed.
End SetRoot.

Lemma set_root_ok weigh s r :
  fc_ok weigh s -> is_Some (fork_infos s !! r) ->
  exists s', set_root s r = Ok s' /\ fc_ok weigh s' /\ root s' = r /\
    latest_votes s' = latest_votes s /\
    forall k, is_Some (fork_infos s' !! k) <->
      is_Some (fork_infos s !! k) /\ in_subtree (fork_infos s) r k.
Proof.
  intros Hs Hr. pose proof (fc_tree _ _ Hs) as Hok.
  assert (Hrr : in_subtree (fork_infos s) (root s) r) by by apply below_root.
  destruct (subtree_diff_spec (fork_infos s) (root s) Hok (root s) r) as (R & E & HR).
  unfold set_root. rewrite E. cbn.
  destruct (remove_keys_spec (fork_infos s) (elements R)) as (infos1 & -> & Hl);
    [apply NoDup_elements|intros k Hk%elem_of_elements; by apply HR|].
  assert (Hl' : forall k, is_Some (fork_infos s !! k) -> in_subtree (fork_infos s) r k ->
    infos1 !! k = fork_infos s !! k).
  { intros k Hk Hrk. rewrite Hl, decide_False; [done|]. rewrite elem_of_elements. intros Hk'%HR.
    naive_solver. }
  assert (Hl1 : infos1 !! r = fork_infos s !! r) by (apply Hl'; [done|apply rtc_refl]).
  cbn. unfold update_info. rewrite Hl1, (lookup_info _ _ Hr). cbn.
  set (infos2 := <[r := _]> infos1). assert (Hin : forall k, is_Some (infos2 !! k) <->
      is_Some (fork_infos s !! k) /\ in_subtree (fork_infos s) r k).
  { intros k. unfold infos2. rewrite lookup_insert_is_Some. split.
    - intros [<-|[_ Hk]]; [split; [done|apply rtc_refl]|]. rewrite Hl in Hk. case_decide as Hk'.
      { by destruct Hk. }
      split; [done|]. rewrite elem_of_elements, HR in Hk'.
      destruct (in_subtree_dec _ _ r k Hok) as [?|Hn]; [done|]. destruct Hk'.
      split; [done|]. split; [by apply below_root|naive_solver].
    - intros [Hk Hrk]. destruct (decide (r = k)); [by left|right]. by rewrite Hl'. }
  eexists. split; [done|]. split_and!; [|done|done|done].
  apply cut_ok; try done; [|by apply lookup_insert_eq].
  intros k Hne Hk. apply Hin in Hk as [? ?]. unfold infos2. rewrite lookup_insert_ne by done. auto.
Qed.

(** ** A parent of the root *)
Section RootParent.
Context (weigh : Pubkey -> Slot -> Z) (s : HeaviestSubtreeForkChoice) (Hs : fc_ok weigh s).
Context (q : SlotHashKey) (Hq : fork_infos s !! q = None) (Hlt : fst q < fst (root s)).
Context (Hcand : cand (fork_infos s) (root s) = true).
Context (Hunvoted : forall pk, latest_votes s !! pk <> Some q).
Abbreviation old := (fork_infos s).
Abbreviation rt := (root s).
Let Hok : tree_ok old rt := fc_tree _ _ Hs.

Definition root_parent_info : ForkInfo.t :=
  {| ForkInfo.stake_voted_at := 0; ForkInfo.stake_voted_subtree := weight old rt;
     ForkInfo.best_slot := best old rt; ForkInfo.children := [rt]; ForkInfo.parent := None;
     ForkInfo.latest_invalid_ancestor := None; ForkInfo.is_duplicate_confirmed := conf old rt |}.
Definition grown : tree :=
  <[q := root_parent_info]> (<[rt := ForkInfo.with_parent (info old rt) (Some q)]> old).

Lemma grown_in k : is_Some (grown !! k) <-> k = q \/ is_Some (old !! k).
Proof.
  unfold grown. rewrite !lookup_insert_is_Some. pose proof (root_in _ _ Hok).
  destruct (decide (q = k)), (decide (rt = k)); naive_solver.
Qed.

Lemma grown_q : info grown q = root_parent_info.
Proof. apply info_insert_eq. Qed.

Lemma grown_fields k : k <> q ->
  weight grown k = weight old k /\ cand grown k = cand old k /\ voted grown k = voted old k /\
  best grown k = best old k /\ latest grown k = latest old k /\ conf grown k = conf old k /\
  kids grown k = kids old k.
Proof.
  intros Hk. unfold weight, cand, voted, best, latest, conf, kids, grown.
  rewrite info_insert_ne, info_insert by done. by case_decide as E; [rewrite <- E|].
Qed.

Lemma grown_parent p c : parent_rel grown p c <-> c = rt /\ p = q \/ parent_rel old p c.
Proof.
  assert (q <> rt) by (intros ->; lia). unfold parent_rel, grown. rewrite !info_insert.
  case_decide as E1; [subst c|case_decide as E2; [subst c|]]; cbn.
  - rewrite (info_absent _ _ Hq). cbn. naive_solver.
  - rewrite (root_parent _ _ Hok). naive_solver.
  - naive_solver.
Qed.

Lemma grown_in_subtree a k : in_subtree old a k -> in_subtree grown a k.
Proof. apply rtc_subrel. intros p c Hp. apply grown_parent. by right. Qed.

Lemma not_child_q k : q ∉ kids old k.
Proof. intros [fi E]%(child_parent _ _ Hok)%child_in. by rewrite Hq in E. Qed.

Lemma grown_tree : tree_ok grown q.
Proof.
  split.
  - apply grown_in. by left.
  - by rewrite grown_q.
  - intros k [->|Hk]%grown_in Hp; [done|]. destruct (decide (k = q)) as [?|Hne]; [done|].
    assert (Hpk : ForkInfo.parent (info old k) = None).
    { destruct (ForkInfo.parent (info old k)) as [p|] eqn:E; [|done].
      assert (parent_rel grown p k) as Hpr by (apply grown_parent; by right).
      unfold parent_rel in Hpr. congruence. }
    apply (orphan_root _ _ Hok) in Hpk; [|done]. subst k.
    assert (parent_rel grown q rt) as Hpr by (apply grown_parent; by left).
    unfold parent_rel in Hpr. congruence.
  - intros p c [[-> ->]|Hp]%grown_parent; [rewrite grown_q; cbn; set_solver|].
    assert (p <> q). { intros ->. apply (parent_in _ _ Hok) in Hp as [? E]. by rewrite Hq in E. }
    fold (kids grown p). destruct (grown_fields p) as (_ & _ & _ & _ & _ & _ & ->); [done|].
    by apply (parent_child _ _ Hok).
  - intros p c. fold (kids grown p). intros Hc. apply grown_parent.
    destruct (decide (p = q)) as [->|Hne].
    + unfold kids in Hc. rewrite grown_q in Hc. cbn in Hc. set_solver.
    + right. destruct (grown_fields p Hne) as (_ & _ & _ & _ & _ & _ & E). rewrite E in Hc.
      by apply (child_parent _ _ Hok).
  - intros p c [[-> ->]|Hp]%grown_parent; apply grown_in; [by left|right].
    by apply (parent_in _ _ Hok p c).
  - intros p c [[-> ->]|Hp]%grown_parent; [done|]. by apply (parent_lt _ _ Hok).
  - intros k. fold (kids grown k). destruct (decide (k = q)) as [->|Hne].
    + unfold kids. rewrite grown_q. cbn. apply NoDup_singleton.
    + destruct (grown_fields k Hne) as (_ & _ & _ & _ & _ & _ & ->). apply (children_nodup _ _ Hok).
Qed.

Lemma grown_local k : local_ok grown k.
Proof.
  destruct (decide (k = q)) as [->|Hne].
  - assert (Hrq : rt <> q) by (intros E; rewrite E in Hlt; lia).
    destruct (grown_fields rt Hrq) as (Hw & Hc & _ & Hb & _). split.
    + unfold weight at 1, voted, kids. rewrite grown_q. cbn. rewrite Hw, Z.add_0_r.
      rewrite wrap_small; [done|]. rewrite (local_stake _ _ (fc_local _ _ Hs rt)). by apply wrap_range.
    + intros _. left. exists rt. unfold kids. rewrite grown_q. cbn. split; [|unfold best at 1; by rewrite grown_q].
      split; [set_solver|]. split; [by rewrite Hc|]. intros d Hd. left. set_solver.
  - destruct (grown_fields k Hne) as (Hw & Hc & Hv & Hb & _ & _ & Hkd).
    apply (local_ok_same old); try done; [|apply (fc_local _ _ Hs)].
    intros c Hcc. destruct (grown_fields c) as (? & ? & _ & ? & _); [|done].
    intros ->. by apply not_child_q in Hcc.
Qed.

Lemma grown_valid : validity_ok grown.
Proof.
  destruct (fc_valid _ _ Hs) as [V1 V2 V3 V4].
  assert (Hq' : latest grown q = None) by (unfold latest; by rewrite grown_q).
  assert (Hrq : rt <> q) by (intros E; rewrite E in Hlt; lia).
  assert (Hf : forall k, k <> q -> latest grown k = latest old k /\ conf grown k = conf old k).
  { intros k Hk. by destruct (grown_fields k Hk) as (_ & _ & _ & _ & ? & ? & _). }
  assert (Hin : forall p c, parent_rel old p c -> p <> q /\ c <> q).
  { intros p c Hp. split; intros ->;
      [apply (parent_in _ _ Hok) in Hp as [? E]|apply child_in in Hp as [? E]]; by rewrite Hq in E. }
  split.
  - intros k i. destruct (decide (k = q)) as [->|Hk]; [by rewrite Hq'|].
    destruct (Hf k Hk) as [-> _]. apply V1.
  - intros p c i [[-> ->]|Hp]%grown_parent; [by rewrite Hq'|]. destruct (Hin _ _ Hp) as [Hpq Hcq].
    destruct (Hf p Hpq) as [-> _], (Hf c Hcq) as [-> _]. eauto.
  - intros p c [[-> ->]|Hp]%grown_parent.
    + destruct (Hf rt Hrq) as [_ ->]. unfold conf at 2. by rewrite grown_q.
    + destruct (Hin _ _ Hp) as [Hpq Hcq]. destruct (Hf p Hpq) as [_ ->], (Hf c Hcq) as [_ ->]. eauto.
  - intros k. destruct (decide (k = q)) as [->|Hk]; [by rewrite Hq'|].
    destruct (Hf k Hk) as [-> ->]. apply V4.
Qed.

Lemma add_root_parent_ok :
  exists s', add_root_parent s q = Ok s' /\ fc_ok weigh s' /\ root s' = q /\
    latest_votes s' = latest_votes s /\ fork_infos s' = grown.
Proof.
  unfold add_root_parent, contains_block. rewrite (proj2 (Z.ltb_lt _ _) Hlt), Hq. cbn.
  rewrite (lookup_info _ _ (root_in _ _ Hok)). cbn.
  exists {| fork_infos := grown; latest_votes := latest_votes s; root := q |}.
  split_and!; [done| |done|done|done]. split; cbn [fork_infos latest_votes root].
  - apply grown_tree.
  - apply grown_local.
  - intros k. destruct (decide (k = q)) as [->|Hk].
    + unfold best. rewrite grown_q. cbn. apply rtc_l with rt; [apply grown_parent; by left|].
      apply grown_in_subtree, (fc_best _ _ Hs).
    + destruct (grown_fields k Hk) as (_ & _ & _ & -> & _). apply grown_in_subtree, (fc_best _ _ Hs).
  - intros k Hk. destruct (decide (k = q)) as [->|Hne].
    + unfold voted. rewrite grown_q, voted_for_none by done. done.
    + destruct (grown_fields k Hne) as (_ & _ & -> & _). apply (fc_votes _ _ Hs).
      apply grown_in in Hk as [?|?]; done.
  - apply grown_valid.
Qed.
End RootParent.
