(* ===== verification/ForkChoiceMarks.v ===== *)
(** * Marks of fork choice

    Marking a block invalid or valid updates the validity of its subtree and of
    its ancestors, and keeps [fc_ok]. *)

From stdpp Require Import base gmap list fin_maps strings relations.
From Stdlib Require Import ZArith Lia.
From S2P Require Import Prelude Sdk MapOrder Epochs StakesCache ForkChoice ForkChoiceTree ForkChoiceAggregate ForkChoiceProofs ForkChoiceRoot.
Import HeaviestSubtree.

Implicit Types (infos : tree) (k p c a : SlotHashKey) (ops : UpdateOperations).

Lemma existsb_eq {A} (f g : A -> bool) l : (forall x, f x = g x) -> existsb f l = existsb g l.
Proof. intros H. induction l as [|x l IH]; cbn; [done|]. by rewrite H, IH. Qed.

(** ** The batch of a mark *)

(** The entries for the keys [l]: an aggregation and the mark of each. *)
Definition marks_batch (op : UpdateOperation.t) (l : list SlotHashKey) ops : Prop :=
  forall k lab x, ops !! (k, lab) = Some x <->
    k ∈ l /\ (lab = UpdateLabel.Aggregate /\ x = UpdateOperation.Aggregate \/
              labelled (k, lab, op) /\ x = op).

Lemma mark_step op l ops k :
  is_mark op = true -> k ∉ l -> marks_batch op l ops ->
  marks_batch op (k :: l) (fst (do_insert_aggregate_operation ops (Some op) k)).
Proof.
  intros Hm Hk Hb. unfold do_insert_aggregate_operation.
  destruct (ops !! (k, UpdateLabel.Aggregate)) as [x|] eqn:E; [by apply Hb in E as [? _]|].
  assert (Hn : forall lab, ops !! (k, lab) = None).
  { intros lab. destruct (ops !! (k, lab)) eqn:E'; [|done]. by apply Hb in E' as [? _]. }
  intros j lab x. rewrite elem_of_cons.
  destruct op; cbn in Hm |- *; try done;
    (destruct (decide (j = k)) as [->|Hne];
     [|rewrite !lookup_insert_ne by congruence; rewrite (Hb j lab x); naive_solver]);
    rewrite !lookup_insert_Some, Hn; unfold labelled; cbn; naive_solver.
Qed.

Lemma mark_all_batch op l :
  is_mark op = true -> NoDup l -> marks_batch op l (mark_all ∅ op l).
Proof.
  intros Hm Hnd. unfold mark_all.
  assert (G : forall l seen ops, NoDup (l ++ seen) -> marks_batch op seen ops ->
    marks_batch op (l ++ seen) (foldl (fun ops key =>
      fst (do_insert_aggregate_operation ops (Some op) key)) ops l)).
  { clear l Hnd. induction l as [|k l IH]; intros seen ops Hnd Hb; cbn; [done|].
    cbn in Hnd. pose proof Hnd as [Hk _]%NoDup_cons.
    assert (Hp : k :: l ++ seen ≡ₚ l ++ (k :: seen)) by by rewrite Permutation_middle.
    specialize (IH (k :: seen) _ ltac:(by rewrite <- Hp) (mark_step op seen ops k Hm ltac:(set_solver) Hb)).
    intros j lab x. rewrite (IH j lab x), elem_of_cons, !elem_of_app, elem_of_cons. tauto. }
  specialize (G l [] ∅). rewrite app_nil_r in G. apply G; [done|].
  intros k lab x. rewrite lookup_empty. set_solver.
Qed.

(** ** The subtree of a block and the batch for it *)
Section Mark.
Context (weigh : Pubkey -> Slot -> Z) (s : HeaviestSubtreeForkChoice) (Hs : fc_ok weigh s).
Context (k0 : SlotHashKey) (Hk0 : is_Some (fork_infos s !! k0)).
Context (Hnull : fork_infos s !! SlotHashKey_default = None).
Context (op : UpdateOperation.t) (Hop : is_mark op = true).
Abbreviation infos := (fork_infos s).
Let Hok : tree_ok infos (root s) := fc_tree _ _ Hs.
Let Hval : validity_ok infos := fc_valid _ _ Hs.

Lemma subtree_diff_all :
  exists R, subtree_diff infos k0 SlotHashKey_default = Ok R /\
    forall k, k ∈ R <-> in_subtree infos k0 k.
Proof.
  destruct (subtree_diff_spec infos (root s) Hok k0 SlotHashKey_default) as (R & E & HR).
  exists R. split; [done|]. intros k. rewrite HR. split; [naive_solver|]. intros Hk.
  assert (Hn : ~ in_subtree infos k0 SlotHashKey_default).
  { intros H. pose proof (in_subtree_absent infos _ _ H Hnull) as ->. rewrite Hnull in Hk0.
    by destruct Hk0. }
  split_and!; [|done|naive_solver]. destruct (infos !! k) as [fi|] eqn:Ek; [by eexists|].
  pose proof (in_subtree_absent infos _ _ Hk Ek) as ->. by rewrite Ek in Hk0.
Qed.

Context (R : gset SlotHashKey) (HR : forall k, k ∈ R <-> in_subtree infos k0 k).

Definition mark_ops : UpdateOperations :=
  insert_aggregate_operations infos (mark_all ∅ op (elements R)) k0.
Definition mark_of k : option UpdateOperation.t := if decide (k ∈ R) then Some op else None.

Lemma subtree_child p c : parent_rel infos p c -> p ∈ R -> c ∈ R.
Proof. intros Hp Hin%HR. apply HR. by apply rtc_r with p. Qed.

Lemma subtree_parent p c : parent_rel infos p c -> c ∈ R -> c <> k0 -> p ∈ R.
Proof.
  intros Hp Hin%HR Hne. apply HR. apply in_subtree_inv_r in Hin as [?|(q & Hq & Hin)]; [done|].
  by rewrite (parent_rel_fun infos _ _ _ Hp Hq).
Qed.

Lemma subtree_slot k : k ∈ R -> k = k0 \/ fst k0 < fst k.
Proof. intros Hk%HR. destruct (in_subtree_le infos _ Hok _ _ Hk); auto. Qed.

Lemma subtree_not_above k : k ∈ R -> in_subtree infos k k0 -> k = k0.
Proof. intros Hk%HR Ha. by apply (in_subtree_antisym infos _ Hok). Qed.

Lemma root_in_R : k0 ∈ R.
Proof. apply HR, rtc_refl. Qed.

Lemma mark_ops_added :
  ancestors_added infos k0 (mark_all ∅ op (elements R)) mark_ops.
Proof.
  pose proof (mark_all_batch op (elements R) Hop (NoDup_elements R)) as Hb.
  assert (Hnm : forall k lab, labelled (k, lab, op) -> lab <> UpdateLabel.Aggregate).
  { intros k lab Hl ->. by destruct op. }
  apply (insert_across_spec infos (root s)); [done| |].
  - intros k x E. apply Hb in E as [_ [[_ ?]|[Hl _]]]; [done|]. by apply Hnm in Hl.
  - intros a Hne Ha Hag. apply Hb in Hag as [Hin%elem_of_elements _].
    by apply (subtree_not_above a Hin) in Ha.
Qed.

Lemma mark_ops_agg k : agg mark_ops k <-> k ∈ R \/ k <> k0 /\ in_subtree infos k k0.
Proof.
  rewrite (aa_agg _ _ _ _ mark_ops_added).
  pose proof (mark_all_batch op (elements R) Hop (NoDup_elements R)) as Hb.
  unfold agg at 1. rewrite (Hb k UpdateLabel.Aggregate UpdateOperation.Aggregate), elem_of_elements.
  naive_solver.
Qed.

Lemma mark_ops_lookup k lab x : mark_ops !! (k, lab) = Some x ->
  agg mark_ops k /\ (lab = UpdateLabel.Aggregate /\ x = UpdateOperation.Aggregate \/
    k ∈ R /\ labelled (k, lab, op) /\ x = op).
Proof.
  intros E. destruct (decide (lab = UpdateLabel.Aggregate)) as [->|Hne].
  - pose proof (aa_typed _ _ _ _ mark_ops_added k x E) as ->. auto.
  - rewrite (aa_other _ _ _ _ mark_ops_added) in E by done.
    pose proof (mark_all_batch op (elements R) Hop (NoDup_elements R)) as Hb.
    apply Hb in E as [Hin%elem_of_elements Hc]. split; [apply mark_ops_agg; by left|naive_solver].
Qed.

Lemma mark_ops_ok : ops_ok infos mark_of mark_ops.
Proof.
  split.
  - intros [k lab] x [_ [[-> ->]|(_ & ? & ->)]]%mark_ops_lookup; done.
  - intros [k lab] x a E Hne Ha. cbn in *. apply mark_ops_lookup in E as [Hk _].
    apply mark_ops_agg. apply mark_ops_agg in Hk as [Hin%HR|[Hn Hk]].
    + destruct (in_subtree_chain infos _ _ _ Ha Hin) as [Hc|Hc]; [|left; by apply HR].
      destruct (decide (a = k0)) as [->|?]; [left; apply root_in_R|by right].
    + right. split; [|by etrans]. intros ->. by destruct (in_subtree_antisym infos _ Hok _ _ Ha Hk).
  - intros [k lab] x [Hag [[-> ->]|(Hin & _ & ->)]]%mark_ops_lookup Hm; [done|].
    split; [done|]. unfold mark_of. cbn. by rewrite decide_True.
  - intros k x. unfold mark_of. case_decide as Hin; [|done]. intros [= <-]. split; [done|].
    assert (exists lab, labelled (k, lab, op)) as [lab Hl] by (destruct op; eexists; reflexivity).
    exists lab. assert (lab <> UpdateLabel.Aggregate) as Hne by (intros ->; by destruct op).
    rewrite (aa_other _ _ _ _ mark_ops_added) by done.
    apply (mark_all_batch op (elements R) Hop (NoDup_elements R)). rewrite elem_of_elements. auto.
Qed.

Lemma mark_ops_pending k : pending mark_ops k = 0.
Proof.
  unfold pending. rewrite (wsum_ext _ (fun _ _ => 0)); [apply lsum_zero; by intros []|].
  intros [j lab] x [_ [[_ ->]|(_ & _ & ->)]]%mark_ops_lookup; cbn; case_bool_decide; try done.
  by destruct op.
Qed.

(** Processing the batch, given the validity it should lead to. *)
Lemma process_marks V :
  (forall i, op = UpdateOperation.MarkInvalid i -> forall k, k ∈ R -> conf infos k = false) ->
  (forall k, is_Some (infos !! k) ->
    V k = if decide (agg mark_ops k) then
            if existsb (fun c => snd (V c)) (kids infos k) then (None, true)
            else marked (mark_of k) k (validity infos k)
          else validity infos k) ->
  (forall infos', same_shape infos infos' ->
    (forall k, is_Some (infos !! k) -> validity infos' k = V k) -> validity_ok infos') ->
  exists s', process_update_operations s mark_ops = Ok s' /\ fc_ok weigh s' /\
    same_shape infos (fork_infos s') /\ root s' = root s /\ latest_votes s' = latest_votes s /\
    forall k, is_Some (infos !! k) -> validity (fork_infos s') k = V k.
Proof.
  intros Hinv HV Hvok.
  destruct (process_batch weigh s mark_ops mark_of V Hs mark_ops_ok) as (infos' & E & [P1 P2 P3 P4 P5]).
  - intros k i. unfold mark_of. case_decide; [|done]. intros [= ?]. by eapply Hinv.
  - done.
  - exists (with_infos s infos'). split_and!; try done. split; cbn; try done.
    + by eapply same_shape_tree_ok.
    + intros k Hk%(sh_in _ _ P1). rewrite (P4 k Hk), mark_ops_pending, Z.add_0_r.
      rewrite (fc_votes _ _ Hs k Hk), wrap_small by (by apply wrap_range). done.
    + by apply Hvok.
Qed.
End Mark.

Lemma validity_ok_from infos root infos' (V : SlotHashKey -> option Slot * bool) :
  tree_ok infos root -> same_shape infos infos' ->
  (forall k, is_Some (infos !! k) -> validity infos' k = V k) ->
  (forall k i, is_Some (infos !! k) -> fst (V k) = Some i -> i <= fst k) ->
  (forall p c i, parent_rel infos p c -> fst (V p) = Some i ->
    exists i', fst (V c) = Some i' /\ i <= i') ->
  (forall p c, parent_rel infos p c -> snd (V c) = true -> snd (V p) = true) ->
  (forall k, is_Some (infos !! k) -> snd (V k) = true -> fst (V k) = None) ->
  validity_ok infos'.
Proof.
  intros Hok Hsh HV H1 H2 H3 H4.
  assert (He : forall k, is_Some (infos !! k) -> latest infos' k = fst (V k) /\ conf infos' k = snd (V k)).
  { intros k Hk. by rewrite <- (HV k Hk). }
  assert (Ha : forall k, ~ is_Some (infos !! k) -> latest infos' k = None).
  { intros k Hk. assert (infos' !! k = None) as E.
    { apply eq_None_not_Some. by rewrite (sh_in _ _ Hsh). }
    unfold latest. by rewrite (info_absent _ _ E). }
  split.
  - intros k i. destruct (decide (is_Some (infos !! k))) as [Hk|Hk]; [|by rewrite Ha].
    rewrite (proj1 (He k Hk)). by apply H1.
  - intros p c i Hp%(same_shape_rel _ _ _ _ Hsh).
    pose proof (parent_in _ _ Hok _ _ Hp) as Hpi. pose proof (child_in _ _ _ Hp) as Hci.
    rewrite (proj1 (He p Hpi)), (proj1 (He c Hci)). by apply H2.
  - intros p c Hp%(same_shape_rel _ _ _ _ Hsh).
    pose proof (parent_in _ _ Hok _ _ Hp) as Hpi. pose proof (child_in _ _ _ Hp) as Hci.
    rewrite (proj2 (He p Hpi)), (proj2 (He c Hci)). by apply H3.
  - intros k. destruct (decide (is_Some (infos !! k))) as [Hk|Hk]; [|by rewrite Ha].
    rewrite (proj1 (He k Hk)), (proj2 (He k Hk)). by apply H4.
Qed.

(** ** An invalid block *)
Definition invalidated k0 (v : option Slot * bool) : option Slot * bool :=
  marked (Some (UpdateOperation.MarkInvalid (fst k0))) k0 v.


Lemma invalidated_latest k0 v :
  fst (invalidated k0 v) = Some (from_option (fun i => Z.max i (fst k0)) (fst k0) (fst v)).
Proof.
  unfold invalidated. cbn. destruct (fst v) as [i|]; cbn; [|done].
  destruct (Z.ltb_spec i (fst k0)); f_equal; lia.
Qed.

Lemma conf_up infos a k :
  validity_ok infos -> in_subtree infos a k -> conf infos k = true -> conf infos a = true.
Proof.
  intros Hv. induction 1 as [|a b k Hab _ IH]; [done|]. intros Hk.
  by apply (v_up _ Hv a b); [|apply IH].
Qed.

Section Invalid.
Context (weigh : Pubkey -> Slot -> Z) (s : HeaviestSubtreeForkChoice) (Hs : fc_ok weigh s).
Context (k0 : SlotHashKey) (Hc0 : conf (fork_infos s) k0 = false).
Abbreviation infos := (fork_infos s).
Context (R : gset SlotHashKey) (HR : forall k, k ∈ R <-> in_subtree infos k0 k).
Let Hok : tree_ok infos (root s) := fc_tree _ _ Hs.
Let Hval : validity_ok infos := fc_valid _ _ Hs.

Definition after_invalid k : option Slot * bool :=
  if decide (k ∈ R) then invalidated k0 (validity infos k) else validity infos k.

Lemma subtree_unconfirmed k : k ∈ R -> conf infos k = false.
Proof.
  intros Hk%HR. destruct (conf infos k) eqn:Ek; [|done].
  by rewrite (conf_up _ _ _ Hval Hk Ek) in Hc0.
Qed.

Lemma after_invalid_conf k : snd (after_invalid k) = conf infos k.
Proof. unfold after_invalid. by case_decide. Qed.

Lemma after_invalid_fix k :
  let op := UpdateOperation.MarkInvalid (fst k0) in
  after_invalid k = if decide (agg (mark_ops s k0 op R) k) then
      if existsb (fun c => snd (after_invalid c)) (kids infos k) then (None, true)
      else marked (mark_of op R k) k (validity infos k)
    else validity infos k.
Proof.
  intros op. rewrite (existsb_eq _ (conf infos)) by (intros c; apply after_invalid_conf).
  destruct (existsb _ _) eqn:Ex.
  - apply existsb_exists in Ex as (c & Hc & Hcc). apply list_elem_of_In in Hc.
    apply (child_parent _ _ Hok) in Hc. pose proof (v_up _ Hval _ _ Hc Hcc) as Hck.
    unfold after_invalid. rewrite decide_False by (intros Hin; by rewrite subtree_unconfirmed in Hck).
    unfold validity. rewrite Hck, (v_cand _ Hval _ Hck). by case_decide.
  - unfold after_invalid, mark_of. destruct (decide (k ∈ R)) as [Hin|Hin]; [|by case_decide].
    rewrite decide_True; [done|]. apply (mark_ops_agg weigh s Hs k0 op eq_refl R HR). by left.
Qed.

Lemma after_invalid_ok infos' :
  same_shape infos infos' -> (forall k, is_Some (infos !! k) -> validity infos' k = after_invalid k) ->
  validity_ok infos'.
Proof.
  intros Hsh HV. destruct Hval as [V1 V2 V3 V4].
  apply (validity_ok_from infos (root s) infos' after_invalid); try done.
  - intros k i Hk. unfold after_invalid. case_decide as Hin; [|apply V1]. rewrite invalidated_latest.
    pose proof (subtree_slot weigh s Hs k0 R HR k Hin) as Hle. intros [= <-].
    destruct (latest infos k) as [i|] eqn:Ei; cbn; [apply V1 in Ei|]; destruct Hle as [->|?]; lia.
  - intros p c i Hp. unfold after_invalid. destruct (decide (p ∈ R)) as [Hpi|Hpi].
    + rewrite decide_True by (by apply (subtree_child s k0 R HR p)). rewrite !invalidated_latest.
      intros [= <-]. eexists. split; [done|]. destruct (latest infos p) as [i|] eqn:Ei; cbn.
      * destruct (V2 _ _ _ Hp Ei) as (i' & -> & ?). cbn. lia.
      * destruct (latest _ c); cbn; lia.
    + intros Ei. destruct (V2 _ _ _ Hp Ei) as (i' & Ec & ?).
      case_decide; [|by exists i']. rewrite invalidated_latest. cbn. rewrite Ec. eexists.
      split; [done|]. cbn. lia.
  - intros p c Hp. rewrite !after_invalid_conf. by apply V3.
  - intros k Hk. rewrite after_invalid_conf. intros Hck. unfold after_invalid.
    rewrite decide_False by (intros Hin; by rewrite subtree_unconfirmed in Hck). by apply V4.
Qed.
End Invalid.

Lemma mark_invalid_ok weigh s k0 :
  fc_ok weigh s -> fork_infos s !! SlotHashKey_default = None -> is_Some (fork_infos s !! k0) ->
  conf (fork_infos s) k0 = false ->
  exists s' R, mark_fork_invalid_candidate s k0 = Ok s' /\ fc_ok weigh s' /\
    same_shape (fork_infos s) (fork_infos s') /\ root s' = root s /\
    latest_votes s' = latest_votes s /\
    (forall k, k ∈ R <-> in_subtree (fork_infos s) k0 k) /\
    forall k, is_Some (fork_infos s !! k) -> validity (fork_infos s') k = after_invalid s k0 R k.
Proof.
  intros Hs Hnull Hk0 Hc0. destruct (subtree_diff_all weigh s Hs k0 Hk0 Hnull) as (R & E & HR).
  unfold mark_fork_invalid_candidate. rewrite (lookup_info _ _ Hk0).
  change (ForkInfo.is_duplicate_confirmed (info (fork_infos s) k0)) with (conf (fork_infos s) k0).
  rewrite Hc0. cbn [negb assert_ panic_unless mbind result_bind]. rewrite E. cbn.
  destruct (process_marks weigh s Hs k0 (UpdateOperation.MarkInvalid (fst k0)) eq_refl R HR
    (after_invalid s k0 R)) as (s' & E' & Hs' & Hsh & Hrt & Hlv & HV).
  - intros i _ k. by apply (subtree_unconfirmed weigh s Hs k0).
  - intros k _. by apply (after_invalid_fix weigh).
  - by apply (after_invalid_ok weigh).
  - exists s', R. done.
Qed.

(** ** A valid block *)
Section Valid.
Context (weigh : Pubkey -> Slot -> Z) (s : HeaviestSubtreeForkChoice) (Hs : fc_ok weigh s).
Context (k0 : SlotHashKey).
Abbreviation infos := (fork_infos s).
Context (R : gset SlotHashKey) (HR : forall k, k ∈ R <-> in_subtree infos k0 k).
Let Hok : tree_ok infos (root s) := fc_tree _ _ Hs.
Let Hval : validity_ok infos := fc_valid _ _ Hs.

(** The block and its ancestors are confirmed; of the blocks below it, those
    whose latest invalid ancestor is not below it become candidates. *)
Definition after_valid k : option Slot * bool :=
  if decide (k = k0 \/ k ∈ ancestor_iterator infos k0) then (None, true)
  else if decide (k ∈ R) then
    (match latest infos k with Some i => if i <=? fst k0 then None else Some i | None => None end,
     conf infos k)
  else validity infos k.

Lemma on_path k : k = k0 \/ k ∈ ancestor_iterator infos k0 <-> in_subtree infos k k0.
Proof.
  rewrite (ancestors_spec infos _ Hok). split.
  - intros [->|[_ ?]]; [apply rtc_refl|done].
  - intros Hk. destruct (decide (k = k0)); auto.
Qed.

Lemma after_valid_path k : in_subtree infos k k0 -> after_valid k = (None, true).
Proof. intros Hk. unfold after_valid. by rewrite decide_True by by apply on_path. Qed.

Lemma after_valid_below k : k ∈ R -> k <> k0 -> after_valid k =
  (match latest infos k with Some i => if i <=? fst k0 then None else Some i | None => None end,
   conf infos k).
Proof.
  intros Hk Hne. unfold after_valid. rewrite decide_False, decide_True; [done|done|].
  rewrite on_path. by intros Ha%(subtree_not_above weigh s Hs k0 R HR k Hk).
Qed.

Lemma after_valid_other k : k ∉ R -> ~ in_subtree infos k k0 -> after_valid k = validity infos k.
Proof. intros Hk Hn. unfold after_valid. by rewrite !decide_False by (rewrite ?on_path; done). Qed.

Lemma after_valid_cases k :
  in_subtree infos k k0 /\ after_valid k = (None, true) \/
  k ∈ R /\ k <> k0 /\ after_valid k =
    (match latest infos k with Some i => if i <=? fst k0 then None else Some i | None => None end,
     conf infos k) \/
  ((k ∉ R) /\ ~ in_subtree infos k k0) /\ after_valid k = validity infos k.
Proof.
  destruct (in_subtree_dec infos (root s) k k0 Hok) as [Hp|Hp]; [left; by split; [|apply after_valid_path]|].
  right. destruct (decide (k ∈ R)) as [Hin|Hin]; [left|right; by split; [|apply after_valid_other]].
  assert (k <> k0) by (intros ->; apply Hp, rtc_refl).
  split_and!; [done|done|by apply after_valid_below].
Qed.

Lemma below_ne k : k ∈ R -> k <> k0 -> fst k0 < fst k.
Proof. intros Hk Hne. by destruct (subtree_slot weigh s Hs k0 R HR k Hk). Qed.

Lemma after_valid_fix k :
  let op := UpdateOperation.MarkValid (fst k0) in
  after_valid k = if decide (agg (mark_ops s k0 op R) k) then
      if existsb (fun c => snd (after_valid c)) (kids infos k) then (None, true)
      else marked (mark_of op R k) k (validity infos k)
    else validity infos k.
Proof.
  intros op. pose proof (mark_ops_agg weigh s Hs k0 op eq_refl R HR k) as Hag.
  destruct (after_valid_cases k) as [(Hp & ->)|[(Hin & Hne & ->)|((Hin & Hp) & ->)]].
  - rewrite decide_True by (apply Hag; destruct (decide (k = k0)) as [->|]; [left; by apply HR|by right]).
    destruct (decide (k = k0)) as [->|Hne].
    + destruct (existsb _ _); [done|]. unfold mark_of. rewrite decide_True by by apply HR.
      cbn. rewrite Z.eqb_refl, orb_true_r. destruct (latest infos k0) as [i|] eqn:Ei; [|done].
      apply (v_slot _ Hval) in Ei. by rewrite (proj2 (Z.leb_le _ _) Ei).
    + destruct (below_child infos _ Hok k k0 Hp Hne) as (c & Hc & Hcp).
      assert (existsb (fun c => snd (after_valid c)) (kids infos k) = true) as ->; [|done].
      apply existsb_exists. exists c. split; [by apply list_elem_of_In|].
      by rewrite (after_valid_path c Hcp).
  - rewrite decide_True by (apply Hag; by left). pose proof (below_ne k Hin Hne) as Hlt.
    destruct (existsb _ _) eqn:Ex.
    + apply existsb_exists in Ex as (c & Hc & Hcc). apply list_elem_of_In in Hc.
      apply (child_parent _ _ Hok) in Hc. pose proof (parent_lt _ _ Hok _ _ Hc).
      rewrite after_valid_below in Hcc; [|by apply (subtree_child s k0 R HR k)|intros ->; lia].
      pose proof (v_up _ Hval _ _ Hc Hcc) as Hck. by rewrite Hck, (v_cand _ Hval _ Hck).
    + unfold mark_of. rewrite decide_True by done. cbn.
      by rewrite (proj2 (Z.eqb_neq (fst k) (fst k0))), orb_false_r by lia.
  - rewrite decide_False; [done|]. rewrite Hag. naive_solver.
Qed.

Lemma after_valid_ok infos' :
  same_shape infos infos' -> (forall k, is_Some (infos !! k) -> validity infos' k = after_valid k) ->
  validity_ok infos'.
Proof.
  intros Hsh HV. destruct Hval as [V1 V2 V3 V4].
  apply (validity_ok_from infos (root s) infos' after_valid); try done.
  - intros k i _.
    destruct (after_valid_cases k) as [(_ & ->)|[(_ & _ & ->)|(_ & ->)]]; cbn; [done| |apply V1].
    destruct (latest infos k) as [j|] eqn:E; [|done]. case_match; [done|]. intros [= <-]. by apply V1.
  - intros p c i Hpc.
    destruct (after_valid_cases p) as [(_ & ->)|[(Hin & Hne & ->)|((Hin & Hp) & ->)]]; cbn; [done| |].
    + pose proof (parent_lt _ _ Hok _ _ Hpc). pose proof (below_ne p Hin Hne).
      rewrite after_valid_below; [|by apply (subtree_child s k0 R HR p)|intros ->; lia]. cbn.
      destruct (latest infos p) as [j|] eqn:E; [|done].
      destruct (Z.leb_spec j (fst k0)); [done|]. intros [= <-].
      destruct (V2 _ _ _ Hpc E) as (j' & -> & ?). exists j'.
      by rewrite (proj2 (Z.leb_gt j' (fst k0))) by lia.
    + rewrite after_valid_other; [cbn; eauto| |].
      * intros Hc. destruct (decide (c = k0)) as [->|Hne]; [by apply Hp, rtc_once|].
        by apply Hin, (subtree_parent s k0 R HR p c).
      * intros Hc. apply Hp. by apply rtc_l with c.
  - intros p c Hpc.
    destruct (after_valid_cases p) as [(_ & ->)|[(Hin & Hne & ->)|((Hin & Hp) & ->)]]; cbn; [done| |].
    + pose proof (parent_lt _ _ Hok _ _ Hpc). pose proof (below_ne p Hin Hne).
      rewrite after_valid_below; [cbn; eauto|by apply (subtree_child s k0 R HR p)|intros ->; lia].
    + rewrite after_valid_other; [cbn; eauto| |].
      * intros Hc. destruct (decide (c = k0)) as [->|Hne]; [by apply Hp, rtc_once|].
        by apply Hin, (subtree_parent s k0 R HR p c).
      * intros Hc. apply Hp. by apply rtc_l with c.
  - intros k _.
    destruct (after_valid_cases k) as [(_ & ->)|[(_ & _ & ->)|(_ & ->)]]; cbn; [done| |apply V4].
    intros Hk. by rewrite (V4 k Hk).
Qed.
End Valid.

Lemma unconfirmed_spec s l :
  (forall k, k ∈ l -> is_Some (fork_infos s !! k)) ->
  unconfirmed s l = Ok (filter (fun k => conf (fork_infos s) k = false) l).
Proof.
  induction l as [|k l IH]; intros Hl; cbn [unconfirmed]; [done|].
  unfold is_duplicate_confirmed. rewrite (lookup_info _ k) by (apply Hl; set_solver).
  rewrite IH by set_solver. rewrite filter_cons. cbn [mbind result_bind fmap option_fmap option_map unwrap].
  change (ForkInfo.is_duplicate_confirmed (info (fork_infos s) k)) with (conf (fork_infos s) k).
  by destruct (conf (fork_infos s) k).
Qed.

Lemma mark_valid_ok weigh s k0 :
  fc_ok weigh s -> fork_infos s !! SlotHashKey_default = None -> is_Some (fork_infos s !! k0) ->
  exists s' R, mark_fork_valid_candidate s k0
      = Ok (filter (fun k => conf (fork_infos s) k = false)
              (k0 :: ancestor_iterator (fork_infos s) k0), s') /\ fc_ok weigh s' /\
    same_shape (fork_infos s) (fork_infos s') /\ root s' = root s /\
    latest_votes s' = latest_votes s /\
    (forall k, k ∈ R <-> in_subtree (fork_infos s) k0 k) /\
    forall k, is_Some (fork_infos s !! k) -> validity (fork_infos s') k = after_valid s k0 R k.
Proof.
  intros Hs Hnull Hk0. pose proof (fc_tree _ _ Hs) as Hok.
  destruct (subtree_diff_all weigh s Hs k0 Hk0 Hnull) as (R & E & HR).
  unfold mark_fork_valid_candidate. rewrite unconfirmed_spec.
  2: { intros k Hk%elem_of_cons. apply (in_subtree_in _ _ Hok k k0); [|done].
    by apply (on_path weigh s Hs). }
  cbn [mbind result_bind]. rewrite E. cbn [mbind result_bind].
  destruct (process_marks weigh s Hs k0 (UpdateOperation.MarkValid (fst k0)) eq_refl R HR
    (after_valid s k0 R)) as (s' & E' & Hs' & Hsh & Hrt & Hlv & HV).
  - done.
  - intros k _. by apply (after_valid_fix weigh).
  - by apply (after_valid_ok weigh).
  - exists s', R. unfold mark_ops in E'. cbn. rewrite E'. done.
Qed.
