(* ===== verification/ForkChoiceCount.v ===== *)
(** * Counting votes and walking down the tree

    The reference for fork choice: the weight of a block is counted from the
    latest votes, and the best block is found by going to the heaviest candidate
    child until there is none.  In a state with [fc_ok] the stored figures are
    these. *)

From stdpp Require Import base gmap list fin_maps strings relations.
From Stdlib Require Import ZArith Lia.
From S2P Require Import Prelude Sdk MapOrder Epochs StakesCache ForkChoice ForkChoiceTree ForkChoiceAggregate ForkChoiceProofs.
Import HeaviestSubtree.

Implicit Types (infos : tree) (k p c a : SlotHashKey).

(** ** The reference *)

(** A vote counts for its block and for the ancestors of it. *)
Definition counts_for infos (v k : SlotHashKey) : bool :=
  bool_decide (k ∈ v :: ancestor_iterator infos v).

Definition recount (weigh : Pubkey -> Slot -> Z) (s : HeaviestSubtreeForkChoice) k : Z :=
  wrap u64_max
    (wsum (fun pk v => if counts_for (fork_infos s) v k then weigh pk (fst v) else 0)
       (latest_votes s)).

Definition heavier (w : SlotHashKey -> Z) c d : bool :=
  (w d <? w c) || (w d =? w c) && bool_decide (lt_key c d).

Fixpoint heaviest_of (w : SlotHashKey -> Z) (cs : list SlotHashKey) : option SlotHashKey :=
  match cs with
  | [] => None
  | c :: cs =>
      match heaviest_of w cs with
      | Some d => if heavier w d c then Some d else Some c
      | None => Some c
      end
  end.

Definition candidates infos k : list SlotHashKey :=
  filter (fun c => cand infos c = true) (kids infos k).

Fixpoint heaviest_walk (fuel : nat) infos (w : SlotHashKey -> Z) k : SlotHashKey :=
  match fuel with
  | O => k
  | S fuel =>
      match heaviest_of w (candidates infos k) with
      | Some c => heaviest_walk fuel infos w c
      | None => k
      end
  end.

Definition heaviest (weigh : Pubkey -> Slot -> Z) (s : HeaviestSubtreeForkChoice) k : SlotHashKey :=
  heaviest_walk (size (fork_infos s)) (fork_infos s) (recount weigh s) k.

(** ** The stored weights are the counts *)
Section Count.
Context (weigh : Pubkey -> Slot -> Z) (s : HeaviestSubtreeForkChoice) (Hs : fc_ok weigh s).
Abbreviation infos := (fork_infos s).
Let Hok : tree_ok infos (root s) := fc_tree _ _ Hs.

Lemma counts_for_spec v k : counts_for infos v k = true <-> in_subtree infos k v.
Proof.
  unfold counts_for. rewrite bool_decide_eq_true, elem_of_cons, (ancestors_spec infos _ Hok). split.
  - intros [->|[_ ?]]; [apply rtc_refl|done].
  - intros Hk. destruct (decide (k = v)); auto.
Qed.

(** A vote for the subtree of [k] is for [k] or for the subtree of one child. *)
Lemma counts_for_split v k (w : Z) :
  (if counts_for infos v k then w else 0)
  = (if bool_decide (v = k) then w else 0)
    + lsum (fun c => if counts_for infos v c then w else 0) (kids infos k).
Proof.
  assert (Hout : (forall c, c ∈ kids infos k -> ~ in_subtree infos c v) ->
    lsum (fun c => if counts_for infos v c then w else 0) (kids infos k) = 0).
  { intros H. apply lsum_zero. intros c Hc. destruct (counts_for infos v c) eqn:E; [|done].
    by apply counts_for_spec in E; apply H in E. }
  destruct (counts_for infos v k) eqn:E.
  - apply counts_for_spec in E. case_bool_decide as Hv; [subst v|].
    + rewrite Hout; [lia|]. intros c Hc. by apply (child_not_above infos _ Hok).
    + destruct (below_child infos _ Hok k v E) as (c & Hc & Hcv); [congruence|].
      rewrite (lsum_single c); [|apply (children_nodup _ _ Hok)|done|].
      * by rewrite (proj2 (counts_for_spec v c) Hcv).
      * intros d Hd Hne. destruct (counts_for infos v d) eqn:Ed; [|done]. destruct Hne.
        apply counts_for_spec in Ed. by apply (below_child_unique infos _ Hok k v).
  - assert (Hn : ~ in_subtree infos k v) by (intros H%counts_for_spec; congruence).
    rewrite bool_decide_false by (intros ->; apply Hn, rtc_refl). rewrite Hout; [done|].
    intros c Hc Hcv. apply Hn. apply (child_parent _ _ Hok) in Hc. by apply rtc_l with c.
Qed.

Lemma wrap_sum (f g : SlotHashKey -> Z) (x : Z) l :
  (forall c, c ∈ l -> f c = wrap u64_max (g c)) ->
  wrap u64_max (wrap u64_max x + lsum f l) = wrap u64_max (x + lsum g l).
Proof.
  unfold wrap. rewrite Zplus_mod_idemp_l. revert x. induction l as [|c l IH]; intros x Hf; cbn; [done|].
  rewrite Hf by set_solver. rewrite (Z.add_assoc x), (Z.add_assoc x).
  rewrite <- (Zplus_mod_idemp_l (x + _ mod _)), Zplus_mod_idemp_r, Zplus_mod_idemp_l.
  apply IH. set_solver.
Qed.

Lemma weight_recount k : is_Some (infos !! k) -> weight infos k = recount weigh s k.
Proof.
  revert k. apply (tree_ind_up infos _ Hok (fun k => is_Some (infos !! k) -> weight infos k = recount weigh s k)).
  intros k IH Hk. rewrite (local_stake _ _ (fc_local _ _ Hs k)), (fc_votes _ _ Hs k Hk).
  set (cnt c := wsum (fun pk v => if counts_for infos v c then weigh pk (fst v) else 0) (latest_votes s)).
  rewrite (wrap_sum _ cnt).
  - unfold recount. f_equal. unfold voted_for, cnt, wsum. rewrite lsum_swap, <- lsum_add.
    apply lsum_ext. intros [pk v] _. cbn. symmetry. apply counts_for_split.
  - intros c Hc. apply IH; [done|]. by eapply child_in, (child_parent _ _ Hok).
Qed.

(** ** The stored best blocks are where the walk ends *)
Lemma heavier_true w c d :
  heavier w c d = true <-> w d < w c \/ w d = w c /\ lt_key c d.
Proof.
  unfold heavier. by rewrite orb_true_iff, andb_true_iff, Z.ltb_lt, Z.eqb_eq, bool_decide_eq_true.
Qed.

Lemma heavier_trans w a c d :
  heavier w a c = true -> heavier w c d = true -> heavier w a d = true.
Proof.
  rewrite !heavier_true. intros [?|[? ?]] [?|[? ?]]; try (left; lia).
  right. split; [lia|]. by eapply lt_key_trans.
Qed.

Lemma heavier_total w c d : heavier w c d = false -> d = c \/ heavier w d c = true.
Proof.
  intros E. destruct (lt_key_trichotomy c d) as [Hl|[?|Hl]]; [|by left|]; right.
  - apply heavier_true. left. destruct (Z_lt_ge_dec (w c) (w d)) as [|Hge]; [done|].
    assert (heavier w c d = true); [|congruence]. apply heavier_true.
    destruct (Z.eq_dec (w d) (w c)); [by right|left; lia].
  - apply heavier_true. destruct (Z.eq_dec (w c) (w d)); [by right|left].
    destruct (Z_lt_ge_dec (w c) (w d)); [done|].
    assert (heavier w c d = true); [|congruence]. apply heavier_true. left. lia.
Qed.

Lemma heaviest_of_spec w cs :
  match heaviest_of w cs with
  | Some c => c ∈ cs /\ forall d, d ∈ cs -> d = c \/ heavier w c d = true
  | None => cs = []
  end.
Proof.
  induction cs as [|c cs IH]; cbn; [done|].
  destruct (heaviest_of w cs) as [d|]; [|subst cs; set_solver]. destruct IH as [Hd Hall].
  destruct (heavier w d c) eqn:E; split; try set_solver; intros x [->|Hx]%elem_of_cons; auto.
  destruct (heavier_total _ _ _ E) as [->|Hcd]; [auto|].
  right. destruct (Hall x Hx) as [->|?]; [done|]. by eapply heavier_trans.
Qed.

Lemma elem_of_candidates k c : c ∈ candidates infos k <-> c ∈ kids infos k /\ cand infos c = true.
Proof. unfold candidates. rewrite list_elem_of_filter. tauto. Qed.

Lemma heaviest_of_best k : cand infos k = true ->
  match heaviest_of (recount weigh s) (candidates infos k) with
  | Some c => c ∈ kids infos k /\ cand infos c = true /\ best infos k = best infos c
  | None => best infos k = k
  end.
Proof.
  intros Hk. pose proof (heaviest_of_spec (recount weigh s) (candidates infos k)) as H.
  assert (Hw : forall c, c ∈ candidates infos k -> recount weigh s c = weight infos c).
  { intros c [Hc _]%elem_of_candidates. symmetry. apply weight_recount.
    by eapply child_in, (child_parent _ _ Hok). }
  destruct (heaviest_of _ _) as [c|].
  - destruct H as [Hc Hall]. pose proof Hc as [Hck Hcc]%elem_of_candidates. split_and!; [done|done|].
    apply (best_of_unique infos k); [by apply (local_best _ _ (fc_local _ _ Hs k))|].
    left. exists c. split; [|done]. split_and!; [done|done|]. intros d Hd Hcd.
    assert (Hdc : d ∈ candidates infos k) by (by apply elem_of_candidates).
    destruct (Hall d Hdc) as [->|Hb%heavier_true]; [by left|right]. unfold beats.
    by rewrite <- (Hw c Hc), <- (Hw d Hdc).
  - apply (best_of_unique infos k); [by apply (local_best _ _ (fc_local _ _ Hs k))|].
    right. split; [|done]. intros c Hc. destruct (cand infos c) eqn:Ec; [|done].
    assert (Hcc : c ∈ candidates infos k) by (by apply elem_of_candidates). rewrite H in Hcc. set_solver.
Qed.

Lemma best_heaviest k :
  is_Some (infos !! k) -> cand infos k = true -> best infos k = heaviest weigh s k.
Proof.
  intros Hk. unfold heaviest. pose proof (above_size infos k Hk) as Hf.
  remember (size infos) as n eqn:En. clear En. revert k Hk Hf.
  induction n as [|n IH]; intros k Hk Hf Hc; [lia|]. cbn.
  pose proof (heaviest_of_best k Hc) as H. destruct (heaviest_of _ _) as [c|]; [|done].
  destruct H as (Hck & Hcc & ->). apply (child_parent _ _ Hok) in Hck.
  apply IH; [by eapply child_in| |done]. pose proof (above_lt infos _ Hok _ _ Hck). lia.
Qed.

Lemma best_is_candidate k : cand infos k = true -> cand infos (best infos k) = true.
Proof.
  revert k. apply (tree_ind_up infos _ Hok (fun k => cand infos k = true -> cand infos (best infos k) = true)).
  intros k IH Hk. destruct (local_best _ _ (fc_local _ _ Hs k) Hk) as [(c & (Hc & Hcc & _) & ->)|[_ ->]].
  - by apply IH.
  - done.
Qed.
End Count.
