(* ===== verification/ForkChoiceEvents.v ===== *)
(** * The operations of fork choice as events

    A fork choice starts from the frozen banks and is then changed by events, one
    for each public operation.  [admissible] states what the callers guarantee;
    under it every event succeeds and preserves [fc_ok] ([event_ok]). *)

From stdpp Require Import base gmap list fin_maps strings relations sorting.
From Stdlib Require Import ZArith Lia.
From S2P Require Import Prelude Sdk MapOrder Epochs StakesCache ForkChoice ForkChoiceTree ForkChoiceAggregate ForkChoiceProofs ForkChoiceLeaf ForkChoiceRoot ForkChoiceMarks.
Import HeaviestSubtree.

Implicit Types (infos : tree) (k p c a : SlotHashKey) (s : HeaviestSubtreeForkChoice).

Definition present s k : Prop := is_Some (fork_infos s !! k).
(** No latest vote is for [k]. *)
Definition unvoted s k : Prop := forall pk, latest_votes s !! pk <> Some k.

(** The block [k] is known, or it is new and extends a known block. *)
Definition leaf_admissible s k p : Prop :=
  present s k \/
  present s p /\ fst p < fst k /\ k <> SlotHashKey_default /\ unvoted s k.

Section Leaves.
Context (weigh : Pubkey -> Slot -> Z).

(** [fc_ok], and the key that stands for no block is not in the tree. *)
Record good s : Prop := {
  good_ok : fc_ok weigh s;
  good_null : fork_infos s !! SlotHashKey_default = None }.

Lemma leaf_good s k p :
  good s -> leaf_admissible s k p ->
  exists s', add_new_leaf_slot s k (Some p) = Ok s' /\ good s' /\ root s' = root s /\
    latest_votes s' = latest_votes s /\ forall j, present s' j <-> j = k \/ present s j.
Proof.
  intros [Hs Hn] Hadm. destruct (decide (present s k)) as [Hk|Hk].
  { exists s. unfold add_new_leaf_slot, contains_block. rewrite (lookup_info _ _ Hk).
    split_and!; try done. intros j. split; [by right|]. by intros [->|?]. }
  destruct Hadm as [?|(Hp & Hlt & Hnd & Hu)]; [done|]. apply eq_None_not_Some in Hk.
  destruct (add_leaf_ok weigh s Hs k p Hk Hp Hlt Hu) as (s' & E & Hs' & Hr & Hv & Hsh & _).
  assert (Hin : forall j, present s' j <-> j = k \/ present s j).
  { intros j. unfold present. rewrite (sh_in _ _ Hsh), in1 by done. tauto. }
  exists s'. split_and!; try done. split; [done|]. apply eq_None_not_Some. intros H%Hin.
  destruct H as [?|[? H]]; [done|]. by rewrite Hn in H.
Qed.

(** Blocks whose parents are known or come before them. *)
Lemma leaves_good l : forall s,
  good s ->
  (forall k p, (k, p) ∈ l -> fst p < fst k /\ k <> SlotHashKey_default /\ unvoted s k) ->
  (forall l1 k p l2, l = l1 ++ (k, p) :: l2 -> present s p \/ p ∈ l1.*1) ->
  exists s', add_leaves s l = Ok s' /\ good s' /\ root s' = root s /\
    latest_votes s' = latest_votes s.
Proof.
  induction l as [|[k p] l IH]; intros s Hs Hl Hpar; cbn; [by exists s|].
  destruct (leaf_good s k p Hs) as (s1 & -> & Hs1 & Hr1 & Hv1 & Hin).
  { right. split; [destruct (Hpar [] k p l eq_refl) as [?|?]; [done|set_solver]|].
    apply Hl. set_solver. }
  cbn. destruct (IH s1 Hs1) as (s' & E & Hs' & Hr & Hv).
  - intros j q Hj. unfold unvoted. rewrite Hv1. apply Hl. set_solver.
  - intros l1 j q l2 ->. rewrite Hin. destruct (Hpar ((k, p) :: l1) j q l2 eq_refl) as [?|Hq]; [auto|].
    cbn in Hq. set_solver.
  - exists s'. split; [done|]. split; [done|]. by rewrite Hr, Hv.
Qed.
End Leaves.

(** ** Merging another fork choice *)
Definition merge_nodes (other : HeaviestSubtreeForkChoice) (merge_leaf : SlotHashKey)
  : list (SlotHashKey * SlotHashKey) :=
  (fun e => (fst e, default merge_leaf (ForkInfo.parent (snd e)))) <$> sorted_entries (fork_infos other).

Lemma elem_of_merge_nodes other merge_leaf k p :
  (k, p) ∈ merge_nodes other merge_leaf <->
  present other k /\ p = default merge_leaf (ForkInfo.parent (info (fork_infos other) k)).
Proof.
  unfold merge_nodes, present. rewrite list_elem_of_fmap. split.
  - intros ([k' fi] & [= -> ->] & Hin). rewrite sorted_entries_Permutation, elem_of_map_to_list in Hin.
    cbn. rewrite Hin. split; [by eexists|]. by rewrite (info_lookup _ _ _ Hin).
  - intros [Hk ->]. exists (k, info (fork_infos other) k). split; [done|].
    rewrite sorted_entries_Permutation, elem_of_map_to_list. by apply lookup_info.
Qed.

(** Parents come before their children. *)
Lemma merge_nodes_parents other merge_leaf r l1 k p l2 :
  tree_ok (fork_infos other) r -> merge_nodes other merge_leaf = l1 ++ (k, p) :: l2 ->
  p = merge_leaf \/ p ∈ l1.*1.
Proof.
  intros Hok E. assert (Hin : (k, p) ∈ merge_nodes other merge_leaf) by (rewrite E; set_solver).
  apply elem_of_merge_nodes in Hin as [Hk ->].
  destruct (ForkInfo.parent (info (fork_infos other) k)) as [q|] eqn:Eq; cbn; [right|by left].
  assert (Hq : parent_rel (fork_infos other) q k) by done.
  assert (Hqin : exists q', (q, q') ∈ l1 ++ (k, q) :: l2).
  { eexists. cbn in E. rewrite <- E. apply elem_of_merge_nodes. split; [|done].
    by apply (parent_in _ _ Hok q k). }
  assert (Hlt : lt_key q k) by (apply slot_lt_key; by apply (parent_lt _ _ Hok)).
  destruct Hqin as [q' [Hq1|Hq2]%elem_of_app]; [by apply (list_elem_of_fmap_2 fst _ (q, q'))|].
  apply elem_of_cons in Hq2 as [[= -> _]|Hq2]; [by apply lt_key_irrefl in Hlt|].
  destruct (lt_key_asym _ _ Hlt).
  assert (Hst : StronglySorted (fun e f => lt_key (fst e) (fst f)) (merge_nodes other merge_leaf)).
  { eapply StronglySorted_fmap; [|apply sorted_entries_sorted]. done. }
  rewrite E in Hst. apply StronglySorted_app_1_r, StronglySorted_inv in Hst as [_ Hst].
  rewrite Forall_forall in Hst. exact (Hst _ Hq2).
Qed.

(** ** The events *)
Inductive event : Type :=
| NewBlock (k p : SlotHashKey)
| NewVotes (es : gmap Epoch EpochStakes) (sched : EpochSchedule) (votes : list (Pubkey * SlotHashKey))
| NewRoot (r : SlotHashKey)
| NewRootParent (q : SlotHashKey)
| InvalidBlock (k : SlotHashKey)
| ValidBlock (k : SlotHashKey)
| Merge (es : gmap Epoch EpochStakes) (sched : EpochSchedule) (other : HeaviestSubtreeForkChoice)
    (leaf : SlotHashKey).

Definition apply_event s (e : event) : result Empty_set HeaviestSubtreeForkChoice :=
  match e with
  | NewBlock k p => add_new_leaf_slot s k (Some p)
  | NewVotes es sched votes => '(_, s) ← add_votes es sched s votes; Ok s
  | NewRoot r => set_root s r
  | NewRootParent q => add_root_parent s q
  | InvalidBlock k => mark_fork_invalid_candidate s k
  | ValidBlock k => '(_, s) ← mark_fork_valid_candidate s k; Ok s
  | Merge es sched other leaf => merge es sched s other leaf
  end.

Section Events.
Context (weigh : Pubkey -> Slot -> Z).

(** The stakes handed over with a vote, and those with the vote it replaces. *)
Definition weighed es sched s (pk : Pubkey) (v : SlotHashKey) : Prop :=
  agrees weigh es sched pk v /\
  forall old, latest_votes s !! pk = Some old -> agrees weigh es sched pk old.

Definition admissible s (e : event) : Prop :=
  match e with
  | NewBlock k p => leaf_admissible s k p
  | NewVotes es sched votes =>
      NoDup votes.*1 /\ forall pk v, (pk, v) ∈ votes -> weighed es sched s pk v
  | NewRoot r => present s r
  | NewRootParent q =>
      fork_infos s !! q = None /\ q <> SlotHashKey_default /\ fst q < fst (root s) /\
      is_candidate s (root s) = Some true /\ unvoted s q
  | InvalidBlock k => is_duplicate_confirmed s k <> Some true
  | ValidBlock k => present s k
  | Merge es sched other leaf =>
      good weigh other /\ present s leaf /\ fst leaf < fst (root other) /\
      (forall k, present other k -> unvoted s k) /\
      (forall pk v, latest_votes other !! pk = Some v -> weighed es sched s pk v)
  end.

(** ** Every admissible event succeeds *)
Context (Hweigh : forall pk slot, 0 <= weigh pk slot).

Lemma shape_good s s' :
  good weigh s -> fc_ok weigh s' -> same_shape (fork_infos s) (fork_infos s') -> good weigh s'.
Proof.
  intros [_ Hn] Hs' Hsh. split; [done|]. apply eq_None_not_Some.
  rewrite (sh_in _ _ Hsh), Hn. by intros [? ?].
Qed.

Lemma votes_good es sched s votes :
  good weigh s -> NoDup votes.*1 ->
  (forall pk v, (pk, v) ∈ votes -> weighed es sched s pk v) ->
  exists b s', add_votes es sched s votes = Ok (b, s') /\ good weigh s'.
Proof.
  intros Hs Hnd Hw.
  destruct (add_votes_ok weigh Hweigh es sched s votes (good_ok _ _ Hs) Hnd Hw)
    as (s' & E & Hs' & Hsh & _). eexists _, s'. split; [exact E|]. by eapply shape_good.
Qed.

Lemma merge_good es sched s other leaf :
  good weigh s -> admissible s (Merge es sched other leaf) ->
  exists s', merge es sched s other leaf = Ok s' /\ good weigh s'.
Proof.
  intros Hs (Ho & Hl & Hlt & Hu & Hw). pose proof (fc_tree _ _ (good_ok _ _ Ho)) as Hok.
  unfold merge, contains_block. rewrite (lookup_info _ _ Hl). cbn [assert_ panic_unless mbind result_bind].
  fold (merge_nodes other leaf).
  destruct (leaves_good weigh (merge_nodes other leaf) s Hs) as (s1 & -> & Hs1 & Hr1 & Hv1).
  - intros k p [Hk ->]%elem_of_merge_nodes. split_and!; [|intros ->|by apply Hu].
    + destruct (ForkInfo.parent _) as [q|] eqn:E; cbn.
      * by apply (parent_lt _ _ Hok).
      * by rewrite (orphan_root _ _ Hok k Hk E).
    + destruct Hk as [? Hk]. by rewrite (good_null _ _ Ho) in Hk.
  - intros l1 k p l2 E. destruct (merge_nodes_parents other leaf _ l1 k p l2 Hok E) as [->|?]; auto.
  - cbn. destruct (votes_good es sched s1 (map_to_list (latest_votes other)) Hs1) as (b & s' & -> & Hs').
    + apply NoDup_fst_map_to_list.
    + intros pk v Hin%elem_of_map_to_list. unfold weighed. rewrite Hv1. by apply Hw.
    + by exists s'.
Qed.

Lemma event_ok s e :
  good weigh s -> admissible s e -> exists s', apply_event s e = Ok s' /\ good weigh s'.
Proof.
  intros Hs. destruct e as [k p|es sched votes|r|q|k|k|es sched other leaf]; cbn [apply_event].
  - intros (s' & ? & ? & _)%(leaf_good weigh s k p Hs). by exists s'.
  - intros [Hnd Hw]. destruct (votes_good es sched s votes Hs Hnd Hw) as (b & s' & -> & ?). by exists s'.
  - intros Hr. destruct (set_root_ok weigh s r (good_ok _ _ Hs) Hr) as (s' & E & Hs' & _ & _ & Hin).
    exists s'. split; [done|]. split; [done|]. apply eq_None_not_Some. rewrite Hin, (good_null _ _ Hs).
    intros [[? ?] _]. done.
  - intros (Hq & Hnd & Hlt & Hc & Hu). pose proof (root_in _ _ (fc_tree _ _ (good_ok _ _ Hs))) as Hr.
    unfold is_candidate in Hc. rewrite (lookup_info _ _ Hr) in Hc. injection Hc as Hc.
    destruct (add_root_parent_ok weigh s (good_ok _ _ Hs) q Hq Hlt Hc Hu) as (s' & E & Hs' & _ & _ & Ei).
    exists s'. split; [done|]. split; [done|]. apply eq_None_not_Some. rewrite Ei.
    rewrite (grown_in weigh s (good_ok _ _ Hs)) by done. rewrite (good_null _ _ Hs). intros [?|[? ?]]; done.
  - intros Hc. destruct (decide (present s k)) as [Hk|Hk].
    + unfold admissible, is_duplicate_confirmed in Hc. rewrite (lookup_info _ _ Hk) in Hc.
      destruct (mark_invalid_ok weigh s k (good_ok _ _ Hs) (good_null _ _ Hs) Hk)
        as (s' & R & E & Hs' & Hsh & _).
      { unfold conf. destruct (ForkInfo.is_duplicate_confirmed _) eqn:E; [|done]. cbn in Hc. congruence. }
      exists s'. split; [done|]. by eapply shape_good.
    + exists s. unfold mark_fork_invalid_candidate. apply eq_None_not_Some in Hk. by rewrite Hk.
  - intros Hk. destruct (mark_valid_ok weigh s k (good_ok _ _ Hs) (good_null _ _ Hs) Hk)
      as (s' & R & -> & Hs' & Hsh & _). exists s'. split; [done|]. by eapply shape_good.
  - apply merge_good, Hs.
Qed.
End Events.

(** ** Starting from the frozen banks *)
Definition bank_key (b : BankView) : SlotHashKey := (bank_slot b, bank_hash b).
Definition bank_parent_key (b : BankView) : SlotHashKey := (bank_parent_slot b, bank_parent_hash b).

(** Frozen banks in the order of their slots; those above the root have hashes
    and descend from the root. *)
Fixpoint banks_admissible (root_slot : Slot) (known : list SlotHashKey) (prev_slot : Slot)
    (banks : list BankView) : Prop :=
  match banks with
  | [] => True
  | b :: banks =>
      bank_is_frozen b = true /\
      if root_slot <? bank_slot b then
        prev_slot < bank_slot b /\ bank_hash b <> Hash_default /\
        bank_parent_hash b <> Hash_default /\ bank_parent_key b ∈ known /\
        banks_admissible root_slot (bank_key b :: known) (bank_slot b) banks
      else banks_admissible root_slot known prev_slot banks
  end.

Section Banks.
Context (weigh : Pubkey -> Slot -> Z).

Lemma add_frozen_banks_good banks : forall s known prev,
  good weigh s -> latest_votes s = ∅ -> (forall k, k ∈ known -> present s k /\ fst k <= prev) ->
  banks_admissible (fst (root s)) known prev banks ->
  exists s', add_frozen_banks s prev banks = Ok s' /\ good weigh s' /\ latest_votes s' = ∅.
Proof.
  induction banks as [|b banks IH]; intros s known prev Hs Hv Hkn; [by exists s|].
  cbn [banks_admissible add_frozen_banks]. intros [-> Hb]. cbn [assert_ panic_unless mbind result_bind].
  destruct (Z.ltb_spec (fst (root s)) (bank_slot b)) as [Hr|Hr]; [|by eapply IH].
  destruct Hb as (Hp & Hh & Hph & Hpar & Hb). rewrite (proj2 (Z.ltb_lt _ _) Hp).
  rewrite !bool_decide_true by done. cbn [assert_ panic_unless mbind result_bind].
  fold (bank_key b) (bank_parent_key b). destruct (Hkn _ Hpar) as [Hpp Hps].
  destruct (leaf_good weigh s (bank_key b) (bank_parent_key b) Hs) as (s1 & -> & Hs1 & Hr1 & Hv1 & Hin).
  { right. split_and!; [done|cbn in *; lia|intros E; by apply (f_equal snd) in E|].
    intros pk. rewrite Hv, lookup_empty. done. }
  cbn. apply (IH s1 (bank_key b :: known)); [done|by rewrite Hv1| |by rewrite Hr1].
  intros k [->|Hk]%elem_of_cons; rewrite Hin; [split; [by left|cbn; lia]|].
  destruct (Hkn k Hk). split; [by right|lia].
Qed.

Lemma banks_good r banks :
  r <> SlotHashKey_default -> banks_admissible (fst r) [r] (fst r) banks ->
  exists s, new_from_frozen_banks r banks = Ok s /\ good weigh s.
Proof.
  intros Hr Hb. unfold new_from_frozen_banks.
  destruct (new_ok weigh r) as (s & -> & Hs & Hrs & Hv & Ei). cbn.
  assert (Hg : good weigh s).
  { split; [done|]. rewrite Ei. by apply lookup_singleton_ne. }
  destruct (add_frozen_banks_good banks s [r] (fst r)) as (s' & ? & ? & _); [done|done| |by rewrite Hrs|by exists s'].
  intros k ->%list_elem_of_singleton. split; [|lia]. unfold present. rewrite Ei, lookup_singleton_eq. by eexists.
Qed.
End Banks.
