(* ===== verification/ForkChoiceTheorems.v ===== *)
(** * Theorems on fork choice

    The states reachable from the frozen banks by the operations; in all of them
    the stored figures are those of the reference in [ForkChoiceCount], and no
    operation panics. *)

From stdpp Require Import base gmap list fin_maps strings relations.
From Stdlib Require Import ZArith Lia.
From S2P Require Import Prelude Sdk MapOrder Epochs StakesCache ForkChoice ForkChoiceTree ForkChoiceAggregate ForkChoiceProofs ForkChoiceLeaf ForkChoiceRoot ForkChoiceMarks ForkChoiceCount ForkChoiceEvents.
Import HeaviestSubtree.

Implicit Types (k p c a b : SlotHashKey) (s : HeaviestSubtreeForkChoice).

Inductive reachable (weigh : Pubkey -> Slot -> Z) : HeaviestSubtreeForkChoice -> Prop :=
| Reach_banks r banks s :
    r <> SlotHashKey_default -> banks_admissible (fst r) [r] (fst r) banks ->
    new_from_frozen_banks r banks = Ok s -> reachable weigh s
| Reach_event s e s' :
    reachable weigh s -> admissible weigh s e -> apply_event s e = Ok s' -> reachable weigh s'.

Lemma filter_iff_in {A} (P Q : A -> Prop) `{forall x, Decision (P x), forall x, Decision (Q x)} (l : list A) :
  (forall x, x ∈ l -> P x <-> Q x) -> filter P l = filter Q l.
Proof.
  induction l as [|x l IH]; intros HPQ; [done|]. rewrite !filter_cons.
  assert (Hx : P x <-> Q x) by (apply HPQ; set_solver). rewrite IH by set_solver.
  by destruct (decide (P x)), (decide (Q x)); naive_solver.
Qed.

Section Reachable.
Context (weigh : Pubkey -> Slot -> Z) (Hweigh : forall pk slot, 0 <= weigh pk slot).

Lemma reachable_good s : reachable weigh s -> good weigh s.
Proof.
  induction 1 as [r banks s Hr Hb E|s e s' _ IH Ha E].
  - destruct (banks_good weigh r banks Hr Hb) as (s' & E' & ?). rewrite E in E'. by injection E' as <-.
  - destruct (event_ok weigh Hweigh s e IH Ha) as (s'' & E' & ?). rewrite E in E'. by injection E' as <-.
Qed.

Lemma contains_present s k : contains_block s k = true <-> present s k.
Proof.
  unfold contains_block, present. destruct (fork_infos s !! k); [|split; [done|by intros []]].
  split; [by eexists|done].
Qed.

Lemma is_candidate_true s k :
  is_candidate s k = Some true <-> present s k /\ cand (fork_infos s) k = true.
Proof.
  unfold is_candidate, present, cand, info. destruct (fork_infos s !! k) as [fi|]; cbn.
  - split; [intros [= E]; split; [by eexists|done]|by intros [_ ->]].
  - split; [done|intros [[? ?] _]; done].
Qed.

Lemma confirmed_present s k x :
  is_duplicate_confirmed s k = Some x <-> present s k /\ conf (fork_infos s) k = x.
Proof.
  unfold is_duplicate_confirmed, present, conf, info. destruct (fork_infos s !! k) as [fi|]; cbn.
  - split; [intros [= E]; split; [by eexists|done]|by intros [_ ->]].
  - split; [done|intros [[? ?] _]; done].
Qed.

Lemma below_present s k b : present s k -> in_subtree (fork_infos s) k b -> present s b.
Proof.
  intros Hk Hb. unfold present. destruct (fork_infos s !! b) eqn:E; [by eexists|].
  by rewrite <- (in_subtree_absent _ _ _ Hb E), (lookup_info _ _ Hk) in E.
Qed.

(** The stakes depend on the votes and the shape of the tree only. *)
Lemma stakes_same s s' j :
  fc_ok weigh s -> fc_ok weigh s' -> same_shape (fork_infos s) (fork_infos s') ->
  latest_votes s' = latest_votes s -> stake_voted_subtree s' j = stake_voted_subtree s j.
Proof.
  intros Hs Hs' Hsh Hv. unfold stake_voted_subtree. destruct (fork_infos s !! j) as [fi|] eqn:E.
  - assert (Hj : present s j) by (by eexists). pose proof Hj as Hj'%(sh_in _ _ Hsh).
    rewrite <- E, (lookup_info _ _ Hj), (lookup_info _ _ Hj'). cbn. f_equal.
    change (weight (fork_infos s') j = weight (fork_infos s) j).
    rewrite (weight_recount weigh s Hs j Hj), (weight_recount weigh s' Hs' j Hj').
    unfold recount. f_equal. rewrite Hv. apply wsum_ext. intros pk v _.
    replace (counts_for (fork_infos s') v j) with (counts_for (fork_infos s) v j); [done|].
    apply eq_true_iff_eq.
    rewrite (counts_for_spec weigh s Hs), (counts_for_spec weigh s' Hs').
    by rewrite (same_shape_in_subtree _ _ _ _ Hsh).
  - assert (fork_infos s' !! j = None) as ->; [|done]. apply eq_None_not_Some.
    rewrite (sh_in _ _ Hsh), E. by intros [? ?].
Qed.

(** C13: In every reachable state the stake stored for the subtree of a block
    is the stake of the latest votes for it and its descendants, counted
    anew, and the best block stored for a block in the running is the one
    reached by always going to the heaviest child in the running, the
    smaller key winning a tie. *)
Theorem fork_choice_recounts s k :
  reachable weigh s -> contains_block s k = true ->
  stake_voted_subtree s k = Some (recount weigh s k) /\
  (is_candidate s k = Some true -> best_slot s k = Some (heaviest weigh s k)).
Proof.
  intros Hr Hk%contains_present. pose proof (good_ok _ _ (reachable_good s Hr)) as Hs.
  unfold stake_voted_subtree, best_slot. rewrite (lookup_info _ _ Hk). cbn. split.
  - f_equal. by apply weight_recount.
  - intros [_ Hc]%is_candidate_true. f_equal. by apply best_heaviest.
Qed.

(** C31: From every reachable state each operation its callers may perform
    returns, without running into an assertion, a missing block or the
    bound of a loop, and the result again has a best block to build on. *)
Theorem fork_choice_never_panics s e :
  reachable weigh s -> admissible weigh s e ->
  exists s' b, apply_event s e = Ok s' /\ reachable weigh s' /\ best_overall_slot s' = Ok b.
Proof.
  intros Hr Ha. destruct (event_ok weigh Hweigh s e (reachable_good s Hr) Ha) as (s' & E & Hs').
  exists s', (best (fork_infos s') (root s')). split_and!; [done|by apply (Reach_event _ s e)|].
  unfold best_overall_slot, best_slot.
  by rewrite (lookup_info _ _ (root_in _ _ (fc_tree _ _ (good_ok _ _ Hs')))).
Qed.

(** After a block has been marked as an invalid duplicate, no block in
    the running has it, or a block above it, as its best block; the votes
    keep counting. *)
Theorem invalid_fork_abandoned s k :
  reachable weigh s -> is_duplicate_confirmed s k = Some false ->
  exists s', mark_fork_invalid_candidate s k = Ok s' /\
    (forall j b, is_candidate s' j = Some true -> best_slot s' j = Some b ->
      counts_for (fork_infos s') b k = false) /\
    forall j, stake_voted_subtree s' j = stake_voted_subtree s j.
Proof.
  intros Hr Hc. pose proof (reachable_good s Hr) as [Hs Hn].
  apply confirmed_present in Hc as [Hk Hcf].
  destruct (mark_invalid_ok weigh s k Hs Hn Hk Hcf) as (s' & R & E & Hs' & Hsh & _ & Hv & HR & HV).
  exists s'. split; [done|]. split.
  - intros j b [Hj Hcj]%is_candidate_true Hb. unfold best_slot in Hb. rewrite (lookup_info _ _ Hj) in Hb.
    injection Hb as <-. pose proof (best_is_candidate weigh s' Hs' j Hcj) as Hcb.
    fold (best (fork_infos s') j). destruct (counts_for _ _ k) eqn:Hcnt; [exfalso|done].
    apply (counts_for_spec weigh s' Hs'), (same_shape_in_subtree _ _ _ _ Hsh), HR in Hcnt.
    assert (Hbi : present s (best (fork_infos s') j)) by (by apply (below_present s k), HR).
    specialize (HV _ Hbi). unfold after_invalid in HV. rewrite decide_True in HV by done.
    apply (f_equal fst) in HV. rewrite invalidated_latest in HV. cbn in HV.
    unfold cand, ForkInfo.is_candidate in Hcb. unfold latest in HV. rewrite HV in Hcb. done.
  - intros j. by apply (stakes_same s s').
Qed.

(** Marking a block valid reports exactly the blocks among it and its
    ancestors that were not confirmed yet; all of these are confirmed and
    in the running afterwards. A block above it is in the running unless
    an ancestor above the confirmed block is invalid. *)
Theorem valid_block_confirmed s k :
  reachable weigh s -> contains_block s k = true ->
  exists s', mark_fork_valid_candidate s k
      = Ok (filter (fun a => is_duplicate_confirmed s a = Some false)
              (k :: ancestor_iterator (fork_infos s) k), s') /\
    (forall a, counts_for (fork_infos s) k a = true ->
      is_duplicate_confirmed s' a = Some true /\ is_candidate s' a = Some true) /\
    (forall j, counts_for (fork_infos s) j k = true -> j <> k ->
      latest_invalid_ancestor s' j =
        (i ← latest_invalid_ancestor s j; if i <=? fst k then None else Some i)) /\
    (forall j, stake_voted_subtree s' j = stake_voted_subtree s j).
Proof.
  intros Hr Hk%contains_present. pose proof (reachable_good s Hr) as [Hs Hn].
  destruct (mark_valid_ok weigh s k Hs Hn Hk) as (s' & R & E & Hs' & Hsh & _ & Hv & HR & HV).
  exists s'. split_and!.
  - rewrite E. do 2 f_equal. apply filter_iff_in. intros a Ha.
    rewrite confirmed_present. apply elem_of_cons, (on_path weigh s Hs) in Ha.
    pose proof (in_subtree_in _ _ (fc_tree _ _ Hs) _ _ Ha Hk). naive_solver.
  - intros a Ha%(counts_for_spec weigh s Hs). pose proof (in_subtree_in _ _ (fc_tree _ _ Hs) _ _ Ha Hk) as Hai.
    specialize (HV a Hai). rewrite (after_valid_path weigh s Hs) in HV by done.
    injection HV as Hl Hcf. apply (sh_in _ _ Hsh) in Hai.
    rewrite confirmed_present, is_candidate_true. split_and!; try done.
    unfold cand, ForkInfo.is_candidate. unfold latest in Hl. by rewrite Hl.
  - intros j Hj%(counts_for_spec weigh s Hs) Hne. pose proof (below_present s k j Hk Hj) as Hji.
    specialize (HV j Hji). apply HR in Hj. rewrite (after_valid_below weigh s Hs k R HR) in HV by done.
    injection HV as Hl _. unfold latest_invalid_ancestor.
    pose proof Hji as Hji'%(sh_in _ _ Hsh). rewrite (lookup_info _ _ Hji), (lookup_info _ _ Hji'). cbn.
    exact Hl.
  - intros j. by apply (stakes_same s s').
Qed.
End Reachable.

(** ** A run *)
Module ForkChoiceSample.
Definition h (n : Z) : Hash := n :: replicate 31 1.
Definition blk (n : Z) : SlotHashKey := (n, h n).
Definition alice : Pubkey := h 101.
Definition bob : Pubkey := h 102.

Definition schedule : EpochSchedule := value_or (Build_EpochSchedule 0 0 true 0 0)
  (EpochSchedule.without_warmup (E := unit)).
Definition epoch_stakes : gmap Epoch EpochStakes :=
  {[ 0 := {| stakes := {| vote_accounts := {|
       VoteAccounts.vote_accounts := {[ alice := (10, default_account); bob := (20, default_account) ]};
       VoteAccounts.staked_nodes := None |}; stake_delegations := ∅; unused := 0; epoch := 0;
       stake_history := [] |};
     total_stake := 30; node_id_to_vote_accounts := ∅; epoch_authorized_voters := ∅ |} ]}.
(** The weights are those of the only epoch there is. *)
Definition weigh (pk : Pubkey) (slot : Slot) : Z := stake_update epoch_stakes schedule pk slot.

Definition bank (n parent : Z) : BankView :=
  {| bank_slot := n; bank_hash := h n; bank_parent_slot := parent; bank_parent_hash := h parent;
     bank_is_frozen := true |}.
(** 1 - 2 - 4, with 3 on 1 and 5 on 2 *)
Definition banks : list BankView := [bank 1 0; bank 2 1; bank 3 1; bank 4 2; bank 5 2].
Definition none : HeaviestSubtreeForkChoice :=
  {| fork_infos := ∅; latest_votes := ∅; root := blk 1 |}.
Definition t0 := value_or none (new_from_frozen_banks (blk 1) banks).
Definition after (s : HeaviestSubtreeForkChoice) (e : event) := value_or none (apply_event s e).
Definition vote1 : event := NewVotes epoch_stakes schedule [(alice, blk 3); (bob, blk 4)].
Definition t1 := after t0 vote1.
Definition t2 := after t1 (InvalidBlock (blk 2)).
Definition t3 := after t2 (ValidBlock (blk 4)).

Lemma weigh_nonneg pk slot : 0 <= weigh pk slot.
Proof.
  unfold weigh, stake_update. destruct (epoch_stakes !! _) as [es|] eqn:E; [|done].
  unfold epoch_stakes in E. apply lookup_singleton_Some in E as [_ <-].
  unfold vote_account_stake. destruct (_ !! pk) as [[n a]|] eqn:En; [|done]. cbn in En.
  apply lookup_insert_Some in En as [[_ [= <- _]]|[_ [_ [= <- _]]%lookup_singleton_Some]]; done.
Qed.

Lemma reach0 : reachable weigh t0.
Proof.
  apply (Reach_banks weigh (blk 1) banks); [done| |apply is_ok_value; by vm_compute].
  cbn. repeat (split; [done|]). split_and!; try done; set_solver.
Qed.

Lemma all_weighed s pk v : weighed weigh epoch_stakes schedule s pk v.
Proof. done. Qed.

Lemma reach1 : reachable weigh t1.
Proof.
  apply (Reach_event weigh t0 vote1); [apply reach0| |apply is_ok_value; by vm_compute].
  split; [|intros; apply all_weighed]. apply NoDup_cons; split; [|apply NoDup_singleton]. cbn.
  rewrite list_elem_of_singleton. done.
Qed.

Lemma reach2 : reachable weigh t2.
Proof.
  apply (Reach_event weigh t1 (InvalidBlock (blk 2))); [apply reach1| |apply is_ok_value; by vm_compute].
  by vm_compute.
Qed.

(** Bob's vote keeps counting, but the fork of block 2 is left. *)
Lemma fork_choice_recounts_witness :
  stake_voted_subtree t2 (blk 1) = Some (recount weigh t2 (blk 1)) /\
  recount weigh t2 (blk 1) = 30 /\
  best_slot t1 (blk 1) = Some (blk 4) /\ best_slot t2 (blk 1) = Some (blk 3) /\
  (is_candidate t2 (blk 1) = Some true -> best_slot t2 (blk 1) = Some (heaviest weigh t2 (blk 1))).
Proof.
  destruct (fork_choice_recounts weigh weigh_nonneg t2 (blk 1) reach2) as [H1 H2]; [by vm_compute|].
  split; [exact H1|]. split; [by vm_compute|]. split; [by vm_compute|]. split; [by vm_compute|exact H2].
Defined.

Lemma fork_choice_never_panics_witness :
  exists s' b, apply_event t2 (ValidBlock (blk 4)) = Ok s' /\ reachable weigh s' /\
    best_overall_slot s' = Ok b.
Proof.
  apply (fork_choice_never_panics weigh weigh_nonneg t2 (ValidBlock (blk 4)) reach2).
  apply contains_present. by vm_compute.
Defined.

Lemma invalid_fork_abandoned_witness :
  exists s', mark_fork_invalid_candidate t1 (blk 2) = Ok s' /\
    (forall j b, is_candidate s' j = Some true -> best_slot s' j = Some b ->
      counts_for (fork_infos s') b (blk 2) = false) /\
    forall j, stake_voted_subtree s' j = stake_voted_subtree t1 j.
Proof. apply (invalid_fork_abandoned weigh weigh_nonneg t1 (blk 2) reach1). by vm_compute. Defined.

Lemma valid_block_confirmed_witness :
  exists s', mark_fork_valid_candidate t2 (blk 4)
      = Ok (filter (fun a => is_duplicate_confirmed t2 a = Some false)
              (blk 4 :: ancestor_iterator (fork_infos t2) (blk 4)), s') /\
    (forall a, counts_for (fork_infos t2) (blk 4) a = true ->
      is_duplicate_confirmed s' a = Some true /\ is_candidate s' a = Some true) /\
    (forall j, counts_for (fork_infos t2) j (blk 4) = true -> j <> blk 4 ->
      latest_invalid_ancestor s' j =
        (i ← latest_invalid_ancestor t2 j; if i <=? fst (blk 4) then None else Some i)) /\
    (forall j, stake_voted_subtree s' j = stake_voted_subtree t2 j).
Proof. apply (valid_block_confirmed weigh weigh_nonneg t2 (blk 4) reach2). by vm_compute. Defined.

(** After block 4 has been confirmed, and block 2 with it, block 5 on block 2
    still counts as the child of an invalid block. *)
Example sibling_stays_invalid :
  is_duplicate_confirmed t3 (blk 2) = Some true /\ parent t3 (blk 5) = Some (blk 2) /\
  latest_invalid_ancestor t3 (blk 5) = Some 2.
Proof. by vm_compute. Qed.
End ForkChoiceSample.
