(* ===== verification/SlotHistory.v ===== *)
(** * The history of rooted slots

    Models [src/testnet/sdk/program/src/slot_history.rs].  A ring of
    [MAX_ENTRIES] bits tells which of the latest slots exist.  The bit vector is
    the set of the positions of its ones.

    [slot_history_exact]: after any increasing sequence of slots, the ring
    answers as a list of all slots would, within its window. *)

From stdpp Require Import base gmap sets list sorting.
From Stdlib Require Import ZArith Lia.
From S2P Require Import Prelude.

Abbreviation Slot := Z (only parsing).

Definition MAX_ENTRIES : Z := 1024 * 1024.

Inductive Check : Type := Future | TooOld | Found | NotFound.
#[global] Instance Check_eq_dec : EqDecision Check.
Proof. solve_decision. Defined.

Record SlotHistory := {
  bits : gset Z;
  next_slot : Slot }.

Module History.
Definition default_ : SlotHistory := {| bits := {[0]}; next_slot := 1 |}.

(** [for skipped in self.next_slot..slot] *)
Definition skipped (self : SlotHistory) (slot : Slot) : list Slot :=
  seqZ (next_slot self) (slot - next_slot self).

Definition add (self : SlotHistory) (slot : Slot) : SlotHistory :=
  let cleared :=
    if (next_slot self <? slot) && (MAX_ENTRIES <=? slot - next_slot self) then ∅
    else foldl (fun b s => b ∖ {[s mod MAX_ENTRIES]}) (bits self) (skipped self slot) in
  {| bits := {[slot mod MAX_ENTRIES]} ∪ cleared; next_slot := wrapping_add u64_max slot 1 |}.

Definition oldest (self : SlotHistory) : Slot := saturating_sub (next_slot self) MAX_ENTRIES.
Definition newest (self : SlotHistory) : Slot := wrapping_sub u64_max (next_slot self) 1.

Definition check (self : SlotHistory) (slot : Slot) : Check :=
  if newest self <? slot then Future
  else if slot <? oldest self then TooOld
  else if bool_decide (slot mod MAX_ENTRIES ∈ bits self) then Found else NotFound.
End History.
Import History.

(** ** The ring agrees with the slots added *)

(** [added]: the slots, of which the newest is [next_slot - 1] *)
Record ring_ok (added : list Slot) (h : SlotHistory) : Prop := {
  ring_range : 1 <= next_slot h <= u64_max;
  ring_newest : forall s, s ∈ added -> 0 <= s < next_slot h;
  ring_bits : forall s, next_slot h - MAX_ENTRIES <= s < next_slot h -> 0 <= s ->
    s mod MAX_ENTRIES ∈ bits h <-> s ∈ added }.

Lemma clear_bits (b : gset Z) l x :
  x ∈ foldl (fun b s => b ∖ {[s mod MAX_ENTRIES]}) b l
  <-> x ∈ b /\ x ∉ (fun s => s mod MAX_ENTRIES) <$> l.
Proof.
  revert b. induction l as [|s l IH]; intros b; cbn; [set_solver|]. rewrite IH.
  rewrite elem_of_difference, elem_of_singleton, elem_of_cons. tauto.
Qed.

Lemma mod_window a b : 0 <= a -> 0 <= b -> - MAX_ENTRIES < a - b < MAX_ENTRIES ->
  a mod MAX_ENTRIES = b mod MAX_ENTRIES -> a = b.
Proof. unfold MAX_ENTRIES. intros Ha Hb Hd E. Z.div_mod_to_equations. lia. Qed.

Lemma ring_add added h s :
  ring_ok added h -> next_slot h <= s < u64_max -> ring_ok (s :: added) (add h s).
Proof.
  intros [Hr Hn Hb] Hs. assert (Hw : wrapping_add u64_max s 1 = s + 1).
  { unfold wrapping_add. apply wrap_small. unfold_max. lia. }
  split; cbn [add next_slot bits]; rewrite ?Hw.
  - lia.
  - intros x [->|Hx%Hn]%elem_of_cons; lia.
  - intros x Hx Hx0. rewrite elem_of_union, elem_of_singleton, elem_of_cons.
    destruct (Z.eq_dec x s) as [->|Hne]; [tauto|].
    assert (Hxs : x mod MAX_ENTRIES <> s mod MAX_ENTRIES).
    { intros E. apply Hne, mod_window; [lia|lia|lia|done]. }
    transitivity (x mod MAX_ENTRIES ∈ (if (next_slot h <? s) && (MAX_ENTRIES <=? s - next_slot h) then ∅
      else foldl (fun b s => b ∖ {[s mod MAX_ENTRIES]}) (bits h) (skipped h s))); [tauto|].
    transitivity (x ∈ added); [|tauto].
    destruct ((next_slot h <? s) && (MAX_ENTRIES <=? s - next_slot h)) eqn:E.
    + apply andb_true_iff in E as [_ E%Z.leb_le]. split; [set_solver|]. intros Hin%Hn. lia.
    + rewrite clear_bits, list_elem_of_fmap. destruct (Z_lt_ge_dec x (next_slot h)) as [Hlt|Hge].
      * rewrite (Hb x) by lia. split; [naive_solver|]. intros Hin. split; [done|].
        intros (y & E' & Hy). unfold skipped in Hy. apply elem_of_seqZ in Hy.
        assert (y = x); [|lia]. apply mod_window; [lia|lia|lia|done].
      * split; [|intros Hin%Hn; lia]. intros [_ Hno]. destruct Hno. exists x. split; [done|].
        unfold skipped. apply elem_of_seqZ. lia.
Qed.

Lemma ring_default : ring_ok [0] default_.
Proof.
  split; cbn; [unfold_max; lia|set_solver by lia|].
  intros s Hs Hs0. assert (s = 0) as -> by lia. set_solver.
Qed.

Lemma ring_run l : forall added h,
  ring_ok added h -> StronglySorted Z.lt l -> (forall s, s ∈ l -> next_slot h <= s < u64_max) ->
  ring_ok (reverse l ++ added) (foldl add h l).
Proof.
  induction l as [|s l IH]; intros added h Hh Hs Hl; cbn [foldl]; [done|].
  apply StronglySorted_inv in Hs as [Hs Hall]. rewrite Forall_forall in Hall.
  rewrite reverse_cons, <- app_assoc. apply IH; [apply ring_add; [done|apply Hl; set_solver]|done|].
  intros x Hx. specialize (Hall x Hx). assert (Hxl := Hl x ltac:(set_solver)). cbn.
  assert (wrapping_add u64_max s 1 = s + 1) as ->; [|lia].
  unfold wrapping_add. apply wrap_small. assert (Hsl := Hl s ltac:(set_solver)).
  destruct Hh as [[? ?] _ _]. unfold_max. lia.
Qed.

(** The answer of a list of all the slots. *)
Definition check_list (added : list Slot) (newest_slot s : Slot) : Check :=
  if newest_slot <? s then Future
  else if s <? newest_slot + 1 - MAX_ENTRIES then TooOld
  else if bool_decide (s ∈ added) then Found else NotFound.

(** Filled with increasing slots, however far apart, the ring of bits
    answers every question as the list of all the slots does: a slot beyond the
    newest is in the future, one that fell out of the window is too old, and in
    the window exactly the slots added are found. *)
Theorem slot_history_exact l s :
  StronglySorted Z.lt l -> (forall x, x ∈ l -> 0 < x < u64_max) -> 0 <= s ->
  check (foldl add default_ l) s = check_list (0 :: l) (default 0 (last l)) s.
Proof.
  intros Hl Hr Hs0. pose proof (ring_run l [0] default_ ring_default Hl) as Hring.
  specialize (Hring ltac:(intros x Hx; specialize (Hr x Hx); cbn; lia)).
  assert (Hnext : next_slot (foldl add default_ l) = default 0 (last l) + 1).
  { destruct (last l) as [x|] eqn:E; cycle 1. { apply last_None in E as ->. done. }
    apply last_Some in E as [l' ->]. rewrite foldl_app. cbn. unfold wrapping_add. apply wrap_small.
    specialize (Hr x ltac:(set_solver)). unfold_max. lia. }
  destruct Hring as [H1 H2 H3]. unfold check, check_list, newest, oldest. rewrite Hnext in *.
  set (n := default 0 (last l)) in *.
  assert (wrapping_sub u64_max (n + 1) 1 = n) as ->.
  { unfold wrapping_sub. rewrite wrap_small; [lia|]. unfold_max. lia. }
  destruct (Z.ltb_spec n s) as [|Hns]; [done|].
  assert (Hold : (s <? saturating_sub (n + 1) MAX_ENTRIES) = (s <? n + 1 - MAX_ENTRIES)).
  { apply eq_true_iff_eq. rewrite !Z.ltb_lt. unfold saturating_sub. lia. }
  rewrite Hold. destruct (Z.ltb_spec s (n + 1 - MAX_ENTRIES)) as [|Hwin]; [done|].
  rewrite (bool_decide_ext _ (s ∈ 0 :: l)); [done|]. rewrite H3 by lia.
  rewrite elem_of_app, elem_of_reverse. set_solver.
Qed.

Lemma slot_history_exact_witness :
  check (foldl add default_ [5; 9; MAX_ENTRIES + 6]) 9 = Found /\
  check (foldl add default_ [5; 9; MAX_ENTRIES + 6]) 5 = TooOld /\
  check (foldl add default_ [5; 9; MAX_ENTRIES + 6]) (MAX_ENTRIES + 5) = NotFound.
Proof.
  assert (Hs : StronglySorted Z.lt [5; 9; MAX_ENTRIES + 6]).
  { repeat constructor; unfold MAX_ENTRIES; lia. }
  assert (Hr : forall x, x ∈ [5; 9; MAX_ENTRIES + 6] -> 0 < x < u64_max).
  { intros x. rewrite !elem_of_cons. unfold MAX_ENTRIES. unfold_max. set_solver by lia. }
  split; [|split].
  - rewrite (slot_history_exact [5; 9; MAX_ENTRIES + 6] 9 Hs Hr); [reflexivity|lia].
  - rewrite (slot_history_exact [5; 9; MAX_ENTRIES + 6] 5 Hs Hr); [reflexivity|lia].
  - rewrite (slot_history_exact [5; 9; MAX_ENTRIES + 6] (MAX_ENTRIES + 5) Hs Hr);
      [reflexivity|unfold MAX_ENTRIES; lia].
Defined.
