(* ===== verification/LatestVotes.v ===== *)
(** * The latest votes for frozen banks

    Models [src/testnet/core/src/latest_validator_votes_for_frozen_banks.rs] and
    the step of [heaviest_subtree_fork_choice.rs] that passes the votes on
    ([compute_bank_stats]).  For every validator the newest slot voted for is
    kept with the versions of it that were voted for, separately for votes seen
    in blocks and in gossip; the votes seen in blocks since the last update of
    fork choice are in the dirty set. *)

From stdpp Require Import base gmap list fin_maps strings.
From Stdlib Require Import ZArith Lia.
From S2P Require Import Prelude Sdk MapOrder Epochs StakesCache ForkChoice ForkChoiceTree ForkChoiceAggregate ForkChoiceProofs ForkChoiceLeaf ForkChoiceRoot ForkChoiceMarks ForkChoiceCount ForkChoiceEvents ForkChoiceTheorems.

Abbreviation FrozenVotes := (gmap Pubkey (Slot * list Hash)).

Record LatestValidatorVotes := {
  max_gossip_frozen_votes : FrozenVotes;
  max_replay_frozen_votes : FrozenVotes;
  fork_choice_dirty_set : FrozenVotes }.

Module VotesForFrozenBanks.
Definition default_ : LatestValidatorVotes :=
  {| max_gossip_frozen_votes := ∅; max_replay_frozen_votes := ∅; fork_choice_dirty_set := ∅ |}.

Definition vote_map (self : LatestValidatorVotes) (is_replay_vote : bool) : FrozenVotes :=
  if is_replay_vote then max_replay_frozen_votes self else max_gossip_frozen_votes self.

(** The entry of the map is written; for votes seen in blocks the dirty set as well. *)
Definition write (self : LatestValidatorVotes) (is_replay_vote : bool) (k : Pubkey)
    (v : Slot * list Hash) (dirty : FrozenVotes) : LatestValidatorVotes :=
  if is_replay_vote
  then {| max_gossip_frozen_votes := max_gossip_frozen_votes self;
          max_replay_frozen_votes := <[k := v]> (max_replay_frozen_votes self);
          fork_choice_dirty_set := dirty |}
  else {| max_gossip_frozen_votes := <[k := v]> (max_gossip_frozen_votes self);
          max_replay_frozen_votes := max_replay_frozen_votes self;
          fork_choice_dirty_set := fork_choice_dirty_set self |}.

(** [entry(vote_pubkey).or_default()] and [push], with the assertion between *)
Definition push_dirty (dirty : FrozenVotes) (k : Pubkey) (frozen_hash : Hash)
  : result Empty_set FrozenVotes :=
  let '(s, hashes) := default (0, []) (dirty !! k) in
  assert_ (negb (bool_decide (frozen_hash ∈ hashes)));;
  Ok (<[k := (s, hashes ++ [frozen_hash])]> dirty).

Definition check_add_vote (self : LatestValidatorVotes) (vote_pubkey : Pubkey) (vote_slot : Slot)
    (frozen_hash : option Hash) (is_replay_vote : bool)
  : result Empty_set (bool * option Slot * LatestValidatorVotes) :=
  let latest := vote_map self is_replay_vote !! vote_pubkey in
  match frozen_hash with
  | None => Ok (false, fst <$> latest, self)
  | Some frozen_hash =>
      let fresh := (vote_slot, [frozen_hash]) in
      let dirty := <[vote_pubkey := fresh]> (fork_choice_dirty_set self) in
      match latest with
      | None => Ok (true, Some vote_slot, write self is_replay_vote vote_pubkey fresh dirty)
      | Some (latest_slot, latest_hashes) =>
          if latest_slot <? vote_slot
          then Ok (true, Some vote_slot, write self is_replay_vote vote_pubkey fresh dirty)
          else if (vote_slot =? latest_slot) && negb (bool_decide (frozen_hash ∈ latest_hashes)) then
            dirty ← if is_replay_vote
                    then push_dirty (fork_choice_dirty_set self) vote_pubkey frozen_hash
                    else Ok (fork_choice_dirty_set self);
            Ok (true, Some vote_slot,
                write self is_replay_vote vote_pubkey (latest_slot, latest_hashes ++ [frozen_hash]) dirty)
          else Ok (false, Some latest_slot, self)
      end
  end.

Definition votes_of (e : Pubkey * (Slot * list Hash)) : list (Pubkey * SlotHashKey) :=
  (fun h => (fst e, (fst (snd e), h))) <$> snd (snd e).

Definition take_votes_dirty_set (self : LatestValidatorVotes) (root : Slot)
  : list (Pubkey * SlotHashKey) * LatestValidatorVotes :=
  (filter (fun e => root <= fst (snd e)) (map_to_list (fork_choice_dirty_set self)) ≫= votes_of,
   {| max_gossip_frozen_votes := max_gossip_frozen_votes self;
      max_replay_frozen_votes := max_replay_frozen_votes self; fork_choice_dirty_set := ∅ |}).

(** [ForkChoice::compute_bank_stats] *)
Definition compute_bank_stats (epoch_stakes : gmap Epoch EpochStakes) (epoch_schedule : EpochSchedule)
    (fork_choice : HeaviestSubtreeForkChoice) (latest : LatestValidatorVotes)
  : result Empty_set (HeaviestSubtreeForkChoice * LatestValidatorVotes) :=
  let '(new_votes, latest) := take_votes_dirty_set latest (fst (root fork_choice)) in
  '(_, fork_choice) ← HeaviestSubtree.add_votes epoch_stakes epoch_schedule fork_choice new_votes;
  Ok (fork_choice, latest).
End VotesForFrozenBanks.
Import VotesForFrozenBanks.

(** ** What is kept *)

(** A vote, for a version of a slot if its bank is frozen, seen in a block or in
    gossip; or an update of fork choice. *)
Inductive observation : Type :=
| VoteSeen (k : Pubkey) (s : Slot) (h : option Hash) (is_replay : bool)
| ForkChoiceUpdate (root : Slot).

Definition observe (self : LatestValidatorVotes) (o : observation)
  : result Empty_set LatestValidatorVotes :=
  match o with
  | VoteSeen k s h r => '(_, _, self) ← check_add_vote self k s h r; Ok self
  | ForkChoiceUpdate root => Ok (snd (take_votes_dirty_set self root))
  end.

Fixpoint observe_all (self : LatestValidatorVotes) (l : list observation)
  : result Empty_set LatestValidatorVotes :=
  match l with
  | [] => Ok self
  | o :: l => self ← observe self o; observe_all self l
  end.

(** The votes of [k] for frozen banks, of one source. *)
Definition frozen_vote (r : bool) (k : Pubkey) (o : observation) : option (Slot * Hash) :=
  match o with
  | VoteSeen k' s (Some h) r' => if bool_decide (k' = k /\ r' = r) then Some (s, h) else None
  | _ => None
  end.
Definition frozen_votes (r : bool) (k : Pubkey) (l : list observation) : list (Slot * Hash) :=
  omap (frozen_vote r k) l.

(** The newest slot of some votes with its versions, each once. *)
Definition newest_of (votes : list (Slot * Hash)) (v : option (Slot * list Hash)) : Prop :=
  match v with
  | None => votes = []
  | Some (s, hs) =>
      NoDup hs /\ hs <> [] /\ (forall h, h ∈ hs <-> (s, h) ∈ votes) /\
      forall s' h', (s', h') ∈ votes -> s' <= s
  end.

Lemma newest_of_fresh votes v s h :
  newest_of votes v -> (forall s' hs, v = Some (s', hs) -> s' < s) ->
  newest_of (votes ++ [(s, h)]) (Some (s, [h])).
Proof.
  intros Hv Hlt. split_and!; [apply NoDup_singleton|done| |].
  - intros h'. rewrite list_elem_of_singleton, elem_of_app, list_elem_of_singleton. split.
    + intros ->. by right.
    + intros [Hin|[= ->]]; [|done]. destruct v as [[s' hs]|]; cbn in Hv; [|subst; set_solver].
      destruct Hv as (_ & _ & _ & Hmax). specialize (Hmax _ _ Hin). specialize (Hlt _ _ eq_refl). lia.
  - intros s' h' [Hin|[= -> ->]%list_elem_of_singleton]%elem_of_app; [|lia].
    destruct v as [[s0 hs]|]; cbn in Hv; [|subst; set_solver].
    destruct Hv as (_ & _ & _ & Hmax). specialize (Hmax _ _ Hin). specialize (Hlt _ _ eq_refl). lia.
Qed.

Lemma newest_of_again votes s hs h :
  newest_of votes (Some (s, hs)) -> h ∉ hs -> newest_of (votes ++ [(s, h)]) (Some (s, hs ++ [h])).
Proof.
  intros (Hd & Hne & Hin & Hmax) Hh. split_and!.
  - apply NoDup_app. split_and!; [done|set_solver|apply NoDup_singleton].
  - by destruct hs.
  - intros h'. rewrite !elem_of_app, Hin, !list_elem_of_singleton. naive_solver.
  - intros s' h' [Hi|[= -> ->]%list_elem_of_singleton]%elem_of_app; [eauto|lia].
Qed.

Lemma newest_of_old votes s hs s' h :
  newest_of votes (Some (s, hs)) -> s' < s \/ s' = s /\ h ∈ hs ->
  newest_of (votes ++ [(s', h)]) (Some (s, hs)).
Proof.
  intros (Hd & Hne & Hin & Hmax) Hold. split_and!; [done|done| |].
  - intros h'. rewrite elem_of_app, Hin, list_elem_of_singleton. split; [by left|].
    intros [?|[= -> ->]]; [done|]. destruct Hold as [?|[_ ?]]; [lia|]. by apply Hin.
  - intros x h' [Hi|[= -> ->]%list_elem_of_singleton]%elem_of_app; [eauto|lia].
Qed.

(** The versions in the dirty set are among those of the newest slot. *)
Record tracks (l : list observation) (self : LatestValidatorVotes) : Prop := {
  t_newest : forall r k, newest_of (frozen_votes r k l) (vote_map self r !! k);
  t_dirty : forall k s hs, fork_choice_dirty_set self !! k = Some (s, hs) ->
    exists s' hs', max_replay_frozen_votes self !! k = Some (s', hs') /\ hs ⊆ hs' }.

Lemma frozen_votes_snoc r k l o :
  frozen_votes r k (l ++ [o]) = frozen_votes r k l ++ from_option (fun v => [v]) [] (frozen_vote r k o).
Proof.
  unfold frozen_votes. rewrite omap_app. cbn. by destruct (frozen_vote r k o).
Qed.

Lemma tracks_default : tracks [] default_.
Proof. split; [by intros [] k|done]. Qed.

Lemma vote_map_write self r k v dirty r' k' :
  vote_map (write self r k v dirty) r' !! k'
  = if decide (r = r' /\ k = k') then Some v else vote_map self r' !! k'.
Proof.
  destruct r, r'; cbn; try (rewrite decide_False by naive_solver; done); rewrite lookup_insert;
    destruct (decide (k = k')); [rewrite decide_True by done|rewrite decide_False by naive_solver
      |rewrite decide_True by done|rewrite decide_False by naive_solver]; done.
Qed.

(** One entry is written for a new vote. *)
Lemma tracks_write l self k s h r v dirty :
  tracks l self -> newest_of (frozen_votes r k l ++ [(s, h)]) (Some v) ->
  (r = true -> forall k' s' hs, dirty !! k' = Some (s', hs) ->
    if decide (k' = k) then hs ⊆ snd v else fork_choice_dirty_set self !! k' = Some (s', hs)) ->
  tracks (l ++ [VoteSeen k s (Some h) r]) (write self r k v dirty).
Proof.
  intros [Hn Hd] Hv Hdirty. split.
  - intros r' k'. rewrite frozen_votes_snoc, vote_map_write. cbn.
    destruct (decide (r = r' /\ k = k')) as [[-> ->]|Hne].
    + by rewrite bool_decide_true.
    + rewrite bool_decide_false by naive_solver. cbn. by rewrite app_nil_r.
  - intros k' s' hs. destruct r; cbn; [|apply Hd]. intros E. specialize (Hdirty eq_refl k' s' hs E).
    destruct (decide (k' = k)) as [->|Hne].
    + rewrite lookup_insert_eq. destruct v as [sv hv]. by exists sv, hv.
    + rewrite lookup_insert_ne by done. by apply (Hd k' s').
Qed.

Lemma tracks_same l self k s h r :
  tracks l self -> newest_of (frozen_votes r k l ++ [(s, h)]) (vote_map self r !! k) ->
  tracks (l ++ [VoteSeen k s (Some h) r]) self.
Proof.
  intros [Hn Hd] Hv. split; [|done]. intros r' k'. rewrite frozen_votes_snoc. cbn.
  case_bool_decide as E; cbn; [by destruct E as [-> ->]|by rewrite app_nil_r].
Qed.

Lemma tracks_vote l self k s h r :
  tracks l self ->
  exists b x self', check_add_vote self k s (Some h) r = Ok (b, x, self') /\
    tracks (l ++ [VoteSeen k s (Some h) r]) self'.
Proof.
  intros Ht. pose proof (t_newest _ _ Ht r k) as Hn. unfold check_add_vote.
  assert (Hfresh : forall s' hs,
    (<[k := (s, [h])]> (fork_choice_dirty_set self) : FrozenVotes) !! s' = Some hs ->
    if decide (s' = k) then snd hs ⊆ [h] else fork_choice_dirty_set self !! s' = Some hs).
  { intros k' v. rewrite lookup_insert. case_decide; case_decide; try congruence.
    intros [= <-]. done. }
  destruct (vote_map self r !! k) as [[s0 hs0]|] eqn:E; cycle 1.
  { eexists _, _, _. split; [done|]. apply tracks_write; [done|by eapply newest_of_fresh|].
    intros _ k' s' hs Hk'. apply (Hfresh k' (s', hs) Hk'). }
  destruct (Z.ltb_spec s0 s) as [Hlt|Hge].
  { eexists _, _, _. split; [done|]. apply tracks_write; [done| |].
    - eapply newest_of_fresh; [done|]. intros s' hs [= <- <-]. done.
    - intros _ k' s' hs Hk'. apply (Hfresh k' (s', hs) Hk'). }
  destruct ((s =? s0) && negb (bool_decide (h ∈ hs0))) eqn:Ec; cycle 1.
  { eexists _, _, _. split; [done|]. apply tracks_same; [done|]. rewrite E.
    apply newest_of_old; [done|]. apply andb_false_iff in Ec as [Ec%Z.eqb_neq|Ec]; [left; lia|].
    apply negb_false_iff, bool_decide_eq_true in Ec. destruct (Z.eq_dec s s0); [by right|left; lia]. }
  apply andb_true_iff in Ec as [->%Z.eqb_eq Hh%negb_true_iff]. apply bool_decide_eq_false in Hh.
  assert (Hnew := newest_of_again _ _ _ h Hn Hh).
  destruct r; cycle 1.
  { eexists _, _, _. split; [done|]. by apply tracks_write. }
  unfold push_dirty. destruct (default (0, []) (fork_choice_dirty_set self !! k)) as [sd hd] eqn:Ed.
  assert (Hsub : hd ⊆ hs0).
  { destruct (fork_choice_dirty_set self !! k) as [v|] eqn:Ek; cbn in Ed; [subst v|injection Ed as <- <-; set_solver].
    destruct (t_dirty _ _ Ht k sd hd Ek) as (s' & hs' & Er & Hs'). cbn in E. rewrite E in Er.
    by injection Er as <- <-. }
  rewrite bool_decide_false by set_solver. cbn [negb assert_ panic_unless mbind result_bind].
  eexists _, _, _. split; [done|].
  apply tracks_write; [done|done|]. intros _ k' s' hs. rewrite lookup_insert.
  destruct (decide (k = k')) as [<-|Hne]; [|by rewrite decide_False by done].
  rewrite decide_True by done. intros [= <- <-]. cbn. set_solver.
Qed.

Lemma observe_tracks l self o :
  tracks l self -> exists self', observe self o = Ok self' /\ tracks (l ++ [o]) self'.
Proof.
  intros Ht. destruct o as [k s [h|] r|root]; cbn [observe].
  - destruct (tracks_vote l self k s h r Ht) as (b & x & self' & -> & ?). by exists self'.
  - exists self. split; [done|]. destruct Ht as [Hn Hd]. split; [|done].
    intros r' k'. rewrite frozen_votes_snoc. cbn. by rewrite app_nil_r.
  - eexists. split; [done|]. destruct Ht as [Hn Hd]. split; [|done].
    intros r' k'. rewrite frozen_votes_snoc. cbn. rewrite app_nil_r. destruct r'; [apply (Hn true k')|apply (Hn false k')].
Qed.

Lemma observe_all_tracks l : forall before self,
  tracks before self -> exists self', observe_all self l = Ok self' /\ tracks (before ++ l) self'.
Proof.
  induction l as [|o l IH]; intros before self Ht; cbn.
  - exists self. by rewrite app_nil_r.
  - destruct (observe_tracks before self o Ht) as (self1 & -> & Ht1). cbn.
    destruct (IH _ _ Ht1) as (self' & -> & Ht'). exists self'. by rewrite <- app_assoc in Ht'.
Qed.

(** Whatever votes arrive, for however many versions of a slot, and whenever
    fork choice is updated, no assertion fails, and for every validator and
    either source the newest slot voted for is kept with exactly the versions of
    it that were voted for, each once. *)
Theorem latest_votes_exact l :
  exists self, observe_all default_ l = Ok self /\
    forall r k, newest_of (frozen_votes r k l) (vote_map self r !! k).
Proof.
  destruct (observe_all_tracks l [] default_ tracks_default) as (self & E & Ht).
  exists self. split; [done|]. apply Ht.
Qed.

(** ** One version per slot *)
Section OneVersion.
Context (frozen : Slot -> option Hash).

Definition one_version (l : list observation) : Prop :=
  forall k s h r, VoteSeen k s (Some h) r ∈ l -> frozen s = Some h.

(** The dirty votes are the latest ones. *)
Record settled (l : list observation) (self : LatestValidatorVotes) : Prop := {
  s_tracks : tracks l self;
  s_dirty : forall k v, fork_choice_dirty_set self !! k = Some v ->
    max_replay_frozen_votes self !! k = Some v }.

Lemma elem_of_frozen_votes r k l s h : (s, h) ∈ frozen_votes r k l -> VoteSeen k s (Some h) r ∈ l.
Proof.
  unfold frozen_votes. rewrite list_elem_of_omap. intros (o & Ho & E).
  destruct o as [k' s' [h'|] r'|]; cbn in E; try done. case_bool_decide as Hc; [|done].
  injection E as -> ->. by destruct Hc as [-> ->].
Qed.

(** Only one version is kept. *)
Lemma newest_single l r k s hs :
  one_version l -> newest_of (frozen_votes r k l) (Some (s, hs)) ->
  exists h, hs = [h] /\ frozen s = Some h.
Proof.
  intros H1 (Hd & Hne & Hin & _). assert (Hall : forall h, h ∈ hs -> frozen s = Some h).
  { intros h Hh%Hin%elem_of_frozen_votes. by eapply H1. }
  destruct hs as [|h [|h' hs]]; [done| |].
  - exists h. split; [done|]. apply Hall. set_solver.
  - assert (h = h') as <-. { assert (H := Hall h ltac:(set_solver)). rewrite (Hall h') in H by set_solver.
      by injection H. }
    apply NoDup_cons in Hd as [Hd _]. set_solver.
Qed.

Lemma settled_vote l self k s h r b x self' :
  settled l self -> one_version (l ++ [VoteSeen k s (Some h) r]) ->
  check_add_vote self k s (Some h) r = Ok (b, x, self') ->
  forall k' v, fork_choice_dirty_set self' !! k' = Some v -> max_replay_frozen_votes self' !! k' = Some v.
Proof.
  intros [Ht Hd] H1. assert (H1l : one_version l) by (intros k0 s0 h0 r0 Hin; apply (H1 k0 s0 h0 r0); apply elem_of_app; by left).
  assert (Hh : frozen s = Some h) by (apply (H1 k s h r); set_solver).
  pose proof (t_newest _ _ Ht r k) as Hn. unfold check_add_vote.
  assert (Hw : forall k' v, fork_choice_dirty_set (write self r k (s, [h]) (<[k := (s, [h])]> (fork_choice_dirty_set self))) !! k' = Some v ->
    max_replay_frozen_votes (write self r k (s, [h]) (<[k := (s, [h])]> (fork_choice_dirty_set self))) !! k' = Some v).
  { intros k' v. destruct r; cbn; [|apply Hd]. rewrite !lookup_insert. case_decide; [done|apply Hd]. }
  destruct (vote_map self r !! k) as [[s0 hs0]|] eqn:E; cycle 1.
  { by intros [= _ _ <-]. }
  destruct (s0 <? s); [by intros [= _ _ <-]|].
  destruct ((s =? s0) && negb (bool_decide (h ∈ hs0))) eqn:Ec; [|by intros [= _ _ <-]].
  apply andb_true_iff in Ec as [->%Z.eqb_eq Hno%negb_true_iff]. apply bool_decide_eq_false in Hno.
  destruct (newest_single l r k s0 hs0 H1l Hn) as (h0 & -> & Hh0). rewrite Hh in Hh0.
  injection Hh0 as ->. set_solver.
Qed.

Lemma settled_step l self o self' :
  settled l self -> one_version (l ++ [o]) -> observe self o = Ok self' -> settled (l ++ [o]) self'.
Proof.
  intros Hs H1 E. destruct (observe_tracks l self o (s_tracks _ _ Hs)) as (self1 & E1 & Ht).
  rewrite E in E1. injection E1 as <-. split; [done|].
  destruct o as [k s [h|] r|root]; cbn [observe] in E.
  - destruct (check_add_vote self k s (Some h) r) as [[[b x] s2]| |] eqn:Ec; [|done|done].
    cbn in E. injection E as <-. by eapply settled_vote.
  - injection E as <-. apply Hs.
  - injection E as <-. cbn. intros k v. by rewrite lookup_empty.
Qed.

Lemma settled_run l : forall before self self',
  settled before self -> one_version (before ++ l) -> observe_all self l = Ok self' ->
  settled (before ++ l) self'.
Proof.
  induction l as [|o l IH]; intros before self self' Hs H1 E; cbn in E.
  - injection E as <-. by rewrite app_nil_r.
  - destruct (observe self o) as [self1| |] eqn:Eo; [|done|done]. cbn in E.
    assert (Hl : before ++ o :: l = (before ++ [o]) ++ l) by by rewrite <- app_assoc.
    rewrite Hl in *. eapply IH; [|done|done]. apply (settled_step before self); [done| |done].
    intros k s h r Hin. apply (H1 k s h r). set_solver.
Qed.

Lemma batch_distinct l self root :
  settled l self -> one_version l ->
  NoDup (fst <$> fst (take_votes_dirty_set self root)) /\
  forall k s h, (k, (s, h)) ∈ fst (take_votes_dirty_set self root) <->
    fork_choice_dirty_set self !! k = Some (s, [h]) /\ root <= s.
Proof.
  intros Hs H1. cbn.
  assert (Hone : forall e, e ∈ map_to_list (fork_choice_dirty_set self) ->
    exists h, e = (fst e, (fst (snd e), [h]))).
  { intros [k [s hs]] He%elem_of_map_to_list. apply (s_dirty _ _ Hs) in He.
    pose proof (t_newest _ _ (s_tracks _ _ Hs) true k) as Hn. cbn in Hn. rewrite He in Hn.
    destruct (newest_single l true k s hs H1 Hn) as (h & -> & _). by exists h. }
  assert (Hfst : forall es, (forall e, e ∈ es -> exists h, e = (fst e, (fst (snd e), [h]))) ->
    fst <$> (es ≫= votes_of) = fst <$> es).
  { induction es as [|e es IH]; intros He; [done|]. destruct (He e ltac:(set_solver)) as [h ->].
    cbn. f_equal. apply IH. set_solver. }
  split.
  - rewrite Hfst.
    + apply (sublist_NoDup _ (fst <$> map_to_list (fork_choice_dirty_set self))).
      * apply NoDup_fst_map_to_list.
      * apply fmap_sublist, sublist_filter.
    + intros e [_ He]%list_elem_of_filter. by apply Hone.
  - intros k s h. rewrite list_elem_of_bind. split.
    + intros ([k' [s' hs]] & Hv & [Hr He]%list_elem_of_filter).
      destruct (Hone _ He) as [h' E']. injection E' as ->. cbn in *.
      apply list_elem_of_singleton in Hv. injection Hv as -> -> ->.
      by apply elem_of_map_to_list in He.
    + intros [Hd Hr]. exists (k, (s, [h])). split; [set_solver|]. apply list_elem_of_filter.
      split; [done|]. by apply elem_of_map_to_list.
Qed.
End OneVersion.

(** ** Passing the votes on *)

(** Each of several votes of different validators counts unless it is outdated. *)
Lemma record_votes_lookup root_slot votes : forall m k v,
  NoDup votes.*1 -> (k, v) ∈ votes -> root_slot <= fst v ->
  foldl (record_vote root_slot) m votes !! k
  = if HeaviestSubtree.is_outdated (m !! k) v then m !! k else Some v.
Proof.
  assert (Hskip : forall l m k, k ∉ l.*1 -> foldl (record_vote root_slot) m l !! k = m !! k).
  { intros l. induction l as [|[k' v'] l IH]; intros m k Hk; cbn in *; [done|].
    rewrite IH by set_solver. unfold record_vote. cbn. case_match; [done|].
    apply lookup_insert_ne. set_solver. }
  induction votes as [|[k' v'] votes IH]; intros m k v Hnd Hin Hr; [set_solver|].
  cbn in Hnd. apply NoDup_cons in Hnd as [Hk' Hnd]. cbn [foldl].
  apply elem_of_cons in Hin as [[= <- <-]|Hin].
  - rewrite Hskip by done. unfold record_vote. cbn [fst snd].
    rewrite (proj2 (Z.ltb_ge _ _) Hr). cbn [orb]. destruct (HeaviestSubtree.is_outdated _ _); [done|].
    apply lookup_insert_eq.
  - assert (k <> k'). { intros ->. apply Hk'. by apply (list_elem_of_fmap_2 fst _ (k', v)). }
    rewrite (IH _ k v) by done. assert (record_vote root_slot m (k', v') !! k = m !! k) as ->; [|done].
    unfold record_vote. cbn [fst snd]. case_match; [done|]. by apply lookup_insert_ne.
Qed.

Section Update.
Context (weigh : Pubkey -> Slot -> Z) (Hweigh : forall pk slot, 0 <= weigh pk slot).
Context (es : gmap Epoch EpochStakes) (sched : EpochSchedule).

(** As long as every slot is frozen in one version, the votes seen in
    blocks reach fork choice: its update takes each validator's newest
    vote once, does not run into its check for repeated validators, and
    afterwards the latest vote it counts for a validator is the newest one
    seen, unless it already counted a newer one. *)
Theorem bank_stats_update frozen fc l latest :
  reachable weigh fc -> observe_all default_ l = Ok latest -> one_version frozen l ->
  (forall k v, weighed weigh es sched fc k v) ->
  exists fc' latest', compute_bank_stats es sched fc latest = Ok (fc', latest') /\
    reachable weigh fc' /\ fork_choice_dirty_set latest' = ∅ /\
    forall k s hs, fork_choice_dirty_set latest !! k = Some (s, hs) -> fst (root fc) <= s ->
      exists h, hs = [h] /\ frozen s = Some h /\
        latest_votes fc' !! k =
          if HeaviestSubtree.is_outdated (latest_votes fc !! k) (s, h)
          then latest_votes fc !! k else Some (s, h).
Proof.
  intros Hr E H1 Hw. assert (Hst : settled l latest).
  { apply (settled_run frozen l [] default_ latest); [|done|done].
    split; [apply tracks_default|]. intros k v. cbn. by rewrite lookup_empty. }
  destruct (batch_distinct frozen l latest (fst (root fc)) Hst H1) as [Hnd Hin].
  unfold compute_bank_stats. destruct (take_votes_dirty_set latest (fst (root fc))) as [votes l'] eqn:Et.
  cbn [fst] in Hnd, Hin. pose proof (reachable_good weigh Hweigh fc Hr) as [Hok _].
  destruct (add_votes_ok weigh Hweigh es sched fc votes Hok Hnd) as (fc' & Ea & _ & _ & _ & Hv & _).
  { intros pk v _. apply Hw. }
  rewrite Ea. cbn. eexists _, _. split; [done|]. split_and!.
  - apply (Reach_event weigh fc (NewVotes es sched votes)); [done| |by cbn; rewrite Ea].
    split; [done|]. intros pk v _. apply Hw.
  - unfold take_votes_dirty_set in Et. by injection Et as _ <-.
  - intros k s hs Hd Hs. pose proof (s_dirty _ _ Hst k _ Hd) as Hm.
    pose proof (t_newest _ _ (s_tracks _ _ Hst) true k) as Hn. cbn in Hn. rewrite Hm in Hn.
    destruct (newest_single frozen l true k s hs H1 Hn) as (h & -> & Hh). exists h.
    split_and!; [done|done|]. rewrite Hv. apply record_votes_lookup; [done|by apply Hin|done].
Qed.
End Update.

(** ** Samples *)
Module LatestVotesSample.
Import ForkChoiceSample.

Definition frozen (s : Slot) : option Hash := Some (h s).
Definition seen : list observation :=
  [VoteSeen alice 2 (Some (h 2)) true; VoteSeen bob 4 (Some (h 4)) true; VoteSeen alice 3 (Some (h 3)) true].
Definition tracked : LatestValidatorVotes := value_or default_ (observe_all default_ seen).

Lemma bank_stats_update_witness :
  exists fc' latest', compute_bank_stats epoch_stakes schedule t0 tracked = Ok (fc', latest') /\
    reachable weigh fc' /\ fork_choice_dirty_set latest' = ∅ /\
    forall k s hs, fork_choice_dirty_set tracked !! k = Some (s, hs) -> fst (root t0) <= s ->
      exists x, hs = [x] /\ frozen s = Some x /\
        latest_votes fc' !! k =
          if HeaviestSubtree.is_outdated (latest_votes t0 !! k) (s, x)
          then latest_votes t0 !! k else Some (s, x).
Proof.
  apply (bank_stats_update weigh weigh_nonneg epoch_stakes schedule frozen t0 seen tracked reach0).
  - apply is_ok_value. by vm_compute.
  - intros k s x r. unfold seen. rewrite !elem_of_cons.
    intros [[= -> -> -> ->]|[[= -> -> -> ->]|[[= -> -> -> ->]|Hn]]]; [done|done|done|set_solver].
  - intros k v. apply all_weighed.
Defined.

(** A second version of block 7, voted for after an update of fork choice, is
    passed on as a vote for slot 0. *)
Example second_version_is_lost :
  exists self,
    observe_all default_ [VoteSeen alice 7 (Some (h 7)) true; ForkChoiceUpdate 1; VoteSeen alice 7 (Some (h 8)) true]
      = Ok self /\
    max_replay_frozen_votes self !! alice = Some (7, [h 7; h 8]) /\
    fork_choice_dirty_set self !! alice = Some (0, [h 8]) /\
    fst (take_votes_dirty_set self 1) = [].
Proof.
  eexists. split; [by vm_compute|]. split; [by vm_compute|]. split; by vm_compute.
Qed.
End LatestVotesSample.
