(* ===== verification/Consensus.v ===== *)
(** * The tower of a validator

    Models [src/testnet/core/src/consensus.rs], with the parts of
    [progress_map.rs] it reads.  A validator records its own votes in a [Tower],
    a vote state that it updates before a vote is sent.  Before it votes for a
    bank it checks that no vote is locked out on another fork ([is_locked_out]),
    that enough stake has voted for the older votes
    ([check_vote_stake_threshold]), and, to leave the fork of its last vote,
    that enough stake is locked out elsewhere ([check_switch_threshold]).  After
    a restart the saved tower is adjusted to the replayed slots
    ([adjust_lockouts_after_replay]).

    Decoders of vote accounts, the time of the day and the frozen hashes of the
    bank forks are arguments.  Panics are the outcome [Panic].  Where the source
    visits a [HashMap] the order is that of [map_to_list].  Logs are left out, as
    is the storage of towers in files. *)

From stdpp Require Import base gmap list fin_maps strings.
From Stdlib Require Import ZArith Lia SpecFloat.
From S2P Require Import Prelude Sdk MapOrder VoteState VoteInstruction StakesCache SlotHistory ForkChoice LatestVotes.

(** ** Decisions *)
Module SwitchForkDecision.
Inductive t : Type :=
| SwitchProof (h : Hash)
| SameFork
| FailedSwitchThreshold (locked_out_stake total_stake : Z)
| FailedSwitchDuplicateRollback (s : Slot).

#[global] Instance t_eq_dec : EqDecision t.
Proof. solve_decision. Defined.

Definition can_vote (self : t) : bool :=
  match self with
  | FailedSwitchThreshold _ _ => false
  | FailedSwitchDuplicateRollback _ => false
  | SameFork => true
  | SwitchProof _ => true
  end.

(** The instruction to send; its list of accounts is left out. *)
Definition to_vote_instruction (self : t) (vote : Vote) : result Empty_set (option VoteInstruction.t) :=
  match self with
  | FailedSwitchThreshold _ total_stake => assert_ (negb (total_stake =? 0));; Ok None
  | FailedSwitchDuplicateRollback _ => Ok None
  | SameFork => Ok (Some (VoteInstruction.Vote vote))
  | SwitchProof h => Ok (Some (VoteInstruction.VoteSwitch vote h))
  end.
End SwitchForkDecision.
Import SwitchForkDecision (SwitchProof, SameFork, FailedSwitchThreshold, FailedSwitchDuplicateRollback).

Inductive TowerError : Type :=
| TooOldTower (newest oldest : Slot)
| FatallyInconsistent (what : string).

Definition VOTE_THRESHOLD_DEPTH : nat := 8.
Definition SWITCH_FORK_THRESHOLD : F64.f64 := F64.div (F64.of_u64 38) (F64.of_u64 100).
Definition VOTE_THRESHOLD_SIZE : F64.f64 := F64.div (F64.of_u64 2) (F64.of_u64 3).

(** [stake as f64 / total_stake as f64 > threshold] *)
Definition exceeds (threshold : F64.f64) (stake total_stake : Z) : bool :=
  SFltb threshold (F64.div (F64.of_u64 stake) (F64.of_u64 total_stake)).

Abbreviation VotedStakes := (gmap Slot Z).
(** The lockouts [(start, voter)], by the end of the interval. *)
Abbreviation LockoutIntervals := (gmap Slot (list (Slot * Pubkey))).
Abbreviation Ancestors := (gmap Slot (gset Slot)).

Record ComputedBankState := {
  voted_stakes : VotedStakes;
  cbs_total_stake : Z;
  bank_weight : Z;
  lockout_intervals : LockoutIntervals;
  my_latest_landed_vote : option Slot }.

(** What is read of the [ForkStats] of a slot. *)
Record ForkStats := {
  computed : bool;
  fs_lockout_intervals : LockoutIntervals;
  fs_bank_hash : option Hash }.
Abbreviation ProgressMap := (gmap Slot ForkStats).

Definition progress_get_hash (progress : ProgressMap) (s : Slot) : option Hash :=
  progress !! s ≫= fs_bank_hash.
Definition is_computed (progress : ProgressMap) (s : Slot) : bool :=
  match progress !! s with Some stats => computed stats | None => false end.

(** ** Votes *)
#[global] Instance Vote_eq_dec : EqDecision Vote.
Proof. solve_decision. Defined.

Definition Vote_default : Vote := {| slots := []; hash := replicate 32 0; timestamp := None |}.
Definition Vote_last_voted_slot (v : Vote) : option Slot := last (slots v).
Definition Vote_last_voted_slot_hash (v : Vote) : option SlotHashKey :=
  (fun s => (s, hash v)) <$> last (slots v).

(** The unchecked operations on vote states report no errors. *)
Definition infallible {E A} (r : result VoteError A) : result E A :=
  match r with Ok a => Ok a | Err _ => Panic | Panic => Panic end.

Fixpoint skip_while {A} (p : A -> bool) (l : list A) : list A :=
  match l with
  | [] => []
  | x :: l' => if p x then skip_while p l' else l
  end.

(** ** Stakes voted for slots *)

(** [*voted_stakes.entry(slot).or_default() += stake] *)
Definition add_voted (m : VotedStakes) (s : Slot) (stake : Z) : VotedStakes :=
  <[s := wrapping_add u64_max (default 0 (m !! s)) stake]> m.
Definition or_default (m : VotedStakes) (s : Slot) : VotedStakes :=
  match m !! s with Some _ => m | None => <[s := 0]> m end.

Definition update_ancestor_voted_stakes (m : VotedStakes) (voted_slot : Slot) (voted_stake : Z)
    (ancestors : Ancestors) : VotedStakes :=
  match ancestors !! voted_slot with
  | Some vote_slot_ancestors =>
      foldl (fun m s => add_voted m s voted_stake) (add_voted m voted_slot voted_stake)
        (elements vote_slot_ancestors)
  | None => m
  end.

Definition populate_ancestor_voted_stakes (m : VotedStakes) (vote_slots : list Slot)
    (ancestors : Ancestors) : VotedStakes :=
  foldl (fun m s =>
           match ancestors !! s with
           | Some slot_ancestors => foldl or_default (or_default m s) (elements slot_ancestors)
           | None => m
           end) m vote_slots.

(** What the loop over the vote accounts of a bank carries. *)
Record Collected := {
  c_vote_slots : gset Slot;
  c_voted_stakes : VotedStakes;
  c_total_stake : Z;
  c_bank_weight : Z;
  c_lockout_intervals : LockoutIntervals;
  c_my_latest_landed_vote : option Slot;
  c_latest_votes : LatestValidatorVotes }.

Definition add_interval (key : Pubkey) (m : LockoutIntervals) (v : Lockout) : LockoutIntervals :=
  let e := last_locked_out_slot v in <[e := default [] (m !! e) ++ [(slot v, key)]]> m.

(** [bank_weight += vote.lockout() as u128 * voted_stake as u128] *)
Definition add_weight (voted_stake w : Z) (v : Lockout) : Z :=
  wrapping_add u128_max w (lockout v * voted_stake).
Definition root_lockout (s : Slot) : Lockout :=
  {| slot := s; confirmation_count := Z.of_nat MAX_LOCKOUT_HISTORY |}.

Section Collect.
Context (decode_vote : list Z -> option VoteStateVersions).
Context (vote_account_pubkey : Pubkey) (bank_slot : Slot) (ancestors : Ancestors).
Context (get_frozen_hash : Slot -> option Hash).

(** The votes that count towards the weight of the bank. *)
Definition weighed_votes (start_root : option Slot) (vs : VoteState) : list Lockout :=
  votes vs
  ++ (if bool_decide (start_root = root_slot vs) then []
      else from_option (fun r => [root_lockout r]) [] start_root)
  ++ from_option (fun r => [root_lockout r]) [] (root_slot vs).

Definition collect_account (acc : Collected) (e : Pubkey * (Z * AccountSharedData))
  : result Empty_set Collected :=
  let '(key, (voted_stake, account)) := e in
  if voted_stake =? 0 then Ok acc
  else
    match vote_state decode_vote account with
    | None => Ok acc
    | Some vs =>
        let intervals := foldl (add_interval key) (c_lockout_intervals acc) (votes vs) in
        let mine :=
          if bool_decide (key = vote_account_pubkey) then slot <$> nth_recent_vote vs 0
          else c_my_latest_landed_vote acc in
        latest ← match last_voted_slot vs with
                 | Some s =>
                     '(_, _, latest) ←
                       VotesForFrozenBanks.check_add_vote (c_latest_votes acc) key s
                         (get_frozen_hash s) true;
                     Ok latest
                 | None => Ok (c_latest_votes acc)
                 end;
        vs' ← infallible (process_slot_vote_unchecked vs bank_slot);
        let counted := weighed_votes (root_slot vs) vs' in
        assert_ (bool_decide (slot <$> nth_recent_vote vs' 0 = Some bank_slot));;
        let stakes :=
          match nth_recent_vote vs' 1 with
          | Some vote =>
              update_ancestor_voted_stakes (c_voted_stakes acc) (slot vote) voted_stake ancestors
          | None => c_voted_stakes acc
          end in
        Ok {| c_vote_slots := list_to_set (slot <$> counted) ∪ c_vote_slots acc;
              c_voted_stakes := stakes;
              c_total_stake := wrapping_add u64_max (c_total_stake acc) voted_stake;
              c_bank_weight := foldl (add_weight voted_stake) (c_bank_weight acc) counted;
              c_lockout_intervals := intervals;
              c_my_latest_landed_vote := mine;
              c_latest_votes := latest |}
    end.

Fixpoint collect_accounts (acc : Collected) (l : list (Pubkey * (Z * AccountSharedData)))
  : result Empty_set Collected :=
  match l with
  | [] => Ok acc
  | e :: l => acc ← collect_account acc e; collect_accounts acc l
  end.

Definition collect_vote_lockouts (vote_accounts : VoteAccountsHashMap)
    (latest : LatestValidatorVotes) : result Empty_set (ComputedBankState * LatestValidatorVotes) :=
  acc ← collect_accounts
          {| c_vote_slots := ∅; c_voted_stakes := ∅; c_total_stake := 0; c_bank_weight := 0;
             c_lockout_intervals := ∅; c_my_latest_landed_vote := None; c_latest_votes := latest |}
          (map_to_list vote_accounts);
  Ok ({| voted_stakes :=
           populate_ancestor_voted_stakes (c_voted_stakes acc) (elements (c_vote_slots acc)) ancestors;
         cbs_total_stake := c_total_stake acc;
         bank_weight := c_bank_weight acc;
         lockout_intervals := c_lockout_intervals acc;
         my_latest_landed_vote := c_my_latest_landed_vote acc |}, c_latest_votes acc).
End Collect.

(** ** The tower *)
Module Tower.
Record t := {
  node_pubkey : Pubkey;
  threshold_depth : nat;
  threshold_size : F64.f64;
  vote_state : VoteState;
  last_vote : Vote;
  last_vote_tx_blockhash : Hash;
  last_timestamp : BlockTimestamp;
  stray_restored_slot : option Slot;
  last_switch_threshold_check : option (Slot * SwitchForkDecision.t) }.

Definition with_vote_state (self : t) (vs : VoteState) : t :=
  {| node_pubkey := node_pubkey self; threshold_depth := threshold_depth self;
     threshold_size := threshold_size self; vote_state := vs; last_vote := last_vote self;
     last_vote_tx_blockhash := last_vote_tx_blockhash self; last_timestamp := last_timestamp self;
     stray_restored_slot := stray_restored_slot self;
     last_switch_threshold_check := last_switch_threshold_check self |}.
Definition with_last_vote (self : t) (v : Vote) (ts : BlockTimestamp) (stray : option Slot) : t :=
  {| node_pubkey := node_pubkey self; threshold_depth := threshold_depth self;
     threshold_size := threshold_size self; vote_state := vote_state self; last_vote := v;
     last_vote_tx_blockhash := last_vote_tx_blockhash self; last_timestamp := ts;
     stray_restored_slot := stray;
     last_switch_threshold_check := last_switch_threshold_check self |}.
Definition with_switch_check (self : t) (c : option (Slot * SwitchForkDecision.t)) : t :=
  {| node_pubkey := node_pubkey self; threshold_depth := threshold_depth self;
     threshold_size := threshold_size self; vote_state := vote_state self; last_vote := last_vote self;
     last_vote_tx_blockhash := last_vote_tx_blockhash self; last_timestamp := last_timestamp self;
     stray_restored_slot := stray_restored_slot self; last_switch_threshold_check := c |}.

Definition with_root (vs : VoteState) (r : option Slot) : VoteState :=
  with_tower vs (votes vs) r (epoch_credits vs).

Definition default_ : t :=
  {| node_pubkey := default_key; threshold_depth := VOTE_THRESHOLD_DEPTH;
     threshold_size := VOTE_THRESHOLD_SIZE; vote_state := with_root VoteState_default (Some 0);
     last_vote := Vote_default; last_vote_tx_blockhash := replicate 32 0;
     last_timestamp := {| ts_slot := 0; ts_timestamp := 0 |}; stray_restored_slot := None;
     last_switch_threshold_check := None |}.

Definition refresh_last_vote_tx_blockhash (self : t) (new_vote_tx_blockhash : Hash) : t :=
  {| node_pubkey := node_pubkey self; threshold_depth := threshold_depth self;
     threshold_size := threshold_size self; vote_state := vote_state self; last_vote := last_vote self;
     last_vote_tx_blockhash := new_vote_tx_blockhash; last_timestamp := last_timestamp self;
     stray_restored_slot := stray_restored_slot self;
     last_switch_threshold_check := last_switch_threshold_check self |}.

Definition initialize_root (self : t) (r : Slot) : t :=
  with_vote_state self (with_root (vote_state self) (Some r)).
Definition initialize_lockouts (self : t) (should_retain : Lockout -> bool) : t :=
  with_vote_state self
    (with_votes (vote_state self) (filter (fun v => should_retain v = true) (votes (vote_state self)))).

(** [None] if the bank does not have the vote account. *)
Definition initialize_lockouts_from_bank (decode_vote : list Z -> option VoteStateVersions)
    (self : t) (r : Slot) (vote_account : option AccountSharedData) : result TowerError t :=
  match vote_account with
  | Some account =>
      vs ← unwrap (StakesCache.vote_state decode_vote account);
      Ok (initialize_lockouts (initialize_root (with_vote_state self vs) r)
            (fun v => r <? slot v))
  | None => Ok (initialize_root self r)
  end.

Definition new (decode_vote : list Z -> option VoteStateVersions) (node : Pubkey) (r : Slot)
    (vote_account : option AccountSharedData) : result TowerError t :=
  let tower :=
    {| node_pubkey := node; threshold_depth := threshold_depth default_;
       threshold_size := threshold_size default_; vote_state := vote_state default_;
       last_vote := last_vote default_; last_vote_tx_blockhash := last_vote_tx_blockhash default_;
       last_timestamp := last_timestamp default_; stray_restored_slot := None;
       last_switch_threshold_check := None |} in
  initialize_lockouts_from_bank decode_vote tower r vote_account.

(** ** Queries *)
Definition is_slot_confirmed (self : t) (s : Slot) (stakes : VotedStakes) (total_stake : Z) : bool :=
  match stakes !! s with
  | Some stake => exceeds (threshold_size self) stake total_stake
  | None => false
  end.
Definition tower_slots (self : t) : list Slot := tower (vote_state self).
Definition voted_slots (self : t) : list Slot := slot <$> votes (vote_state self).
Definition last_voted_slot (self : t) : option Slot := Vote_last_voted_slot (last_vote self).
Definition last_voted_slot_hash (self : t) : option SlotHashKey :=
  Vote_last_voted_slot_hash (last_vote self).
Definition root {E} (self : t) : result E Slot := unwrap (root_slot (vote_state self)).

Definition is_recent (self : t) (s : Slot) : bool :=
  match VoteState.last_voted_slot (vote_state self) with
  | Some last => negb (s <=? last)
  | None => true
  end.
Definition has_voted (self : t) (s : Slot) : bool :=
  existsb (fun v => s =? slot v) (votes (vote_state self)).

Definition is_stray_last_vote (self : t) : bool :=
  match last_voted_slot self, stray_restored_slot self with
  | Some last, Some stray => stray =? last
  | _, _ => false
  end.

(** ** Recording a vote *)
Definition apply_vote_and_generate_vote_diff {E} (local : VoteState) (s : Slot) (h : Hash)
    (last_voted_slot_in_bank : option Slot) : result E (VoteState * Vote) :=
  local ← infallible (process_vote_unchecked local {| slots := [s]; hash := h; timestamp := None |});
  let voted := slot <$> votes local in
  let slots :=
    match last_voted_slot_in_bank with
    | Some last => skip_while (fun s => s <=? last) voted
    | None => voted
    end in
  Ok (local, {| slots := slots; hash := h; timestamp := None |}).

(** [now]: [Utc::now().timestamp()] *)
Definition maybe_timestamp (self : t) (current_slot : Slot) (now : Z)
  : option UnixTimestamp * BlockTimestamp :=
  let last := last_timestamp self in
  if ((ts_slot last <? current_slot) || (ts_slot last =? 0) && (current_slot =? ts_slot last))
     && (ts_timestamp last <=? now)
  then (Some now, {| ts_slot := current_slot; ts_timestamp := now |})
  else (None, last).

Definition last_voted_slot_in_bank (decode_vote : list Z -> option VoteStateVersions)
    (vote_account : option AccountSharedData) : option Slot :=
  account ← vote_account; vs ← StakesCache.vote_state decode_vote account;
  VoteState.last_voted_slot vs.

Definition record_bank_vote_and_update_lockouts (self : t) (vote_slot : Slot) (vote_hash : Hash)
    (last_voted_slot_in_bank : option Slot) (now : Z) : result TowerError (option Slot * t) :=
  old_root ← root self;
  '(vs, new_vote) ←
    apply_vote_and_generate_vote_diff (vote_state self) vote_slot vote_hash last_voted_slot_in_bank;
  let '(ts, last_ts) := maybe_timestamp self (default 0 (Vote_last_voted_slot (last_vote self))) now in
  let new_vote := {| slots := slots new_vote; hash := hash new_vote; timestamp := ts |} in
  let self := with_last_vote (with_vote_state self vs) new_vote last_ts (stray_restored_slot self) in
  new_root ← root self;
  Ok (if negb (old_root =? new_root) then Some new_root else None, self).

Definition record_bank_vote (decode_vote : list Z -> option VoteStateVersions) (self : t)
    (bank_slot : Slot) (bank_hash : Hash) (vote_account : option AccountSharedData) (now : Z)
  : result TowerError (option Slot * t) :=
  record_bank_vote_and_update_lockouts self bank_slot bank_hash
    (last_voted_slot_in_bank decode_vote vote_account) now.

(** ** Lockouts and thresholds *)
Definition is_locked_out (self : t) (s : Slot) (ancestors : gset Slot) : result TowerError bool :=
  if negb (is_recent self s) then Ok true
  else
    vs ← infallible (process_slot_vote_unchecked (vote_state self) s);
    if existsb (fun v => negb (s =? slot v) && negb (bool_decide (slot v ∈ ancestors))) (votes vs)
    then Ok true
    else
      match root_slot vs with
      | Some r => panic_unless ((s =? r) || bool_decide (r ∈ ancestors));; Ok false
      | None => Ok false
      end.

Definition check_vote_stake_threshold (self : t) (s : Slot) (stakes : VotedStakes)
    (total_stake : Z) : result TowerError bool :=
  vs ← infallible (process_slot_vote_unchecked (vote_state self) s);
  Ok match nth_recent_vote vs (threshold_depth self) with
     | Some vote =>
         match stakes !! slot vote with
         | Some fork_stake =>
             if (Z.of_nat (threshold_depth self) <? confirmation_count vote)
                && existsb (fun old => (slot old =? slot vote)
                                       && (confirmation_count old =? confirmation_count vote))
                     (votes (vote_state self))
             then true
             else exceeds (threshold_size self) fork_stake total_stake
         | None => false
         end
     | None => true
     end.

(** ** Switching to another fork *)
Section Switch.
Context (ancestors descendants : Ancestors) (progress : ProgressMap) (total_stake : Z).
Context (epoch_vote_accounts : VoteAccountsHashMap) (latest : LatestValidatorVotes).
Context (fork_choice : HeaviestSubtreeForkChoice).

Definition is_candidate_slot_descendant_of_last_vote (candidate_slot last_voted_slot : Slot)
  : option bool :=
  (fun a : gset Slot => bool_decide (last_voted_slot ∈ a)) <$> ancestors !! candidate_slot.

Definition epoch_stake (k : Pubkey) : Z :=
  match epoch_vote_accounts !! k with Some (stake, _) => stake | None => 0 end.

(** The locked out stake and its accounts; [None] once the threshold is reached. *)
Abbreviation Tally := (option (Z * gset Pubkey)).

Definition count_account (stake : Z) (accounts : gset Pubkey) (k : Pubkey) : Tally :=
  let stake := wrapping_add u64_max stake (epoch_stake k) in
  if exceeds SWITCH_FORK_THRESHOLD stake total_stake then None
  else Some (stake, {[k]} ∪ accounts).

(** The lockouts of one end of interval. *)
Fixpoint tally_intervals (last_vote_ancestors : gset Slot) (r : Slot) (tally : Z * gset Pubkey)
    (l : list (Slot * Pubkey)) : Tally :=
  match l with
  | [] => Some tally
  | (start, k) :: l =>
      let '(stake, accounts) := tally in
      if bool_decide (k ∈ accounts) then tally_intervals last_vote_ancestors r tally l
      else if negb (bool_decide (start ∈ last_vote_ancestors)) && (r <? start) then
        match count_account stake accounts k with
        | Some tally => tally_intervals last_vote_ancestors r tally l
        | None => None
        end
      else tally_intervals last_vote_ancestors r tally l
  end.

(** [lockout_intervals.range((Included(last_voted_slot), Unbounded))] *)
Fixpoint tally_range (last_vote_ancestors : gset Slot) (r : Slot) (tally : Z * gset Pubkey)
    (l : list (Slot * list (Slot * Pubkey))) : Tally :=
  match l with
  | [] => Some tally
  | (_, intervals) :: l =>
      match tally_intervals last_vote_ancestors r tally intervals with
      | Some tally => tally_range last_vote_ancestors r tally l
      | None => None
      end
  end.

(** Whether the lockouts of a bank are passed over. *)
Definition skip_candidate (last_voted_slot r candidate_slot : Slot) (slot_descendants : gset Slot)
  : result TowerError bool :=
  if negb (is_computed progress candidate_slot)
     || existsb (is_computed progress) (elements slot_descendants)
     || (candidate_slot =? last_voted_slot)
  then Ok true
  else
    on_fork ← unwrap (is_candidate_slot_descendant_of_last_vote candidate_slot last_voted_slot);
    Ok (on_fork || (candidate_slot <=? r)).

Fixpoint tally_candidates (last_vote_ancestors : gset Slot) (last_voted_slot r : Slot)
    (tally : Z * gset Pubkey) (l : list (Slot * gset Slot)) : result TowerError Tally :=
  match l with
  | [] => Ok (Some tally)
  | (candidate_slot, slot_descendants) :: l =>
      skip ← skip_candidate last_voted_slot r candidate_slot slot_descendants;
      if (skip : bool) then tally_candidates last_vote_ancestors last_voted_slot r tally l
      else
        panic_unless (negb (bool_decide (candidate_slot ∈ last_vote_ancestors)));;
        stats ← unwrap (progress !! candidate_slot);
        match tally_range last_vote_ancestors r tally
                (filter (fun e => last_voted_slot <= fst e)
                   (sorted_entries (fs_lockout_intervals stats))) with
        | Some tally => tally_candidates last_vote_ancestors last_voted_slot r tally l
        | None => Ok None
        end
  end.

(** Votes in gossip that have not landed yet. *)
Fixpoint tally_gossip (last_voted_slot : Slot) (tally : Z * gset Pubkey)
    (l : list (Pubkey * (Slot * list Hash))) : Tally :=
  match l with
  | [] => Some tally
  | (k, (candidate_latest_frozen_vote, _)) :: l =>
      let '(stake, accounts) := tally in
      if bool_decide (k ∈ accounts) then tally_gossip last_voted_slot tally l
      else if (last_voted_slot <? candidate_latest_frozen_vote)
              && negb (default true
                    (is_candidate_slot_descendant_of_last_vote candidate_latest_frozen_vote
                       last_voted_slot)) then
        match count_account stake accounts k with
        | Some tally => tally_gossip last_voted_slot tally l
        | None => None
        end
      else tally_gossip last_voted_slot tally l
  end.

(** The stake locked out on other forks. *)
Definition tally_locked_out (last_vote_ancestors : gset Slot) (last_voted_slot r : Slot)
  : result TowerError SwitchForkDecision.t :=
  tally ← tally_candidates last_vote_ancestors last_voted_slot r (0, ∅) (map_to_list descendants);
  Ok match tally with
     | None => SwitchProof Hash_default
     | Some tally =>
         match tally_gossip last_voted_slot tally
                 (map_to_list (max_gossip_frozen_votes latest)) with
         | None => SwitchProof Hash_default
         | Some (locked_out_stake, _) => FailedSwitchThreshold locked_out_stake total_stake
         end
     end.

(** The answer if an ancestor of the last vote is a duplicate block. *)
Definition duplicate_decision (switch last_voted : SlotHashKey) : option SwitchForkDecision.t :=
  latest_duplicate_ancestor ← HeaviestSubtree.latest_invalid_ancestor fork_choice last_voted;
  if HeaviestSubtree.is_strict_ancestor fork_choice switch last_voted
  then Some (FailedSwitchDuplicateRollback latest_duplicate_ancestor)
  else if match progress_get_hash progress (fst last_voted) with
          | Some h => negb (bool_decide (h = snd last_voted))
          | None => true
          end
  then Some (SwitchProof Hash_default)
  else None.

Definition make_check_switch_threshold_decision (self : t) (switch_slot : Slot)
  : result TowerError SwitchForkDecision.t :=
  match last_voted_slot_hash self with
  | None => Ok SameFork
  | Some (last_voted_slot, last_voted_hash) =>
      r ← root self;
      switch_hash ← unwrap (progress_get_hash progress switch_slot);
      match duplicate_decision (switch_slot, switch_hash) (last_voted_slot, last_voted_hash) with
      | Some decision => Ok decision
      | None =>
          last_vote_ancestors ← match ancestors !! last_voted_slot with
                                | Some a => Ok a
                                | None => panic_unless (is_stray_last_vote self);; Ok ∅
                                end;
          switch_slot_ancestors ← unwrap (ancestors !! switch_slot);
          if (switch_slot =? last_voted_slot) || bool_decide (last_voted_slot ∈ (switch_slot_ancestors : gset Slot))
          then Ok SameFork
          else if bool_decide (switch_slot ∈ (last_vote_ancestors : gset Slot)) then
            panic_unless (is_stray_last_vote self);; Ok (FailedSwitchThreshold 0 total_stake)
          else tally_locked_out last_vote_ancestors last_voted_slot r
      end
  end.

Definition check_switch_threshold (self : t) (switch_slot : Slot)
  : result TowerError (SwitchForkDecision.t * t) :=
  decision ← make_check_switch_threshold_decision self switch_slot;
  let new_check := Some (switch_slot, decision) in
  Ok (decision,
      if bool_decide (new_check = last_switch_threshold_check self) then self
      else with_switch_check self new_check).
End Switch.

(** ** Restarts *)

(** What the loop over the slots of a saved tower carries. *)
Record Adjust := {
  retain_flags : list bool;
  still_in_future : bool;
  past_outside_history : bool;
  checked_slot : option Slot;
  anchored_slot : option Slot }.

Definition adjust_slot (slot_history : SlotHistory) (tower_root : Slot) (acc : Adjust)
    (slot_in_tower : Slot) : result TowerError Adjust :=
  let check := History.check slot_history slot_in_tower in
  anchored ←
    match anchored_slot acc with
    | None => Ok (if bool_decide (check = Found) then Some slot_in_tower else None)
    | Some a =>
        fail_if (bool_decide (check = NotFound)) (FatallyInconsistent "diverged ancestor?");;
        Ok (Some a)
    end;
  in_future ←
    (if still_in_future acc then Ok (bool_decide (check = Future))
     else fail_if (bool_decide (check = Future)) (FatallyInconsistent "time warped?");; Ok false);
  outside ←
    (if past_outside_history acc
     then fail_if (negb (bool_decide (check = TooOld)))
            (FatallyInconsistent "not too old once after got too old?");; Ok true
     else Ok (bool_decide (check = TooOld)));
  panic_unless
    match checked_slot acc with
    | Some c => (slot_in_tower =? c) && (slot_in_tower =? tower_root) || (slot_in_tower <? c)
    | None => true
    end;;
  Ok {| retain_flags :=
          retain_flags acc ++ [match anchored with None => true | Some _ => false end];
        still_in_future := in_future; past_outside_history := outside;
        checked_slot := Some slot_in_tower; anchored_slot := anchored |}.

Fixpoint adjust_slots (slot_history : SlotHistory) (tower_root : Slot) (acc : Adjust)
    (l : list Slot) : result TowerError Adjust :=
  match l with
  | [] => Ok acc
  | s :: l => acc ← adjust_slot slot_history tower_root acc s; adjust_slots slot_history tower_root acc l
  end.

(** [retain] with one flag after the other *)
Fixpoint retain_flagged (vo : list Lockout) (flags : list bool) : result TowerError (list Lockout) :=
  match vo, flags with
  | [], _ => Ok []
  | v :: vo, b :: flags =>
      rest ← retain_flagged vo flags; Ok (if (b : bool) then v :: rest else rest)
  | _ :: _, [] => Panic
  end.

Definition adjust_lockouts_with_slot_history (self : t) (slot_history : SlotHistory)
  : result TowerError t :=
  tower_root ← root self;
  let slots_in_tower := tower_root :: voted_slots self in
  acc ← adjust_slots slot_history tower_root
          {| retain_flags := []; still_in_future := true; past_outside_history := false;
             checked_slot := None; anchored_slot := None |} (reverse slots_in_tower);
  fail_if (match anchored_slot acc with None => true | Some _ => false end)
    (FatallyInconsistent "no common slot for rooted tower");;
  panic_unless (Nat.eqb (length slots_in_tower) (length (retain_flags acc)));;
  retained ← retain_flagged (votes (vote_state self)) (reverse (removelast (retain_flags acc)));
  let self := with_vote_state self (with_votes (vote_state self) retained) in
  match last retained with
  | None => Ok (with_last_vote self Vote_default (last_timestamp self) (stray_restored_slot self))
  | Some v =>
      last ← unwrap (last_voted_slot self);
      panic_unless (last =? slot v);;
      Ok (with_last_vote self (last_vote self) (last_timestamp self) (Some last))
  end.

Definition adjust_lockouts_after_replay (self : t) (replayed_root : Slot)
    (slot_history : SlotHistory) : result TowerError t :=
  tower_root ← root self;
  panic_unless (bool_decide (History.check slot_history replayed_root = Found));;
  panic_unless (Bool.eqb (bool_decide (last_vote self = Vote_default))
                  (bool_decide (votes (vote_state self) = [])));;
  match last_voted_slot self with
  | Some last =>
      if tower_root <=? replayed_root then
        fail_if (bool_decide (History.check slot_history last = TooOld))
          (TooOldTower last (History.oldest slot_history));;
        self ← adjust_lockouts_with_slot_history self slot_history;
        Ok (initialize_root self replayed_root)
      else adjust_lockouts_with_slot_history self (History.add slot_history tower_root)
  | None => panic_unless (tower_root =? replayed_root);; Ok self
  end.
End Tower.
