(* ===== verification/ConsensusProofs.v ===== *)
(** * A validator's votes respect their lockouts

    What the vote on a slot does to a tower ([next_vote_split]), and the run of a
    validator that votes only for slots that are not locked out. *)

From stdpp Require Import base gmap list fin_maps strings sorting.
From Stdlib Require Import ZArith Lia SpecFloat.
From S2P Require Import Prelude Sdk MapOrder VoteState VoteProofs VoteInstruction StakesCache SlotHistory ForkChoice LatestVotes Consensus.
Import SwitchForkDecision (SwitchProof, SameFork, FailedSwitchThreshold, FailedSwitchDuplicateRollback).

(** ** One vote *)
Definition voted (vs : VoteState) (s : Slot) : VoteState :=
  process_next_vote_slot vs s (current_epoch vs).

Lemma process_slot_vote_voted vs s : process_slot_vote_unchecked vs s = Ok (voted vs s).
Proof.
  unfold process_slot_vote_unchecked. rewrite process_vote_unchecked_total; [done|].
  cbn. repeat constructor.
Qed.

Lemma process_vote_voted vs s h :
  process_vote_unchecked vs {| slots := [s]; hash := h; timestamp := None |} = Ok (voted vs s).
Proof. rewrite process_vote_unchecked_total; [done|]. cbn. repeat constructor. Qed.

Lemma slots_push_vote vo s : slot <$> push_vote vo s = (slot <$> vo) ++ [s].
Proof. unfold push_vote. by rewrite slot_double_lockouts, fmap_app. Qed.

(** The votes split into those kept and, newer than them, those popped because
    their lockout has passed; of the kept ones the oldest may become the root. *)
Lemma next_vote_split vs s :
  already_voted (last_voted_slot vs) s = false ->
  exists kept popped, votes vs = kept ++ popped /\
    kept = pop_expired_votes (votes vs) s /\
    Forall (fun v => is_locked_out_at_slot v s = false) popped /\
    ((root_slot (voted vs s) = root_slot vs /\
      tower (voted vs s) = (slot <$> kept) ++ [s]) \/
     exists w rest, kept = w :: rest /\ rest <> [] /\ root_slot (voted vs s) = Some (slot w) /\
      tower (voted vs s) = (slot <$> rest) ++ [s]).
Proof.
  intros Hnew. destruct (pop_expired_split (votes vs) s) as (popped & E & Hp).
  exists (pop_expired_votes (votes vs) s), popped. split_and!; [done|done|done|].
  unfold voted. rewrite process_next_vote_slot_eq by done. cbv zeta. unfold tower.
  destruct (pop_expired_votes (votes vs) s) as [|w rest].
  - left. split; [done|]. apply slots_push_vote.
  - destruct (Nat.eqb_spec (length (w :: rest)) MAX_LOCKOUT_HISTORY) as [El|].
    + right. exists w, rest. split_and!; [done|by destruct rest|done|]. apply slots_push_vote.
    + left. split; [done|]. apply slots_push_vote.
Qed.

Lemma stack_voted vs s :
  stack_ok (votes vs) -> (length (votes vs) <= MAX_LOCKOUT_HISTORY)%nat ->
  stack_ok (votes (voted vs s)) /\ (length (votes (voted vs s)) <= MAX_LOCKOUT_HISTORY)%nat.
Proof.
  intros Hs Hl. set (vs0 := with_tower vs (votes vs) None (epoch_credits vs)).
  assert (Ht : tower_ok vs0) by (by split).
  assert (E : votes (voted vs s) = votes (process_next_vote_slot vs0 s (current_epoch vs))).
  { unfold voted. destruct (already_voted (last_voted_slot vs) s) eqn:Hn.
    - unfold process_next_vote_slot. change (last_voted_slot vs0) with (last_voted_slot vs). by rewrite Hn.
    - rewrite !process_next_vote_slot_eq by done. cbv zeta.
      change (votes vs0) with (votes vs). by destruct (pop_expired_votes (votes vs) s); [|destruct (Nat.eqb _ _)]. }
  apply (process_next_vote_slot_ok vs0 s (current_epoch vs)) in Ht as [H1 H2 _ _].
  by rewrite E.
Qed.

(** ** The lockout check *)

(** No vote of the tower is locked out on a fork without [s]. *)
Lemma not_locked_out self s anc :
  Tower.is_locked_out self s anc = Ok false ->
  already_voted (last_voted_slot (Tower.vote_state self)) s = false /\
  (forall x, x ∈ tower (voted (Tower.vote_state self) s) -> x = s \/ x ∈ anc) /\
  (forall r, root_slot (voted (Tower.vote_state self) s) = Some r -> r = s \/ r ∈ anc).
Proof.
  unfold Tower.is_locked_out. rewrite process_slot_vote_voted. cbn.
  assert (Hrec : Tower.is_recent self s = negb (already_voted (last_voted_slot (Tower.vote_state self)) s)).
  { unfold Tower.is_recent, already_voted. by destruct (last_voted_slot _). }
  rewrite Hrec, negb_involutive. destruct (already_voted _ s); [done|].
  destruct (existsb _ _) eqn:Ex; [done|]. intros E. split_and!; [done| |].
  - intros x Hx. unfold tower in Hx. apply list_elem_of_fmap in Hx as (v & -> & Hv).
    destruct (Z.eq_dec (slot v) s) as [?|Hne]; [by left|right].
    destruct (decide (slot v ∈ anc)) as [?|Hn]; [done|].
    assert (Ht : existsb (fun v => negb (s =? slot v) && negb (bool_decide (slot v ∈ anc)))
      (votes (voted (Tower.vote_state self) s)) = true); [|congruence].
    apply existsb_exists. exists v. split; [by apply list_elem_of_In|].
    rewrite bool_decide_false by done. rewrite (proj2 (Z.eqb_neq _ _)); [done|congruence].
  - intros r Hr. rewrite Hr in E.
    destruct ((s =? r) || bool_decide (r ∈ anc)) eqn:Eo; [|done].
    apply orb_true_iff in Eo as [->%Z.eqb_eq|H%bool_decide_eq_true]; auto.
Qed.

Lemma record_vote_state self s h lv now r self' :
  Tower.record_bank_vote_and_update_lockouts self s h lv now = Ok (r, self') ->
  Tower.vote_state self' = voted (Tower.vote_state self) s.
Proof.
  unfold Tower.record_bank_vote_and_update_lockouts, Tower.apply_vote_and_generate_vote_diff.
  rewrite process_vote_voted. unfold Tower.root. destruct (root_slot _) as [r0|]; [|done]. cbn.
  destruct (Tower.maybe_timestamp _ _ _) as [ts lts]. cbn.
  destruct (root_slot _); [|done]. by intros [= _ <-].
Qed.

(** ** The run of a validator *)
(** One of the votes of [log] came after the lockout of a vote for [x]. *)
Definition expired (log : list (Tower.t * Slot)) (x : Slot) : Prop :=
  exists t s v, (t, s) ∈ log /\ v ∈ votes (Tower.vote_state t) /\ slot v = x /\
    last_locked_out_slot v < s.

Lemma expired_app log l x : expired log x -> expired (log ++ l) x.
Proof. intros (t & s & v & Hin & H). exists t, s, v. split; [set_solver|done]. Qed.

Section Voting.
(** The ancestors of the banks, each slot having one bank. *)
Context (anc : Slot -> gset Slot).
Context (anc_trans : forall a b, a ∈ anc b -> anc a ⊆ anc b).
Context (anc_below : forall a b, a ∈ anc b -> a < b).

(** The votes of the tower and its root are on one fork. *)
Record on_fork (vs : VoteState) : Prop := {
  f_stack : stack_ok (votes vs);
  f_length : (length (votes vs) <= MAX_LOCKOUT_HISTORY)%nat;
  f_votes : forall x y, x ∈ tower vs -> y ∈ tower vs -> x < y -> x ∈ anc y;
  f_root : forall r x, root_slot vs = Some r -> x ∈ tower vs -> r = x \/ r ∈ anc x }.

(** Votes, each for a slot that is not locked out; the log has the tower before
    each vote. *)
Inductive voting_run (t0 : Tower.t) : list (Tower.t * Slot) -> Tower.t -> Prop :=
| Run_start : voting_run t0 [] t0
| Run_vote log t s h lv now r t' :
    voting_run t0 log t -> Tower.is_locked_out t s (anc s) = Ok false ->
    Tower.record_bank_vote_and_update_lockouts t s h lv now = Ok (r, t') ->
    voting_run t0 (log ++ [(t, s)]) t'.

Lemma tower_below vs s x :
  stack_ok (votes vs) -> already_voted (last_voted_slot vs) s = false -> x ∈ tower vs -> x < s.
Proof.
  intros Hs Hn Hx. unfold tower in Hx. apply list_elem_of_fmap in Hx as (v & -> & Hv).
  pose proof (new_vote_above vs s Hs Hn) as H. rewrite Forall_forall in H. by apply H.
Qed.

(** A slot of the old tower is on the new one, is its root, or has expired. *)
Lemma voted_fate vs s x :
  already_voted (last_voted_slot vs) s = false -> x ∈ tower vs ->
  x ∈ tower (voted vs s) \/ root_slot (voted vs s) = Some x \/
  exists v, v ∈ votes vs /\ slot v = x /\ last_locked_out_slot v < s.
Proof.
  intros Hn Hx. destruct (next_vote_split vs s Hn) as (kept & popped & E & _ & Hp & Hcase).
  unfold tower in Hx. rewrite E, fmap_app, elem_of_app in Hx. destruct Hx as [Hx|Hx].
  - destruct Hcase as [[_ ->]|(w & rest & -> & _ & Hr & ->)]; [left; set_solver|].
    cbn in Hx. apply elem_of_cons in Hx as [->|Hx]; [by right; left|left; set_solver].
  - right. right. apply list_elem_of_fmap in Hx as (v & -> & Hv). exists v.
    rewrite Forall_forall in Hp. specialize (Hp v Hv). split_and!; [rewrite E; set_solver|done|].
    by apply Z.leb_gt in Hp.
Qed.

(** Conversely nothing else is on the new tower. *)
Lemma voted_origin vs s :
  stack_ok (votes vs) -> already_voted (last_voted_slot vs) s = false ->
  (forall x, x ∈ tower (voted vs s) -> x = s \/ x ∈ tower vs) /\
  (root_slot (voted vs s) = root_slot vs \/
   exists r, root_slot (voted vs s) = Some r /\ r ∈ tower vs /\
     forall x, x ∈ tower (voted vs s) -> x = s \/ r < x).
Proof.
  intros [Hs _ _] Hn. destruct (next_vote_split vs s Hn) as (kept & popped & E & _ & _ & Hcase).
  assert (Hsub : forall x, x ∈ slot <$> kept -> x ∈ tower vs).
  { intros x Hx. unfold tower. rewrite E, fmap_app. set_solver. }
  destruct Hcase as [[Hr Ht]|(w & rest & -> & _ & Hr & Ht)]; rewrite Ht.
  - split; [set_solver|by left].
  - split; [intros x; cbn in Hsub; set_solver|]. right. exists (slot w).
    split_and!; [done|apply Hsub; cbn; set_solver|].
    intros x [Hx|Hx]%elem_of_app; [right|set_solver].
    rewrite E in Hs. cbn in Hs. apply StronglySorted_inv in Hs as [_ Hs].
    rewrite Forall_forall in Hs. apply Hs. rewrite fmap_app. set_solver.
Qed.

Lemma voted_slot vs s : already_voted (last_voted_slot vs) s = false -> s ∈ tower (voted vs s).
Proof.
  intros Hn. destruct (next_vote_split vs s Hn) as (kept & popped & _ & _ & _ & [[_ ->]|(w & rest & _ & _ & _ & ->)]);
    set_solver.
Qed.

(** The root is settled for good, as are the slots below it. *)
Definition rooted (vs : VoteState) (x : Slot) : Prop :=
  exists r, root_slot vs = Some r /\ (x = r \/ x ∈ anc r).

Lemma on_fork_voted t s :
  on_fork (Tower.vote_state t) -> Tower.is_locked_out t s (anc s) = Ok false ->
  on_fork (voted (Tower.vote_state t) s).
Proof.
  set (vs := Tower.vote_state t). intros [Hs Hl Hv Hr] (Hn & Ht & Hrt)%not_locked_out.
  destruct (voted_origin vs s Hs Hn) as [Hold Hroot].
  destruct (stack_voted vs s Hs Hl) as [Hs' Hl'].
  split; [done|done| |].
  - intros x y Hx Hy Hxy. destruct (Hold y Hy) as [->|Hy'].
    + destruct (Ht x Hx) as [->|?]; [lia|done].
    + destruct (Hold x Hx) as [->|Hx']; [|by apply Hv].
      pose proof (tower_below vs s y Hs Hn Hy'). lia.
  - intros r x Er Hx. destruct (Hold x Hx) as [->|Hx']; [by apply Hrt|].
    destruct Hroot as [Eo|(r' & Er' & Hin & Hlt)]; [apply Hr; congruence|].
    assert (r' = r) as -> by congruence. destruct (Hlt x Hx) as [->|?]; [by apply Hrt|].
    right. by apply Hv.
Qed.

(** What a vote for [s] does to a slot on the tower or rooted before it. *)
Lemma vote_settles t s x :
  on_fork (Tower.vote_state t) -> Tower.is_locked_out t s (anc s) = Ok false ->
  tower (Tower.vote_state t) <> [] ->
  x ∈ tower (Tower.vote_state t) \/ rooted (Tower.vote_state t) x ->
  (x ∈ anc s /\ (x ∈ tower (voted (Tower.vote_state t) s) \/ rooted (voted (Tower.vote_state t) s) x)) \/
  expired [(t, s)] x.
Proof.
  set (vs := Tower.vote_state t). intros [Hs Hl Hv Hr] (Hn & Ht & Hrt)%not_locked_out Hne Hx.
  assert (Hbelow : forall r, root_slot vs = Some r -> r < s).
  { intros r Er. destruct (tower vs) as [|y ys] eqn:Ey; [done|].
    assert (Hy : y ∈ tower vs) by (rewrite Ey; set_solver).
    pose proof (tower_below vs s y Hs Hn Hy). rewrite <- Ey in Hr.
    destruct (Hr r y Er Hy) as [->|?%anc_below]; lia. }
  assert (Hnr : forall r, root_slot (voted vs s) = Some r -> r ∈ anc s).
  { intros r Er. destruct (Hrt r Er) as [->|?]; [|done].
    destruct (voted_origin vs s Hs Hn) as [_ [Eo|(r' & Er' & Hin & _)]].
    - rewrite Eo in Er. specialize (Hbelow s Er). lia.
    - pose proof (tower_below vs s r' Hs Hn Hin). assert (r' = s) by congruence. lia. }
  destruct Hx as [Hx|(r & Er & Hx)].
  - destruct (voted_fate vs s x Hn Hx) as [Hin|[Er|(v & Hin & E & Hlt)]].
    + left. split; [|by left]. destruct (Ht x Hin) as [->|?]; [|done].
      pose proof (tower_below vs s s Hs Hn Hx). lia.
    + left. split; [by apply Hnr|right]. exists x. auto.
    + right. exists t, s, v. split_and!; [set_solver|done|done|done].
  - left. assert (Hrt' : rooted (voted vs s) x).
    { destruct (voted_origin vs s Hs Hn) as [_ [Eo|(r' & Er' & Hin & _)]].
      - exists r. by rewrite Eo.
      - exists r'. split; [done|]. destruct (Hr r r' Er Hin) as [->|Ha]; [done|].
        right. destruct Hx as [->|Hx]; [done|]. by apply (anc_trans r r'). }
    split; [|by right]. destruct Hrt' as (r' & Er' & Hx'). apply Hnr in Er'.
    destruct Hx' as [->|Hx']; [done|]. by apply (anc_trans r' s).
Qed.

Lemma run_inv t0 log t :
  on_fork (Tower.vote_state t0) -> voting_run t0 log t ->
  on_fork (Tower.vote_state t) /\ (log <> [] -> tower (Tower.vote_state t) <> []) /\
  forall l1 ti si l2, log = l1 ++ (ti, si) :: l2 ->
    si ∈ tower (Tower.vote_state t) \/ rooted (Tower.vote_state t) si \/ expired l2 si.
Proof.
  intros H0 Hrun. induction Hrun as [|log t s h lv now r t' Hrun IH Hl Hrec].
  - split_and!; [done|done|]. intros [|] ? ? ? E; discriminate.
  - destruct IH as (Hf & Hne & IH). pose proof Hl as (Hn & _)%not_locked_out.
    rewrite (record_vote_state _ _ _ _ _ _ _ Hrec).
    pose proof (voted_slot (Tower.vote_state t) s Hn) as Hin.
    split_and!; [by apply on_fork_voted|intros _ E; rewrite E in Hin; set_solver|].
    intros l1 ti si l2 E. destruct l2 as [|e l2 _] using rev_ind.
    { apply app_inj_tail in E as [_ [= <- <-]]. by left. }
    rewrite app_comm_cons, app_assoc in E. apply app_inj_tail in E as [E <-].
    destruct (IH _ _ _ _ E) as [Hx|[Hx|Hx]]; [| |right; right; by apply expired_app].
    all: destruct (vote_settles t s si Hf Hl) as [[_ [?|?]]|(t1 & s1 & v & Hs1 & Hrest)];
      [apply Hne; rewrite E; by destruct l1|auto|auto|auto|].
    all: right; right; exists t1, s1, v; split; [set_solver|done].
Qed.
End Voting.
