(* ===== verification/ConsensusSwitch.v ===== *)
(** * Switching forks: the stake that is locked out

    The loops of the switch decision visit the lockouts of the banks on other
    forks, and then the votes seen in gossip, and stop once the stake passes the
    threshold.  They are one scan of a list ([tally_locked_out_scan]), whose
    result is the stake of the accounts it accepted ([scan_exact]). *)

From stdpp Require Import base gmap list fin_maps strings.
From Stdlib Require Import ZArith Lia SpecFloat.
From S2P Require Import Prelude Sdk MapOrder VoteState StakesCache ForkChoice LatestVotes Consensus.
Import SwitchForkDecision (SwitchProof, SameFork, FailedSwitchThreshold, FailedSwitchDuplicateRollback).
Import Tower.

Lemma wrapping_add_wrap max a b : 0 <= max -> wrapping_add max (wrap max a) b = wrap max (a + b).
Proof. intros Hm. unfold wrapping_add, wrap. apply Z.add_mod_idemp_l. lia. Qed.

Section Scan.
Context (ancestors descendants : Ancestors) (progress : ProgressMap) (total_stake : Z).
Context (epoch_vote_accounts : VoteAccountsHashMap) (latest : LatestValidatorVotes).

Abbreviation Tally := (option (Z * gset Pubkey)).
Abbreviation count := (count_account total_stake epoch_vote_accounts).
Abbreviation intervals := (tally_intervals total_stake epoch_vote_accounts).
Abbreviation range := (tally_range total_stake epoch_vote_accounts).

(** The stake of a set of accounts, as the sum of [u64]s is kept. *)
Definition set_stake (S : gset Pubkey) : Z :=
  wrap u64_max (lsum (epoch_stake epoch_vote_accounts) (elements S)).

(** One scan: the accounts that pass are counted once. *)
Fixpoint scan (tally : Z * gset Pubkey) (l : list (bool * Pubkey)) : Tally :=
  match l with
  | [] => Some tally
  | (b, k) :: l =>
      let '(stake, accounts) := tally in
      if bool_decide (k ∈ accounts) then scan tally l
      else if (b : bool) then
        match count stake accounts k with Some tally => scan tally l | None => None end
      else scan tally l
  end.

Lemma scan_app l k : forall tally, scan tally (l ++ k) = t ← scan tally l; scan t k.
Proof.
  induction l as [|[b x] l IH]; intros [stake accounts]; cbn; [done|].
  destruct (bool_decide _); [apply IH|]. destruct b; [|apply IH].
  destruct (count stake accounts x); [apply IH|done].
Qed.

Record exact (p : Pubkey -> Prop) (tally : Z * gset Pubkey) : Prop := {
  e_stake : tally.1 = set_stake tally.2;
  e_accounts : forall k, k ∈ tally.2 -> p k;
  e_below : tally.2 = ∅ \/ exceeds SWITCH_FORK_THRESHOLD tally.1 total_stake = false }.

Lemma set_stake_add S k : k ∉ S ->
  set_stake ({[k]} ∪ S) = wrapping_add u64_max (set_stake S) (epoch_stake epoch_vote_accounts k).
Proof.
  intros Hk. unfold set_stake. rewrite wrapping_add_wrap by (unfold_max; lia).
  rewrite (lsum_Permutation _ _ (k :: elements S)) by (by apply elements_union_singleton).
  cbn. f_equal. lia.
Qed.

(** The scan either has counted every account that passes, or it has found
    enough stake. *)
Lemma scan_exact (p : Pubkey -> Prop) l : (forall b k, (b, k) ∈ l -> b = true -> p k) ->
  forall tally, exact p tally ->
  match scan tally l with
  | Some tally' => exact p tally' /\ tally.2 ⊆ tally'.2 /\ forall k, (true, k) ∈ l -> k ∈ tally'.2
  | None => exists S, (forall k, k ∈ S -> p k) /\ exceeds SWITCH_FORK_THRESHOLD (set_stake S) total_stake = true
  end.
Proof.
  induction l as [|[b x] l IH]; intros Hl [stake accounts] Ht; cbn.
  { split_and!; [done|done|set_solver]. }
  assert (Hl' : forall b k, (b, k) ∈ l -> b = true -> p k) by (intros b' k' ?; apply Hl; set_solver).
  specialize (IH Hl'). destruct (bool_decide (x ∈ accounts)) eqn:Hx.
  - apply bool_decide_eq_true in Hx. specialize (IH _ Ht). destruct (scan _ l) as [t|]; [|done].
    destruct IH as (? & Hsub & ?). split_and!; [done|done|]. cbn in Hsub.
    intros k [[= <- ->]|?]%elem_of_cons; [set_solver|auto].
  - apply bool_decide_eq_false in Hx. destruct b.
    + destruct Ht as [Hs Ha _]. cbn in Hs, Ha. unfold count_account. rewrite Hs, <- set_stake_add by done.
      assert (Hp : forall k, k ∈ {[x]} ∪ accounts -> p k).
      { intros k [->%elem_of_singleton|?]%elem_of_union; [apply (Hl true); [set_solver|done]|auto]. }
      destruct (exceeds _ _ _) eqn:Ex; [exists ({[x]} ∪ accounts); split; assumption|].
      specialize (IH (set_stake ({[x]} ∪ accounts), {[x]} ∪ accounts)).
      destruct (scan _ l) as [t|].
      * destruct IH as (? & Hsub & ?); [by split; auto|]. cbn [snd] in *.
        split_and!; [done|etrans; [apply union_subseteq_r|exact Hsub]|].
        intros k [[= ->]|?]%elem_of_cons; [apply Hsub, elem_of_union_l, elem_of_singleton; done|auto].
      * apply IH. by split; auto.
    + specialize (IH _ Ht). destruct (scan _ l) as [t|]; [|done].
      destruct IH as (? & ? & ?). split_and!; [done|done|].
      intros k [[=]|?]%elem_of_cons; auto.
Qed.

(** ** The loops as scans *)
Definition interval_items (last_vote_ancestors : gset Slot) (r : Slot) (l : list (Slot * Pubkey))
  : list (bool * Pubkey) :=
  (fun e => (negb (bool_decide (e.1 ∈ last_vote_ancestors)) && (r <? e.1), e.2)) <$> l.

Lemma intervals_scan lva r l : forall tally,
  intervals lva r tally l = scan tally (interval_items lva r l).
Proof.
  induction l as [|[start k] l IH]; intros [stake accounts]; cbn; [done|].
  destruct (bool_decide (k ∈ accounts)); [apply IH|]. destruct (negb _ && _); [|apply IH].
  destruct (count stake accounts k); [apply IH|done].
Qed.

Lemma range_scan lva r l : forall tally,
  range lva r tally l = scan tally (l ≫= fun e => interval_items lva r e.2).
Proof.
  induction l as [|[e ivs] l IH]; intros tally; cbn; [done|].
  rewrite scan_app, intervals_scan. destruct (scan tally _); [apply IH|done].
Qed.

(** What a bank adds to the scan. *)
Definition candidate_items (lva : gset Slot) (last r : Slot) (e : Slot * gset Slot) : list (bool * Pubkey) :=
  match skip_candidate ancestors progress last r e.1 e.2, progress !! e.1 with
  | Ok false, Some stats =>
      filter (fun e => last <= fst e) (sorted_entries (fs_lockout_intervals stats))
        ≫= fun e => interval_items lva r e.2
  | _, _ => []
  end.

Lemma candidate_items_eq lva last r c D :
  candidate_items lva last r (c, D) =
  match skip_candidate ancestors progress last r c D, progress !! c with
  | Ok false, Some stats =>
      filter (fun e => last <= fst e) (sorted_entries (fs_lockout_intervals stats))
        ≫= fun e => interval_items lva r e.2
  | _, _ => []
  end.
Proof. done. Qed.

Lemma candidates_scan lva last r l : forall tally x,
  tally_candidates ancestors progress total_stake epoch_vote_accounts lva last r tally l = Ok x ->
  x = scan tally (l ≫= candidate_items lva last r).
Proof.
  induction l as [|[c D] l IH]; intros tally x; cbn [tally_candidates].
  { by intros [= <-]. }
  rewrite bind_cons, scan_app, candidate_items_eq.
  destruct (skip_candidate _ _ _ _ _ _) as [[|]| |]; cbn; [apply IH| |done|done].
  destruct (panic_unless _) as [[]| |]; cbn; [|done|done].
  destruct (progress !! c) as [stats|]; cbn; [|done].
  rewrite range_scan. destruct (scan tally _); cbn; [apply IH|by intros [= <-]].
Qed.

Definition gossip_item (last : Slot) (e : Pubkey * (Slot * list Hash)) : bool * Pubkey :=
  ((last <? e.2.1) && negb (default true (is_candidate_slot_descendant_of_last_vote ancestors e.2.1 last)), e.1).

Lemma gossip_scan last l : forall tally,
  tally_gossip ancestors total_stake epoch_vote_accounts last tally l = scan tally (gossip_item last <$> l).
Proof.
  induction l as [|[k [s hs]] l IH]; intros [stake accounts]; cbn [tally_gossip fmap list_fmap gossip_item scan]; [done|].
  cbn [fst snd]. destruct (bool_decide (k ∈ accounts)); [apply IH|]. destruct (_ && _); [|apply IH].
  destruct (count stake accounts k); [apply IH|done].
Qed.

(** All that is scanned, the lockouts of the banks first. *)
Definition items (lva : gset Slot) (last r : Slot) : list (bool * Pubkey) :=
  (map_to_list descendants ≫= candidate_items lva last r)
  ++ (gossip_item last <$> map_to_list (max_gossip_frozen_votes latest)).

Lemma tally_locked_out_scan lva last r d :
  tally_locked_out ancestors descendants progress total_stake epoch_vote_accounts latest lva last r = Ok d ->
  d = match scan (0, ∅) (items lva last r) with
      | None => SwitchProof Hash_default
      | Some (stake, _) => FailedSwitchThreshold stake total_stake
      end.
Proof.
  unfold tally_locked_out. intros H. inv_ok. apply candidates_scan in Hr.
  unfold items. rewrite scan_app. rewrite <- Hr.
  destruct x as [tally|]; cbn; [|done]. by rewrite gossip_scan.
Qed.

(** ** What is counted *)

(** The bank of [c] is the frozen tip of a fork without the last vote. *)
Record other_fork (last r c : Slot) (D : gset Slot) : Prop := {
  o_computed : is_computed progress c = true;
  o_tip : forall d, d ∈ D -> is_computed progress d = false;
  o_last : c <> last;
  o_ancestors : exists A, ancestors !! c = Some A /\ last ∉ A;
  o_root : r < c }.

Lemma skip_other_fork last r c D :
  skip_candidate ancestors progress last r c D = Ok false <-> other_fork last r c D.
Proof.
  unfold skip_candidate, is_candidate_slot_descendant_of_last_vote.
  destruct (is_computed progress c) eqn:Ec; cbn [negb orb];
    [|split; [done|intros []; congruence]].
  destruct (existsb (is_computed progress) (elements D)) eqn:Ed; cbn [orb].
  { split; [done|]. intros [_ Ht _ _ _]. apply existsb_exists in Ed as (d & Hd & Hc).
    rewrite Ht in Hc; [done|]. by apply elem_of_elements, list_elem_of_In. }
  destruct (Z.eqb_spec c last) as [->|Hne]; [split; [done|intros []; done]|].
  destruct (ancestors !! c) as [A|] eqn:EA; cbn;
    [|split; [done|intros [_ _ _ (A & EA' & _) _]; congruence]].
  split.
  - intros E%(f_equal (value_or true)). cbn [value_or] in E.
    apply orb_false_iff in E as [E1%bool_decide_eq_false E2%Z.leb_gt].
    split; [done| |done|by exists A|lia]. intros d Hd. apply not_true_iff_false. intros Hc.
    rewrite <- not_true_iff_false in Ed. apply Ed, existsb_exists. exists d.
    split; [|done]. apply list_elem_of_In. by apply elem_of_elements.
  - intros [_ _ _ (A' & EA' & Hn) Hr]. assert (A' = A) as -> by congruence.
    rewrite bool_decide_false by done. cbn. f_equal. by apply Z.leb_gt.
Qed.

(** Validator [k] has a vote on another fork that it is locked out from
    abandoning at the last vote, or voted in gossip for a newer slot of one. *)
Definition locked_out_elsewhere (lva : gset Slot) (last r : Slot) (k : Pubkey) : Prop :=
  (exists c D stats e l start,
     descendants !! c = Some D /\ other_fork last r c D /\ progress !! c = Some stats /\
     fs_lockout_intervals stats !! e = Some l /\ (start, k) ∈ l /\
     last <= e /\ r < start /\ start ∉ lva) \/
  (exists s hs A, max_gossip_frozen_votes latest !! k = Some (s, hs) /\ last < s /\
     ancestors !! s = Some A /\ last ∉ A).

Lemma interval_items_exact lva r l k :
  (true, k) ∈ interval_items lva r l <-> exists start, (start, k) ∈ l /\ r < start /\ start ∉ lva.
Proof.
  unfold interval_items. rewrite list_elem_of_fmap. split.
  - intros ([start k'] & [= E ->] & Hin). symmetry in E. to_prop. exists start.
    split_and!; [done|lia|done].
  - intros (start & Hin & Hr & Hn). exists (start, k). split; [|done]. cbn.
    rewrite bool_decide_false by done. by rewrite (proj2 (Z.ltb_lt _ _) Hr).
Qed.

Lemma candidate_items_exact lva last r c D k :
  (true, k) ∈ candidate_items lva last r (c, D) <->
  other_fork last r c D /\ exists stats e l start, progress !! c = Some stats /\
    fs_lockout_intervals stats !! e = Some l /\ (start, k) ∈ l /\ last <= e /\ r < start /\ start ∉ lva.
Proof.
  rewrite candidate_items_eq, <- skip_other_fork.
  assert (Hnil : (true, k) ∈ [] <-> False) by (split; [apply not_elem_of_nil|done]).
  destruct (skip_candidate _ _ _ _ _ _) as [[|]| |]; try (rewrite Hnil; split; [done|by intros [? _]]).
  destruct (progress !! c) as [stats|]; [|rewrite Hnil; split; [done|by intros (_ & ? & _ & _ & _ & ? & _)]].
  rewrite list_elem_of_bind. split.
  - intros ([e l] & (start & Hin & Hr & Hn)%interval_items_exact & [Hle He]%list_elem_of_filter).
    rewrite sorted_entries_Permutation, elem_of_map_to_list in He. split; [done|].
    exists stats, e, l, start. auto 10.
  - intros (_ & ? & e & l & start & [= <-] & He & Hin & Hle & Hr & Hn). exists (e, l).
    split; [apply interval_items_exact; by exists start|].
    apply list_elem_of_filter. split; [done|]. by rewrite sorted_entries_Permutation, elem_of_map_to_list.
Qed.

Lemma gossip_item_exact last k s hs k' :
  gossip_item last (k', (s, hs)) = (true, k) <->
  k = k' /\ last < s /\ exists A, ancestors !! s = Some A /\ last ∉ A.
Proof.
  unfold gossip_item, is_candidate_slot_descendant_of_last_vote. cbn [fst snd]. split.
  - intros [= E ->]. split; [done|]. apply andb_true_iff in E as [E1%Z.ltb_lt E2].
    destruct (ancestors !! s) as [A|]; [|done]. cbn in E2. to_prop. eauto.
  - intros (-> & Hl & A & -> & Hn). cbn. rewrite bool_decide_false by done.
    by rewrite (proj2 (Z.ltb_lt _ _) Hl).
Qed.

Lemma items_exact lva last r k :
  (true, k) ∈ items lva last r <-> locked_out_elsewhere lva last r k.
Proof.
  unfold items, locked_out_elsewhere. rewrite elem_of_app, list_elem_of_bind, list_elem_of_fmap.
  f_equiv.
  - split.
    + intros ([c D] & (Hf & stats & e & l & start & H)%candidate_items_exact & HD%elem_of_map_to_list).
      exists c, D, stats, e, l, start. tauto.
    + intros (c & D & stats & e & l & start & HD & Hf & H). exists (c, D).
      rewrite elem_of_map_to_list. split; [|done]. apply candidate_items_exact. eauto 10.
  - split.
    + intros ([k' [s hs]] & E & Hin%elem_of_map_to_list). symmetry in E.
      apply gossip_item_exact in E as (-> & Hl & A & HA & Hn). eauto 10.
    + intros (s & hs & A & Hk & Hl & HA & Hn). exists (k, (s, hs)).
      rewrite elem_of_map_to_list. split; [|done]. symmetry. apply gossip_item_exact. eauto.
Qed.

(** A proof to switch has the stake of validators locked out elsewhere behind
    it; a refusal reports all of their stake. *)
Lemma locked_out_decision lva last r d :
  tally_locked_out ancestors descendants progress total_stake epoch_vote_accounts latest lva last r = Ok d ->
  (exists S, d = SwitchProof Hash_default /\ (forall k, k ∈ S -> locked_out_elsewhere lva last r k) /\
     exceeds SWITCH_FORK_THRESHOLD (set_stake S) total_stake = true) \/
  (exists S, d = FailedSwitchThreshold (set_stake S) total_stake /\
     (forall k, k ∈ S <-> locked_out_elsewhere lva last r k) /\
     (S = ∅ \/ exceeds SWITCH_FORK_THRESHOLD (set_stake S) total_stake = false)).
Proof.
  intros ->%tally_locked_out_scan.
  pose proof (scan_exact (locked_out_elsewhere lva last r) (items lva last r)) as H.
  specialize (H ltac:(intros b k Hin ->; by apply items_exact) (0, ∅)).
  assert (H0 : exact (locked_out_elsewhere lva last r) (0, ∅)).
  { split; [by vm_compute|set_solver|by left]. }
  specialize (H H0). destruct (scan _ _) as [[stake S]|].
  - right. destruct H as ([Hs Ha Hb] & _ & Hall). cbn in *. exists S. subst stake.
    split_and!; [done| |done]. intros k. split; [apply Ha|]. intros Hk. by apply Hall, items_exact.
  - left. destruct H as (S & HS & Hx). exists S. split_and!; [reflexivity|exact HS|exact Hx].
Qed.
End Scan.
