(* ===== verification/ConsensusStakes.v ===== *)
(** * The stakes voted for the slots of a fork

    What [collect_vote_lockouts] computes for a bank: for every slot the stake
    of the accounts whose vote stands for it at the bank, the total stake, the
    weight and the intervals of the lockouts. *)

From stdpp Require Import base gmap list fin_maps strings.
From Stdlib Require Import ZArith Lia SpecFloat.
From S2P Require Import Prelude Sdk MapOrder VoteState VoteInstruction StakesCache ForkChoice LatestVotes Consensus ConsensusProofs ConsensusSwitch.
Import VotesForFrozenBanks.

(** The newest vote that is still locked out at [s]. *)
Definition standing_vote (vs : VoteState) (s : Slot) : option Slot :=
  slot <$> last (pop_expired_votes (votes vs) s).

Lemma nth_recent_slot vs n :
  slot <$> nth_recent_vote vs n = reverse (tower vs) !! n.
Proof.
  unfold nth_recent_vote, tower. destruct (Nat.ltb_spec n (length (votes vs))) as [Hn|Hn].
  - rewrite reverse_lookup by (by rewrite length_fmap). rewrite list_lookup_fmap, length_fmap.
    do 2 f_equal. lia.
  - symmetry. apply lookup_ge_None. by rewrite length_reverse, length_fmap.
Qed.

Lemma voted_recent vs s :
  already_voted (last_voted_slot vs) s = false ->
  slot <$> nth_recent_vote (voted vs s) 0 = Some s /\
  slot <$> nth_recent_vote (voted vs s) 1 = standing_vote vs s.
Proof.
  intros Hn. rewrite !nth_recent_slot.
  assert (Hl : forall l : list Lockout, reverse (slot <$> l) !! 0%nat = slot <$> last l).
  { intros l. rewrite <- head_lookup, <- last_reverse, reverse_involutive. apply fmap_last. }
  destruct (next_vote_split vs s Hn) as (kept & popped & _ & Ek & _ & [[_ ->]|(w & rest & Er & Hne & _ & ->)]).
  - rewrite reverse_snoc. split; [done|]. cbn. rewrite Hl. unfold standing_vote. by rewrite Ek.
  - rewrite reverse_snoc. split; [done|]. cbn. rewrite Hl. unfold standing_vote. rewrite <- Ek, Er.
    by destruct rest.
Qed.

(** ** Sums per slot *)
Abbreviation ranged m := (forall s, 0 <= default 0 ((m : VotedStakes) !! s) <= u64_max).

Lemma add_voted_lookup m s stake s' : ranged m ->
  default 0 (add_voted m s stake !! s') =
  wrapping_add u64_max (default 0 (m !! s')) (if decide (s' = s) then stake else 0).
Proof.
  intros Hm. unfold add_voted. rewrite lookup_insert.
  destruct (decide (s = s')) as [->|Hne]; [by rewrite decide_True by done|].
  rewrite decide_False by done. unfold wrapping_add. rewrite Z.add_0_r. symmetry. by apply wrap_small.
Qed.

Lemma add_voted_ranged m s stake : ranged m -> ranged (add_voted m s stake).
Proof. intros Hm s'. rewrite add_voted_lookup by done. apply wrap_range. unfold_max. lia. Qed.

Lemma add_voted_all l stake : NoDup l -> forall m s, ranged m ->
  default 0 (foldl (fun m s => add_voted m s stake) m l !! s) =
  wrapping_add u64_max (default 0 (m !! s)) (if decide (s ∈ l) then stake else 0).
Proof.
  induction 1 as [|x l Hx _ IH]; intros m s Hm; cbn [foldl].
  { rewrite decide_False by set_solver. unfold wrapping_add. rewrite Z.add_0_r. symmetry. by apply wrap_small. }
  rewrite IH by (by apply add_voted_ranged). rewrite add_voted_lookup by done.
  unfold wrapping_add at 2. rewrite wrapping_add_wrap by (unfold_max; lia).
  unfold wrapping_add. f_equal. destruct (decide (s = x)) as [->|].
  - rewrite decide_False by done. rewrite decide_True by set_solver. lia.
  - destruct (decide (s ∈ l)); [rewrite decide_True by set_solver|rewrite decide_False by set_solver]; lia.
Qed.

Lemma or_default_lookup m s s' : default 0 (or_default m s !! s') = default 0 (m !! s').
Proof.
  unfold or_default. destruct (m !! s) eqn:E; [done|]. rewrite lookup_insert.
  destruct (decide (s = s')) as [<-|]; [by rewrite E|done].
Qed.

Lemma populate_lookup ancestors l : forall m s,
  default 0 (populate_ancestor_voted_stakes m l ancestors !! s) = default 0 (m !! s).
Proof.
  assert (Hf : forall k m s, default 0 (foldl or_default m k !! s) = default 0 (m !! s)).
  { intros k. induction k as [|x k IH]; intros m s; cbn; [done|]. by rewrite IH, or_default_lookup. }
  unfold populate_ancestor_voted_stakes. induction l as [|x l IH]; intros m s; cbn; [done|].
  rewrite IH. destruct (ancestors !! x); [|done]. by rewrite Hf, or_default_lookup.
Qed.

(** ** One account *)
Section Collected.
Context (decode_vote : list Z -> option VoteStateVersions).
Context (vote_account_pubkey : Pubkey) (bank_slot : Slot) (ancestors : Ancestors).
Context (get_frozen_hash : Slot -> option Hash).

(** The vote of [vs] that stands at the bank is for [s] or a slot after it. *)
Definition supports (vs : VoteState) (s : Slot) : bool :=
  match standing_vote vs bank_slot with
  | Some x =>
      match ancestors !! x with
      | Some A => bool_decide (s = x) || bool_decide (s ∈ (A : gset Slot))
      | None => false
      end
  | None => false
  end.

Abbreviation Entry := (Pubkey * (Z * AccountSharedData))%type.
Abbreviation state_of e := (vote_state decode_vote (e : Entry).2.2).

(** What an account adds to the stake of [s], to the total stake and to the
    weight of the bank. *)
Definition stake_for (s : Slot) (e : Entry) : Z :=
  match state_of e with Some vs => if supports vs s then e.2.1 else 0 | None => 0 end.
Definition live_stake (e : Entry) : Z :=
  match state_of e with Some _ => e.2.1 | None => 0 end.
Definition weight_of (e : Entry) : Z :=
  match state_of e with
  | Some vs => lsum (fun v => lockout v * e.2.1) (weighed_votes (root_slot vs) (voted vs bank_slot))
  | None => 0
  end.
(** An account of [l] has a vote for [start] with a lockout until [e]. *)
Definition has_interval (l : list Entry) (e start : Slot) (k : Pubkey) : Prop :=
  exists stake a vs v, (k, (stake, a)) ∈ l /\ stake <> 0 /\ vote_state decode_vote a = Some vs /\
    v ∈ votes vs /\ slot v = start /\ last_locked_out_slot v = e.

Record collected (l : list Entry) (acc : Collected) : Prop := {
  g_stakes : forall s, default 0 (c_voted_stakes acc !! s) = wrap u64_max (lsum (stake_for s) l);
  g_total : c_total_stake acc = wrap u64_max (lsum live_stake l);
  g_weight : c_bank_weight acc = wrap u128_max (lsum weight_of l);
  g_intervals : forall e start k,
    (start, k) ∈ default [] (c_lockout_intervals acc !! e) <-> has_interval l e start k }.

Context (anc_irrefl : forall x A, ancestors !! x = Some A -> x ∉ A).

Lemma update_lookup m x stake s : ranged m ->
  default 0 (update_ancestor_voted_stakes m x stake ancestors !! s) =
  wrapping_add u64_max (default 0 (m !! s))
    (match ancestors !! x with
     | Some A => if bool_decide (s = x) || bool_decide (s ∈ (A : gset Slot)) then stake else 0
     | None => 0
     end).
Proof.
  intros Hm. unfold update_ancestor_voted_stakes. destruct (ancestors !! x) as [A|] eqn:EA.
  - rewrite add_voted_all by (apply NoDup_elements || by apply add_voted_ranged).
    rewrite add_voted_lookup by done. unfold wrapping_add at 2. rewrite wrapping_add_wrap by (unfold_max; lia).
    unfold wrapping_add. f_equal. apply anc_irrefl in EA.
    destruct (decide (s = x)) as [->|]; cbn.
    + rewrite decide_False by (by rewrite elem_of_elements). rewrite bool_decide_true by done. cbn. lia.
    + rewrite (bool_decide_false (s = x)) by done. cbn.
      destruct (decide (s ∈ elements A)) as [Hs|Hs]; rewrite elem_of_elements in Hs.
      * rewrite bool_decide_true by done. lia.
      * rewrite bool_decide_false by done. lia.
  - unfold wrapping_add. rewrite Z.add_0_r. symmetry. by apply wrap_small.
Qed.

Lemma add_intervals key vo : forall m e start k,
  (start, k) ∈ default [] (foldl (add_interval key) m vo !! e) <->
  (start, k) ∈ default [] (m !! e) \/
  (k = key /\ exists v, v ∈ vo /\ slot v = start /\ last_locked_out_slot v = e).
Proof.
  induction vo as [|v vo IH]; intros m e start k; cbn [foldl]; [set_solver|].
  rewrite IH. unfold add_interval. rewrite lookup_insert.
  destruct (decide (last_locked_out_slot v = e)) as [<-|Hne]; cbn.
  - rewrite elem_of_app, list_elem_of_singleton. set_solver.
  - set_solver.
Qed.

Lemma add_weights stake vo : forall w W, w = wrap u128_max W ->
  foldl (add_weight stake) w vo = wrap u128_max (W + lsum (fun v => lockout v * stake) vo).
Proof.
  induction vo as [|v vo IH]; intros w W ->; cbn [foldl lsum]; [f_equal; lia|].
  erewrite IH; [|unfold add_weight; apply wrapping_add_wrap; unfold_max; lia]. f_equal. lia.
Qed.

(** ** The loop *)
Abbreviation below e := (forall vs, state_of e = Some vs ->
  already_voted (last_voted_slot vs) bank_slot = false).

Lemma collected_ranged l acc : collected l acc -> ranged (c_voted_stakes acc).
Proof. intros Hc s. rewrite (g_stakes _ _ Hc). apply wrap_range. unfold_max. lia. Qed.

Lemma lsum_snoc {A} (f : A -> Z) l x : lsum f (l ++ [x]) = lsum f l + f x.
Proof. rewrite lsum_app. cbn. lia. Qed.

(** An account without stake or without a vote state adds nothing. *)
Lemma collected_skip l acc (e : Entry) :
  e.2.1 = 0 \/ state_of e = None -> collected l acc -> collected (l ++ [e]) acc.
Proof.
  intros He [Hs Ht Hw Hi].
  assert (Hz : (forall s, stake_for s e = 0) /\ live_stake e = 0 /\ weight_of e = 0).
  { unfold stake_for, live_stake, weight_of. destruct (state_of e) as [vs|]; [|done].
    destruct He as [->|]; [|done]. split_and!; [intros s; by destruct (supports vs s)|done|].
    apply lsum_zero. intros v _. lia. }
  destruct Hz as (Hz1 & Hz2 & Hz3). split; [intros s; rewrite Hs|rewrite Ht|rewrite Hw|].
  1-3: rewrite lsum_snoc, ?Hz1, ?Hz2, ?Hz3; f_equal; lia.
  intros t start k. rewrite Hi. unfold has_interval. split.
  - intros (stake & a & vs & v & Hin & H). exists stake, a, vs, v. split; [set_solver|done].
  - intros (stake & a & vs & v & [Hin|Hin%list_elem_of_singleton]%elem_of_app & Hne & Hv & H);
      [by exists stake, a, vs, v|]. subst e. cbn in He. destruct He as [?|He]; congruence.
Qed.

Lemma latest_step seen latest key o :
  tracks seen latest ->
  exists seen' latest',
    match o with
    | Some s => '(_, _, latest) ← check_add_vote latest key s (get_frozen_hash s) true; Ok latest
    | None => Ok latest
    end = Ok latest' /\ tracks seen' latest'.
Proof.
  intros Ht. destruct o as [s|]; [|by exists seen, latest].
  destruct (observe_tracks seen latest (VoteSeen key s (get_frozen_hash s) true) Ht) as (latest' & E & Ht').
  by eexists _, latest'.
Qed.

Lemma collect_account_step l seen acc (e : Entry) :
  collected l acc -> tracks seen (c_latest_votes acc) -> below e ->
  exists seen' acc',
    collect_account decode_vote vote_account_pubkey bank_slot ancestors get_frozen_hash acc e = Ok acc' /\
    collected (l ++ [e]) acc' /\ tracks seen' (c_latest_votes acc').
Proof.
  intros Hc Ht Hb. destruct e as [key [stake a]]. unfold collect_account.
  destruct (Z.eqb_spec stake 0) as [->|Hne].
  { exists seen, acc. split_and!; [done|apply collected_skip; auto|done]. }
  destruct (vote_state decode_vote a) as [vs|] eqn:Ev; cycle 1.
  { exists seen, acc. split_and!; [done|apply collected_skip; auto|done]. }
  specialize (Hb vs Ev). destruct (voted_recent vs bank_slot Hb) as [H0 H1].
  destruct (latest_step seen (c_latest_votes acc) key (last_voted_slot vs) Ht) as (seen' & latest' & -> & Ht').
  cbn [mbind result_bind]. rewrite process_slot_vote_voted. cbn [infallible mbind result_bind].
  rewrite H0, (bool_decide_true (Some bank_slot = Some bank_slot)) by done. cbn [assert_ panic_unless mbind result_bind].
  eexists seen', _. split_and!; [done| |done].
  pose proof (collected_ranged _ _ Hc) as Hr. destruct Hc as [Hs Htot Hw Hi].
  assert (Es : state_of (key, (stake, a)) = Some vs) by done.
  split; cbn -[foldl weighed_votes nth_recent_vote voted stake_for live_stake weight_of].
  - intros s. rewrite lsum_snoc. unfold stake_for at 2. rewrite Es. unfold supports. rewrite <- H1.
    destruct (nth_recent_vote (voted vs bank_slot) 1) as [v|]; cbn [fmap option_fmap option_map].
    + rewrite update_lookup by done. rewrite Hs, wrapping_add_wrap by (unfold_max; lia). f_equal.
      destruct (ancestors !! slot v); cbn; lia.
    + rewrite Hs. f_equal. lia.
  - rewrite Htot, lsum_snoc. unfold live_stake at 3. rewrite Es. cbn. apply wrapping_add_wrap. unfold_max. lia.
  - rewrite lsum_snoc. unfold weight_of at 2. rewrite Es. cbn [fst snd]. by apply add_weights.
  - intros t start k. rewrite add_intervals, Hi. unfold has_interval. split.
    + intros [(stake' & a' & vs' & v & Hin & H)|(-> & v & Hv)].
      * exists stake', a', vs', v. split; [set_solver|done].
      * exists stake, a, vs, v. split_and!; [set_solver|done|done|tauto|tauto|tauto].
    + intros (stake' & a' & vs' & v & [Hin|Hin%list_elem_of_singleton]%elem_of_app & H).
      * left. by exists stake', a', vs', v.
      * injection Hin as -> -> ->. right. destruct H as (_ & Ev' & H).
        assert (vs' = vs) as -> by congruence. eauto.
Qed.

Lemma collect_accounts_loop k : forall l seen acc,
  collected l acc -> tracks seen (c_latest_votes acc) -> Forall (fun e => below e) k ->
  exists seen' acc',
    collect_accounts decode_vote vote_account_pubkey bank_slot ancestors get_frozen_hash acc k = Ok acc' /\
    collected (l ++ k) acc' /\ tracks seen' (c_latest_votes acc').
Proof.
  induction k as [|e k IH]; intros l seen acc Hc Ht Hb; cbn.
  { exists seen, acc. by rewrite app_nil_r. }
  apply Forall_cons in Hb as [He Hb].
  destruct (collect_account_step l seen acc e Hc Ht He) as (seen1 & acc1 & -> & Hc1 & Ht1). cbn.
  destruct (IH _ _ _ Hc1 Ht1 Hb) as (seen' & acc' & -> & Hc' & Ht'). exists seen', acc'.
  by rewrite <- app_assoc in Hc'.
Qed.

Lemma collected_empty latest :
  collected [] {| c_vote_slots := ∅; c_voted_stakes := ∅; c_total_stake := 0; c_bank_weight := 0;
                  c_lockout_intervals := ∅; c_my_latest_landed_vote := None; c_latest_votes := latest |}.
Proof.
  split; [done|done|done|]. cbn. intros e start k. rewrite lookup_empty. cbn.
  split; [set_solver|]. intros (? & ? & ? & ? & ? & _). set_solver.
Qed.

Lemma collect_vote_lockouts_exact vote_accounts seen latest :
  tracks seen latest -> Forall (fun e => below e) (map_to_list vote_accounts) ->
  exists cbs latest',
    collect_vote_lockouts decode_vote vote_account_pubkey bank_slot ancestors get_frozen_hash
      vote_accounts latest = Ok (cbs, latest') /\
    (forall s, default 0 (voted_stakes cbs !! s) =
       wrap u64_max (lsum (stake_for s) (map_to_list vote_accounts))) /\
    cbs_total_stake cbs = wrap u64_max (lsum live_stake (map_to_list vote_accounts)) /\
    bank_weight cbs = wrap u128_max (lsum weight_of (map_to_list vote_accounts)) /\
    forall e start k, (start, k) ∈ default [] (lockout_intervals cbs !! e) <->
      has_interval (map_to_list vote_accounts) e start k.
Proof.
  intros Ht Hb. unfold collect_vote_lockouts.
  destruct (collect_accounts_loop _ [] seen _ (collected_empty latest) Ht Hb) as (seen' & acc & -> & Hc & _).
  destruct Hc as [Hs Htot Hw Hi]. cbn. eexists _, _. split; [done|]. cbn.
  split_and!; [|done|done|done]. intros s. by rewrite populate_lookup.
Qed.
End Collected.
