(* ===== verification/ConsensusRestart.v ===== *)
(** * Restarts

    The saved tower of a validator is adjusted to the history of the replayed
    slots.  The loop of [adjust_lockouts_with_slot_history] goes through three
    phases, newest slot first: slots not yet in the history, slots found there,
    the first of which is the anchor, and slots too old for it. *)

From stdpp Require Import base gmap list fin_maps strings.
From Stdlib Require Import ZArith Lia SpecFloat.
From S2P Require Import Prelude Sdk MapOrder VoteState StakesCache SlotHistory ForkChoice LatestVotes Consensus.
Import Tower.

(** The votes of the first phase are kept. *)
Abbreviation flags_of missing rest :=
  (replicate (length missing) true ++ replicate (S (length rest)) false).

Section Phases.
Context (h : SlotHistory) (r : Slot).
Abbreviation check := (History.check h).

(** The order of the slots, newest first; only the root may repeat a vote. *)
Fixpoint descending (c : option Slot) (l : list Slot) : Prop :=
  match l with
  | [] => True
  | s :: l =>
      match c with Some c => (s = c /\ s = r) \/ s < c | None => True end /\ descending (Some s) l
  end.

Abbreviation state flags future outside c anchor :=
  {| retain_flags := flags; still_in_future := future; past_outside_history := outside;
     checked_slot := c; anchored_slot := anchor |}.

Lemma ordered_step c s :
  match c with Some c => (s =? c) && (s =? r) || (s <? c) | None => true end = true <->
  match c with Some c => (s = c /\ s = r) \/ s < c | None => True end.
Proof. destruct c as [c|]; [|done]. rewrite orb_true_iff, andb_true_iff, !Z.eqb_eq, Z.ltb_lt. done. Qed.

(** The step from each phase. *)
Lemma step_old flags c a s acc :
  adjust_slot h r (state flags false true c (Some a)) s = Ok acc <->
  check s = TooOld /\ descending c [s] /\ acc = state (flags ++ [false]) false true (Some s) (Some a).
Proof.
  unfold adjust_slot. cbn. rewrite <- (ordered_step c s).
  destruct (check s) eqn:Ec; cbn; try (split; [done|by intros (? & _)]).
  destruct (match c with Some _ => _ | None => _ end); cbn; naive_solver.
Qed.

Lemma step_found flags c a s acc :
  adjust_slot h r (state flags false false c (Some a)) s = Ok acc <->
  (check s = Found \/ check s = TooOld) /\ descending c [s] /\
  acc = state (flags ++ [false]) false (bool_decide (check s = TooOld)) (Some s) (Some a).
Proof.
  unfold adjust_slot. cbn. rewrite <- (ordered_step c s).
  destruct (check s) eqn:Ec; cbn; try (split; [done|by intros ([?|?] & _)]);
  destruct (match c with Some _ => _ | None => _ end); cbn; naive_solver.
Qed.

Lemma step_missing flags c (future : bool) s acc :
  adjust_slot h r (state flags future false c None) s = Ok acc <->
  (check s = Future -> future = true) /\ descending c [s] /\
  acc = state (flags ++ [negb (bool_decide (check s = Found))]) (bool_decide (check s = Future))
          (bool_decide (check s = TooOld)) (Some s)
          (if bool_decide (check s = Found) then Some s else None).
Proof.
  unfold adjust_slot. cbn. rewrite <- (ordered_step c s).
  destruct (check s) eqn:Ec, future; cbn; try (split; [done|intros (H & _); by discriminate H]);
  destruct (match c with Some _ => _ | None => _ end); cbn; naive_solver.
Qed.

Lemma step_lost flags c s acc :
  adjust_slot h r (state flags false true c None) s = Ok acc ->
  check s = TooOld /\ acc = state (flags ++ [true]) false true (Some s) None.
Proof.
  unfold adjust_slot. cbn. destruct (check s) eqn:Ec; cbn; try done.
  destruct (match c with Some _ => _ | None => _ end); cbn; naive_solver.
Qed.

(** ** The loop *)
Abbreviation ends acc l fl a :=
  (exists acc', adjust_slots h r acc l = Ok acc' /\ anchored_slot acc' = Some a /\ retain_flags acc' = fl).

Lemma ends_cons acc s l fl a :
  ends acc (s :: l) fl a <-> exists acc1, adjust_slot h r acc s = Ok acc1 /\ ends acc1 l fl a.
Proof.
  cbn. split.
  - intros (acc' & H & Ha & Hf). inv_ok. eauto 10.
  - intros (acc1 & H1 & acc' & H & Ha). rewrite H1. eauto.
Qed.

Lemma ends_old l : forall flags c a fl,
  ends (state flags false true c (Some a)) l fl a <->
  Forall (fun s => check s = TooOld) l /\ descending c l /\ fl = flags ++ replicate (length l) false.
Proof.
  induction l as [|s l IH]; intros flags c a fl.
  { cbn. rewrite app_nil_r. split; [intros (? & [= <-] & _ & <-); auto|]. intros (_ & _ & ->). eauto. }
  rewrite ends_cons, Forall_cons. cbn [descending length replicate]. split.
  - intros (acc1 & (Hs & [Hd _] & ->)%step_old & (Hl & Hdl & ->)%IH). by rewrite <- app_assoc.
  - intros ([Hs Hl] & [Hd Hdl] & ->). exists (state (flags ++ [false]) false true (Some s) (Some a)).
    rewrite step_old, IH, <- app_assoc. by cbn.
Qed.

Lemma ends_found l : forall flags c a fl,
  ends (state flags false false c (Some a)) l fl a <->
  exists found old, l = found ++ old /\ Forall (fun s => check s = Found) found /\
    Forall (fun s => check s = TooOld) old /\ descending c l /\ fl = flags ++ replicate (length l) false.
Proof.
  induction l as [|s l IH]; intros flags c a fl.
  { cbn. rewrite app_nil_r. split; [intros (? & [= <-] & _ & <-)|].
    - exists [], []. auto.
    - intros (_ & _ & _ & _ & _ & _ & ->). eauto. }
  rewrite ends_cons. cbn [length replicate]. split.
  - intros (acc1 & ([Hs|Hs] & [Hd _] & ->)%step_found & H); rewrite Hs in H.
    + rewrite (bool_decide_false (Found = TooOld)) in H by done.
      apply IH in H as (found & old & -> & Hf & Ho & Hdl & ->). exists (s :: found), old.
      rewrite <- app_assoc. split_and!; [done|by constructor|done|done|done].
    + rewrite (bool_decide_true (TooOld = TooOld)) in H by done.
      apply ends_old in H as (Ho & Hdl & ->). exists [], (s :: l).
      rewrite <- app_assoc. split_and!; [done|done|by constructor|done|done].
  - intros (found & old & E & Hf & Ho & Hd & ->).
    assert (Hs : check s = Found \/ check s = TooOld).
    { destruct found as [|x found]; [rewrite app_nil_l in E; subst old; apply Forall_cons in Ho as [? _]; auto|].
      injection E as <- _. apply Forall_cons in Hf as [? _]. auto. }
    destruct Hd as [Hd Hdl]. eexists. rewrite step_found. split; [split_and!; [done|done|done]|].
    destruct found as [|x found].
    + rewrite app_nil_l in E. subst old. apply Forall_cons in Ho as [-> Ho].
      rewrite bool_decide_true by done. apply ends_old. by rewrite <- app_assoc.
    + injection E as <- ->. apply Forall_cons in Hf as [-> Hf]. rewrite bool_decide_false by done.
      apply IH. exists found, old. by rewrite <- app_assoc.
Qed.

(** The shape of a tower that can be adjusted, with its anchor. *)
Record phases (future : bool) (l missing : list Slot) (a : Slot) (found old : list Slot) : Prop := {
  p_slots : l = missing ++ a :: found ++ old;
  p_missing : exists ahead unseen, missing = ahead ++ unseen /\ (ahead = [] \/ future = true) /\
    Forall (fun s => check s = Future) ahead /\ Forall (fun s => check s = NotFound) unseen;
  p_anchor : check a = Found;
  p_found : Forall (fun s => check s = Found) found;
  p_old : Forall (fun s => check s = TooOld) old }.

Lemma ends_lost l : forall flags c fl a, ~ ends (state flags false true c None) l fl a.
Proof.
  induction l as [|s l IH]; intros flags c fl a.
  - intros (acc' & [= <-] & [=] & _).
  - rewrite ends_cons. intros (acc1 & (_ & ->)%step_lost & H). by apply IH in H.
Qed.

Lemma anchor_kept l : forall acc b fl a, anchored_slot acc = Some b -> ends acc l fl a -> a = b.
Proof.
  induction l as [|s l IH]; intros acc b fl a Hb.
  - intros (acc' & [= <-] & Ha & _). congruence.
  - rewrite ends_cons. intros (acc1 & H1 & H). apply (IH acc1 b fl a); [|done].
    unfold adjust_slot in H1. rewrite Hb in H1. inv_ok. done.
Qed.

Lemma phases_anchor future a l found old :
  l = found ++ old -> check a = Found -> Forall (fun s => check s = Found) found ->
  Forall (fun s => check s = TooOld) old -> phases future (a :: l) [] a found old.
Proof. intros -> Ha Hf Ho. split; [done| |done|done|done]. exists [], []. auto. Qed.

Lemma phases_cons (future future' : bool) s l missing a found old :
  (check s = NotFound /\ future' = false) \/ (check s = Future /\ future = true /\ future' = true) ->
  phases future' l missing a found old -> phases future (s :: l) (s :: missing) a found old.
Proof.
  intros Hs [-> (ahead & unseen & -> & Hfut & Ha & Hu) Hc Hf Ho]. split; [done| |done|done|done].
  destruct Hs as [[Hs ->]|(Hs & -> & ->)].
  - destruct Hfut as [->|]; [|done]. exists [], (s :: unseen). split_and!; [done|auto|done|by constructor].
  - exists (s :: ahead), unseen. split_and!; [done|auto|by constructor|done].
Qed.

Lemma phases_inv future s l missing a found old :
  phases future (s :: l) missing a found old ->
  (missing = [] /\ s = a /\ l = found ++ old) \/
  exists rest, missing = s :: rest /\
    ((check s = NotFound /\ phases false l rest a found old) \/
     (check s = Future /\ future = true /\ phases true l rest a found old)).
Proof.
  intros [E (ahead & unseen & -> & Hfut & Ha & Hu) Hc Hf Ho].
  destruct ahead as [|x ahead]; [destruct unseen as [|x unseen]|].
  - left. by injection E as -> ->.
  - right. injection E as <- ->. apply Forall_cons in Hu as [? Hu]. exists unseen. split; [done|]. left.
    split; [done|]. split; [done| |done|done|done]. exists [], unseen. auto.
  - right. injection E as <- ->. apply Forall_cons in Ha as [? Ha]. exists (ahead ++ unseen).
    split; [done|]. right. destruct Hfut as [|Hfut]; [done|]. split_and!; [done|done|].
    split; [done| |done|done|done]. exists ahead, unseen. auto.
Qed.


Lemma ends_missing l : forall flags (future : bool) c fl a,
  ends (state flags future false c None) l fl a <->
  descending c l /\ exists missing found old, phases future l missing a found old /\
    fl = flags ++ flags_of missing (found ++ old).
Proof.
  induction l as [|s l IH]; intros flags future c fl a.
  { cbn. split; [intros (acc' & [= <-] & [=] & _)|].
    intros (_ & missing & found & old & [E _ _ _ _] & _). by destruct missing. }
  rewrite ends_cons. split.
  - intros (acc1 & (Hfut & [Hd _] & ->)%step_missing & H). destruct (check s) eqn:Hs.
    + apply IH in H as (Hdl & missing & found & old & Hp & ->). split; [done|].
      exists (s :: missing), found, old. split; [|by rewrite <- app_assoc].
      eapply phases_cons; [|done]. right. auto.
    + by apply ends_lost in H.
    + assert (a = s) as -> by (by eapply anchor_kept in H).
      apply ends_found in H as (found & old & El & Hf & Ho & Hdl & ->). split; [done|].
      exists [], found, old. split; [by apply phases_anchor|]. rewrite <- app_assoc. by rewrite El.
    + apply IH in H as (Hdl & missing & found & old & Hp & ->). split; [done|].
      exists (s :: missing), found, old. split; [|by rewrite <- app_assoc].
      eapply phases_cons; [|done]. left. auto.
  - intros ([Hd Hdl] & missing & found & old & Hp & ->).
    destruct (phases_inv _ _ _ _ _ _ _ Hp) as [(-> & -> & ->)|(rest & -> & [[Hs Hp']|(Hs & -> & Hp')])].
    + destruct Hp as [_ _ Hc Hf Ho]. eexists. rewrite step_missing, Hc. split; [split_and!; [done|done|done]|].
      apply ends_found. exists found, old. rewrite <- app_assoc. auto.
    + eexists. rewrite step_missing, Hs. split; [split_and!; [done|done|done]|]. apply IH. split; [done|].
      exists rest, found, old. rewrite <- app_assoc. auto.
    + eexists. rewrite step_missing, Hs. split; [split_and!; [done|done|done]|]. apply IH. split; [done|].
      exists rest, found, old. rewrite <- app_assoc. auto.
Qed.
End Phases.

(** ** The adjusted tower *)
Lemma retain_flags_split (n m : nat) : forall vo : list Lockout, length vo = (n + m)%nat ->
  retain_flagged vo (replicate n false ++ replicate m true) = Ok (drop n vo).
Proof.
  assert (Hall : forall m (vo : list Lockout), length vo = m -> retain_flagged vo (replicate m true) = Ok vo).
  { intros k vo <-. induction vo as [|v vo IH]; cbn; [done|]. by rewrite IH. }
  induction n as [|n IH]; intros vo Hl; [by apply Hall|].
  destruct vo as [|v vo]; [done|]. cbn. rewrite IH by (cbn in Hl; lia). done.
Qed.

Lemma removelast_flags (n m : nat) :
  reverse (removelast (replicate n true ++ replicate (S m) false)) = replicate m false ++ replicate n true.
Proof.
  rewrite replicate_S_end, app_assoc, removelast_last, reverse_app, !reverse_replicate. done.
Qed.

(** The tower after a restart that keeps the votes [kept]. *)
Definition keep_votes (self : Tower.t) (kept : list Lockout) : Tower.t :=
  let self' := with_vote_state self (with_votes (vote_state self) kept) in
  match last kept with
  | None => with_last_vote self' Vote_default (last_timestamp self) (stray_restored_slot self)
  | Some v => with_last_vote self' (last_vote self) (last_timestamp self) (Some (slot v))
  end.

Section Retain.
Context (self : Tower.t) (r : Slot) (h : SlotHistory) (missing : list Slot) (a : Slot) (found old : list Slot).
Context (Hp : phases h true (reverse (r :: voted_slots self)) missing a found old).

Lemma retain_length :
  length (votes (vote_state self)) = (length (found ++ old) + length missing)%nat.
Proof.
  destruct Hp as [E _ _ _ _]. apply (f_equal length) in E. unfold voted_slots in E.
  rewrite length_reverse, length_app in E. cbn in E. rewrite length_fmap in E. lia.
Qed.

Lemma retain_split :
  retain_flagged (votes (vote_state self))
    (reverse (removelast (replicate (length missing) true ++ replicate (S (length (found ++ old))) false)))
  = Ok (drop (length (found ++ old)) (votes (vote_state self))).
Proof. rewrite removelast_flags. apply retain_flags_split, retain_length. Qed.

(** The kept votes are the slots of the first phase. *)
Lemma kept_slots :
  slot <$> drop (length (found ++ old)) (votes (vote_state self)) = reverse missing /\
  r :: (slot <$> take (length (found ++ old)) (votes (vote_state self))) = reverse (a :: found ++ old).
Proof.
  destruct Hp as [E _ _ _ _]. apply (f_equal reverse) in E. rewrite reverse_involutive, reverse_app in E.
  unfold voted_slots in E. rewrite <- (take_drop (length (found ++ old)) (votes (vote_state self))) in E at 1.
  rewrite fmap_app, app_comm_cons in E. apply app_inj_1 in E as [E1 E2]; [by split|].
  rewrite length_reverse. cbn [length]. rewrite length_fmap, length_take, retain_length. lia.
Qed.
End Retain.

Lemma adjust_exact self h r self' :
  root_slot (vote_state self) = Some r ->
  adjust_lockouts_with_slot_history self h = Ok self' <->
  descending r None (reverse (r :: voted_slots self)) /\
  exists missing a found old,
    phases h true (reverse (r :: voted_slots self)) missing a found old /\
    let kept := drop (length (found ++ old)) (votes (vote_state self)) in
    (forall v, last kept = Some v -> last_voted_slot self = Some (slot v)) /\ self' = keep_votes self kept.
Proof.
  intros Er. unfold adjust_lockouts_with_slot_history, Tower.root. rewrite Er. cbn [unwrap mbind result_bind].
  set (l := reverse (r :: voted_slots self)).
  pose proof (ends_missing h r l [] true None) as Hends.
  set (start := Build_Adjust _ _ _ _ _) in *. split.
  - intros H. inv_ok. destruct (anchored_slot x) as [a|] eqn:Ea; [|done].
    destruct (proj1 (Hends (retain_flags x) a)) as (Hd & missing & found & old & Hp & Ef); [by exists x|].
    split; [done|]. exists missing, a, found, old. split; [done|].
    rewrite Ef in Hr2. cbn [app] in Hr2. rewrite (retain_split self r h missing a found old Hp) in Hr2.
    injection Hr2 as <-. cbv zeta. unfold keep_votes. destruct (last (drop _ _)) as [v|].
    + inv_ok. apply Z.eqb_eq in Hr3. subst x0. split; [by intros v' [= <-]|done].
    + by inv_ok.
  - intros (Hd & missing & a & found & old & Hp & Hv & ->).
    edestruct (proj2 (Hends ([] ++ flags_of missing (found ++ old)) a)) as (acc & -> & Ea & Ef); [split; [done|by exists missing, found, old]|].
    cbn [mbind result_bind]. rewrite Ea, Ef. cbn [fail_if mbind result_bind app].
    pose proof (retain_length self r h missing a found old Hp) as Hl.
    rewrite (proj2 (Nat.eqb_eq _ _)); cycle 1.
    { rewrite length_app, !length_replicate. unfold voted_slots. cbn. rewrite length_fmap. lia. }
    cbn [panic_unless mbind result_bind]. rewrite (retain_split self r h missing a found old Hp).
    cbn [mbind result_bind]. unfold keep_votes. destruct (last (drop _ _)) as [v|] eqn:El; [|done].
    change (last_voted_slot (with_vote_state ?t ?x)) with (last_voted_slot t).
    rewrite (Hv v eq_refl). cbn. by rewrite Z.eqb_refl.
Qed.

Lemma descending_above r a rest : forall missing c,
  descending r c (missing ++ a :: rest) ->
  (forall x, c = Some x -> a <= x) /\ forall x, x ∈ missing -> a <= x.
Proof.
  induction missing as [|y missing IH]; intros c [Hc Hd].
  - split; [|set_solver]. intros x ->. lia.
  - destruct (IH _ Hd) as [H1 H2]. specialize (H1 y eq_refl). split.
    + intros x ->. lia.
    + intros x [->|?]%elem_of_cons; auto.
Qed.

(** What the adjustment keeps, oldest vote first. *)
Lemma adjust_keeps self h r self' :
  root_slot (vote_state self) = Some r -> adjust_lockouts_with_slot_history self h = Ok self' ->
  exists dropped kept a,
    votes (vote_state self) = dropped ++ kept /\ self' = keep_votes self kept /\
    last (r :: (slot <$> dropped)) = Some a /\ History.check h a = Found /\
    (forall x, x ∈ r :: (slot <$> dropped) -> History.check h x = Found \/ History.check h x = TooOld) /\
    forall v, v ∈ kept ->
      a < slot v /\ (History.check h (slot v) = Future \/ History.check h (slot v) = NotFound).
Proof.
  intros Er H. apply (adjust_exact _ _ r) in H as (Hd & missing & a & found & old & Hp & _ & ->); [|done].
  destruct (kept_slots _ _ _ _ _ _ _ Hp) as [Hk Hdr].
  set (n := length (found ++ old)) in *. exists (take n (votes (vote_state self))), (drop n (votes (vote_state self))), a.
  split_and!; [by rewrite take_drop|done|by rewrite Hdr, last_reverse|apply Hp| |].
  - intros x. rewrite Hdr, elem_of_reverse, elem_of_cons, elem_of_app. destruct Hp as [_ _ Hc Hf Ho].
    rewrite Forall_forall in Hf, Ho. intros [->|[?|?]]; auto.
  - intros v Hv. apply (list_elem_of_fmap_2 slot) in Hv. rewrite Hk, elem_of_reverse in Hv.
    destruct Hp as [E (ahead & unseen & Em & _ & Ha & Hu) Hc _ _]. rewrite E in Hd.
    apply descending_above in Hd as [_ Hle]. specialize (Hle _ Hv).
    rewrite Forall_forall in Ha, Hu. assert (Hch : History.check h (slot v) = Future \/ History.check h (slot v) = NotFound).
    { subst missing. apply elem_of_app in Hv as [?|?]; auto. }
    split; [|done]. assert (slot v <> a) by (intros <-; rewrite Hc in Hch; destruct Hch; done). lia.
Qed.

Lemma keep_votes_state self kept :
  votes (vote_state (keep_votes self kept)) = kept /\
  root_slot (vote_state (keep_votes self kept)) = root_slot (vote_state self).
Proof. unfold keep_votes. by destruct (last kept). Qed.
