(* ===== verification/ConsensusTheorems.v ===== *)
(** * Theorems about the tower

    A validator that follows the checks of its tower never votes on a fork it is
    locked out of ([votes_respect_lockouts]), switches forks only if enough stake
    is locked out elsewhere ([switch_decision_exact]), counts the votes of the
    accounts of a bank exactly ([voted_stakes_exact]), and after a restart keeps
    just the votes that were not replayed ([restart_keeps_unreplayed_votes]). *)

From stdpp Require Import base gmap list fin_maps strings.
From Stdlib Require Import ZArith Lia SpecFloat.
From S2P Require Import Prelude Sdk MapOrder VoteState VoteInstruction VoteProofs StakesCache SlotHistory ForkChoice LatestVotes Consensus ConsensusProofs ConsensusSwitch ConsensusStakes ConsensusRestart.
Import SwitchForkDecision (SwitchProof, SameFork, FailedSwitchThreshold, FailedSwitchDuplicateRollback).

(** C15: A validator that votes only for slots its tower does not lock out
    never leaves a fork while its vote is locked out. In every run, of any
    two votes the earlier is for an ancestor of the later, unless at a
    vote in between, or at the later one, the earlier vote stood in the
    tower with a lockout that ended before the slot voted for then. *)
Theorem votes_respect_lockouts (anc : Slot -> gset Slot) t0 l1 ti si l2 tj sj t :
  (forall a b, a ∈ anc b -> anc a ⊆ anc b) -> (forall a b, a ∈ anc b -> a < b) ->
  on_fork anc (Tower.vote_state t0) ->
  voting_run anc t0 (l1 ++ (ti, si) :: l2 ++ [(tj, sj)]) t ->
  si ∈ anc sj \/ expired (l2 ++ [(tj, sj)]) si.
Proof.
  intros Htr Hbe H0 Hrun. rewrite app_comm_cons, app_assoc in Hrun.
  inversion Hrun as [E|log t' s h lv now r t1 Hlog Hl Hrec E]; subst; [by destruct l1|].
  apply app_inj_tail in E as [-> [= -> ->]].
  destruct (run_inv anc Htr Hbe t0 _ tj H0 Hlog) as (Hf & Hne & Hinv).
  destruct (Hinv _ _ _ _ eq_refl) as [Hx|[Hx|Hx]]; [| |right; by apply expired_app].
  all: destruct (vote_settles anc Htr Hbe tj sj si Hf Hl) as [[? _]|(t2 & s2 & v & Hin & Hv)];
    [apply Hne; by destruct l1|auto|by left|].
  all: right; exists t2, s2, v; split; [set_solver|done].
Qed.

(** The decision where no ancestor of the last vote is in the way. *)
Lemma fork_decision ancestors descendants progress total epoch_accounts latest self s last r d :
  (last_vote_ancestors ← match ancestors !! last with
                         | Some a => Ok a
                         | None => panic_unless (Tower.is_stray_last_vote self);; Ok ∅
                         end;
   switch_slot_ancestors ← unwrap (ancestors !! s);
   if (s =? last) || bool_decide (last ∈ (switch_slot_ancestors : gset Slot)) then Ok SameFork
   else if bool_decide (s ∈ (last_vote_ancestors : gset Slot)) then
     panic_unless (Tower.is_stray_last_vote self);; Ok (FailedSwitchThreshold 0 total)
   else Tower.tally_locked_out ancestors descendants progress total epoch_accounts latest
          last_vote_ancestors last r) = Ok d ->
  let lva := default ∅ (ancestors !! last) in
  let locked := locked_out_elsewhere ancestors descendants progress latest lva last r in
  let enough S := exceeds SWITCH_FORK_THRESHOLD (set_stake epoch_accounts S) total in
  exists A : gset Slot, ancestors !! s = Some A /\
    if bool_decide (s = last \/ last ∈ A) then d = SameFork
    else if bool_decide (s ∈ (lva : gset Slot))
    then Tower.is_stray_last_vote self = true /\ d = FailedSwitchThreshold 0 total
    else
      (exists S, d = SwitchProof Hash_default /\ (forall k, k ∈ S -> locked k) /\ enough S = true) \/
      (exists S, d = FailedSwitchThreshold (set_stake epoch_accounts S) total /\
         (forall k, k ∈ S <-> locked k) /\ (S = ∅ \/ enough S = false)).
Proof.
  intros H lva. inv_ok. rename x into lva', x0 into A.
  assert (lva' = lva) as -> by (unfold lva; destruct (ancestors !! last); by inv_ok).
  exists A. split; [done|].
  replace (bool_decide (s = last \/ last ∈ A)) with ((s =? last) || bool_decide (last ∈ A)).
  2:{ rewrite bool_decide_or. f_equal. destruct (Z.eqb_spec s last) as [->|].
    - by rewrite bool_decide_eq_true_2.
    - by rewrite bool_decide_eq_false_2. }
  destruct ((s =? last) || _); [by inv_ok|]. destruct (bool_decide (s ∈ lva)).
  - inv_ok. unfold panic_unless in *. by destruct (Tower.is_stray_last_vote self).
  - by apply locked_out_decision in H.
Qed.

(** C16: The decision on a switch, case by case. If fork choice knows an
    invalid ancestor of the last vote, a switch back to a strict ancestor
    of the vote is refused as a rollback to that invalid ancestor, and any
    other switch is allowed if the block voted for is gone or was replaced
    by one with another hash. In all other cases (no invalid ancestor, or
    one while the block voted for is still there and the switch is not
    back): a descendant of the last vote, or the vote's own slot, needs no
    switch; a switch back to an ancestor is decided only for a stray last
    vote, and refused with a reported stake of zero; a switch to another
    fork is allowed only if validators that are locked out on other forks
    hold more than the threshold of the stake, and if it is refused, the
    stake reported is that of all such validators, each counted once, and
    does not pass the threshold. *)
Theorem switch_decision_exact ancestors descendants progress total epoch_accounts latest fork_choice
    self s last h r d :
  Tower.last_voted_slot_hash self = Some (last, h) ->
  root_slot (Tower.vote_state self) = Some r ->
  Tower.make_check_switch_threshold_decision ancestors descendants progress total epoch_accounts
    latest fork_choice self s = Ok d ->
  let lva := default ∅ (ancestors !! last) in
  let locked := locked_out_elsewhere ancestors descendants progress latest lva last r in
  let enough S := exceeds SWITCH_FORK_THRESHOLD (set_stake epoch_accounts S) total in
  let by_stake :=
    (exists S, d = SwitchProof Hash_default /\ (forall k, k ∈ S -> locked k) /\ enough S = true) \/
    (exists S, d = FailedSwitchThreshold (set_stake epoch_accounts S) total /\
       (forall k, k ∈ S <-> locked k) /\ (S = ∅ \/ enough S = false)) in
  let by_fork :=
    exists A : gset Slot, ancestors !! s = Some A /\
      if bool_decide (s = last \/ last ∈ A) then d = SameFork
      else if bool_decide (s ∈ (lva : gset Slot))
      then Tower.is_stray_last_vote self = true /\ d = FailedSwitchThreshold 0 total
      else by_stake in
  exists hs, progress_get_hash progress s = Some hs /\
    match HeaviestSubtree.latest_invalid_ancestor fork_choice (last, h) with
    | Some a =>
        if HeaviestSubtree.is_strict_ancestor fork_choice (s, hs) (last, h)
        then d = FailedSwitchDuplicateRollback a
        else if bool_decide (progress_get_hash progress last = Some h) then by_fork
        else d = SwitchProof Hash_default
    | None => by_fork
    end.
Proof.
  intros Hl Er. unfold Tower.make_check_switch_threshold_decision, Tower.root. rewrite Hl, Er. cbn.
  intros H. inv_ok. rename x into hs. exists hs. split; [done|].
  set (by_fork := exists A : gset Slot, _).
  assert (Tower.duplicate_decision progress fork_choice (s, hs) (last, h) = None -> by_fork) as Hfork.
  { intros E. rewrite E in H. by apply fork_decision. }
  revert H Hfork. unfold Tower.duplicate_decision.
  destruct (HeaviestSubtree.latest_invalid_ancestor fork_choice (last, h)) as [a|]; [|by auto].
  cbn. destruct (HeaviestSubtree.is_strict_ancestor _ _ _); [by intros [= <-]|].
  destruct (progress_get_hash progress last) as [h'|]; repeat case_bool_decide; cbn; subst;
    try congruence; try (by intros [= <-]); by auto.
Qed.

(** C17: The stakes counted for a bank. If no account has voted for the slot
    of the bank or a later one, no assertion fails; the stake of a slot is
    that of the accounts whose newest vote still locked out at the bank is
    for the slot or a slot after it; total and weight are the sums over
    the accounts, and the intervals are exactly those of their lockouts. *)
Theorem voted_stakes_exact decode_vote my bank_slot ancestors get_frozen_hash vote_accounts seen latest :
  (forall x A, ancestors !! x = Some A -> x ∉ A) ->
  observe_all VotesForFrozenBanks.default_ seen = Ok latest ->
  (forall k stake a vs, vote_accounts !! k = Some (stake, a) -> vote_state decode_vote a = Some vs ->
     already_voted (last_voted_slot vs) bank_slot = false) ->
  exists cbs latest',
    collect_vote_lockouts decode_vote my bank_slot ancestors get_frozen_hash vote_accounts latest
      = Ok (cbs, latest') /\
    (forall s, default 0 (voted_stakes cbs !! s) =
       wrap u64_max (lsum (stake_for decode_vote bank_slot ancestors s) (map_to_list vote_accounts))) /\
    cbs_total_stake cbs = wrap u64_max (lsum (live_stake decode_vote) (map_to_list vote_accounts)) /\
    bank_weight cbs = wrap u128_max (lsum (weight_of decode_vote bank_slot) (map_to_list vote_accounts)) /\
    forall e start k, (start, k) ∈ default [] (lockout_intervals cbs !! e) <->
      has_interval decode_vote (map_to_list vote_accounts) e start k.
Proof.
  intros Hirr Hseen Hb. destruct (observe_all_tracks seen [] _ tracks_default) as (latest' & E & Ht).
  assert (latest' = latest) as -> by congruence.
  eapply collect_vote_lockouts_exact; [done|done|]. apply Forall_forall.
  intros [k [stake a]] Hin%elem_of_map_to_list vs Hvs. by eapply Hb.
Qed.

(** C32: After a restart the tower keeps just the votes that were not
    replayed. The newest slot of the root and the votes that is in the
    history of the replayed slots is the anchor; it and all older votes,
    which are in the history or too old for it, are dropped; the newer
    votes, none of which is in the history, are kept, and the root becomes
    the newer of the two roots. *)
Theorem restart_keeps_unreplayed_votes self replayed_root h last_vote self' :
  Tower.last_voted_slot self = Some last_vote ->
  Tower.adjust_lockouts_after_replay self replayed_root h = Ok self' ->
  exists r dropped kept a,
    root_slot (Tower.vote_state self) = Some r /\
    votes (Tower.vote_state self) = dropped ++ kept /\ votes (Tower.vote_state self') = kept /\
    root_slot (Tower.vote_state self') = Some (Z.max r replayed_root) /\
    let check := History.check (if r <=? replayed_root then h else History.add h r) in
    last (r :: (slot <$> dropped)) = Some a /\ check a = Found /\
    (forall x, x ∈ r :: (slot <$> dropped) -> check x = Found \/ check x = TooOld) /\
    forall v, v ∈ kept -> a < slot v /\ (check (slot v) = Future \/ check (slot v) = NotFound).
Proof.
  intros Hl. unfold Tower.adjust_lockouts_after_replay, Tower.root. rewrite Hl. intros H. inv_ok.
  destruct (Z.leb_spec x replayed_root) as [Hle|Hgt]; inv_ok.
  - apply (adjust_keeps _ _ x) in Hr3 as (dropped & kept & a & E & -> & H); [|done].
    exists x, dropped, kept, a. destruct (keep_votes_state self kept) as [Ev _].
    rewrite (proj2 (Z.leb_le _ _) Hle). destruct H as (? & ? & ? & ?).
    split_and!; [done|done|done|cbn; f_equal; lia|done..].
  - apply (adjust_keeps _ _ x) in H as (dropped & kept & a & E & -> & H); [|done].
    exists x, dropped, kept, a. destruct (keep_votes_state self kept) as [Ev ->].
    rewrite (proj2 (Z.leb_gt _ _) Hgt), Hr. destruct H as (? & ? & ? & ?).
    split_and!; [done|done|done|f_equal; lia|done..].
Qed.

(** ** A validator that leaves a fork *)
Module ValidatorSample.
(** Slots 1 and 2 follow slot 0; slot 10 follows slot 1 on another fork. *)
Definition anc (s : Slot) : gset Slot :=
  if s =? 1 then {[0]} else if (s =? 2) || (s =? 10) then {[0; 1]} else ∅.
Definition vote (t : Tower.t) (s : Slot) : Tower.t :=
  snd (value_or (None, t) (Tower.record_bank_vote_and_update_lockouts t s [s] None 100)).
Definition t0 : Tower.t := Tower.default_.
Definition t1 : Tower.t := vote t0 1.
Definition t2 : Tower.t := vote t1 2.
Definition t3 : Tower.t := vote t2 10.

Lemma anc_cases a b : a ∈ anc b -> (a = 0 /\ b ∈ [1; 2; 10]) \/ (a = 1 /\ b ∈ [2; 10]).
Proof.
  unfold anc. destruct (Z.eqb_spec b 1) as [->|]; [set_solver|].
  destruct (Z.eqb_spec b 2) as [->|]; cbn; [set_solver|].
  destruct (Z.eqb_spec b 10) as [->|]; cbn; set_solver.
Qed.
Lemma anc_below a b : a ∈ anc b -> a < b.
Proof. intros [[-> H]|[-> H]]%anc_cases; repeat (apply elem_of_cons in H as [->|H]; [lia|]); set_solver. Qed.
Lemma anc_trans a b : a ∈ anc b -> anc a ⊆ anc b.
Proof.
  intros [[-> H]|[-> H]]%anc_cases; [change (anc 0) with (∅ : gset Slot); set_solver|].
  repeat (apply elem_of_cons in H as [->|H]; [apply (bool_decide_unpack _); by vm_compute|]). set_solver.
Qed.

Lemma run_next_vote log t s :
  voting_run anc t0 log t -> Tower.is_locked_out t s (anc s) = Ok false ->
  is_ok (Tower.record_bank_vote_and_update_lockouts t s [s] None 100) = true ->
  voting_run anc t0 (log ++ [(t, s)]) (vote t s).
Proof.
  intros Hr Hl Ho. eapply Run_vote; [done|done|].
  rewrite (is_ok_value (None, t) _ Ho). unfold vote. apply f_equal, surjective_pairing.
Qed.

Lemma sample_run : voting_run anc t0 [(t0, 1); (t1, 2); (t2, 10)] t3.
Proof.
  apply (run_next_vote [(t0, 1); (t1, 2)]); [|by vm_compute|by vm_compute].
  apply (run_next_vote [(t0, 1)]); [|by vm_compute|by vm_compute].
  apply (run_next_vote []); [constructor|by vm_compute|by vm_compute].
Qed.

Lemma votes_respect_lockouts_witness :
  voting_run anc t0 [(t0, 1); (t1, 2); (t2, 10)] t3 /\ (2 ∈ anc 10 \/ expired [(t2, 10)] 2).
Proof.
  split; [apply sample_run|].
  apply (votes_respect_lockouts anc t0 [(t0, 1)] t1 2 [] t2 10 t3);
    [apply anc_trans|apply anc_below| |apply sample_run].
  change (Tower.vote_state t0) with (Tower.with_root VoteState_default (Some 0)).
  split; cbn; [|lia|set_solver|set_solver]. split; [apply Sorted.SSorted_nil|by intros []..].
Defined.

(** Two other validators, with 60 and 40 of the stake; the first is locked out on
    the fork of slot 10 until slot 20. *)
Definition heavy : Pubkey := [7].
Definition light : Pubkey := [8].
Definition account (d : Z) : AccountSharedData :=
  {| lamports := 1; data := [d]; owner := vote_program_id; executable := false; rent_epoch := 0 |}.
Definition vote_accounts : VoteAccountsHashMap :=
  {[heavy := (60, account 1); light := (40, account 2)]}.
Definition ancestors : Ancestors :=
  {[0 := ∅; 1 := anc 1; 2 := anc 2; 10 := anc 10]}.
Definition descendants : Ancestors :=
  {[0 := {[1; 2; 10]}; 1 := {[2; 10]}; 2 := ∅; 10 := ∅]}.
Definition stats (s : Slot) (intervals : LockoutIntervals) : ForkStats :=
  {| computed := true; fs_lockout_intervals := intervals; fs_bank_hash := Some [s] |}.
Definition progress (intervals : LockoutIntervals) : ProgressMap :=
  {[1 := stats 1 ∅; 2 := stats 2 ∅; 10 := stats 10 intervals]}.
Definition fork_choice : HeaviestSubtreeForkChoice :=
  {| fork_infos := ∅; latest_votes := ∅; ForkChoice.root := (0, [0]) |}.

Abbreviation decide_switch intervals :=
  (Tower.make_check_switch_threshold_decision ancestors descendants (progress intervals) 100
    vote_accounts VotesForFrozenBanks.default_ fork_choice t2 10).

Lemma switch_decision_exact_witness :
  (decide_switch {[20 := [(10, heavy)]]} = Ok (SwitchProof Hash_default) /\
   exists S, exceeds SWITCH_FORK_THRESHOLD (set_stake vote_accounts S) 100 = true) /\
  decide_switch ∅ = Ok (FailedSwitchThreshold 0 100).
Proof.
  assert (H : decide_switch {[20 := [(10, heavy)]]} = Ok (SwitchProof Hash_default)) by (by vm_compute).
  split; [split; [exact H|]|by vm_compute].
  destruct (switch_decision_exact _ _ _ _ _ _ _ t2 10 2 [2] 0 _
              ltac:(by vm_compute) ltac:(by vm_compute) H) as (hs & _ & A & HA & Hd).
  vm_compute in HA. injection HA as <-.
  destruct Hd as [(S & _ & _ & HS)|(S & ? & _)]; [exists S; exact HS|done].
Defined.

(** The first validator has voted for slot 1, the second for slots 1 and 2. *)
Definition decode (d : list Z) : option VoteStateVersions :=
  match d with
  | [1] => Some (Current (Tower.vote_state t1))
  | [2] => Some (Current (Tower.vote_state t2))
  | _ => None
  end.

Lemma voted_stakes_exact_witness :
  exists cbs latest,
    collect_vote_lockouts decode heavy 3 ancestors (fun s => Some [s]) vote_accounts
      VotesForFrozenBanks.default_ = Ok (cbs, latest) /\
    default 0 (voted_stakes cbs !! 1) = 100 /\ default 0 (voted_stakes cbs !! 2) = 40 /\
    cbs_total_stake cbs = 100.
Proof.
  destruct (voted_stakes_exact decode heavy 3 ancestors (fun s => Some [s]) vote_accounts []
              VotesForFrozenBanks.default_) as (cbs & latest & E & Hs & Ht & _).
  - intros x A HA. apply (map_Forall_lookup_1 (fun x A => x ∉ A) ancestors x A); [|done].
    apply (bool_decide_unpack _). by vm_compute.
  - done.
  - intros k stake a vs Ha Hvs. unfold vote_accounts in Ha.
    apply lookup_insert_Some in Ha as [[<- [= <- <-]]|[_ Ha]];
      [|apply lookup_singleton_Some in Ha as [<- [= <- <-]]]; vm_compute in Hvs; injection Hvs as <-; by vm_compute.
  - exists cbs, latest. rewrite (Hs 1), (Hs 2), Ht. split; [exact E|]. by vm_compute.
Defined.

(** Slots 1 and 2 were replayed before the restart; the vote for slot 3 stays. *)
Definition saved : Tower.t := vote t2 3.
Definition history : SlotHistory := History.add (History.add History.default_ 1) 2.

Lemma restart_keeps_unreplayed_votes_witness :
  exists self' dropped kept, Tower.adjust_lockouts_after_replay saved 1 history = Ok self' /\
    votes (Tower.vote_state saved) = dropped ++ kept /\ votes (Tower.vote_state self') = kept /\
    root_slot (Tower.vote_state self') = Some 1.
Proof.
  assert (E : is_ok (Tower.adjust_lockouts_after_replay saved 1 history) = true) by (by vm_compute).
  apply (is_ok_value saved) in E.
  destruct (restart_keeps_unreplayed_votes saved 1 history 3 _ ltac:(by vm_compute) E)
    as (r & dropped & kept & a & Hr & Hv & Hk & Hroot & _).
  eexists _, dropped, kept. split_and!; [exact E|exact Hv|exact Hk|].
  rewrite Hroot. vm_compute in Hr. injection Hr as <-. done.
Defined.
End ValidatorSample.
